(* ===== verification/_CoqProject ===== *)
-Q . S2P
Prelude.v
Machine.v
Float.v
Prog.v
Host.v
RegTypes.v
RegStorage.v
RegGuards.v
RegEvents.v
RegInventory.v
RegStaking.v
RegGovernance.v
RegDispute.v
RegLifecycle.v
RegSystem.v
RegSafety.v
RegGovSafety.v
RegSpecs.v
RegIndex.v
RegExamples.v
PayTypes.v
PayStorage.v
PayPurchase.v
PayRefund.v
PayWithdraw.v
PayTransfer.v
PayGovernance.v
PayPricing.v
PaySystem.v
PayFrames.v
PayEscrow.v
PayGovSafety.v
PaySpecs.v
PayConfig.v
PayExamples.v
ProSub.v
ProSpecs.v
ProExamples.v
CrdtClock.v
CrdtSets.v
CrdtLww.v
CrdtReplicas.v
CrdtSync.v
ZkBytes.v
ZkGroup.v
ZkMerkle.v
ZkProof.v
ZkCheckin.v
ZkGate.v
ZkExamples.v
IdxEvents.v
IdxPool.v
IdxStore.v
IdxSweep.v
IdxSpecs.v
IdxPipeline.v
IdxSafety.v
IdxExamples.v
WaitPow.v
WaitQueue.v
WaitRoom.v
WaitBucket.v
WaitRuns.v
WaitSpecs.v
SrvErrors.v
SrvRate.v
SrvAuth.v
SrvAuthSpecs.v
SrvMarket.v
SrvPages.v
SrvListing.v
SrvQr.v
SrvEvents.v
SrvPricing.v
SrvListener.v
SrvRates.v
SrvProfile.v
SrvConfig.v
SrvDisputes.v
SrvExamples.v
