(* ===== verification/Prelude.v ===== *)
(** * Eventopry: a verification development of the contracts and the server

    Eventopry is a ticketing platform.  Its core is three Soroban smart
    contracts written in Rust under [src/contract/contracts]:

    - [event_registry] keeps events, their tiers and inventory, organizers and
      their blacklist, collateral staking, loyalty scores, series passes,
      multi-signature governance and disputes;
    - [ticket_payment] sells tickets for registered events, holds the money in
      escrow, refunds, pays out, runs resale and auctions; it calls the
      registry's [increment_inventory] and [decrement_inventory], a price
      oracle and the subscription contract;
    - [pro_subscription] sells the memberships that waive the platform fee.

    An HTTP server ([src/server], Rust) and web and mobile clients
    ([src/apps], TypeScript) surround them.  This library models the three
    contracts, whole, and of the server the replicated data types with their
    synchronisation endpoint, the anonymous check-in with its zero-knowledge
    proofs, the indexer that carries the contracts' events into the server's
    database, the virtual waiting room in front of the checkout, and of its
    HTTP interface errors, rate limits, authentication, the resale marketplace,
    pagination, events with their listings and ratings, the codes that admit
    to them, price quotes, the listener that feeds the ticket table, exchange
    rates, profiles of organizers, disputes and the configuration.

    ** How the contracts are modelled

    A contract's persistent and instance storage is one record, [State]
    ([RegTypes], [PayTypes], [ProSub]): a field per variant of [DataKey], an
    [option] for a constant key and a finite map for a key with arguments; the
    events published are its last field.  An entry point is a function of the
    environment ([Host.Env]: ledger time, the contract's own address, the
    addresses that sign) and the state to a [call A = res error (A * State)]:
    [Ok] with the new state, [Err] with the contract's error, or [Panic] where
    the host traps (a missing authorisation, an overflow of a plain operator,
    an [unwrap] of nothing, a failed token transfer).  Errors and traps
    discard the state, as the host does.  Where an entry point moves tokens or
    calls the registry, the ledger [W] and the registry [R] are passed and
    returned too.  Integers are [Z]; each checked, saturating or trapping
    operation of the source is written with its range ([Machine]).

    Handlers of the server are functions of the part of the database or of
    the shared memory they use, to a [res] of the HTTP error; a handler whose
    locks are taken one after the other is a sequence of phases that
    interleave with those of other requests ([CrdtSync]).  The three tasks of
    the indexer interleave likewise, one action per statement on the database
    or the channel, with failures and restarts ([IdxPipeline]).  The waiting
    room is written as programs, trees of Redis commands ([WaitQueue]): a
    command is atomic, and what Redis sees of any number of programs is a
    sequence of commands ([WaitRuns]).  The handlers over PostgreSQL are
    programs of SQL statements ([Prog]): [prun] runs one alone, [behaves] lets
    others change the tables between its statements, [pool_step] interleaves
    any number of them, [runs] runs one alone whose commands meet different
    conditions; a statement can fail at any time.

    ** Interfaces

    What lies outside a component is a class: [TokenLedger] and [TokenLaws]
    (token contracts, the documented behaviour of SEP-41; [SimpleLedger] runs),
    [TicketPaymentInterface] (what the registry asks of the payments),
    [EventRegistryInterface], [PriceOracleInterface] and
    [ProSubscriptionInterface] (what the payments ask of the others, with the
    signatures that [ticket_payment] declares), [HostCrypto] (hashes of the
    host), [JsonKey] (the JSON text of a value), [Ristretto] and
    [RistrettoLaws] (the group, its encoding and SHA-512 of [curve25519-dalek]
    and [sha2]), [HexCodec] and [HexLaws], [XdrCodec] and [Uuids] (the
    decoding of XDR values and of UUIDs), [Sha256] and [Tokens] (the hash and
    the signed grants of the waiting room), [Signing], [QrCrypto], [Base64]
    and [CursorCodec] (signatures and tokens, encodings).  [StateCrdt] and [StateCrdtLaws]
    are the other way round: what a replicated type promises, from which
    convergence follows once ([receive_all]); both set types discharge it.
    [ProExamples] instantiates the subscription interface of the payments by
    the model of the subscription contract.

    ** The files

    - [Prelude]: the result type and its notations, record update, the
      tactics that run a monadic computation backwards ([run], [run_all]).
    - [Machine]: machine integers, sums over finite maps, shares rounded down.
    - [Float]: double-precision numbers, as rationals with the rounding of
      IEEE 754; rounding is monotone, exact on 53 bits, and its error bounded.
    - [Host]: environment, authorisation, token contracts; lists kept in
      numbered buckets.
    - [Prog]: programs of commands, their runs, interference and safety.
    - [RegTypes], [RegStorage], [RegGuards]: [types.rs], [error.rs],
      [topics.rs], [bridge.rs]; [storage.rs]; [auth.rs] and the validators.
    - [RegEvents], [RegInventory], [RegStaking], [RegGovernance],
      [RegDispute]: the entry points of [lib.rs], [bridge.rs], [teleport.rs]
      and [dispute.rs], with the invariants of each component.
    - [RegLifecycle]: what one operation may do to an event record.
    - [RegSystem]: the registry as a state machine.  [invoke] dispatches the
      entry points; [reachable self allow w s] holds of the ledgers and states
      that a history of successful invocations allowed by [allow], interleaved
      with token movements of third parties, produces.
    - [RegSafety], [RegGovSafety] (governance and disputes), [RegIndex]:
      invariants and safety over all histories.  [RegSpecs]: the inventory
      operations.
    - [RegExamples]: concrete histories and the theorems applied to them, and
      histories that show where the guarantees end.
    - [PayTypes], [PayStorage]: [types.rs], [payment_types.rs], [keys.rs],
      [error.rs], [interfaces.rs], [governance.rs]; [storage.rs], [resale.rs].
    - [PayPurchase], [PayRefund], [PayWithdraw], [PayTransfer],
      [PayGovernance], [PayPricing]: the entry points of [contract.rs],
      [escrow.rs], [auction.rs] and [bonding_curve.rs]; a long function is
      the sequence of its stages.  [PayPricing] has the theorems on prices too.
    - [PaySystem]: the payments as a state machine; [PayFrames]: which
      operation changes which part of the state.
    - [PayEscrow], [PayGovSafety], [PaySpecs], [PayConfig]: the theorems;
      [PayExamples]: histories, and where the guarantees end.
    - [ProSub]: the subscription contract; [ProSpecs] its theorems,
      [ProExamples] its composition with the payments, and histories.
    - [CrdtClock], [CrdtSets], [CrdtLww]: [crdt/*.rs]; [CrdtSync]:
      [handlers/sync.rs], and examples; [CrdtReplicas]: replicas and
      convergence.
    - [ZkBytes], [ZkGroup], [ZkMerkle], [ZkProof]: [utils/zkp_verifier.rs],
      byte strings and transcripts, the group, Merkle roots, prover, verifier
      and wire format, with completeness, soundness and encoding.
    - [ZkCheckin]: [handlers/zk_checkin.rs] over the three tables of its
      migration; [ZkGate]: its theorems over all histories; [ZkExamples]: a
      concrete group and histories.
    - [IdxEvents]: [models/indexer_event.rs]; [IdxPool], [IdxStore],
      [IdxSweep]: [services/indexer.rs] and [blockchain_checkpoint.rs], the
      pool of RPC nodes, the tables and how an event changes them, finalizer
      and replay; [IdxPipeline]: its tasks as a system of actions.
      [IdxSpecs], [IdxSafety]: the theorems; [IdxExamples]: runs.
    - [WaitPow]: [services/pow.rs]; [WaitQueue]: [services/queue.rs] with its
      Lua script; [WaitRoom]: [handlers/waiting_room.rs].  [WaitBucket] (one
      evaluation of the script), [WaitRuns] (sequences of commands),
      [WaitSpecs] (keys, joining and what it takes, estimates, the worker; runs
      and schedules): the theorems.
    - [SrvErrors]: [utils/error.rs], and what the handlers share of SQL;
      [SrvRate]: [utils/rate_limit.rs] and its theorem.
    - [SrvAuth]: [handlers/auth.rs], [handlers/api_keys.rs] and the
      middleware [api_key_auth.rs], [csrf.rs], [admin_auth.rs]; [SrvAuthSpecs]:
      who a request comes from, and the life of a key.
    - [SrvMarket]: [handlers/marketplace.rs], its invariant and its
      composition with the payment contract.
    - [SrvPages]: [utils/pagination.rs], [utils/cursor_pagination.rs];
      [SrvListing]: [handlers/follows.rs] and three listings of
      [handlers/events.rs], and what following their cursors shows.
      [SrvQr]: [handlers/qr_payload.rs] and what a scan promises.
    - [SrvEvents]: [handlers/events.rs] but for its searches, with
      [models/event_translation.rs]: creation, the page of an event, ratings,
      moderation, tickets; and the cache.  [SrvPricing]:
      [handlers/pricing.rs], the same prices as [PayPricing] in doubles.
      [SrvListener]: [handlers/soroban_listener.rs], loop, queue and workers as
      concurrent actions.  [SrvExamples]: runs and schedules.
    - [SrvRates]: [handlers/rates.rs], the caches and the circuit breaker;
      [SrvProfile]: [handlers/profile.rs] and [models/organizer_profile.rs];
      [SrvDisputes]: [handlers/governance.rs] and [models/dispute.rs];
      [SrvConfig]: [config/mod.rs], [config/cors.rs], [config/security.rs].
      Each with its theorems and examples.

    ** What the theorems show

    Registry.  No event is oversold, whatever the history
    ([reachable_event_ok]); a sale succeeds exactly when it is legal and
    changes exactly what it should ([increment_inventory_iff],
    [increment_inventory_effect]); a refund undoes it on the inventory
    ([sale_refund_roundtrip]).  The identity of an event is immutable,
    cancellation final, every change authorised ([invoke_event_evolution],
    [event_write_authorised]); the active counter and the organizer index are
    exact ([reachable_active_count], [organizer_index_complete]).  Stakes and
    totals are exact, the contract is solvent, rewards are proportional
    ([reachable_staking_exact], [reachable_solvent],
    [distribute_proportional]).  Proposals take effect only by quorum
    ([execute_needs_quorum]); tallies are exact and rulings final
    ([reachable_tally_exact], [ruling_is_final]).

    Payments.  A sale never makes the contract owe more than it gains
    ([sale_solvent]), its division is exact ([split_payment_correct]); the
    escrow totals agree ([reachable_escrow_agree]); withdrawals, resales and
    bids pay what they should ([withdraw_organizer_correct],
    [resale_correct], [place_bid_correct]); codes work once
    ([code_hash_single_use]); proposals need a majority
    ([execute_needs_majority]); prices of curves and Dutch auctions are
    additive, bounded and monotone ([bonding_curve_split],
    [dutch_price_correct]), and a commitment can be revealed
    ([commit_reveal]).

    Subscriptions.  Membership is bought and only bought
    ([pro_only_by_paying]), and waives the fee ([subscription_waives_fee]) of
    a payment contract that knows the subscription contract, which no entry
    point brings about ([waiver_unreachable]).

    Replication.  The clock order is a lattice ([clock_lattice]); both set
    types converge under any order and repetition of messages
    ([or_set_converges], [lww_converges]), but removals from the first do not
    replicate ([removal_not_replicated]); the endpoint is safe under every
    interleaving ([sync_safe]), and sends the deltas the client has, not those
    it lacks ([server_deltas_spec]).

    Check-in.  Honest proofs verify ([honest_proof_verifies]), answers to two
    challenges yield a ticket ([special_soundness]), the root binds the set
    ([merkle_root_binds]), encodings are unique ([codec_unique]).  A sealed
    set never changes ([sealed_set_frozen]), a ticket holder is admitted
    ([ticket_holder_admitted]), a nullifier once ([nullifier_single_use]); but
    the caller names the epoch ([epoch_reentry]).

    Indexer.  Over all interleavings only final events are applied
    ([only_final_applied]) and, without failures, none that was fetched is
    lost ([nothing_lost]); ordered histories can be applied a second time
    ([replay_idempotent]); sweeps drain the buffer ([sweeps_drain]) unless a
    row cannot be applied ([poison_stalls]); nodes are tried in turn
    ([node_pool_fair]).

    Waiting room.  Nobody is overtaken ([no_overtaking]), at most twice the
    rate enters in a minute, whatever the rounding ([admissions_bounded]), and
    spaced ticks let everybody in ([queue_drains]); joining is fair and
    idempotent ([join_correct]) and costs a proof of work
    ([join_needs_work], [verify_pow_bits], [solve_pow_least]); announced waits
    are exact to a second ([estimate_accurate]).

    Server.  Requests come from whom they say ([sign_in_authentic],
    [middleware_authentic]), a key works from its creation
    ([created_key_works]) to its revocation ([revoked_key_refused]); at most
    twice the limit passes in a window ([requests_bounded]).  The tables of
    the market stay sound under every interleaving ([market_stays_ok]), and
    listings show what the contract settles ([view_matches_contract]).  Page
    parameters are valid ([validated_pagination]), pages show every row once
    ([pages_partition]), while cursors lose a row per page ([cursors_skip]).
    A ticket is scanned for its holder, and once ([scan_authentic]); a fresh
    code scans ([attendee_code_scans]), but so does one that anybody signs
    ([own_key_accepted]).  Ratings and their aggregates agree at every moment
    ([ratings_exact], [summary_exact]); a valid request creates its event, any
    other is refused ([create_event_correct]); the page of an event is current
    ([get_event_current]).  Quotes are the contract's prices to a stroop
    ([quote_matches_contract], [spot_matches_contract]), less than fifteen
    seconds old ([quote_fresh]), and charts are in order
    ([dutch_series_sound]).  The listener loses nothing while Redis answers
    ([no_event_lost]) and writes tickets only for confirmed purchases
    ([synced_tickets_confirmed]).  Exchange rates are those the provider
    reported, and recent ([rates_answered_reported]); the breaker refines a
    machine of two states ([request_moves]), so that a provider that fails is
    asked a bounded number of times ([outage_bounded]).  The cache of profiles
    does not show ([profile_cache_transparent]), profiles stay valid
    ([profiles_stay_valid]), a wallet sees each of its tickets once
    ([wallet_tickets_grouped]).  Disputes are resolved by the exact quorum
    ([quorum_exact], [resolve_correct]), and no tally exceeds the votes
    ([tallies_bounded]).  A server that starts is configured soundly
    ([started_checked]), and one that does not reports every fault
    ([config_validated]).

    The example files prove, by running the model, where the guarantees end:
    among others the legacy writer [store_event], archiving past a bucket, a
    change of the staking token, the dust sweep, stale resale listings,
    refunds after a check-in.

    ** Bounds and fuel

    Three loops of the source are not structural.  [get_escrow_milestones] reads
    numbered entries until one is missing: [milestones_from] has the size of
    the map plus two as fuel, enough by [get_escrow_milestones_fuel].  [merkle_root]
    halves its level until one is left: [merkle_loop] has the number of leaves
    as fuel, which [merkle_root_binds] shows to be enough.  [solve_loop] has
    the turns of the source's range.  [powi_loop] has the 32 bits of its exponent.
    [fetch_loop] runs over the three attempts.
    All other loops run over finite lists, maps or ranges.  [well_typed] and [typed] record
    that arguments arrive at their machine width.

    ** What is not modelled

    The time to live of storage entries (extension is the identity; an entry
    never expires), gas limits, the installation of code by [upgrade], the
    host's encoding of values; of the indexer, its mirror in Redis and the
    columns that keep times; of the server, the texts that crates add to
    error messages, logs, the routing table, the searches of events, whose SQL
    is assembled from texts, and the remaining handlers (positions on a map,
    affiliates, uploads, web sockets, health), which are single SQL queries and
    calls to other services; the clients. *)

From Stdlib Require Export ZArith Lia.
From stdpp Require Export base sorting option strings sets list gmap.

Declare Scope soroban_scope.
Delimit Scope soroban_scope with soroban.
Open Scope soroban_scope.
Open Scope Z_scope.

Create HintDb soroban.

(** An account or contract address, as its strkey (the text that
    [Address::to_string] returns; the encoding is injective). *)
Abbreviation Address := string (only parsing).

(** ** Outcomes of a contract invocation

    An entry point returns [Ok], a contract error [Err e], or traps
    ([Panic]: failed [require_auth], [unwrap] of [None], arithmetic
    overflow with [overflow-checks = true], a trap in a callee).  The host
    rolls the storage of the invocation back unless it returns [Ok], so only
    [Ok] carries a new state. *)
Inductive res (E A : Type) : Type :=
| Ok (a : A)
| Err (e : E)
| Panic.
Arguments Ok {E A} a.
Arguments Err {E A} e.
Arguments Panic {E A}.

Definition rbind {E A B} (m : res E A) (k : A → res E B) : res E B :=
  match m with
  | Ok a => k a
  | Err e => Err e
  | Panic => Panic
  end.

Notation "'let!' x := m 'in' k" := (rbind m (fun x => k))
  (at level 10, x name, m at level 200, k at level 200,
   format "'[v' 'let!'  x  :=  m  'in'  '/' k ']'") : soroban_scope.
Notation "'let!' ' p := m 'in' k" :=
  (rbind m (fun x => match x with p => k end))
  (at level 10, p pattern, m at level 200, k at level 200) : soroban_scope.
Notation "'do!' m 'in' k" := (rbind m (fun _ => k))
  (at level 10, m at level 200, k at level 200,
   format "'[v' 'do!'  m  'in'  '/' k ']'") : soroban_scope.

(** [if b { return Err(e) }] *)
Definition fail_if {E} (b : bool) (e : E) : res E unit :=
  if b then Err e else Ok tt.

(** [o.ok_or(e)?] *)
Definition ok_or {E A} (o : option A) (e : E) : res E A :=
  match o with Some a => Ok a | None => Err e end.

(** [o.unwrap()], and every checked operation whose failure traps. *)
Definition unwrap {E A} (o : option A) : res E A :=
  match o with Some a => Ok a | None => Panic end.

(** [r.unwrap()] on a result: an error becomes a trap. *)
Definition unwrap_res {E A} (r : res E A) : res E A :=
  match r with Ok a => Ok a | _ => Panic end.

(** [if b { panic!() }] *)
Definition panic_if {E} (b : bool) : res E unit :=
  if b then Panic else Ok tt.

Definition is_ok {E A} (r : res E A) : bool :=
  match r with Ok _ => true | _ => false end.

Section Outcome_lemmas.
Context {E A B : Type}.

Lemma rbind_Ok (m : res E A) (k : A → res E B) r :
  rbind m k = Ok r → ∃ a, m = Ok a ∧ k a = Ok r.
Proof. destruct m; simpl; [eauto | discriminate | discriminate]. Qed.

Lemma fail_if_Ok b (e : E) u : fail_if b e = Ok u → b = false.
Proof. by destruct b. Qed.

Lemma panic_if_Ok b u : @panic_if E b = Ok u → b = false.
Proof. by destruct b. Qed.

Lemma ok_or_Ok (o : option A) (e : E) a : ok_or o e = Ok a → o = Some a.
Proof. destruct o; simpl; congruence. Qed.

Lemma unwrap_Ok (o : option A) a : @unwrap E A o = Ok a → o = Some a.
Proof. destruct o; simpl; congruence. Qed.

Lemma unwrap_res_Ok (r : res E A) a : unwrap_res r = Ok a → r = Ok a.
Proof. destruct r; simpl; congruence. Qed.
End Outcome_lemmas.

(** A monadic left fold, for the [for] loops that can fail. *)
Fixpoint rfold {E S A} (f : S → A → res E S) (l : list A) (s : S) : res E S :=
  match l with
  | [] => Ok s
  | a :: l => let! s := f s a in rfold f l s
  end.

(** An invariant of the loop body is an invariant of the loop. *)
Lemma rfold_ind {E S A} (f : S → A → res E S) (P : S → Prop) l s s' :
  P s → (∀ a t t', a ∈ l → P t → f t a = Ok t' → P t') →
  rfold f l s = Ok s' → P s'.
Proof.
  revert s; induction l as [|a l IH]; intros s Hs Hf H; simpl in H.
  - by injection H as <-.
  - apply rbind_Ok in H as (t & Ht & H).
    eapply IH; [eapply Hf; [left|exact Hs|exact Ht] | | exact H].
    intros b u u' Hb; apply Hf; by right.
Qed.

(** What no turn of the loop changes, the loop does not change. *)
Lemma rfold_constant {E S A T} (g : S → T) (f : S → A → res E S) l s s' :
  (∀ a t t', f t a = Ok t' → g t' = g t) → rfold f l s = Ok s' → g s' = g s.
Proof.
  intros Hf Hl. apply (rfold_ind _ (λ t, g t = g s)) in Hl; [done|done|].
  intros a t t' _ Ht Hs. rewrite <- Ht. by eapply Hf.
Qed.

(** ** Tactics

    [run H] opens a successful call [H : f ... = Ok r] (already unfolded):
    every sequenced guard, lookup and checked operation becomes a hypothesis.
    [run_split H] also splits on the conditionals it meets. *)
Ltac bool_props :=
  repeat match goal with
  | H : negb _ = true |- _ => apply negb_true_iff in H
  | H : negb _ = false |- _ => apply negb_false_iff in H
  | H : _ && _ = true |- _ => apply andb_true_iff in H as [? ?]
  | H : _ || _ = false |- _ => apply orb_false_iff in H as [? ?]
  | H : bool_decide _ = true |- _ => apply bool_decide_eq_true in H
  | H : bool_decide _ = false |- _ => apply bool_decide_eq_false in H
  end.

Ltac run_open H :=
  lazymatch type of H with
  | rbind _ _ = Ok _ =>
      let x := fresh "x" in let E := fresh "E" in
      apply rbind_Ok in H as (x & E & H);
      cbv beta iota in E; cbv beta iota in H;
      try run_open E; try run_open H
  | Ok _ = Ok _ => injection H as H; try (subst; [])
  | Err _ = Ok _ => discriminate H
  | Panic = Ok _ => discriminate H
  | fail_if _ _ = Ok _ => apply fail_if_Ok in H
  | panic_if _ = Ok _ => apply panic_if_Ok in H
  | ok_or _ _ = Ok _ => apply ok_or_Ok in H
  | unwrap _ = Ok _ => apply unwrap_Ok in H
  | unwrap_res _ = Ok _ => apply unwrap_res_Ok in H; try run_open H
  end.

Ltac units := repeat match goal with u : unit |- _ => destruct u end.

Ltac run H := cbv zeta in H; run_open H; units; bool_props.

Ltac run_split H :=
  repeat first
    [ progress run H
    | lazymatch type of H with
      | (if ?b then _ else _) = Ok _ => let E := fresh "E" in destruct b eqn:E
      | (match ?o with Some _ => _ | None => _ end) = Ok _ =>
          let E := fresh "E" in destruct o eqn:E
      end ];
  try discriminate; bool_props.

(** Opens every successful computation of the context, conditionals
    included. *)
Ltac run_all :=
  repeat match goal with
  | H : rbind _ _ = Ok _ |- _ => progress run H
  | H : Ok _ = Ok _ |- _ => progress run H
  | H : Err _ = Ok _ |- _ => discriminate H
  | H : Panic = Ok _ |- _ => discriminate H
  | H : fail_if _ _ = Ok _ |- _ => apply fail_if_Ok in H
  | H : (if ?b then _ else _) = Ok _ |- _ =>
      let E := fresh "E" in destruct b eqn:E; try discriminate H
  | H : (match ?o with Some _ => _ | None => _ end) = Ok _ |- _ =>
      let E := fresh "E" in destruct o eqn:E; try discriminate H
  | H : (let (_, _) := ?p in _) = Ok _ |- _ => let E := fresh "E" in destruct p eqn:E
  end; units; bool_props.

(** ** Records with updates

    [Eta R] lists the fields of [R] once; [r ⟨ f := v ⟩] and [r ⟨ f ::= g ⟩]
    are derived from it for every projection [f]. *)
Class Eta (R : Type) := eta_expand : R → R.
Class Setter {R T : Type} (proj : R → T) := upd : (T → T) → R → R.
Arguments upd {R T} proj {_} _ _.

Ltac derive_setter R T proj :=
  let i := constr:(_ : Eta R) in
  let e := eval hnf in i in
  let p := eval pattern proj in e in
  lazymatch p with
  | ?f _ =>
      let t := eval cbv beta in (fun (g : T -> T) (r : R) => f (fun x => g (proj x)) r) in
      exact t
  end.

#[global] Hint Extern 0 (@Setter ?R ?T ?proj) => (derive_setter R T proj) : typeclass_instances.

Notation "r '⟨' f ':=' v '⟩'" := (upd f (fun _ => v) r)
  (at level 1, left associativity, f at level 50, v at level 200,
   format "r  '⟨'  f  ':='  v  '⟩'") : soroban_scope.
Notation "r '⟨' f '::=' g '⟩'" := (upd f g r)
  (at level 1, left associativity, f at level 50, g at level 200,
   format "r  '⟨'  f  '::='  g  '⟩'") : soroban_scope.
