(* ===== verification/Machine.v ===== *)
(** * Machine integers of the contracts

    [u32], [u64] and [i128] are kept as [Z] with their ranges written out.
    The workspace compiles with [overflow-checks = true], so a plain [+] that
    leaves the range traps; [checked_*] returns [None]; [saturating_*] clamps;
    division truncates towards zero. *)

From S2P Require Import Prelude.

Definition u32_max : Z := 2 ^ 32 - 1.
Definition u64_max : Z := 2 ^ 64 - 1.
Definition i128_max : Z := 2 ^ 127 - 1.
Definition i128_min : Z := - 2 ^ 127.

Definition in_u32 (z : Z) : bool := (0 <=? z) && (z <=? u32_max).
Definition in_u64 (z : Z) : bool := (0 <=? z) && (z <=? u64_max).
Definition in_i128 (z : Z) : bool := (i128_min <=? z) && (z <=? i128_max).

(** The mathematical result when it fits the width, [None] otherwise:
    [a.checked_add(b)] is [checked_i128 (a + b)], and a plain [a + b] is
    [unwrap (checked_u32 (a + b))]. *)
Definition checked_u32 (z : Z) : option Z := if in_u32 z then Some z else None.
Definition checked_u64 (z : Z) : option Z := if in_u64 z then Some z else None.
Definition checked_i128 (z : Z) : option Z := if in_i128 z then Some z else None.

(** [a.checked_div(b)] on [i128]. *)
Definition checked_div (a b : Z) : option Z :=
  if b =? 0 then None else checked_i128 (Z.quot a b).

Definition sat_u32 (z : Z) : Z := Z.max 0 (Z.min u32_max z).
Definition sat_u64 (z : Z) : Z := Z.max 0 (Z.min u64_max z).
Definition sat_i128 (z : Z) : Z := Z.max i128_min (Z.min i128_max z).

(** [n.div_ceil(d)] on [u32]. *)
Definition div_ceil (n d : Z) : Z := (n + d - 1) / d.

(** [x.checked_mul(num).and_then(|v| v.checked_div(den))] on [i128]. *)
Definition mul_div (x num den : Z) : option Z :=
  match checked_i128 (x * num) with
  | Some v => checked_div v den
  | None => None
  end.

Lemma in_u32_spec z : in_u32 z = true ↔ 0 ≤ z ≤ u32_max.
Proof. unfold in_u32. lia. Qed.
Lemma in_u64_spec z : in_u64 z = true ↔ 0 ≤ z ≤ u64_max.
Proof. unfold in_u64. lia. Qed.
Lemma in_i128_spec z : in_i128 z = true ↔ i128_min ≤ z ≤ i128_max.
Proof. unfold in_i128. lia. Qed.

Lemma checked_u32_Some z r : checked_u32 z = Some r ↔ r = z ∧ 0 ≤ z ≤ u32_max.
Proof.
  unfold checked_u32. pose proof (in_u32_spec z).
  destruct (in_u32 z); intuition (congruence || auto).
Qed.
Lemma checked_u64_Some z r : checked_u64 z = Some r ↔ r = z ∧ 0 ≤ z ≤ u64_max.
Proof.
  unfold checked_u64. pose proof (in_u64_spec z).
  destruct (in_u64 z); intuition (congruence || auto).
Qed.
Lemma checked_i128_Some z r :
  checked_i128 z = Some r ↔ r = z ∧ i128_min ≤ z ≤ i128_max.
Proof.
  unfold checked_i128. pose proof (in_i128_spec z).
  destruct (in_i128 z); intuition (congruence || auto).
Qed.

Lemma checked_div_Some a b r :
  checked_div a b = Some r → r = Z.quot a b ∧ b ≠ 0.
Proof.
  unfold checked_div. destruct (Z.eqb_spec b 0); [discriminate|].
  intros H%checked_i128_Some. naive_solver.
Qed.

(** On a non-negative product the truncating division is the Euclidean one. *)
Lemma mul_div_Some x num den r :
  0 ≤ x → 0 ≤ num → 0 < den →
  mul_div x num den = Some r → r = x * num / den.
Proof.
  intros Hx Hn Hd. unfold mul_div.
  destruct (checked_i128 (x * num)) as [v|] eqn:Hv; [|discriminate].
  apply checked_i128_Some in Hv as [-> _].
  intros [-> _]%checked_div_Some. apply Z.quot_div_nonneg; nia.
Qed.

(** A share of at most the whole lies between zero and the whole. *)
Lemma share_bounds x num den :
  0 ≤ x → 0 ≤ num ≤ den → 0 < den → 0 ≤ x * num / den ≤ x.
Proof.
  intros Hx Hn Hd. split.
  - apply Z.div_pos; nia.
  - apply Z.div_le_upper_bound; nia.
Qed.

Lemma mul_div_bounds x num den r :
  0 ≤ x → 0 ≤ num ≤ den → 0 < den →
  mul_div x num den = Some r → 0 ≤ r ≤ x.
Proof.
  intros Hx Hn Hd H. apply mul_div_Some in H; [|lia..]. subst.
  by apply share_bounds.
Qed.

Lemma sat_u32_id z : 0 ≤ z ≤ u32_max → sat_u32 z = z.
Proof. unfold sat_u32. lia. Qed.
Lemma sat_i128_id z : i128_min ≤ z ≤ i128_max → sat_i128 z = z.
Proof. unfold sat_i128. lia. Qed.

Lemma div_ceil_spec n d : 0 ≤ n → 0 < d → n ≤ d * div_ceil n d < n + d.
Proof.
  intros Hn Hd. unfold div_ceil.
  pose proof (Z.div_mod (n + d - 1) d ltac:(lia)).
  pose proof (Z.mod_pos_bound (n + d - 1) d Hd). lia.
Qed.

(** Turns the results of checked operations into equations and bounds. *)
Ltac checked :=
  repeat match goal with
  | H : checked_u32 _ = Some _ |- _ => apply checked_u32_Some in H as [? ?]
  | H : checked_u64 _ = Some _ |- _ => apply checked_u64_Some in H as [? ?]
  | H : checked_i128 _ = Some _ |- _ => apply checked_i128_Some in H as [? ?]
  | H : checked_div _ _ = Some _ |- _ => apply checked_div_Some in H as [? ?]
  end; subst.

(** Sums over lists of integers. *)
Definition sumZ (l : list Z) : Z := foldr Z.add 0 l.

Lemma sumZ_app l k : sumZ (l ++ k) = sumZ l + sumZ k.
Proof. induction l; simpl; lia. Qed.

Lemma sumZ_nonneg l : Forall (λ z, 0 ≤ z) l → 0 ≤ sumZ l.
Proof. induction 1; simpl; lia. Qed.

#[export] Instance sumZ_Permutation : Proper (Permutation ==> (=)) sumZ.
Proof. induction 1; simpl; lia. Qed.

(** The [checked_add] accumulation loop over a list computes the sum. *)
Definition checked_sum {E} (e : E) (l : list Z) : res E Z :=
  rfold (λ acc x, ok_or (checked_i128 (acc + x)) e) l 0.

Lemma rfold_checked_add {E} (e : E) l a r :
  rfold (λ acc x, ok_or (checked_i128 (acc + x)) e) l a = Ok r →
  r = a + sumZ l.
Proof.
  revert a; induction l as [|x l IH]; intros a H; simpl in *.
  - run H. lia.
  - apply rbind_Ok in H as (t & Ht & H). apply ok_or_Ok in Ht. checked.
    apply IH in H. lia.
Qed.

Lemma checked_sum_Ok {E} (e : E) l r : checked_sum e l = Ok r → r = sumZ l.
Proof. intros H%rfold_checked_add. lia. Qed.

(** ** Sums over finite maps *)
Section Map_sum.
Context {K V : Type} `{Countable K}.
Implicit Types (f : V → Z) (m : gmap K V).

Definition map_sum f m : Z := map_fold (λ _ v acc, f v + acc) 0 m.

Lemma map_sum_empty f : map_sum f ∅ = 0.
Proof. apply map_fold_empty. Qed.

Lemma map_sum_insert_new f m k v :
  m !! k = None → map_sum f (<[k := v]> m) = f v + map_sum f m.
Proof. intros Hk. unfold map_sum. rewrite map_fold_insert_L; [done|intros; lia|done]. Qed.

Lemma map_sum_delete f m k v :
  m !! k = Some v → map_sum f (delete k m) = map_sum f m - f v.
Proof.
  intros Hk. rewrite <- (insert_delete_id m k v Hk) at 2.
  rewrite map_sum_insert_new by apply lookup_delete_eq. lia.
Qed.

(** The value a write replaces leaves the sum, the new one enters it. *)
Lemma map_sum_insert f m k v :
  map_sum f (<[k := v]> m) = map_sum f m - from_option f 0 (m !! k) + f v.
Proof.
  destruct (m !! k) as [v0|] eqn:Hk; simpl.
  - rewrite <- insert_delete_eq, map_sum_insert_new by apply lookup_delete_eq.
    rewrite (map_sum_delete f m k v0) by done. lia.
  - rewrite map_sum_insert_new by done. lia.
Qed.

Lemma map_sum_nonneg f m :
  (∀ k v, m !! k = Some v → 0 ≤ f v) → 0 ≤ map_sum f m.
Proof.
  induction m as [|k v m Hk IH] using map_ind; intros Hf.
  - by rewrite map_sum_empty.
  - rewrite map_sum_insert_new by done.
    assert (0 ≤ f v) by (eapply Hf; apply lookup_insert_eq).
    assert (0 ≤ map_sum f m); [|lia]. apply IH. intros k' v' Hk'.
    apply (Hf k'). rewrite lookup_insert_ne; [done|congruence].
Qed.

(** A member's value is at most the sum of non-negative values. *)
Lemma map_sum_member f m k v :
  (∀ k v, m !! k = Some v → 0 ≤ f v) → m !! k = Some v → f v ≤ map_sum f m.
Proof.
  intros Hf Hk. pose proof (map_sum_delete f m k v Hk).
  assert (0 ≤ map_sum f (delete k m)); [|lia].
  apply map_sum_nonneg. intros k' v' [_ Hk']%lookup_delete_Some. by eapply Hf.
Qed.

Lemma map_sum_le f g m :
  (∀ k v, m !! k = Some v → f v ≤ g v) → map_sum f m ≤ map_sum g m.
Proof.
  induction m as [|k v m Hk IH] using map_ind; intros Hf.
  - by rewrite !map_sum_empty.
  - rewrite !map_sum_insert_new by done.
    assert (f v ≤ g v) by (eapply Hf; apply lookup_insert_eq).
    assert (map_sum f m ≤ map_sum g m); [|lia]. apply IH. intros k' v' Hk'.
    apply (Hf k'). rewrite lookup_insert_ne; [done|congruence].
Qed.
End Map_sum.

Section Map_sum_list.
Context {K V : Type} `{Countable K} (f : V → Z).
Implicit Types (m : gmap K V) (l : list K).

(** Distinct members add up to at most the whole; exactly the whole when
    they are all the keys. *)
Lemma sum_members_le m l :
  (∀ k v, m !! k = Some v → 0 ≤ f v) → NoDup l →
  sumZ (map (λ k, from_option f 0 (m !! k)) l) ≤ map_sum f m.
Proof.
  revert m; induction l as [|k l IH]; intros m Hf Hl; simpl.
  - by apply map_sum_nonneg.
  - apply NoDup_cons in Hl as [Hk Hl].
    assert (Heq : map (λ k, from_option f 0 (m !! k)) l
                  = map (λ k', from_option f 0 (delete k m !! k')) l).
    { apply map_ext_in. intros k' Hk'%list_elem_of_In.
      rewrite lookup_delete_ne; [done|]. intros ->. done. }
    rewrite Heq. specialize (IH (delete k m)).
    assert (IH' : sumZ (map (λ k', from_option f 0 (delete k m !! k')) l)
                  ≤ map_sum f (delete k m)).
    { apply IH; [|done]. intros k' v [_ Hv]%lookup_delete_Some. by eapply Hf. }
    destruct (m !! k) as [v|] eqn:Hv; simpl.
    + rewrite (map_sum_delete f m k v Hv) in IH'. lia.
    + by rewrite delete_id in IH' |- *.
Qed.
End Map_sum_list.

(** Truncating shares never exceed the amount they divide. *)
Lemma sum_shares r t (l : list Z) :
  0 < t → sumZ (map (λ a, r * a / t) l) ≤ r * sumZ l / t.
Proof.
  intros Ht. induction l as [|a l IH]; simpl.
  - rewrite Z.mul_0_r. by rewrite Z.div_0_l by lia.
  - assert (r * a / t + r * sumZ l / t ≤ r * (a + sumZ l) / t); [|unfold sumZ in *; lia].
    rewrite Z.mul_add_distr_l. apply Z.div_le_lower_bound; [lia|].
    pose proof (Z.mul_div_le (r * a) t Ht). pose proof (Z.mul_div_le (r * sumZ l) t Ht). lia.
Qed.

(** The truncation loses less than one unit per share. *)
Lemma sum_shares_dust r t (l : list Z) :
  0 < t → r * sumZ l / t ≤ sumZ (map (λ a, r * a / t) l) + Z.of_nat (length l).
Proof.
  intros Ht. induction l as [|a l IH]; simpl.
  - rewrite Z.mul_0_r. by rewrite Z.div_0_l by lia.
  - assert (r * (a + sumZ l) / t ≤ r * a / t + r * sumZ l / t + 1);
      [|unfold sumZ in *; lia].
    pose proof (Z.div_mod (r * a) t ltac:(lia)). pose proof (Z.mod_pos_bound (r * a) t Ht).
    pose proof (Z.div_mod (r * sumZ l) t ltac:(lia)).
    pose proof (Z.mod_pos_bound (r * sumZ l) t Ht).
    assert (r * (a + sumZ l) / t < r * a / t + r * sumZ l / t + 2); [|lia].
    apply Z.div_lt_upper_bound; nia.
Qed.

Section Map_sum_laws.
Context {K V : Type} `{Countable K}.
Implicit Types (f g : V → Z) (m : gmap K V).

Lemma map_sum_values f m : map_sum f m = sumZ (map f (map_to_list m).*2).
Proof.
  unfold map_sum. rewrite map_fold_foldr.
  induction (map_to_list m) as [|[k v] l IH]; simpl; [done|]. by rewrite IH.
Qed.

Lemma map_sum_add f g m : map_sum (λ v, f v + g v) m = map_sum f m + map_sum g m.
Proof.
  rewrite !map_sum_values. induction (map_to_list m).*2; simpl; unfold sumZ in *; lia.
Qed.

Lemma map_sum_fmap {V' : Type} (f : V' → Z) (h : V → V') m :
  map_sum f (h <$> m) = map_sum (λ v, f (h v)) m.
Proof.
  induction m as [|k v m Hk IH] using map_ind; [by rewrite fmap_empty|].
  rewrite fmap_insert, !map_sum_insert_new, IH; [done|done|by rewrite lookup_fmap, Hk].
Qed.

Lemma map_sum_ext f g m : (∀ v, f v = g v) → map_sum f m = map_sum g m.
Proof. intros Hfg. apply Z.le_antisymm; apply map_sum_le; intros; rewrite Hfg; lia. Qed.

Lemma map_sum_shares r t f m :
  0 < t → map_sum (λ v, r * f v / t) m ≤ r * map_sum f m / t.
Proof.
  intros Ht. rewrite !map_sum_values.
  pose proof (sum_shares r t (map f (map_to_list m).*2) Ht) as Hs.
  by rewrite map_map in Hs.
Qed.

Lemma map_sum_shares_dust r t f m :
  0 < t → r * map_sum f m / t ≤ map_sum (λ v, r * f v / t) m + Z.of_nat (size m).
Proof.
  intros Ht. rewrite !map_sum_values.
  pose proof (sum_shares_dust r t (map f (map_to_list m).*2) Ht) as Hs.
  assert (Hl : length (map f (map_to_list m).*2) = size m).
  { rewrite length_map, <- length_map_to_list. apply length_map. }
  by rewrite Hl, (map_map f) in Hs.
Qed.
End Map_sum_laws.
