(* ===== verification/Float.v ===== *)
(** * Double-precision numbers

    [f64] of Rust and the numbers of Redis' Lua.  A finite double is its value,
    a rational; every operation is the exact one followed by [rnd], rounding to
    the nearest number of 53 significant bits, ties to even.  The range of the
    exponent is left out: the quantities of the source stay far inside it. *)

From Stdlib Require Import QArith Qround Qpower Qabs Lqa.
From S2P Require Import Prelude.

#[local] Open Scope Q_scope.

(** ** Rounding *)
Definition pow2 (e : Z) : Q := Qpower 2 e.

(** The integer nearest to [y], the even one of two. *)
Definition rne (y : Q) : Z :=
  let f := Qfloor y in
  match Qcompare (y - inject_Z f) (1 # 2) with
  | Lt => f
  | Gt => (f + 1)%Z
  | Eq => if Z.even f then f else (f + 1)%Z
  end.

(** The [e] with [2 ^ e <= q < 2 ^ (e + 1)], of a positive [q]. *)
Definition mag (q : Q) : Z :=
  let e := (Z.log2 (Qnum q) - Z.log2 (Z.pos (Qden q)))%Z in
  if Qle_bool (pow2 e) q then e else (e - 1)%Z.

Definition rnd_pos (q : Q) : Q :=
  let e := (mag q - 52)%Z in inject_Z (rne (q * pow2 (- e))) * pow2 e.
Definition rnd (q : Q) : Q :=
  Qred (match Qcompare q 0 with
        | Eq => 0
        | Gt => rnd_pos q
        | Lt => - rnd_pos (- q)
        end).

(** ** Operations *)
Definition fadd (a b : Q) : Q := rnd (a + b).
Definition fsub (a b : Q) : Q := rnd (a - b).
Definition fmul (a b : Q) : Q := rnd (a * b).
Definition fdiv (a b : Q) : Q := rnd (a / b).
Definition of_int (z : Z) : Q := rnd (inject_Z z).    (** [z as f64] *)
Definition fmin (a b : Q) : Q := if Qle_bool a b then a else b.

(** [.ceil() as u64] and the like: the cast saturates. *)
Definition ceil_to (max : Z) (q : Q) : Z := Z.max 0 (Z.min max (Qceiling q)).
Definition floor_to (max : Z) (q : Q) : Z := Z.max 0 (Z.min max (Qfloor q)).

(** ** Powers of two *)
Lemma pow2_pos e : 0 < pow2 e.
Proof. by apply Qpower_0_lt. Qed.
Lemma pow2_add a b : pow2 (a + b) == pow2 a * pow2 b.
Proof. by apply Qpower_plus. Qed.
Lemma pow2_0 : pow2 0 == 1.
Proof. reflexivity. Qed.
Lemma pow2_opp e : pow2 e * pow2 (- e) == 1.
Proof. rewrite <- pow2_add. by rewrite Z.add_opp_diag_r. Qed.
Lemma pow2_Z e : (0 <= e)%Z → pow2 e == inject_Z (2 ^ e).
Proof. intros He. unfold pow2. by rewrite Zpower_Qpower. Qed.
Lemma pow2_le a b : (a <= b)%Z → pow2 a <= pow2 b.
Proof. intros. by apply Qpower_le_compat_l. Qed.
Lemma pow2_lt_inv a b : pow2 a < pow2 b → (a < b)%Z.
Proof. intros Hlt. destruct (Z.lt_ge_cases a b) as [|Hle]; [done|]. apply pow2_le in Hle. lra. Qed.

(** ** Nearest integers *)
Lemma Qfloor_bounds y : inject_Z (Qfloor y) <= y < inject_Z (Qfloor y) + 1.
Proof.
  split; [apply Qfloor_le|]. pose proof (Qlt_floor y) as H. by rewrite inject_Z_plus in H.
Qed.
Lemma rne_cases y :
  (rne y = Qfloor y ∧ y - inject_Z (Qfloor y) <= 1 # 2)
  ∨ (rne y = (Qfloor y + 1)%Z ∧ 1 # 2 <= y - inject_Z (Qfloor y)).
Proof.
  unfold rne. destruct (Qcompare_spec (y - inject_Z (Qfloor y)) (1 # 2)) as [Heq|Hlt|Hgt].
  - destruct (Z.even _); [left|right]; split; [done|lra|done|lra].
  - left. split; [done|lra].
  - right. split; [done|lra].
Qed.
Lemma rne_error y : inject_Z (rne y) - (1 # 2) <= y <= inject_Z (rne y) + (1 # 2).
Proof.
  pose proof (Qfloor_bounds y). destruct (rne_cases y) as [[-> ?]|[-> ?]]; [lra|].
  rewrite inject_Z_plus. change (inject_Z 1) with 1. lra.
Qed.
#[export] Instance rne_proper : Proper (Qeq ==> eq) rne.
Proof.
  intros a b Hab. unfold rne. rewrite (Qfloor_comp _ _ Hab).
  assert (Heq : a - inject_Z (Qfloor b) == b - inject_Z (Qfloor b)) by lra.
  by rewrite (Qcompare_comp _ _ Heq (1 # 2) (1 # 2) (Qeq_refl _)).
Qed.
Lemma rne_Z z : rne (inject_Z z) = z.
Proof.
  unfold rne. rewrite Qfloor_Z. destruct (Qcompare_spec (inject_Z z - inject_Z z) (1 # 2)); [lra|done|lra].
Qed.
Lemma rne_mono a b : a <= b → (rne a <= rne b)%Z.
Proof.
  intros Hab. pose proof (Qfloor_resp_le _ _ Hab) as Hf. unfold rne.
  destruct (Z.lt_ge_cases (Qfloor a) (Qfloor b)) as [Hlt|Hge].
  - repeat case_match; lia.
  - assert (Heq : Qfloor a = Qfloor b) by lia. rewrite Heq.
    destruct (Qcompare_spec (a - inject_Z (Qfloor b)) (1 # 2));
      destruct (Qcompare_spec (b - inject_Z (Qfloor b)) (1 # 2));
      try (exfalso; lra); repeat case_match; lia.
Qed.

(** ** Magnitude *)
Lemma Q_split q : q == inject_Z (Qnum q) * / inject_Z (Z.pos (Qden q)).
Proof. destruct q as [n d]. unfold Qeq. simpl. lia. Qed.
Lemma log2_Q n : (0 < n)%Z → pow2 (Z.log2 n) <= inject_Z n < pow2 (Z.log2 n + 1).
Proof.
  intros Hn. pose proof (Z.log2_spec n Hn). pose proof (Z.log2_nonneg n).
  rewrite !pow2_Z, <- Zle_Qle, <- Zlt_Qlt by lia. lia.
Qed.
Lemma mag_spec q : 0 < q → pow2 (mag q) <= q < pow2 (mag q + 1).
Proof.
  intros Hq.
  assert (Hn : (0 < Qnum q)%Z) by (unfold Qlt in Hq; simpl in Hq; lia).
  destruct (log2_Q _ Hn) as [Hn1 Hn2].
  destruct (log2_Q (Z.pos (Qden q)) ltac:(lia)) as [Hd1 Hd2].
  unfold mag. set (a := Z.log2 (Qnum q)) in *. set (b := Z.log2 (Z.pos (Qden q))) in *.
  assert (Hmul : q * inject_Z (Z.pos (Qden q)) == inject_Z (Qnum q))
    by (unfold Qeq; simpl; destruct q; simpl; lia).
  pose proof (pow2_pos b). pose proof (pow2_pos (a - b)).
  assert (Ha : pow2 a == pow2 (a - b) * pow2 b) by (rewrite <- pow2_add; by rewrite Z.sub_add).
  rewrite pow2_add in Hn2, Hd2. change (pow2 1) with 2 in *.
  destruct (Qle_bool (pow2 (a - b)) q) eqn:Hle.
  - apply Qle_bool_iff in Hle. split; [done|]. rewrite pow2_add. change (pow2 1) with 2.
    apply Qnot_le_lt. intros Hge. nra.
  - assert (Hlt : q < pow2 (a - b)).
    { apply Qnot_le_lt. intros Hge. apply Qle_bool_iff in Hge. congruence. }
    rewrite Z.sub_add. split; [|done].
    assert (Hhalf : pow2 (a - b) == pow2 (a - b - 1) * 2)
      by (rewrite <- (pow2_add _ 1); by rewrite Z.sub_add).
    apply Qnot_lt_le. intros Hlt'. nra.
Qed.
Lemma mag_mono a b : 0 < a → a <= b → (mag a <= mag b)%Z.
Proof.
  intros Ha Hab. destruct (mag_spec a Ha) as [Ha1 _]. destruct (mag_spec b ltac:(lra)) as [_ Hb2].
  apply Z.lt_succ_r. apply pow2_lt_inv. unfold Z.succ. lra.
Qed.
Lemma mag_unique q e : pow2 e <= q < pow2 (e + 1) → mag q = e.
Proof.
  intros [H1 H2]. pose proof (pow2_pos e). destruct (mag_spec q ltac:(lra)) as [H3 H4].
  assert (e < mag q + 1)%Z by (apply pow2_lt_inv; lra).
  assert (mag q < e + 1)%Z by (apply pow2_lt_inv; lra). lia.
Qed.

(** The significand: between [2 ^ 52] and [2 ^ 53]. *)
Lemma significand q : 0 < q →
  pow2 52 <= q * pow2 (- (mag q - 52)) < pow2 53.
Proof.
  intros Hq. destruct (mag_spec q Hq) as [H1 H2]. pose proof (pow2_pos (- (mag q - 52))).
  assert (pow2 52 == pow2 (mag q) * pow2 (- (mag q - 52))) by (rewrite <- pow2_add; f_equiv; lia).
  assert (pow2 53 == pow2 (mag q + 1) * pow2 (- (mag q - 52))) by (rewrite <- pow2_add; f_equiv; lia).
  split; nra.
Qed.

(** ** Laws of rounding *)
Lemma unscale q e : q * pow2 (- e) * pow2 e == q.
Proof. rewrite <- Qmult_assoc, (Qmult_comm (pow2 (- e))), pow2_opp. ring. Qed.
Lemma significand_rounded q : 0 < q →
  (2 ^ 52 <= rne (q * pow2 (- (mag q - 52))) <= 2 ^ 53)%Z.
Proof.
  intros Hq. destruct (significand q Hq) as [H1 H2].
  change (pow2 52) with (inject_Z (2 ^ 52)) in H1. change (pow2 53) with (inject_Z (2 ^ 53)) in H2.
  rewrite <- (rne_Z (2 ^ 52)), <- (rne_Z (2 ^ 53)). split; apply rne_mono; lra.
Qed.
Lemma rnd_pos_bounds q : 0 < q → pow2 (mag q) <= rnd_pos q <= pow2 (mag q + 1).
Proof.
  intros Hq. destruct (significand_rounded q Hq) as [Hlo Hhi]. unfold rnd_pos.
  set (e := (mag q - 52)%Z) in *. set (y := q * pow2 (- e)) in *. pose proof (pow2_pos e).
  rewrite Zle_Qle in Hlo, Hhi. rewrite <- pow2_Z in Hlo, Hhi by lia.
  assert (pow2 (mag q) == pow2 52 * pow2 e) by (rewrite <- pow2_add; f_equiv; lia).
  assert (pow2 (mag q + 1) == pow2 53 * pow2 e) by (rewrite <- pow2_add; f_equiv; lia).
  split; nra.
Qed.
Lemma rnd_pos_mono a b : 0 < a → a <= b → rnd_pos a <= rnd_pos b.
Proof.
  intros Ha Hab. pose proof (mag_mono a b Ha Hab) as Hm.
  destruct (Z.eq_dec (mag a) (mag b)) as [Heq|Hne].
  - unfold rnd_pos. rewrite Heq. pose proof (pow2_pos (mag b - 52)).
    pose proof (pow2_pos (- (mag b - 52))).
    assert (Hr : (rne (a * pow2 (- (mag b - 52))) <= rne (b * pow2 (- (mag b - 52))))%Z)
      by (apply rne_mono; nra).
    rewrite Zle_Qle in Hr. nra.
  - destruct (rnd_pos_bounds a Ha) as [_ H1]. destruct (rnd_pos_bounds b ltac:(lra)) as [H2 _].
    pose proof (pow2_le (mag a + 1) (mag b) ltac:(lia)). lra.
Qed.
Lemma rnd_pos_error q : 0 < q →
  q * (1 - pow2 (- 53)) <= rnd_pos q <= q * (1 + pow2 (- 53)).
Proof.
  intros Hq. destruct (significand q Hq) as [H1 _]. unfold rnd_pos.
  set (e := (mag q - 52)%Z) in *. pose proof (unscale q e) as Hu. set (y := q * pow2 (- e)) in *.
  pose proof (pow2_pos e). pose proof (rne_error y) as [He1 He2].
  assert (Hh : pow2 52 * pow2 (- 53) == 1 # 2) by reflexivity.
  assert (Hy : 1 # 2 <= y * pow2 (- 53)) by (pose proof (pow2_pos (- 53)); nra).
  assert (Hy1 : y * (1 - pow2 (- 53)) <= inject_Z (rne y)) by lra.
  assert (Hy2 : inject_Z (rne y) <= y * (1 + pow2 (- 53))) by lra.
  rewrite <- Hu.
  assert (Hs : ∀ c, y * pow2 e * c == y * c * pow2 e) by (intros; ring).
  rewrite !Hs. split; apply Qmult_le_compat_r; lra.
Qed.
Lemma rnd_pos_dyadic m e : (0 < m < 2 ^ 53)%Z → rnd_pos (inject_Z m * pow2 e) == inject_Z m * pow2 e.
Proof.
  intros [Hm1 Hm2]. destruct (log2_Q m Hm1) as [Hl1 Hl2]. pose proof (pow2_pos e).
  assert (Hmag : mag (inject_Z m * pow2 e) = (Z.log2 m + e)%Z).
  { apply mag_unique. rewrite pow2_add. rewrite Z.add_shuffle0, pow2_add. split; nra. }
  assert (Hlog : (0 <= Z.log2 m <= 52)%Z).
  { split; [apply Z.log2_nonneg|]. apply Z.lt_succ_r, Z.log2_lt_pow2; simpl; lia. }
  unfold rnd_pos. rewrite Hmag. set (E := (Z.log2 m + e - 52)%Z).
  assert (Hy : inject_Z m * pow2 e * pow2 (- E) == inject_Z (m * 2 ^ (52 - Z.log2 m))).
  { rewrite inject_Z_mult, <- pow2_Z by lia. rewrite <- Qmult_assoc, <- pow2_add.
    subst E. f_equiv. f_equiv. lia. }
  rewrite Hy, rne_Z, inject_Z_mult, <- pow2_Z by lia. rewrite <- Qmult_assoc, <- pow2_add.
  subst E. f_equiv. f_equiv. lia.
Qed.

Lemma rnd_gt q : 0 < q → rnd q == rnd_pos q.
Proof. intros Hq. unfold rnd. rewrite Qred_correct. destruct (Qcompare_spec q 0); [lra|lra|reflexivity]. Qed.
Lemma rnd_0 q : q == 0 → rnd q == 0.
Proof. intros Hq. unfold rnd. rewrite Qred_correct. destruct (Qcompare_spec q 0); [reflexivity|lra|lra]. Qed.
Lemma rnd_lt q : q < 0 → rnd q == - rnd_pos (- q).
Proof. intros Hq. unfold rnd. rewrite Qred_correct. destruct (Qcompare_spec q 0); [lra|reflexivity|lra]. Qed.
Lemma rnd_pos_pos q : 0 < q → 0 < rnd_pos q.
Proof. intros Hq. destruct (rnd_pos_bounds q Hq). pose proof (pow2_pos (mag q)). lra. Qed.

(** Rounding is monotone, exact on the numbers of 53 bits, and its relative
    error is at most [2 ^ -53]. *)
Lemma rnd_mono a b : a <= b → rnd a <= rnd b.
Proof.
  intros Hab.
  destruct (Q_dec a 0) as [[Ha|Ha]|Ha]; destruct (Q_dec b 0) as [[Hb|Hb]|Hb]; try (exfalso; lra).
  - rewrite !rnd_lt by done. pose proof (rnd_pos_mono (- b) (- a) ltac:(lra) ltac:(lra)). lra.
  - rewrite rnd_lt, rnd_gt by done. pose proof (rnd_pos_pos b Hb).
    pose proof (rnd_pos_pos (- a) ltac:(lra)). lra.
  - rewrite rnd_lt, (rnd_0 b) by done. pose proof (rnd_pos_pos (- a) ltac:(lra)). lra.
  - rewrite !rnd_gt by done. by apply rnd_pos_mono.
  - rewrite (rnd_0 a), rnd_gt by done. pose proof (rnd_pos_pos b Hb). lra.
  - rewrite (rnd_0 a), (rnd_0 b) by done. lra.
Qed.
#[export] Instance rnd_proper : Proper (Qeq ==> Qeq) rnd.
Proof. intros a b Hab. apply Qle_antisym; apply rnd_mono; lra. Qed.
Lemma rnd_dyadic m e : (Z.abs m <= 2 ^ 53)%Z → rnd (inject_Z m * pow2 e) == inject_Z m * pow2 e.
Proof.
  intros Hm. pose proof (pow2_pos e) as Hp.
  assert (Hpos : ∀ k, (0 < k <= 2 ^ 53)%Z → rnd_pos (inject_Z k * pow2 e) == inject_Z k * pow2 e).
  { intros k Hk. destruct (Z.eq_dec k (2 ^ 53)%Z) as [->|Hne]; [|apply rnd_pos_dyadic; lia].
    assert (Heq : inject_Z (2 ^ 53) * pow2 e == inject_Z 1 * pow2 (53 + e)).
    { rewrite pow2_add. change (inject_Z (2 ^ 53)) with (pow2 53). ring. }
    assert (H0 : 0 < inject_Z 1 * pow2 (53 + e)) by (pose proof (pow2_pos (53 + e)); change (inject_Z 1) with 1; lra).
    rewrite <- rnd_gt by lra. rewrite Heq, rnd_gt by done. apply rnd_pos_dyadic. lia. }
  destruct (Z.lt_trichotomy m 0) as [Hlt|[->|Hgt]].
  - assert (Hq : inject_Z m < 0) by (by rewrite (Zlt_Qlt m 0) in Hlt).
    rewrite rnd_lt by nra.
    assert (Heq : - (inject_Z m * pow2 e) == inject_Z (- m) * pow2 e) by (rewrite inject_Z_opp; ring).
    rewrite <- rnd_gt by nra. rewrite Heq, rnd_gt by nra. rewrite Hpos by lia. lra.
  - assert (Heq : inject_Z 0 * pow2 e == 0) by (change (inject_Z 0) with 0; ring).
    by rewrite (rnd_0 _ Heq), Heq.
  - assert (Hq : 0 < inject_Z m) by (by rewrite (Zlt_Qlt 0 m) in Hgt).
    rewrite rnd_gt by nra. apply Hpos. lia.
Qed.
Lemma rnd_Z m : (Z.abs m <= 2 ^ 53)%Z → rnd (inject_Z m) == inject_Z m.
Proof.
  intros Hm. pose proof (rnd_dyadic m 0 Hm) as H. change (pow2 0) with 1 in H. by rewrite Qmult_1_r in H.
Qed.
Lemma rnd_error q : 0 <= q → q * (1 - pow2 (- 53)) <= rnd q <= q * (1 + pow2 (- 53)).
Proof.
  intros Hq. destruct (Q_dec q 0) as [[H|H]|H]; [lra| |].
  - rewrite rnd_gt by done. by apply rnd_pos_error.
  - rewrite rnd_0 by done. rewrite H. lra.
Qed.
Lemma rnd_nonneg q : 0 <= q → 0 <= rnd q.
Proof. intros Hq. rewrite <- (rnd_0 0) by reflexivity. by apply rnd_mono. Qed.
Lemma rnd_le_Z q m : (Z.abs m <= 2 ^ 53)%Z → q <= inject_Z m → rnd q <= inject_Z m.
Proof. intros Hm Hq. rewrite <- rnd_Z by done. by apply rnd_mono. Qed.
Lemma rnd_ge_Z q m : (Z.abs m <= 2 ^ 53)%Z → inject_Z m <= q → inject_Z m <= rnd q.
Proof. intros Hm Hq. rewrite <- rnd_Z at 1 by done. by apply rnd_mono. Qed.
Lemma rnd_idem q : rnd (rnd q) == rnd q.
Proof.
  assert (Hpos : ∀ p, 0 < p → rnd (rnd_pos p) == rnd_pos p).
  { intros p Hp. pose proof (significand_rounded p Hp). unfold rnd_pos.
    apply rnd_dyadic. lia. }
  destruct (Q_dec q 0) as [[H|H]|H].
  - rewrite (rnd_lt q) by done. pose proof (rnd_pos_pos (- q) ltac:(lra)).
    rewrite rnd_lt by lra. rewrite <- rnd_gt by lra.
    assert (Heq : - - rnd_pos (- q) == rnd_pos (- q)) by ring. rewrite Heq. by rewrite Hpos by lra.
  - rewrite (rnd_gt q) by done. by apply Hpos.
  - rewrite (rnd_0 q) by done. by apply rnd_0.
Qed.
(** Doubling is exact. *)
Lemma rnd_twice q : 0 <= q → rnd (2 * rnd q) == 2 * rnd q.
Proof.
  intros Hq. destruct (Q_dec q 0) as [[H|H]|H]; [lra| |].
  - pose proof (significand_rounded q H) as Hs. rewrite (rnd_gt q) by done. unfold rnd_pos. set (m := rne _) in *.
    assert (Heq : 2 * (inject_Z m * pow2 (mag q - 52)) == inject_Z m * pow2 (1 + (mag q - 52))) by (rewrite pow2_add; change (pow2 1) with 2; ring).
    rewrite Heq. apply rnd_dyadic. lia.
  - rewrite (rnd_0 q) by done. rewrite rnd_0; [ring|ring].
Qed.

(** ** Token buckets: tokens added in doubles, up to a capacity *)
Lemma capped_add (cap : Z) t x : (0 <= cap <= 2 ^ 53)%Z → 0 <= t <= inject_Z cap → 0 <= x →
  let y := rnd (t + x) in
  0 <= y ∧ (y <= inject_Z cap → y <= t + x + inject_Z cap * pow2 (- 53))
  ∧ (inject_Z cap < y → inject_Z cap < t + x + inject_Z cap * pow2 (- 53)).
Proof.
  intros Hc Ht Hx y. subst y. assert (Hs : 0 <= t + x) by lra.
  pose proof (rnd_error _ Hs) as [_ Hr]. pose proof (rnd_nonneg _ Hs).
  assert (Hu : 0 <= pow2 (- 53)) by (vm_compute; congruence).
  split_and!; [done| |].
  - intros Hle. destruct (Qlt_le_dec (inject_Z cap) (t + x)) as [|Hsum]; nra.
  - intros Hgt. destruct (Qlt_le_dec (inject_Z cap) (t + x)) as [|Hsum]; [nra|].
    pose proof (rnd_le_Z _ cap ltac:(lia) Hsum). lra.
Qed.
