(* ===== verification/Prog.v ===== *)
(** * Programs

    Asynchronous code of the server: a tree of commands to a store (Redis,
    PostgreSQL), each of which may fail.  A command is atomic; between two
    commands of a program those of others may run. *)

From S2P Require Import Prelude.

Section Programs.
Context {C : Type → Type} {E : Type}.

(** [None] is a command that failed. *)
Inductive prog (A : Type) : Type :=
| Done (r : res E A)
| Call {R : Type} (c : C R) (k : option R → prog A).
Arguments Done {A} r.
Arguments Call {A R} c k.

Fixpoint bind {A B} (m : prog A) (f : A → prog B) : prog B :=
  match m with
  | Done (Ok a) => f a
  | Done (Err e) => Done (Err e)
  | Done Panic => Done Panic
  | Call c k => Call c (λ r, bind (k r) f)
  end.
(** [match m.await] of which every branch goes on *)
Fixpoint bind_any {A B} (m : prog A) (f : res E A → prog B) : prog B :=
  match m with
  | Done r => f r
  | Call c k => Call c (λ r, bind_any (k r) f)
  end.
(** [query(..).await.map_err(e)?] *)
Definition call_or {A R} (e : E) (c : C R) (k : R → prog A) : prog A :=
  Call c (λ r, match r with Some x => k x | None => Done (Err e) end).

(** ** Running alone *)
Context {W : Type}.
Variable step : ∀ R, C R → W → option (R * W).

Fixpoint prun {A} (p : prog A) (w : W) : res E A * W :=
  match p with
  | Done r => (r, w)
  | Call c k =>
      match step _ c w with
      | Some (r, w) => prun (k (Some r)) w
      | None => prun (k None) w
      end
  end.
Lemma prun_bind {A B} (m : prog A) (f : A → prog B) w :
  prun (bind m f) w =
  let ' (r, w') := prun m w in
  match r with Ok a => prun (f a) w' | Err e => (Err e, w') | Panic => (Panic, w') end.
Proof.
  revert w. induction m as [r|R c k IH]; intros w; cbn [bind prun]; [by destruct r|].
  destruct (step _ c w) as [[r w']|]; apply IH.
Qed.

(** ** Running alone, each command under the conditions of its moment *)
Fixpoint runs {A V} (step_at : V → ∀ R, C R → W → option (R * W)) (p : prog A) (w : W) (out : res E A) (w' : W) : Prop :=
  match p with
  | Done r => r = out ∧ w = w'
  | Call c k =>
      ∃ v, match step_at v _ c w with
           | Some (r, w1) => runs step_at (k (Some r)) w1 out w'
           | None => runs step_at (k None) w out w'
           end
  end.
Lemma runs_bind {A B V} (step_at : V → ∀ R, C R → W → option (R * W)) (m : prog A) (f : A → prog B) w out w' :
  runs step_at (bind m f) w out w' →
  ∃ r w1, runs step_at m w r w1 ∧
    match r with Ok a => runs step_at (f a) w1 out w' | Err e => out = Err e ∧ w1 = w' | Panic => out = Panic ∧ w1 = w' end.
Proof.
  revert w. induction m as [[a|e|]|R c k IH]; intros w; cbn [bind].
  - intros Hr. by exists (Ok a), w.
  - intros [<- <-]. by exists (Err e), w.
  - intros [<- <-]. by exists Panic, w.
  - intros [v Hr]. cbn [runs] in Hr. destruct (step_at v R c w) as [[x w1]|] eqn:He; apply IH in Hr as (r & w2 & Hm & Hf);
      exists r, w2; (split; [|done]); exists v; by rewrite He.
Qed.

(** ** Running together: the schedule names the task that runs next *)
Definition sched_step {A} (i : nat) (s : list (prog A) * W) : list (prog A) * W :=
  match s.1 !! i with
  | Some (Call c k) =>
      match step _ c s.2 with
      | Some (r, w) => (<[i := k (Some r)]> s.1, w)
      | None => (<[i := k None]> s.1, s.2)
      end
  | _ => s
  end.
Definition schedule {A} (order : list nat) (s : list (prog A) * W) : list (prog A) * W :=
  foldl (λ s i, sched_step i s) s order.

(** ** Running among others

    Before each command the store may have changed by [rely]; a command meets
    the clocks and generators of its moment, of type [V]; and it may be lost,
    before or after it took effect. *)
Context {V : Type}.
Variable step_at : V → ∀ R, C R → W → option (R * W).
Variable rely : W → W → Prop.
Fixpoint behaves {A} (p : prog A) (w : W) (out : res E A) (w' : W) : Prop :=
  match p with
  | Done r => r = out ∧ w = w'
  | Call c k =>
      ∃ v w1, rely w w1 ∧
        (behaves (k None) w1 out w' ∨
         ∃ r w2, step_at v _ c w1 = Some (r, w2) ∧
           (behaves (k (Some r)) w2 out w' ∨ behaves (k None) w2 out w'))
  end.
(** Commands without an answer to a failure but to report it. *)
Lemma behaves_call_or {A R} e (c : C R) (k : R → prog A) w a w' :
  behaves (call_or e c k) w (Ok a) w' →
  ∃ v w1 r w2, rely w w1 ∧ step_at v _ c w1 = Some (r, w2) ∧ behaves (k r) w2 (Ok a) w'.
Proof. cbn. intros (v & w1 & Hr & [[? ?]|(r & w2 & Hs & [Hb|[? ?]])]); [done| |done]. by exists v, w1, r, w2. Qed.
Lemma behaves_ret {A B} (r : res E A) (f : A → prog B) w b w' :
  behaves (bind (Done r) f) w (Ok b) w' → ∃ a, r = Ok a ∧ behaves (f a) w (Ok b) w'.
Proof. destruct r; cbn; [eauto| |]; by intros [? ?]. Qed.
Lemma behaves_done {A} (r : res E A) w a w' : behaves (Done r) w (Ok a) w' → r = Ok a ∧ w' = w.
Proof. by intros [-> ->]. Qed.

(** A program after another. *)
Lemma behaves_bind {A B} (m : prog A) (f : A → prog B) w b w' :
  behaves (bind m f) w (Ok b) w' → ∃ a w1, behaves m w (Ok a) w1 ∧ behaves (f a) w1 (Ok b) w'.
Proof.
  revert w. induction m as [[a|e|]|R c k IH]; intros w Hb; [by exists a, w|by destruct Hb|by destruct Hb|].
  destruct Hb as (v & w1 & Hr & [Hb|(r & w2 & Hs & [Hb|Hb])]); apply IH in Hb as (a & wm & Hm & Hf); exists a, wm; (split; [|done]);
    exists v, w1; (split; [done|]); [by left|right; exists r, w2; split; [done|by left]|right; exists r, w2; split; [done|by right]].
Qed.
(** What a program and the others did is what they may do. *)
Lemma behaves_reach {A} (p : prog A) w out w' : PreOrder rely →
  (∀ v R (c : C R) w r w', step_at v R c w = Some (r, w') → rely w w') → behaves p w out w' → rely w w'.
Proof.
  intros [Hrefl Htrans] Hs. revert w. induction p as [r|R c k IH]; intros w; [by intros [_ ->]|].
  intros (v & w1 & Hr & [Hb|(r & w2 & He & Hb)]); [etrans; [done|by eapply IH]|].
  etrans; [done|]. etrans; [by eapply Hs|]. destruct Hb as [Hb|Hb]; by eapply IH.
Qed.
(** A command that only reads. *)
Lemma behaves_read {A R} e (c : C R) (f : V → W → R) (k : R → prog A) w a w' :
  (∀ v w, step_at v _ c w = Some (f v w, w)) → behaves (call_or e c k) w (Ok a) w' →
  ∃ v w1, rely w w1 ∧ behaves (k (f v w1)) w1 (Ok a) w'.
Proof.
  intros Hc Hb. apply behaves_call_or in Hb as (v & w1 & r & w2 & Hr & Hs & Hb). rewrite Hc in Hs. simplify_eq. eauto.
Qed.

(** ** Programs that issue only some commands *)
Fixpoint only {A} (P : ∀ R, C R → Prop) (p : prog A) : Prop :=
  match p with
  | Done _ => True
  | Call c k => P _ c ∧ ∀ r, only P (k r)
  end.
Lemma only_bind {A B} P (m : prog A) (f : A → prog B) :
  only P m → (∀ a, only P (f a)) → only P (bind m f).
Proof.
  intros Hm Hf. induction m as [[a|e|]|R c k IH]; cbn; [apply Hf|done|done|].
  destruct Hm as [Hc Hk]. split; [done|]. intros r. by apply IH.
Qed.
Lemma only_prun {A B} (P : ∀ R, C R → Prop) (f : W → B) (p : prog A) w :
  (∀ R (c : C R) w r w', P R c → step _ c w = Some (r, w') → f w' = f w) →
  only P p → f (prun p w).2 = f w.
Proof.
  intros Hf. revert w. induction p as [r|R c k IH]; intros w Hp; [done|]. destruct Hp as [Hc Hk]. cbn [prun].
  destruct (step _ c w) as [[r w']|] eqn:He; [|by apply IH]. rewrite IH by done. by eapply Hf.
Qed.
(** ** A server: tasks come, and run in any order

    [inv] is an invariant of the store, [rely] what every command does to it.
    [safe p w]: from [w], whatever the others do, every command of [p] keeps the
    invariant and stays within [rely]. *)
Variable inv : W → Prop.
Fixpoint safe {A} (p : prog A) (w : W) : Prop :=
  match p with
  | Done _ => True
  | Call c k =>
      ∀ w1, rely w w1 → inv w1 →
        safe (k None) w1 ∧
        ∀ v r w2, step_at v _ c w1 = Some (r, w2) →
          rely w1 w2 ∧ inv w2 ∧ safe (k (Some r)) w2 ∧ safe (k None) w2
  end.
Lemma safe_mono {A} (p : prog A) w w' : Transitive rely → rely w w' → safe p w → safe p w'.
Proof. intros Ht Hr. destruct p as [r|R c k]; [done|]. cbn. intros Hs w1 H1. apply Hs. by etrans. Qed.
Lemma safe_call {A R} (c : C R) (k : option R → prog A) w :
  (∀ w1, rely w w1 → inv w1 → safe (k None) w1 ∧
     ∀ v r w2, step_at v _ c w1 = Some (r, w2) → rely w1 w2 ∧ inv w2 ∧ safe (k (Some r)) w2 ∧ safe (k None) w2) →
  safe (Call c k) w.
Proof. done. Qed.
Lemma safe_call_or {A R} e (c : C R) (k : R → prog A) w :
  (∀ w1 v r w2, rely w w1 → inv w1 → step_at v _ c w1 = Some (r, w2) → rely w1 w2 ∧ inv w2 ∧ safe (k r) w2) →
  safe (call_or e c k) w.
Proof. intros Hk w1 H1 I1. split; [done|]. intros v r w2 Hs. by destruct (Hk w1 v r w2 H1 I1 Hs) as (? & ? & ?). Qed.
Lemma safe_bind_ret {A B} (r : res E A) (f : A → prog B) w :
  (∀ a, r = Ok a → safe (f a) w) → safe (bind (Done r) f) w.
Proof. destruct r as [a| |]; cbn; [|done|done]. intros Hf. by apply Hf. Qed.
Lemma safe_bind_call_or {A B R} e (c : C R) (k : R → prog A) (f : A → prog B) w :
  (∀ w1 v r w2, rely w w1 → inv w1 → step_at v _ c w1 = Some (r, w2) → rely w1 w2 ∧ inv w2 ∧ safe (bind (k r) f) w2) →
  safe (bind (call_or e c k) f) w.
Proof. intros Hk w1 H1 I1. split; [done|]. intros v r w2 Hs. by destruct (Hk w1 v r w2 H1 I1 Hs) as (? & ? & ?). Qed.
Lemma safe_bind {A B} (m : prog A) (f : A → prog B) w :
  safe m w → (∀ a w', safe (f a) w') → safe (bind m f) w.
Proof.
  intros Hm Hf. revert w Hm. induction m as [[a|e|]|R c k IH]; intros w Hm; cbn; [apply Hf|done|done|].
  intros w1 H1 I1. destruct (Hm w1 H1 I1) as [Hn Hs]. split; [by apply IH|].
  intros v r w2 H2. destruct (Hs v r w2 H2) as (Hr & Hi & Hk & Hl). split_and!; [done|done|by apply IH|by apply IH].
Qed.
(** Commands each of which keeps the invariant. *)
Lemma safe_only {A} (P : ∀ R, C R → Prop) (p : prog A) w :
  (∀ v R (c : C R) w r w', P R c → inv w → step_at v R c w = Some (r, w') → rely w w' ∧ inv w') → only P p → safe p w.
Proof.
  intros Hc. revert w. induction p as [r|R c k IH]; intros w Hp; [done|]. destruct Hp as [HP Hk]. cbn. intros w1 _ Hi.
  split; [by apply IH|]. intros v r w2 Hs. destruct (Hc v R c w1 r w2 HP Hi Hs) as [H1 H2]. split_and!; [done|done|by apply IH|by apply IH].
Qed.
Lemma safe_bind_bind {A B D} (m : prog A) (f : A → prog B) (g : B → prog D) w :
  safe (bind m (λ a, bind (f a) g)) w → safe (bind (bind m f) g) w.
Proof.
  revert w. induction m as [[a|e|]|R c k IH]; intros w Hm; [done|done|done|]. cbn in Hm |- *.
  intros w1 H1 I1. destruct (Hm w1 H1 I1) as [Hn Hs]. split; [by apply IH|].
  intros v r w2 H2. destruct (Hs v r w2 H2) as (Hr & Hi & Hk & Hl). split_and!; [done|done|by apply IH|by apply IH].
Qed.
(** A task of which nobody awaits the answer. *)
Definition forget {A} (p : prog A) : prog unit := bind_any p (λ _, Done (Ok tt)).
Lemma runs_forget {A} (p : prog A) w out w' : runs step_at (forget p) w out w' → ∃ r, runs step_at p w r w'.
Proof.
  unfold forget. revert w. induction p as [r|R c k IH]; intros w; cbn [bind_any].
  - intros [_ <-]. by exists r.
  - intros [v Hr]. cbn [runs] in Hr. destruct (step_at v R c w) as [[x w1]|] eqn:Hs; apply IH in Hr as [r Hr]; exists r, v; by rewrite Hs.
Qed.
Lemma safe_forget {A} (p : prog A) w : safe p w → safe (forget p) w.
Proof.
  unfold forget. revert w. induction p as [r|R c k IH]; intros w Hp; [done|]. cbn. intros w1 H1 I1.
  destruct (Hp w1 H1 I1) as [Hn Hs]. split; [by apply IH|].
  intros v r w2 H2. destruct (Hs v r w2 H2) as (Hr & Hi & Hk & Hl). split_and!; [done|done|by apply IH|by apply IH].
Qed.

Inductive pool_step (fresh : prog unit → Prop) : list (prog unit) * W → list (prog unit) * W → Prop :=
| pool_spawn p ts w : fresh p → pool_step fresh (ts, w) (ts ++ [p], w)
| pool_call i R (c : C R) k v r ts w w' :
    ts !! i = Some (Call c k) → step_at v R c w = Some (r, w') → pool_step fresh (ts, w) (<[i := k (Some r)]> ts, w')
| pool_lost i R (c : C R) k v r ts w w' :
    ts !! i = Some (Call c k) → step_at v R c w = Some (r, w') → pool_step fresh (ts, w) (<[i := k None]> ts, w')
| pool_drop i R (c : C R) k ts w :
    ts !! i = Some (Call c k) → pool_step fresh (ts, w) (<[i := k None]> ts, w).
(** Tasks that are safe when they come keep the invariant, in any order. *)
Lemma pool_safe fresh s s' : PreOrder rely → (∀ p w, fresh p → safe p w) →
  rtc (pool_step fresh) s s' → inv s.2 → Forall (λ p, safe p s.2) s.1 →
  rely s.2 s'.2 ∧ inv s'.2 ∧ Forall (λ p, safe p s'.2) s'.1.
Proof.
  intros [Hrefl Htrans] Hf. induction 1 as [|s1 s2 s3 H12 _ IH]; [by intros|]. intros Hi Hs.
  assert (Hput : ∀ i (p : prog unit) w w' ts, Forall (λ p, safe p w) ts → rely w w' → safe p w' → Forall (λ p, safe p w') (<[i := p]> ts)).
  { intros i p w w' ts Hts Hr Hp. apply Forall_insert; [|done].
    eapply Forall_impl; [exact Hts|]. intros q. by apply safe_mono. }
  assert (Hone : rely s1.2 s2.2 ∧ inv s2.2 ∧ Forall (λ p, safe p s2.2) s2.1).
  { destruct H12 as [p ts w Hp|i R c k v r ts w w' Hc Hx|i R c k v r ts w w' Hc Hx|i R c k ts w Hc]; cbn [fst snd] in *;
      [|pose proof (Forall_lookup_1 _ _ _ _ Hs Hc w (Hrefl w) Hi) as [Hd Hk]..].
    - split_and!; [done|done|]. apply Forall_app. split; [done|]. constructor; [by apply Hf|constructor].
    - destruct (Hk v r w' Hx) as (Hr & Hi' & Hk' & _). split_and!; [done|done|]. by eapply Hput.
    - destruct (Hk v r w' Hx) as (Hr & Hi' & _ & Hk'). split_and!; [done|done|]. by eapply Hput.
    - split_and!; [done|done|]. by eapply Hput. }
  destruct Hone as (Hr & Hi2 & Hs2). destruct (IH Hi2 Hs2) as (Hr' & Hi3 & Hs3). split_and!; [by etrans|done|done].
Qed.

(** Running alone is one of the behaviours. *)
Lemma prun_behaves {A} v (p : prog A) w : Reflexive rely →
  (∀ R (c : C R) w, step_at v R c w = step R c w) → behaves p w (prun p w).1 (prun p w).2.
Proof.
  intros Hr Hs. revert w. induction p as [r|R c k IH]; intros w; [done|]. cbn [behaves prun].
  exists v, w. split; [done|]. destruct (step _ c w) as [[r w']|] eqn:He; [|left; apply IH].
  right. exists r, w'. split; [by rewrite Hs|]. left. apply IH.
Qed.
Lemma prun_runs {A} v (p : prog A) w : (∀ R (c : C R) w, step_at v R c w = step R c w) →
  runs step_at p w (prun p w).1 (prun p w).2.
Proof.
  intros Hs. revert w. induction p as [r|R c k IH]; intros w; [done|]. cbn [runs prun]. exists v. rewrite Hs.
  destruct (step R c w) as [[x w1]|]; apply IH.
Qed.
(** A task that comes and runs alone is one of the ways a pool can go. *)
Lemma prun_pool {A} v fresh (p : prog A) ts w : (∀ R (c : C R) w, step_at v R c w = step R c w) → fresh (forget p) →
  ∃ ts', rtc (pool_step fresh) (ts, w) (ts', (prun p w).2).
Proof.
  intros Hs Hp. assert (Hrun : ∀ (q : prog A) ts0 w0 i, ts0 !! i = Some (forget q) →
    ∃ ts', rtc (pool_step fresh) (ts0, w0) (ts', (prun q w0).2)).
  { intros q. induction q as [a|R c k IH]; intros ts0 w0 i Hi; [by exists ts0|]. cbn [prun].
    pose proof (lookup_lt_Some _ _ _ Hi) as Hl. destruct (step _ c w0) as [[x w1]|] eqn:He.
    - destruct (IH (Some x) (<[i := forget (k (Some x))]> ts0) w1 i) as [ts' Ht]; [by apply list_lookup_insert_eq|].
      exists ts'. eapply rtc_l; [|exact Ht]. eapply pool_call with (v := v) (k := λ r, forget (k r)); [done|by rewrite Hs].
    - destruct (IH None (<[i := forget (k None)]> ts0) w0 i) as [ts' Ht]; [by apply list_lookup_insert_eq|].
      exists ts'. eapply rtc_l; [|exact Ht]. by eapply pool_drop with (k := λ r, forget (k r)). }
  destruct (Hrun p (ts ++ [forget p]) w (length ts)) as [ts' Ht]; [by rewrite lookup_app_r, Nat.sub_diag|].
  exists ts'. eapply rtc_l; [by apply pool_spawn|done].
Qed.
End Programs.
Arguments prog C E A : clear implicits.
Arguments Done {C E A} r.
Arguments Call {C E A R} c k.

#[global] Notation "'let*' x := m 'in' k" := (bind m (λ x, k))
  (at level 10, x name, m at level 200, k at level 200,
   format "'[v' 'let*'  x  :=  m  'in'  '/' k ']'") : soroban_scope.

(** Goals [only P p], by the shape of the program. *)
Ltac only_tac :=
  repeat first
    [ progress cbn [only call_or]
    | match goal with
      | |- _ ∧ _ => split
      | |- True => exact I
      | |- ∀ _, _ => intros ?
      | |- only _ (bind _ _) => apply only_bind
      | |- only _ (match ?x with _ => _ end) => destruct x
      end ].
(** Opens a behaviour [H] that returned [Ok], down to its next command. *)
Ltac next H :=
  repeat first
    [ progress cbv beta iota in H
    | lazymatch type of H with
      | behaves _ _ (bind (Done _) _) _ (Ok _) _ =>
          let a := fresh "a" in let Ha := fresh "Ha" in apply behaves_ret in H as (a & Ha & H); units
      | behaves _ _ (Done (Err _)) _ (Ok _) _ => destruct H as [H _]; discriminate H
      | behaves _ _ (Done _) _ (Ok _) _ => apply behaves_done in H as [H ->]; simplify_eq
      | behaves _ _ (if ?b then _ else _) _ (Ok _) _ => let E := fresh "E" in destruct b eqn:E
      | behaves _ _ (match ?o with Some _ => _ | None => _ end) _ (Ok _) _ =>
          let E := fresh "E" in destruct o as [[? ?]|] eqn:E
      | behaves _ _ (let (_, _) := ?o in _) _ (Ok _) _ => destruct o
      end ].
(** Passes a command that only reads. *)
Ltac read H :=
  let v := fresh "env" in let d := fresh "d" in let Hr := fresh "Hr" in
  eapply behaves_read in H as (v & d & Hr & H); [|by intros ? ?]; cbv beta in H.
