(* ===== verification/Host.v ===== *)
(** * The Soroban host as the contracts see it

    [Env] carries what an invocation can observe of the host besides storage:
    the ledger timestamp, the address of the running contract and the set of
    addresses that authorised the call.  Token contracts are outside the
    repository: they are a class of operations with the documented behaviour
    of the SEP-41 token interface as laws, and one instance that runs.  The last
    part is on lists kept in numbered buckets. *)

From S2P Require Import Prelude Machine.

Record Env : Type := MkEnv {
  timestamp : Z;                 (** [env.ledger().timestamp()], a [u64] *)
  this : Address;                (** [env.current_contract_address()] *)
  authorized : Address → bool    (** addresses whose [require_auth] succeeds *)
}.

(** [addr.require_auth()] *)
Definition require_auth {E} (env : Env) (a : Address) : res E unit :=
  if authorized env a then Ok tt else Panic.

Lemma require_auth_Ok {E} env a u :
  @require_auth E env a = Ok u → authorized env a = true.
Proof. unfold require_auth. by destruct (authorized env a). Qed.

Ltac auths :=
  repeat match goal with
  | H : require_auth _ _ = Ok _ |- _ => apply require_auth_Ok in H
  end.

(** The values of a [soroban_sdk::Map], in the order of its keys. *)
Definition key_le {V} (p q : string * V) : Prop := String.leb p.1 q.1 = true.
#[export] Instance key_le_dec {V} : RelDecision (@key_le V).
Proof. intros p q. unfold key_le. apply _. Defined.

Definition sorted_entries {V} (m : gmap string V) : list (string * V) :=
  merge_sort key_le (map_to_list m).
Definition map_values {V} (m : gmap string V) : list V :=
  (sorted_entries m).*2.

Lemma sorted_entries_perm {V} (m : gmap string V) :
  sorted_entries m ≡ₚ map_to_list m.
Proof. apply merge_sort_Permutation. Qed.

(** ** Token contracts *)
Class TokenLedger (W : Type) := {
  balance : W → Address → Address → Z;
  allowance : W → Address → Address → Address → Z;
  transfer : W → Address → Address → Address → Z → option W;
  transfer_from : W → Address → Address → Address → Address → Z → option W
}.

(** What a move of [n] units of [tok] from [a] to [b] does to the balances. *)
Definition moved {W} `{TokenLedger W} (w w' : W) (tok a b : Address) (n : Z) : Prop :=
  ∀ t x, balance w' t x =
    balance w t x
    + (if bool_decide (t = tok ∧ x = b) then n else 0)
    - (if bool_decide (t = tok ∧ x = a) then n else 0).

(** SEP-41: [transfer] and [transfer_from] trap on a negative amount, an
    insufficient balance or allowance, and otherwise move exactly the amount. *)
Class TokenLaws (W : Type) `{TokenLedger W} := {
  transfer_moves : ∀ (w w' : W) tok a b n,
    transfer w tok a b n = Some w' →
    0 ≤ n ∧ n ≤ balance w tok a ∧ moved w w' tok a b n;
  transfer_from_moves : ∀ (w w' : W) tok sp a b n,
    transfer_from w tok sp a b n = Some w' →
    0 ≤ n ∧ n ≤ balance w tok a ∧ n ≤ allowance w tok a sp
    ∧ moved w w' tok a b n
}.

Section Moved.
Context {W : Type} `{TokenLedger W}.

Lemma moved_to (w w' : W) tok a b n :
  moved w w' tok a b n → a ≠ b → balance w' tok b = balance w tok b + n.
Proof. intros Hm Hne. rewrite Hm. repeat case_bool_decide; naive_solver lia. Qed.

Lemma moved_from (w w' : W) tok a b n :
  moved w w' tok a b n → a ≠ b → balance w' tok a = balance w tok a - n.
Proof. intros Hm Hne. rewrite Hm. repeat case_bool_decide; naive_solver lia. Qed.

Lemma moved_self (w w' : W) tok a n t x :
  moved w w' tok a a n → balance w' t x = balance w t x.
Proof. intros Hm. rewrite Hm. case_bool_decide; lia. Qed.
End Moved.

(** A running ledger: balances and allowances in finite maps. *)
Record SimpleLedger : Type := MkLedger {
  sl_balances : gmap (string * string) Z;
  sl_allowances : gmap (string * string * string) Z
}.
#[export] Instance eta_SimpleLedger : Eta SimpleLedger :=
  λ w, MkLedger (sl_balances w) (sl_allowances w).

Definition sl_balance (w : SimpleLedger) (tok a : Address) : Z :=
  default 0 (sl_balances w !! (tok, a)).
Definition sl_allowance (w : SimpleLedger) (tok a sp : Address) : Z :=
  default 0 (sl_allowances w !! (tok, a, sp)).
Definition sl_transfer (w : SimpleLedger) (tok a b : Address) (n : Z) : option SimpleLedger :=
  if (n <? 0) || (sl_balance w tok a <? n) then None
  else
    let w1 := w ⟨ sl_balances ::= <[(tok, a) := sl_balance w tok a - n]> ⟩ in
    Some (w1 ⟨ sl_balances ::= <[(tok, b) := sl_balance w1 tok b + n]> ⟩).
Definition sl_transfer_from (w : SimpleLedger) (tok sp a b : Address) (n : Z)
    : option SimpleLedger :=
  if sl_allowance w tok a sp <? n then None
  else
    w' ← sl_transfer w tok a b n;
    Some (w' ⟨ sl_allowances ::= <[(tok, a, sp) := sl_allowance w tok a sp - n]> ⟩).

#[export] Instance SimpleLedger_ops : TokenLedger SimpleLedger := {|
  balance := sl_balance; allowance := sl_allowance;
  transfer := sl_transfer; transfer_from := sl_transfer_from |}.

Lemma sl_transfer_moves (w w' : SimpleLedger) tok a b n :
  sl_transfer w tok a b n = Some w' →
  0 ≤ n ∧ n ≤ sl_balance w tok a ∧ moved w w' tok a b n.
Proof.
  unfold sl_transfer. destruct (_ || _) eqn:E; [discriminate|].
  apply orb_false_iff in E as [E1 E2]. intros [= <-].
  split_and!; [lia..|]. intros t x. cbn. unfold sl_balance. cbn.
  repeat case_bool_decide; simplify_eq/=; destruct_and?; subst;
    repeat (rewrite lookup_insert; case_decide; simplify_eq/=);
    rewrite ?lookup_insert_eq; naive_solver lia.
Qed.

#[export] Instance SimpleLedger_laws : TokenLaws SimpleLedger.
Proof.
  constructor; [exact sl_transfer_moves|].
  intros w w' tok sp a b n. cbn. unfold sl_transfer_from.
  destruct (_ <? n) eqn:E; [discriminate|].
  destruct (sl_transfer w tok a b n) as [w1|] eqn:Ht; [|discriminate].
  intros [= <-]. apply sl_transfer_moves in Ht as (?&?&Hm).
  split_and!; [lia..|exact Hm].
Qed.

(** * Sharded lists

    The contracts split a growing list over buckets of [size] elements, stored
    under consecutive numbers next to a count.  [sharded m k count l] says that
    the buckets of [k] in [m] hold exactly the list [l]; appending to the
    bucket [count / size] appends to the list, and reading the first
    [div_ceil count size] buckets reads it back. *)

Section Sharded.
Context {A : Type} (size : positive).
Implicit Types (m : gmap (string * Z) (list A)) (l : list A).

Definition bucket m (k : string) (i : Z) : list A := default [] (m !! (k, i)).

Definition slice l (i : Z) : list A :=
  take (Pos.to_nat size) (drop (Z.to_nat (Z.pos size * i)) l).

(** The buckets of key [k] hold [l] and [count] is its length. *)
Definition sharded m (k : string) (count : Z) l : Prop :=
  count = Z.of_nat (length l) ∧ ∀ i, 0 ≤ i → bucket m k i = slice l i.

Definition shard_push m (k : string) (count : Z) (a : A) : gmap (string * Z) (list A) :=
  <[(k, count / Z.pos size) := bucket m k (count / Z.pos size) ++ [a]]> m.

(** What the readers traverse: the buckets [0 .. div_ceil count size - 1]. *)
Definition shard_entries m (k : string) (count : Z) : list A :=
  i ← seqZ 0 (div_ceil count (Z.pos size)); bucket m k i.

Lemma sharded_empty m k : (∀ i, m !! (k, i) = None) → sharded m k 0 [].
Proof.
  intros Hm. split; [done|]. intros i Hi. unfold bucket, slice. rewrite Hm.
  by rewrite drop_nil, take_nil.
Qed.

(** The last bucket, the ones before it and the ones after it. *)
Lemma bucket_position (n : nat) :
  let q := Z.of_nat n / Z.pos size in
  0 ≤ q ∧ Z.pos size * q ≤ Z.of_nat n < Z.pos size * q + Z.pos size.
Proof.
  pose proof (Z.div_mod (Z.of_nat n) (Z.pos size) ltac:(lia)).
  pose proof (Z.mod_pos_bound (Z.of_nat n) (Z.pos size) ltac:(lia)).
  split; [apply Z.div_pos; lia|lia].
Qed.

Lemma sharded_push m k count l a :
  sharded m k count l → sharded (shard_push m k count a) k (count + 1) (l ++ [a]).
Proof.
  intros [-> Hb]. split; [rewrite length_app; simpl; lia|].
  intros i Hi. unfold shard_push, slice. pose proof (bucket_position (length l)) as Hq.
  cbv zeta in Hq. set (n := length l) in *. set (q := Z.of_nat n / Z.pos size) in *.
  destruct (decide (i = q)) as [->|Hne].
  - unfold bucket at 1. rewrite lookup_insert_eq. simpl.
    rewrite Hb by lia. unfold slice. rewrite drop_app_le by lia.
    rewrite (take_ge (drop _ l)) by (rewrite length_drop; lia).
    by rewrite take_ge by (rewrite length_app, length_drop; simpl; lia).
  - unfold bucket at 1. rewrite lookup_insert_ne by congruence.
    fold (bucket m k i). rewrite Hb by lia. unfold slice. destruct (decide (i < q)).
    + assert (Z.pos size * i + Z.pos size ≤ Z.pos size * q) by nia.
      rewrite drop_app_le by lia. rewrite take_app_le; [done|]. rewrite length_drop. lia.
    + assert (Z.pos size * q + Z.pos size ≤ Z.pos size * i) by nia.
      rewrite !drop_ge; [done| |]; rewrite ?length_app; simpl; lia.
Qed.

(** Pushing to another key leaves the list alone. *)
Lemma sharded_frame m k k' count l c a :
  k ≠ k' → sharded m k count l → sharded (shard_push m k' c a) k count l.
Proof.
  intros Hne [Hc Hb]. split; [done|]. intros i Hi. rewrite <- Hb by done.
  unfold shard_push. unfold bucket at 1. by rewrite lookup_insert_ne by congruence.
Qed.

Lemma slices l (n : nat) :
  ((λ i : nat, slice l (Z.of_nat i)) <$> seq 0 n) ≫= id = take (Pos.to_nat size * n) l.
Proof.
  induction n as [|n IH]; [by rewrite Nat.mul_0_r|].
  rewrite seq_S, fmap_app, bind_app, IH. cbn [fmap list_fmap mbind list_bind].
  rewrite app_nil_r. unfold id, slice. rewrite Nat.add_0_l.
  replace (Z.to_nat (Z.pos size * Z.of_nat n)) with (Pos.to_nat size * n)%nat by lia.
  replace (Pos.to_nat size * S n)%nat with (Pos.to_nat size * n + Pos.to_nat size)%nat by lia.
  by rewrite take_take_drop.
Qed.

(** Reading every bucket gives the list back. *)
Lemma shard_entries_list m k count l :
  sharded m k count l → shard_entries m k count = l.
Proof.
  intros [-> Hb]. unfold shard_entries.
  pose proof (div_ceil_spec (Z.of_nat (length l)) (Z.pos size) ltac:(lia) ltac:(lia)) as Hd.
  set (n := Z.to_nat (div_ceil (Z.of_nat (length l)) (Z.pos size))).
  assert (Hs : seqZ 0 (div_ceil (Z.of_nat (length l)) (Z.pos size)) = Z.of_nat <$> seq 0 n).
  { unfold seqZ. fold n. apply list_fmap_ext. intros; lia. }
  rewrite Hs, list_fmap_bind, <- (take_ge l (Pos.to_nat size * n)) by nia.
  rewrite <- slices, list_fmap_bind. apply Forall_bind_ext, Forall_forall.
  intros i _. simpl. by rewrite Hb by lia.
Qed.
End Sharded.
