(* ===== verification/RegTypes.v ===== *)
(** * Event registry: data types, events and storage

    [types.rs], [error.rs], [topics.rs]/[events.rs], [bridge.rs] and
    [teleport.rs] of [contract/contracts/event_registry/src].  Structs are
    records with a short field prefix; [DataKey] becomes the record [State],
    one field per key variant: an [option] for a constant key, a finite map
    for a key with arguments.  Absent keys are [None]. *)

From S2P Require Import Prelude Machine Host.

Inductive EventRegistryError : Type :=
| EventAlreadyExists | EventNotFound | Unauthorized | InvalidAddress
| InvalidFeePercent | EventInactive | NotInitialized | AlreadyInitialized
| InvalidMetadataCid | MaxSupplyExceeded | SupplyOverflow | TierLimitExceeds
| TierNotFound | TierSoldOut | SupplyUnderflow | InvalidQuantity
| OrganizerBlacklisted | OrgNotBlacklisted | InvalidResaleCapBps
| InvalidPromoBps | EventCancelled | EventAlreadyCanceled | InvalidGracePeriod
| EventIsActive | AlreadyStaked | NotStaked | InvalidStakeAmount
| StakingNotConfigured | NoRewardsAvailable | InvalidRewardAmount
| InvalidThreshold | PropAlreadyExecuted | EventNotEnded | InvalidMilestonePlan
| InvalidTags | ProposalExpired | MultisigError | PropAlreadyCanceled
| PerUserLimitExceeded | InvalidDeadline | AlreadyOnWaitlist | NotOnWaitlist
| TooManyTiers | TokenNotAccepted | DisputeNotFound | DisputeNotOpen
| AlreadyVoted | NotTicketHolder | ReplayAttackDetected
| InsufficientSignatures.

Inductive Role : Type := RoleAdmin | RoleManager | RoleScanner.
Definition role_u32 (r : Role) : Z :=
  match r with RoleAdmin => 1 | RoleManager => 2 | RoleScanner => 3 end.

Inductive Category : Type :=
| Music | Sports | Tech | Arts | Food | Business | Health | Education
| Community | Other.

Definition from_id (id : Z) : option Category :=
  match id with
  | 1 => Some Music | 2 => Some Sports | 3 => Some Tech | 4 => Some Arts
  | 5 => Some Food | 6 => Some Business | 7 => Some Health
  | 8 => Some Education | 9 => Some Community | 10 => Some Other
  | _ => None
  end.

Record SeriesRegistry : Type := MkSeries {
  sr_series_id : string;
  sr_name : string;
  sr_event_ids : list string;
  sr_organizer_address : Address;
  sr_metadata_cid : option string
}.

Record SeriesPass : Type := MkSeriesPass {
  sp_pass_id : string;
  sp_series_id : string;
  sp_holder : Address;
  sp_usage_limit : Z;
  sp_usage_count : Z;
  sp_issued_at : Z;
  sp_expires_at : Z
}.
#[export] Instance eta_SeriesPass : Eta SeriesPass := λ p,
  MkSeriesPass (sp_pass_id p) (sp_series_id p) (sp_holder p)
    (sp_usage_limit p) (sp_usage_count p) (sp_issued_at p) (sp_expires_at p).

Record AuctionConfig : Type := MkAuctionConfig {
  ac_start_price : Z;
  ac_end_time : Z;
  ac_min_increment : Z
}.

Record TicketTier : Type := MkTier {
  tier_name : string;
  tier_price : Z;
  tier_limit : Z;
  tier_current_sold : Z;
  tier_is_refundable : bool;
  tier_auction_config : list AuctionConfig;
  tier_loyalty_multiplier : Z;
  tier_max_per_user : Z
}.
#[export] Instance eta_TicketTier : Eta TicketTier := λ t,
  MkTier (tier_name t) (tier_price t) (tier_limit t) (tier_current_sold t)
    (tier_is_refundable t) (tier_auction_config t) (tier_loyalty_multiplier t)
    (tier_max_per_user t).

Record Milestone : Type := MkMilestone {
  ms_sales_threshold : Z;
  ms_release_percent : Z
}.

Inductive EventStatus : Type := StActive | StInactive | StCancelled.
#[export] Instance EventStatus_eq_dec : EqDecision EventStatus.
Proof. solve_decision. Defined.

Record EventInfo : Type := MkEvent {
  ei_event_id : string;
  ei_name : string;
  ei_organizer_address : Address;
  ei_payment_address : Address;
  ei_platform_fee_percent : Z;
  ei_is_active : bool;
  ei_status : EventStatus;
  ei_created_at : Z;
  ei_metadata_cid : string;
  ei_max_supply : Z;
  ei_current_supply : Z;
  ei_milestone_plan : option (list Milestone);
  ei_tiers : gmap string TicketTier;
  ei_refund_deadline : Z;
  ei_restocking_fee : Z;
  ei_resale_cap_bps : option Z;
  ei_is_postponed : bool;
  ei_grace_period_end : Z;
  ei_min_sales_target : Z;
  ei_target_deadline : Z;
  ei_goal_met : bool;
  ei_custom_fee_bps : option Z;
  ei_banner_cid : option string;
  ei_tags : option (list string);
  ei_category_ids : option (list Z);
  ei_start_time : Z;
  ei_is_private : bool;
  ei_end_time : Z;
  ei_transfer_lock_duration : Z;
  ei_accepted_tokens : list Address;
  ei_use_global_whitelist : bool;
  ei_feedback_cid : option string;
  ei_cancellation_reason : option string;
  ei_referral_rate_bps : Z
}.
#[export] Instance eta_EventInfo : Eta EventInfo := λ e,
  MkEvent (ei_event_id e) (ei_name e) (ei_organizer_address e)
    (ei_payment_address e) (ei_platform_fee_percent e) (ei_is_active e)
    (ei_status e) (ei_created_at e) (ei_metadata_cid e) (ei_max_supply e)
    (ei_current_supply e) (ei_milestone_plan e) (ei_tiers e)
    (ei_refund_deadline e) (ei_restocking_fee e) (ei_resale_cap_bps e)
    (ei_is_postponed e) (ei_grace_period_end e) (ei_min_sales_target e)
    (ei_target_deadline e) (ei_goal_met e) (ei_custom_fee_bps e)
    (ei_banner_cid e) (ei_tags e) (ei_category_ids e) (ei_start_time e)
    (ei_is_private e) (ei_end_time e) (ei_transfer_lock_duration e)
    (ei_accepted_tokens e) (ei_use_global_whitelist e) (ei_feedback_cid e)
    (ei_cancellation_reason e) (ei_referral_rate_bps e).

Record PaymentInfo : Type := MkPaymentInfo {
  pi_payment_address : Address;
  pi_platform_fee_percent : Z;
  pi_custom_fee_bps : option Z;
  pi_tiers : gmap string TicketTier;
  pi_referral_rate_bps : Z
}.

Record EventRegistrationArgs : Type := MkArgs {
  ar_event_id : string;
  ar_name : string;
  ar_organizer_address : Address;
  ar_payment_address : Address;
  ar_metadata_cid : string;
  ar_max_supply : Z;
  ar_milestone_plan : option (list Milestone);
  ar_tiers : gmap string TicketTier;
  ar_refund_deadline : Z;
  ar_restocking_fee : Z;
  ar_resale_cap_bps : option Z;
  ar_min_sales_target : option Z;
  ar_target_deadline : option Z;
  ar_banner_cid : option string;
  ar_tags : option (list string);
  ar_category_ids : option (list Z);
  ar_start_time : Z;
  ar_is_private : bool;
  ar_end_time : Z;
  ar_transfer_lock_duration : Z;
  ar_accepted_tokens : list Address;
  ar_use_global_whitelist : bool;
  ar_referral_rate_bps : option Z
}.

Record BlacklistAuditEntry : Type := MkAudit {
  ba_organizer_address : Address;
  ba_added_to_blacklist : bool;
  ba_admin_address : Address;
  ba_reason : string;
  ba_timestamp : Z
}.

Record EventReceipt : Type := MkReceipt {
  rc_event_id : string;
  rc_organizer_address : Address;
  rc_total_sold : Z;
  rc_archived_at : Z
}.

Record MultiSigConfig : Type := MkMultiSig {
  msc_admins : list Address;
  msc_threshold : Z
}.
#[export] Instance eta_MultiSigConfig : Eta MultiSigConfig := λ c,
  MkMultiSig (msc_admins c) (msc_threshold c).

Inductive ParameterChange : Type :=
| AddAdmin (a : Address)
| RemoveAdmin (a : Address)
| SetThreshold (n : Z)
| UpdatePlatformWallet (a : Address)
| SetPlatformFee (fee : Z)
| SetMinStakeAmount (amount : Z).

Record Proposal : Type := MkProposal {
  pp_proposal_id : Z;
  pp_proposer : Address;
  pp_change : ParameterChange;
  pp_approvals : list Address;
  pp_executed : bool;
  pp_cancelled : bool;
  pp_created_at : Z;
  pp_expires_at : Z
}.
#[export] Instance eta_Proposal : Eta Proposal := λ p,
  MkProposal (pp_proposal_id p) (pp_proposer p) (pp_change p)
    (pp_approvals p) (pp_executed p) (pp_cancelled p) (pp_created_at p)
    (pp_expires_at p).

Record GuestProfile : Type := MkGuest {
  gp_guest_address : Address;
  gp_loyalty_score : Z;
  gp_total_tickets_purchased : Z;
  gp_total_spent : Z;
  gp_last_updated : Z
}.

Record OrganizerStake : Type := MkStake {
  os_organizer : Address;
  os_token : Address;
  os_amount : Z;
  os_staked_at : Z;
  os_is_verified : bool;
  os_reward_balance : Z;
  os_total_rewards_claimed : Z
}.
#[export] Instance eta_OrganizerStake : Eta OrganizerStake := λ s,
  MkStake (os_organizer s) (os_token s) (os_amount s) (os_staked_at s)
    (os_is_verified s) (os_reward_balance s) (os_total_rewards_claimed s).

Inductive DisputeStatus : Type :=
| DsOpen | DsVoting | DsResolvedBuyer | DsResolvedOrganizer | DsExpired.
#[export] Instance DisputeStatus_eq_dec : EqDecision DisputeStatus.
Proof. solve_decision. Defined.

Inductive DisputeVote : Type := BuyerFavor | OrganizerFavor.

Record Dispute : Type := MkDispute {
  dp_event_id : string;
  dp_opened_by : Address;
  dp_opened_at : Z;
  dp_closes_at : Z;
  dp_status : DisputeStatus;
  dp_total_votes : Z;
  dp_buyer_votes : Z;
  dp_organizer_votes : Z;
  dp_quorum_threshold_bps : Z;
  dp_total_eligible_tickets : Z
}.
#[export] Instance eta_Dispute : Eta Dispute := λ d,
  MkDispute (dp_event_id d) (dp_opened_by d) (dp_opened_at d)
    (dp_closes_at d) (dp_status d) (dp_total_votes d) (dp_buyer_votes d)
    (dp_organizer_votes d) (dp_quorum_threshold_bps d)
    (dp_total_eligible_tickets d).

(** [bridge.rs] *)
Record BridgeConfig : Type := MkBridge {
  br_relayer_pubkeys : list Address;
  br_threshold : Z;
  br_nonce : Z
}.

(** The published events: the topic of [topics.rs] and the fields of its
    payload struct of [events.rs], in order.  Only the topics that the
    entry points publish. *)
Inductive AgoraEvent : Type :=
| EvContractInitialized (admin_address platform_wallet : Address) (platform_fee_percent timestamp : Z)
| EvEventRegistered (event_id : string) (organizer_address payment_address : Address) (timestamp : Z)
| EvEventStatusUpdated (event_id : string) (is_active : bool) (updated_by : Address) (timestamp : Z)
| EvEventCancelled (event_id : string) (cancelled_by : Address) (timestamp : Z) (reason : option string)
| EvEventArchived (event_id : string) (organizer_address : Address) (timestamp : Z)
| EvMetadataUpdated (event_id new_metadata_cid : string) (updated_by : Address) (timestamp : Z)
| EvFeedbackCidSet (event_id feedback_cid : string) (updated_by : Address) (timestamp : Z)
| EvFeeUpdated (new_fee_percent : Z)
| EvCustomFeeSet (event_id : string) (custom_fee_bps : option Z) (admin_address : Address) (timestamp : Z)
| EvAdminProposed (current_admin proposed_admin : Address) (timestamp : Z)
| EvAdminTransferred (previous_admin new_admin : Address) (timestamp : Z)
| EvAdminProposalCancelled (admin cancelled_proposed_admin : Address) (timestamp : Z)
| EvInventoryIncremented (event_id : string) (new_supply timestamp : Z)
| EvInventoryDecremented (event_id : string) (new_supply timestamp : Z)
| EvGoalMet (event_id : string) (min_sales_target current_supply timestamp : Z)
| EvContractUpgraded (admin_address : Address) (timestamp : Z)
| EvOrganizerBlacklisted (organizer_address admin_address : Address) (reason : string) (timestamp : Z)
| EvOrganizerRemovedFromBlacklist (organizer_address admin_address : Address) (reason : string) (timestamp : Z)
| EvEventsSuspended (organizer_address : Address) (suspended_event_count : Z) (admin_address : Address) (timestamp : Z)
| EvGlobalPromoUpdated (global_promo_bps promo_expiry : Z) (admin_address : Address) (timestamp : Z)
| EvEventPostponed (event_id : string) (organizer_address : Address) (new_start_time grace_period_end timestamp : Z)
| EvScannerAuthorized (event_id : string) (scanner authorized_by : Address) (timestamp : Z)
| EvScannerRevoked (event_id : string) (scanner revoked_by : Address) (timestamp : Z)
| EvStakingTokenUpdated (old_token : option Address) (new_token admin : Address)
| EvMinStakeAmountUpdated (old_amount new_amount : Z) (admin : Address)
| EvCollateralStaked (organizer token : Address) (amount : Z) (is_verified : bool) (timestamp : Z)
| EvCollateralUnstaked (organizer token : Address) (amount timestamp : Z)
| EvStakerRewardsDistributed (total_reward staker_count timestamp : Z)
| EvStakerRewardsClaimed (organizer : Address) (amount timestamp : Z)
| EvLoyaltyScoreUpdated (guest : Address) (new_score tickets_purchased timestamp : Z)
| EvProposalCancelled (proposal_id : Z) (cancelled_by : Address) (timestamp : Z)
| EvWaitlistJoined (event_id : string) (user : Address) (timestamp : Z)
| EvWaitlistLeft (event_id : string) (user : Address) (timestamp : Z)
| EvDisputeOpened (event_id : string) (opened_by : Address) (timestamp : Z)
| EvDisputeVoted (event_id : string) (voter : Address) (vote : DisputeVote) (timestamp : Z)
| EvDisputeResolved (event_id : string) (status : DisputeStatus) (buyer_votes organizer_votes total_votes timestamp : Z).

(** The contract's storage and the events published so far.  Keys of
    [DataKey] that no function of the contract writes ([SlippageBps] and the
    like of other contracts) do not occur; [BridgeConfig] and the teleport
    flags are the instance keys of [bridge.rs] and [teleport.rs]. *)
Record State : Type := MkState {
  Admin : option Address;
  PendingAdmin : option Address;
  MultiSig : option MultiSigConfig;
  PlatformWallet : option Address;
  PlatformFee : option Z;
  Initialized : option bool;
  Event : gmap string EventInfo;
  OrganizerEvent : gmap (string * string) bool;
  OrganizerEventShard : gmap (string * Z) (list string);
  OrganizerEventCount : gmap string Z;
  TicketPaymentContract : option Address;
  BlacklistedOrganizer : gmap string bool;
  BlacklistLog : option (list BlacklistAuditEntry);
  GlobalPromoBps : option Z;
  PromoExpiry : option Z;
  Receipt : gmap string EventReceipt;
  OrganizerReceipt : gmap (string * string) bool;
  OrganizerReceiptShard : gmap (string * Z) (list string);
  OrganizerReceiptCount : gmap string Z;
  ProposalCounter : option Z;
  Proposals : gmap Z Proposal;
  ActiveProposals : option (list Z);
  AuthorizedScanner : gmap (string * string) bool;
  Series : gmap string SeriesRegistry;
  SeriesPasses : gmap string SeriesPass;
  HolderSeriesPass : gmap (string * string) string;
  SeriesEvent : gmap (string * string) bool;
  Guest : gmap string GuestProfile;
  Stake : gmap string OrganizerStake;
  MinStakeAmount : option Z;
  StakingToken : option Address;
  TotalStaked : option Z;
  StakersList : option (list Address);
  TokenWhitelist : gmap string bool;
  EventTokenWhitelist : gmap (string * string) bool;
  GlobalEventCount : option Z;
  GlobalActiveEventCount : option Z;
  GlobalTicketsSold : option Z;
  UserTicketCount : gmap (string * string * string) Z;
  Waitlist : gmap (string * string) bool;
  EventPaused : gmap string bool;
  ContractAdmin : option Address;
  ApprovedOrganizer : gmap string bool;
  CategoryEvents : gmap Z (list string);
  EventTeamRole : gmap (string * string) Role;
  Disputes : gmap string Dispute;
  DisputeVotes : gmap (string * string) DisputeVote;
  DisputeVoteShard : gmap (string * Z) (list Address);
  DisputeVoteCount : gmap string Z;
  Bridge : option BridgeConfig;
  Teleport : gmap string bool;
  published : list AgoraEvent
}.
#[export] Instance eta_State : Eta State := λ s,
  MkState (Admin s) (PendingAdmin s) (MultiSig s) (PlatformWallet s)
    (PlatformFee s) (Initialized s) (Event s) (OrganizerEvent s)
    (OrganizerEventShard s) (OrganizerEventCount s) (TicketPaymentContract s)
    (BlacklistedOrganizer s) (BlacklistLog s) (GlobalPromoBps s)
    (PromoExpiry s) (Receipt s) (OrganizerReceipt s)
    (OrganizerReceiptShard s) (OrganizerReceiptCount s) (ProposalCounter s)
    (Proposals s) (ActiveProposals s) (AuthorizedScanner s) (Series s)
    (SeriesPasses s) (HolderSeriesPass s) (SeriesEvent s) (Guest s) (Stake s)
    (MinStakeAmount s) (StakingToken s) (TotalStaked s) (StakersList s)
    (TokenWhitelist s) (EventTokenWhitelist s) (GlobalEventCount s)
    (GlobalActiveEventCount s) (GlobalTicketsSold s) (UserTicketCount s)
    (Waitlist s) (EventPaused s) (ContractAdmin s) (ApprovedOrganizer s)
    (CategoryEvents s) (EventTeamRole s) (Disputes s) (DisputeVotes s)
    (DisputeVoteShard s) (DisputeVoteCount s) (Bridge s) (Teleport s)
    (published s).

(** The storage of a contract instance that was just deployed. *)
Definition empty_state : State :=
  MkState None None None None None None ∅ ∅ ∅ ∅ None ∅ None None None ∅ ∅ ∅ ∅
    None ∅ None ∅ ∅ ∅ ∅ ∅ ∅ ∅ None None None None ∅ ∅ None None None ∅ ∅ ∅ None
    ∅ ∅ ∅ ∅ ∅ ∅ ∅ None ∅ [].

(** [env.events().publish] *)
Definition emit (s : State) (e : AgoraEvent) : State :=
  s ⟨ published ::= λ l, l ++ [e] ⟩.

(** A call of the registry: the result and the new storage. *)
Definition call (A : Type) : Type := res EventRegistryError (A * State).

(** ** Laws of the data types *)
Lemma from_id_range id c : from_id id = Some c → 1 ≤ id ≤ 10.
Proof.
  unfold from_id. destruct id as [|p|]; [discriminate| |discriminate].
  do 4 (destruct p as [p|p|]; try discriminate; try lia).
Qed.
