(* ===== verification/RegStorage.v ===== *)
(** * Event registry: the storage layer

    [contract/contracts/event_registry/src/storage.rs], one definition per
    function.  A writer is a function on [State]; one that contains a plain
    [+] on a machine integer can trap and returns a [res].  Time-to-live
    extension ([bump_persistent], [bump_instance]) does not change what a
    read returns and is the identity.  The second part proves the
    laws of the layer: the active-event counter follows the events. *)

From S2P Require Import Prelude Machine Host RegTypes.

Module storage.

Definition eff : Type := res EventRegistryError State.

(** ** Series *)
Definition store_series (s : State) (series : SeriesRegistry) : State :=
  let s := s ⟨ Series ::= <[sr_series_id series := series]> ⟩ in
  foldl (λ s event_id,
           s ⟨ SeriesEvent ::= <[(sr_series_id series, event_id) := true]> ⟩)
    s (sr_event_ids series).

Definition get_series (s : State) (series_id : string) : option SeriesRegistry :=
  Series s !! series_id.

Definition series_contains_event (s : State) (series_id event_id : string) : bool :=
  bool_decide (is_Some (SeriesEvent s !! (series_id, event_id))).

Definition store_series_pass (s : State) (pass : SeriesPass) : State :=
  let s := s ⟨ SeriesPasses ::= <[sp_pass_id pass := pass]> ⟩ in
  s ⟨ HolderSeriesPass ::= <[(sp_holder pass, sp_series_id pass) := sp_pass_id pass]> ⟩.

Definition get_series_pass (s : State) (pass_id : string) : option SeriesPass :=
  SeriesPasses s !! pass_id.

Definition get_holder_series_pass (s : State) (holder : Address) (series_id : string)
    : option SeriesPass :=
  match HolderSeriesPass s !! (holder, series_id) with
  | Some pass_id => SeriesPasses s !! pass_id
  | None => None
  end.

Definition increment_series_pass_usage (s : State) (pass_id : string)
    : option SeriesPass * State :=
  match get_series_pass s pass_id with
  | Some pass =>
      if sp_usage_count pass <? sp_usage_limit pass then
        let pass := pass ⟨ sp_usage_count := sp_usage_count pass + 1 ⟩ in
        (Some pass, store_series_pass s pass)
      else (None, s)
  | None => (None, s)
  end.

(** ** Global counters *)
Definition get_global_event_count (s : State) : Z := default 0 (GlobalEventCount s).

Definition increment_global_event_count (s : State) : eff :=
  let current := get_global_event_count s in
  let! n := unwrap (checked_u32 (current + 1)) in
  Ok (s ⟨ GlobalEventCount := Some n ⟩).

Definition get_global_active_event_count (s : State) : Z :=
  default 0 (GlobalActiveEventCount s).

Definition increment_global_active_event_count (s : State) : eff :=
  let current := get_global_active_event_count s in
  let! n := unwrap (checked_u32 (current + 1)) in
  Ok (s ⟨ GlobalActiveEventCount := Some n ⟩).

Definition decrement_global_active_event_count (s : State) : State :=
  let current := get_global_active_event_count s in
  s ⟨ GlobalActiveEventCount := Some (sat_u32 (current - 1)) ⟩.

Definition get_global_tickets_sold (s : State) : Z := default 0 (GlobalTicketsSold s).

Definition add_to_global_tickets_sold (s : State) (quantity : Z) : State :=
  let current := get_global_tickets_sold s in
  s ⟨ GlobalTicketsSold := Some (sat_i128 (current + quantity)) ⟩.

Definition subtract_from_global_tickets_sold (s : State) (quantity : Z) : State :=
  let current := get_global_tickets_sold s in
  s ⟨ GlobalTicketsSold := Some (sat_i128 (current - quantity)) ⟩.

Definition SHARD_SIZE : Z := 50.

(** The arms of the [match] are tried in order: the guards of the second and
    third arm see an event whose activity did not drop. *)
Definition sync_active_event_count (s : State) (existing : option EventInfo)
    (updated : EventInfo) : eff :=
  if ei_is_private updated then
    match existing with
    | Some prev =>
        if negb (ei_is_private prev) && ei_is_active prev
        then Ok (decrement_global_active_event_count s) else Ok s
    | None => Ok s
    end
  else
    match existing with
    | Some previous =>
        if ei_is_active previous && negb (ei_is_active updated)
        then Ok (decrement_global_active_event_count s)
        else if negb (ei_is_active previous) && ei_is_active updated
        then increment_global_active_event_count s
        else if ei_is_private previous && ei_is_active updated
        then increment_global_active_event_count s
        else Ok s
    | None =>
        if ei_is_active updated then increment_global_active_event_count s else Ok s
    end.

(** ** Administration and configuration *)
Definition set_admin (s : State) (admin : Address) : State := s ⟨ Admin := Some admin ⟩.
Definition get_admin (s : State) : option Address := Admin s.
Definition set_pending_admin (s : State) (admin : Address) : State :=
  s ⟨ PendingAdmin := Some admin ⟩.
Definition get_pending_admin (s : State) : option Address := PendingAdmin s.
Definition clear_pending_admin (s : State) : State := s ⟨ PendingAdmin := None ⟩.
Definition set_multisig_config (s : State) (config : MultiSigConfig) : State :=
  s ⟨ MultiSig := Some config ⟩.
Definition get_multisig_config (s : State) : option MultiSigConfig := MultiSig s.

Definition is_admin (s : State) (address : Address) : bool :=
  match get_multisig_config s with
  | Some config => existsb (λ admin, bool_decide (admin = address)) (msc_admins config)
  | None => false
  end.

Definition set_platform_wallet (s : State) (wallet : Address) : State :=
  s ⟨ PlatformWallet := Some wallet ⟩.
Definition get_platform_wallet (s : State) : option Address := PlatformWallet s.
Definition set_platform_fee (s : State) (fee : Z) : State := s ⟨ PlatformFee := Some fee ⟩.
Definition get_platform_fee (s : State) : Z := default 0 (PlatformFee s).
Definition has_platform_fee (s : State) : bool := bool_decide (is_Some (PlatformFee s)).
Definition set_initialized (s : State) (value : bool) : State :=
  s ⟨ Initialized := Some value ⟩.
Definition is_initialized (s : State) : bool := default false (Initialized s).

(** ** Governance proposals *)
Definition get_next_proposal_id (s : State) : res EventRegistryError (Z * State) :=
  let current := default 0 (ProposalCounter s) in
  let! next := unwrap (checked_u64 (current + 1)) in
  Ok (current, s ⟨ ProposalCounter := Some next ⟩).

Definition get_proposal_counter (s : State) : Z := default 0 (ProposalCounter s).
Definition set_proposal_counter (s : State) (counter : Z) : State :=
  s ⟨ ProposalCounter := Some counter ⟩.
Definition set_proposal (s : State) (proposal : Proposal) : State :=
  s ⟨ Proposals ::= <[pp_proposal_id proposal := proposal]> ⟩.
Definition get_proposal (s : State) (proposal_id : Z) : option Proposal :=
  Proposals s !! proposal_id.
Definition get_active_proposals (s : State) : list Z := default [] (ActiveProposals s).

Definition add_active_proposal (s : State) (proposal_id : Z) : State :=
  let active_proposals := get_active_proposals s in
  if existsb (λ id, id =? proposal_id) active_proposals then s
  else s ⟨ ActiveProposals := Some (active_proposals ++ [proposal_id]) ⟩.

Definition store_proposal (s : State) (proposal : Proposal) : State :=
  let s := s ⟨ Proposals ::= <[pp_proposal_id proposal := proposal]> ⟩ in
  if negb (pp_executed proposal) then
    let active_proposals := get_active_proposals s in
    let exists_ := existsb (λ id, id =? pp_proposal_id proposal) active_proposals in
    if negb exists_
    then s ⟨ ActiveProposals := Some (active_proposals ++ [pp_proposal_id proposal]) ⟩
    else s
  else s.

Definition remove_active_proposal (s : State) (proposal_id : Z) : State :=
  s ⟨ ActiveProposals := Some (filter (λ id, id ≠ proposal_id) (get_active_proposals s)) ⟩.

Definition remove_from_active_proposals (s : State) (proposal_id : Z) : State :=
  s ⟨ ActiveProposals := Some (filter (λ id, id ≠ proposal_id) (get_active_proposals s)) ⟩.

(** ** Events and the organizer index *)
Definition get_event (s : State) (event_id : string) : option EventInfo :=
  Event s !! event_id.
Definition event_exists (s : State) (event_id : string) : bool :=
  bool_decide (is_Some (Event s !! event_id)).
Definition get_organizer_event_count (s : State) (organizer : Address) : Z :=
  default 0 (OrganizerEventCount s !! organizer).
Definition has_organizer_event (s : State) (organizer : Address) (event_id : string) : bool :=
  bool_decide (is_Some (OrganizerEvent s !! (organizer, event_id))).
Definition get_organizer_event_shard (s : State) (organizer : Address) (shard_id : Z)
    : list string :=
  default [] (OrganizerEventShard s !! (organizer, shard_id)).

Definition store_event (s : State) (event_info : EventInfo) : eff :=
  let event_id := ei_event_id event_info in
  let organizer := ei_organizer_address event_info in
  let existing := get_event s event_id in
  let! s := sync_active_event_count s existing event_info in
  let s := s ⟨ Event ::= <[event_id := event_info]> ⟩ in
  if negb (has_organizer_event s organizer event_id) then
    let count := get_organizer_event_count s organizer in
    let shard_id := count / SHARD_SIZE in
    let shard := default [] (OrganizerEventShard s !! (organizer, shard_id)) in
    let s := s ⟨ OrganizerEventShard ::= <[(organizer, shard_id) := shard ++ [event_id]]> ⟩ in
    let! next := unwrap (checked_u32 (count + 1)) in
    let s := s ⟨ OrganizerEventCount ::= <[organizer := next]> ⟩ in
    let s := s ⟨ OrganizerEvent ::= <[(organizer, event_id) := true]> ⟩ in
    if negb (ei_is_private event_info) then increment_global_event_count s else Ok s
  else Ok s.

Definition update_event (s : State) (event_info : EventInfo) : eff :=
  let event_id := ei_event_id event_info in
  let existing := get_event s event_id in
  let! s := sync_active_event_count s existing event_info in
  Ok (s ⟨ Event ::= <[event_id := event_info]> ⟩).

(** The [for i in 0..num_shards] loop with its [break]: the first shard that
    holds [event_id] is rewritten without it; [true] when one did. *)
Fixpoint remove_loop (s : State) (organizer : Address) (event_id : string)
    (shards : list Z) : bool * State :=
  match shards with
  | [] => (false, s)
  | i :: shards =>
      let shard := default [] (OrganizerEventShard s !! (organizer, i)) in
      let found_in_shard := existsb (λ id, bool_decide (id = event_id)) shard in
      let new_shard := filter (λ id, id ≠ event_id) shard in
      if found_in_shard
      then (true, s ⟨ OrganizerEventShard ::= <[(organizer, i) := new_shard]> ⟩)
      else remove_loop s organizer event_id shards
  end.

Definition remove_from_organizer_index (s : State) (organizer : Address)
    (event_id : string) : State :=
  let count := get_organizer_event_count s organizer in
  if count =? 0 then s
  else
    let num_shards := div_ceil count SHARD_SIZE in
    let (found, s) := remove_loop s organizer event_id (seqZ 0 num_shards) in
    if found then s ⟨ OrganizerEventCount ::= <[organizer := count - 1]> ⟩ else s.

Definition remove_event (s : State) (event_id : string) : State :=
  match get_event s event_id with
  | Some event_info =>
      let organizer := ei_organizer_address event_info in
      let s := if ei_is_active event_info && negb (ei_is_private event_info)
               then decrement_global_active_event_count s else s in
      let s := s ⟨ Event ::= delete event_id ⟩ in
      let s := s ⟨ OrganizerEvent ::= delete (organizer, event_id) ⟩ in
      remove_from_organizer_index s organizer event_id
  | None => s
  end.

Definition get_organizer_events (s : State) (organizer caller : Address) : list string :=
  let count := get_organizer_event_count s organizer in
  let is_owner := bool_decide (organizer = caller) in
  if count =? 0 then []
  else
    let num_shards := div_ceil count SHARD_SIZE in
    i ← seqZ 0 num_shards;
    id ← default [] (OrganizerEventShard s !! (organizer, i));
    if is_owner then [id]
    else match get_event s id with
         | Some event_info => if negb (ei_is_private event_info) then [id] else []
         | None => []
         end.

(** ** Receipts of archived events *)
Definition get_event_receipt (s : State) (event_id : string) : option EventReceipt :=
  Receipt s !! event_id.
Definition get_organizer_receipt_count (s : State) (organizer : Address) : Z :=
  default 0 (OrganizerReceiptCount s !! organizer).
Definition has_organizer_receipt (s : State) (organizer : Address) (event_id : string) : bool :=
  bool_decide (is_Some (OrganizerReceipt s !! (organizer, event_id))).

Definition store_event_receipt (s : State) (receipt : EventReceipt) : eff :=
  let organizer := rc_organizer_address receipt in
  let event_id := rc_event_id receipt in
  let s := s ⟨ Receipt ::= <[event_id := receipt]> ⟩ in
  if negb (has_organizer_receipt s organizer event_id) then
    let count := get_organizer_receipt_count s organizer in
    let shard_id := count / SHARD_SIZE in
    let shard := default [] (OrganizerReceiptShard s !! (organizer, shard_id)) in
    let s := s ⟨ OrganizerReceiptShard ::= <[(organizer, shard_id) := shard ++ [event_id]]> ⟩ in
    let! next := unwrap (checked_u32 (count + 1)) in
    let s := s ⟨ OrganizerReceiptCount ::= <[organizer := next]> ⟩ in
    Ok (s ⟨ OrganizerReceipt ::= <[(organizer, event_id) := true]> ⟩)
  else Ok s.

Definition get_organizer_receipts (s : State) (organizer : Address) : list EventReceipt :=
  let count := get_organizer_receipt_count s organizer in
  if count =? 0 then []
  else
    let num_shards := div_ceil count SHARD_SIZE in
    i ← seqZ 0 num_shards;
    event_id ← default [] (OrganizerReceiptShard s !! (organizer, i));
    match get_event_receipt s event_id with
    | Some receipt => [receipt]
    | None => []
    end.

(** ** Payment contract, blacklist, promotions, scanners *)
Definition set_ticket_payment_contract (s : State) (address : Address) : State :=
  s ⟨ TicketPaymentContract := Some address ⟩.
Definition get_ticket_payment_contract (s : State) : option Address :=
  TicketPaymentContract s.
Definition is_blacklisted (s : State) (organizer : Address) : bool :=
  default false (BlacklistedOrganizer s !! organizer).
Definition add_to_blacklist (s : State) (organizer : Address) : State :=
  s ⟨ BlacklistedOrganizer ::= <[organizer := true]> ⟩.
Definition remove_from_blacklist (s : State) (organizer : Address) : State :=
  s ⟨ BlacklistedOrganizer ::= delete organizer ⟩.
Definition get_blacklist_audit_log (s : State) : list BlacklistAuditEntry :=
  default [] (BlacklistLog s).
Definition add_blacklist_audit_entry (s : State) (entry : BlacklistAuditEntry) : State :=
  s ⟨ BlacklistLog := Some (get_blacklist_audit_log s ++ [entry]) ⟩.
Definition set_global_promo_bps (s : State) (bps : Z) : State :=
  s ⟨ GlobalPromoBps := Some bps ⟩.
Definition get_global_promo_bps (s : State) : Z := default 0 (GlobalPromoBps s).
Definition set_promo_expiry (s : State) (expiry : Z) : State :=
  s ⟨ PromoExpiry := Some expiry ⟩.
Definition get_promo_expiry (s : State) : Z := default 0 (PromoExpiry s).
Definition authorize_scanner (s : State) (event_id : string) (scanner : Address) : State :=
  s ⟨ AuthorizedScanner ::= <[(event_id, scanner) := true]> ⟩.
Definition remove_scanner (s : State) (event_id : string) (scanner : Address) : State :=
  s ⟨ AuthorizedScanner ::= delete (event_id, scanner) ⟩.
Definition is_scanner_authorized (s : State) (event_id : string) (scanner : Address) : bool :=
  default false (AuthorizedScanner s !! (event_id, scanner)).

(** ** Loyalty and staking *)
Definition get_guest_profile (s : State) (guest : Address) : option GuestProfile :=
  Guest s !! guest.
Definition set_guest_profile (s : State) (profile : GuestProfile) : State :=
  s ⟨ Guest ::= <[gp_guest_address profile := profile]> ⟩.
Definition get_organizer_stake (s : State) (organizer : Address) : option OrganizerStake :=
  Stake s !! organizer.
Definition set_organizer_stake (s : State) (stake : OrganizerStake) : State :=
  s ⟨ Stake ::= <[os_organizer stake := stake]> ⟩.
Definition remove_organizer_stake (s : State) (organizer : Address) : State :=
  s ⟨ Stake ::= delete organizer ⟩.
Definition set_contract_admin (s : State) (admin : Address) : State :=
  s ⟨ ContractAdmin := Some admin ⟩.
Definition get_contract_admin (s : State) : option Address := ContractAdmin s.
Definition set_approved_organizer (s : State) (organizer : Address) (approved : bool) : State :=
  if approved then s ⟨ ApprovedOrganizer ::= <[organizer := true]> ⟩
  else s ⟨ ApprovedOrganizer ::= delete organizer ⟩.
Definition is_approved_organizer (s : State) (addr : Address) : bool :=
  default false (ApprovedOrganizer s !! addr).
Definition get_min_stake_amount (s : State) : Z := default 0 (MinStakeAmount s).
Definition set_min_stake_amount (s : State) (amount : Z) : State :=
  s ⟨ MinStakeAmount := Some amount ⟩.
Definition get_staking_token (s : State) : option Address := StakingToken s.
Definition set_staking_token (s : State) (token : Address) : State :=
  s ⟨ StakingToken := Some token ⟩.
Definition get_total_staked (s : State) : Z := default 0 (TotalStaked s).

Definition add_to_total_staked (s : State) (amount : Z) : eff :=
  let current := get_total_staked s in
  let! n := unwrap (checked_i128 (current + amount)) in
  Ok (s ⟨ TotalStaked := Some n ⟩).

Definition subtract_from_total_staked (s : State) (amount : Z) : State :=
  let current := get_total_staked s in
  s ⟨ TotalStaked := Some (sat_i128 (current - amount)) ⟩.

Definition get_stakers_list (s : State) : list Address := default [] (StakersList s).

Definition add_to_stakers_list (s : State) (organizer : Address) : State :=
  let list := get_stakers_list s in
  if existsb (λ addr, bool_decide (addr = organizer)) list then s
  else s ⟨ StakersList := Some (list ++ [organizer]) ⟩.

Definition remove_from_stakers_list (s : State) (organizer : Address) : State :=
  s ⟨ StakersList := Some (filter (λ addr, addr ≠ organizer) (get_stakers_list s)) ⟩.

(** ** Token whitelists *)
Definition add_to_token_whitelist (s : State) (token : Address) : State :=
  s ⟨ TokenWhitelist ::= <[token := true]> ⟩.
Definition remove_from_token_whitelist (s : State) (token : Address) : State :=
  s ⟨ TokenWhitelist ::= delete token ⟩.
Definition is_token_whitelisted (s : State) (token : Address) : bool :=
  default false (TokenWhitelist s !! token).
Definition add_event_token_whitelist (s : State) (event_id : string) (token : Address) : State :=
  s ⟨ EventTokenWhitelist ::= <[(event_id, token) := true]> ⟩.
Definition remove_event_token_whitelist (s : State) (event_id : string) (token : Address)
    : State :=
  s ⟨ EventTokenWhitelist ::= delete (event_id, token) ⟩.
Definition is_event_token_whitelisted (s : State) (event_id : string) (token : Address) : bool :=
  default false (EventTokenWhitelist s !! (event_id, token)).

Definition is_token_accepted_for_event (s : State) (event_id : string) (token : Address)
    (use_global_whitelist : bool) (accepted_tokens : list Address) : bool :=
  if use_global_whitelist then is_token_whitelisted s token
  else match accepted_tokens with
       | [] => is_token_whitelisted s token
       | _ => bool_decide (token ∈ accepted_tokens)
       end.

(** ** Per-user counts, waitlist, pause flags, categories, team roles *)
Definition get_user_ticket_count (s : State) (event_id tier_id : string) (user : Address) : Z :=
  default 0 (UserTicketCount s !! (event_id, tier_id, user)).
Definition set_user_ticket_count (s : State) (event_id tier_id : string) (user : Address)
    (count : Z) : State :=
  s ⟨ UserTicketCount ::= <[(event_id, tier_id, user) := count]> ⟩.
Definition add_to_user_ticket_count (s : State) (event_id tier_id : string) (user : Address)
    (quantity : Z) : State :=
  let current := get_user_ticket_count s event_id tier_id user in
  set_user_ticket_count s event_id tier_id user (sat_u32 (current + quantity)).
Definition subtract_from_user_ticket_count (s : State) (event_id tier_id : string)
    (user : Address) (quantity : Z) : State :=
  let current := get_user_ticket_count s event_id tier_id user in
  set_user_ticket_count s event_id tier_id user (sat_u32 (current - quantity)).

Definition is_on_waitlist (s : State) (event_id : string) (user : Address) : bool :=
  default false (Waitlist s !! (event_id, user)).
Definition add_to_waitlist (s : State) (event_id : string) (user : Address) : State :=
  s ⟨ Waitlist ::= <[(event_id, user) := true]> ⟩.
Definition remove_from_waitlist (s : State) (event_id : string) (user : Address) : State :=
  s ⟨ Waitlist ::= delete (event_id, user) ⟩.

Definition is_event_paused (s : State) (event_id : string) : bool :=
  default false (EventPaused s !! event_id).
Definition set_event_paused (s : State) (event_id : string) (is_paused : bool) : State :=
  s ⟨ EventPaused ::= <[event_id := is_paused]> ⟩.

Definition get_events_by_category (s : State) (category_id : Z) : list string :=
  default [] (CategoryEvents s !! category_id).
Definition index_event_category (s : State) (category_id : Z) (event_id : string) : State :=
  let ids := default [] (CategoryEvents s !! category_id) in
  s ⟨ CategoryEvents ::= <[category_id := ids ++ [event_id]]> ⟩.

Definition set_event_team_role (s : State) (event_id : string) (member : Address) (role : Role)
    : State :=
  s ⟨ EventTeamRole ::= <[(event_id, member) := role]> ⟩.
Definition get_event_team_role (s : State) (event_id : string) (member : Address)
    : option Role :=
  EventTeamRole s !! (event_id, member).
Definition remove_event_team_role (s : State) (event_id : string) (member : Address) : State :=
  s ⟨ EventTeamRole ::= delete (event_id, member) ⟩.
Definition has_event_role (s : State) (event_id : string) (member : Address)
    (required_role : Role) : bool :=
  match get_event_team_role s event_id member with
  | Some member_role => role_u32 member_role <=? role_u32 required_role
  | None => false
  end.

(** ** Disputes *)
Definition DISPUTE_SHARD_SIZE : Z := 50.

Definition store_dispute (s : State) (dispute : Dispute) : State :=
  s ⟨ Disputes ::= <[dp_event_id dispute := dispute]> ⟩.
Definition get_dispute (s : State) (event_id : string) : option Dispute :=
  Disputes s !! event_id.
Definition get_dispute_vote_count (s : State) (event_id : string) : Z :=
  default 0 (DisputeVoteCount s !! event_id).

Definition add_dispute_vote (s : State) (event_id : string) (voter : Address) : eff :=
  let count := get_dispute_vote_count s event_id in
  let shard_id := count / DISPUTE_SHARD_SIZE in
  let shard := default [] (DisputeVoteShard s !! (event_id, shard_id)) in
  let s := s ⟨ DisputeVoteShard ::= <[(event_id, shard_id) := shard ++ [voter]]> ⟩ in
  let! next := unwrap (checked_u32 (count + 1)) in
  Ok (s ⟨ DisputeVoteCount ::= <[event_id := next]> ⟩).

Definition get_dispute_votes (s : State) (event_id : string) : list DisputeVote :=
  let count := get_dispute_vote_count s event_id in
  if count =? 0 then []
  else
    let num_shards := div_ceil count DISPUTE_SHARD_SIZE in
    i ← seqZ 0 num_shards;
    voter ← default [] (DisputeVoteShard s !! (event_id, i));
    match DisputeVotes s !! (event_id, voter) with
    | Some vote => [vote]
    | None => []
    end.

Definition has_voted (s : State) (event_id : string) (voter : Address) : bool :=
  bool_decide (is_Some (DisputeVotes s !! (event_id, voter))).
Definition store_dispute_vote (s : State) (event_id : string) (voter : Address)
    (vote : DisputeVote) : State :=
  s ⟨ DisputeVotes ::= <[(event_id, voter) := vote]> ⟩.

End storage.

(** ** Laws: the active-event counter

    [contrib] is what an event adds to the global active counter: one when it
    is active and public.  [counted] says the counter is the number of active
    public events. *)
Definition contrib (e : EventInfo) : Z :=
  if ei_is_active e && negb (ei_is_private e) then 1 else 0.

Definition counted (s : State) : Prop :=
  storage.get_global_active_event_count s = map_sum contrib (Event s)
  ∧ map_sum contrib (Event s) ≤ u32_max.

(** The one transition [sync_active_event_count] miscounts: a private active
    event that becomes public and inactive in the same write. *)
Definition miscounted (existing : option EventInfo) (updated : EventInfo) : bool :=
  match existing with
  | Some prev => ei_is_private prev && ei_is_active prev
                 && negb (ei_is_private updated) && negb (ei_is_active updated)
  | None => false
  end.

Lemma contrib_range e : 0 ≤ contrib e ≤ 1.
Proof. unfold contrib. destruct (_ && _); lia. Qed.

Lemma counter_refl s : s = s ⟨ GlobalActiveEventCount := GlobalActiveEventCount s ⟩.
Proof. by destruct s. Qed.

Lemma sync_frame s existing updated s' :
  storage.sync_active_event_count s existing updated = Ok s' →
  ∃ c, s' = s ⟨ GlobalActiveEventCount := c ⟩.
Proof.
  unfold storage.sync_active_event_count, storage.increment_global_active_event_count.
  intros H. repeat case_match; run H; eauto using counter_refl.
Qed.

(** Outside that transition the counter moves by the difference of the two
    contributions. *)
Lemma sync_count s existing updated s' :
  storage.sync_active_event_count s existing updated = Ok s' →
  miscounted existing updated = false →
  from_option contrib 0 existing ≤ storage.get_global_active_event_count s ≤ u32_max →
  storage.get_global_active_event_count s' =
    storage.get_global_active_event_count s - from_option contrib 0 existing + contrib updated
  ∧ storage.get_global_active_event_count s' ≤ u32_max.
Proof.
  unfold storage.sync_active_event_count, storage.increment_global_active_event_count,
    storage.decrement_global_active_event_count, miscounted, contrib, sat_u32.
  destruct existing as [prev|]; simpl;
    [destruct (ei_is_private prev), (ei_is_active prev)|];
    destruct (ei_is_private updated), (ei_is_active updated); simpl; intros H Hm Hb;
    try discriminate; run H; checked; simpl; unfold storage.get_global_active_event_count in *;
    simpl; lia.
Qed.

(** ** Laws: what the event writers change *)

(** The storage without the event table, its indexes and its counters. *)
Definition erase_events (s : State) : State :=
  s ⟨ Event := ∅ ⟩ ⟨ GlobalActiveEventCount := None ⟩ ⟨ GlobalEventCount := None ⟩
    ⟨ OrganizerEventShard := ∅ ⟩ ⟨ OrganizerEventCount := ∅ ⟩ ⟨ OrganizerEvent := ∅ ⟩.

(** [s'] differs from [s] at most in the event block: everything else the
    registry stores is untouched. *)
Definition events_frame (s s' : State) : Prop := erase_events s' = erase_events s.

#[export] Instance events_frame_equiv : Equivalence events_frame.
Proof. split; unfold events_frame; [done|congruence|congruence]. Qed.

Lemma update_event_Event s e s' :
  storage.update_event s e = Ok s' → Event s' = <[ei_event_id e := e]> (Event s).
Proof.
  unfold storage.update_event. intros H. run H. by apply sync_frame in E as (c & ->).
Qed.

Lemma update_event_frame s e s' : storage.update_event s e = Ok s' → events_frame s s'.
Proof.
  unfold storage.update_event. intros H. run H.
  by apply sync_frame in E as (c & ->).
Qed.

Lemma store_event_Event s e s' :
  storage.store_event s e = Ok s' → Event s' = <[ei_event_id e := e]> (Event s).
Proof.
  unfold storage.store_event, storage.increment_global_event_count. intros H.
  run H; apply sync_frame in E as (c & ->). repeat case_match; run H; done.
Qed.

Lemma store_event_frame s e s' : storage.store_event s e = Ok s' → events_frame s s'.
Proof.
  unfold storage.store_event, storage.increment_global_event_count. intros H.
  run H; apply sync_frame in E as (c & ->).
  repeat case_match; run H; done.
Qed.

Lemma remove_loop_frame s o i l :
  ∃ shard, (storage.remove_loop s o i l).2 = s ⟨ OrganizerEventShard := shard ⟩.
Proof.
  induction l as [|j l IH]; simpl.
  - exists (OrganizerEventShard s). by destruct s.
  - case_match; [simpl; eauto|exact IH].
Qed.

(** The index removal touches the index alone. *)
Lemma remove_index_frame s o i :
  ∃ shard cnt, storage.remove_from_organizer_index s o i =
    s ⟨ OrganizerEventShard := shard ⟩ ⟨ OrganizerEventCount := cnt ⟩.
Proof.
  unfold storage.remove_from_organizer_index. case_match.
  - exists (OrganizerEventShard s), (OrganizerEventCount s). by destruct s.
  - destruct (remove_loop_frame s o i (seqZ 0 (div_ceil
      (storage.get_organizer_event_count s o) storage.SHARD_SIZE))) as (sh & Hl).
    destruct (storage.remove_loop _ _ _ _) as [[] s2]; simpl in Hl; subst s2.
    + eauto.
    + exists sh, (OrganizerEventCount s). by destruct s.
Qed.

Lemma remove_event_spec s i e :
  Event s !! i = Some e →
  Event (storage.remove_event s i) = delete i (Event s)
  ∧ GlobalActiveEventCount (storage.remove_event s i) =
      GlobalActiveEventCount
        (if ei_is_active e && negb (ei_is_private e)
         then storage.decrement_global_active_event_count s else s)
  ∧ events_frame s (storage.remove_event s i).
Proof.
  intros He. unfold storage.remove_event, storage.get_event. rewrite He.
  match goal with |- context [storage.remove_from_organizer_index ?t ?o ?j] =>
    destruct (remove_index_frame t o j) as (sh & cn & ->) end.
  by destruct (ei_is_active e && negb (ei_is_private e)).
Qed.

(** The writers keep the counter exact. *)
Lemma counted_write s e s' c :
  counted s → miscounted (Event s !! ei_event_id e) e = false →
  storage.sync_active_event_count s (Event s !! ei_event_id e) e = Ok c →
  Event s' = <[ei_event_id e := e]> (Event s) →
  GlobalActiveEventCount s' = GlobalActiveEventCount c → counted s'.
Proof.
  intros [Hc Hb] Hm Hs Hev Hgc.
  assert (Hin : from_option contrib 0 (Event s !! ei_event_id e)
                ≤ storage.get_global_active_event_count s ≤ u32_max).
  { rewrite Hc. split; [|done]. destruct (Event s !! ei_event_id e) as [p|] eqn:Hp; simpl.
    - eapply map_sum_member; [intros; apply contrib_range|exact Hp].
    - apply map_sum_nonneg; intros; apply contrib_range. }
  pose proof (sync_count _ _ _ _ Hs Hm Hin) as [Hn Hu].
  assert (Hg : storage.get_global_active_event_count s' = storage.get_global_active_event_count c)
    by (unfold storage.get_global_active_event_count; by rewrite Hgc).
  unfold counted. rewrite Hg, Hn, Hev, map_sum_insert, Hc. split; lia.
Qed.

Lemma update_event_counted s e s' :
  counted s → miscounted (Event s !! ei_event_id e) e = false →
  storage.update_event s e = Ok s' → counted s'.
Proof.
  intros Hc Hm H. pose proof (update_event_Event _ _ _ H) as Hev.
  unfold storage.update_event in H. run H. by eapply counted_write.
Qed.

Lemma store_event_counted s e s' :
  counted s → miscounted (Event s !! ei_event_id e) e = false →
  storage.store_event s e = Ok s' → counted s'.
Proof.
  intros Hc Hm H. pose proof (store_event_Event _ _ _ H) as Hev.
  unfold storage.store_event, storage.increment_global_event_count in H. run H.
  eapply counted_write; [done|done|exact E|exact Hev|].
  repeat case_match; run H; done.
Qed.

Lemma remove_event_counted s i e :
  counted s → Event s !! i = Some e → counted (storage.remove_event s i).
Proof.
  intros [Hc Hb] He. destruct (remove_event_spec s i e He) as (Hev & Hgc & _).
  pose proof (map_sum_member contrib (Event s) i e
    ltac:(intros; apply contrib_range) He) as Hin.
  pose proof (map_sum_delete contrib (Event s) i e He).
  unfold counted, storage.get_global_active_event_count in *. rewrite Hgc, Hev, H.
  unfold contrib at 2 4 in |- *. unfold contrib at 1 in Hin.
  destruct (ei_is_active e && negb (ei_is_private e)); simpl; [|lia].
  unfold storage.get_global_active_event_count, sat_u32. rewrite Hc. lia.
Qed.
