(* ===== verification/RegGuards.v ===== *)
(** * Event registry: authorisation and validation

    [auth.rs] and the validators at the end of [lib.rs] of
    [contract/contracts/event_registry/src], which the entry points share. *)

From Stdlib Require Import Ascii.
From S2P Require Import Prelude Machine Host RegTypes RegStorage.

Module auth.

Definition require_admin (env : Env) (s : State) : res EventRegistryError Address :=
  let! admin := ok_or (storage.get_admin s) NotInitialized in
  do! require_auth env admin in
  Ok admin.

Definition require_organizer (env : Env) (s : State) (event_id : string) (caller : Address)
    : res EventRegistryError unit :=
  let! event_info := ok_or (storage.get_event s event_id) EventNotFound in
  do! fail_if (negb (bool_decide (ei_organizer_address event_info = caller))) Unauthorized in
  do! require_auth env caller in
  Ok tt.

Lemma require_admin_Ok env s a :
  require_admin env s = Ok a → Admin s = Some a ∧ authorized env a = true.
Proof.
  unfold require_admin. intros H. run H. auths. subst. split; assumption.
Qed.

Lemma require_organizer_Ok env s i a u :
  require_organizer env s i a = Ok u →
  authorized env a = true ∧ ∃ e, Event s !! i = Some e ∧ ei_organizer_address e = a.
Proof. unfold require_organizer. intros H. run H. auths. eauto. Qed.

End auth.

Definition validate_address (env : Env) (address : Address) : res EventRegistryError unit :=
  fail_if (bool_decide (address = this env)) InvalidAddress.

(** The length in bytes, and the byte at an index ([Bytes::get]). *)
Definition str_len (x : string) : Z := Z.of_nat (String.length x).
Definition byte_is (x : string) (i : nat) (c : Ascii.ascii) : bool :=
  bool_decide (String.get i x = Some c).
Definition bytes (x : string) : list Z :=
  map (λ c, Z.of_N (Ascii.N_of_ascii c)) (String.list_ascii_of_string x).

Definition validate_metadata_cid (cid : string) : res EventRegistryError unit :=
  let len := str_len cid in
  if (46 <=? len) && (2 <=? str_len cid) && byte_is cid 0 "Q"%char && byte_is cid 1 "m"%char
  then Ok tt
  else if (59 <=? len) && (4 <=? str_len cid) && byte_is cid 0 "b"%char && byte_is cid 1 "a"%char
          && byte_is cid 2 "f"%char && byte_is cid 3 "y"%char
  then Ok tt
  else Err InvalidMetadataCid.

(** A byte the tag validator rejects: [byte < 0x20 || (0x7F..0xC0).contains(&byte)]. *)
Definition bad_tag_byte (byte : Z) : bool :=
  (byte <? 0x20) || ((0x7F <=? byte) && (byte <? 0xC0)).

Definition validate_tags (tags : list string) : res EventRegistryError unit :=
  rfold (λ _ tag,
    do! fail_if (32 <? str_len tag) InvalidTags in
    rfold (λ _ byte, fail_if (bad_tag_byte byte) InvalidTags) (bytes tag) tt) tags tt.

Definition require_event_ended (env : Env) (event_info : EventInfo) : res EventRegistryError unit :=
  let now := timestamp env in
  fail_if ((ei_end_time event_info =? 0) || (now <=? ei_end_time event_info)) EventNotEnded.

(** ** What the validators accept *)
Lemma rfold_guard {E A} (bad : A → bool) (e : E) l :
  rfold (λ _ a, fail_if (bad a) e) l tt = if existsb bad l then Err e else Ok tt.
Proof. induction l as [|a l IH]; simpl; [done|]. by destruct (bad a); simpl. Qed.

Definition good_tag (tag : string) : bool :=
  (str_len tag <=? 32) && negb (existsb bad_tag_byte (bytes tag)).

Lemma validate_tags_spec tags :
  validate_tags tags = if forallb good_tag tags then Ok tt else Err InvalidTags.
Proof.
  unfold validate_tags. induction tags as [|t tags IH]; simpl; [done|].
  unfold good_tag at 1. rewrite rfold_guard, Z.leb_antisym.
  destruct (32 <? str_len t); simpl; [done|].
  by destruct (existsb bad_tag_byte (bytes t)); simpl.
Qed.

Lemma validate_metadata_cid_spec cid :
  validate_metadata_cid cid = Ok tt ↔
    (46 ≤ str_len cid ∧ String.get 0 cid = Some "Q"%char ∧ String.get 1 cid = Some "m"%char)
    ∨ (59 ≤ str_len cid ∧ String.get 0 cid = Some "b"%char ∧ String.get 1 cid = Some "a"%char
       ∧ String.get 2 cid = Some "f"%char ∧ String.get 3 cid = Some "y"%char).
Proof.
  unfold validate_metadata_cid, byte_is. cbv zeta.
  match goal with |- (if ?b then _ else if ?c then _ else _) = _ ↔ _ =>
    transitivity (b = true ∨ c = true) end.
  { repeat case_match; naive_solver. }
  rewrite !andb_true_iff, !bool_decide_eq_true, !Z.leb_le. intuition lia.
Qed.
