(* ===== verification/RegEvents.v ===== *)
(** * Event registry: registration and life cycle of events

    The entry points of [lib.rs] that initialise the contract, administer it,
    register events and change them, and the series, scanner, waitlist and
    blacklist operations.  [call A] is the result of an invocation; an error
    or a trap leaves the storage as it was. *)

From S2P Require Import Prelude Machine Host RegTypes RegStorage RegGuards.

Module Events.

Definition MAX_TIERS_PER_EVENT : Z := 20.

(** ** Initialisation and administration *)
Definition initialize (env : Env) (s : State) (admin platform_wallet : Address)
    (platform_fee_percent : Z) (usdc_token : Address) : call unit :=
  do! fail_if (storage.is_initialized s) AlreadyInitialized in
  do! validate_address env admin in
  do! validate_address env platform_wallet in
  do! validate_address env usdc_token in
  do! fail_if (10000 <? platform_fee_percent) InvalidFeePercent in
  let initial_fee := platform_fee_percent in
  let multisig_config := MkMultiSig [admin] 1 in
  let s := storage.set_admin s admin in
  let s := storage.set_multisig_config s multisig_config in
  let s := storage.set_platform_wallet s platform_wallet in
  let s := storage.set_platform_fee s initial_fee in
  let s := storage.add_to_token_whitelist s usdc_token in
  let s := storage.set_initialized s true in
  Ok (tt, emit s (EvContractInitialized admin platform_wallet initial_fee (timestamp env))).

Definition add_to_token_whitelist (env : Env) (s : State) (token : Address) : call unit :=
  do! auth.require_admin env s in
  do! validate_address env token in
  Ok (tt, storage.add_to_token_whitelist s token).

Definition remove_from_token_whitelist (env : Env) (s : State) (token : Address) : call unit :=
  do! auth.require_admin env s in
  Ok (tt, storage.remove_from_token_whitelist s token).

(** The loop of [set_platform_fee] over the active proposals, with its
    [continue] and [break]. *)
Fixpoint find_fee_proposal (s : State) (threshold now new_fee_percent : Z) (active : list Z)
    : option Z :=
  match active with
  | [] => None
  | pid :: active =>
      match storage.get_proposal s pid with
      | Some p =>
          if pp_executed p || pp_cancelled p || (pp_expires_at p <? now)
          then find_fee_proposal s threshold now new_fee_percent active
          else match pp_change p with
               | SetPlatformFee fee =>
                   if (fee =? new_fee_percent)
                      && (threshold <=? Z.of_nat (length (pp_approvals p)))
                   then Some pid
                   else find_fee_proposal s threshold now new_fee_percent active
               | _ => find_fee_proposal s threshold now new_fee_percent active
               end
      | None => find_fee_proposal s threshold now new_fee_percent active
      end
  end.

Definition set_platform_fee (env : Env) (s : State) (new_fee_percent : Z) : call unit :=
  do! auth.require_admin env s in
  do! fail_if (10000 <? new_fee_percent) InvalidFeePercent in
  let! config := ok_or (storage.get_multisig_config s) NotInitialized in
  let! s :=
    if 1 <? msc_threshold config then
      let active := storage.get_active_proposals s in
      let now := timestamp env in
      let! proposal_id :=
        ok_or (find_fee_proposal s (msc_threshold config) now new_fee_percent active)
          MultisigError in
      let! proposal := unwrap (storage.get_proposal s proposal_id) in
      let proposal := proposal ⟨ pp_executed := true ⟩ in
      let s := storage.set_proposal s proposal in
      Ok (storage.remove_active_proposal s proposal_id)
    else Ok s in
  let s := storage.set_platform_fee s new_fee_percent in
  Ok (tt, emit s (EvFeeUpdated new_fee_percent)).

Definition propose_admin (env : Env) (s : State) (new_admin : Address) : call unit :=
  let! current_admin := auth.require_admin env s in
  do! validate_address env new_admin in
  let s := storage.set_pending_admin s new_admin in
  Ok (tt, emit s (EvAdminProposed current_admin new_admin (timestamp env))).

Definition accept_admin (env : Env) (s : State) : call unit :=
  let! proposed_admin := ok_or (storage.get_pending_admin s) Unauthorized in
  do! require_auth env proposed_admin in
  let! previous_admin := ok_or (storage.get_admin s) NotInitialized in
  let s := storage.set_admin s proposed_admin in
  let s := storage.clear_pending_admin s in
  Ok (tt, emit s (EvAdminTransferred previous_admin proposed_admin (timestamp env))).

Definition cancel_admin_proposal (env : Env) (s : State) : call unit :=
  let! current_admin := auth.require_admin env s in
  let! proposed_admin := ok_or (storage.get_pending_admin s) Unauthorized in
  let s := storage.clear_pending_admin s in
  Ok (tt, emit s (EvAdminProposalCancelled current_admin proposed_admin (timestamp env))).

Definition set_ticket_payment_contract (env : Env) (s : State)
    (ticket_payment_address : Address) : call unit :=
  do! auth.require_admin env s in
  do! validate_address env ticket_payment_address in
  Ok (tt, storage.set_ticket_payment_contract s ticket_payment_address).

(** The deployed code is not part of [State]: [update_current_contract_wasm]
    changes no storage. *)
Definition upgrade (env : Env) (s : State) : call unit :=
  do! auth.require_admin env s in
  let! verified_admin := ok_or (storage.get_admin s) NotInitialized in
  do! ok_or (storage.get_platform_wallet s) NotInitialized in
  Ok (tt, emit s (EvContractUpgraded verified_admin (timestamp env))).

Definition set_global_promo (env : Env) (s : State) (global_promo_bps promo_expiry : Z)
    : call unit :=
  let! admin := auth.require_admin env s in
  do! fail_if (10000 <? global_promo_bps) InvalidPromoBps in
  let s := storage.set_global_promo_bps s global_promo_bps in
  let s := storage.set_promo_expiry s promo_expiry in
  Ok (tt, emit s (EvGlobalPromoUpdated global_promo_bps promo_expiry admin (timestamp env))).

Definition get_global_promo_bps (env : Env) (s : State) : Z :=
  let expiry := storage.get_promo_expiry s in
  if expiry <=? timestamp env then 0 else storage.get_global_promo_bps s.

Definition get_global_promo (env : Env) (s : State) : option (Z * Z) :=
  let expiry := storage.get_promo_expiry s in
  if expiry <=? timestamp env then None else Some (storage.get_global_promo_bps s, expiry).

(** ** Registration *)

(** [for tier in tiers.values() { total = total.checked_add(tier.tier_limit)? }] *)
Definition total_tier_limit (tiers : gmap string TicketTier) : res EventRegistryError Z :=
  checked_sum SupplyOverflow (map tier_limit (map_values tiers)).

(** The same loop over [release_percent], a [u32]. *)
Definition total_release_bps (milestones : list Milestone) : res EventRegistryError Z :=
  rfold (λ acc m, ok_or (checked_u32 (acc + ms_release_percent m)) InvalidMilestonePlan)
    milestones 0.

(** The [EventInfo] that [register_event] stores. *)
Definition new_event (env : Env) (s : State) (args : EventRegistrationArgs) : EventInfo :=
  MkEvent (ar_event_id args) (ar_name args) (ar_organizer_address args)
    (ar_payment_address args) (storage.get_platform_fee s) true StActive (timestamp env)
    (ar_metadata_cid args) (ar_max_supply args) 0 (ar_milestone_plan args) (ar_tiers args)
    (ar_refund_deadline args) (ar_restocking_fee args) (ar_resale_cap_bps args) false 0
    (default 0 (ar_min_sales_target args)) (default 0 (ar_target_deadline args)) false None
    (ar_banner_cid args) (ar_tags args) (ar_category_ids args) (ar_start_time args)
    (ar_is_private args) (ar_end_time args) (ar_transfer_lock_duration args)
    (ar_accepted_tokens args) (ar_use_global_whitelist args) None None
    (default 0 (ar_referral_rate_bps args)).

Definition register_event (env : Env) (s : State) (args : EventRegistrationArgs) : call unit :=
  do! fail_if (negb (storage.is_initialized s)) NotInitialized in
  do! require_auth env (ar_organizer_address args) in
  do! fail_if (storage.is_blacklisted s (ar_organizer_address args)) OrganizerBlacklisted in
  do! validate_metadata_cid (ar_metadata_cid args) in
  do! match ar_tags args with Some tags => validate_tags tags | None => Ok tt end in
  do! fail_if (storage.event_exists s (ar_event_id args)) EventAlreadyExists in
  do! fail_if (MAX_TIERS_PER_EVENT <? Z.of_nat (size (ar_tiers args))) TooManyTiers in
  do! (if 0 <? ar_max_supply args then
         let! total := total_tier_limit (ar_tiers args) in
         fail_if (ar_max_supply args <? total) TierLimitExceeds
       else Ok tt) in
  do! match ar_resale_cap_bps args with
      | Some cap => fail_if (10000 <? cap) InvalidResaleCapBps
      | None => Ok tt
      end in
  do! match ar_milestone_plan args with
      | Some milestones =>
          let! total := total_release_bps milestones in
          fail_if (10000 <? total) InvalidMilestonePlan
      | None => Ok tt
      end in
  do! fail_if (negb (ar_start_time args =? 0) && negb (ar_end_time args =? 0)
               && (ar_end_time args <=? ar_start_time args)) InvalidDeadline in
  let event_info := new_event env s args in
  let! s := storage.store_event s event_info in
  Ok (tt, emit s (EvEventRegistered (ar_event_id args) (ar_organizer_address args)
                    (ar_payment_address args) (timestamp env))).

Definition get_event_payment_info (s : State) (event_id : string)
    : res EventRegistryError PaymentInfo :=
  match storage.get_event s event_id with
  | Some event_info =>
      do! fail_if (negb (ei_is_active event_info)) EventInactive in
      Ok (MkPaymentInfo (ei_payment_address event_info) (ei_platform_fee_percent event_info)
            (ei_custom_fee_bps event_info) (ei_tiers event_info)
            (ei_referral_rate_bps event_info))
  | None => Err EventNotFound
  end.

(** ** Life cycle *)
Definition is_cancelled (e : EventInfo) : bool := bool_decide (ei_status e = StCancelled).

Definition update_event_status (env : Env) (s : State) (event_id : string) (is_active : bool)
    : call unit :=
  match storage.get_event s event_id with
  | Some event_info =>
      do! auth.require_organizer env s event_id (ei_organizer_address event_info) in
      do! fail_if (is_cancelled event_info) EventCancelled in
      if Bool.eqb (ei_is_active event_info) is_active then Ok (tt, s)
      else
        let event_info := event_info ⟨ ei_is_active := is_active ⟩ in
        let! s := storage.update_event s event_info in
        Ok (tt, emit s (EvEventStatusUpdated event_id is_active
                          (ei_organizer_address event_info) (timestamp env)))
  | None => Err EventNotFound
  end.

Definition cancel_event (env : Env) (s : State) (event_id : string) (reason : option string)
    : call unit :=
  match storage.get_event s event_id with
  | Some event_info =>
      do! auth.require_organizer env s event_id (ei_organizer_address event_info) in
      do! fail_if (is_cancelled event_info) EventAlreadyCanceled in
      let event_info := event_info ⟨ ei_status := StCancelled ⟩ in
      let event_info := event_info ⟨ ei_is_active := false ⟩ in
      let event_info := event_info ⟨ ei_cancellation_reason := reason ⟩ in
      let! s := storage.update_event s event_info in
      Ok (tt, emit s (EvEventCancelled event_id (ei_organizer_address event_info)
                        (timestamp env) reason))
  | None => Err EventNotFound
  end.

Definition archive_event (env : Env) (s : State) (event_id : string) : call unit :=
  match storage.get_event s event_id with
  | Some event_info =>
      do! auth.require_organizer env s event_id (ei_organizer_address event_info) in
      do! fail_if (ei_is_active event_info) EventIsActive in
      let s := storage.remove_event s event_id in
      let receipt := MkReceipt event_id (ei_organizer_address event_info)
                       (ei_current_supply event_info) (timestamp env) in
      let! s := storage.store_event_receipt s receipt in
      Ok (tt, emit s (EvEventArchived event_id (ei_organizer_address event_info)
                        (timestamp env)))
  | None => Err EventNotFound
  end.

Definition update_metadata (env : Env) (s : State) (event_id new_metadata_cid : string)
    : call unit :=
  match storage.get_event s event_id with
  | Some event_info =>
      do! auth.require_organizer env s event_id (ei_organizer_address event_info) in
      do! validate_metadata_cid new_metadata_cid in
      if bool_decide (ei_metadata_cid event_info = new_metadata_cid) then Ok (tt, s)
      else
        let event_info := event_info ⟨ ei_metadata_cid := new_metadata_cid ⟩ in
        let! s := storage.update_event s event_info in
        Ok (tt, emit s (EvMetadataUpdated event_id new_metadata_cid
                          (ei_organizer_address event_info) (timestamp env)))
  | None => Err EventNotFound
  end.

Definition set_feedback_cid (env : Env) (s : State) (event_id feedback_cid : string)
    : call unit :=
  match storage.get_event s event_id with
  | Some event_info =>
      do! auth.require_organizer env s event_id (ei_organizer_address event_info) in
      do! require_event_ended env event_info in
      do! validate_metadata_cid feedback_cid in
      if bool_decide (ei_feedback_cid event_info = Some feedback_cid) then Ok (tt, s)
      else
        let event_info := event_info ⟨ ei_feedback_cid := Some feedback_cid ⟩ in
        let! s := storage.update_event s event_info in
        Ok (tt, emit s (EvFeedbackCidSet event_id feedback_cid
                          (ei_organizer_address event_info) (timestamp env)))
  | None => Err EventNotFound
  end.

(** The legacy entry point: its failures are traps. *)
Definition store_event (env : Env) (s : State) (event_info : EventInfo) : call unit :=
  do! unwrap_res (auth.require_organizer env s (ei_event_id event_info)
                    (ei_organizer_address event_info)) in
  do! (if bool_decide (is_Some (ei_feedback_cid event_info))
       then unwrap_res (require_event_ended env event_info) else Ok tt) in
  do! match ei_resale_cap_bps event_info with
      | Some cap => panic_if (10000 <? cap)
      | None => Ok tt
      end in
  let! s := storage.store_event s event_info in
  Ok (tt, s).

Definition set_resale_cap_bps (env : Env) (s : State) (event_id : string)
    (resale_cap_bps : option Z) : call unit :=
  let! event_info := ok_or (storage.get_event s event_id) EventNotFound in
  do! auth.require_organizer env s event_id (ei_organizer_address event_info) in
  do! match resale_cap_bps with
      | Some cap => fail_if (10000 <? cap) InvalidResaleCapBps
      | None => Ok tt
      end in
  let event_info := event_info ⟨ ei_resale_cap_bps := resale_cap_bps ⟩ in
  let! s := storage.update_event s event_info in
  Ok (tt, s).

Definition get_events_batch (s : State) (event_ids : list string)
    : res EventRegistryError (list (option EventInfo)) :=
  do! fail_if (50 <? Z.of_nat (length event_ids)) TooManyTiers in
  Ok (map (storage.get_event s) event_ids).

Definition set_custom_event_fee (env : Env) (s : State) (event_id : string)
    (custom_fee_bps : option Z) : call unit :=
  let! admin := auth.require_admin env s in
  do! match custom_fee_bps with
      | Some fee => fail_if (10000 <? fee) InvalidFeePercent
      | None => Ok tt
      end in
  let! event_info := ok_or (storage.get_event s event_id) EventNotFound in
  let event_info := event_info ⟨ ei_custom_fee_bps := custom_fee_bps ⟩ in
  let! s := storage.update_event s event_info in
  Ok (tt, emit s (EvCustomFeeSet event_id custom_fee_bps admin (timestamp env))).

Definition postpone_event (env : Env) (s : State) (event_id : string)
    (new_start_time grace_period_end : Z) : call unit :=
  let! event_info := ok_or (storage.get_event s event_id) EventNotFound in
  do! auth.require_organizer env s event_id (ei_organizer_address event_info) in
  let now := timestamp env in
  do! fail_if (new_start_time <=? now) InvalidDeadline in
  do! fail_if (grace_period_end <=? now) InvalidGracePeriod in
  let event_info := event_info ⟨ ei_start_time := new_start_time ⟩ in
  let event_info := event_info ⟨ ei_is_postponed := true ⟩ in
  let event_info := event_info ⟨ ei_grace_period_end := grace_period_end ⟩ in
  let! s := storage.update_event s event_info in
  Ok (tt, emit s (EvEventPostponed event_id (ei_organizer_address event_info)
                    new_start_time grace_period_end now)).

(** ** Blacklist *)
Definition suspend_step (acc : State * Z) (event_id : string)
    : res EventRegistryError (State * Z) :=
  let (s, suspended_count) := acc in
  match storage.get_event s event_id with
  | Some event_info =>
      if ei_is_active event_info then
        let event_info := event_info ⟨ ei_is_active := false ⟩ in
        let! s := storage.store_event s event_info in
        let! n := unwrap (checked_u32 (suspended_count + 1)) in
        Ok (s, n)
      else Ok acc
  | None => Ok acc
  end.

Definition suspend_organizer_events (env : Env) (s : State) (organizer_address : Address)
    : call unit :=
  let organizer_events := storage.get_organizer_events s organizer_address organizer_address in
  let! ' (s, suspended_count) := rfold suspend_step organizer_events (s, 0) in
  if 0 <? suspended_count then
    let! admin := ok_or (storage.get_admin s) NotInitialized in
    Ok (tt, emit s (EvEventsSuspended organizer_address suspended_count admin (timestamp env)))
  else Ok (tt, s).

Definition blacklist_organizer (env : Env) (s : State) (organizer_address : Address)
    (reason : string) : call unit :=
  let! admin := auth.require_admin env s in
  do! validate_address env organizer_address in
  if storage.is_blacklisted s organizer_address then Ok (tt, s)
  else
    let s := storage.add_to_blacklist s organizer_address in
    let audit_entry := MkAudit organizer_address true admin reason (timestamp env) in
    let s := storage.add_blacklist_audit_entry s audit_entry in
    let s := emit s (EvOrganizerBlacklisted organizer_address admin reason (timestamp env)) in
    suspend_organizer_events env s organizer_address.

Definition remove_from_blacklist (env : Env) (s : State) (organizer_address : Address)
    (reason : string) : call unit :=
  let! admin := auth.require_admin env s in
  do! validate_address env organizer_address in
  do! fail_if (negb (storage.is_blacklisted s organizer_address)) OrgNotBlacklisted in
  let s := storage.remove_from_blacklist s organizer_address in
  let audit_entry := MkAudit organizer_address false admin reason (timestamp env) in
  let s := storage.add_blacklist_audit_entry s audit_entry in
  Ok (tt, emit s (EvOrganizerRemovedFromBlacklist organizer_address admin reason
                    (timestamp env))).

(** ** Scanners and waitlist *)
Definition authorize_scanner (env : Env) (s : State) (event_id : string) (scanner : Address)
    : call unit :=
  let! event_info := ok_or (storage.get_event s event_id) EventNotFound in
  do! auth.require_organizer env s event_id (ei_organizer_address event_info) in
  let s := storage.authorize_scanner s event_id scanner in
  Ok (tt, emit s (EvScannerAuthorized event_id scanner (ei_organizer_address event_info)
                    (timestamp env))).

Definition revoke_scanner (env : Env) (s : State) (event_id : string) (scanner : Address)
    : call unit :=
  let! event_info := ok_or (storage.get_event s event_id) EventNotFound in
  do! auth.require_organizer env s event_id (ei_organizer_address event_info) in
  let s := storage.remove_scanner s event_id scanner in
  Ok (tt, emit s (EvScannerRevoked event_id scanner (ei_organizer_address event_info)
                    (timestamp env))).

Definition join_waitlist (env : Env) (s : State) (event_id : string) (user : Address)
    : call unit :=
  do! require_auth env user in
  do! fail_if (negb (storage.event_exists s event_id)) EventNotFound in
  do! fail_if (storage.is_on_waitlist s event_id user) AlreadyOnWaitlist in
  let s := storage.add_to_waitlist s event_id user in
  Ok (tt, emit s (EvWaitlistJoined event_id user (timestamp env))).

Definition leave_waitlist (env : Env) (s : State) (event_id : string) (user : Address)
    : call unit :=
  do! require_auth env user in
  do! fail_if (negb (storage.event_exists s event_id)) EventNotFound in
  do! fail_if (negb (storage.is_on_waitlist s event_id user)) NotOnWaitlist in
  let s := storage.remove_from_waitlist s event_id user in
  Ok (tt, emit s (EvWaitlistLeft event_id user (timestamp env))).

(** ** Series and season passes *)
Definition register_series (env : Env) (s : State) (series_id name : string)
    (event_ids : list string) (organizer_address : Address) (metadata_cid : option string)
    : call unit :=
  do! require_auth env organizer_address in
  do! rfold (λ _ event_id,
        let! event := ok_or (storage.get_event s event_id) EventNotFound in
        fail_if (negb (bool_decide (ei_organizer_address event = organizer_address)))
          Unauthorized) event_ids tt in
  let series := MkSeries series_id name event_ids organizer_address metadata_cid in
  Ok (tt, storage.store_series s series).

Definition issue_series_pass (env : Env) (s : State) (pass_id series_id : string)
    (holder : Address) (usage_limit expires_at : Z) : call unit :=
  let! series := ok_or (storage.get_series s series_id) EventNotFound in
  do! require_auth env (sr_organizer_address series) in
  let pass := MkSeriesPass pass_id series_id holder usage_limit 0 (timestamp env) expires_at in
  Ok (tt, storage.store_series_pass s pass).

Definition has_valid_series_pass (env : Env) (s : State) (holder : Address)
    (series_id : string) : bool :=
  match storage.get_holder_series_pass s holder series_id with
  | Some pass =>
      if (0 <? sp_usage_limit pass) && (sp_usage_limit pass <=? sp_usage_count pass)
      then false
      else if (0 <? sp_expires_at pass) && (sp_expires_at pass <=? timestamp env)
      then false
      else true
  | None => false
  end.

Definition increment_series_pass_usage (s : State) (pass_id : string) : call unit :=
  let (r, s) := storage.increment_series_pass_usage s pass_id in
  let! _x := ok_or r EventNotFound in
  Ok (tt, s).

End Events.
