(* ===== verification/RegInventory.v ===== *)
(** * Event registry: ticket inventory

    [increment_inventory] and [decrement_inventory], which the payment
    contract calls, the tier operations of the organizer, and the
    cross-chain mint with its replay table ([bridge.rs], [teleport.rs]). *)

From S2P Require Import Prelude Machine Host RegTypes RegStorage RegGuards.
From S2P Require Import RegEvents.

Module Inventory.

Definition is_sellable (e : EventInfo) : bool :=
  negb (negb (ei_is_active e) || Events.is_cancelled e).

(** [if max_supply > 0 { checked_add ...; if new > max_supply { Err } }] *)
Definition check_supply (e : EventInfo) (quantity : Z) : res EventRegistryError unit :=
  if 0 <? ei_max_supply e then
    let! new_total_supply := ok_or (checked_i128 (ei_current_supply e + quantity)) SupplyOverflow in
    fail_if (ei_max_supply e <? new_total_supply) MaxSupplyExceeded
  else Ok tt.

Definition increment_inventory (env : Env) (s : State) (event_id tier_id : string)
    (user : Address) (quantity : Z) (payment_token : Address) : call unit :=
  let! ticket_payment_addr := ok_or (storage.get_ticket_payment_contract s) NotInitialized in
  do! require_auth env ticket_payment_addr in
  do! fail_if (quantity =? 0) InvalidQuantity in
  let! event_info := ok_or (storage.get_event s event_id) EventNotFound in
  do! fail_if (negb (is_sellable event_info)) EventInactive in
  do! fail_if (negb (bool_decide (ei_accepted_tokens event_info = []))
               && negb (bool_decide (payment_token ∈ ei_accepted_tokens event_info)))
        TokenNotAccepted in
  do! check_supply event_info quantity in
  let! tier := ok_or (ei_tiers event_info !! tier_id) TierNotFound in
  let! new_tier_sold := ok_or (checked_i128 (tier_current_sold tier + quantity)) SupplyOverflow in
  do! fail_if (tier_limit tier <? new_tier_sold) TierSoldOut in
  do! (if 0 <? tier_max_per_user tier then
         let user_count := storage.get_user_ticket_count s event_id tier_id user in
         let! new_user_count := ok_or (checked_u32 (user_count + quantity)) SupplyOverflow in
         fail_if (tier_max_per_user tier <? new_user_count) PerUserLimitExceeded
       else Ok tt) in
  let tier := tier ⟨ tier_current_sold := new_tier_sold ⟩ in
  let event_info := event_info ⟨ ei_tiers ::= <[tier_id := tier]> ⟩ in
  let! new_supply := ok_or (checked_i128 (ei_current_supply event_info + quantity)) SupplyOverflow in
  let event_info := event_info ⟨ ei_current_supply := new_supply ⟩ in
  let s := if 0 <? tier_max_per_user tier
           then storage.add_to_user_ticket_count s event_id tier_id user quantity else s in
  let s := storage.add_to_global_tickets_sold s quantity in
  let (event_info, s) :=
    if negb (ei_goal_met event_info) && (0 <? ei_min_sales_target event_info)
       && (ei_min_sales_target event_info <=? ei_current_supply event_info)
    then (event_info ⟨ ei_goal_met := true ⟩,
          emit s (EvGoalMet event_id (ei_min_sales_target event_info)
                    (ei_current_supply event_info) (timestamp env)))
    else (event_info, s) in
  let! s := storage.update_event s event_info in
  Ok (tt, emit s (EvInventoryIncremented event_id new_supply (timestamp env))).

Definition is_tier_sold_out (s : State) (event_id tier_id : string)
    : res EventRegistryError bool :=
  let! event_info := ok_or (storage.get_event s event_id) EventNotFound in
  let! tier := ok_or (ei_tiers event_info !! tier_id) TierNotFound in
  Ok (tier_limit tier <=? tier_current_sold tier).

Definition add_tier (env : Env) (s : State) (event_id tier_id : string) (tier : TicketTier)
    : call unit :=
  let! event_info := ok_or (storage.get_event s event_id) EventNotFound in
  do! require_auth env (ei_organizer_address event_info) in
  do! (if 0 <? ei_max_supply event_info then
         let! total := Events.total_tier_limit (ei_tiers event_info) in
         let! total := ok_or (checked_i128 (total + tier_limit tier)) SupplyOverflow in
         fail_if (ei_max_supply event_info <? total) TierLimitExceeds
       else Ok tt) in
  let event_info := event_info ⟨ ei_tiers ::= <[tier_id := tier]> ⟩ in
  let! s := storage.update_event s event_info in
  Ok (tt, s).

Definition deactivate_tier (env : Env) (s : State) (event_id tier_id : string) : call unit :=
  let! event_info := ok_or (storage.get_event s event_id) EventNotFound in
  do! require_auth env (ei_organizer_address event_info) in
  let! tier := ok_or (ei_tiers event_info !! tier_id) TierNotFound in
  let tier := tier ⟨ tier_limit := tier_current_sold tier ⟩ in
  let event_info := event_info ⟨ ei_tiers ::= <[tier_id := tier]> ⟩ in
  let! s := storage.update_event s event_info in
  Ok (tt, s).

Definition decrement_inventory (env : Env) (s : State) (event_id tier_id : string) : call unit :=
  let! ticket_payment_addr := ok_or (storage.get_ticket_payment_contract s) NotInitialized in
  do! require_auth env ticket_payment_addr in
  let! event_info := ok_or (storage.get_event s event_id) EventNotFound in
  let! tier := ok_or (ei_tiers event_info !! tier_id) TierNotFound in
  do! fail_if (tier_current_sold tier <=? 0) SupplyUnderflow in
  let! sold := ok_or (checked_i128 (tier_current_sold tier - 1)) SupplyUnderflow in
  let tier := tier ⟨ tier_current_sold := sold ⟩ in
  let event_info := event_info ⟨ ei_tiers ::= <[tier_id := tier]> ⟩ in
  do! fail_if (ei_current_supply event_info <=? 0) SupplyUnderflow in
  let! new_supply := ok_or (checked_i128 (ei_current_supply event_info - 1)) SupplyUnderflow in
  let event_info := event_info ⟨ ei_current_supply := new_supply ⟩ in
  let! s := storage.update_event s event_info in
  Ok (tt, emit s (EvInventoryDecremented event_id new_supply (timestamp env))).

(** ** Cross-chain mint *)
Definition get_bridge_config (s : State) : option BridgeConfig := Bridge s.
Definition set_bridge_config (s : State) (config : BridgeConfig) : State :=
  s ⟨ Bridge := Some config ⟩.
Definition track_teleport (s : State) (tx_hash : string) : State :=
  s ⟨ Teleport ::= <[tx_hash := true]> ⟩.
Definition is_teleport_processed (s : State) (tx_hash : string) : bool :=
  default false (Teleport s !! tx_hash).

Definition execute_teleport_mint (env : Env) (s : State) (recipient : Address)
    (tier_id event_id : string) (quantity : Z) : call unit :=
  let! event_info := ok_or (storage.get_event s event_id) EventNotFound in
  do! fail_if (negb (is_sellable event_info)) EventInactive in
  do! check_supply event_info quantity in
  let! tier := ok_or (ei_tiers event_info !! tier_id) TierNotFound in
  let! new_tier_sold := ok_or (checked_i128 (tier_current_sold tier + quantity)) SupplyOverflow in
  do! fail_if (tier_limit tier <? new_tier_sold) TierSoldOut in
  let tier := tier ⟨ tier_current_sold := new_tier_sold ⟩ in
  let event_info := event_info ⟨ ei_tiers ::= <[tier_id := tier]> ⟩ in
  let! new_supply := ok_or (checked_i128 (ei_current_supply event_info + quantity)) SupplyOverflow in
  let event_info := event_info ⟨ ei_current_supply := new_supply ⟩ in
  let s := storage.add_to_global_tickets_sold s quantity in
  let! s := storage.update_event s event_info in
  Ok (tt, emit s (EvInventoryIncremented event_id new_supply (timestamp env))).

Definition mint_cross_chain_ticket (env : Env) (s : State) (origin_chain_id : Z)
    (origin_tx_hash : string) (recipient_stellar_addr : Address) (ticket_tier_id : string)
    (signatures : list string) (event_id : string) (quantity : Z) : call unit :=
  do! fail_if (is_teleport_processed s origin_tx_hash) ReplayAttackDetected in
  let! bridge_config := ok_or (get_bridge_config s) NotInitialized in
  do! fail_if (Z.of_nat (length signatures) <? br_threshold bridge_config)
        InsufficientSignatures in
  let s := track_teleport s origin_tx_hash in
  execute_teleport_mint env s recipient_stellar_addr ticket_tier_id event_id quantity.

End Inventory.
