(* ===== verification/RegStaking.v ===== *)
(** * Event registry: staking and loyalty

    Collateral staking with pro-rata rewards, and the loyalty score.  The
    token contract is a [TokenLedger]; a call returns the new ledger beside
    the new storage, and a failed transfer traps the invocation. *)

From S2P Require Import Prelude Machine Host RegTypes RegStorage RegGuards.

Module Staking.

Section Operations.
Context {W : Type} `{TokenLedger W}.

Definition set_staking_config (env : Env) (s : State) (token : Address) (min_amount : Z)
    : call unit :=
  let! admin := auth.require_admin env s in
  do! fail_if (min_amount <=? 0) InvalidStakeAmount in
  let old_token := storage.get_staking_token s in
  let old_amount := storage.get_min_stake_amount s in
  let s := storage.set_staking_token s token in
  let s := storage.set_min_stake_amount s min_amount in
  let s := emit s (EvStakingTokenUpdated old_token token admin) in
  Ok (tt, emit s (EvMinStakeAmountUpdated old_amount min_amount admin)).

Definition stake_collateral (env : Env) (w : W) (s : State) (organizer : Address) (amount : Z)
    : res EventRegistryError (W * State) :=
  do! require_auth env organizer in
  do! fail_if (amount <=? 0) InvalidStakeAmount in
  do! fail_if (bool_decide (is_Some (storage.get_organizer_stake s organizer))) AlreadyStaked in
  let! token := ok_or (storage.get_staking_token s) StakingNotConfigured in
  let min_amount := storage.get_min_stake_amount s in
  let! w := unwrap (transfer_from w token (this env) organizer (this env) amount) in
  let is_verified := min_amount <=? amount in
  let stake := MkStake organizer token amount (timestamp env) is_verified 0 0 in
  let s := storage.set_organizer_stake s stake in
  let! s := storage.add_to_total_staked s amount in
  let s := storage.add_to_stakers_list s organizer in
  Ok (w, emit s (EvCollateralStaked organizer token amount is_verified (timestamp env))).

Definition unstake_collateral (env : Env) (w : W) (s : State) (organizer : Address)
    : res EventRegistryError (W * State) :=
  do! require_auth env organizer in
  let! stake := ok_or (storage.get_organizer_stake s organizer) NotStaked in
  let! w := unwrap (transfer w (os_token stake) (this env) organizer (os_amount stake)) in
  let s := storage.subtract_from_total_staked s (os_amount stake) in
  let s := storage.remove_organizer_stake s organizer in
  let s := storage.remove_from_stakers_list s organizer in
  Ok (w, emit s (EvCollateralUnstaked organizer (os_token stake) (os_amount stake)
                   (timestamp env))).

(** The share of one staker: [total_reward.checked_mul(amount)
    .and_then(|v| v.checked_div(total_staked)).unwrap_or(0)]. *)
Definition reward_share (total_reward total_staked amount : Z) : Z :=
  default 0 (mul_div total_reward amount total_staked).

Definition distribute_step (total_reward total_staked : Z) (s : State) (organizer : Address)
    : State :=
  match storage.get_organizer_stake s organizer with
  | Some stake =>
      let reward := reward_share total_reward total_staked (os_amount stake) in
      if 0 <? reward then
        storage.set_organizer_stake s
          (stake ⟨ os_reward_balance := sat_i128 (os_reward_balance stake + reward) ⟩)
      else s
  | None => s
  end.

Definition distribute_staker_rewards (env : Env) (w : W) (s : State) (caller : Address)
    (total_reward : Z) : res EventRegistryError (W * State) :=
  do! require_auth env caller in
  let! admin := ok_or (storage.get_admin s) NotInitialized in
  do! fail_if (negb (bool_decide (caller = admin))) Unauthorized in
  do! fail_if (total_reward <=? 0) InvalidRewardAmount in
  let! token := ok_or (storage.get_staking_token s) StakingNotConfigured in
  let total_staked := storage.get_total_staked s in
  do! fail_if (total_staked =? 0) NotStaked in
  let! w := unwrap (transfer_from w token (this env) caller (this env) total_reward) in
  let stakers := storage.get_stakers_list s in
  let staker_count := Z.of_nat (length stakers) in
  let s := foldl (distribute_step total_reward total_staked) s stakers in
  Ok (w, emit s (EvStakerRewardsDistributed total_reward staker_count (timestamp env))).

Definition claim_staker_rewards (env : Env) (w : W) (s : State) (organizer : Address)
    : res EventRegistryError (Z * W * State) :=
  do! require_auth env organizer in
  let! stake := ok_or (storage.get_organizer_stake s organizer) NotStaked in
  do! fail_if (os_reward_balance stake =? 0) NoRewardsAvailable in
  let reward_to_claim := os_reward_balance stake in
  let! w := unwrap (transfer w (os_token stake) (this env) organizer reward_to_claim) in
  let stake := stake ⟨ os_total_rewards_claimed :=
                         sat_i128 (os_total_rewards_claimed stake + reward_to_claim) ⟩ in
  let stake := stake ⟨ os_reward_balance := 0 ⟩ in
  let s := storage.set_organizer_stake s stake in
  Ok (reward_to_claim, w,
      emit s (EvStakerRewardsClaimed organizer reward_to_claim (timestamp env))).

End Operations.

(** ** Loyalty *)
Definition points_earned (tickets_purchased loyalty_multiplier : Z) : Z :=
  let effective_multiplier := if loyalty_multiplier =? 0 then 1 else loyalty_multiplier in
  sat_u64 (sat_u64 (tickets_purchased * 10) * effective_multiplier).

Definition update_loyalty_score (env : Env) (s : State) (caller guest : Address)
    (tickets_purchased amount_spent loyalty_multiplier : Z) : call unit :=
  do! require_auth env caller in
  let! admin := ok_or (storage.get_admin s) NotInitialized in
  let ticket_payment_contract := storage.get_ticket_payment_contract s in
  let is_authorized :=
    bool_decide (caller = admin)
    || default false ((λ c, bool_decide (c = caller)) <$> ticket_payment_contract) in
  do! fail_if (negb is_authorized) Unauthorized in
  do! fail_if (tickets_purchased =? 0) InvalidQuantity in
  let profile := default (MkGuest guest 0 0 0 0) (storage.get_guest_profile s guest) in
  let points := points_earned tickets_purchased loyalty_multiplier in
  let profile :=
    MkGuest (gp_guest_address profile)
      (sat_u64 (gp_loyalty_score profile + points))
      (sat_u32 (gp_total_tickets_purchased profile + tickets_purchased))
      (sat_i128 (gp_total_spent profile + amount_spent))
      (timestamp env) in
  let s := storage.set_guest_profile s profile in
  Ok (tt, emit s (EvLoyaltyScoreUpdated guest (gp_loyalty_score profile) tickets_purchased
                    (timestamp env))).

Definition get_loyalty_discount_bps (s : State) (guest : Address) : Z :=
  let score := default 0 (gp_loyalty_score <$> storage.get_guest_profile s guest) in
  if 1000 <=? score then 1000
  else if 500 <=? score then 500
  else if 100 <=? score then 250
  else 0.

End Staking.

(** ** The staking ledger of the contract

    [stake_inv]: records are keyed by their organizer and positive, the total
    is the sum of the stakes, and the list of stakers enumerates the records. *)
Record stake_inv (s : State) : Prop := {
  si_record : ∀ a st, Stake s !! a = Some st →
    os_organizer st = a ∧ 0 < os_amount st ∧ 0 ≤ os_reward_balance st;
  si_total : storage.get_total_staked s = map_sum os_amount (Stake s);
  si_range : storage.get_total_staked s ≤ i128_max;
  si_nodup : NoDup (storage.get_stakers_list s);
  si_list : ∀ a, a ∈ storage.get_stakers_list s ↔ is_Some (Stake s !! a)
}.

Lemma stake_inv_empty : stake_inv empty_state.
Proof.
  split; cbn; try done.
  - by constructor.
  - intros a. rewrite lookup_empty. split; [by intros ?%not_elem_of_nil|by intros []].
Qed.

(** The invariant reads three fields. *)
Lemma stake_inv_view s s' :
  Stake s' = Stake s → TotalStaked s' = TotalStaked s → StakersList s' = StakersList s →
  stake_inv s → stake_inv s'.
Proof.
  intros H1 H2 H3 []. split; unfold storage.get_total_staked, storage.get_stakers_list in *;
    rewrite ?H1, ?H2, ?H3; done.
Qed.

Lemma amounts_pos s : stake_inv s → ∀ a st, Stake s !! a = Some st → 0 ≤ os_amount st.
Proof. intros Hi a st Hst. destruct (si_record _ Hi a st Hst). lia. Qed.

Lemma existsb_elem (l : list Address) a :
  existsb (λ x, bool_decide (x = a)) l = bool_decide (a ∈ l).
Proof.
  apply eq_true_iff_eq. rewrite existsb_exists, bool_decide_eq_true. split.
  - intros (x & Hx & Heq%bool_decide_eq_true). subst. by apply list_elem_of_In.
  - intros Ha. exists a. split; [by apply list_elem_of_In|by apply bool_decide_eq_true].
Qed.

Section Preservation.
Context {W : Type} `{TokenLedger W}.
Implicit Types (w : W) (s : State).

(** What a successful [stake_collateral] did. *)
Lemma stake_collateral_Ok env w s o n w' s' :
  Staking.stake_collateral env w s o n = Ok (w', s') →
  ∃ tok st, authorized env o = true ∧ 0 < n ∧ Stake s !! o = None
    ∧ StakingToken s = Some tok
    ∧ transfer_from w tok (this env) o (this env) n = Some w'
    ∧ st = MkStake o tok n (timestamp env) (storage.get_min_stake_amount s <=? n) 0 0
    ∧ Stake s' = <[o := st]> (Stake s)
    ∧ TotalStaked s' = Some (storage.get_total_staked s + n)
    ∧ storage.get_total_staked s + n ≤ i128_max
    ∧ storage.get_stakers_list s' =
        (if bool_decide (o ∈ storage.get_stakers_list s)
         then storage.get_stakers_list s else storage.get_stakers_list s ++ [o])
    ∧ StakingToken s' = StakingToken s.
Proof.
  unfold Staking.stake_collateral, storage.add_to_total_staked, storage.get_organizer_stake.
  intros Hs. run Hs. auths. checked. eexists _, _. split_and!; try done; try lia.
  - by apply eq_None_not_Some.
  - unfold storage.add_to_stakers_list. by case_match.
  - unfold storage.add_to_stakers_list. by case_match.
  - by destruct H1.
  - unfold storage.add_to_stakers_list. rewrite existsb_elem.
    change (storage.get_stakers_list _) with (storage.get_stakers_list s) at 2 3.
    by destruct (bool_decide _).
  - unfold storage.add_to_stakers_list. by case_match.
Qed.

Lemma stake_collateral_inv env w s o n w' s' :
  stake_inv s → Staking.stake_collateral env w s o n = Ok (w', s') → stake_inv s'.
Proof.
  intros Hi (tok & st & _ & Hn & Hno & _ & _ & Hst & HS & HT & HR & HL & _)%stake_collateral_Ok.
  assert (Hnl : o ∉ storage.get_stakers_list s).
  { rewrite (si_list _ Hi), Hno. by intros []. }
  rewrite bool_decide_eq_false_2 in HL by done.
  split; unfold storage.get_total_staked; rewrite ?HS, ?HT, ?HL; cbn.
  - intros a x [[<- <-]|[_ Hx]]%lookup_insert_Some; [subst st; cbn; split_and!; [done|lia|lia]|by apply Hi].
  - rewrite map_sum_insert_new by done. rewrite (si_total _ Hi). subst st. cbn. lia.
  - done.
  - apply NoDup_app. split_and!; [apply Hi| |apply NoDup_singleton].
    intros a Ha ->%list_elem_of_singleton. done.
  - intros a. rewrite elem_of_app, list_elem_of_singleton, (si_list _ Hi).
    rewrite lookup_insert_is_Some. destruct (decide (o = a)); naive_solver.
Qed.

Lemma unstake_collateral_Ok env w s o w' s' :
  Staking.unstake_collateral env w s o = Ok (w', s') →
  ∃ st, authorized env o = true ∧ Stake s !! o = Some st
    ∧ transfer w (os_token st) (this env) o (os_amount st) = Some w'
    ∧ Stake s' = delete o (Stake s)
    ∧ TotalStaked s' = Some (sat_i128 (storage.get_total_staked s - os_amount st))
    ∧ storage.get_stakers_list s' = filter (λ a, a ≠ o) (storage.get_stakers_list s)
    ∧ StakingToken s' = StakingToken s.
Proof. unfold Staking.unstake_collateral. intros Hs. run Hs. auths. eauto 10. Qed.

Lemma unstake_collateral_inv env w s o w' s' :
  stake_inv s → Staking.unstake_collateral env w s o = Ok (w', s') → stake_inv s'.
Proof.
  intros Hi (st & _ & Ho & _ & HS & HT & HL & _)%unstake_collateral_Ok.
  pose proof (map_sum_member os_amount _ _ _ (amounts_pos s Hi) Ho) as Hm.
  pose proof (si_total _ Hi) as Ht. pose proof (si_range _ Hi).
  destruct (si_record _ Hi _ _ Ho) as (_ & Hp & _).
  assert (Hsat : sat_i128 (storage.get_total_staked s - os_amount st)
                 = storage.get_total_staked s - os_amount st).
  { apply sat_i128_id. rewrite Ht in *. unfold i128_min. lia. }
  assert (HT' : storage.get_total_staked s' = storage.get_total_staked s - os_amount st).
  { unfold storage.get_total_staked at 1. by rewrite HT. }
  split; rewrite ?HS, ?HT', ?HL.
  - intros a x [_ Hx]%lookup_delete_Some. by apply Hi.
  - rewrite (map_sum_delete _ _ _ _ Ho). lia.
  - lia.
  - apply NoDup_filter, Hi.
  - intros a. rewrite list_elem_of_filter, (si_list _ Hi).
    rewrite lookup_delete_is_Some. naive_solver.
Qed.
End Preservation.

(** ** Distribution of rewards *)

(** What one staker's record becomes. *)
Definition credit (total_reward total_staked : Z) (st : OrganizerStake) : OrganizerStake :=
  let reward := Staking.reward_share total_reward total_staked (os_amount st) in
  if 0 <? reward
  then st ⟨ os_reward_balance := sat_i128 (os_reward_balance st + reward) ⟩ else st.

Lemma credit_fields r t st :
  os_organizer (credit r t st) = os_organizer st ∧ os_amount (credit r t st) = os_amount st
  ∧ os_token (credit r t st) = os_token st.
Proof. unfold credit. by case_match. Qed.

Lemma reward_share_spec r t a :
  0 ≤ r → 0 ≤ a → 0 < t → 0 ≤ Staking.reward_share r t a ≤ r * a / t.
Proof.
  intros Hr Ha Ht. unfold Staking.reward_share.
  destruct (mul_div r a t) as [x|] eqn:Hx; simpl.
  - apply mul_div_Some in Hx; [|lia..]. subst x. split; [apply Z.div_pos; nia|lia].
  - split; [lia|]. apply Z.div_pos; nia.
Qed.

Lemma credit_reward r t st :
  0 ≤ r → 0 < t → 0 ≤ os_amount st → 0 ≤ os_reward_balance st →
  0 ≤ os_reward_balance (credit r t st) ≤ os_reward_balance st + r * os_amount st / t.
Proof.
  intros Hr Ht Ha Hb. pose proof (reward_share_spec r t (os_amount st) Hr Ha Ht).
  unfold credit. case_match; cbn; [|lia]. unfold sat_i128, i128_min, i128_max. lia.
Qed.

Definition stakes_keyed (m : gmap string OrganizerStake) : Prop :=
  ∀ a st, m !! a = Some st → os_organizer st = a.

Lemma distribute_step_lookup r t s a b :
  stakes_keyed (Stake s) →
  Stake (Staking.distribute_step r t s a) !! b =
    if decide (b = a) then credit r t <$> (Stake s !! b) else Stake s !! b.
Proof.
  intros Hk. unfold Staking.distribute_step, storage.get_organizer_stake.
  destruct (Stake s !! a) as [st|] eqn:Ha.
  - unfold credit. destruct (decide (b = a)) as [->|Hne].
    + rewrite Ha. cbn. case_match; cbn; [|done].
      rewrite (Hk a st Ha). by rewrite lookup_insert_eq.
    + case_match; cbn; [|done]. rewrite (Hk a st Ha). by rewrite lookup_insert_ne.
  - destruct (decide (b = a)) as [->|]; [|done]. by rewrite Ha.
Qed.

Lemma distribute_step_keyed r t s a :
  stakes_keyed (Stake s) → stakes_keyed (Stake (Staking.distribute_step r t s a)).
Proof.
  intros Hk b st. rewrite distribute_step_lookup by done. case_match; [|apply Hk].
  intros (st0 & H0 & ->)%fmap_Some. rewrite (proj1 (credit_fields r t st0)). by apply Hk.
Qed.

(** Each listed staker is credited once. *)
Lemma distribute_lookup r t s l b :
  stakes_keyed (Stake s) → NoDup l →
  Stake (foldl (Staking.distribute_step r t) s l) !! b =
    if decide (b ∈ l) then credit r t <$> (Stake s !! b) else Stake s !! b.
Proof.
  revert s; induction l as [|a l IH]; intros s Hk Hl; simpl.
  - by destruct (decide (b ∈ [])) as [?%not_elem_of_nil|].
  - apply NoDup_cons in Hl as [Ha Hl].
    rewrite IH by (done || by apply distribute_step_keyed).
    rewrite distribute_step_lookup by done.
    destruct (decide (b = a)) as [->|Hne].
    + rewrite decide_False by done. by rewrite decide_True by left.
    + destruct (decide (b ∈ l)).
      * by rewrite decide_True by by right.
      * rewrite decide_False; [done|]. by intros [|]%elem_of_cons.
Qed.

Lemma distribute_all r t s :
  stake_inv s →
  Stake (foldl (Staking.distribute_step r t) s (storage.get_stakers_list s))
    = credit r t <$> Stake s.
Proof.
  intros Hi. apply map_eq. intros a. rewrite lookup_fmap, distribute_lookup; [|..|apply Hi].
  - destruct (decide (a ∈ storage.get_stakers_list s)) as [|Hn]; [done|].
    rewrite (si_list _ Hi), <- eq_None_not_Some in Hn. by rewrite Hn.
  - intros b st Hb. by apply Hi.
Qed.

Section Rewards.
Context {W : Type} `{TokenLedger W}.
Implicit Types (w : W) (s : State).

Lemma distribute_Ok env w s c r w' s' :
  Staking.distribute_staker_rewards env w s c r = Ok (w', s') →
  ∃ tok, Admin s = Some c ∧ authorized env c = true ∧ 0 < r
    ∧ StakingToken s = Some tok ∧ storage.get_total_staked s ≠ 0
    ∧ transfer_from w tok (this env) c (this env) r = Some w'
    ∧ s' = emit (foldl (Staking.distribute_step r (storage.get_total_staked s)) s
                  (storage.get_stakers_list s))
             (EvStakerRewardsDistributed r (Z.of_nat (length (storage.get_stakers_list s)))
                (timestamp env)).
Proof.
  unfold Staking.distribute_staker_rewards. intros Hs. run Hs. auths. subst.
  eexists. split_and!; try done; lia.
Qed.

Lemma distribute_views r t s l :
  let s' := foldl (Staking.distribute_step r t) s l in
  TotalStaked s' = TotalStaked s ∧ StakersList s' = StakersList s
  ∧ StakingToken s' = StakingToken s.
Proof.
  revert s; induction l as [|a l IH]; intros s; simpl; [done|].
  destruct (IH (Staking.distribute_step r t s a)) as (-> & -> & ->).
  unfold Staking.distribute_step. by repeat case_match.
Qed.

Lemma total_pos s : stake_inv s → storage.get_total_staked s ≠ 0 → 0 < storage.get_total_staked s.
Proof.
  intros Hi Hn. rewrite (si_total _ Hi) in *.
  pose proof (map_sum_nonneg os_amount _ (amounts_pos s Hi)). lia.
Qed.

Lemma distribute_inv env w s c r w' s' :
  stake_inv s → Staking.distribute_staker_rewards env w s c r = Ok (w', s') → stake_inv s'.
Proof.
  intros Hi (tok & _ & _ & Hr & _ & Ht & _ & ->)%distribute_Ok.
  pose proof (total_pos s Hi Ht) as Hp.
  pose proof (distribute_all r (storage.get_total_staked s) s Hi) as HS.
  pose proof (distribute_views r (storage.get_total_staked s) s (storage.get_stakers_list s))
    as (HT & HL & _).
  set (t := foldl _ s _) in *.
  assert (HT' : storage.get_total_staked (emit t (EvStakerRewardsDistributed r
    (Z.of_nat (length (storage.get_stakers_list s))) (timestamp env)))
    = storage.get_total_staked s) by (unfold storage.get_total_staked; cbn; by rewrite HT).
  split; rewrite ?HT'; cbn; unfold storage.get_stakers_list; cbn; rewrite ?HS, ?HL;
    try apply Hi.
  - intros a st. rewrite lookup_fmap. intros (st0 & H0 & ->)%fmap_Some.
    destruct (si_record _ Hi _ _ H0) as (Ho & Ha & Hb).
    destruct (credit_fields r (storage.get_total_staked s) st0) as (-> & -> & _).
    split_and!; [done|done|]. apply credit_reward; lia.
  - rewrite map_sum_fmap, (si_total _ Hi). apply map_sum_ext. intros st.
    by destruct (credit_fields r (map_sum os_amount (Stake s)) st) as (_ & -> & _).
  - intros a. rewrite lookup_fmap, fmap_is_Some. apply Hi.
Qed.

Lemma claim_Ok env w s o n w' s' :
  Staking.claim_staker_rewards env w s o = Ok (n, w', s') →
  ∃ st, authorized env o = true ∧ Stake s !! o = Some st ∧ n = os_reward_balance st ∧ n ≠ 0
    ∧ transfer w (os_token st) (this env) o n = Some w'
    ∧ s' = emit (storage.set_organizer_stake s
             (st ⟨ os_total_rewards_claimed := sat_i128 (os_total_rewards_claimed st + n) ⟩
                 ⟨ os_reward_balance := 0 ⟩))
             (EvStakerRewardsClaimed o n (timestamp env)).
Proof.
  unfold Staking.claim_staker_rewards. intros Hs. run Hs. auths. simplify_eq.
  eexists. split_and!; try done. lia.
Qed.

Lemma claim_inv env w s o n w' s' :
  stake_inv s → Staking.claim_staker_rewards env w s o = Ok (n, w', s') → stake_inv s'.
Proof.
  intros Hi (st & _ & Ho & -> & _ & _ & ->)%claim_Ok.
  destruct (si_record _ Hi _ _ Ho) as (Hk & Ha & Hb).
  split; cbn; try apply Hi; rewrite ?Hk.
  - intros a x [[<- <-]|[_ Hx]]%lookup_insert_Some; [cbn; split_and!; [done|lia|lia]|].
    by apply Hi.
  - rewrite map_sum_insert, Ho. cbn. pose proof (si_total _ Hi).
    unfold storage.get_total_staked in *. cbn. lia.
  - intros a. rewrite lookup_insert_is_Some. rewrite <- (si_list _ Hi).
    unfold storage.get_stakers_list. cbn. fold (storage.get_stakers_list s).
    split; [destruct (decide (o = a)); auto|]. intros [<-|[_ ?]]; [|done].
    apply (si_list _ Hi). eauto.
Qed.
End Rewards.

(** ** Solvency

    What the contract owes a staker is the collateral and the unclaimed
    rewards.  [solvent self tok w s]: every stake is held in [tok] and the
    contract's balance covers all of them. *)
Definition owed (st : OrganizerStake) : Z := os_amount st + os_reward_balance st.

Definition solvent {W} `{TokenLedger W} (self tok : Address) (w : W) (s : State) : Prop :=
  (∀ t, StakingToken s = Some t → t = tok)
  ∧ (∀ a st, Stake s !! a = Some st → os_token st = tok)
  ∧ map_sum owed (Stake s) ≤ balance w tok self.

(** Rewards handed out by one distribution never exceed what was deposited. *)
Lemma credited_total r s :
  stake_inv s → 0 ≤ r → storage.get_total_staked s ≠ 0 →
  map_sum owed (credit r (storage.get_total_staked s) <$> Stake s)
    ≤ map_sum owed (Stake s) + r.
Proof.
  intros Hi Hr Ht. pose proof (total_pos s Hi Ht) as Hp. rewrite map_sum_fmap.
  set (t := storage.get_total_staked s) in *.
  transitivity (map_sum (λ st, owed st + r * os_amount st / t) (Stake s)).
  - apply map_sum_le. intros a st Hst. destruct (si_record _ Hi a st Hst) as (_ & Ha & Hb).
    unfold owed. destruct (credit_fields r t st) as (_ & -> & _).
    pose proof (credit_reward r t st Hr Hp ltac:(lia) Hb). lia.
  - rewrite map_sum_add. pose proof (map_sum_shares r t os_amount (Stake s) Hp) as Hs.
    rewrite <- (si_total _ Hi) in Hs. fold t in Hs. rewrite Z.div_mul in Hs by lia. lia.
Qed.

Section Solvency.
Context {W : Type} `{TokenLaws W} (self tok : Address).
Implicit Types (w : W) (s : State).

(** The environment the registry runs in: deployed at [self], whose own
    authorisation no caller carries. *)
Context (env : Env) (Hthis : this env = self) (Hself : authorized env self = false).

Lemma not_self a : authorized env a = true → a ≠ self.
Proof. intros Ha ->. congruence. Qed.

Lemma stake_solvent w s o n w' s' :
  solvent self tok w s → Staking.stake_collateral env w s o n = Ok (w', s') →
  solvent self tok w' s'.
Proof using Hthis Hself H0.
  intros (Ht & Hk & Hb) (t & st & Ha & Hn & Hno & Htok & Htr & Hst & HS & _ & _ & _ & HT)%stake_collateral_Ok.
  rewrite Hthis in Htr. apply transfer_from_moves in Htr as (_ & _ & _ & Hm).
  pose proof (Ht t Htok) as ->. apply moved_to in Hm; [|by apply not_self].
  split_and!; [by rewrite HT|..]; rewrite HS.
  - intros a x [[<- <-]|[_ Hx]]%lookup_insert_Some; [by subst|by eapply Hk].
  - rewrite map_sum_insert_new by done. subst st. unfold owed at 1. cbn. lia.
Qed.

Lemma unstake_solvent w s o w' s' :
  stake_inv s → solvent self tok w s → Staking.unstake_collateral env w s o = Ok (w', s') →
  solvent self tok w' s'.
Proof using Hthis Hself H0.
  intros Hi (Ht & Hk & Hb) (st & Ha & Ho & Htr & HS & _ & _ & HT)%unstake_collateral_Ok.
  rewrite Hthis, (Hk _ _ Ho) in Htr. apply transfer_moves in Htr as (_ & _ & Hm).
  apply moved_from in Hm; [|apply not_eq_sym; by apply not_self].
  destruct (si_record _ Hi _ _ Ho) as (_ & Hp & Hr).
  split_and!; [by rewrite HT|..]; rewrite HS.
  - intros a x [_ Hx]%lookup_delete_Some. by eapply Hk.
  - rewrite (map_sum_delete _ _ _ _ Ho). unfold owed at 2. lia.
Qed.

Lemma distribute_solvent w s c r w' s' :
  stake_inv s → solvent self tok w s →
  Staking.distribute_staker_rewards env w s c r = Ok (w', s') → solvent self tok w' s'.
Proof using Hthis Hself H0.
  intros Hi (Ht & Hk & Hb) (t & _ & Ha & Hr & Htok & Hn & Htr & ->)%distribute_Ok.
  rewrite Hthis in Htr. apply transfer_from_moves in Htr as (_ & _ & _ & Hm).
  pose proof (Ht t Htok) as ->. apply moved_to in Hm; [|by apply not_self].
  pose proof (distribute_views r (storage.get_total_staked s) s (storage.get_stakers_list s))
    as (_ & _ & HT).
  pose proof (distribute_all r (storage.get_total_staked s) s Hi) as HS.
  unfold solvent. cbn. rewrite HT, HS. split_and!; [done|..].
  - intros a st. rewrite lookup_fmap. intros (st0 & H1 & ->)%fmap_Some.
    destruct (credit_fields r (storage.get_total_staked s) st0) as (_ & _ & ->).
    by eapply Hk.
  - pose proof (credited_total r s Hi ltac:(lia) Hn). lia.
Qed.

Lemma claim_solvent w s o n w' s' :
  stake_inv s → solvent self tok w s →
  Staking.claim_staker_rewards env w s o = Ok (n, w', s') → solvent self tok w' s'.
Proof using Hthis Hself H0.
  intros Hi (Ht & Hk & Hb) (st & Ha & Ho & -> & _ & Htr & ->)%claim_Ok.
  rewrite Hthis, (Hk _ _ Ho) in Htr. apply transfer_moves in Htr as (_ & _ & Hm).
  apply moved_from in Hm; [|apply not_eq_sym; by apply not_self].
  destruct (si_record _ Hi _ _ Ho) as (Hkey & Hp & Hr).
  unfold solvent. cbn. rewrite Hkey. split_and!; [done|..].
  - intros a x [[<- <-]|[_ Hx]]%lookup_insert_Some; [cbn; by eapply Hk|by eapply Hk].
  - rewrite map_sum_insert, Ho. unfold owed at 2 3. cbn. lia.
Qed.
End Solvency.
