(* ===== verification/RegGovernance.v ===== *)
(** * Event registry: multi-signature governance

    Proposals for parameter changes, their approval, execution, cancellation
    and expiry ([lib.rs], section "Governance / Multi-Sig"). *)

From S2P Require Import Prelude Machine Host RegTypes RegStorage RegGuards.

Module Governance.

Definition get_multisig_config (s : State) : MultiSigConfig :=
  default (MkMultiSig [] 1) (storage.get_multisig_config s).

Definition is_admin (s : State) (address : Address) : bool :=
  match storage.get_multisig_config s with
  | Some config => bool_decide (address ∈ msc_admins config)
  | None => false
  end.

Definition admin_count (config : MultiSigConfig) : Z := Z.of_nat (length (msc_admins config)).

(** The [match &change] of [propose_parameter_change]. *)
Definition validate_change (env : Env) (config : MultiSigConfig) (change : ParameterChange)
    : res EventRegistryError unit :=
  match change with
  | AddAdmin addr =>
      do! validate_address env addr in
      fail_if (bool_decide (addr ∈ msc_admins config)) Unauthorized
  | RemoveAdmin addr =>
      do! fail_if (negb (bool_decide (addr ∈ msc_admins config))) Unauthorized in
      fail_if (admin_count config <=? 1) Unauthorized
  | SetThreshold threshold =>
      do! fail_if (threshold =? 0) InvalidThreshold in
      fail_if (admin_count config <? threshold) InvalidThreshold
  | UpdatePlatformWallet addr => validate_address env addr
  | SetPlatformFee fee => fail_if (10000 <? fee) InvalidFeePercent
  | SetMinStakeAmount amount => fail_if (amount <=? 0) InvalidStakeAmount
  end.

Definition propose_parameter_change (env : Env) (s : State) (proposer : Address)
    (change : ParameterChange) (expiry_ledgers : Z) : call Z :=
  do! require_auth env proposer in
  let! config := ok_or (storage.get_multisig_config s) NotInitialized in
  do! fail_if (negb (bool_decide (proposer ∈ msc_admins config))) Unauthorized in
  do! validate_change env config change in
  let proposal_id := storage.get_proposal_counter s in
  let! next := unwrap (checked_u64 (proposal_id + 1)) in
  let s := storage.set_proposal_counter s next in
  let default_expiry := 100800 in
  let expiry := if expiry_ledgers =? 0 then default_expiry else expiry_ledgers in
  let! expires_at := unwrap (checked_u64 (timestamp env + expiry)) in
  let proposal :=
    MkProposal proposal_id proposer change [proposer] false false (timestamp env) expires_at in
  let s := storage.set_proposal s proposal in
  let s := storage.add_active_proposal s proposal_id in
  Ok (proposal_id, s).

Definition propose_add_admin env s proposer new_admin expiry_ledgers : call Z :=
  propose_parameter_change env s proposer (AddAdmin new_admin) expiry_ledgers.
Definition propose_remove_admin env s proposer admin_to_remove expiry_ledgers : call Z :=
  propose_parameter_change env s proposer (RemoveAdmin admin_to_remove) expiry_ledgers.
Definition propose_set_threshold env s proposer new_threshold expiry_ledgers : call Z :=
  propose_parameter_change env s proposer (SetThreshold new_threshold) expiry_ledgers.
Definition propose_set_platform_wallet env s proposer new_wallet expiry_ledgers : call Z :=
  propose_parameter_change env s proposer (UpdatePlatformWallet new_wallet) expiry_ledgers.
Definition propose_set_platform_fee env s proposer new_fee_percent expiry_ledgers : call Z :=
  propose_parameter_change env s proposer (SetPlatformFee new_fee_percent) expiry_ledgers.

Definition approve_proposal (env : Env) (s : State) (approver : Address) (proposal_id : Z)
    : call unit :=
  do! require_auth env approver in
  let! config := ok_or (storage.get_multisig_config s) NotInitialized in
  do! fail_if (negb (bool_decide (approver ∈ msc_admins config))) Unauthorized in
  let! proposal := ok_or (storage.get_proposal s proposal_id) MultisigError in
  do! fail_if (pp_expires_at proposal <? timestamp env) ProposalExpired in
  do! fail_if (pp_executed proposal) PropAlreadyExecuted in
  do! fail_if (pp_cancelled proposal) PropAlreadyCanceled in
  if bool_decide (approver ∈ pp_approvals proposal) then Ok (tt, s)
  else
    let proposal := proposal ⟨ pp_approvals ::= λ l, l ++ [approver] ⟩ in
    Ok (tt, storage.set_proposal s proposal).

(** The [match &proposal.change] of [execute_proposal]. *)
Definition apply_change (s : State) (config : MultiSigConfig) (change : ParameterChange)
    : State :=
  match change with
  | AddAdmin new_admin =>
      let s := storage.set_multisig_config s (config ⟨ msc_admins ::= λ l, l ++ [new_admin] ⟩) in
      storage.set_admin s new_admin
  | RemoveAdmin admin_to_remove =>
      let new_config := config ⟨ msc_admins ::= filter (λ a, a ≠ admin_to_remove) ⟩ in
      let new_config :=
        if admin_count new_config <? msc_threshold new_config
        then new_config ⟨ msc_threshold := admin_count new_config ⟩ else new_config in
      storage.set_multisig_config s new_config
  | SetThreshold new_threshold =>
      storage.set_multisig_config s (config ⟨ msc_threshold := new_threshold ⟩)
  | UpdatePlatformWallet new_wallet => storage.set_platform_wallet s new_wallet
  | SetPlatformFee fee => storage.set_platform_fee s fee
  | SetMinStakeAmount new_amount => storage.set_min_stake_amount s new_amount
  end.

Definition execute_proposal (env : Env) (s : State) (executor : Address) (proposal_id : Z)
    : call unit :=
  do! require_auth env executor in
  let! config := ok_or (storage.get_multisig_config s) NotInitialized in
  do! fail_if (negb (bool_decide (executor ∈ msc_admins config))) Unauthorized in
  let! proposal := ok_or (storage.get_proposal s proposal_id) MultisigError in
  do! fail_if (pp_executed proposal) PropAlreadyExecuted in
  do! fail_if (pp_cancelled proposal) PropAlreadyCanceled in
  do! fail_if (pp_expires_at proposal <? timestamp env) ProposalExpired in
  do! fail_if (Z.of_nat (length (pp_approvals proposal)) <? msc_threshold config)
        MultisigError in
  let s := apply_change s config (pp_change proposal) in
  let proposal := proposal ⟨ pp_executed := true ⟩ in
  let s := storage.set_proposal s proposal in
  Ok (tt, storage.remove_active_proposal s proposal_id).

Definition cancel_proposal (env : Env) (s : State) (proposer : Address) (proposal_id : Z)
    : call unit :=
  do! require_auth env proposer in
  let! proposal := ok_or (storage.get_proposal s proposal_id) MultisigError in
  do! fail_if (negb (bool_decide (pp_proposer proposal = proposer))) Unauthorized in
  do! fail_if (pp_executed proposal) PropAlreadyExecuted in
  do! fail_if (pp_cancelled proposal) PropAlreadyCanceled in
  let proposal := proposal ⟨ pp_cancelled := true ⟩ in
  let s := storage.set_proposal s proposal in
  let s := storage.remove_active_proposal s proposal_id in
  Ok (tt, emit s (EvProposalCancelled proposal_id proposer (timestamp env))).

Definition cleanup_step (now : Z) (acc : State * Z) (proposal_id : Z)
    : res EventRegistryError (State * Z) :=
  let (s, removed) := acc in
  match storage.get_proposal s proposal_id with
  | Some proposal =>
      if (pp_expires_at proposal <? now) && negb (pp_executed proposal)
         && negb (pp_cancelled proposal)
      then
        let s := storage.remove_active_proposal s proposal_id in
        let! n := unwrap (checked_u32 (removed + 1)) in
        Ok (s, n)
      else Ok acc
  | None => Ok acc
  end.

Definition cleanup_expired_proposals (env : Env) (s : State) : call Z :=
  do! auth.require_admin env s in
  let now := timestamp env in
  let active := storage.get_active_proposals s in
  let! ' (s, removed) := rfold (cleanup_step now) active (s, 0) in
  Ok (removed, s).

End Governance.

(** ** Proposals and their evolution *)
Record proposal_ok (counter i : Z) (p : Proposal) : Prop := {
  po_id : pp_proposal_id p = i;
  po_range : 0 ≤ i < counter;
  po_nodup : NoDup (pp_approvals p);
  po_proposer : pp_proposer p ∈ pp_approvals p;
  po_closed : ¬ (pp_executed p = true ∧ pp_cancelled p = true)
}.

Definition open_proposal (p : Proposal) : bool := negb (pp_executed p) && negb (pp_cancelled p).

Record gov_inv (s : State) : Prop := {
  gi_counter : 0 ≤ storage.get_proposal_counter s;
  gi_props : ∀ i p, Proposals s !! i = Some p → proposal_ok (storage.get_proposal_counter s) i p;
  gi_nodup : NoDup (storage.get_active_proposals s);
  gi_active : ∀ i, i ∈ storage.get_active_proposals s →
    ∃ p, Proposals s !! i = Some p ∧ open_proposal p = true
}.

(** What an invocation may do to a stored proposal: its content is fixed,
    approvals are only added, and a closed proposal never changes again. *)
Record proposal_evolves (p p' : Proposal) : Prop := {
  pe_content : (pp_proposal_id p', pp_proposer p', pp_change p', pp_created_at p',
                pp_expires_at p')
             = (pp_proposal_id p, pp_proposer p, pp_change p, pp_created_at p, pp_expires_at p);
  pe_approvals : pp_approvals p `prefix_of` pp_approvals p';
  pe_closed : open_proposal p = false → p' = p
}.

#[export] Instance proposal_evolves_refl : Reflexive proposal_evolves.
Proof. by split. Qed.

Record gov_step (s s' : State) : Prop := {
  gs_inv : gov_inv s';
  gs_evolves : ∀ i p, Proposals s !! i = Some p →
    ∃ p', Proposals s' !! i = Some p' ∧ proposal_evolves p p'
}.

Lemma gov_inv_empty : gov_inv empty_state.
Proof.
  split; cbn; [done| |by constructor|]; intros i.
  - intros p. by rewrite lookup_empty.
  - by intros ?%not_elem_of_nil.
Qed.

(** An operation that keeps counter, proposals and active list. *)
Lemma gov_step_same s s' :
  gov_inv s → ProposalCounter s' = ProposalCounter s → Proposals s' = Proposals s →
  ActiveProposals s' = ActiveProposals s → gov_step s s'.
Proof.
  intros [] H1 H2 H3. split.
  - split; unfold storage.get_proposal_counter, storage.get_active_proposals in *;
      rewrite ?H1, ?H2, ?H3; done.
  - rewrite H2. eauto using proposal_evolves_refl.
Qed.

(** An operation that only prunes the active list. *)
Lemma gov_step_prune s s' l :
  gov_inv s → ProposalCounter s' = ProposalCounter s → Proposals s' = Proposals s →
  storage.get_active_proposals s' = l → NoDup l →
  (∀ i, i ∈ l → i ∈ storage.get_active_proposals s) → gov_step s s'.
Proof.
  intros [] H1 H2 H3 Hn Hsub. split.
  - split; unfold storage.get_proposal_counter in *; rewrite ?H1, ?H2, ?H3; auto.
  - rewrite H2. eauto using proposal_evolves_refl.
Qed.

(** Writing back a revised proposal; if that closes it, it leaves the active
    list. *)
Lemma gov_step_revise s s' i p p' l :
  gov_inv s → Proposals s !! i = Some p → proposal_evolves p p' →
  proposal_ok (storage.get_proposal_counter s) i p' →
  ProposalCounter s' = ProposalCounter s → Proposals s' = <[i := p']> (Proposals s) →
  storage.get_active_proposals s' = l → NoDup l →
  (∀ j, j ∈ l → j ∈ storage.get_active_proposals s) →
  (i ∈ l → open_proposal p' = true) → gov_step s s'.
Proof.
  intros [] Hi Hev Hok H1 H2 H3 Hn Hsub Hopen. split.
  - split; unfold storage.get_proposal_counter in *; rewrite ?H1, ?H2, ?H3; auto.
    + intros j x [[<- <-]|[_ Hx]]%lookup_insert_Some; auto.
    + intros j Hj. destruct (decide (i = j)) as [<-|Hne].
      * exists p'. rewrite lookup_insert_eq. auto.
      * rewrite lookup_insert_ne by done. auto.
  - intros j x Hx. rewrite H2. destruct (decide (i = j)) as [<-|Hne].
    + rewrite lookup_insert_eq. simplify_eq. eauto.
    + rewrite lookup_insert_ne by done. eauto using proposal_evolves_refl.
Qed.

Lemma remove_active_sub s i :
  let l := storage.get_active_proposals (storage.remove_active_proposal s i) in
  ¬ (i ∈ l) ∧ (∀ j, j ∈ l → j ∈ storage.get_active_proposals s)
  ∧ (NoDup (storage.get_active_proposals s) → NoDup l).
Proof.
  cbn. split_and!.
  - rewrite list_elem_of_filter. naive_solver.
  - intros j. rewrite list_elem_of_filter. naive_solver.
  - apply NoDup_filter.
Qed.

Section Gov_handlers.
Context (env : Env) (s s' : State) (Hg : gov_inv s).

(** Executing (or cancelling) an open proposal. *)
Lemma close_proposal_step i p p' t :
  Proposals s !! i = Some p → open_proposal p = true →
  p' = p ⟨ pp_executed := true ⟩ ∨ p' = p ⟨ pp_cancelled := true ⟩ →
  ProposalCounter t = ProposalCounter s → Proposals t = Proposals s →
  ActiveProposals t = ActiveProposals s →
  gov_step s (storage.remove_active_proposal (storage.set_proposal t p') i).
Proof using Hg.
  intros Hi Hop Hp H1 H2 H3. destruct (gi_props _ Hg _ _ Hi) as [Hid Hr Hn Hpr Hc].
  assert (Hid' : pp_proposal_id p' = i) by (destruct Hp; subst p'; exact Hid).
  unfold open_proposal in Hop. bool_props.
  destruct (remove_active_sub (storage.set_proposal t p') i) as (Hni & Hsub & Hnd).
  assert (Hact : storage.get_active_proposals (storage.set_proposal t p')
                 = storage.get_active_proposals s)
    by (unfold storage.get_active_proposals; cbn; by rewrite H3).
  rewrite Hact in *.
  eapply (gov_step_revise s _ i p p'); [done|done| | |done| |reflexivity| | |].
  - split; [destruct Hp; by subst|by destruct Hp; subst|].
    unfold open_proposal. intros Ho. rewrite H0, H in Ho. done.
  - split; destruct Hp; subst p'; cbn; try done; intros [? ?]; congruence.
  - cbn. by rewrite Hid', H2.
  - apply Hnd, Hg.
  - exact Hsub.
  - intros Hin. by destruct Hni.
Qed.

Lemma add_active_spec t i :
  storage.get_active_proposals (storage.add_active_proposal t i) =
    if bool_decide (i ∈ storage.get_active_proposals t)
    then storage.get_active_proposals t else storage.get_active_proposals t ++ [i].
Proof.
  unfold storage.add_active_proposal.
  assert (He : existsb (λ id, id =? i) (storage.get_active_proposals t)
               = bool_decide (i ∈ storage.get_active_proposals t)).
  { apply eq_true_iff_eq. rewrite existsb_exists, bool_decide_eq_true. split.
    - intros (x & Hx & ->%Z.eqb_eq). by apply list_elem_of_In.
    - intros Hi. exists i. split; [by apply list_elem_of_In|apply Z.eqb_refl]. }
  rewrite He. by case_bool_decide.
Qed.

Lemma propose_step proposer change expiry i :
  Governance.propose_parameter_change env s proposer change expiry = Ok (i, s') →
  i = storage.get_proposal_counter s
  ∧ Proposals s !! i = None
  ∧ (∃ p, Proposals s' = <[i := p]> (Proposals s) ∧ pp_approvals p = [proposer]
          ∧ pp_change p = change ∧ open_proposal p = true)
  ∧ gov_step s s'.
Proof using Hg.
  unfold Governance.propose_parameter_change. intros H. run H. checked.
  set (i := storage.get_proposal_counter s) in *.
  assert (Hnone : Proposals s !! i = None).
  { destruct (Proposals s !! i) as [p|] eqn:Hp; [|done].
    destruct (gi_props _ Hg _ _ Hp). lia. }
  match goal with |- context [storage.set_proposal ?t ?p] =>
    set (np := p); set (s1 := storage.set_proposal t np) end.
  assert (HP : Proposals (storage.add_active_proposal s1 i) = <[i := np]> (Proposals s))
    by (unfold storage.add_active_proposal; by destruct (existsb _ _)).
  assert (HC : ProposalCounter (storage.add_active_proposal s1 i) = Some (i + 1))
    by (unfold storage.add_active_proposal; by destruct (existsb _ _)).
  pose proof (add_active_spec s1 i) as HA.
  change (storage.get_active_proposals s1) with (storage.get_active_proposals s) in HA.
  rewrite bool_decide_eq_false_2 in HA.
  2:{ intros (p & Hp & _)%(gi_active _ Hg). congruence. }
  split; [done|]. split; [done|]. split; [by exists np|]. pose proof (gi_counter _ Hg).
  split; [split; unfold storage.get_proposal_counter; rewrite ?HP, ?HC, ?HA; cbn|].
  - lia.
  - intros j x [[<- <-]|[_ Hx]]%lookup_insert_Some.
    + split; cbn; [done|lia|apply NoDup_singleton|by left|naive_solver].
    + destruct (gi_props _ Hg _ _ Hx). split; try done. fold i in po_range0. lia.
  - apply NoDup_app. split_and!; [apply Hg| |apply NoDup_singleton].
    intros j Hj ->%list_elem_of_singleton. apply (gi_active _ Hg) in Hj as (p & Hp & _).
    congruence.
  - intros j [Hj| ->%list_elem_of_singleton]%elem_of_app.
    + destruct (gi_active _ Hg j Hj) as (p & Hp & Ho). exists p. split; [|done].
      rewrite lookup_insert_ne; [done|congruence].
    + exists np. by rewrite lookup_insert_eq.
  - intros j x Hx. exists x. split; [|done]. rewrite HP, lookup_insert_ne; [done|congruence].
Qed.

Lemma approve_step a i :
  Governance.approve_proposal env s a i = Ok (tt, s') → gov_step s s'.
Proof using Hg.
  unfold Governance.approve_proposal, storage.get_proposal. intros H. run_split H.
  - by apply gov_step_same.
  - destruct (gi_props _ Hg _ _ E2) as [Hid Hr Hn Hpr Hc].
    eapply (gov_step_revise s _ i x2 (x2 ⟨ pp_approvals ::= λ l, l ++ [a] ⟩));
      [done|done| | |done|by cbn; rewrite Hid|reflexivity|apply Hg|done|].
    + split; cbn; [done|by apply prefix_app_r|].
      unfold open_proposal. rewrite E4, E5. done.
    + split; cbn; try done; [|by apply elem_of_app; left].
      apply NoDup_app. split_and!; [done| |apply NoDup_singleton].
      by intros x Hx ->%list_elem_of_singleton.
    + intros _. unfold open_proposal. cbn. by rewrite E4, E5.
Qed.

Lemma apply_change_view config ch :
  let t := Governance.apply_change s config ch in
  ProposalCounter t = ProposalCounter s ∧ Proposals t = Proposals s
  ∧ ActiveProposals t = ActiveProposals s.
Proof. by destruct ch. Qed.

Lemma execute_step a i :
  Governance.execute_proposal env s a i = Ok (tt, s') → gov_step s s'.
Proof using Hg.
  unfold Governance.execute_proposal, storage.get_proposal. intros H. run H.
  destruct (apply_change_view x0 (pp_change x2)) as (H1 & H2 & H3).
  eapply close_proposal_step; try done; [|by left].
  unfold open_proposal. by rewrite E3, E4.
Qed.

Lemma cancel_step a i :
  Governance.cancel_proposal env s a i = Ok (tt, s') → gov_step s s'.
Proof using Hg.
  unfold Governance.cancel_proposal, storage.get_proposal. intros H. run H.
  assert (Hs : gov_step s (storage.remove_active_proposal
    (storage.set_proposal s x0 ⟨ pp_cancelled := true ⟩) i)).
  { eapply close_proposal_step; try done; [|by right]. unfold open_proposal.
    by rewrite E2, E3. }
  destruct Hs as [Hinv Hev]. split; [|done]. by destruct Hinv.
Qed.
End Gov_handlers.

Lemma cleanup_step_prune now s n i s' n' :
  gov_inv s → Governance.cleanup_step now (s, n) i = Ok (s', n') → gov_step s s'.
Proof.
  intros Hg. unfold Governance.cleanup_step. intros H. run_split H; simplify_eq;
    try by apply gov_step_same.
  destruct (remove_active_sub s i) as (_ & Hsub & Hn).
  eapply gov_step_prune; try done. apply Hn, Hg.
Qed.
