(* ===== verification/RegDispute.v ===== *)
(** * Event registry: disputes

    [dispute.rs]: a ticket holder opens a dispute after the event, addresses
    vote, and anyone resolves it once voting has closed.  The payment
    contract's [has_confirmed_ticket] is a class: what the registry needs to
    know of the other contract. *)

From S2P Require Import Prelude Machine Host RegTypes RegStorage.

(** [TicketPaymentInterface]: the answer of the payment contract deployed at
    an address; [None] when the call traps. *)
Class TicketPaymentInterface := {
  has_confirmed_ticket : Address → string → Address → option bool
}.

Module dispute.

Definition DISPUTE_VOTING_DURATION : Z := 172800.
Definition DEFAULT_QUORUM_BPS : Z := 3000.

Definition open_dispute `{TicketPaymentInterface} (env : Env) (s : State) (event_id : string)
    (opened_by : Address) : call unit :=
  do! require_auth env opened_by in
  let! event_info := ok_or (storage.get_event s event_id) EventNotFound in
  do! fail_if (bool_decide (is_Some (storage.get_dispute s event_id))) EventAlreadyExists in
  let now := timestamp env in
  do! (if ei_end_time event_info =? 0 then Err EventNotEnded
       else
         let! last := unwrap (checked_u64 (ei_end_time event_info + 172800)) in
         fail_if (last <? now) EventNotEnded) in
  let! ticket_payment_addr := ok_or (storage.get_ticket_payment_contract s) NotInitialized in
  let! holds := unwrap (has_confirmed_ticket ticket_payment_addr event_id opened_by) in
  do! fail_if (negb holds) NotTicketHolder in
  let! closes_at := unwrap (checked_u64 (now + DISPUTE_VOTING_DURATION)) in
  let dispute := MkDispute event_id opened_by now closes_at DsOpen 0 0 0 DEFAULT_QUORUM_BPS 0 in
  let s := storage.store_dispute s dispute in
  Ok (tt, emit s (EvDisputeOpened event_id opened_by now)).

Definition vote_on_dispute (env : Env) (s : State) (event_id : string) (voter : Address)
    (vote : DisputeVote) : call unit :=
  do! require_auth env voter in
  let! dispute := ok_or (storage.get_dispute s event_id) DisputeNotFound in
  do! fail_if (negb (bool_decide (dp_status dispute = DsOpen))
               && negb (bool_decide (dp_status dispute = DsVoting))) DisputeNotOpen in
  do! fail_if (dp_closes_at dispute <? timestamp env) ProposalExpired in
  do! fail_if (storage.has_voted s event_id voter) AlreadyVoted in
  let dispute := if bool_decide (dp_status dispute = DsOpen)
                 then dispute ⟨ dp_status := DsVoting ⟩ else dispute in
  let! total := ok_or (checked_u32 (dp_total_votes dispute + 1)) SupplyOverflow in
  let dispute := dispute ⟨ dp_total_votes := total ⟩ in
  let! dispute :=
    match vote with
    | BuyerFavor =>
        let! n := ok_or (checked_u32 (dp_buyer_votes dispute + 1)) SupplyOverflow in
        Ok (dispute ⟨ dp_buyer_votes := n ⟩)
    | OrganizerFavor =>
        let! n := ok_or (checked_u32 (dp_organizer_votes dispute + 1)) SupplyOverflow in
        Ok (dispute ⟨ dp_organizer_votes := n ⟩)
    end in
  let s := storage.store_dispute_vote s event_id voter vote in
  let! s := storage.add_dispute_vote s event_id voter in
  let s := storage.store_dispute s dispute in
  Ok (tt, emit s (EvDisputeVoted event_id voter vote (timestamp env))).

Definition resolve_dispute (env : Env) (s : State) (event_id : string) : call DisputeStatus :=
  let! dispute := ok_or (storage.get_dispute s event_id) DisputeNotFound in
  do! fail_if (timestamp env <=? dp_closes_at dispute) ProposalExpired in
  if bool_decide (dp_status dispute = DsResolvedBuyer)
     || bool_decide (dp_status dispute = DsResolvedOrganizer)
  then Ok (dp_status dispute, s)
  else
    let total := dp_total_votes dispute in
    let! buyer_bps := ok_or (checked_u32 (dp_buyer_votes dispute * 10000)) SupplyOverflow in
    let meets_quorum :=
      if 0 <? total then dp_quorum_threshold_bps dispute <=? buyer_bps / total else false in
    let dispute :=
      if meets_quorum && (dp_organizer_votes dispute <? dp_buyer_votes dispute)
      then dispute ⟨ dp_status := DsResolvedBuyer ⟩
      else dispute ⟨ dp_status := DsResolvedOrganizer ⟩ in
    let s := storage.store_dispute s dispute in
    let s := emit s (EvDisputeResolved event_id (dp_status dispute) (dp_buyer_votes dispute)
                       (dp_organizer_votes dispute) (dp_total_votes dispute) (timestamp env)) in
    Ok (dp_status dispute, s).

End dispute.

(** ** Voters and tallies *)
#[export] Instance DisputeVote_eq_dec : EqDecision DisputeVote.
Proof. solve_decision. Defined.

Definition tally (v : DisputeVote) (votes : list DisputeVote) : Z :=
  Z.of_nat (length (filter (λ x, x = v) votes)).

Lemma tally_snoc v votes x :
  tally v (votes ++ [x]) = tally v votes + (if decide (x = v) then 1 else 0).
Proof.
  unfold tally. rewrite filter_app, length_app. cbn. destruct (decide (x = v)); cbn; lia.
Qed.

(** The votes of the given voters. *)
Definition votes_of (s : State) (i : string) (voters : list Address) : list DisputeVote :=
  omap (λ v, DisputeVotes s !! (i, v)) voters.

(** The record's counters are the tally of the votes. *)
Record tallied (i : string) (votes : list DisputeVote) (d : Dispute) : Prop := {
  ta_id : dp_event_id d = i;
  ta_total : dp_total_votes d = Z.of_nat (length votes);
  ta_buyer : dp_buyer_votes d = tally BuyerFavor votes;
  ta_organizer : dp_organizer_votes d = tally OrganizerFavor votes;
  ta_quorum : dp_quorum_threshold_bps d = dispute.DEFAULT_QUORUM_BPS
}.

(** The voters of dispute [i] are the sharded list [l], each once, each with a
    stored vote, and the record counts them. *)
Record voters_inv (s : State) (i : string) (l : list Address) : Prop := {
  vi_sharded : sharded 50 (DisputeVoteShard s) i (storage.get_dispute_vote_count s i) l;
  vi_nodup : NoDup l;
  vi_votes : ∀ v, v ∈ l ↔ is_Some (DisputeVotes s !! (i, v));
  vi_record : match Disputes s !! i with
              | Some d => tallied i (votes_of s i l) d
              | None => l = []
              end
}.

Definition dispute_inv (s : State) : Prop := ∀ i, ∃ l, voters_inv s i l.

Lemma dispute_inv_empty : dispute_inv empty_state.
Proof.
  intros i. exists []. split; cbn.
  - apply sharded_empty. intros j. apply lookup_empty.
  - constructor.
  - intros v. rewrite lookup_empty. split; [by intros ?%not_elem_of_nil|by intros []].
  - by rewrite lookup_empty.
Qed.

Lemma omap_bind {A B C : Type} (f : B → option C) (g : A → list B) (l : list A) :
  omap f (l ≫= g)
  = (x ← l; y ← g x; match f y with Some c => [c] | None => [] end).
Proof.
  induction l as [|x l IH]; [done|]. rewrite !bind_cons, omap_app, IH. f_equal.
  induction (g x) as [|y k IHk]; [done|]. rewrite bind_cons, <- IHk. simpl.
  by destruct (f y).
Qed.

(** The reader of the shards returns the votes in order. *)
Lemma get_dispute_votes_list s i l :
  voters_inv s i l → storage.get_dispute_votes s i = votes_of s i l.
Proof.
  intros Hv. pose proof (vi_sharded _ _ _ Hv) as Hsh.
  pose proof (shard_entries_list _ _ _ _ _ Hsh) as He.
  unfold storage.get_dispute_votes.
  destruct (Z.eqb_spec (storage.get_dispute_vote_count s i) 0) as [Hz|Hz].
  - destruct Hsh as [Hc _]. rewrite Hz in Hc. by destruct l.
  - unfold votes_of. rewrite <- He. unfold shard_entries. by rewrite omap_bind.
Qed.

Lemma votes_of_ext s s' i l :
  (∀ v, v ∈ l → DisputeVotes s' !! (i, v) = DisputeVotes s !! (i, v)) →
  votes_of s' i l = votes_of s i l.
Proof.
  unfold votes_of. intros Hv. induction l as [|v l IH]; [done|]. simpl.
  rewrite Hv by left. unfold omap in IH. rewrite IH; [done|].
  intros w Hw. apply Hv. by right.
Qed.

(** Writes to other disputes do not matter. *)
Lemma voters_inv_same s s' i l :
  Disputes s' !! i = Disputes s !! i →
  (∀ v, DisputeVotes s' !! (i, v) = DisputeVotes s !! (i, v)) →
  sharded 50 (DisputeVoteShard s') i (storage.get_dispute_vote_count s' i) l →
  voters_inv s i l → voters_inv s' i l.
Proof.
  intros H1 H2 H3 [Hs Hn Hv Hr]. split; [done|done|by intros v; rewrite H2|].
  rewrite H1. by rewrite (votes_of_ext s s') by done.
Qed.

Lemma open_dispute_inv `{TicketPaymentInterface} env s i a s' :
  dispute_inv s → dispute.open_dispute env s i a = Ok (tt, s') → dispute_inv s'.
Proof.
  intros Hd Ho j. destruct (Hd j) as (l & Hl). exists l.
  unfold dispute.open_dispute in Ho. run Ho. apply eq_None_not_Some in E1.
  unfold storage.get_dispute in E1.
  destruct (decide (i = j)) as [<-|Hne].
  - destruct Hl as [Hs Hn Hv Hr]. split; [done|done|done|]. cbn.
    rewrite lookup_insert_eq. rewrite E1 in Hr. subst l. by split.
  - eapply (voters_inv_same s); [|done|apply Hl|done]. cbn. by rewrite lookup_insert_ne.
Qed.

Lemma resolve_dispute_inv env s i r s' :
  dispute_inv s → dispute.resolve_dispute env s i = Ok (r, s') → dispute_inv s'.
Proof.
  intros Hd Ho j. destruct (Hd j) as (l & Hl). exists l.
  unfold dispute.resolve_dispute in Ho. run_split Ho; simplify_eq; [done|].
  unfold storage.get_dispute in E. set (d' := if _ && _ then _ else _).
  assert (Hid : dp_event_id d' = i).
  { destruct (Hd i) as (k & [_ _ _ Hr]). rewrite E in Hr. destruct Hr as [<- _ _ _ _].
    subst d'. by destruct (_ && _). }
  destruct (decide (i = j)) as [<-|Hne].
  - destruct Hl as [Hs Hn Hv Hr]. split; [done|done|done|]. cbn.
    rewrite Hid, lookup_insert_eq. rewrite E in Hr. destruct Hr.
    split; [exact Hid|..]; subst d'; by destruct (_ && _).
  - eapply (voters_inv_same s); [|done|apply Hl|done]. cbn. rewrite Hid.
    by rewrite lookup_insert_ne.
Qed.

(** What a successful vote did. *)
Lemma vote_on_dispute_Ok env s i a v s' :
  dispute.vote_on_dispute env s i a v = Ok (tt, s') →
  ∃ d d', Disputes s !! i = Some d ∧ authorized env a = true
    ∧ (dp_status d = DsOpen ∨ dp_status d = DsVoting) ∧ timestamp env ≤ dp_closes_at d
    ∧ DisputeVotes s !! (i, a) = None
    ∧ dp_event_id d' = dp_event_id d ∧ dp_status d' = DsVoting
    ∧ dp_closes_at d' = dp_closes_at d
    ∧ dp_quorum_threshold_bps d' = dp_quorum_threshold_bps d
    ∧ dp_total_votes d' = dp_total_votes d + 1
    ∧ dp_buyer_votes d' = dp_buyer_votes d + (if decide (v = BuyerFavor) then 1 else 0)
    ∧ dp_organizer_votes d' = dp_organizer_votes d
                              + (if decide (v = OrganizerFavor) then 1 else 0)
    ∧ Disputes s' = <[dp_event_id d := d']> (Disputes s)
    ∧ DisputeVotes s' = <[(i, a) := v]> (DisputeVotes s)
    ∧ DisputeVoteShard s' =
        shard_push 50 (DisputeVoteShard s) i (storage.get_dispute_vote_count s i) a
    ∧ DisputeVoteCount s' = <[i := storage.get_dispute_vote_count s i + 1]> (DisputeVoteCount s).
Proof.
  unfold dispute.vote_on_dispute, storage.add_dispute_vote, storage.get_dispute. intros H.
  run H. auths.
  assert (Hst : dp_status x0 = DsOpen ∨ dp_status x0 = DsVoting).
  { destruct (dp_status x0); try (by left); try (by right); vm_compute in E1; discriminate. }
  assert (Hnv : DisputeVotes s !! (i, a) = None).
  { unfold storage.has_voted in E3. bool_props. by apply eq_None_not_Some. }
  destruct (bool_decide (dp_status x0 = DsOpen)) eqn:Hso; bool_props;
    destruct v; run_all; checked;
    match goal with |- context [storage.store_dispute _ ?d] => exists x0, d end;
    split_and!; try done; try (repeat case_decide; try congruence; cbn; lia); by destruct Hst.
Qed.

Lemma vote_on_dispute_inv env s i a v s' :
  dispute_inv s → dispute.vote_on_dispute env s i a v = Ok (tt, s') → dispute_inv s'.
Proof.
  intros Hd (d & d' & Hi & _ & _ & _ & Hnone & Hid & _ & _ & Hq & Ht & Hb & Ho & HD & HV & HS & HC)
    %vote_on_dispute_Ok j.
  destruct (Hd i) as (li & Hli). pose proof (vi_record _ _ _ Hli) as Hr. rewrite Hi in Hr.
  assert (Hdi : dp_event_id d = i) by apply Hr. rewrite Hdi in HD.
  assert (Hcnt : ∀ k, storage.get_dispute_vote_count s' k =
    if decide (i = k) then storage.get_dispute_vote_count s i + 1
    else storage.get_dispute_vote_count s k).
  { intros k. unfold storage.get_dispute_vote_count at 1. rewrite HC.
    destruct (decide (i = k)) as [<-|]; [by rewrite lookup_insert_eq|].
    by rewrite lookup_insert_ne. }
  destruct (decide (i = j)) as [<-|Hne].
  - exists (li ++ [a]).
    assert (Ha : a ∉ li) by (rewrite (vi_votes _ _ _ Hli), Hnone; by intros []).
    assert (Hvs : votes_of s' i (li ++ [a]) = votes_of s i li ++ [v]).
    { unfold votes_of. rewrite omap_app. f_equal.
      - apply votes_of_ext. intros u Hu. rewrite HV, lookup_insert_ne; [done|congruence].
      - simpl. by rewrite HV, lookup_insert_eq. }
    split.
    + rewrite HS, Hcnt, decide_True by done. apply sharded_push, Hli.
    + apply NoDup_app. split_and!; [apply Hli| |apply NoDup_singleton].
      by intros u Hu ->%list_elem_of_singleton.
    + intros u. rewrite elem_of_app, list_elem_of_singleton, HV, lookup_insert_is_Some.
      rewrite (vi_votes _ _ _ Hli). destruct (decide (a = u)); naive_solver.
    + rewrite HD, lookup_insert_eq, Hvs. destruct Hr.
      split; [congruence| | | |congruence]; rewrite ?length_app, ?tally_snoc; cbn; lia.
  - destruct (Hd j) as (l & Hl). exists l.
    eapply (voters_inv_same s); [by rewrite HD, lookup_insert_ne| | |done].
    + intros u. rewrite HV, lookup_insert_ne; [done|congruence].
    + rewrite HS, Hcnt, decide_False by done. apply sharded_frame; [congruence|apply Hl].
Qed.
