(* ===== verification/RegLifecycle.v ===== *)
(** * Event registry: how an event record evolves

    One relation, [event_evolves], says what a single invocation may do to an
    event record; [good_step] lifts it to the storage together with the
    global active counter.  Every operation that writes events is shown to
    take good steps; the invariants of [RegSystem] follow by induction. *)

From S2P Require Import Prelude Machine Host RegTypes RegStorage RegGuards.
From S2P Require Import RegEvents RegInventory.

(** The sum of the milestone releases, without the overflow check. *)
Definition released_bps (e : EventInfo) : Z :=
  sumZ (map ms_release_percent (default [] (ei_milestone_plan e))).

(** What every stored record satisfies. *)
Record event_ok (e : EventInfo) : Prop := {
  ok_supply_nonneg : 0 ≤ ei_current_supply e;
  ok_supply_max : 0 < ei_max_supply e → ei_current_supply e ≤ ei_max_supply e;
  ok_cancelled : ei_status e = StCancelled → ei_is_active e = false;
  ok_resale : from_option (λ c, c ≤ 10000) True (ei_resale_cap_bps e);
  ok_custom_fee : from_option (λ c, c ≤ 10000) True (ei_custom_fee_bps e);
  ok_milestones : released_bps e ≤ 10000
}.

(** The fields no operation of the registry changes after registration. *)
Definition identity_of (e : EventInfo) :=
  (ei_event_id e, ei_organizer_address e, ei_payment_address e, ei_platform_fee_percent e,
   ei_created_at e, ei_max_supply e, ei_milestone_plan e, ei_is_private e,
   ei_end_time e, ei_accepted_tokens e).

Record event_evolves (e e' : EventInfo) : Prop := {
  ev_identity : identity_of e' = identity_of e;
  ev_ok : event_ok e → event_ok e';
  ev_cancelled : ei_status e = StCancelled → ei_status e' = StCancelled
}.

Lemma evolves_id e e' : event_evolves e e' → ei_event_id e' = ei_event_id e.
Proof. intros [Hid _ _]. unfold identity_of in Hid. congruence. Qed.
Lemma evolves_organizer e e' :
  event_evolves e e' → ei_organizer_address e' = ei_organizer_address e.
Proof. intros [Hid _ _]. unfold identity_of in Hid. congruence. Qed.
Lemma evolves_private e e' : event_evolves e e' → ei_is_private e' = ei_is_private e.
Proof. intros [Hid _ _]. unfold identity_of in Hid. congruence. Qed.

#[export] Instance event_evolves_preorder : PreOrder event_evolves.
Proof.
  split; [by intros e; split|].
  intros e1 e2 e3 [] []; split; [congruence|auto|auto].
Qed.

(** Records are stored under their own identifier. *)
Definition keyed (s : State) : Prop :=
  ∀ i e, Event s !! i = Some e → ei_event_id e = i.

(** What one invocation does to the record under one identifier: nothing,
    create it, revise it, or remove it once inactive. *)
Inductive event_change : option EventInfo → option EventInfo → Prop :=
| change_none : event_change None None
| change_new e : event_ok e → event_change None (Some e)
| change_revise e e' : event_evolves e e' → event_change (Some e) (Some e')
| change_remove e : ei_is_active e = false → event_change (Some e) None.

Record good_step (s s' : State) : Prop := {
  gs_change : ∀ i, event_change (Event s !! i) (Event s' !! i);
  gs_keyed : keyed s';
  gs_counted : counted s → counted s'
}.

(** A step that creates and removes nothing. *)
Record revises (s s' : State) : Prop := {
  rv_events : ∀ i, option_Forall2 event_evolves (Event s !! i) (Event s' !! i);
  rv_keyed : keyed s → keyed s';
  rv_counted : keyed s → counted s → counted s'
}.

Lemma revises_good s s' : keyed s → revises s s' → good_step s s'.
Proof.
  intros Hk [He Hk' Hc]. split; [|auto|auto].
  intros i. destruct (He i); by constructor.
Qed.

#[export] Instance revises_preorder : PreOrder revises.
Proof.
  split.
  - intros s. split; [|done|done]. intros i. destruct (Event s !! i); by constructor.
  - intros s1 s2 s3 [He1 Hk1 Hc1] [He2 Hk2 Hc2]. split; [|auto|auto].
    intros i. specialize (He1 i). specialize (He2 i).
    destruct He1 as [e1 e2 H12|]; inversion He2; subst; constructor.
    by etransitivity.
Qed.

(** The event table and the counter are the same: all the operations of the
    other components. *)
Definition events_view (s : State) := (Event s, GlobalActiveEventCount s).

Lemma revises_view s s' : events_view s' = events_view s → revises s s'.
Proof.
  unfold events_view. intros [= He Hc].
  split; unfold keyed, counted, storage.get_global_active_event_count; rewrite He, ?Hc; [|done|done].
  intros i. destruct (Event s !! i); by constructor.
Qed.

(** Writing back a revised record. *)
Lemma revises_insert s s' e e' :
  Event s !! ei_event_id e = Some e → event_evolves e e' →
  Event s' = <[ei_event_id e' := e']> (Event s) →
  (counted s → counted s') → revises s s'.
Proof.
  intros Hi Hev He Hc.
  assert (Hid : ei_event_id e' = ei_event_id e) by by apply evolves_id.
  split; [| |auto].
  - intros i. rewrite He, Hid. destruct (decide (i = ei_event_id e)) as [->|Hne].
    + rewrite Hi, lookup_insert_eq. by constructor.
    + rewrite lookup_insert_ne by congruence. by destruct (Event s !! i); constructor.
  - intros Hk i x. rewrite He. intros [[<- <-]|[_ Hx]]%lookup_insert_Some; [done|by apply Hk].
Qed.

(** No revision is the transition the counter misses: privacy is fixed. *)
Lemma evolves_counts e e' : event_evolves e e' → miscounted (Some e) e' = false.
Proof.
  intros Hev. unfold miscounted. rewrite (evolves_private _ _ Hev).
  by destruct (ei_is_private e), (ei_is_active e).
Qed.

Section Writers.
Context (s s' : State) (i : string) (e e' : EventInfo).
Hypothesis (Hk : keyed s) (Hi : Event s !! i = Some e) (Hev : event_evolves e e').

Let Hid : ei_event_id e' = i.
Proof. rewrite <- (Hk i e Hi). by apply evolves_id. Qed.

Lemma update_event_revises : storage.update_event s e' = Ok s' → revises s s'.
Proof.
  intros H. assert (Hie : ei_event_id e = i) by by apply Hk.
  eapply (revises_insert s s' e e'); [by rewrite Hie|done|by apply update_event_Event|].
  intros Hc. eapply update_event_counted; [done| |done].
  rewrite Hid, Hi. by apply evolves_counts.
Qed.

Lemma store_event_revises : storage.store_event s e' = Ok s' → revises s s'.
Proof.
  intros H. assert (Hie : ei_event_id e = i) by by apply Hk.
  eapply (revises_insert s s' e e'); [by rewrite Hie|done|by apply store_event_Event|].
  intros Hc. eapply store_event_counted; [done| |done].
  rewrite Hid, Hi. by apply evolves_counts.
Qed.
End Writers.

(** Solves [event_evolves e (e ⟨ f := v ⟩ ...)] when the changed fields keep
    [event_ok]; leaves the conditions that do not follow at once. *)
Ltac evolve :=
  split; [reflexivity
         | intros []; split; unfold released_bps in *; cbn in *; try (assumption || lia || done)
         | cbn; try (congruence || auto)].

Lemma good_revise s s1 s' :
  keyed s → revises s s1 → events_view s' = events_view s1 → good_step s s'.
Proof.
  intros Hk Hr Hv. apply revises_good; [done|].
  etransitivity; [exact Hr|by apply revises_view].
Qed.

(** Finds the [update_event] of a handler that has been opened: the step
    revises that record, whatever else the handler writes. *)
Ltac revise :=
  match goal with
  | Hk : keyed ?s, Hi : Event ?s !! ?i = Some ?e,
    H : storage.update_event ?t ?e' = Ok ?t' |- _ =>
      apply (good_revise s t');
      [exact Hk
      |etransitivity; [exact (revises_view s t eq_refl)|];
       eapply (update_event_revises t t' i e e' Hk Hi); [|exact H]; evolve
      |reflexivity]
  end.

Section Handlers.
Context (env : Env) (s s' : State) (Hk : keyed s).

Lemma update_event_status_good i b :
  Events.update_event_status env s i b = Ok (tt, s') → good_step s s'.
Proof.
  unfold Events.update_event_status, storage.get_event. intros H. run_split H.
  - by apply revises_good.
  - revise.
    intros Hc. unfold Events.is_cancelled in *. bool_props. congruence.
Qed.

Lemma cancel_event_good i r :
  Events.cancel_event env s i r = Ok (tt, s') → good_step s s'.
Proof.
  unfold Events.cancel_event, storage.get_event. intros H. run_split H.
  revise.
Qed.

Lemma update_metadata_good i c :
  Events.update_metadata env s i c = Ok (tt, s') → good_step s s'.
Proof.
  unfold Events.update_metadata, storage.get_event. intros H. run_split H.
  - by apply revises_good.
  - revise.
Qed.

Lemma set_feedback_cid_good i c :
  Events.set_feedback_cid env s i c = Ok (tt, s') → good_step s s'.
Proof.
  unfold Events.set_feedback_cid, storage.get_event. intros H. run_split H.
  - by apply revises_good.
  - revise.
Qed.

Lemma set_resale_cap_bps_good i c :
  Events.set_resale_cap_bps env s i c = Ok (tt, s') → good_step s s'.
Proof.
  unfold Events.set_resale_cap_bps, storage.get_event. intros H. run_split H.
  revise.
  destruct c; cbn; [|done]. run E1. lia.
Qed.

Lemma set_custom_event_fee_good i c :
  Events.set_custom_event_fee env s i c = Ok (tt, s') → good_step s s'.
Proof.
  unfold Events.set_custom_event_fee, storage.get_event. intros H. run_split H.
  revise.
  destruct c; cbn; [|done]. run E0. lia.
Qed.

Lemma postpone_event_good i a b :
  Events.postpone_event env s i a b = Ok (tt, s') → good_step s s'.
Proof.
  unfold Events.postpone_event, storage.get_event. intros H. run_split H.
  revise.
Qed.

Lemma add_tier_good i t tier :
  Inventory.add_tier env s i t tier = Ok (tt, s') → good_step s s'.
Proof.
  unfold Inventory.add_tier, storage.get_event. intros H. run H. revise.
Qed.

Lemma deactivate_tier_good i t :
  Inventory.deactivate_tier env s i t = Ok (tt, s') → good_step s s'.
Proof.
  unfold Inventory.deactivate_tier, storage.get_event. intros H. run H. revise.
Qed.

Lemma decrement_inventory_good i t :
  Inventory.decrement_inventory env s i t = Ok (tt, s') → good_step s s'.
Proof.
  unfold Inventory.decrement_inventory, storage.get_event. intros H. run H.
  checked. cbn in *. revise.
Qed.

Lemma check_supply_Ok e q u :
  Inventory.check_supply e q = Ok u →
  0 < ei_max_supply e → ei_current_supply e + q ≤ ei_max_supply e.
Proof.
  unfold Inventory.check_supply. intros H Hm.
  destruct (Z.ltb_spec 0 (ei_max_supply e)); [|lia]. run H. checked. lia.
Qed.

Lemma increment_inventory_good i t u q tok :
  0 ≤ q → Inventory.increment_inventory env s i t u q tok = Ok (tt, s') → good_step s s'.
Proof.
  unfold Inventory.increment_inventory, storage.get_event. intros Hq H. run H.
  pose proof (check_supply_Ok _ _ _ E5). checked. cbn in *.
  match type of H with (match (if ?b then _ else _) with _ => _ end) = _ => destruct b end;
    run H; destruct (0 <? tier_max_per_user _); revise.
Qed.

Lemma mint_cross_chain_ticket_good c h r t sg i q :
  0 ≤ q → Inventory.mint_cross_chain_ticket env s c h r t sg i q = Ok (tt, s') → good_step s s'.
Proof.
  unfold Inventory.mint_cross_chain_ticket, Inventory.execute_teleport_mint,
    storage.get_event.
  intros Hq H. run H. pose proof (check_supply_Ok _ _ _ E4). checked. cbn in *. revise.
Qed.

Lemma total_release_bps_Ok l r :
  Events.total_release_bps l = Ok r → r = sumZ (map ms_release_percent l).
Proof.
  unfold Events.total_release_bps. rewrite <- (Z.add_0_l (sumZ _)). generalize 0.
  induction l as [|m l IH]; simpl; intros a H; run H; [lia|].
  checked. apply IH in H. lia.
Qed.

(** Everything [register_event] checks before it stores the record. *)
Lemma register_event_Ok args :
  Events.register_event env s args = Ok (tt, s') →
  ∃ s1, storage.store_event s (Events.new_event env s args) = Ok s1
    ∧ s' = emit s1 (EvEventRegistered (ar_event_id args) (ar_organizer_address args)
                      (ar_payment_address args) (timestamp env))
    ∧ storage.is_initialized s = true
    ∧ authorized env (ar_organizer_address args) = true
    ∧ storage.is_blacklisted s (ar_organizer_address args) = false
    ∧ validate_metadata_cid (ar_metadata_cid args) = Ok tt
    ∧ Event s !! ar_event_id args = None
    ∧ event_ok (Events.new_event env s args).
Proof.
  unfold Events.register_event, storage.event_exists. intros H. run H. auths.
  eexists; split_and!; try done.
  - by apply eq_None_not_Some.
  - split; cbn; try done; [lia|..].
    + destruct (ar_resale_cap_bps args); cbn; [run E7; lia|done].
    + unfold released_bps; cbn. destruct (ar_milestone_plan args); cbn; [|lia].
      apply rbind_Ok in E8 as (x & Ht & E8). apply total_release_bps_Ok in Ht.
      run E8. fold (sumZ (map ms_release_percent l)). lia.
Qed.

Lemma register_event_good args :
  Events.register_event env s args = Ok (tt, s') → good_step s s'.
Proof.
  intros H. apply register_event_Ok in H as (s1 & Hst & -> & _ & _ & _ & _ & Hn & Hok).
  pose proof (store_event_Event _ _ _ Hst) as He. cbn in He.
  split.
  - intros i. change (Event (emit s1 _)) with (Event s1). rewrite He.
    destruct (decide (i = ar_event_id args)) as [->|Hne].
    + rewrite Hn, lookup_insert_eq. by constructor.
    + rewrite lookup_insert_ne by congruence.
      destruct (Event s !! i); by constructor.
  - intros i e. change (Event (emit s1 _)) with (Event s1). rewrite He.
    intros [[<- <-]|[_ Hx]]%lookup_insert_Some; [done|by apply Hk].
  - intros Hc. eapply (store_event_counted s _ s1 Hc); [|exact Hst].
    cbn. by rewrite Hn.
Qed.

Lemma store_event_receipt_view r t :
  storage.store_event_receipt s r = Ok t → events_view t = events_view s.
Proof.
  unfold storage.store_event_receipt. intros H. run_split H; done.
Qed.
End Handlers.

Lemma archive_event_good env s s' i :
  keyed s → Events.archive_event env s i = Ok (tt, s') → good_step s s'.
Proof.
  unfold Events.archive_event, storage.get_event. intros Hk H. run_split H.
  destruct (remove_event_spec s i e E) as (Hev & _ & _).
  apply store_event_receipt_view in E2 as [= He2 Hc2]. cbn in *.
  split.
  - intros j. change (Event (emit x1 _)) with (Event x1). rewrite He2, Hev.
    destruct (decide (j = i)) as [->|Hne].
    + rewrite E, lookup_delete_eq. by constructor.
    + rewrite lookup_delete_ne by congruence. by destruct (Event s !! j); constructor.
  - intros j x. change (Event (emit x1 _)) with (Event x1). rewrite He2, Hev.
    intros [_ Hx]%lookup_delete_Some. by apply Hk.
  - intros Hc. pose proof (remove_event_counted s i e Hc E) as Hc'.
    unfold counted, storage.get_global_active_event_count in *. cbn.
    by rewrite He2, Hc2.
Qed.

Lemma suspend_step_revises s n i s' n' :
  keyed s → Events.suspend_step (s, n) i = Ok (s', n') → revises s s'.
Proof.
  unfold Events.suspend_step, storage.get_event. intros Hk H. run_split H; simplify_eq; try done.
  eapply (store_event_revises s s' i e); [done|done| |done]. evolve.
Qed.

Lemma suspend_loop_revises s l n s' n' :
  keyed s → rfold Events.suspend_step l (s, n) = Ok (s', n') → revises s s'.
Proof.
  intros Hk H. apply (rfold_ind _ (λ p, revises s p.1) _ _ _) in H; [done|done|].
  intros i [t m] [t' m'] _ Ht Hs. cbn in *. etransitivity; [exact Ht|].
  eapply suspend_step_revises; [|exact Hs]. by apply (rv_keyed _ _ Ht).
Qed.

Lemma blacklist_organizer_good env s s' o r :
  keyed s → Events.blacklist_organizer env s o r = Ok (tt, s') → good_step s s'.
Proof.
  unfold Events.blacklist_organizer, Events.suspend_organizer_events. intros Hk H.
  run_split H; [by apply revises_good|].
  match goal with x : State * Z |- _ => destruct x as [s1 n] end. run_split H;
    (apply suspend_loop_revises in E2; [|exact Hk]);
    (match type of E2 with revises _ ?t => apply (good_revise s t) end; [done| |reflexivity]);
    (etransitivity; [|exact E2]; by apply revises_view).
Qed.
