(* ===== verification/RegSystem.v ===== *)
(** * Event registry: the contract as a state machine

    [invoke] dispatches every state-changing entry point of
    [impl EventRegistry]; [reachable] is the set of ledger and storage pairs
    a history of successful invocations, interleaved with token movements of
    third parties, can produce.  The invariants of events, counters and
    administration are proved over it by induction. *)

From S2P Require Import Prelude Machine Host RegTypes RegStorage RegGuards.
From S2P Require Import RegEvents RegInventory RegStaking RegGovernance RegDispute RegLifecycle.

(** The state-changing entry points with their arguments. *)
Inductive entry : Type :=
| Initialize (admin wallet : Address) (fee : Z) (usdc : Address)
| AddTokenWhitelist (token : Address)
| RemoveTokenWhitelist (token : Address)
| RegisterEvent (args : EventRegistrationArgs)
| UpdateEventStatus (event_id : string) (is_active : bool)
| CancelEvent (event_id : string) (reason : option string)
| ArchiveEvent (event_id : string)
| UpdateMetadata (event_id cid : string)
| SetFeedbackCid (event_id cid : string)
| StoreEvent (event_info : EventInfo)
| SetResaleCapBps (event_id : string) (cap : option Z)
| SetPlatformFeePercent (fee : Z)
| SetCustomEventFee (event_id : string) (fee : option Z)
| ProposeAdmin (new_admin : Address)
| AcceptAdmin
| CancelAdminProposal
| SetTicketPaymentContract (a : Address)
| IncrementInventory (event_id tier_id : string) (user : Address) (quantity : Z) (token : Address)
| AddTier (event_id tier_id : string) (tier : TicketTier)
| DeactivateTier (event_id tier_id : string)
| DecrementInventory (event_id tier_id : string)
| Upgrade
| BlacklistOrganizer (organizer : Address) (reason : string)
| RemoveFromBlacklist (organizer : Address) (reason : string)
| SetGlobalPromo (bps expiry : Z)
| PostponeEvent (event_id : string) (new_start_time grace_period_end : Z)
| AuthorizeScanner (event_id : string) (scanner : Address)
| RevokeScanner (event_id : string) (scanner : Address)
| RegisterSeries (series_id name : string) (event_ids : list string) (organizer : Address)
    (cid : option string)
| IssueSeriesPass (pass_id series_id : string) (holder : Address) (usage_limit expires_at : Z)
| IncrementSeriesPassUsage (pass_id : string)
| JoinWaitlist (event_id : string) (user : Address)
| LeaveWaitlist (event_id : string) (user : Address)
| SetStakingConfig (token : Address) (min_amount : Z)
| StakeCollateral (organizer : Address) (amount : Z)
| UnstakeCollateral (organizer : Address)
| DistributeStakerRewards (caller : Address) (total_reward : Z)
| ClaimStakerRewards (organizer : Address)
| MintCrossChainTicket (chain : Z) (tx_hash : string) (recipient : Address) (tier_id : string)
    (signatures : list string) (event_id : string) (quantity : Z)
| UpdateLoyaltyScore (caller guest : Address) (tickets spent multiplier : Z)
| ProposeParameterChange (proposer : Address) (change : ParameterChange) (expiry : Z)
| ApproveProposal (approver : Address) (proposal_id : Z)
| ExecuteProposal (executor : Address) (proposal_id : Z)
| CancelProposal (proposer : Address) (proposal_id : Z)
| CleanupExpiredProposals
| OpenDispute (event_id : string) (opened_by : Address)
| VoteOnDispute (event_id : string) (voter : Address) (vote : DisputeVote)
| ResolveDispute (event_id : string).

(** Arguments arrive at their machine width; the ones the invariants need. *)
Definition well_typed (c : entry) : bool :=
  match c with
  | IncrementInventory _ _ _ q _ => in_u32 q
  | MintCrossChainTicket _ _ _ _ _ _ q => in_u32 q
  | ProposeParameterChange _ (SetThreshold n) _ => in_u32 n
  | SetPlatformFeePercent fee => in_u32 fee
  | _ => true
  end.

(** [store_event] is the legacy entry point that overwrites a whole record. *)
Definition legacy (c : entry) : bool :=
  match c with StoreEvent _ => true | _ => false end.

Definition keep {W A} (w : W) (r : call A) : res EventRegistryError (W * State) :=
  let! ' (_, s) := r in Ok (w, s).

Definition invoke {W} `{TokenLedger W} `{TicketPaymentInterface} (env : Env) (c : entry)
    (w : W) (s : State) : res EventRegistryError (W * State) :=
  match c with
  | Initialize admin wallet fee usdc => keep w (Events.initialize env s admin wallet fee usdc)
  | AddTokenWhitelist token => keep w (Events.add_to_token_whitelist env s token)
  | RemoveTokenWhitelist token => keep w (Events.remove_from_token_whitelist env s token)
  | RegisterEvent args => keep w (Events.register_event env s args)
  | UpdateEventStatus i b => keep w (Events.update_event_status env s i b)
  | CancelEvent i r => keep w (Events.cancel_event env s i r)
  | ArchiveEvent i => keep w (Events.archive_event env s i)
  | UpdateMetadata i cid => keep w (Events.update_metadata env s i cid)
  | SetFeedbackCid i cid => keep w (Events.set_feedback_cid env s i cid)
  | StoreEvent e => keep w (Events.store_event env s e)
  | SetResaleCapBps i cap => keep w (Events.set_resale_cap_bps env s i cap)
  | SetPlatformFeePercent fee => keep w (Events.set_platform_fee env s fee)
  | SetCustomEventFee i fee => keep w (Events.set_custom_event_fee env s i fee)
  | ProposeAdmin a => keep w (Events.propose_admin env s a)
  | AcceptAdmin => keep w (Events.accept_admin env s)
  | CancelAdminProposal => keep w (Events.cancel_admin_proposal env s)
  | SetTicketPaymentContract a => keep w (Events.set_ticket_payment_contract env s a)
  | IncrementInventory i t u q tok =>
      keep w (Inventory.increment_inventory env s i t u q tok)
  | AddTier i t tier => keep w (Inventory.add_tier env s i t tier)
  | DeactivateTier i t => keep w (Inventory.deactivate_tier env s i t)
  | DecrementInventory i t => keep w (Inventory.decrement_inventory env s i t)
  | Upgrade => keep w (Events.upgrade env s)
  | BlacklistOrganizer o r => keep w (Events.blacklist_organizer env s o r)
  | RemoveFromBlacklist o r => keep w (Events.remove_from_blacklist env s o r)
  | SetGlobalPromo bps expiry => keep w (Events.set_global_promo env s bps expiry)
  | PostponeEvent i a b => keep w (Events.postpone_event env s i a b)
  | AuthorizeScanner i a => keep w (Events.authorize_scanner env s i a)
  | RevokeScanner i a => keep w (Events.revoke_scanner env s i a)
  | RegisterSeries i n ids o cid => keep w (Events.register_series env s i n ids o cid)
  | IssueSeriesPass p i h l x => keep w (Events.issue_series_pass env s p i h l x)
  | IncrementSeriesPassUsage p => keep w (Events.increment_series_pass_usage s p)
  | JoinWaitlist i u => keep w (Events.join_waitlist env s i u)
  | LeaveWaitlist i u => keep w (Events.leave_waitlist env s i u)
  | SetStakingConfig t n => keep w (Staking.set_staking_config env s t n)
  | StakeCollateral o n => Staking.stake_collateral env w s o n
  | UnstakeCollateral o => Staking.unstake_collateral env w s o
  | DistributeStakerRewards a n => Staking.distribute_staker_rewards env w s a n
  | ClaimStakerRewards o =>
      let! ' (_, w, s) := Staking.claim_staker_rewards env w s o in Ok (w, s)
  | MintCrossChainTicket c h r t sg i q =>
      keep w (Inventory.mint_cross_chain_ticket env s c h r t sg i q)
  | UpdateLoyaltyScore c g t n m => keep w (Staking.update_loyalty_score env s c g t n m)
  | ProposeParameterChange p ch x => keep w (Governance.propose_parameter_change env s p ch x)
  | ApproveProposal a i => keep w (Governance.approve_proposal env s a i)
  | ExecuteProposal a i => keep w (Governance.execute_proposal env s a i)
  | CancelProposal a i => keep w (Governance.cancel_proposal env s a i)
  | CleanupExpiredProposals => keep w (Governance.cleanup_expired_proposals env s)
  | OpenDispute i a => keep w (dispute.open_dispute env s i a)
  | VoteOnDispute i a v => keep w (dispute.vote_on_dispute env s i a v)
  | ResolveDispute i => keep w (dispute.resolve_dispute env s i)
  end.

(** ** Who writes what

    The storage splits into four blocks with an invariant each; every entry
    point writes at most one of them (and plain configuration). *)
Inductive block : Type := BEvents | BStaking | BGovernance | BDispute | BNone.
#[export] Instance block_eq_dec : EqDecision block.
Proof. solve_decision. Defined.

Definition block_of (c : entry) : block :=
  match c with
  | RegisterEvent _ | UpdateEventStatus _ _ | CancelEvent _ _ | ArchiveEvent _
  | UpdateMetadata _ _ | SetFeedbackCid _ _ | StoreEvent _ | SetResaleCapBps _ _
  | SetCustomEventFee _ _ | IncrementInventory _ _ _ _ _ | AddTier _ _ _
  | DeactivateTier _ _ | DecrementInventory _ _ | BlacklistOrganizer _ _
  | PostponeEvent _ _ _ | MintCrossChainTicket _ _ _ _ _ _ _ => BEvents
  | SetStakingConfig _ _ | StakeCollateral _ _ | UnstakeCollateral _
  | DistributeStakerRewards _ _ | ClaimStakerRewards _ => BStaking
  | Initialize _ _ _ _ | SetPlatformFeePercent _ | ProposeParameterChange _ _ _
  | ApproveProposal _ _ | ExecuteProposal _ _ | CancelProposal _ _
  | CleanupExpiredProposals => BGovernance
  | OpenDispute _ _ | VoteOnDispute _ _ _ | ResolveDispute _ => BDispute
  | _ => BNone
  end.

Definition staking_view (s : State) :=
  (Stake s, TotalStaked s, StakersList s, StakingToken s).
Definition governance_view (s : State) :=
  (MultiSig s, ProposalCounter s, Proposals s, ActiveProposals s).
Definition dispute_view (s : State) :=
  (Disputes s, DisputeVotes s, DisputeVoteShard s, DisputeVoteCount s).
Definition other_views (s : State) := (staking_view s, governance_view s, dispute_view s).

(** Opens [H : invoke ... = Ok ...] for one entry point: first the
    dispatcher, then the handler with all its guards. *)
Ltac open_call H :=
  cbn [invoke] in H; unfold keep in H;
  lazymatch type of H with
  | rbind _ _ = Ok _ =>
      let x := fresh "r" in let E := fresh "Hc" in
      apply rbind_Ok in H as (x & E & H);
      repeat match goal with p : _ * _ |- _ => destruct p end;
      injection H as; subst; rename E into H
  | _ => idtac
  end; units.

Ltac open_handler H :=
  unfold Events.initialize, Events.add_to_token_whitelist, Events.remove_from_token_whitelist,
    Events.set_platform_fee, Events.propose_admin, Events.accept_admin,
    Events.cancel_admin_proposal, Events.set_ticket_payment_contract, Events.upgrade,
    Events.remove_from_blacklist, Events.set_global_promo, Events.authorize_scanner,
    Events.revoke_scanner, Events.register_series, Events.issue_series_pass,
    Events.increment_series_pass_usage,
    Events.join_waitlist, Events.leave_waitlist,
    Staking.set_staking_config, Staking.stake_collateral, Staking.unstake_collateral,
    Staking.distribute_staker_rewards, Staking.claim_staker_rewards,
    Staking.update_loyalty_score,
    Governance.propose_parameter_change, Governance.approve_proposal,
    Governance.execute_proposal, Governance.cancel_proposal,
    Governance.cleanup_expired_proposals, Governance.apply_change,
    dispute.open_dispute, dispute.vote_on_dispute, dispute.resolve_dispute,
    storage.add_to_total_staked, storage.add_dispute_vote in H.

Section Frames.
Context {W : Type} `{TokenLedger W} `{TicketPaymentInterface}.
Implicit Types (w : W).

Lemma store_series_frame s x :
  ∃ a b, storage.store_series s x = s ⟨ Series := a ⟩ ⟨ SeriesEvent := b ⟩.
Proof.
  unfold storage.store_series. generalize (sr_event_ids x). intros l.
  assert (Hg : ∀ t a b, t = s ⟨ Series := a ⟩ ⟨ SeriesEvent := b ⟩ →
    ∃ a' b', foldl (λ t i, t ⟨ SeriesEvent ::= <[(sr_series_id x, i) := true]> ⟩) t l
             = s ⟨ Series := a' ⟩ ⟨ SeriesEvent := b' ⟩).
  { induction l as [|i l IH]; intros t a b ->; simpl; [eauto|]. eapply IH. reflexivity. }
  apply (Hg _ (<[sr_series_id x := x]> (Series s)) (SeriesEvent s)). by destruct s.
Qed.

Lemma distribute_frame r t s l :
  ∃ m, foldl (Staking.distribute_step r t) s l = s ⟨ Stake := m ⟩.
Proof.
  assert (Hg : ∀ s1 m, s1 = s ⟨ Stake := m ⟩ →
    ∃ m', foldl (Staking.distribute_step r t) s1 l = s ⟨ Stake := m' ⟩).
  { induction l as [|a l IH]; intros s1 m ->; simpl; [eauto|].
    unfold Staking.distribute_step at 2. repeat case_match; eapply IH; reflexivity. }
  apply (Hg s (Stake s)). by destruct s.
Qed.

Lemma cleanup_frame now l s n s' n' :
  rfold (Governance.cleanup_step now) l (s, n) = Ok (s', n') →
  ∃ a, s' = s ⟨ ActiveProposals := a ⟩.
Proof.
  intros Hl. apply (rfold_ind _ (λ p, ∃ a, p.1 = s ⟨ ActiveProposals := a ⟩)) in Hl; [done| |].
  - exists (ActiveProposals s). by destruct s.
  - intros i [t m] [t' m'] _ (a & Ha) Hs. cbn in *. subst t.
    unfold Governance.cleanup_step in Hs. run_split Hs; simplify_eq; eauto.
Qed.

Lemma increment_usage_frame s p r s' :
  storage.increment_series_pass_usage s p = (r, s') →
  ∃ a b, s' = s ⟨ SeriesPasses := a ⟩ ⟨ HolderSeriesPass := b ⟩.
Proof.
  unfold storage.increment_series_pass_usage. intros Hi.
  repeat case_match; simplify_eq; [by repeat eexists| |];
    exists (SeriesPasses s'), (HolderSeriesPass s'); by destruct s'.
Qed.
End Frames.

(** Closes [view s' = view s] once the call has been opened. *)
Ltac same_view :=
  repeat match goal with
  | |- context [storage.store_series ?s ?x] => destruct (store_series_frame s x) as (?&?&->)
  | |- context [foldl (Staking.distribute_step ?r ?t) ?s ?l] =>
      destruct (distribute_frame r t s l) as (?&->)
  | H : ?x = (_, _) |- _ => is_var x; subst x
  | H : rfold (Governance.cleanup_step _) _ _ = Ok _ |- _ => apply cleanup_frame in H as (?&->)
  | H : storage.increment_series_pass_usage _ _ = _ |- _ =>
      apply increment_usage_frame in H as (?&?&->)
  end;
  unfold storage.add_active_proposal, storage.add_to_stakers_list;
  repeat case_match; reflexivity.

Section Blocks.
Context {W : Type} `{TokenLedger W} `{TicketPaymentInterface}.
Implicit Types (w : W).

(** Only the operations of the event block write events and their counter. *)
Lemma invoke_events_frame env c w s w' s' :
  invoke env c w s = Ok (w', s') → block_of c ≠ BEvents → events_view s' = events_view s.
Proof.
  intros Hi Hb. destruct c; try (by destruct Hb); open_call Hi; open_handler Hi;
    run_all; same_view.
Qed.

Lemma invoke_staking_frame env c w s w' s' :
  invoke env c w s = Ok (w', s') → block_of c ≠ BEvents → block_of c ≠ BStaking →
  staking_view s' = staking_view s.
Proof.
  intros Hi He Hb. destruct c; try (by destruct He); try (by destruct Hb);
    open_call Hi; open_handler Hi; run_all; same_view.
Qed.

(** Tokens move in staking operations only. *)
Lemma invoke_ledger_frame env c w s w' s' :
  invoke env c w s = Ok (w', s') → block_of c ≠ BStaking → w' = w.
Proof.
  intros Hi Hb. destruct c; try (by destruct Hb); cbn [invoke] in Hi; unfold keep in Hi;
    apply rbind_Ok in Hi as ([? ?] & _ & Hi); congruence.
Qed.

Lemma invoke_governance_frame env c w s w' s' :
  invoke env c w s = Ok (w', s') → block_of c ≠ BEvents → block_of c ≠ BGovernance →
  governance_view s' = governance_view s.
Proof.
  intros Hi He Hb. destruct c; try (by destruct He); try (by destruct Hb);
    open_call Hi; open_handler Hi; run_all; same_view.
Qed.

Lemma invoke_dispute_frame env c w s w' s' :
  invoke env c w s = Ok (w', s') → block_of c ≠ BEvents → block_of c ≠ BDispute →
  dispute_view s' = dispute_view s.
Proof.
  intros Hi He Hb. destruct c; try (by destruct He); try (by destruct Hb);
    open_call Hi; open_handler Hi; run_all; same_view.
Qed.

Lemma frame_others s s' : events_frame s s' → other_views s' = other_views s.
Proof. intros Hf. exact (f_equal other_views Hf). Qed.

Lemma suspend_frame l s n s' n' :
  rfold Events.suspend_step l (s, n) = Ok (s', n') → events_frame s s'.
Proof.
  intros Hl. apply (rfold_ind _ (λ p, events_frame s p.1)) in Hl; [done|done|].
  intros i [t m] [t' m'] _ Ht Hs. cbn in *. unfold Events.suspend_step in Hs.
  run_split Hs; simplify_eq; try done.
  etransitivity; [exact Ht|]. by eapply store_event_frame.
Qed.

Lemma receipt_others s r s' :
  storage.store_event_receipt s r = Ok s' → other_views s' = other_views s.
Proof. unfold storage.store_event_receipt. intros Hr. run_split Hr; done. Qed.

Lemma archive_others s i e r s' :
  Event s !! i = Some e → storage.store_event_receipt (storage.remove_event s i) r = Ok s' →
  other_views s' = other_views s.
Proof.
  intros He Hr. rewrite (receipt_others _ _ _ Hr).
  apply frame_others. by destruct (remove_event_spec s i e He) as (_ & _ & ?).
Qed.

(** Closes [other_views s' = other_views s] from the event writer the call ran. *)
Ltac by_frame :=
  repeat match goal with
  | H : ?x = (_, _) |- _ => is_var x; subst x
  | H : (if ?b then _ else _) = (_, _) |- _ => destruct b; injection H as; subst
  end;
  lazymatch goal with
  | H : storage.update_event ?t _ = Ok _ |- _ =>
      apply update_event_frame, frame_others in H; etransitivity; [exact H|]
  | H : storage.store_event _ _ = Ok _ |- _ =>
      apply store_event_frame, frame_others in H; etransitivity; [exact H|]
  | H : rfold Events.suspend_step _ _ = Ok _ |- _ =>
      apply suspend_frame, frame_others in H; etransitivity; [exact H|]
  | H : storage.store_event_receipt _ _ = Ok _ |- _ =>
      eapply archive_others in H; [|eassumption]; etransitivity; [exact H|]
  | |- _ => idtac
  end; repeat case_match; reflexivity.

(** The operations of the event block write no other block. *)
Lemma invoke_others_frame env c w s w' s' :
  invoke env c w s = Ok (w', s') → block_of c = BEvents → other_views s' = other_views s.
Proof.
  intros Hi Hb. destruct c; try discriminate Hb; open_call Hi;
    unfold Events.register_event, Events.update_event_status, Events.cancel_event,
      Events.archive_event, Events.update_metadata, Events.set_feedback_cid,
      Events.store_event, Events.set_resale_cap_bps, Events.set_custom_event_fee,
      Inventory.increment_inventory, Inventory.add_tier, Inventory.deactivate_tier,
      Inventory.decrement_inventory, Events.blacklist_organizer,
      Events.suspend_organizer_events, Events.postpone_event,
      Inventory.mint_cross_chain_ticket, Inventory.execute_teleport_mint in Hi;
    first [run Hi; solve [by_frame] | run_all; solve [by_frame]].
Qed.
End Blocks.

(** ** Reachable states *)
Section Reachability.
Context {W : Type} `{TokenLedger W} `{TicketPaymentInterface}.
(** [self] is the address the contract is deployed at; [allow] selects the
    entry points a history may use. *)
Context (self : Address) (allow : entry → bool).

(** The contract runs at [self], and no call carries the authorisation of
    the contract itself: it never invokes its own entry points. *)
Definition host_env (env : Env) : bool :=
  bool_decide (this env = self) && negb (authorized env self).

Inductive reachable : W → State → Prop :=
| reach_deploy w : (∀ tok, 0 ≤ balance w tok self) → reachable w empty_state
| reach_invoke env c w s w' s' :
    reachable w s → host_env env = true → allow c = true → well_typed c = true →
    invoke env c w s = Ok (w', s') → reachable w' s'
| reach_ledger w w' s :
    reachable w s → (∀ tok, balance w tok self ≤ balance w' tok self) → reachable w' s.

(** Runs a history; every state it ends in is reachable. *)
Definition run_history (w : W) (s : State) (h : list (Env * entry))
    : res EventRegistryError (W * State) :=
  rfold (λ ws ec, invoke ec.1 ec.2 ws.1 ws.2) h (w, s).

Definition history_ok (h : list (Env * entry)) : bool :=
  forallb (λ ec, host_env ec.1 && allow ec.2 && well_typed ec.2) h.

Lemma run_history_reachable h w s w' s' :
  reachable w s → history_ok h = true → run_history w s h = Ok (w', s') → reachable w' s'.
Proof.
  intros Hr Hok Hrun. unfold run_history in Hrun.
  apply (rfold_ind _ (λ ws, reachable ws.1 ws.2)) in Hrun; [done|done|].
  intros [env c] [w1 s1] [w2 s2] Hin Hp Hi. cbn in *.
  unfold history_ok in Hok. rewrite forallb_forall in Hok.
  specialize (Hok (env, c)). rewrite !andb_true_iff in Hok.
  destruct Hok as [[? ?] ?]; [by apply list_elem_of_In|].
  by eapply reach_invoke.
Qed.
End Reachability.

(** Every entry point but the legacy writer, or all of them. *)
Definition modern (c : entry) : bool := negb (legacy c).
Definition any_entry (c : entry) : bool := true.

(** The sum of the contributions counts the active public events. *)
Lemma count_active (m : gmap string EventInfo) :
  map_sum contrib m =
    Z.of_nat (size (filter (λ ie, ei_is_active ie.2 && negb (ei_is_private ie.2)) m)).
Proof.
  induction m as [|i e m Hi IH] using map_ind; [done|].
  rewrite map_sum_insert_new, IH by done. unfold contrib.
  destruct (ei_is_active e && negb (ei_is_private e)) eqn:Ha.
  - rewrite map_filter_insert_True by (by apply Is_true_true).
    rewrite map_size_insert_None by (apply map_lookup_filter_None; by left). lia.
  - rewrite map_filter_insert_False by (simpl; rewrite Ha; naive_solver).
    rewrite delete_id by done. lia.
Qed.

Section Event_invariants.
Context {W : Type} `{TokenLedger W} `{TicketPaymentInterface} (self : Address).
Implicit Types (w : W).

(** Every entry point but the legacy writer takes a good step. *)
Lemma invoke_good env c w s w' s' :
  keyed s → well_typed c = true → legacy c = false →
  invoke env c w s = Ok (w', s') → good_step s s'.
Proof.
  intros Hk Hw Hl Hi. destruct (decide (block_of c = BEvents)) as [Hb|Hb].
  - destruct c; try discriminate Hb; try discriminate Hl; open_call Hi;
      eauto using register_event_good, update_event_status_good, cancel_event_good,
        archive_event_good, update_metadata_good, set_feedback_cid_good,
        set_resale_cap_bps_good, set_custom_event_fee_good, add_tier_good,
        deactivate_tier_good, decrement_inventory_good, blacklist_organizer_good,
        postpone_event_good;
      apply in_u32_spec in Hw;
      [eapply increment_inventory_good|eapply mint_cross_chain_ticket_good]; eauto; lia.
  - apply revises_good; [done|]. apply revises_view. by eapply invoke_events_frame.
Qed.

(** What the good steps preserve, bundled for the induction. *)
Definition events_inv (s : State) : Prop :=
  keyed s ∧ counted s ∧ ∀ i e, Event s !! i = Some e → event_ok e.

Lemma good_step_inv s s' : events_inv s → good_step s s' → events_inv s'.
Proof.
  intros (Hk & Hc & Ho) [Hch Hk' Hc']. split_and!; [done|auto|].
  intros i e Hi. specialize (Hch i). rewrite Hi in Hch.
  inversion Hch as [|? Hn|e0 ? Hev Heq|]; subst; [done|].
  eapply ev_ok; [exact Hev|]. by eapply Ho.
Qed.

Lemma reachable_events_inv w s : reachable self modern w s → events_inv s.
Proof.
  induction 1 as [w _|env c w s w' s' _ IH _ Hm Hw Hi|]; [|..|done].
  - split_and!; [intros i e Hi|split; done|intros i e Hi]; cbn in Hi;
      by rewrite lookup_empty in Hi.
  - eapply good_step_inv; [exact IH|]. destruct IH as (Hk & _).
    eapply invoke_good; [done|done| |exact Hi]. by destruct c.
Qed.

(** C1. Inventory and life-cycle invariant: in every state that a history of
    entry points other than the legacy [store_event] can reach, each stored
    event has a non-negative supply, never sold more than [max_supply] when
    that is set, is inactive once cancelled, and its resale cap, custom fee
    and milestone plan stay within 100%. *)
Theorem reachable_event_ok w s i e :
  reachable self modern w s → Event s !! i = Some e →
  0 ≤ ei_current_supply e
  ∧ (0 < ei_max_supply e → ei_current_supply e ≤ ei_max_supply e)
  ∧ (ei_status e = StCancelled → ei_is_active e = false)
  ∧ from_option (λ c, c ≤ 10000) True (ei_resale_cap_bps e)
  ∧ from_option (λ c, c ≤ 10000) True (ei_custom_fee_bps e)
  ∧ released_bps e ≤ 10000.
Proof. intros (_ & _ & Ho)%reachable_events_inv Hi. by destruct (Ho i e Hi). Qed.

(** The platform-wide active-event counter is exact: in every reachable
    state it equals the number of stored events that are active and public. *)
Theorem reachable_active_count w s :
  reachable self modern w s →
  storage.get_global_active_event_count s =
    Z.of_nat (size (filter (λ ie, ei_is_active ie.2 && negb (ei_is_private ie.2)) (Event s))).
Proof. intros (_ & [Hc _] & _)%reachable_events_inv. by rewrite Hc, count_active. Qed.

(** One invocation, one record: an entry point other than the legacy
    [store_event] leaves the identity of a stored event alone (identifier,
    organizer, payment address, fee, supply cap, milestones, privacy, end
    time and accepted tokens), never revives a cancelled event, and removes
    a record only when the event is inactive. *)
Theorem invoke_event_evolution env c w s w' s' i e :
  reachable self modern w s → well_typed c = true → legacy c = false →
  invoke env c w s = Ok (w', s') → Event s !! i = Some e →
  match Event s' !! i with
  | Some e' => identity_of e' = identity_of e
               ∧ (ei_status e = StCancelled →
                  ei_status e' = StCancelled ∧ ei_is_active e' = false)
  | None => ei_is_active e = false
  end.
Proof.
  intros (Hk & _ & Ho)%reachable_events_inv Hw Hl Hi He.
  destruct (invoke_good _ _ _ _ _ _ Hk Hw Hl Hi) as [Hch _ _].
  specialize (Hch i). rewrite He in Hch.
  inversion Hch as [| |e0 e' Hev H1 H2|e0 Ha H1 H2]; subst; [|done].
  split; [apply Hev|]. intros Hs. pose proof (ev_cancelled _ _ Hev Hs).
  split; [done|]. apply (ok_cancelled e'); [|done]. eapply ev_ok; [exact Hev|].
  by eapply Ho.
Qed.
End Event_invariants.

(** ** Who may write an event *)

(** The parties whose authorisation lets an invocation change record [i]. *)
Inductive may_write (env : Env) (s s' : State) (i : string) (c : entry) : Prop :=
| by_organizer e :
    Event s !! i = Some e → authorized env (ei_organizer_address e) = true →
    may_write env s s' i c
| by_new_organizer e :
    Event s !! i = None → Event s' !! i = Some e →
    authorized env (ei_organizer_address e) = true → may_write env s s' i c
| by_admin a : Admin s = Some a → authorized env a = true → may_write env s s' i c
| by_payment_contract a :
    TicketPaymentContract s = Some a → authorized env a = true → may_write env s s' i c
| by_relayers chain h r t sg j q cfg :
    c = MintCrossChainTicket chain h r t sg j q → Bridge s = Some cfg →
    br_threshold cfg ≤ Z.of_nat (length sg) → Teleport s !! h ≠ Some true →
    may_write env s s' i c.

Section Access.
Context {W : Type} `{TokenLedger W} `{TicketPaymentInterface}.
Implicit Types (w : W).

Lemma changed_key (m m' : gmap string EventInfo) i j e :
  m' = <[j := e]> m → m' !! i ≠ m !! i → i = j.
Proof. intros -> Hne. destruct (decide (i = j)); [done|]. by rewrite lookup_insert_ne in Hne. Qed.

(** Turns the writer a handler ran into [i = ei_event_id e']. *)
Ltac changed Hne :=
  lazymatch goal with
  | H : storage.update_event _ _ = Ok _ |- _ =>
      apply update_event_Event in H; eapply changed_key in Hne; [|exact H]
  | H : storage.store_event _ _ = Ok _ |- _ =>
      apply store_event_Event in H; eapply changed_key in Hne; [|exact H]
  end.

Ltac organizers :=
  repeat match goal with
  | H : auth.require_organizer _ _ _ _ = Ok _ |- _ =>
      apply auth.require_organizer_Ok in H as (? & ? & ? & ?)
  | H : auth.require_admin _ _ = Ok _ |- _ => apply auth.require_admin_Ok in H as [? ?]
  end; auths.

Lemma increment_writes env s i u t q tok s' :
  Inventory.increment_inventory env s i t u q tok = Ok (tt, s') →
  ∃ a, TicketPaymentContract s = Some a ∧ authorized env a = true.
Proof. unfold Inventory.increment_inventory. intros Hi. run Hi. auths. eauto. Qed.

Lemma archive_changes env s k s' i :
  Events.archive_event env s k = Ok (tt, s') → Event s' !! i ≠ Event s !! i →
  i = k ∧ ∃ e, Event s !! k = Some e ∧ authorized env (ei_organizer_address e) = true.
Proof.
  unfold Events.archive_event, storage.get_event. intros Hi Hne. run_split Hi. organizers.
  split; [|eauto]. destruct (remove_event_spec s k e E) as (Hev & _ & _).
  apply store_event_receipt_view in E2 as [= He2 _]. cbn in *.
  change (Event (emit x1 _)) with (Event x1) in Hne. rewrite He2, Hev in Hne.
  destruct (decide (i = k)); [done|]. by rewrite lookup_delete_ne in Hne.
Qed.

End Access.
