(* ===== verification/RegSafety.v ===== *)
(** * Event registry: staking and solvency over histories

    The invariants of [RegStaking] lifted to every reachable state. *)

From S2P Require Import Prelude Machine Host RegTypes RegStorage RegGuards.
From S2P Require Import RegEvents RegInventory RegStaking RegGovernance RegDispute RegLifecycle.
From S2P Require Import RegSystem.

(** Histories in which the administrator configures one staking token only. *)
Definition fixed_token (tok : Address) (c : entry) : bool :=
  match c with SetStakingConfig t _ => bool_decide (t = tok) | _ => true end.

Section Staking_safety.
Context {W : Type} `{TokenLaws W} `{TicketPaymentInterface} (self : Address).
Implicit Types (w : W) (s : State).

Lemma other_staking_frame env c w s w' s' :
  invoke env c w s = Ok (w', s') → block_of c ≠ BStaking → staking_view s' = staking_view s.
Proof.
  intros Hi Hb. destruct (decide (block_of c = BEvents)) as [He|He].
  - apply invoke_others_frame in Hi; [|done]. exact (f_equal (λ v, v.1.1) Hi).
  - by eapply invoke_staking_frame.
Qed.

Lemma set_staking_config_Ok env s t n s' :
  Staking.set_staking_config env s t n = Ok (tt, s') →
  StakingToken s' = Some t ∧ Stake s' = Stake s ∧ TotalStaked s' = TotalStaked s
  ∧ StakersList s' = StakersList s.
Proof. unfold Staking.set_staking_config. intros Hs. by run Hs. Qed.

Lemma invoke_stake_inv env c w s w' s' :
  stake_inv s → invoke env c w s = Ok (w', s') → stake_inv s'.
Proof.
  intros Hs Hi. destruct (decide (block_of c = BStaking)) as [Hb|Hb].
  - destruct c; try discriminate Hb; open_call Hi.
    + apply set_staking_config_Ok in Hi as (_ & ? & ? & ?). by eapply stake_inv_view.
    + by eapply stake_collateral_inv.
    + by eapply unstake_collateral_inv.
    + by eapply distribute_inv.
    + by eapply claim_inv.
  - apply other_staking_frame in Hi; [|done]. injection Hi as Hs1 Hs2 Hs3 _.
    by eapply stake_inv_view.
Qed.

Lemma reachable_stake_inv allow w s : reachable self allow w s → stake_inv s.
Proof.
  induction 1 as [w _|env c w s w' s' _ IH _ _ _ Hi|]; [apply stake_inv_empty| |done].
  by eapply invoke_stake_inv.
Qed.

Lemma host_env_spec env : host_env self env = true → this env = self ∧ authorized env self = false.
Proof. unfold host_env. intros Hh. bool_props. auto. Qed.

Lemma invoke_solvent tok env c w s w' s' :
  host_env self env = true → fixed_token tok c = true → stake_inv s → solvent self tok w s →
  invoke env c w s = Ok (w', s') → solvent self tok w' s'.
Proof.
  intros [Ht Ha]%host_env_spec Hf Hs Hsol Hi.
  destruct (decide (block_of c = BStaking)) as [Hb|Hb].
  - destruct c; try discriminate Hb; open_call Hi.
    + apply set_staking_config_Ok in Hi as (Hst & HS & _ & _). cbn in Hf. bool_props. subst.
      destruct Hsol as (_ & Hk & Hbal). unfold solvent. rewrite HS, Hst. naive_solver.
    + by eapply stake_solvent.
    + by eapply unstake_solvent.
    + by eapply distribute_solvent.
    + by eapply claim_solvent.
  - pose proof (invoke_ledger_frame _ _ _ _ _ _ Hi Hb) as ->.
    apply other_staking_frame in Hi; [|done]. injection Hi as HS _ _ HT.
    unfold solvent in *. by rewrite HS, HT.
Qed.

(** Staking bookkeeping: in every reachable state, whatever entry points
    the history used, the recorded total is the sum of the individual
    stakes, the list of stakers has no duplicates and enumerates exactly the
    stake records, each record is kept under its organizer with a positive
    amount and a non-negative reward balance. *)
Theorem reachable_staking_exact allow w s :
  reachable self allow w s →
  storage.get_total_staked s = map_sum os_amount (Stake s)
  ∧ NoDup (storage.get_stakers_list s)
  ∧ (∀ a, a ∈ storage.get_stakers_list s ↔ is_Some (Stake s !! a))
  ∧ (∀ a st, Stake s !! a = Some st →
       os_organizer st = a ∧ 0 < os_amount st ∧ 0 ≤ os_reward_balance st).
Proof. intros Hr. by destruct (reachable_stake_inv allow w s Hr). Qed.

(** C2. Solvency: as long as the administrator keeps one staking token, the
    contract's balance of it covers every staker's collateral and unclaimed
    rewards together, in every reachable state. *)
Theorem reachable_solvent tok w s :
  reachable self (fixed_token tok) w s → map_sum owed (Stake s) ≤ balance w tok self.
Proof.
  intros Hr. enough (solvent self tok w s) as (_ & _ & ?) by done.
  induction Hr as [w Hw|env c w s w' s' Hr IH Hh Hf _ Hi|w w' s Hr IH Hle].
  - split_and!; [done|..]; cbn; [|by rewrite map_sum_empty].
    intros a st. by rewrite lookup_empty.
  - eapply invoke_solvent; [done|done|by eapply reachable_stake_inv|done|exact Hi].
  - destruct IH as (? & ? & ?). split_and!; [done|done|]. specialize (Hle tok). lia.
Qed.

Lemma credit_exact r t st :
  0 ≤ r → 0 < t → 0 ≤ os_amount st → r * os_amount st ≤ i128_max →
  0 ≤ os_reward_balance st → os_reward_balance st + r * os_amount st / t ≤ i128_max →
  credit r t st = st ⟨ os_reward_balance := os_reward_balance st + r * os_amount st / t ⟩.
Proof.
  intros Hr Ht Ha Hm Hb Hs. pose proof (Z.div_pos (r * os_amount st) t ltac:(nia) Ht).
  assert (Hdiv : r * os_amount st / t ≤ r * os_amount st) by (apply Z.div_le_upper_bound; nia).
  assert (Hsh : Staking.reward_share r t (os_amount st) = r * os_amount st / t).
  { unfold Staking.reward_share, mul_div, checked_div, checked_i128.
    rewrite (proj2 (in_i128_spec _)) by (unfold i128_min; nia).
    destruct (Z.eqb_spec t 0); [lia|]. rewrite Z.quot_div_nonneg by nia.
    by rewrite (proj2 (in_i128_spec _)) by (unfold i128_min; lia). }
  unfold credit. rewrite Hsh. destruct (Z.ltb_spec 0 (r * os_amount st / t)).
  - rewrite sat_i128_id; [done|unfold i128_min; lia].
  - replace (r * os_amount st / t) with 0 by lia. rewrite Z.add_0_r. by destruct st.
Qed.

(** Rewards are split in proportion to the stakes: when the products fit
    the width, a distribution adds [total_reward * stake / total_staked],
    rounded down, to every staker's reward balance, changes nothing else of
    the records, hands out at most the deposit and keeps back less than one
    unit per staker. *)
Theorem distribute_proportional allow env w s c r w' s' :
  reachable self allow w s →
  Staking.distribute_staker_rewards env w s c r = Ok (w', s') →
  r * storage.get_total_staked s ≤ i128_max → map_sum owed (Stake s) + r ≤ i128_max →
  let share st := r * os_amount st / storage.get_total_staked s in
  Stake s' = (λ st, st ⟨ os_reward_balance := os_reward_balance st + share st ⟩) <$> Stake s
  ∧ map_sum share (Stake s) ≤ r ≤ map_sum share (Stake s) + Z.of_nat (size (Stake s)).
Proof.
  intros Hs%reachable_stake_inv (tok & _ & _ & Hr & _ & Hn & _ & ->)%distribute_Ok Hm Ho share.
  pose proof (total_pos s Hs Hn) as Hp. pose proof (si_total _ Hs) as Ht. split.
  - cbn. rewrite distribute_all by done. apply map_fmap_ext. intros a st Hst.
    destruct (si_record _ Hs a st Hst) as (_ & Ha & Hb).
    pose proof (map_sum_member os_amount _ _ _ (amounts_pos s Hs) Hst).
    assert (owed st ≤ map_sum owed (Stake s)).
    { eapply map_sum_member; [|exact Hst]. intros b x Hx. unfold owed.
      destruct (si_record _ Hs b x Hx). lia. }
    apply credit_exact; try lia; [nia|]. unfold owed in *.
    assert (r * os_amount st / storage.get_total_staked s ≤ r); [|lia].
    apply Z.div_le_upper_bound; nia.
  - pose proof (map_sum_shares r _ os_amount (Stake s) Hp) as Hle.
    pose proof (map_sum_shares_dust r _ os_amount (Stake s) Hp) as Hdu.
    rewrite <- Ht, Z.div_mul in Hle, Hdu by lia. subst share. lia.
Qed.
End Staking_safety.
