(* ===== verification/RegGovSafety.v ===== *)
(** * Event registry: governance over histories

    The invariants of [RegGovernance] lifted to every reachable state, and
    what a successful execution needed. *)

From S2P Require Import Prelude Machine Host RegTypes RegStorage.
From S2P Require Import RegGuards RegEvents RegInventory RegStaking RegGovernance RegDispute.
From S2P Require Import RegLifecycle RegSystem.

(** The proposal [set_platform_fee] consumes. *)
Lemma find_fee_proposal_Some s threshold now fee l i :
  Events.find_fee_proposal s threshold now fee l = Some i →
  i ∈ l ∧ ∃ p, Proposals s !! i = Some p ∧ open_proposal p = true ∧ now ≤ pp_expires_at p
    ∧ pp_change p = SetPlatformFee fee ∧ threshold ≤ Z.of_nat (length (pp_approvals p)).
Proof.
  induction l as [|j l IH]; simpl; [done|]. unfold storage.get_proposal.
  destruct (Proposals s !! j) as [p|] eqn:Hp; [|intros ?; destruct IH; [done|]; split; [by right|done]].
  destruct (pp_executed p || pp_cancelled p || (pp_expires_at p <? now)) eqn:Hc.
  { intros ?; destruct IH; [done|]; split; [by right|done]. }
  bool_props. destruct (pp_change p) eqn:Hch;
    try (intros ?; destruct IH; [done|]; split; [by right|done]).
  destruct ((fee0 =? fee) && _) eqn:Hf;
    [|intros ?; destruct IH; [done|]; split; [by right|done]].
  intros [= ->]. bool_props. split; [by left|]. exists p. unfold open_proposal.
  apply Z.eqb_eq in H2 as ->. rewrite H, H1. split_and!; try done; lia.
Qed.

(** What a successful [set_platform_fee] needed. *)
Lemma set_platform_fee_Ok env s fee s' :
  Events.set_platform_fee env s fee = Ok (tt, s') →
  ∃ a cfg, Admin s = Some a ∧ authorized env a = true ∧ fee ≤ 10000 ∧ MultiSig s = Some cfg
    ∧ PlatformFee s' = Some fee
    ∧ ((msc_threshold cfg ≤ 1 ∧ governance_view s' = governance_view s)
       ∨ (1 < msc_threshold cfg ∧ ∃ i p,
            i ∈ storage.get_active_proposals s ∧ Proposals s !! i = Some p
            ∧ open_proposal p = true ∧ timestamp env ≤ pp_expires_at p
            ∧ pp_change p = SetPlatformFee fee
            ∧ msc_threshold cfg ≤ Z.of_nat (length (pp_approvals p))
            ∧ governance_view s' = governance_view
                (storage.remove_active_proposal
                   (storage.set_proposal s (p ⟨ pp_executed := true ⟩)) i))).
Proof.
  unfold Events.set_platform_fee. intros H. run H.
  apply auth.require_admin_Ok in E as [Ha Hau].
  exists x, x1. split_and!; try done; [lia|].
  destruct (Z.ltb_spec 1 (msc_threshold x1)) as [Hlt|Hle].
  - right. split; [done|]. run E2. apply find_fee_proposal_Some in E as (Hin & p & Hp & ?).
    unfold storage.get_proposal in E3. rewrite Hp in E3. injection E3 as <-.
    exists x0, p. destruct H as (?&?&?&?). split_and!; try done.
  - left. run E2. auto.
Qed.

Lemma closed_refuses s i p :
  Proposals s !! i = Some p → pp_executed p = true →
  ∀ env b, is_ok (Governance.execute_proposal env s b i) = false
           ∧ is_ok (Governance.approve_proposal env s b i) = false
           ∧ is_ok (Governance.cancel_proposal env s b i) = false.
Proof.
  intros Hp He env b. unfold Governance.execute_proposal, Governance.approve_proposal,
    Governance.cancel_proposal, storage.get_proposal. rewrite Hp.
  unfold require_auth, fail_if, ok_or, rbind.
  split_and!; repeat (case_match; try done); congruence.
Qed.

Section Gov_safety.
Context {W : Type} `{TokenLedger W} `{TicketPaymentInterface} (self : Address)
  (allow : entry → bool).
Implicit Types (w : W) (s : State).

Lemma set_platform_fee_step env s fee s' :
  gov_inv s → Events.set_platform_fee env s fee = Ok (tt, s') → gov_step s s'.
Proof.
  intros Hg (a & cfg & _ & _ & _ & _ & _ & [[_ Hv]|(_ & i & p & _ & Hp & Ho & _ & _ & _ & Hv)])
    %set_platform_fee_Ok; injection Hv as _ H1 H2 H3.
  - by apply gov_step_same.
  - destruct (close_proposal_step s Hg i p _ s Hp Ho (or_introl eq_refl) eq_refl eq_refl eq_refl)
      as [Hinv Hev].
    split.
    + destruct Hinv. split; unfold storage.get_proposal_counter,
        storage.get_active_proposals in *; rewrite ?H1, ?H2, ?H3; done.
    + rewrite H2. exact Hev.
Qed.

Lemma initialize_gov env s a b n c s' :
  gov_inv s → Events.initialize env s a b n c = Ok (tt, s') → gov_step s s'.
Proof. unfold Events.initialize. intros Hg Hi. run Hi. by apply gov_step_same. Qed.

Lemma cleanup_gov env s n s' :
  gov_inv s → Governance.cleanup_expired_proposals env s = Ok (n, s') → gov_step s s'.
Proof.
  unfold Governance.cleanup_expired_proposals. intros Hg Hi. run_all. simplify_eq.
  match goal with H : rfold _ _ _ = Ok _ |- _ =>
    pose proof (cleanup_frame _ _ _ _ _ _ H) as (act & Hs);
    apply (rfold_ind _ (λ p, gov_inv p.1)) in H end.
  - cbn in *. split; [done|]. rewrite Hs. cbn. eauto using proposal_evolves_refl.
  - done.
  - intros i [t m] [t' m'] _ Ht Hst. cbn in *.
    by destruct (cleanup_step_prune _ _ _ _ _ _ Ht Hst).
Qed.

Lemma invoke_gov_step env c w s w' s' :
  gov_inv s → invoke env c w s = Ok (w', s') → gov_step s s'.
Proof.
  intros Hg Hi. destruct (decide (block_of c = BGovernance)) as [Hb|Hb].
  - destruct c; try discriminate Hb; open_call Hi;
      eauto using initialize_gov, set_platform_fee_step, approve_step, execute_step,
        cancel_step, cleanup_gov.
    by apply propose_step in Hi as (_ & _ & _ & ?).
  - assert (Hv : governance_view s' = governance_view s).
    { destruct (decide (block_of c = BEvents)) as [He|He].
      - apply invoke_others_frame in Hi; [|done]. exact (f_equal (λ v, v.1.2) Hi).
      - by eapply invoke_governance_frame. }
    injection Hv as _ H1 H2 H3. by apply gov_step_same.
Qed.

Lemma reachable_gov_inv w s : reachable self allow w s → gov_inv s.
Proof.
  induction 1 as [w _|env c w s w' s' _ IH _ _ _ Hi|]; [apply gov_inv_empty| |done].
  by destruct (invoke_gov_step _ _ _ _ _ _ IH Hi).
Qed.

(** Proposal bookkeeping: in every reachable state each proposal is
    stored under its own number below the counter, was approved by its
    proposer and by distinct addresses only, and is never both executed and
    cancelled; the active list has no duplicates and lists only proposals
    that are neither executed nor cancelled. *)
Theorem reachable_proposals_ok w s :
  reachable self allow w s →
  (∀ i p, Proposals s !! i = Some p →
     pp_proposal_id p = i ∧ 0 ≤ i < storage.get_proposal_counter s
     ∧ NoDup (pp_approvals p) ∧ pp_proposer p ∈ pp_approvals p
     ∧ ¬ (pp_executed p = true ∧ pp_cancelled p = true))
  ∧ NoDup (storage.get_active_proposals s)
  ∧ (∀ i, i ∈ storage.get_active_proposals s →
       ∃ p, Proposals s !! i = Some p ∧ pp_executed p = false ∧ pp_cancelled p = false).
Proof.
  intros [_ Hp Hn Ha]%reachable_gov_inv. split_and!; [|done|].
  - intros i p Hi. by destruct (Hp i p Hi).
  - intros i Hi. destruct (Ha i Hi) as (p & ? & Ho). exists p. unfold open_proposal in Ho.
    bool_props. auto.
Qed.

(** Proposals are immutable but for approvals, and closing is final:
    across any invocation a stored proposal keeps its number, proposer,
    change and deadlines, its approvals only grow at the end, and once it is
    executed or cancelled the record never changes again. *)
Theorem invoke_proposal_evolution env c w s w' s' i p :
  reachable self allow w s → invoke env c w s = Ok (w', s') → Proposals s !! i = Some p →
  ∃ p', Proposals s' !! i = Some p'
    ∧ pp_proposer p' = pp_proposer p ∧ pp_change p' = pp_change p
    ∧ pp_expires_at p' = pp_expires_at p
    ∧ pp_approvals p `prefix_of` pp_approvals p'
    ∧ (pp_executed p = true ∨ pp_cancelled p = true → p' = p).
Proof.
  intros Hg%reachable_gov_inv Hi Hp.
  destruct (gs_evolves _ _ (invoke_gov_step _ _ _ _ _ _ Hg Hi) i p Hp) as (p' & Hp' & [Hc Ha Hcl]).
  injection Hc as _ H1 H2 _ H4. exists p'. split_and!; try done.
  intros Hclosed. apply Hcl. unfold open_proposal.
  destruct Hclosed as [-> | ->]; [done|apply andb_false_r].
Qed.

(** C3. Execution needs a quorum and happens once: a successful
    [execute_proposal] was signed by a current administrator, found the
    proposal open and unexpired with at least [threshold] approvals from
    distinct addresses, applied exactly the proposed change, and left the
    proposal closed and off the active list, so that executing, approving or
    cancelling it later is refused. *)
Theorem execute_needs_quorum env w s a i s' :
  reachable self allow w s → Governance.execute_proposal env s a i = Ok (tt, s') →
  ∃ cfg p, MultiSig s = Some cfg ∧ a ∈ msc_admins cfg ∧ authorized env a = true
    ∧ Proposals s !! i = Some p ∧ pp_executed p = false ∧ pp_cancelled p = false
    ∧ timestamp env ≤ pp_expires_at p
    ∧ NoDup (pp_approvals p) ∧ msc_threshold cfg ≤ Z.of_nat (length (pp_approvals p))
    ∧ s' = storage.remove_active_proposal
             (storage.set_proposal (Governance.apply_change s cfg (pp_change p))
                (p ⟨ pp_executed := true ⟩)) i
    ∧ ¬ (i ∈ storage.get_active_proposals s')
    ∧ ∀ env' b, is_ok (Governance.execute_proposal env' s' b i) = false
                ∧ is_ok (Governance.approve_proposal env' s' b i) = false
                ∧ is_ok (Governance.cancel_proposal env' s' b i) = false.
Proof.
  intros Hg%reachable_gov_inv Hx. pose proof Hx as Hx'.
  unfold Governance.execute_proposal, storage.get_proposal in Hx'. run Hx'. auths.
  destruct (gi_props _ Hg _ _ E2) as [Hid _ Hn _ _].
  exists x0, x2. split_and!; try done; try lia; [by apply remove_active_sub|].
  eapply closed_refuses; [cbn; rewrite Hid; apply lookup_insert_eq|done].
Qed.

(** Under multi-signature control the fee changes only by consensus: when
    the threshold exceeds one, a successful [set_platform_fee] consumed an
    active, unexpired proposal for exactly that fee with at least
    [threshold] distinct approvals, which is executed and off the active
    list afterwards; the fee is at most 100%. *)
Theorem platform_fee_needs_quorum env w s fee s' cfg :
  reachable self allow w s → MultiSig s = Some cfg → 1 < msc_threshold cfg →
  Events.set_platform_fee env s fee = Ok (tt, s') →
  fee ≤ 10000 ∧ storage.get_platform_fee s' = fee ∧
  ∃ i p, i ∈ storage.get_active_proposals s ∧ Proposals s !! i = Some p
    ∧ pp_change p = SetPlatformFee fee ∧ timestamp env ≤ pp_expires_at p
    ∧ NoDup (pp_approvals p) ∧ msc_threshold cfg ≤ Z.of_nat (length (pp_approvals p))
    ∧ Proposals s' !! i = Some (p ⟨ pp_executed := true ⟩)
    ∧ ¬ (i ∈ storage.get_active_proposals s').
Proof.
  intros Hg%reachable_gov_inv Hcfg Ht (a & cfg' & _ & _ & Hf & Hcfg' & Hfee & Hcase)%set_platform_fee_Ok.
  simplify_eq. split; [done|]. split; [unfold storage.get_platform_fee; by rewrite Hfee|].
  destruct Hcase as [[? _]|(_ & i & p & Hin & Hp & Ho & He & Hch & Hq & Hv)]; [lia|].
  destruct (gi_props _ Hg _ _ Hp) as [Hid _ Hn _ _].
  injection Hv as _ _ H2 H3. exists i, p. split_and!; try done.
  - rewrite H2. cbn. rewrite Hid. apply lookup_insert_eq.
  - unfold storage.get_active_proposals at 1. rewrite H3.
    apply (remove_active_sub (storage.set_proposal s (p ⟨ pp_executed := true ⟩)) i).
Qed.
End Gov_safety.

(** ** Event registry: disputes over histories

    The tally invariant of [RegDispute] lifted to every reachable state, the
    outcome of a resolution, and the finality of votes and outcomes. *)

Definition resolved (d : Dispute) : bool :=
  bool_decide (dp_status d = DsResolvedBuyer) || bool_decide (dp_status d = DsResolvedOrganizer).

Lemma tally_split votes :
  Z.of_nat (length votes) = tally BuyerFavor votes + tally OrganizerFavor votes.
Proof.
  induction votes as [|[] votes IH] using rev_ind; [done|..];
    rewrite length_app, !tally_snoc; simpl; lia.
Qed.

Section Dispute_safety.
Context {W : Type} `{TokenLedger W} `{TicketPaymentInterface} (self : Address)
  (allow : entry → bool).
Implicit Types (w : W) (s : State).

Lemma other_dispute_frame env c w s w' s' :
  invoke env c w s = Ok (w', s') → block_of c ≠ BDispute → dispute_view s' = dispute_view s.
Proof.
  intros Hi Hb. destruct (decide (block_of c = BEvents)) as [He|He].
  - apply invoke_others_frame in Hi; [|done]. exact (f_equal snd Hi).
  - by eapply invoke_dispute_frame.
Qed.

Lemma invoke_dispute_inv env c w s w' s' :
  dispute_inv s → invoke env c w s = Ok (w', s') → dispute_inv s'.
Proof.
  intros Hd Hi. destruct (decide (block_of c = BDispute)) as [Hb|Hb].
  - destruct c; try discriminate Hb; open_call Hi;
      eauto using open_dispute_inv, vote_on_dispute_inv, resolve_dispute_inv.
  - apply other_dispute_frame in Hi; [|done]. injection Hi as H1 H2 H3 H4.
    intros i. destruct (Hd i) as (l & Hl). exists l.
    eapply (voters_inv_same s); [by rewrite H1|by rewrite H2| |done].
    unfold storage.get_dispute_vote_count. rewrite H3, H4. apply Hl.
Qed.

Lemma reachable_dispute_inv w s : reachable self allow w s → dispute_inv s.
Proof.
  induction 1 as [w _|env c w s w' s' _ IH _ _ _ Hi|]; [apply dispute_inv_empty| |done].
  by eapply invoke_dispute_inv.
Qed.

Lemma reachable_tallied w s i d :
  reachable self allow w s → Disputes s !! i = Some d →
  tallied i (storage.get_dispute_votes s i) d
  ∧ storage.get_dispute_vote_count s i = dp_total_votes d.
Proof.
  intros Hd%reachable_dispute_inv Hi. destruct (Hd i) as (l & Hl).
  rewrite (get_dispute_votes_list _ _ _ Hl). pose proof (vi_record _ _ _ Hl) as Hr.
  rewrite Hi in Hr. split; [done|]. rewrite (ta_total _ _ _ Hr).
  destruct (vi_sharded _ _ _ Hl) as [-> _]. f_equal. unfold votes_of.
  pose proof (vi_votes _ _ _ Hl) as Hv. clear -Hv. revert Hv.
  generalize (DisputeVotes s). intros m Hv.
  assert (Hall : ∀ v, v ∈ l → is_Some (m !! (i, v))) by naive_solver. clear Hv.
  induction l as [|v l IH]; [done|]. simpl.
  destruct (Hall v ltac:(left)) as [x ->]. simpl. f_equal. apply IH.
  intros u Hu. apply Hall. by right.
Qed.

(** C7. Tallies are exact: in every reachable state the counters of a dispute
    record are the numbers of buyer and organizer votes that the sharded
    vote list returns, they add up to the total, and the stored vote count
    agrees. *)
Theorem reachable_tally_exact w s i d :
  reachable self allow w s → Disputes s !! i = Some d →
  let votes := storage.get_dispute_votes s i in
  dp_buyer_votes d = tally BuyerFavor votes
  ∧ dp_organizer_votes d = tally OrganizerFavor votes
  ∧ dp_total_votes d = dp_buyer_votes d + dp_organizer_votes d
  ∧ storage.get_dispute_vote_count s i = dp_total_votes d.
Proof.
  intros Hr Hi. destruct (reachable_tallied w s i d Hr Hi) as [[_ Ht Hb Ho _] Hc].
  cbv zeta. pose proof (tally_split (storage.get_dispute_votes s i)).
  split_and!; [done|done|lia|done].
Qed.

(** One vote per address, for good: a recorded vote survives every later
    invocation unchanged, and the address cannot vote on that dispute again. *)
Theorem vote_is_final env c w s w' s' i a v :
  reachable self allow w s → DisputeVotes s !! (i, a) = Some v →
  invoke env c w s = Ok (w', s') →
  DisputeVotes s' !! (i, a) = Some v
  ∧ ∀ env' v', is_ok (dispute.vote_on_dispute env' s' i a v') = false.
Proof.
  intros _ Hv Hi.
  assert (Hs : DisputeVotes s' !! (i, a) = Some v).
  { destruct (decide (block_of c = BDispute)) as [Hb|Hb].
    - destruct c; try discriminate Hb; open_call Hi.
      + unfold dispute.open_dispute in Hi. by run Hi.
      + apply vote_on_dispute_Ok in Hi as (d & d' & _ & _ & _ & _ & Hn & _ & _ & _ & _
          & _ & _ & _ & _ & HV & _). rewrite HV, lookup_insert_ne; [done|congruence].
      + unfold dispute.resolve_dispute in Hi. run_split Hi; by simplify_eq.
    - apply other_dispute_frame in Hi; [|done]. injection Hi as _ H2 _ _. by rewrite H2. }
  split; [done|]. intros env' v'.
  destruct (dispute.vote_on_dispute env' s' i a v') as [[[] t]| |] eqn:Hvote; [|done..].
  apply vote_on_dispute_Ok in Hvote as (d & d' & _ & _ & _ & _ & Hn & _). congruence.
Qed.

Lemma resolve_spec env w s i d r s' :
  reachable self allow w s → Disputes s !! i = Some d → resolved d = false →
  dispute.resolve_dispute env s i = Ok (r, s') →
  dp_closes_at d < timestamp env
  ∧ r = (if dp_organizer_votes d <? dp_buyer_votes d then DsResolvedBuyer
         else DsResolvedOrganizer)
  ∧ Disputes s' = <[i := d ⟨ dp_status := r ⟩]> (Disputes s).
Proof.
  intros Hr Hi Hn Hres. destruct (reachable_tallied w s i d Hr Hi) as [[Hid Ht Hb Ho Hq] _].
  pose proof (tally_split (storage.get_dispute_votes s i)) as Hsum.
  unfold dispute.resolve_dispute, storage.get_dispute in Hres. rewrite Hi in Hres.
  cbn [rbind ok_or] in Hres.
  unfold resolved in Hn. rewrite Hn in Hres. run Hres. checked. simplify_eq.
  split; [lia|].
  assert (Hb0 : 0 ≤ dp_buyer_votes d) by (rewrite Hb; unfold tally; lia).
  assert (Ho0 : 0 ≤ dp_organizer_votes d) by (rewrite Ho; unfold tally; lia).
  assert (Hquorum : dp_organizer_votes d < dp_buyer_votes d →
    3000 ≤ dp_buyer_votes d * 10000 / dp_total_votes d).
  { intros ?. apply Z.div_le_lower_bound; lia. }
  rewrite Hq. unfold dispute.DEFAULT_QUORUM_BPS.
  destruct (Z.ltb_spec (dp_organizer_votes d) (dp_buyer_votes d)).
  - destruct (Z.ltb_spec 0 (dp_total_votes d)); [|lia].
    destruct (Z.leb_spec 3000 (dp_buyer_votes d * 10000 / dp_total_votes d)); [|lia].
    done.
  - by rewrite andb_false_r.
Qed.

(** The outcome of a dispute is the majority: resolving an unresolved
    dispute after voting closed rules for the buyers exactly when they have
    strictly more votes (the 30% quorum test never decides), records that
    ruling and changes nothing else of the dispute. *)
Theorem resolve_by_majority env w s i d r s' :
  reachable self allow w s → Disputes s !! i = Some d → resolved d = false →
  dispute.resolve_dispute env s i = Ok (r, s') →
  dp_closes_at d < timestamp env
  ∧ r = (if dp_organizer_votes d <? dp_buyer_votes d then DsResolvedBuyer
         else DsResolvedOrganizer)
  ∧ Disputes s' = <[i := d ⟨ dp_status := r ⟩]> (Disputes s).
Proof. apply resolve_spec. Qed.

(** Resolution after the deadline fails in one case only: it succeeds
    whenever the buyers have at most 429,496 votes and is refused with
    [SupplyOverflow] beyond that, because the tally is scaled in 32 bits. *)
Theorem resolve_dispute_total env w s i d :
  reachable self allow w s → Disputes s !! i = Some d → dp_closes_at d < timestamp env →
  resolved d = false →
  if dp_buyer_votes d <=? 429496 then is_ok (dispute.resolve_dispute env s i) = true
  else dispute.resolve_dispute env s i = Err SupplyOverflow.
Proof.
  intros Hr Hi Hc Hn. destruct (reachable_tallied w s i d Hr Hi) as [[_ _ Hb _ _] _].
  assert (Hb0 : 0 ≤ dp_buyer_votes d) by (rewrite Hb; unfold tally; lia).
  unfold dispute.resolve_dispute, storage.get_dispute. rewrite Hi. cbn.
  destruct (Z.leb_spec (timestamp env) (dp_closes_at d)); [lia|]. cbn.
  unfold resolved in Hn. rewrite Hn. unfold checked_u32.
  destruct (Z.leb_spec (dp_buyer_votes d) 429496).
  - by rewrite (proj2 (in_u32_spec _)) by (unfold u32_max; lia).
  - destruct (in_u32 (dp_buyer_votes d * 10000)) eqn:Hu; [|done].
    apply in_u32_spec in Hu. unfold u32_max in Hu. lia.
Qed.

(** A ruling is final: once resolved, a dispute's record is never changed
    by any invocation, no vote is accepted, and resolving again after the
    deadline returns the same ruling. *)
Theorem ruling_is_final env c w s w' s' i d :
  reachable self allow w s → Disputes s !! i = Some d → resolved d = true →
  invoke env c w s = Ok (w', s') →
  Disputes s' !! i = Some d
  ∧ (∀ env' a v, is_ok (dispute.vote_on_dispute env' s' i a v) = false)
  ∧ ∀ env', dp_closes_at d < timestamp env' →
      dispute.resolve_dispute env' s' i = Ok (dp_status d, s').
Proof.
  intros Hr Hi Hres Hinv.
  assert (Hs : Disputes s' !! i = Some d).
  { destruct (decide (block_of c = BDispute)) as [Hb|Hb].
    - destruct c; try discriminate Hb; open_call Hinv.
      + unfold dispute.open_dispute, storage.get_dispute in Hinv. run Hinv.
        cbn. rewrite lookup_insert_ne; [done|]. intros ->. apply E1. eauto.
      + apply vote_on_dispute_Ok in Hinv as (x & x' & Hx & _ & Hst & _ & _ & Hid & _ & _ & _
          & _ & _ & _ & HD & _).
        destruct (reachable_tallied w' s _ x Hr Hx) as [[Hxi _ _ _ _] _].
        rewrite HD. destruct (decide (event_id = i)) as [->|Hne];
          [|rewrite lookup_insert_ne; [done|congruence]].
        rewrite Hi in Hx. injection Hx as <-. unfold resolved in Hres.
        destruct Hst as [Hst|Hst]; rewrite Hst in Hres; vm_compute in Hres; discriminate.
      + destruct (Disputes s !! event_id) as [x|] eqn:Hx;
          [|unfold dispute.resolve_dispute, storage.get_dispute in Hinv; rewrite Hx in Hinv; discriminate Hinv].
        destruct (resolved x) eqn:Hrx.
        * unfold dispute.resolve_dispute, storage.get_dispute in Hinv. rewrite Hx in Hinv.
          cbn [rbind ok_or] in Hinv. unfold resolved in Hrx. rewrite Hrx in Hinv. run Hinv. by simplify_eq.
        * destruct (resolve_spec _ _ _ _ _ _ _ Hr Hx Hrx Hinv) as (_ & _ & ->).
          rewrite lookup_insert_ne; [done|]. intros ->. congruence.
    - apply other_dispute_frame in Hinv; [|done]. injection Hinv as H1 _ _ _. by rewrite H1. }
  split; [done|]. split.
  - intros env' a v.
    destruct (dispute.vote_on_dispute env' s' i a v) as [[[] t]| |] eqn:Hvote; [|done..].
    apply vote_on_dispute_Ok in Hvote as (x & _ & Hx & _ & Hst & _). rewrite Hs in Hx.
    injection Hx as <-. unfold resolved in Hres.
    destruct Hst as [Hst|Hst]; rewrite Hst in Hres; vm_compute in Hres; discriminate.
  - intros env' Ht. unfold dispute.resolve_dispute, storage.get_dispute. rewrite Hs. cbn.
    destruct (Z.leb_spec (timestamp env') (dp_closes_at d)); [lia|]. cbn.
    unfold resolved in Hres. by rewrite Hres.
Qed.
End Dispute_safety.
