(* ===== verification/RegSpecs.v ===== *)
(** * Event registry: functional behaviour of the inventory operations

    When a sale and a refund succeed, what they do, and how far the one undoes
    the other. *)

From S2P Require Import Prelude Machine Host RegTypes RegStorage RegGuards.
From S2P Require Import RegEvents RegInventory RegStaking RegGovernance RegDispute RegLifecycle.
From S2P Require Import RegSystem.

(** ** Inventory *)

(** The record after selling [q] tickets of tier [t]. *)
Definition sell (e : EventInfo) (t : string) (tier : TicketTier) (q : Z) : EventInfo :=
  let e := e ⟨ ei_tiers ::= <[t := tier ⟨ tier_current_sold := tier_current_sold tier + q ⟩]> ⟩ in
  let e := e ⟨ ei_current_supply := ei_current_supply e + q ⟩ in
  if negb (ei_goal_met e) && (0 <? ei_min_sales_target e)
     && (ei_min_sales_target e <=? ei_current_supply e)
  then e ⟨ ei_goal_met := true ⟩ else e.

(** The conditions under which a sale is accepted, on the mathematical values. *)
Record sellable (s : State) (e : EventInfo) (tier : TicketTier) (i t : string) (u : Address)
    (q : Z) (tok : Address) : Prop := {
  sb_quantity : q ≠ 0;
  sb_active : ei_is_active e = true;
  sb_status : ei_status e ≠ StCancelled;
  sb_token : ei_accepted_tokens e = [] ∨ tok ∈ ei_accepted_tokens e;
  sb_supply : 0 < ei_max_supply e → ei_current_supply e + q ≤ ei_max_supply e;
  sb_tier : tier_current_sold tier + q ≤ tier_limit tier;
  sb_user : 0 < tier_max_per_user tier →
    storage.get_user_ticket_count s i t u + q ≤ tier_max_per_user tier;
  sb_width : ei_current_supply e + q ≤ i128_max
}.

(** The stored numbers are of their machine types. *)
Record machine_sized (s : State) (e : EventInfo) (tier : TicketTier) (i t : string)
    (u : Address) (q : Z) : Prop := {
  mz_quantity : 0 ≤ q ≤ u32_max;
  mz_supply : 0 ≤ ei_current_supply e;
  mz_sold : i128_min ≤ tier_current_sold tier;
  mz_limit : tier_limit tier ≤ i128_max;
  mz_user : 0 ≤ storage.get_user_ticket_count s i t u ≤ u32_max;
  mz_per_user : 0 ≤ tier_max_per_user tier ≤ u32_max
}.

Lemma is_sellable_spec e :
  Inventory.is_sellable e = true ↔ ei_is_active e = true ∧ ei_status e ≠ StCancelled.
Proof.
  unfold Inventory.is_sellable, Events.is_cancelled.
  rewrite negb_true_iff, orb_false_iff, negb_false_iff, bool_decide_eq_false. done.
Qed.

(** The writer cannot fail when activity and privacy stay the same. *)
Lemma update_event_same_activity s e e' :
  Event s !! ei_event_id e' = Some e → ei_is_active e' = ei_is_active e →
  ei_is_private e' = ei_is_private e →
  storage.update_event s e' = Ok (s ⟨ Event ::= <[ei_event_id e' := e']> ⟩)
  ∨ (ei_is_private e = true).
Proof.
  intros He Ha Hp. unfold storage.update_event, storage.get_event,
    storage.sync_active_event_count. rewrite He, Ha, Hp.
  destruct (ei_is_private e); [by right|left]. by destruct (ei_is_active e).
Qed.

Lemma update_event_private s e e' :
  Event s !! ei_event_id e' = Some e → ei_is_private e = true → ei_is_private e' = true →
  storage.update_event s e' = Ok (s ⟨ Event ::= <[ei_event_id e' := e']> ⟩).
Proof.
  intros He Hp Hp'. unfold storage.update_event, storage.get_event,
    storage.sync_active_event_count. by rewrite He, Hp, Hp'.
Qed.

Lemma update_event_total s e e' :
  Event s !! ei_event_id e' = Some e → ei_is_active e' = ei_is_active e →
  ei_is_private e' = ei_is_private e →
  storage.update_event s e' = Ok (s ⟨ Event ::= <[ei_event_id e' := e']> ⟩).
Proof.
  intros He Ha Hp. destruct (update_event_same_activity s e e' He Ha Hp) as [|Hpr]; [done|].
  eapply update_event_private; [done|done|congruence].
Qed.

Lemma sell_fields e t tier q :
  ei_event_id (sell e t tier q) = ei_event_id e
  ∧ ei_is_active (sell e t tier q) = ei_is_active e
  ∧ ei_is_private (sell e t tier q) = ei_is_private e
  ∧ ei_current_supply (sell e t tier q) = ei_current_supply e + q
  ∧ ei_tiers (sell e t tier q) =
      <[t := tier ⟨ tier_current_sold := tier_current_sold tier + q ⟩]> (ei_tiers e).
Proof. unfold sell. by destruct (_ && _). Qed.

(** What a successful sale needed and did. *)
Lemma increment_inventory_Ok env s i t u q tok s' :
  keyed s → Inventory.increment_inventory env s i t u q tok = Ok (tt, s') →
  ∃ a e tier, TicketPaymentContract s = Some a ∧ authorized env a = true
    ∧ Event s !! i = Some e ∧ ei_tiers e !! t = Some tier
    ∧ sellable s e tier i t u q tok
    ∧ Event s' = <[i := sell e t tier q]> (Event s)
    ∧ (0 < tier_max_per_user tier →
       storage.get_user_ticket_count s' i t u = sat_u32 (storage.get_user_ticket_count s i t u + q))
    ∧ storage.get_global_tickets_sold s' = sat_i128 (storage.get_global_tickets_sold s + q)
    ∧ TicketPaymentContract s' = TicketPaymentContract s.
Proof.
  unfold Inventory.increment_inventory. intros Hk H. run H. auths.
  apply is_sellable_spec in E3 as [Hact Hst]. unfold storage.get_event in E2.
  pose proof (check_supply_Ok _ _ _ E5) as Hsup. checked. cbn in *.
  pose proof (Hk _ _ E2) as Hid.
  exists x, x2, x6. split; [done|]. split; [done|]. split; [done|]. split; [done|].
  assert (Huser : 0 < tier_max_per_user x6 →
    storage.get_user_ticket_count s i t u + q ≤ tier_max_per_user x6).
  { intros Hm. destruct (Z.ltb_spec 0 (tier_max_per_user x6)); [|lia]. run E9. checked. lia. }
  split.
  { split; try done; try lia. apply andb_false_iff in E4 as [E4|E4]; bool_props; auto. }
  unfold sell. cbn [upd ei_goal_met ei_min_sales_target ei_current_supply].
  cbn in H |- *. destruct (negb (ei_goal_met x2) && _ && _); run H;
    match goal with Hu : storage.update_event _ _ = Ok _ |- _ =>
      pose proof (update_event_Event _ _ _ Hu) as Hev;
      pose proof (update_event_frame _ _ _ Hu) as Hfr end; cbn in Hev; try rewrite Hid in Hev;
    pose proof (f_equal UserTicketCount Hfr) as HU;
    pose proof (f_equal GlobalTicketsSold Hfr) as HG;
    pose proof (f_equal TicketPaymentContract Hfr) as HT; cbn in HU, HG, HT;
    destruct (Z.ltb_spec 0 (tier_max_per_user x6));
    (split; [exact Hev|]); split_and!; try done; try (intros; lia);
    unfold storage.get_user_ticket_count, storage.get_global_tickets_sold; cbn;
    rewrite ?HU, ?HG; try done.
    all: intros _; cbn; by rewrite lookup_insert_eq.
Qed.

Lemma check_supply_total e q :
  (0 < ei_max_supply e → ei_current_supply e + q ≤ ei_max_supply e) →
  i128_min ≤ ei_current_supply e + q ≤ i128_max → Inventory.check_supply e q = Ok tt.
Proof.
  intros Hs Hr. unfold Inventory.check_supply. destruct (Z.ltb_spec 0 (ei_max_supply e)); [|done].
  unfold checked_i128. rewrite (proj2 (in_i128_spec _) Hr). cbn.
  by rewrite (proj2 (Z.ltb_ge _ _) (Hs H)).
Qed.

Lemma checked_i128_in z : i128_min ≤ z ≤ i128_max → checked_i128 z = Some z.
Proof. intros Hz. by apply checked_i128_Some. Qed.
Lemma checked_u32_in z : 0 ≤ z ≤ u32_max → checked_u32 z = Some z.
Proof. intros Hz. by apply checked_u32_Some. Qed.

Lemma increment_inventory_total env s i t u q tok a e tier :
  keyed s → TicketPaymentContract s = Some a → authorized env a = true →
  Event s !! i = Some e → ei_tiers e !! t = Some tier →
  machine_sized s e tier i t u q → sellable s e tier i t u q tok →
  is_ok (Inventory.increment_inventory env s i t u q tok) = true.
Proof.
  intros Hk Ha Hau He Ht [Mq Ms Mt Ml Mu Mp] [Sq Sa Ss Stk Ssup St Su Sw].
  pose proof (Hk _ _ He) as Hid.
  unfold Inventory.increment_inventory, storage.get_ticket_payment_contract, storage.get_event,
    require_auth. rewrite Ha. cbn [ok_or rbind]. rewrite Hau, He. cbn [ok_or rbind].
  rewrite (proj2 (Z.eqb_neq q 0) Sq). cbn [fail_if rbind].
  rewrite (proj2 (is_sellable_spec e)) by done. cbn [fail_if rbind negb].
  assert (Htok : negb (bool_decide (ei_accepted_tokens e = []))
                 && negb (bool_decide (tok ∈ ei_accepted_tokens e)) = false).
  { apply andb_false_iff. rewrite !negb_false_iff, !bool_decide_eq_true. done. }
  rewrite Htok, check_supply_total, Ht by (done || unfold i128_min; lia).
  cbn [ok_or rbind fail_if].
  rewrite checked_i128_in by (unfold u32_max, i128_min in *; lia). cbn [ok_or rbind].
  rewrite (proj2 (Z.ltb_ge _ _) St). cbn [fail_if rbind].
  assert (Hper : (if 0 <? tier_max_per_user tier then
    let! n := ok_or (checked_u32 (storage.get_user_ticket_count s i t u + q)) SupplyOverflow in
    fail_if (tier_max_per_user tier <? n) PerUserLimitExceeded else Ok tt) = Ok tt).
  { destruct (Z.ltb_spec 0 (tier_max_per_user tier)) as [Hm|]; [|done].
    specialize (Su Hm). rewrite checked_u32_in by lia. cbn.
    by rewrite (proj2 (Z.ltb_ge _ _) Su). }
  rewrite Hper. cbn [rbind].
  rewrite checked_i128_in by (cbn; unfold i128_min; lia). cbn [ok_or rbind].
  destruct (0 <? tier_max_per_user _); destruct (negb _ && _ && _);
    (erewrite update_event_total; [done|cbn; rewrite Hid; exact He|done|done]).
Qed.

Section Inventory_specs.
Context {W : Type} `{TokenLedger W} `{TicketPaymentInterface} (self : Address).
Implicit Types (w : W) (s : State).

Lemma reachable_keyed w s : reachable self modern w s → keyed s.
Proof. by intros (? & _)%reachable_events_inv. Qed.

(** C4. A sale is accepted exactly when it is legal: for the registered
    payment contract, an existing event and tier and numbers of their machine
    types, [increment_inventory] succeeds if and only if the quantity is not
    zero, the event is active and not cancelled, the token is accepted, and
    neither the event's supply cap, the tier limit, the buyer's quota nor the
    integer width would be exceeded. *)
Theorem increment_inventory_iff env w s i t u q tok a e tier :
  reachable self modern w s → TicketPaymentContract s = Some a → authorized env a = true →
  Event s !! i = Some e → ei_tiers e !! t = Some tier → machine_sized s e tier i t u q →
  is_ok (Inventory.increment_inventory env s i t u q tok) = true
    ↔ sellable s e tier i t u q tok.
Proof.
  intros Hk%reachable_keyed Ha Hau He Ht Hm. split; [|by eapply increment_inventory_total].
  destruct (Inventory.increment_inventory env s i t u q tok) as [[[] s']| |] eqn:Hi; [|done..].
  intros _. apply increment_inventory_Ok in Hi as (a' & e' & t' & _ & _ & He' & Ht' & Hs & _);
    [|done]. by simplify_eq.
Qed.

(** What a sale does: the tier and the event gain exactly the quantity
    sold and no other record changes, the goal flag is raised when the target
    is reached, the limits hold afterwards, a buyer under quota is charged the
    quantity, and the platform-wide counter advances by it (saturating). *)
Theorem increment_inventory_effect env w s i t u q tok s' :
  reachable self modern w s → 0 ≤ q →
  0 ≤ storage.get_user_ticket_count s i t u →
  Inventory.increment_inventory env s i t u q tok = Ok (tt, s') →
  ∃ e tier, Event s !! i = Some e ∧ ei_tiers e !! t = Some tier
    ∧ Event s' = <[i := sell e t tier q]> (Event s)
    ∧ tier_current_sold tier + q ≤ tier_limit tier
    ∧ (0 < ei_max_supply e → ei_current_supply e + q ≤ ei_max_supply e)
    ∧ (0 < tier_max_per_user tier → tier_max_per_user tier ≤ u32_max →
       storage.get_user_ticket_count s' i t u = storage.get_user_ticket_count s i t u + q
       ∧ storage.get_user_ticket_count s' i t u ≤ tier_max_per_user tier)
    ∧ storage.get_global_tickets_sold s' = sat_i128 (storage.get_global_tickets_sold s + q).
Proof.
  intros Hk%reachable_keyed Hq Hu Hi.
  apply increment_inventory_Ok in Hi as (a & e & tier & _ & _ & He & Ht & [] & Hev & Hus & Hg & _);
    [|done].
  exists e, tier. split_and!; try done. intros Hm Hw.
  specialize (Hus Hm). specialize (sb_user0 Hm). rewrite sat_u32_id in Hus by lia. lia.
Qed.
End Inventory_specs.

(** The record after one refund. *)
Definition unsell (e : EventInfo) (t : string) (tier : TicketTier) : EventInfo :=
  e ⟨ ei_tiers ::= <[t := tier ⟨ tier_current_sold := tier_current_sold tier - 1 ⟩]> ⟩
    ⟨ ei_current_supply := ei_current_supply e - 1 ⟩.

Lemma decrement_inventory_Ok env s i t s' :
  keyed s → Inventory.decrement_inventory env s i t = Ok (tt, s') →
  ∃ a e tier, TicketPaymentContract s = Some a ∧ authorized env a = true
    ∧ Event s !! i = Some e ∧ ei_tiers e !! t = Some tier
    ∧ 0 < tier_current_sold tier ∧ 0 < ei_current_supply e
    ∧ Event s' = <[i := unsell e t tier]> (Event s)
    ∧ UserTicketCount s' = UserTicketCount s ∧ GlobalTicketsSold s' = GlobalTicketsSold s.
Proof.
  unfold Inventory.decrement_inventory, storage.get_event. intros Hk H. run H. auths. checked.
  cbn in *. pose proof (Hk _ _ E1) as Hid.
  match goal with Hu : storage.update_event _ _ = Ok _ |- _ =>
    pose proof (update_event_Event _ _ _ Hu) as Hev;
    pose proof (update_event_frame _ _ _ Hu) as Hfr end.
  pose proof (f_equal UserTicketCount Hfr) as HU.
  pose proof (f_equal GlobalTicketsSold Hfr) as HG. cbn in *.
  eexists _, _, _. split_and!; try done; try lia. by rewrite Hid in Hev.
Qed.

Lemma decrement_inventory_total env s i t a e tier :
  keyed s → TicketPaymentContract s = Some a → authorized env a = true →
  Event s !! i = Some e → ei_tiers e !! t = Some tier →
  0 < tier_current_sold tier ≤ i128_max → 0 < ei_current_supply e ≤ i128_max →
  is_ok (Inventory.decrement_inventory env s i t) = true.
Proof.
  intros Hk Ha Hau He Ht Hs Hc. pose proof (Hk _ _ He) as Hid.
  unfold Inventory.decrement_inventory, storage.get_ticket_payment_contract, storage.get_event,
    require_auth. rewrite Ha. cbn [ok_or rbind]. rewrite Hau, He. cbn [ok_or rbind].
  rewrite Ht. cbn [ok_or rbind]. rewrite (proj2 (Z.leb_gt _ _)) by lia. cbn [fail_if rbind].
  rewrite checked_i128_in by (unfold i128_min; lia). cbn [ok_or rbind].
  rewrite (proj2 (Z.leb_gt _ _)) by (cbn; lia). cbn [fail_if rbind].
  rewrite checked_i128_in by (cbn; unfold i128_min; lia). cbn [ok_or rbind].
  by erewrite update_event_total; [|cbn; rewrite Hid; exact He|done|done].
Qed.

Section Refund_specs.
Context {W : Type} `{TokenLedger W} `{TicketPaymentInterface} (self : Address).
Implicit Types (w : W) (s : State).

(** A refund takes back one ticket and only that: for the registered
    payment contract [decrement_inventory] succeeds exactly when the tier and
    the event have something sold, and then lowers both by one and writes no
    other record. *)
Theorem decrement_inventory_spec env w s i t a e tier :
  reachable self modern w s → TicketPaymentContract s = Some a → authorized env a = true →
  Event s !! i = Some e → ei_tiers e !! t = Some tier →
  tier_current_sold tier ≤ i128_max → ei_current_supply e ≤ i128_max →
  if (0 <? tier_current_sold tier) && (0 <? ei_current_supply e)
  then ∃ s', Inventory.decrement_inventory env s i t = Ok (tt, s')
             ∧ Event s' = <[i := unsell e t tier]> (Event s)
  else is_ok (Inventory.decrement_inventory env s i t) = false.
Proof.
  intros Hk%(reachable_keyed self) Ha Hau He Ht Hs Hc.
  destruct (Inventory.decrement_inventory env s i t) as [[[] s']| |] eqn:Hd.
  - apply decrement_inventory_Ok in Hd as (a' & e' & t' & _ & _ & He' & Ht' & H1 & H2 & Hev & _);
      [|done]. simplify_eq. rewrite (proj2 (Z.ltb_lt _ _) H1), (proj2 (Z.ltb_lt _ _) H2).
    by exists s'.
  - destruct (_ && _) eqn:Hb; [|done]. apply andb_true_iff in Hb as [H1 H2].
    apply Z.ltb_lt in H1, H2.
    pose proof (decrement_inventory_total env s i t a e tier Hk Ha Hau He Ht ltac:(lia) ltac:(lia))
      as Hok. by rewrite Hd in Hok.
  - destruct (_ && _) eqn:Hb; [|done]. apply andb_true_iff in Hb as [H1 H2].
    apply Z.ltb_lt in H1, H2.
    pose proof (decrement_inventory_total env s i t a e tier Hk Ha Hau He Ht ltac:(lia) ltac:(lia))
      as Hok. by rewrite Hd in Hok.
Qed.

(** Sale and refund are inverse on the inventory and on nothing else: a
    one-ticket sale followed by its refund restores the event's supply and
    every tier, while the buyer's quota stays used and the platform-wide
    sales counter stays advanced. *)
Theorem sale_refund_roundtrip env env' w s i t u tok s1 s2 :
  reachable self modern w s →
  Inventory.increment_inventory env s i t u 1 tok = Ok (tt, s1) →
  Inventory.decrement_inventory env' s1 i t = Ok (tt, s2) →
  ∃ e e2, Event s !! i = Some e ∧ Event s2 = <[i := e2]> (Event s)
    ∧ ei_current_supply e2 = ei_current_supply e ∧ ei_tiers e2 = ei_tiers e
    ∧ storage.get_user_ticket_count s2 i t u = storage.get_user_ticket_count s1 i t u
    ∧ storage.get_global_tickets_sold s2 = sat_i128 (storage.get_global_tickets_sold s + 1).
Proof.
  intros Hk%(reachable_keyed self) Hi Hd.
  assert (Hk1 : keyed s1) by (eapply gs_keyed, increment_inventory_good; [done| |exact Hi]; lia).
  apply increment_inventory_Ok in Hi as (a & e & tier & _ & _ & He & Ht & _ & Hev & _ & Hg & _);
    [|done].
  apply decrement_inventory_Ok in Hd as (a' & e' & tier' & _ & _ & He' & Ht' & _ & _ & Hev' & HU & HG);
    [|done].
  rewrite Hev, lookup_insert_eq in He'. injection He' as <-.
  destruct (sell_fields e t tier 1) as (_ & _ & _ & Hsup & Htiers).
  rewrite Htiers, lookup_insert_eq in Ht'. injection Ht' as <-.
  exists e, (unsell (sell e t tier 1) t (tier ⟨ tier_current_sold := tier_current_sold tier + 1 ⟩)).
  split_and!; [done| | | | |].
  - by rewrite Hev', Hev, insert_insert_eq.
  - unfold unsell. cbn. rewrite Hsup. lia.
  - unfold unsell. cbn. rewrite Htiers, insert_insert_eq.
    replace (tier_current_sold tier + 1 - 1) with (tier_current_sold tier) by lia.
    rewrite insert_id; [done|]. rewrite Ht. by destruct tier.
  - unfold storage.get_user_ticket_count. by rewrite HU.
  - unfold storage.get_global_tickets_sold in *. by rewrite HG.
Qed.
End Refund_specs.
