(* ===== verification/RegIndex.v ===== *)
(** * Event registry: the organizer index and the blacklist ripple

    The sharded per-organizer index refines a list: as long as no event is
    archived it enumerates exactly the organizer's events, so that
    blacklisting reaches all of them. *)

From S2P Require Import Prelude Machine Host RegTypes RegStorage RegGuards.
From S2P Require Import RegEvents RegInventory RegStaking RegGovernance RegDispute RegLifecycle.
From S2P Require Import RegSystem.

(** [s] stores the events of [o] in the order of [l]. *)
Record indexed (s : State) (o : Address) (l : list string) : Prop := {
  ix_sharded : sharded 50 (OrganizerEventShard s) o (storage.get_organizer_event_count s o) l;
  ix_nodup : NoDup l;
  ix_flags : ∀ i, i ∈ l ↔ is_Some (OrganizerEvent s !! (o, i));
  ix_events : ∀ i, i ∈ l ↔ ∃ e, Event s !! i = Some e ∧ ei_organizer_address e = o
}.

Definition index_inv (s : State) : Prop := ∀ o, ∃ l, indexed s o l.

Definition index_view (s : State) :=
  (OrganizerEventShard s, OrganizerEventCount s, OrganizerEvent s).

(** Public events, for readers other than the organizer. *)
Definition is_public (s : State) (i : string) : bool :=
  match Event s !! i with Some e => negb (ei_is_private e) | None => false end.

Lemma bind_if {A : Type} (p : A → bool) (l : list A) :
  (x ← l; if p x then [x] else []) = List.filter p l.
Proof. induction l as [|x l IH]; [done|]. rewrite bind_cons, IH. simpl. by destruct (p x). Qed.

(** The reader returns the list, filtered for strangers. *)
Lemma get_organizer_events_list s o c l :
  indexed s o l →
  storage.get_organizer_events s o c =
    if bool_decide (o = c) then l else List.filter (is_public s) l.
Proof.
  intros [Hs _ _ _]. pose proof (shard_entries_list _ _ _ _ _ Hs) as He.
  unfold storage.get_organizer_events.
  destruct (Z.eqb_spec (storage.get_organizer_event_count s o) 0) as [Hz|Hz].
  { destruct Hs as [Hc _]. rewrite Hz in Hc. destruct l; [|done]. by case_match. }
  rewrite <- He. unfold shard_entries. case_bool_decide.
  - apply Forall_bind_ext, Forall_forall. intros i _.
    fold (bucket (OrganizerEventShard s) o i).
    generalize (bucket (OrganizerEventShard s) o i). intros k.
    induction k as [|x k IH]; [done|]. by rewrite bind_cons, IH.
  - induction (seqZ 0 _) as [|i k IH]; [done|]. rewrite !bind_cons, List.filter_app, IH. f_equal.
    fold (bucket (OrganizerEventShard s) o i). rewrite <- bind_if.
    apply Forall_bind_ext, Forall_forall. intros x _.
    unfold is_public, storage.get_event. by destruct (Event s !! x).
Qed.

(** A revision that leaves the index alone. *)
Lemma index_revise s s' :
  index_inv s → index_view s' = index_view s →
  (∀ i, option_Forall2 event_evolves (Event s !! i) (Event s' !! i)) → index_inv s'.
Proof.
  intros Hi Hv He o. injection Hv as H1 H2 H3. destruct (Hi o) as (l & [Hs Hn Hf Hl]).
  exists l. split; unfold storage.get_organizer_event_count in *; rewrite ?H1, ?H2, ?H3; try done.
  intros i. rewrite Hl. specialize (He i).
  destruct He as [e e' Hev|].
  - pose proof (evolves_organizer _ _ Hev). split; intros (x & Hx & Ho); injection Hx as <-; eexists;
      (split; [done|congruence]).
  - split; intros (? & ? & ?); discriminate.
Qed.

Lemma update_event_index s e s' :
  storage.update_event s e = Ok s' → index_view s' = index_view s.
Proof.
  unfold storage.update_event. intros H. run H. by apply sync_frame in E as (c & ->).
Qed.

(** Storing a new event appends it to its organizer's list. *)
Lemma store_event_append s e s' :
  index_inv s → Event s !! ei_event_id e = None → storage.store_event s e = Ok s' → index_inv s'.
Proof.
  intros Hi Hn Hst. pose proof (store_event_Event _ _ _ Hst) as Hev.
  set (i := ei_event_id e) in *. set (o := ei_organizer_address e).
  destruct (Hi o) as (l & Hl).
  assert (Hni : i ∉ l). { rewrite (ix_events _ _ _ Hl). intros (x & Hx & _). congruence. }
  assert (Hview : OrganizerEventShard s' = shard_push 50 (OrganizerEventShard s) o
                     (storage.get_organizer_event_count s o) i
    ∧ OrganizerEventCount s' = <[o := storage.get_organizer_event_count s o + 1]> (OrganizerEventCount s)
    ∧ OrganizerEvent s' = <[(o, i) := true]> (OrganizerEvent s)).
  { unfold storage.store_event, storage.increment_global_event_count in Hst. run Hst.
    apply sync_frame in E as (c & ->).
    assert (Hf : storage.has_organizer_event
      (s ⟨ GlobalActiveEventCount := c ⟩ ⟨ Event ::= <[ei_event_id e := e]> ⟩)
      (ei_organizer_address e) (ei_event_id e) = false).
    { unfold storage.has_organizer_event. apply bool_decide_eq_false. cbn.
      fold o i. by rewrite <- (ix_flags _ _ _ Hl). }
    rewrite Hf in Hst. cbn [negb] in Hst. run Hst. checked. destruct (negb _); run Hst; done. }
  destruct Hview as (H1 & H2 & H3). intros o'.
  destruct (decide (o' = o)) as [->|Hne].
  - exists (l ++ [i]). split; unfold storage.get_organizer_event_count; rewrite ?H1, ?H2, ?H3, ?Hev.
    + rewrite lookup_insert_eq. apply sharded_push, Hl.
    + apply NoDup_app. split_and!; [apply Hl| |apply NoDup_singleton].
      by intros x Hx ->%list_elem_of_singleton.
    + intros j. rewrite elem_of_app, list_elem_of_singleton, lookup_insert_is_Some.
      rewrite (ix_flags _ _ _ Hl). destruct (decide (j = i)) as [->|]; naive_solver.
    + intros j. rewrite elem_of_app, list_elem_of_singleton, (ix_events _ _ _ Hl).
      destruct (decide (j = i)) as [->|Hj].
      * rewrite lookup_insert_eq. naive_solver.
      * rewrite lookup_insert_ne by done. naive_solver.
  - destruct (Hi o') as (l' & Hl'). exists l'.
    split; unfold storage.get_organizer_event_count; rewrite ?H1, ?H2, ?H3, ?Hev.
    + rewrite lookup_insert_ne by done. apply sharded_frame; [done|apply Hl'].
    + apply Hl'.
    + intros j. rewrite lookup_insert_ne by congruence. apply Hl'.
    + intros j. rewrite (ix_events _ _ _ Hl'). destruct (decide (j = i)) as [->|Hj].
      * rewrite lookup_insert_eq. split; [intros (x & Hx & _); congruence|].
        intros (x & [= <-] & Ho). by destruct Hne.
      * by rewrite lookup_insert_ne.
Qed.

(** Storing a listed event again does not touch the index. *)
Lemma store_event_listed s e s' :
  storage.has_organizer_event s (ei_organizer_address e) (ei_event_id e) = true →
  storage.store_event s e = Ok s' → index_view s' = index_view s.
Proof.
  unfold storage.store_event. intros Hf H. run H. apply sync_frame in E as (c & ->).
  change (storage.has_organizer_event _ _ _) with
    (storage.has_organizer_event s (ei_organizer_address e) (ei_event_id e)) in H.
  rewrite Hf in H. cbn [negb] in H. by run H.
Qed.

(** One record revised, the index untouched. *)
Lemma index_update s s' e e' :
  index_inv s → Event s !! ei_event_id e = Some e →
  ei_organizer_address e' = ei_organizer_address e →
  Event s' = <[ei_event_id e := e']> (Event s) → index_view s' = index_view s → index_inv s'.
Proof.
  intros Hi He Ho Hev Hv o. injection Hv as H1 H2 H3. destruct (Hi o) as (l & [Hs Hn Hf Hl]).
  exists l. split; unfold storage.get_organizer_event_count in *; rewrite ?H1, ?H2, ?H3; try done.
  intros i. rewrite Hl, Hev. destruct (decide (i = ei_event_id e)) as [->|Hne].
  - rewrite He, lookup_insert_eq. split; intros (x & [= <-] & Hx); eexists; (split; [done|congruence]).
  - by rewrite lookup_insert_ne.
Qed.

Section Index_invariant.
Context {W : Type} `{TokenLedger W} `{TicketPaymentInterface} (self : Address).
Implicit Types (w : W) (s : State).

Lemma index_same s s' :
  index_inv s → Event s' = Event s → index_view s' = index_view s → index_inv s'.
Proof.
  intros Hi He Hv o. injection Hv as H1 H2 H3. destruct (Hi o) as (l & []).
  exists l. by split; unfold storage.get_organizer_event_count in *; rewrite ?He, ?H1, ?H2, ?H3.
Qed.

Lemma invoke_index_frame env c w s w' s' :
  invoke env c w s = Ok (w', s') → block_of c ≠ BEvents → index_view s' = index_view s.
Proof.
  intros Hi Hb. destruct c; try (by destruct Hb); open_call Hi; open_handler Hi;
    run_all; same_view.
Qed.

Lemma suspend_index l s n s' n' :
  keyed s → index_inv s → rfold Events.suspend_step l (s, n) = Ok (s', n') → index_inv s'.
Proof.
  intros Hk Hi Hl. apply (rfold_ind _ (λ p, keyed p.1 ∧ index_inv p.1)) in Hl; [by destruct Hl|done|].
  intros i [t m] [t' m'] _ [Hkt Hit] Hs. cbn in *.
  split; [by eapply rv_keyed, suspend_step_revises|].
  unfold Events.suspend_step, storage.get_event in Hs. run_split Hs; simplify_eq; try done.
  match goal with H : Event t !! i = Some _ |- _ => rename H into He end.
  pose proof (Hkt _ _ He) as <-.
  match goal with H : storage.store_event _ _ = Ok _ |- _ => rename H into Hst end.
  eapply (index_update t t' e); [done|done| |by apply store_event_Event in Hst|].
  - reflexivity.
  - eapply store_event_listed; [|exact Hst]. unfold storage.has_organizer_event.
    apply bool_decide_eq_true. destruct (Hit (ei_organizer_address e)) as (k & Hk').
    rewrite <- (ix_flags _ _ _ Hk'), (ix_events _ _ _ Hk'). eauto.
Qed.

(** Histories without the legacy writer and without archiving. *)
Definition unarchived (c : entry) : bool :=
  match c with StoreEvent _ | ArchiveEvent _ => false | _ => true end.

Ltac reindex :=
  match goal with
  | Hk : keyed ?s, Hx : index_inv ?s, He : Event ?s !! ?i = Some ?e,
    Hu : storage.update_event ?t ?e' = Ok ?t' |- _ =>
      let Hid := fresh in pose proof (Hk _ _ He) as Hid;
      eapply (index_update s _ e e' Hx);
      [rewrite Hid; exact He | reflexivity
      | exact (update_event_Event _ _ _ Hu) | exact (update_event_index _ _ _ Hu)]
  end.

Lemma invoke_index_inv env c w s w' s' :
  keyed s → index_inv s → unarchived c = true → invoke env c w s = Ok (w', s') → index_inv s'.
Proof.
  intros Hk Hx Hu Hi. destruct (decide (block_of c = BEvents)) as [Hb|Hb].
  2:{ eapply index_same; [done| |by eapply invoke_index_frame].
      apply invoke_events_frame in Hi; [|done]. by injection Hi. }
  destruct c; try discriminate Hb; try discriminate Hu; open_call Hi;
    unfold Events.update_event_status, Events.cancel_event, Events.update_metadata,
      Events.set_feedback_cid, Events.set_resale_cap_bps, Events.set_custom_event_fee,
      Inventory.add_tier, Inventory.deactivate_tier, Inventory.decrement_inventory,
      Events.postpone_event, Inventory.mint_cross_chain_ticket,
      Inventory.execute_teleport_mint, storage.get_event in Hi;
    try (run_split Hi; solve [done | reindex]).
  - apply register_event_Ok in Hi as (s1 & Hst & -> & _ & _ & _ & _ & Hn & _).
    eapply (index_same s1); [|done|done].
    exact (store_event_append _ (Events.new_event env s args) _ Hx Hn Hst).
  - unfold Inventory.increment_inventory, storage.get_event in Hi. run Hi.
    match type of Hi with (match (if ?b then _ else _) with _ => _ end) = _ => destruct b end;
      run Hi; destruct (0 <? tier_max_per_user _); reindex.
  - unfold Events.blacklist_organizer, Events.suspend_organizer_events in Hi. run_all; [done|..];
      simplify_eq;
      match goal with H : rfold Events.suspend_step _ (?t, _) = Ok _ |- _ =>
        apply suspend_index in H; [eapply index_same; [exact H|done|done]|exact Hk|] end;
      by eapply (index_same s).
  - run Hi. change (Event (Inventory.track_teleport s tx_hash)) with (Event s) in E2. reindex.
Qed.
End Index_invariant.

Definition deactivate (e : EventInfo) : EventInfo := e ⟨ ei_is_active := false ⟩.

Section Index_theorems.
Context {W : Type} `{TokenLedger W} `{TicketPaymentInterface} (self : Address).
Implicit Types (w : W) (s : State).

Lemma reachable_index w s : reachable self unarchived w s → keyed s ∧ index_inv s.
Proof.
  induction 1 as [w _|env c w s w' s' _ [Hk Hx] _ Hu Hw Hi|]; [|split|done].
  - split; [intros i e; cbn; by rewrite lookup_empty|]. intros o. exists [].
    split; cbn.
    + apply sharded_empty. intros i. apply lookup_empty.
    + constructor.
    + intros i. rewrite lookup_empty. split; [by intros ?%not_elem_of_nil|by intros []].
    + intros i. rewrite lookup_empty. split; [by intros ?%not_elem_of_nil|naive_solver].
  - eapply gs_keyed, invoke_good; [done|done| |exact Hi]. by destruct c.
  - by eapply invoke_index_inv.
Qed.

(** C6. The sharded organizer index refines a set: in every state reached
    without archiving (and without the legacy writer), asking for an
    organizer's events as that organizer returns each of the organizer's
    events exactly once, and asking as anybody else returns exactly the public
    ones. *)
Theorem organizer_index_complete w s o c :
  reachable self unarchived w s →
  NoDup (storage.get_organizer_events s o c)
  ∧ ∀ i, i ∈ storage.get_organizer_events s o c ↔
      ∃ e, Event s !! i = Some e ∧ ei_organizer_address e = o
           ∧ (o = c ∨ ei_is_private e = false).
Proof.
  intros [_ Hx]%reachable_index. destruct (Hx o) as (l & Hl).
  rewrite (get_organizer_events_list s o c l Hl). case_bool_decide as Hoc.
  - split; [apply Hl|]. intros i. rewrite (ix_events _ _ _ Hl). naive_solver.
  - split.
    + apply NoDup_ListNoDup, List.NoDup_filter, NoDup_ListNoDup, Hl.
    + intros i. rewrite list_elem_of_In, filter_In, <- list_elem_of_In, (ix_events _ _ _ Hl).
      unfold is_public. split.
      * intros [(e & He & Ho) Hp]. rewrite He in Hp. bool_props. eauto.
      * intros (e & He & Ho & [|Hp]); [done|]. rewrite He, Hp. eauto.
Qed.

Lemma suspend_step_lookup s n a s' n' j :
  keyed s → Events.suspend_step (s, n) a = Ok (s', n') →
  Event s' !! j = if decide (j = a) then deactivate <$> (Event s !! j) else Event s !! j.
Proof.
  intros Hk Hs. unfold Events.suspend_step, storage.get_event in Hs.
  destruct (Event s !! a) as [e|] eqn:He;
    [|run Hs; simplify_eq; destruct (decide (j = a)) as [->|]; [by rewrite He|done]].
  destruct (ei_is_active e) eqn:Ha; run Hs; simplify_eq.
  - match goal with H : storage.store_event _ _ = Ok _ |- _ =>
      apply store_event_Event in H as Hev end.
    cbn in Hev. rewrite (Hk _ _ He) in Hev. rewrite Hev.
    destruct (decide (j = a)) as [->|]; [by rewrite lookup_insert_eq, He|].
    by rewrite lookup_insert_ne.
  - destruct (decide (j = a)) as [->|]; [|done]. rewrite He. cbn. f_equal. unfold deactivate.
    rewrite <- Ha. by destruct e.
Qed.

(** The suspension loop deactivates exactly the listed events. *)
Lemma suspend_lookup l s n s' n' j :
  keyed s → rfold Events.suspend_step l (s, n) = Ok (s', n') →
  Event s' !! j = if decide (j ∈ l) then deactivate <$> (Event s !! j) else Event s !! j.
Proof.
  revert s n; induction l as [|a l IH]; intros s n Hk Hl; simpl in Hl.
  { injection Hl as <- <-. by destruct (decide (j ∈ [])) as [?%not_elem_of_nil|]. }
  apply rbind_Ok in Hl as ([s1 n1] & Hs & Hl).
  rewrite (IH s1 n1); [|by eapply rv_keyed, suspend_step_revises|done].
  rewrite (suspend_step_lookup _ _ _ _ _ j Hk Hs).
  destruct (decide (j = a)) as [->|Hne].
  - rewrite (decide_True (P := a ∈ a :: l)) by left. destruct (decide (a ∈ l)); [|done].
    by destruct (Event s !! a).
  - destruct (decide (j ∈ l)) as [Hj|Hj].
    + by rewrite decide_True by by right.
    + rewrite decide_False; [done|]. by intros [|]%elem_of_cons.
Qed.

Lemma suspend_organizer_events_Ok env s o s' :
  Events.suspend_organizer_events env s o = Ok (tt, s') →
  ∃ s1 n, rfold Events.suspend_step (storage.get_organizer_events s o o) (s, 0) = Ok (s1, n)
    ∧ Event s' = Event s1 ∧ BlacklistedOrganizer s' = BlacklistedOrganizer s1.
Proof.
  unfold Events.suspend_organizer_events. intros Hs.
  apply rbind_Ok in Hs as ([s1 n] & Hl & Hs). exists s1, n. run_split Hs; done.
Qed.

(** Blacklisting ripples to all events of the organizer and to nobody
    else's: from a state reached without archiving, blacklisting an organizer
    deactivates every one of the organizer's events, leaves all other records
    as they are, and registration by that organizer is refused from then on. *)
Theorem blacklist_suspends env w s o r s' :
  reachable self unarchived w s → storage.is_blacklisted s o = false →
  Events.blacklist_organizer env s o r = Ok (tt, s') →
  storage.is_blacklisted s' o = true
  ∧ (∀ i, Event s' !! i =
       (λ e, if decide (ei_organizer_address e = o) then deactivate e else e) <$> (Event s !! i))
  ∧ ∀ env' args, ar_organizer_address args = o →
      is_ok (Events.register_event env' s' args) = false.
Proof.
  intros [Hk Hx]%reachable_index Hb Hbl. destruct (Hx o) as (l & Hl).
  unfold Events.blacklist_organizer in Hbl. rewrite Hb in Hbl. run Hbl.
  apply suspend_organizer_events_Ok in Hbl as (s1 & n & Hloop & Hev & Hbk).
  assert (Hbl' : storage.is_blacklisted s' o = true).
  { unfold storage.is_blacklisted. rewrite Hbk.
    pose proof (f_equal BlacklistedOrganizer (suspend_frame _ _ _ _ _ Hloop)) as Hf.
    cbn in Hf. rewrite Hf. by rewrite lookup_insert_eq. }
  change (storage.get_organizer_events _ o o) with (storage.get_organizer_events s o o) in Hloop.
  rewrite (get_organizer_events_list s o o l Hl), bool_decide_eq_true_2 in Hloop by done.
  split_and!; [done| |].
  - intros i. rewrite Hev.
    match type of Hloop with rfold _ _ (?t, _) = _ =>
      rewrite (suspend_lookup l t _ _ _ i (Hk : keyed t) Hloop) end. cbn.
    destruct (Event s !! i) as [e|] eqn:He; cbn; [|by destruct (decide (i ∈ l))].
    destruct (decide (ei_organizer_address e = o)) as [Ho|Ho].
    + rewrite decide_True; [done|]. apply (ix_events _ _ _ Hl). eauto.
    + rewrite decide_False; [done|]. rewrite (ix_events _ _ _ Hl). naive_solver.
  - intros env' args Ho. unfold Events.register_event, require_auth. rewrite Ho, Hbl'.
    destruct (negb _); [done|]. by destruct (authorized env' o).
Qed.
End Index_theorems.
