(* ===== verification/RegExamples.v ===== *)
(** * Event registry: a running instance

    Concrete histories on the running ledger, used to apply the theorems at
    states that the contract really reaches. *)

From stdpp Require Import pretty.
From S2P Require Import Prelude Machine Host RegTypes RegStorage RegGuards.
From S2P Require Import RegEvents RegInventory RegStaking RegGovernance RegDispute RegLifecycle.
From S2P Require Import RegSystem RegSafety RegGovSafety RegSpecs RegIndex.

(** Every address but the contract's own signs. *)
Definition env_at (now : Z) : Env :=
  MkEnv now "registry" (λ a, negb (bool_decide (a = "registry"))).

#[local] Instance all_hold : TicketPaymentInterface :=
  {| has_confirmed_ticket := λ _ _ _, Some true |}.

(** "admin", "alice" and "bob" hold 1000 "gold" each and allow the contract
    to pull them. *)
Definition ledger0 : SimpleLedger :=
  MkLedger
    (list_to_map [(("gold", "admin"), 1000); (("gold", "alice"), 1000); (("gold", "bob"), 1000);
                  (("lead", "admin"), 1000)])
    (list_to_map [(("gold", "admin", "registry"), 1000); (("gold", "alice", "registry"), 1000);
                  (("gold", "bob", "registry"), 1000); (("lead", "admin", "registry"), 1000)]).

Definition cid0 : string := "QmYwAPJzv5CZsnA625s3Xf2nemtYgPpHdWEz79ojWKPbdG".

Definition tier0 : TicketTier := MkTier "general" 50 10 0 true [] 1 3.

Definition args0 (i : string) (o : Address) (private : bool) : EventRegistrationArgs :=
  MkArgs i "show" o o cid0 20 (Some [MkMilestone 5 4000; MkMilestone 10 6000])
    {[ "ga" := tier0 ]} 0 0 (Some 5000) (Some 2) None None (Some ["music"]) None 0 private 500 0 []
    true None.

Definition setup : list (Env * entry) :=
  [(env_at 10, Initialize "admin" "wallet" 250 "gold");
   (env_at 11, SetTicketPaymentContract "payments");
   (env_at 12, RegisterEvent (args0 "e1" "alice" false));
   (env_at 13, RegisterEvent (args0 "e2" "bob" true));
   (env_at 14, IncrementInventory "e1" "ga" "carol" 2 "gold")].

Definition outcome (h : list (Env * entry)) : SimpleLedger * State :=
  match run_history ledger0 empty_state h with
  | Ok ws => ws
  | _ => (ledger0, empty_state)
  end.

Lemma ledger0_nonneg : ∀ tok, 0 ≤ balance ledger0 tok "registry".
Proof.
  intros tok. cbn. unfold sl_balance, ledger0. cbn.
  repeat (rewrite lookup_insert_ne by (intros [= ? ?])). by rewrite lookup_empty.
Qed.

Lemma outcome_reachable allow h :
  history_ok "registry" allow h && is_ok (run_history ledger0 empty_state h) = true →
  reachable "registry" allow (outcome h).1 (outcome h).2.
Proof.
  intros [Hok Hrun]%andb_true_iff. unfold outcome.
  destruct (run_history ledger0 empty_state h) as [[w s]| |] eqn:E; [|discriminate..].
  eapply run_history_reachable; [|exact Hok|exact E].
  apply reach_deploy, ledger0_nonneg.
Qed.

Definition s0 : State := (outcome setup).2.

Lemma setup_reachable : reachable "registry" modern (outcome setup).1 s0.
Proof. apply outcome_reachable. vm_compute. reflexivity. Qed.

Definition event_of (s : State) (i : string) : EventInfo :=
  default (Events.new_event (env_at 0) empty_state (args0 "none" "nobody" true)) (Event s !! i).
Definition e1 : EventInfo := event_of s0 "e1".
Definition tier1 : TicketTier := default tier0 (ei_tiers e1 !! "ga").

Definition state_of (r : res EventRegistryError (unit * State)) : State :=
  match r with Ok (_, s) => s | _ => empty_state end.

Lemma ok_state r : is_ok r = true → r = Ok (tt, state_of r).
Proof. by destruct r as [[[] s]| |]. Qed.

(** The state after one more call. *)
Definition after (ws : SimpleLedger * State) (env : Env) (c : entry) : SimpleLedger * State :=
  match invoke env c ws.1 ws.2 with Ok ws' => ws' | _ => ws end.

Lemma after_ok ws env c :
  is_ok (invoke env c ws.1 ws.2) = true →
  invoke env c ws.1 ws.2 = Ok ((after ws env c).1, (after ws env c).2).
Proof. unfold after. by destruct (invoke env c ws.1 ws.2) as [[w s]| |]. Qed.

(** A record that is there. *)
Lemma event_of_some s i :
  bool_decide (is_Some (Event s !! i)) = true → Event s !! i = Some (event_of s i).
Proof. unfold event_of. intros [e ->]%bool_decide_eq_true. done. Qed.

(** The theorems on events, at the demo state. *)
Lemma reachable_event_ok_witness :
  0 ≤ ei_current_supply e1 ≤ 20 ∧ released_bps e1 ≤ 10000 ∧ ei_current_supply e1 = 2.
Proof.
  assert (He : Event s0 !! "e1" = Some e1) by (vm_compute; reflexivity).
  destruct (reachable_event_ok "registry" _ s0 "e1" e1 setup_reachable He)
    as (H1 & H2 & _ & _ & _ & H3).
  split; [|split; [exact H3|vm_compute; reflexivity]].
  split; [exact H1|]. apply H2. vm_compute. reflexivity.
Defined.

Lemma reachable_active_count_witness :
  storage.get_global_active_event_count s0 = 1
  ∧ size (filter (λ ie, ei_is_active ie.2 && negb (ei_is_private ie.2)) (Event s0)) = 1%nat.
Proof.
  split; [vm_compute; reflexivity|]. apply Nat2Z.inj.
  rewrite <- (reachable_active_count "registry" _ s0 setup_reachable).
  vm_compute. reflexivity.
Defined.

Definition cancelled1 : SimpleLedger * State :=
  outcome (setup ++ [(env_at 20, CancelEvent "e1" None)]).

Lemma cancelled1_reachable : reachable "registry" modern cancelled1.1 cancelled1.2.
Proof. apply outcome_reachable. vm_compute. reflexivity. Qed.

(** Postponing a cancelled event does not revive it. *)
Definition postponed1 : SimpleLedger * State :=
  after cancelled1 (env_at 21) (PostponeEvent "e1" 100 200).

Lemma invoke_event_evolution_witness :
  ei_is_active (event_of postponed1.2 "e1") = false
  ∧ ei_start_time (event_of postponed1.2 "e1") = 100.
Proof.
  assert (Hi : invoke (env_at 21) (PostponeEvent "e1" 100 200) cancelled1.1 cancelled1.2
               = Ok (postponed1.1, postponed1.2))
    by (apply after_ok; vm_compute; reflexivity).
  pose proof (event_of_some cancelled1.2 "e1" ltac:(vm_compute; reflexivity)) as He.
  pose proof (invoke_event_evolution "registry" (env_at 21) (PostponeEvent "e1" 100 200)
    _ _ _ _ "e1" _ cancelled1_reachable eq_refl eq_refl Hi He) as H.
  rewrite (event_of_some postponed1.2 "e1") in H by (vm_compute; reflexivity).
  destruct H as [_ H]. split; [|vm_compute; reflexivity].
  apply H. vm_compute. reflexivity.
Defined.

Definition ended1 : SimpleLedger * State :=
  after (outcome setup) (env_at 20) (CancelEvent "e1" None).


Definition size_ok : machine_sized s0 e1 tier1 "e1" "ga" "carol" 1.
Proof. split; vm_compute; split || idtac; discriminate. Qed.

Lemma increment_inventory_iff_witness :
  is_ok (Inventory.increment_inventory (env_at 15) s0 "e1" "ga" "carol" 1 "gold") = true
  ∧ sellable s0 e1 tier1 "e1" "ga" "carol" 1 "gold".
Proof.
  assert (H : is_ok (Inventory.increment_inventory (env_at 15) s0 "e1" "ga" "carol" 1 "gold") = true)
    by (vm_compute; reflexivity).
  split; [exact H|].
  apply (increment_inventory_iff "registry" (env_at 15) (outcome setup).1 s0 "e1" "ga" "carol" 1
           "gold" "payments" e1 tier1); try exact H; try exact setup_reachable;
    try exact size_ok; vm_compute; reflexivity.
Defined.

Definition sold1 : State :=
  state_of (Inventory.increment_inventory (env_at 15) s0 "e1" "ga" "carol" 1 "gold").

Lemma sold1_ok :
  Inventory.increment_inventory (env_at 15) s0 "e1" "ga" "carol" 1 "gold" = Ok (tt, sold1).
Proof. apply ok_state. vm_compute. reflexivity. Qed.

Lemma increment_inventory_effect_witness :
  ∃ e tier, Event s0 !! "e1" = Some e ∧ Event sold1 = <["e1" := sell e "ga" tier 1]> (Event s0).
Proof.
  destruct (increment_inventory_effect "registry" (env_at 15) (outcome setup).1 s0 "e1" "ga" "carol"
    1 "gold" sold1 setup_reachable ltac:(lia) ltac:(vm_compute; discriminate) sold1_ok)
    as (e & tier & He & _ & Hev & _).
  exists e, tier. split; [exact He|exact Hev].
Defined.

Definition refunded1 : State := state_of (Inventory.decrement_inventory (env_at 16) sold1 "e1" "ga").

Lemma decrement_inventory_spec_witness :
  ∃ s', Inventory.decrement_inventory (env_at 16) s0 "e1" "ga" = Ok (tt, s')
    ∧ Event s' = <["e1" := unsell e1 "ga" tier1]> (Event s0).
Proof.
  apply (decrement_inventory_spec "registry" (env_at 16) (outcome setup).1 s0 "e1" "ga" "payments"
    e1 tier1 setup_reachable); vm_compute; reflexivity || discriminate.
Defined.

Lemma sale_refund_roundtrip_witness :
  ei_current_supply (event_of refunded1 "e1") = 2
  ∧ storage.get_user_ticket_count refunded1 "e1" "ga" "carol" = 3
  ∧ storage.get_global_tickets_sold refunded1 = 3.
Proof.
  assert (Hd : Inventory.decrement_inventory (env_at 16) sold1 "e1" "ga" = Ok (tt, refunded1))
    by (apply ok_state; vm_compute; reflexivity).
  destruct (sale_refund_roundtrip "registry" (env_at 15) (env_at 16) (outcome setup).1 s0 "e1" "ga"
    "carol" "gold" sold1 refunded1 setup_reachable sold1_ok Hd)
    as (e & e2 & He & Hev & Hs & _ & _ & Hg).
  split; [|split; [vm_compute; reflexivity|rewrite Hg; vm_compute; reflexivity]].
  unfold event_of. rewrite Hev, lookup_insert_eq. cbn. rewrite Hs.
  apply (f_equal (λ o, ei_current_supply <$> o)) in He. vm_compute in He. by injection He.
Defined.

(** ** Staking *)
Definition staking : list (Env * entry) :=
  setup ++ [(env_at 30, SetStakingConfig "gold" 100);
            (env_at 31, StakeCollateral "alice" 300);
            (env_at 32, StakeCollateral "bob" 100)].
Definition st1 : SimpleLedger * State := outcome staking.

Lemma st1_reachable allow :
  history_ok "registry" allow staking = true → reachable "registry" allow st1.1 st1.2.
Proof.
  intros Ha. apply outcome_reachable, andb_true_iff. split; [exact Ha|]. vm_compute. reflexivity.
Qed.

Lemma reachable_staking_exact_witness :
  storage.get_total_staked st1.2 = map_sum os_amount (Stake st1.2)
  ∧ storage.get_total_staked st1.2 = 400.
Proof.
  split; [|vm_compute; reflexivity].
  apply (reachable_staking_exact "registry" any_entry st1.1 st1.2).
  apply st1_reachable. vm_compute. reflexivity.
Defined.

Lemma reachable_solvent_witness :
  map_sum owed (Stake st1.2) ≤ balance st1.1 "gold" "registry"
  ∧ balance st1.1 "gold" "registry" = 400.
Proof.
  split; [|vm_compute; reflexivity].
  apply (reachable_solvent "registry" "gold" st1.1 st1.2).
  apply st1_reachable. vm_compute. reflexivity.
Defined.

Definition paid1 : SimpleLedger * State :=
  match Staking.distribute_staker_rewards (env_at 40) st1.1 st1.2 "admin" 10 with
  | Ok ws => ws | _ => st1
  end.

Lemma distribute_proportional_witness :
  os_reward_balance <$> (Stake paid1.2 !! "alice") = Some 7
  ∧ os_reward_balance <$> (Stake paid1.2 !! "bob") = Some 2.
Proof.
  assert (Hd : Staking.distribute_staker_rewards (env_at 40) st1.1 st1.2 "admin" 10
               = Ok (paid1.1, paid1.2)).
  { unfold paid1. destruct (Staking.distribute_staker_rewards _ _ _ _ _) as [[w s]| |] eqn:E;
      [reflexivity|exfalso..]; apply (f_equal is_ok) in E; vm_compute in E; discriminate E. }
  destruct (distribute_proportional "registry" any_entry (env_at 40) st1.1 st1.2 "admin" 10 paid1.1
    paid1.2 (st1_reachable any_entry eq_refl) Hd) as [HS _]; [vm_compute; discriminate..|].
  rewrite HS, !lookup_fmap. split; vm_compute; reflexivity.
Defined.

(** ** Governance: a second administrator, then a threshold of two *)
Definition council : list (Env * entry) :=
  setup ++ [(env_at 30, ProposeParameterChange "admin" (AddAdmin "bob") 0);
            (env_at 31, ExecuteProposal "admin" 0);
            (env_at 32, ProposeParameterChange "admin" (SetThreshold 2) 0);
            (env_at 33, ExecuteProposal "bob" 1);
            (env_at 34, ProposeParameterChange "admin" (SetPlatformFee 300) 0);
            (env_at 35, ApproveProposal "bob" 2)].
Definition gv1 : SimpleLedger * State := outcome council.

Lemma gv1_reachable : reachable "registry" any_entry gv1.1 gv1.2.
Proof. apply outcome_reachable. vm_compute. reflexivity. Qed.

Definition prop_of (s : State) (i : Z) : Proposal :=
  default (MkProposal (-1) "" (SetThreshold 1) [] true false 0 0) (Proposals s !! i).

Lemma prop_of_some s i :
  bool_decide (is_Some (Proposals s !! i)) = true → Proposals s !! i = Some (prop_of s i).
Proof. unfold prop_of. intros [p ->]%bool_decide_eq_true. done. Qed.

Lemma reachable_proposals_ok_witness :
  NoDup (storage.get_active_proposals gv1.2) ∧ storage.get_active_proposals gv1.2 = [2].
Proof.
  split; [|vm_compute; reflexivity].
  apply (reachable_proposals_ok "registry" any_entry gv1.1 gv1.2 gv1_reachable).
Defined.

Definition executed2 : State := state_of (Governance.execute_proposal (env_at 36) gv1.2 "bob" 2).

Lemma executed2_ok : Governance.execute_proposal (env_at 36) gv1.2 "bob" 2 = Ok (tt, executed2).
Proof. apply ok_state. vm_compute. reflexivity. Qed.

Lemma execute_needs_quorum_witness :
  is_ok (Governance.execute_proposal (env_at 37) executed2 "admin" 2) = false
  ∧ storage.get_platform_fee executed2 = 300.
Proof.
  destruct (execute_needs_quorum "registry" any_entry (env_at 36) gv1.1 gv1.2 "bob" 2 executed2
    gv1_reachable executed2_ok) as (_ & _ & _ & _ & _ & _ & _ & _ & _ & _ & _ & _ & _ & H).
  split; [exact (proj1 (H (env_at 37) "admin"))|vm_compute; reflexivity].
Defined.

Lemma invoke_proposal_evolution_witness :
  ∃ p', Proposals (after gv1 (env_at 36) (CancelProposal "admin" 2)).2 !! 2 = Some p'
    ∧ pp_change p' = SetPlatformFee 300.
Proof.
  destruct (invoke_proposal_evolution "registry" any_entry (env_at 36) (CancelProposal "admin" 2)
    gv1.1 gv1.2 (after gv1 (env_at 36) (CancelProposal "admin" 2)).1
    (after gv1 (env_at 36) (CancelProposal "admin" 2)).2 2 (prop_of gv1.2 2) gv1_reachable)
    as (p' & Hp & _ & Hc & _).
  - apply after_ok. vm_compute. reflexivity.
  - apply prop_of_some. vm_compute. reflexivity.
  - exists p'. split; [exact Hp|]. rewrite Hc. vm_compute. reflexivity.
Defined.

Definition fee300 : State := state_of (Events.set_platform_fee (env_at 36) gv1.2 300).

Lemma platform_fee_needs_quorum_witness :
  storage.get_platform_fee fee300 = 300 ∧ storage.get_active_proposals fee300 = [].
Proof.
  split; [|vm_compute; reflexivity].
  apply (platform_fee_needs_quorum "registry" any_entry (env_at 36) gv1.1 gv1.2 300 fee300
    (MkMultiSig ["admin"; "bob"] 2) gv1_reachable).
  - vm_compute. reflexivity.
  - vm_compute. reflexivity.
  - apply ok_state. vm_compute. reflexivity.
Defined.

(** ** Disputes *)
Definition trial : list (Env * entry) :=
  setup ++ [(env_at 600, OpenDispute "e1" "carol");
            (env_at 601, VoteOnDispute "e1" "carol" BuyerFavor);
            (env_at 602, VoteOnDispute "e1" "dave" OrganizerFavor);
            (env_at 603, VoteOnDispute "e1" "erin" BuyerFavor)].
Definition dp1 : SimpleLedger * State := outcome trial.
Definition verdict : entry := ResolveDispute "e1".
Definition dp2 : SimpleLedger * State := outcome (trial ++ [(env_at 200000, verdict)]).

Lemma dp1_reachable : reachable "registry" any_entry dp1.1 dp1.2.
Proof. apply outcome_reachable. vm_compute. reflexivity. Qed.
Lemma dp2_reachable : reachable "registry" any_entry dp2.1 dp2.2.
Proof. apply outcome_reachable. vm_compute. reflexivity. Qed.

Definition dispute_of (s : State) (i : string) : Dispute :=
  default (MkDispute "" "" 0 0 DsExpired 0 0 0 0 0) (Disputes s !! i).

Lemma dispute_of_some s i :
  bool_decide (is_Some (Disputes s !! i)) = true → Disputes s !! i = Some (dispute_of s i).
Proof. unfold dispute_of. intros [d ->]%bool_decide_eq_true. done. Qed.

Lemma reachable_tally_exact_witness :
  dp_buyer_votes (dispute_of dp1.2 "e1") = 2 ∧ dp_total_votes (dispute_of dp1.2 "e1") = 3.
Proof.
  destruct (reachable_tally_exact "registry" any_entry dp1.1 dp1.2 "e1" (dispute_of dp1.2 "e1")
    dp1_reachable (dispute_of_some dp1.2 "e1" ltac:(vm_compute; reflexivity)))
    as (Hb & _ & _ & Hc).
  split; [rewrite Hb; vm_compute; reflexivity|rewrite <- Hc; vm_compute; reflexivity].
Defined.

Lemma vote_is_final_witness :
  is_ok (dispute.vote_on_dispute (env_at 605)
           (after dp1 (env_at 604) (VoteOnDispute "e1" "frank" BuyerFavor)).2
           "e1" "carol" OrganizerFavor) = false.
Proof.
  refine (proj2 (vote_is_final "registry" any_entry (env_at 604)
    (VoteOnDispute "e1" "frank" BuyerFavor) dp1.1 dp1.2
    (after dp1 (env_at 604) (VoteOnDispute "e1" "frank" BuyerFavor)).1
    (after dp1 (env_at 604) (VoteOnDispute "e1" "frank" BuyerFavor)).2
    "e1" "carol" BuyerFavor dp1_reachable _ _) (env_at 605) OrganizerFavor).
  - vm_compute. reflexivity.
  - apply after_ok. vm_compute. reflexivity.
Defined.

Definition ruled : State :=
  match dispute.resolve_dispute (env_at 200000) dp1.2 "e1" with Ok (_, s) => s | _ => dp1.2 end.

Lemma ruled_ok :
  dispute.resolve_dispute (env_at 200000) dp1.2 "e1" = Ok (DsResolvedBuyer, ruled).
Proof.
  assert (H : (match dispute.resolve_dispute (env_at 200000) dp1.2 "e1" with
               | Ok (r, _) => bool_decide (r = DsResolvedBuyer) | _ => false end) = true)
    by (vm_compute; reflexivity).
  unfold ruled. destruct (dispute.resolve_dispute _ _ _) as [[r s]| |]; [|discriminate..].
  by apply bool_decide_eq_true in H as ->.
Qed.

Lemma resolve_by_majority_witness :
  DsResolvedBuyer = (if dp_organizer_votes (dispute_of dp1.2 "e1")
                        <? dp_buyer_votes (dispute_of dp1.2 "e1")
                     then DsResolvedBuyer else DsResolvedOrganizer).
Proof.
  apply (resolve_by_majority "registry" any_entry (env_at 200000) dp1.1 dp1.2 "e1"
    (dispute_of dp1.2 "e1") DsResolvedBuyer ruled dp1_reachable).
  - apply dispute_of_some. vm_compute. reflexivity.
  - vm_compute. reflexivity.
  - exact ruled_ok.
Defined.

Lemma resolve_dispute_total_witness :
  is_ok (dispute.resolve_dispute (env_at 200000) dp1.2 "e1") = true.
Proof.
  apply (resolve_dispute_total "registry" any_entry (env_at 200000) dp1.1 dp1.2 "e1"
    (dispute_of dp1.2 "e1") dp1_reachable).
  - apply dispute_of_some. vm_compute. reflexivity.
  - vm_compute. reflexivity.
  - vm_compute. reflexivity.
Defined.

Lemma ruling_is_final_witness :
  Disputes (after dp2 (env_at 200001) verdict).2 !! "e1" = Some (dispute_of dp2.2 "e1").
Proof.
  apply (ruling_is_final "registry" any_entry (env_at 200001) verdict dp2.1 dp2.2
    (after dp2 (env_at 200001) verdict).1 (after dp2 (env_at 200001) verdict).2 "e1"
    (dispute_of dp2.2 "e1") dp2_reachable).
  - apply dispute_of_some. vm_compute. reflexivity.
  - vm_compute. reflexivity.
  - apply after_ok. vm_compute. reflexivity.
Defined.

(** ** Index and blacklist *)
Lemma setup_unarchived : reachable "registry" unarchived (outcome setup).1 s0.
Proof. apply outcome_reachable. vm_compute. reflexivity. Qed.

Lemma organizer_index_complete_witness :
  NoDup (storage.get_organizer_events s0 "bob" "carol")
  ∧ storage.get_organizer_events s0 "bob" "carol" = []
  ∧ storage.get_organizer_events s0 "bob" "bob" = ["e2"].
Proof.
  split; [|split; vm_compute; reflexivity].
  apply (organizer_index_complete "registry" (outcome setup).1 s0 "bob" "carol" setup_unarchived).
Defined.

Definition banned : State := state_of (Events.blacklist_organizer (env_at 20) s0 "alice" "fraud").

Lemma blacklist_suspends_witness :
  storage.is_blacklisted banned "alice" = true
  ∧ ei_is_active (event_of banned "e1") = false ∧ ei_is_active (event_of banned "e2") = true.
Proof.
  split; [|split; vm_compute; reflexivity].
  apply (blacklist_suspends "registry" (env_at 20) (outcome setup).1 s0 "alice" "fraud" banned
    setup_unarchived).
  - vm_compute. reflexivity.
  - apply ok_state. vm_compute. reflexivity.
Defined.

(** ** Event registry: where the guarantees end

    Concrete histories that show which side conditions of the invariants are
    needed: the legacy writer, archiving, a second staking token, proposals
    validated only when they are made. *)

#[local] Existing Instance all_hold.

(** The organizer can oversell through the legacy [store_event]: the record
    is written as given. *)
Theorem legacy_writer_oversells :
  let e := event_of s0 "e1" in
  let s := state_of (Events.store_event (env_at 20) s0 (e ⟨ ei_current_supply := 1000 ⟩)) in
  ei_max_supply (event_of s "e1") = 20 ∧ ei_current_supply (event_of s "e1") = 1000.
Proof. split; vm_compute; reflexivity. Qed.

(** Making a private active event public and inactive in one write takes one
    off the counter that was never added: "e1" is still active and public,
    yet the counter reads zero. *)
Theorem legacy_writer_miscounts :
  let e := event_of s0 "e2" in
  let s := state_of (Events.store_event (env_at 20) s0
                       (e ⟨ ei_is_private := false ⟩ ⟨ ei_is_active := false ⟩)) in
  storage.get_global_active_event_count s = 0
  ∧ ei_is_active (event_of s "e1") = true ∧ ei_is_private (event_of s "e1") = false.
Proof. cbv zeta. split_and!; vm_compute; reflexivity. Qed.

(** Fifty-one events of one organizer, the first of them archived. *)
Definition many (n : nat) : list (Env * entry) :=
  map (λ k, (env_at 20, RegisterEvent (args0 (pretty (N.of_nat k)) "alice" false))) (seq 0 n).
Definition archived51 : SimpleLedger * State :=
  outcome ([(env_at 10, Initialize "admin" "wallet" 250 "gold")] ++ many 51
           ++ [(env_at 30, UpdateEventStatus "0" false); (env_at 31, ArchiveEvent "0")]).

(** After one archival the reader visits one bucket too few: event "50" is
    stored and active but no longer listed, and blacklisting its organizer
    leaves it on sale. *)
Theorem archive_hides_last_bucket :
  ei_is_active (event_of archived51.2 "50") = true
  ∧ bool_decide ("50" ∈ storage.get_organizer_events archived51.2 "alice" "alice") = false
  ∧ let s := state_of (Events.blacklist_organizer (env_at 40) archived51.2 "alice" "fraud") in
    storage.is_blacklisted s "alice" = true
    ∧ ei_is_active (event_of s "1") = false ∧ ei_is_active (event_of s "50") = true.
Proof. cbv zeta. split_and!; vm_compute; reflexivity. Qed.

(** A suspended organizer can switch the event on again: activation does not
    look at the blacklist. *)
Theorem blacklisted_organizer_reactivates :
  let s := state_of (Events.update_event_status (env_at 21) banned "e1" true) in
  storage.is_blacklisted s "alice" = true ∧ ei_is_active (event_of s "e1") = true.
Proof. split; vm_compute; reflexivity. Qed.

(** A distribution in "lead" to stakers of "gold". *)
Definition switched : SimpleLedger * State :=
  outcome (staking ++ [(env_at 40, SetStakingConfig "lead" 1);
                       (env_at 41, DistributeStakerRewards "admin" 200);
                       (env_at 42, ClaimStakerRewards "alice")]).

(** Rewards are credited in the token of each stake but deposited in the
    token configured now: after a switch to "lead", alice withdraws "gold" she
    was never paid and the contract no longer covers the collateral. *)
Theorem token_switch_insolvent :
  balance switched.1 "gold" "registry" = 250
  ∧ map_sum os_amount (Stake switched.2) = 400
  ∧ (os_token <$> (Stake switched.2 !! "alice")) = Some "gold".
Proof. cbv zeta. split_and!; vm_compute; reflexivity. Qed.

(** Unstaking forfeits rewards that were not claimed. *)
Theorem unstake_forfeits_rewards :
  let ws := outcome (staking ++ [(env_at 41, DistributeStakerRewards "admin" 200);
                                 (env_at 42, UnstakeCollateral "alice")]) in
  (os_reward_balance <$> (Stake (outcome (staking ++
      [(env_at 41, DistributeStakerRewards "admin" 200)])).2 !! "alice")) = Some 150
  ∧ balance ws.1 "gold" "alice" = 1000 ∧ Stake ws.2 !! "alice" = None.
Proof. cbv zeta. split_and!; vm_compute; reflexivity. Qed.

(** A threshold of two proposed while "bob" was an administrator, executed after he left. *)
Definition stale : SimpleLedger * State :=
  outcome (setup ++ [(env_at 30, ProposeParameterChange "admin" (AddAdmin "bob") 0);
                     (env_at 31, ExecuteProposal "admin" 0);
                     (env_at 32, ProposeParameterChange "admin" (SetThreshold 2) 0);
                     (env_at 33, ProposeParameterChange "admin" (RemoveAdmin "bob") 0);
                     (env_at 34, ExecuteProposal "admin" 2);
                     (env_at 35, ExecuteProposal "admin" 1)]).

(** Proposals are validated when made, not when executed: a threshold that
    was legal then can exceed the number of administrators left, after which
    a proposal that all of them, here one, approve is not executable. *)
Theorem stale_threshold_locks :
  MultiSig stale.2 = Some (MkMultiSig ["admin"] 2)
  ∧ Governance.execute_proposal (env_at 38)
      (after (after stale (env_at 36) (ProposeParameterChange "admin" (SetThreshold 1) 0))
         (env_at 37) (ApproveProposal "admin" 3)).2 "admin" 3 = Err MultisigError.
Proof. split; vm_compute; reflexivity. Qed.

(** Two removals proposed while both were legal leave no administrator at all;
    the legacy admin address keeps its powers. *)
Theorem removals_empty_council :
  let s := (outcome (setup ++
    [(env_at 30, ProposeParameterChange "admin" (AddAdmin "bob") 0);
     (env_at 31, ExecuteProposal "admin" 0);
     (env_at 32, ProposeParameterChange "bob" (RemoveAdmin "admin") 0);
     (env_at 33, ProposeParameterChange "bob" (RemoveAdmin "bob") 0);
     (env_at 34, ExecuteProposal "bob" 1); (env_at 35, ExecuteProposal "bob" 2)])).2 in
  MultiSig s = Some (MkMultiSig [] 0) ∧ Admin s = Some "bob".
Proof. split; vm_compute; reflexivity. Qed.

(** The tag validator refuses every multi-byte UTF-8 character: "é" is the
    bytes 0xC3 0xA9. *)
Theorem tags_refuse_utf8 :
  validate_tags [String (Ascii.ascii_of_nat 195) (String (Ascii.ascii_of_nat 169) EmptyString)]
  = Err InvalidTags.
Proof. vm_compute. reflexivity. Qed.
