(* ===== verification/PayTypes.v ===== *)
(** * Ticket payment: data types, interfaces and storage

    [types.rs], [payment_types.rs], [governance.rs], [escrow.rs] and
    [resale.rs] (their structs), [error.rs], [events.rs], [keys.rs] and
    [interfaces.rs] of [contract/contracts/ticket_payment/src].  [DataKey] and
    [PricingKey] become the record [State], as in the registry.  The other
    contracts that the code calls (event registry, price oracle, membership)
    and the host's hash function are classes: the traits of [interfaces.rs]. *)

From S2P Require Import Prelude Machine Host.

(** The variants of the enum with their [u32] codes in comments where the
    declaration skips them: [InvalidSecret] (28) to [InvalidAmount] (34) are
    used by the code and by the decoder of [error.rs] but the enum does not
    declare them; [PaymentAlreadyExists] has no code at all. *)
Inductive TicketPaymentError : Type :=
| AlreadyInitialized | InvalidAddress | NotInitialized | EventNotFound
| EventInactive | TokenNotWhitelisted | MaxSupplyExceeded | PaymentNotFound
| InvalidPaymentStatus | TicketNotRefundable | TierNotFound
| InsufficientAllowance | TransferVerificationFailed | ArithmeticError
| SelfReferralNotAllowed | PriceMismatch | InvalidPrice | InvalidDiscountCode
| DiscountCodeUsed | Unauthorized | EventNotCompleted | NoFundsAvailable
| RefundDeadlinePassed | WithdrawalCapExceeded | InsufficientFees
| ResalePriceExceedsCap | ContractPaused
| InvalidSecret | CommitExpired | DiscountExpired | DiscountMaxUsesReached
| DisputeNotResolved | EscrowNotInitialized | InvalidAmount
| EventCancelled | EventDisputed | UnauthorizedScanner | TicketAlreadyUsed
| GoalNotMet | OracleNotConfigured | OraclePriceUnavailable
| PriceOutsideSlippage | InvalidSlippageBps | AuctionNotActive | BidTooLow
| AuctionEnded | AuctionNotEnded | NotAuctionTier | NotGovernor
| InvalidProposal | ProposalNotActive | AlreadyVoted | VotingPeriodNotMet
| InsufficientVotes | ProposalExpired | OraclePriceStale
| CannotRemoveLastGovernor | InvalidFeePercent | EventEnded
| TicketAlreadyListed | ResaleListingNotFound | ResaleListingNotActive
| NonTransferable | InvalidRoyaltyBps | EmptyBatch | BatchTooLarge
| PaymentAlreadyExists.

Definition TRANSFER_FEE_BPS : Z := 100.
Definition MAX_BPS : Z := 10000.

Record AuctionConfig : Type := MkAuctionConfig {
  ac_start_price : Z;
  ac_end_time : Z;
  ac_min_increment : Z
}.

Record PriceSchedule : Type := MkSchedule {
  ps_price : Z;
  ps_valid_until : Z
}.

Inductive PaymentStatus : Type := Pending | Confirmed | Refunded | Failed | CheckedIn.
#[export] Instance PaymentStatus_eq_dec : EqDecision PaymentStatus.
Proof. solve_decision. Defined.
Definition status_index (p : PaymentStatus) : nat :=
  match p with Pending => 0 | Confirmed => 1 | Refunded => 2 | Failed => 3 | CheckedIn => 4 end.
#[export] Program Instance PaymentStatus_countable : Countable PaymentStatus :=
  {| encode p := encode (status_index p);
     decode n := i ← decode n;
       nth_error [Pending; Confirmed; Refunded; Failed; CheckedIn] i |}.
Next Obligation. intros []; reflexivity. Qed.

Record Payment : Type := MkPayment {
  py_payment_id : string;
  py_event_id : string;
  py_buyer_address : Address;
  py_owner_address : Address;
  py_ticket_tier_id : string;
  py_token_address : Address;
  py_amount : Z;
  py_platform_fee : Z;
  py_organizer_amount : Z;
  py_status : PaymentStatus;
  py_transaction_hash : string;
  py_created_at : Z;
  py_confirmed_at : option Z;
  py_refunded_amount : Z;
  py_is_soulbound : bool;
  py_last_checked_in_at : Z;
  py_referral_amount : Z;
  py_referrer : option Address
}.
#[export] Instance eta_Payment : Eta Payment := λ x,
  MkPayment (py_payment_id x) (py_event_id x) (py_buyer_address x) (py_owner_address x)
  (py_ticket_tier_id x) (py_token_address x) (py_amount x) (py_platform_fee x)
  (py_organizer_amount x) (py_status x) (py_transaction_hash x) (py_created_at x)
  (py_confirmed_at x) (py_refunded_amount x) (py_is_soulbound x)
  (py_last_checked_in_at x) (py_referral_amount x) (py_referrer x).

Record EventBalance : Type := MkBalance {
  eb_organizer_amount : Z;
  eb_total_withdrawn : Z;
  eb_platform_fee : Z
}.
#[export] Instance eta_EventBalance : Eta EventBalance := λ x,
  MkBalance (eb_organizer_amount x) (eb_total_withdrawn x) (eb_platform_fee x).

Record DiscountData : Type := MkDiscount {
  dd_percentage : Z;
  dd_expires_at : Z;
  dd_max_uses : Z;
  dd_current_uses : Z
}.
#[export] Instance eta_DiscountData : Eta DiscountData := λ x,
  MkDiscount (dd_percentage x) (dd_expires_at x) (dd_max_uses x) (dd_current_uses x).

Record PurchaseOptions : Type := MkOptions {
  po_code_preimage : option string;
  po_referrer : option Address;
  po_discount_code : option string
}.

Record HighestBid : Type := MkBid {
  hb_bidder : Address;
  hb_token_address : Address;
  hb_amount : Z
}.

(** [governance.rs] *)
Inductive ParameterChange : Type :=
| AddGovernor (a : Address)
| RemoveGovernor (a : Address)
| AddTokenToWhitelist (token : Address)
| RemoveTokenFromWhitelist (token : Address)
| UpdateWithdrawalCap (token : Address) (cap : Z)
| UpdateSlippage (bps : Z)
| UpdateTransferFee (event_id : string) (fee : Z)
| EscrowWithdrawal (event_id : string) (amount : Z).

Inductive ProposalStatus : Type := PropPending | PropExecuted | PropRejected.
#[export] Instance ProposalStatus_eq_dec : EqDecision ProposalStatus.
Proof. solve_decision. Defined.

Record ParameterProposal : Type := MkProposal {
  pr_id : Z;
  pr_proposer : Address;
  pr_change : ParameterChange;
  pr_status : ProposalStatus;
  pr_created_at : Z;
  pr_expires_at : Z;
  pr_vote_count : Z;
  pr_voters : list Address
}.
#[export] Instance eta_ParameterProposal : Eta ParameterProposal := λ x,
  MkProposal (pr_id x) (pr_proposer x) (pr_change x) (pr_status x) (pr_created_at x)
  (pr_expires_at x) (pr_vote_count x) (pr_voters x).

(** [escrow.rs] *)
Record EscrowMilestone : Type := MkEscrowMilestone {
  em_sales_threshold : Z;
  em_release_percent : Z;
  em_released : bool
}.

Record EscrowState : Type := MkEscrowState {
  es_total_collected : Z;
  es_total_released : Z;
  es_milestones_reached : Z
}.
#[export] Instance eta_EscrowState : Eta EscrowState := λ x,
  MkEscrowState (es_total_collected x) (es_total_released x) (es_milestones_reached x).

(** [resale.rs] *)
Inductive ResaleStatus : Type := RsActive | RsCancelled | RsCompleted | RsSold.
#[export] Instance ResaleStatus_eq_dec : EqDecision ResaleStatus.
Proof. solve_decision. Defined.

(** The struct also declares [price], [max_price] and [royalty_bps]; the only
    place that builds a listing does not set them and nothing reads them. *)
Record ResaleListing : Type := MkListing {
  rl_payment_id : string;
  rl_event_id : string;
  rl_seller : Address;
  rl_ask_price : Z;
  rl_status : ResaleStatus;
  rl_listed_at : Z
}.
#[export] Instance eta_ResaleListing : Eta ResaleListing := λ x,
  MkListing (rl_payment_id x) (rl_event_id x) (rl_seller x) (rl_ask_price x)
  (rl_status x) (rl_listed_at x).

(** [auction.rs] *)
Record PendingCommit : Type := MkCommit {
  pc_hash : string;
  pc_expires_at : Z;
  pc_committed_price : Z;
  pc_max_slippage_bps : Z
}.

Record DutchAuctionConfig : Type := MkDutch {
  da_start_price : Z;
  da_reserve_price : Z;
  da_start_time : Z;
  da_end_time : Z;
  da_exponential : bool
}.

(** [bonding_curve.rs] *)
Record BondingCurveConfig : Type := MkCurve {
  bc_a_scaled : Z;
  bc_b_exponent : Z;
  bc_c_base : Z;
  bc_initial_supply : Z
}.

(** ** The contracts it calls: [interfaces.rs] *)
Record PriceData : Type := MkPrice { pd_price : Z; pd_timestamp : Z }.

Inductive EventStatus : Type := EsActive | EsInactive | EsCancelled.
#[export] Instance EventStatus_eq_dec : EqDecision EventStatus.
Proof. solve_decision. Defined.

Inductive DisputeStatus : Type :=
| DsOpen | DsVoting | DsResolvedBuyer | DsResolvedOrganizer | DsExpired.
#[export] Instance DisputeStatus_eq_dec : EqDecision DisputeStatus.
Proof. solve_decision. Defined.

(** Of the dispute record the contract reads the status only. *)
Record Dispute : Type := MkDispute {
  dp_event_id : string;
  dp_opened_by : Address;
  dp_opened_at : Z;
  dp_closes_at : Z;
  dp_status : DisputeStatus;
  dp_total_votes : Z;
  dp_buyer_votes : Z;
  dp_organizer_votes : Z;
  dp_quorum_threshold_bps : Z;
  dp_total_eligible_tickets : Z
}.

Record TicketTier : Type := MkTier {
  tt_name : string;
  tt_price : Z;
  tt_early_bird_price : Z;
  tt_early_bird_deadline : Z;
  tt_usd_price : Z;
  tt_tier_limit : Z;
  tt_current_sold : Z;
  tt_is_refundable : bool;
  tt_auction_config : list AuctionConfig;
  tt_loyalty_multiplier : Z
}.
#[export] Instance eta_TicketTier : Eta TicketTier := λ x,
  MkTier (tt_name x) (tt_price x) (tt_early_bird_price x) (tt_early_bird_deadline x)
  (tt_usd_price x) (tt_tier_limit x) (tt_current_sold x) (tt_is_refundable x)
  (tt_auction_config x) (tt_loyalty_multiplier x).

Record Milestone : Type := MkMilestone {
  ms_sales_threshold : Z;
  ms_release_percent : Z
}.

Record EventInfo : Type := MkEvent {
  ev_event_id : string;
  ev_name : string;
  ev_organizer_address : Address;
  ev_payment_address : Address;
  ev_platform_fee_percent : Z;
  ev_is_active : bool;
  ev_status : EventStatus;
  ev_created_at : Z;
  ev_metadata_cid : string;
  ev_max_supply : Z;
  ev_current_supply : Z;
  ev_milestone_plan : option (list Milestone);
  ev_tiers : gmap string TicketTier;
  ev_refund_deadline : Z;
  ev_restocking_fee : Z;
  ev_resale_cap_bps : option Z;
  ev_min_sales_target : Z;
  ev_target_deadline : Z;
  ev_goal_met : bool;
  ev_custom_fee_bps : option Z;
  ev_banner_cid : option string;
  ev_tags : option (list string);
  ev_start_time : Z;
  ev_end_time : Z;
  ev_accepted_tokens : list Address;
  ev_use_global_whitelist : bool;
  ev_referral_rate_bps : Z
}.
#[export] Instance eta_EventInfo : Eta EventInfo := λ x,
  MkEvent (ev_event_id x) (ev_name x) (ev_organizer_address x) (ev_payment_address x)
  (ev_platform_fee_percent x) (ev_is_active x) (ev_status x) (ev_created_at x)
  (ev_metadata_cid x) (ev_max_supply x) (ev_current_supply x) (ev_milestone_plan x)
  (ev_tiers x) (ev_refund_deadline x) (ev_restocking_fee x) (ev_resale_cap_bps x)
  (ev_min_sales_target x) (ev_target_deadline x) (ev_goal_met x) (ev_custom_fee_bps x)
  (ev_banner_cid x) (ev_tags x) (ev_start_time x) (ev_end_time x)
  (ev_accepted_tokens x) (ev_use_global_whitelist x) (ev_referral_rate_bps x).

(** [event_registry::Client] over a registry whose state is an [R].  A method
    called through its [try_] variant answers [None] when the call fails (for
    an optional result, also when there is none: the code does not tell them
    apart); a plain call that fails traps the caller and answers [None] too. *)
Class EventRegistryInterface (R : Type) := {
  try_get_event : R → string → option EventInfo;
  try_get_dispute : R → string → option Dispute;
  get_global_promo_bps : R → option Z;
  get_promo_expiry : R → option Z;
  is_scanner_authorized : R → string → Address → option bool;
  try_get_loyalty_discount_bps : R → Address → option Z;
  increment_inventory : R → Env → string → string → Address → Z → Address → option R;
  decrement_inventory : R → Env → string → string → Address → option R;
  try_update_loyalty_score : R → Env → Address → Address → Z → Z → Z → option R
}.

(** [OracleClient::lastprice] and [ProSubscriptionClient::try_is_pro_member] at
    the configured addresses; [env.crypto().sha256] and [Address::to_xdr]. *)
Class PriceOracleInterface := lastprice : Address → Address → option (option PriceData).
Class ProSubscriptionInterface := try_is_pro_member : Address → Address → option bool.
Class HostCrypto := {
  sha256 : string → string;
  to_xdr : Address → string
}.

(** ** Events: the topics and payloads of [events.rs] *)
Inductive AgoraEvent : Type :=
| EvPaymentProcessed (payment_id event_id : string) (buyer_address : Address) (amount platform_fee timestamp : Z)
| EvPaymentStatusChanged (payment_id : string) (old_status new_status : PaymentStatus) (transaction_hash : string) (timestamp : Z)
| EvContractInitialized (usdc_token platform_wallet event_registry : Address)
| EvContractUpgraded (old_wasm_hash new_wasm_hash : string)
| EvTicketTransferred (payment_id : string) (from to : Address) (transfer_fee timestamp : Z)
| EvPriceSwitched (event_id tier_id : string) (new_price timestamp : Z)
| EvBulkRefundProcessed (event_id : string) (refund_count total_refunded timestamp : Z)
| EvDiscountCodeApplied (payment_id event_id code_hash : string) (discount_amount timestamp : Z)
| EvRevenueClaimed (event_id : string) (organizer_address : Address) (amount timestamp : Z)
| EvFeeSettled (event_id : string) (platform_wallet : Address) (fee_amount fee_bps timestamp : Z)
| EvGlobalPromoApplied (payment_id event_id : string) (promo_bps discount_amount timestamp : Z)
| EvContractPaused (paused : bool) (timestamp : Z)
| EvDisputeStatusChanged (event_id : string) (is_disputed : bool) (timestamp : Z)
| EvPartialRefundProcessed (event_id : string) (refund_count total_refunded percentage_bps timestamp : Z)
| EvTicketCheckedIn (payment_id event_id : string) (attendee scanner : Address) (timestamp : Z)
| EvBidPlaced (event_id tier_id : string) (bidder : Address) (amount timestamp : Z)
| EvAuctionClosed (event_id tier_id : string) (winner : Address) (amount timestamp : Z)
| EvProposalCreated (proposal_id : Z) (proposer : Address) (change : ParameterChange) (timestamp : Z)
| EvProposalVoted (proposal_id : Z) (voter : Address) (timestamp : Z)
| EvGovernanceActionExecuted (proposal_id : Z) (change : ParameterChange) (timestamp : Z)
| EvContractVerificationFailed (missing_key : string) (timestamp : Z)
| EvResaleListed (payment_id : string) (seller : Address) (ask_price timestamp : Z)
| EvResaleCancelled (payment_id : string) (seller : Address) (timestamp : Z)
| EvResalePurchased (payment_id : string) (seller buyer : Address) (price royalty timestamp : Z)
| EvPoapMinted (payment_id event_id : string) (attendee : Address) (timestamp : Z)
| EvEventCancelled (event_id : string) (organizer : Address) (timestamp : Z)
| EvCancellationRefundClaimed (payment_id event_id : string) (buyer : Address) (amount timestamp : Z)
| EvEscrowWithdrawalProposed (proposal_id : Z) (event_id : string) (amount : Z) (proposer : Address) (timestamp : Z)
| EvEscrowWithdrawalApproved (proposal_id : Z) (approver : Address) (timestamp : Z)
| EvEscrowWithdrawalExecuted (proposal_id : Z) (event_id : string) (amount : Z) (executor : Address) (timestamp : Z)
| EvMilestoneReleased (event_id : string) (milestone_index amount_released timestamp : Z).

(** ** Storage *)
Record State : Type := MkState {
  Payments : gmap string Payment;
  EventPayment : gmap (string * string) bool;
  EventPaymentShard : gmap (string * Z) (list string);
  EventPaymentCount : gmap string Z;
  BuyerPayment : gmap (string * string) bool;
  BuyerPaymentShard : gmap (string * Z) (list string);
  BuyerPaymentCount : gmap string Z;
  Admin : option Address;
  UsdcToken : option Address;
  PlatformWallet : option Address;
  EventRegistry : option Address;
  ProSubscriptionContract : option Address;
  Initialized : option bool;
  TokenWhitelist : gmap string bool;
  Balances : gmap string EventBalance;
  TransferFee : gmap string Z;
  BulkRefundIndex : gmap string Z;
  PriceSwitched : gmap (string * string) bool;
  TotalVolumeProcessed : option Z;
  TotalFeesCollected : gmap string Z;
  ActiveEscrowTotal : option Z;
  ActiveEscrowByToken : gmap string Z;
  DiscountCodeHash : gmap string bool;
  DiscountHashUsed : gmap string bool;
  DiscountCode : gmap (string * string) DiscountData;
  WithdrawalCap : gmap string Z;
  DailyWithdrawalAmount : gmap (string * Z) Z;
  IsPaused : option bool;
  EventCancelledForRefund : gmap string bool;
  PartialRefundIndex : gmap string Z;
  PartialRefundPercentage : gmap string Z;
  OracleAddress : option Address;
  SlippageBps : option Z;
  HighestBids : gmap (string * string) HighestBid;
  AuctionClosed : gmap (string * string) bool;
  Governor : gmap string bool;
  TotalGovernors : option Z;
  Proposals : gmap Z ParameterProposal;
  ProposalCount : option Z;
  EventPaymentStatus : gmap (string * PaymentStatus) (list string);
  EventPaymentStatusEntry : gmap (string * PaymentStatus * string) bool;
  ValidationHash : gmap string string;
  AffiliateRate : gmap (string * string) Z;
  PoapMinted : gmap string bool;
  PoapsByAttendee : gmap (string * Z) (list string);
  PoapsByAttendeeCount : gmap string Z;
  ResaleListings : gmap string ResaleListing;
  ResaleRoyaltyBps : gmap string Z;
  EscrowStates : gmap string EscrowState;
  EscrowMilestones : gmap (string * Z) EscrowMilestone;
  DutchAuction : gmap (string * string) DutchAuctionConfig;
  BondingCurve : gmap (string * string) BondingCurveConfig;
  PendingCommits : gmap (string * string * string) PendingCommit;
  published : list AgoraEvent
}.
#[export] Instance eta_State : Eta State := λ x,
  MkState (Payments x) (EventPayment x) (EventPaymentShard x) (EventPaymentCount x)
  (BuyerPayment x) (BuyerPaymentShard x) (BuyerPaymentCount x) (Admin x) (UsdcToken x)
  (PlatformWallet x) (EventRegistry x) (ProSubscriptionContract x) (Initialized x)
  (TokenWhitelist x) (Balances x) (TransferFee x) (BulkRefundIndex x) (PriceSwitched x)
  (TotalVolumeProcessed x) (TotalFeesCollected x) (ActiveEscrowTotal x)
  (ActiveEscrowByToken x) (DiscountCodeHash x) (DiscountHashUsed x) (DiscountCode x)
  (WithdrawalCap x) (DailyWithdrawalAmount x) (IsPaused x) (EventCancelledForRefund x)
  (PartialRefundIndex x) (PartialRefundPercentage x) (OracleAddress x) (SlippageBps x)
  (HighestBids x) (AuctionClosed x) (Governor x) (TotalGovernors x) (Proposals x)
  (ProposalCount x) (EventPaymentStatus x) (EventPaymentStatusEntry x)
  (ValidationHash x) (AffiliateRate x) (PoapMinted x) (PoapsByAttendee x)
  (PoapsByAttendeeCount x) (ResaleListings x) (ResaleRoyaltyBps x) (EscrowStates x)
  (EscrowMilestones x) (DutchAuction x) (BondingCurve x) (PendingCommits x)
  (published x).

(** The storage of a contract instance that was just deployed. *)
Definition empty_state : State :=
  MkState ∅ ∅ ∅ ∅ ∅ ∅ ∅ None None None None None None ∅ ∅ ∅ ∅ ∅ None ∅ None ∅ ∅ ∅ ∅ ∅ ∅
  None ∅ ∅ ∅ None None ∅ ∅ ∅ None ∅ None ∅ ∅ ∅ ∅ ∅ ∅ ∅ ∅ ∅ ∅ ∅ ∅ ∅ ∅ [].

(** [env.events().publish] *)
Definition emit (s : State) (e : AgoraEvent) : State :=
  s ⟨ published ::= λ l, l ++ [e] ⟩.

(** A call that changes the contract's own storage only, and one that also
    moves tokens. *)
Definition call (A : Type) : Type := res TicketPaymentError (A * State).
Definition tcall (W A : Type) : Type := res TicketPaymentError (A * W * State).
