(* ===== verification/PayStorage.v ===== *)
(** * Ticket payment: the storage layer

    [storage.rs] and the storage helpers of [resale.rs], [auction.rs] and
    [bonding_curve.rs] of [contract/contracts/ticket_payment/src], one
    definition per function.  An addition or subtraction that is unwrapped
    traps on overflow; TTL extension is the identity. *)

From S2P Require Import Prelude Machine Host PayTypes.

Module storage.

Abbreviation eff := (res TicketPaymentError State) (only parsing).

Definition SHARD_SIZE : Z := 100.

Definition set_admin (s : State) (admin : Address) : State := s ⟨ Admin := Some admin ⟩.
Definition get_admin (s : State) : option Address := Admin s.

(** ** Payment indexes *)
Definition get_event_payment_count (s : State) (event_id : string) : Z :=
  default 0 (EventPaymentCount s !! event_id).
Definition get_event_payments (s : State) (event_id : string) : list string :=
  let count := get_event_payment_count s event_id in
  if count =? 0 then []
  else
    let num_shards := div_ceil count SHARD_SIZE in
    i ← seqZ 0 num_shards;
    default [] (EventPaymentShard s !! (event_id, i)).

Definition get_buyer_payment_count (s : State) (buyer_address : Address) : Z :=
  default 0 (BuyerPaymentCount s !! buyer_address).
Definition get_buyer_payments (s : State) (buyer_address : Address) : list string :=
  let count := get_buyer_payment_count s buyer_address in
  if count =? 0 then []
  else
    let num_shards := div_ceil count SHARD_SIZE in
    i ← seqZ 0 num_shards;
    default [] (BuyerPaymentShard s !! (buyer_address, i)).

Definition add_payment_to_event_index (s : State) (event_id payment_id : string) : eff :=
  if bool_decide (is_Some (EventPayment s !! (event_id, payment_id))) then Ok s
  else
    let count := get_event_payment_count s event_id in
    let shard_id := count / SHARD_SIZE in
    let shard := default [] (EventPaymentShard s !! (event_id, shard_id)) in
    let s := s ⟨ EventPaymentShard ::= <[(event_id, shard_id) := shard ++ [payment_id]]> ⟩ in
    let! n := unwrap (checked_u32 (count + 1)) in
    let s := s ⟨ EventPaymentCount ::= <[event_id := n]> ⟩ in
    Ok (s ⟨ EventPayment ::= <[(event_id, payment_id) := true]> ⟩).

Definition add_payment_to_buyer_index (s : State) (buyer_address : Address)
    (payment_id : string) : eff :=
  if bool_decide (is_Some (BuyerPayment s !! (buyer_address, payment_id))) then Ok s
  else
    let count := get_buyer_payment_count s buyer_address in
    let shard_id := count / SHARD_SIZE in
    let shard := default [] (BuyerPaymentShard s !! (buyer_address, shard_id)) in
    let s := s ⟨ BuyerPaymentShard ::= <[(buyer_address, shard_id) := shard ++ [payment_id]]> ⟩ in
    let! n := unwrap (checked_u32 (count + 1)) in
    let s := s ⟨ BuyerPaymentCount ::= <[buyer_address := n]> ⟩ in
    Ok (s ⟨ BuyerPayment ::= <[(buyer_address, payment_id) := true]> ⟩).

(** The [for i in 0..num_shards] loop with its [break]. *)
Fixpoint remove_loop (s : State) (buyer_address : Address) (payment_id : string)
    (shards : list Z) : bool * State :=
  match shards with
  | [] => (false, s)
  | i :: shards =>
      let shard := default [] (BuyerPaymentShard s !! (buyer_address, i)) in
      let found_in_shard := existsb (λ id, bool_decide (id = payment_id)) shard in
      let new_shard := filter (λ id, id ≠ payment_id) shard in
      if found_in_shard
      then (true, s ⟨ BuyerPaymentShard ::= <[(buyer_address, i) := new_shard]> ⟩)
      else remove_loop s buyer_address payment_id shards
  end.

Definition remove_payment_from_buyer_index (s : State) (buyer_address : Address)
    (payment_id : string) : State :=
  let count := get_buyer_payment_count s buyer_address in
  if count =? 0 then s
  else
    let num_shards := div_ceil count SHARD_SIZE in
    let (found, s) := remove_loop s buyer_address payment_id (seqZ 0 num_shards) in
    if found then
      s ⟨ BuyerPaymentCount ::= <[buyer_address := count - 1]> ⟩
        ⟨ BuyerPayment ::= delete (buyer_address, payment_id) ⟩
    else s.

(** ** Payment status index *)
Definition add_payment_to_status_index (s : State) (event_id : string)
    (status : PaymentStatus) (payment_id : string) : State :=
  if bool_decide (is_Some (EventPaymentStatusEntry s !! (event_id, status, payment_id))) then s
  else
    let payment_ids := default [] (EventPaymentStatus s !! (event_id, status)) in
    s ⟨ EventPaymentStatus ::= <[(event_id, status) := payment_ids ++ [payment_id]]> ⟩
      ⟨ EventPaymentStatusEntry ::= <[(event_id, status, payment_id) := true]> ⟩.

Definition remove_payment_from_status_index (s : State) (event_id : string)
    (status : PaymentStatus) (payment_id : string) : State :=
  let payment_ids := default [] (EventPaymentStatus s !! (event_id, status)) in
  let new_payment_ids := filter (λ id, id ≠ payment_id) payment_ids in
  s ⟨ EventPaymentStatus ::= <[(event_id, status) := new_payment_ids]> ⟩
    ⟨ EventPaymentStatusEntry ::= delete (event_id, status, payment_id) ⟩.

Definition update_payment_status_index (s : State) (event_id : string)
    (old_status new_status : PaymentStatus) (payment_id : string) : State :=
  let s := remove_payment_from_status_index s event_id old_status payment_id in
  add_payment_to_status_index s event_id new_status payment_id.

Definition get_payments_by_status (s : State) (event_id : string) (status : PaymentStatus)
    : list string :=
  default [] (EventPaymentStatus s !! (event_id, status)).

(** ** Payments *)
Definition get_payment (s : State) (payment_id : string) : option Payment :=
  Payments s !! payment_id.

(** [env.storage().persistent().set(&DataKey::Payment(id), &payment)] *)
Definition set_payment (s : State) (payment_id : string) (payment : Payment) : State :=
  s ⟨ Payments ::= <[payment_id := payment]> ⟩.

Definition store_payment (s : State) (payment : Payment) : eff :=
  let exists_ := bool_decide (is_Some (Payments s !! py_payment_id payment)) in
  let s := set_payment s (py_payment_id payment) payment in
  if exists_ then Ok s
  else
    let! s := add_payment_to_event_index s (py_event_id payment) (py_payment_id payment) in
    let! s := add_payment_to_buyer_index s (py_buyer_address payment) (py_payment_id payment) in
    Ok (add_payment_to_status_index s (py_event_id payment) (py_status payment)
          (py_payment_id payment)).

Definition update_payment_status (s : State) (payment_id : string) (status : PaymentStatus)
    (confirmed_at : option Z) : State :=
  match get_payment s payment_id with
  | Some payment =>
      let old_status := py_status payment in
      let payment := payment ⟨ py_status := status ⟩ ⟨ py_confirmed_at := confirmed_at ⟩ in
      let s := set_payment s payment_id payment in
      if bool_decide (old_status = status) then s
      else update_payment_status_index s (py_event_id payment) old_status status payment_id
  | None => s
  end.

(** ** Configuration *)
Definition set_usdc_token (s : State) (a : Address) : State := s ⟨ UsdcToken := Some a ⟩.
Definition get_usdc_token (s : State) : res TicketPaymentError Address := unwrap (UsdcToken s).
Definition set_platform_wallet (s : State) (a : Address) : State := s ⟨ PlatformWallet := Some a ⟩.
Definition get_platform_wallet (s : State) : res TicketPaymentError Address :=
  unwrap (PlatformWallet s).
Definition set_event_registry (s : State) (a : Address) : State := s ⟨ EventRegistry := Some a ⟩.
Definition get_event_registry (s : State) : res TicketPaymentError Address :=
  unwrap (EventRegistry s).
Definition set_pro_subscription_contract (s : State) (a : Address) : State :=
  s ⟨ ProSubscriptionContract := Some a ⟩.
Definition get_pro_subscription_contract (s : State) : option Address :=
  ProSubscriptionContract s.
Definition set_initialized (s : State) (value : bool) : State := s ⟨ Initialized := Some value ⟩.
Definition is_initialized (s : State) : bool := default false (Initialized s).
Definition set_is_paused (s : State) (paused : bool) : State := s ⟨ IsPaused := Some paused ⟩.
Definition is_paused (s : State) : bool := default false (IsPaused s).

Definition add_token_to_whitelist (s : State) (token : Address) : State :=
  s ⟨ TokenWhitelist ::= <[token := true]> ⟩.
Definition remove_token_from_whitelist (s : State) (token : Address) : State :=
  s ⟨ TokenWhitelist ::= delete token ⟩.
Definition is_token_whitelisted (s : State) (token : Address) : bool :=
  default false (TokenWhitelist s !! token).

(** ** Escrow balances *)
Definition get_event_balance (s : State) (event_id : string) : EventBalance :=
  default (MkBalance 0 0 0) (Balances s !! event_id).
Definition set_event_balance (s : State) (event_id : string) (balance : EventBalance) : State :=
  s ⟨ Balances ::= <[event_id := balance]> ⟩.
Definition update_event_balance (s : State) (event_id : string)
    (organizer_amount platform_fee : Z) : eff :=
  let balance := get_event_balance s event_id in
  let! o := unwrap (checked_i128 (eb_organizer_amount balance + organizer_amount)) in
  let! p := unwrap (checked_i128 (eb_platform_fee balance + platform_fee)) in
  Ok (set_event_balance s event_id
        (balance ⟨ eb_organizer_amount := o ⟩ ⟨ eb_platform_fee := p ⟩)).

Definition set_transfer_fee (s : State) (event_id : string) (fee : Z) : State :=
  s ⟨ TransferFee ::= <[event_id := fee]> ⟩.
Definition get_transfer_fee (s : State) (event_id : string) : option Z :=
  TransferFee s !! event_id.

Definition set_bulk_refund_index (s : State) (event_id : string) (index : Z) : State :=
  s ⟨ BulkRefundIndex ::= <[event_id := index]> ⟩.
Definition get_bulk_refund_index (s : State) (event_id : string) : Z :=
  default 0 (BulkRefundIndex s !! event_id).
Definition set_partial_refund_index (s : State) (event_id : string) (index : Z) : State :=
  s ⟨ PartialRefundIndex ::= <[event_id := index]> ⟩.
Definition get_partial_refund_index (s : State) (event_id : string) : Z :=
  default 0 (PartialRefundIndex s !! event_id).
Definition set_partial_refund_percentage (s : State) (event_id : string) (bps : Z) : State :=
  s ⟨ PartialRefundPercentage ::= <[event_id := bps]> ⟩.
Definition get_partial_refund_percentage (s : State) (event_id : string) : Z :=
  default 0 (PartialRefundPercentage s !! event_id).

Definition has_price_switched (s : State) (event_id tier_id : string) : bool :=
  default false (PriceSwitched s !! (event_id, tier_id)).
Definition set_price_switched (s : State) (event_id tier_id : string) : State :=
  s ⟨ PriceSwitched ::= <[(event_id, tier_id) := true]> ⟩.

(** ** Protocol totals *)
Definition get_total_volume_processed (s : State) : Z := default 0 (TotalVolumeProcessed s).
Definition add_to_total_volume_processed (s : State) (amount : Z) : eff :=
  let! total := unwrap (checked_i128 (get_total_volume_processed s + amount)) in
  Ok (s ⟨ TotalVolumeProcessed := Some total ⟩).

Definition get_total_fees_collected_by_token (s : State) (token : Address) : Z :=
  default 0 (TotalFeesCollected s !! token).
Definition add_to_total_fees_collected_by_token (s : State) (token : Address) (amount : Z) : eff :=
  let current := get_total_fees_collected_by_token s token in
  let! n := unwrap (checked_i128 (current + amount)) in
  Ok (s ⟨ TotalFeesCollected ::= <[token := n]> ⟩).
Definition subtract_from_total_fees_collected_by_token (s : State) (token : Address) (amount : Z)
    : eff :=
  let current := get_total_fees_collected_by_token s token in
  let! n := unwrap (checked_i128 (current - amount)) in
  Ok (s ⟨ TotalFeesCollected ::= <[token := n]> ⟩).

Definition set_withdrawal_cap (s : State) (token : Address) (amount : Z) : State :=
  s ⟨ WithdrawalCap ::= <[token := amount]> ⟩.
Definition get_withdrawal_cap (s : State) (token : Address) : Z :=
  default 0 (WithdrawalCap s !! token).
Definition get_daily_withdrawn_amount (s : State) (token : Address) (day : Z) : Z :=
  default 0 (DailyWithdrawalAmount s !! (token, day)).
Definition add_to_daily_withdrawn_amount (s : State) (token : Address) (day amount : Z) : eff :=
  let current := get_daily_withdrawn_amount s token day in
  let! n := unwrap (checked_i128 (current + amount)) in
  Ok (s ⟨ DailyWithdrawalAmount ::= <[(token, day) := n]> ⟩).

Definition get_active_escrow_total (s : State) : Z := default 0 (ActiveEscrowTotal s).
Definition add_to_active_escrow_total (s : State) (amount : Z) : eff :=
  let! total := unwrap (checked_i128 (get_active_escrow_total s + amount)) in
  Ok (s ⟨ ActiveEscrowTotal := Some total ⟩).
Definition subtract_from_active_escrow_total (s : State) (amount : Z) : eff :=
  let! total := unwrap (checked_i128 (get_active_escrow_total s - amount)) in
  Ok (s ⟨ ActiveEscrowTotal := Some total ⟩).
Definition get_active_escrow_by_token (s : State) (token : Address) : Z :=
  default 0 (ActiveEscrowByToken s !! token).
Definition add_to_active_escrow_by_token (s : State) (token : Address) (amount : Z) : eff :=
  let current := get_active_escrow_by_token s token in
  let! n := unwrap (checked_i128 (current + amount)) in
  Ok (s ⟨ ActiveEscrowByToken ::= <[token := n]> ⟩).
Definition subtract_from_active_escrow_by_token (s : State) (token : Address) (amount : Z) : eff :=
  let current := get_active_escrow_by_token s token in
  let! n := unwrap (checked_i128 (current - amount)) in
  Ok (s ⟨ ActiveEscrowByToken ::= <[token := n]> ⟩).

(** ** Discount codes *)
Definition add_discount_hash (s : State) (hash : string) : State :=
  s ⟨ DiscountCodeHash ::= <[hash := true]> ⟩.
Definition is_discount_hash_valid (s : State) (hash : string) : bool :=
  default false (DiscountCodeHash s !! hash).
Definition is_discount_hash_used (s : State) (hash : string) : bool :=
  default false (DiscountHashUsed s !! hash).
Definition mark_discount_hash_used (s : State) (hash : string) : State :=
  s ⟨ DiscountHashUsed ::= <[hash := true]> ⟩.
Definition set_discount_code (s : State) (event_id code : string) (data : DiscountData) : State :=
  s ⟨ DiscountCode ::= <[(event_id, code) := data]> ⟩.
Definition get_discount_code (s : State) (event_id code : string) : option DiscountData :=
  DiscountCode s !! (event_id, code).

Definition is_event_cancelled_for_refund (s : State) (event_id : string) : bool :=
  default false (EventCancelledForRefund s !! event_id).
Definition set_event_cancelled_for_refund (s : State) (event_id : string) : State :=
  s ⟨ EventCancelledForRefund ::= <[event_id := true]> ⟩.

(** ** Oracle *)
Definition set_oracle_address (s : State) (a : Address) : State := s ⟨ OracleAddress := Some a ⟩.
Definition get_oracle_address (s : State) : option Address := OracleAddress s.
Definition set_slippage_bps (s : State) (bps : Z) : eff :=
  do! fail_if (5000 <? bps) InvalidSlippageBps in
  Ok (s ⟨ SlippageBps := Some bps ⟩).
Definition get_slippage_bps (s : State) : Z := default 200 (SlippageBps s).

(** ** Auctions *)
Definition set_highest_bid (s : State) (event_id tier_id : string) (bid : HighestBid) : State :=
  s ⟨ HighestBids ::= <[(event_id, tier_id) := bid]> ⟩.
Definition get_highest_bid (s : State) (event_id tier_id : string) : option HighestBid :=
  HighestBids s !! (event_id, tier_id).
Definition set_auction_closed (s : State) (event_id tier_id : string) : State :=
  s ⟨ AuctionClosed ::= <[(event_id, tier_id) := true]> ⟩.
Definition is_auction_closed (s : State) (event_id tier_id : string) : bool :=
  default false (AuctionClosed s !! (event_id, tier_id)).

(** ** Governance *)
Definition is_governor (s : State) (a : Address) : bool := default false (Governor s !! a).
Definition set_governor (s : State) (a : Address) (status : bool) : State :=
  s ⟨ Governor ::= <[a := status]> ⟩.
Definition get_total_governors (s : State) : Z := default 0 (TotalGovernors s).
Definition set_total_governors (s : State) (total : Z) : State :=
  s ⟨ TotalGovernors := Some total ⟩.
Definition get_proposal (s : State) (id : Z) : option ParameterProposal := Proposals s !! id.
Definition set_proposal (s : State) (proposal : ParameterProposal) : State :=
  s ⟨ Proposals ::= <[pr_id proposal := proposal]> ⟩.
Definition get_proposal_count (s : State) : Z := default 0 (ProposalCount s).
Definition increment_proposal_count (s : State) : res TicketPaymentError (Z * State) :=
  let! count := unwrap (checked_u64 (get_proposal_count s + 1)) in
  Ok (count, s ⟨ ProposalCount := Some count ⟩).

(** ** Ticket secrets, affiliates, attendance *)
Definition store_validation_hash (s : State) (payment_id hash : string) : State :=
  s ⟨ ValidationHash ::= <[payment_id := hash]> ⟩.
Definition get_validation_hash (s : State) (payment_id : string) : option string :=
  ValidationHash s !! payment_id.
Definition verify_secret `{HostCrypto} (s : State) (payment_id raw_secret : string) : bool :=
  match get_validation_hash s payment_id with
  | Some stored_hash => bool_decide (sha256 raw_secret = stored_hash)
  | None => false
  end.

Definition set_affiliate_rate (s : State) (event_id : string) (affiliate : Address) (rate_bps : Z)
    : State :=
  s ⟨ AffiliateRate ::= <[(event_id, affiliate) := rate_bps]> ⟩.
Definition get_affiliate_rate (s : State) (event_id : string) (affiliate : Address) : option Z :=
  AffiliateRate s !! (event_id, affiliate).

Definition is_poap_minted (s : State) (payment_id : string) : bool :=
  default false (PoapMinted s !! payment_id).
Definition mark_poap_minted (s : State) (payment_id : string) (attendee : Address) : eff :=
  let s := s ⟨ PoapMinted ::= <[payment_id := true]> ⟩ in
  let count := default 0 (PoapsByAttendeeCount s !! attendee) in
  let shard := count / SHARD_SIZE in
  let ids := default [] (PoapsByAttendee s !! (attendee, shard)) in
  let s := s ⟨ PoapsByAttendee ::= <[(attendee, shard) := ids ++ [payment_id]]> ⟩ in
  let! n := unwrap (checked_u32 (count + 1)) in
  Ok (s ⟨ PoapsByAttendeeCount ::= <[attendee := n]> ⟩).
Definition get_poaps_by_attendee (s : State) (attendee : Address) : list string :=
  let count := default 0 (PoapsByAttendeeCount s !! attendee) in
  if count =? 0 then []
  else
    let total_shards := div_ceil count SHARD_SIZE in
    shard ← seqZ 0 total_shards;
    match PoapsByAttendee s !! (attendee, shard) with Some ids => ids | None => [] end.

(** ** Milestone escrow *)
Definition get_escrow_state (s : State) (event_id : string) : option EscrowState :=
  EscrowStates s !! event_id.
Definition set_escrow_state (s : State) (event_id : string) (state : EscrowState) : State :=
  s ⟨ EscrowStates ::= <[event_id := state]> ⟩.
Definition store_escrow_milestone (s : State) (event_id : string) (index : Z)
    (milestone : EscrowMilestone) : State :=
  s ⟨ EscrowMilestones ::= <[(event_id, index) := milestone]> ⟩.
Definition get_escrow_milestone (s : State) (event_id : string) (index : Z)
    : option EscrowMilestone :=
  EscrowMilestones s !! (event_id, index).
Definition init_escrow_state (s : State) (event_id : string) : EscrowState * State :=
  let state := MkEscrowState 0 0 0 in
  (state, set_escrow_state s event_id state).

End storage.

(** ** [resale.rs] *)
Module resale.
Definition DEFAULT_RESALE_ROYALTY_BPS : Z := 500.
Definition MAX_RESALE_ROYALTY_BPS : Z := 5000.
Definition get_resale_listing (s : State) (payment_id : string) : option ResaleListing :=
  ResaleListings s !! payment_id.
Definition store_resale_listing (s : State) (listing : ResaleListing) : State :=
  s ⟨ ResaleListings ::= <[rl_payment_id listing := listing]> ⟩.
Definition remove_resale_listing (s : State) (payment_id : string) : State :=
  s ⟨ ResaleListings ::= delete payment_id ⟩.
Definition get_resale_royalty_bps (s : State) (event_id : string) : Z :=
  default DEFAULT_RESALE_ROYALTY_BPS (ResaleRoyaltyBps s !! event_id).
Definition set_resale_royalty_bps (s : State) (event_id : string) (bps : Z) : call unit :=
  do! fail_if (MAX_RESALE_ROYALTY_BPS <? bps) InvalidRoyaltyBps in
  Ok (tt, s ⟨ ResaleRoyaltyBps ::= <[event_id := bps]> ⟩).
End resale.
