(* ===== verification/PayPurchase.v ===== *)
(** * Ticket payment: purchases

    The guards of [contract.rs] that every entry point shares, its
    configuration entry points, and [process_payment] in the stages of its
    body: promotion, discount codes, price check, fee split, transfer,
    bookkeeping, ticket records. *)

From S2P Require Import Prelude Machine Host PayTypes PayStorage.

Definition MAX_ORACLE_PRICE_AGE_SECS : Z := 3600.
Definition ESCROW_DELAY : Z := 86400.
Definition DUST_THRESHOLD : Z := 10000.
Definition MAX_BATCH_SIZE : Z := 50.

(** ** Guards *)
Definition require_admin (env : Env) (s : State) : res TicketPaymentError Address :=
  let! admin := ok_or (storage.get_admin s) NotInitialized in
  do! require_auth env admin in
  Ok admin.

Definition is_zero_address (address : Address) : bool :=
  bool_decide (address = "GAAAAAAAAAAAAAAAAAAAAAAAAAAAAAAAAAAAAAAAAAAAAAAAAAAAJXFF").
Definition validate_address (env : Env) (address : Address) : res TicketPaymentError unit :=
  fail_if (bool_decide (address = this env) || is_zero_address address) InvalidAddress.
Definition validate_recipient (env : Env) (address : Address) : res TicketPaymentError unit :=
  fail_if (bool_decide (address = this env) || is_zero_address address) InvalidAddress.

(** [if !is_initialized { panic! }] *)
Definition require_initialized (s : State) : res TicketPaymentError unit :=
  panic_if (negb (storage.is_initialized s)).
(** [if is_paused { return Err(ContractPaused) }] *)
Definition require_running (s : State) : res TicketPaymentError unit :=
  fail_if (storage.is_paused s) ContractPaused.

Definition event_accepts_token (s : State) (event_info : EventInfo) (token_address : Address)
    : bool :=
  if ev_use_global_whitelist event_info || bool_decide (ev_accepted_tokens event_info = [])
  then storage.is_token_whitelisted s token_address
  else bool_decide (token_address ∈ ev_accepted_tokens event_info).

Definition is_cancelled (event_info : EventInfo) : bool :=
  bool_decide (ev_status event_info = EsCancelled).

Definition get_ticket_payment_id (ticket_id : Z) : option string := None.

Fixpoint get_scheduled_price (schedules : list PriceSchedule) (current_time final_price : Z) : Z :=
  match schedules with
  | [] => final_price
  | sch :: schedules =>
      if current_time <? ps_valid_until sch then ps_price sch
      else get_scheduled_price schedules current_time final_price
  end.

Definition fetch_fresh_asset_price `{PriceOracleInterface} (env : Env) (s : State)
    (asset : Address) : res TicketPaymentError PriceData :=
  let! oracle_addr := ok_or (storage.get_oracle_address s) OracleNotConfigured in
  let! answer := unwrap (lastprice oracle_addr asset) in
  let! price_data := ok_or answer OraclePriceUnavailable in
  do! fail_if (MAX_ORACLE_PRICE_AGE_SECS <? sat_u64 (timestamp env - pd_timestamp price_data))
        OraclePriceStale in
  Ok price_data.

Module Purchase.

(** ** Configuration *)
Definition initialize (env : Env) (s : State)
    (admin usdc_token platform_wallet event_registry : Address) : call unit :=
  do! fail_if (storage.is_initialized s) AlreadyInitialized in
  do! validate_address env admin in
  do! validate_address env usdc_token in
  do! validate_address env platform_wallet in
  do! validate_address env event_registry in
  let s := storage.set_admin s admin in
  let s := storage.set_governor s admin true in
  let s := storage.set_total_governors s 1 in
  let s := storage.set_usdc_token s usdc_token in
  let s := storage.set_platform_wallet s platform_wallet in
  let s := storage.set_event_registry s event_registry in
  let s := storage.set_initialized s true in
  let s := storage.add_token_to_whitelist s usdc_token in
  Ok (tt, emit s (EvContractInitialized usdc_token platform_wallet event_registry)).

Definition set_pause (env : Env) (s : State) (paused : bool) : call unit :=
  do! require_admin env s in
  let s := storage.set_is_paused s paused in
  Ok (tt, emit s (EvContractPaused paused (timestamp env))).

Definition set_event_dispute (env : Env) (s : State) (event_id : string) (disputed : bool)
    : call unit :=
  do! require_admin env s in
  Ok (tt, emit s (EvDisputeStatusChanged event_id disputed (timestamp env))).

Definition set_oracle (env : Env) (s : State) (oracle_address : Address) : call unit :=
  do! require_admin env s in
  Ok (tt, storage.set_oracle_address s oracle_address).

Definition create_discount_code (env : Env) (s : State) (event_id code : string)
    (percentage expires_at max_uses : Z) : call unit :=
  do! require_admin env s in
  do! fail_if ((percentage =? 0) || (100 <? percentage)) InvalidFeePercent in
  Ok (tt, storage.set_discount_code s event_id code
            (MkDiscount percentage expires_at max_uses 0)).

(** The installation of the code, and the hash of the code installed before,
    are the host's; what remains is the check of the four keys afterwards. *)
Definition missing_keys (s : State) : list string :=
  (if Admin s then [] else ["Admin"]) ++ (if UsdcToken s then [] else ["UsdcToken"])
  ++ (if PlatformWallet s then [] else ["PlatformWallet"])
  ++ (if EventRegistry s then [] else ["EventRegistry"]).
Definition upgrade (env : Env) (s : State) (old_wasm_hash new_wasm_hash : string) : call unit :=
  do! unwrap_res (require_admin env s) in
  let s := emit s (EvContractUpgraded old_wasm_hash new_wasm_hash) in
  Ok (tt, foldl (λ s key, emit s (EvContractVerificationFailed key (timestamp env))) s
            (missing_keys s)).

(** ** Stages of [process_payment] *)
Section Stages.
Context `{PriceOracleInterface} `{ProSubscriptionInterface} `{HostCrypto}.

(** The platform-wide promotion. *)
Definition apply_promo (env : Env) (total_amount global_promo_bps promo_expiry : Z)
    : res TicketPaymentError (Z * Z) :=
  if (0 <? global_promo_bps) && (timestamp env <? promo_expiry) then
    let! rest := unwrap (checked_u32 (MAX_BPS - global_promo_bps)) in
    let! discounted := ok_or (mul_div total_amount rest MAX_BPS) ArithmeticError in
    Ok (discounted, global_promo_bps)
  else Ok (total_amount, 0).

(** A hashed one-time code: 10% off. *)
Definition apply_code_hash (s : State) (after_promo : Z) (code_preimage : option string)
    : res TicketPaymentError (Z * option string) :=
  match code_preimage with
  | Some preimage =>
      let hash := sha256 preimage in
      do! fail_if (negb (storage.is_discount_hash_valid s hash)) InvalidDiscountCode in
      do! fail_if (storage.is_discount_hash_used s hash) DiscountCodeUsed in
      let! discounted := ok_or (mul_div after_promo 90 100) ArithmeticError in
      Ok (discounted, Some hash)
  | None => Ok (after_promo, None)
  end.

(** A per-event code with its expiry and its number of uses. *)
Definition apply_event_code (env : Env) (s : State) (event_id : string) (effective_total : Z)
    (discount_code : option string) : call Z :=
  match discount_code with
  | Some code =>
      let! data := ok_or (storage.get_discount_code s event_id code) InvalidDiscountCode in
      do! fail_if (dd_expires_at data <? timestamp env) DiscountExpired in
      do! fail_if (dd_max_uses data <=? dd_current_uses data)
            (if dd_max_uses data =? 1 then DiscountCodeUsed else DiscountMaxUsesReached) in
      let! rest := unwrap (checked_u32 (100 - dd_percentage data)) in
      let! discounted := ok_or (mul_div effective_total rest 100) ArithmeticError in
      let! uses := unwrap (checked_u32 (dd_current_uses data + 1)) in
      let s := storage.set_discount_code s event_id code (data ⟨ dd_current_uses := uses ⟩) in
      Ok (discounted, s)
  | None => Ok (effective_total, s)
  end.

(** The price of one ticket: the oracle's within the slippage, or exact. *)
Definition check_price (env : Env) (s : State) (tier : TicketTier) (token_address : Address)
    (amount : Z) : res TicketPaymentError unit :=
  let current_time := timestamp env in
  if 0 <? tt_usd_price tier then
    let! price_data := fetch_fresh_asset_price env s token_address in
    let! expected := ok_or (mul_div (tt_usd_price tier) (pd_price price_data) 10000000)
                       ArithmeticError in
    let bps := storage.get_slippage_bps s in
    let! min_amount := ok_or (mul_div expected (MAX_BPS - bps) MAX_BPS) ArithmeticError in
    let! max_amount := ok_or (mul_div expected (MAX_BPS + bps) MAX_BPS) ArithmeticError in
    fail_if ((amount <? min_amount) || (max_amount <? amount)) PriceOutsideSlippage
  else
    let active_price := get_scheduled_price [] current_time (tt_price tier) in
    let active_price :=
      if (0 <? tt_early_bird_deadline tier) && (current_time <=? tt_early_bird_deadline tier)
      then tt_early_bird_price tier else active_price in
    fail_if (negb (amount =? active_price)) InvalidPrice.

(** The first sale after the early-bird deadline is announced. *)
Definition note_price_switch (env : Env) (s : State) (event_id tier_id : string)
    (tier : TicketTier) : State :=
  let current_time := timestamp env in
  if (0 <? tt_early_bird_deadline tier) && (tt_early_bird_deadline tier <? current_time)
     && negb (storage.has_price_switched s event_id tier_id)
  then emit (storage.set_price_switched s event_id tier_id)
         (EvPriceSwitched event_id tier_id (tt_price tier) current_time)
  else s.

Definition platform_fee_bps (s : State) (event_info : EventInfo) : Z :=
  let is_pro :=
    match storage.get_pro_subscription_contract s with
    | Some pro_contract_addr =>
        default false (try_is_pro_member pro_contract_addr (ev_organizer_address event_info))
    | None => false
    end in
  if is_pro then 0
  else default (ev_platform_fee_percent event_info) (ev_custom_fee_bps event_info).
End Stages.

(** How the money of one purchase is divided. *)
Record FeeSplit : Type := MkSplit {
  fs_effective_total : Z;
  fs_platform_fee : Z;
  fs_organizer_amount : Z;
  fs_referral_reward : Z
}.

Definition split_payment (effective_total fee_bps loyalty_discount_bps : Z)
    (referral_rate : option Z) : res TicketPaymentError FeeSplit :=
  let! total_platform_fee := ok_or (mul_div effective_total fee_bps MAX_BPS) ArithmeticError in
  let! loyalty_discount_amount :=
    if 0 <? loyalty_discount_bps then
      let! d := ok_or (mul_div total_platform_fee loyalty_discount_bps MAX_BPS) ArithmeticError in
      Ok (Z.min d total_platform_fee)
    else Ok 0 in
  let! total_platform_fee :=
    ok_or (checked_i128 (total_platform_fee - loyalty_discount_amount)) ArithmeticError in
  let! effective_total :=
    ok_or (checked_i128 (effective_total - loyalty_discount_amount)) ArithmeticError in
  let! total_organizer_amount :=
    ok_or (checked_i128 (effective_total - total_platform_fee)) ArithmeticError in
  let! ' (total_platform_fee, referral_reward) :=
    match referral_rate with
    | Some rate_bps =>
        let! reward := ok_or (mul_div total_platform_fee rate_bps MAX_BPS) ArithmeticError in
        let reward := Z.min reward total_platform_fee in
        let! total_platform_fee :=
          ok_or (checked_i128 (total_platform_fee - reward)) ArithmeticError in
        Ok (total_platform_fee, Z.min reward total_organizer_amount)
    | None => Ok (total_platform_fee, 0)
    end in
  let! total_organizer_amount :=
    ok_or (checked_i128 (total_organizer_amount - referral_reward)) ArithmeticError in
  Ok (MkSplit effective_total total_platform_fee total_organizer_amount referral_reward).

(** The rate of the referrer: the affiliate's own, 20% by default. *)
Definition referral_rate (s : State) (event_id : string) (referrer : option Address)
    : option Z :=
  (λ a, default 2000 (storage.get_affiliate_rate s event_id a)) <$> referrer.

(** The identifier of ticket number [i] of a batch. *)
Definition sub_payment_id (payment_id : string) (quantity i : Z) : string :=
  if quantity =? 1 then payment_id
  else match i with
       | 0 => "p-0" | 1 => "p-1" | 2 => "p-2" | 3 => "p-3" | 4 => "p-4"
       | _ => "p-many"
       end.

Section Process.
Context {W R : Type} `{TokenLedger W} `{EventRegistryInterface R}
  `{PriceOracleInterface} `{ProSubscriptionInterface} `{HostCrypto}.

(** The transfer into escrow, verified on the balances, and the reward. *)
Definition collect (env : Env) (w : W) (token_address buyer_address : Address)
    (effective_total : Z) (referrer : option Address) (referral_reward : Z)
    : res TicketPaymentError W :=
  do! fail_if (allowance w token_address buyer_address (this env) <? effective_total)
        InsufficientAllowance in
  let balance_before := balance w token_address (this env) in
  let! w := unwrap (transfer_from w token_address (this env) buyer_address (this env)
                      effective_total) in
  let balance_after := balance w token_address (this env) in
  let! received := ok_or (checked_i128 (balance_after - balance_before)) ArithmeticError in
  do! fail_if (negb (received =? effective_total)) TransferVerificationFailed in
  match referrer with
  | Some ref_addr =>
      if 0 <? referral_reward
      then unwrap (transfer w token_address (this env) ref_addr referral_reward) else Ok w
  | None => Ok w
  end.

(** Step 4: the escrow accounts. *)
Definition book (s : State) (event_id : string) (token_address : Address) (total_amount : Z)
    (split : FeeSplit) : res TicketPaymentError State :=
  let! s := storage.update_event_balance s event_id (fs_organizer_amount split)
              (fs_platform_fee split) in
  let! s := storage.add_to_total_volume_processed s total_amount in
  let! s := storage.add_to_total_fees_collected_by_token s token_address
              (fs_platform_fee split) in
  let! s := storage.add_to_active_escrow_total s total_amount in
  storage.add_to_active_escrow_by_token s token_address total_amount.

(** Step 7: a record and a validation hash per ticket. *)
Definition record_ticket (template : Payment) (payment_id validation_hash : string)
    (quantity : Z) (s : State) (i : Z) : res TicketPaymentError State :=
  let id := sub_payment_id payment_id quantity i in
  let! s := storage.store_payment s (template ⟨ py_payment_id := id ⟩) in
  Ok (storage.store_validation_hash s id validation_hash).

Definition process_payment (env : Env) (w : W) (r : R) (s : State)
    (payment_id event_id ticket_tier_id : string) (buyer_address : Address)
    (recipient_address : option Address) (token_address : Address) (amount quantity : Z)
    (options : PurchaseOptions) (validation_hash : string)
    : res TicketPaymentError (string * W * R * State) :=
  do! require_initialized s in
  do! require_running s in
  do! require_auth env buyer_address in
  do! fail_if (bool_decide (is_Some (storage.get_payment s payment_id))) PaymentAlreadyExists in
  let owner_address := default buyer_address recipient_address in
  do! fail_if (bool_decide (po_referrer options = Some buyer_address)) SelfReferralNotAllowed in
  do! fail_if (amount <? 0) InvalidAmount in
  do! fail_if (quantity =? 0) InvalidAmount in
  do! fail_if (negb (storage.is_token_whitelisted s token_address)) TokenNotWhitelisted in
  let! total_amount := ok_or (checked_i128 (amount * quantity)) ArithmeticError in
  do! storage.get_event_registry s in
  let! global_promo_bps := unwrap (get_global_promo_bps r) in
  let! promo_expiry := unwrap (get_promo_expiry r) in
  let! ' (after_promo, promo_applied_bps) :=
    apply_promo env total_amount global_promo_bps promo_expiry in
  let! ' (effective_total, discount_code_hash) :=
    apply_code_hash s after_promo (po_code_preimage options) in
  let! ' (effective_total, s) :=
    apply_event_code env s event_id effective_total (po_discount_code options) in
  let! event_info := ok_or (try_get_event r event_id) EventNotFound in
  do! fail_if (negb (ev_is_active event_info) || is_cancelled event_info) EventInactive in
  do! fail_if (negb (event_accepts_token s event_info token_address)) TokenNotWhitelisted in
  do! fail_if (storage.is_event_cancelled_for_refund s event_id) EventCancelled in
  let! tier := ok_or (ev_tiers event_info !! ticket_tier_id) TierNotFound in
  do! check_price env s tier token_address amount in
  let s := note_price_switch env s event_id ticket_tier_id tier in
  let fee_bps := platform_fee_bps s event_info in
  let loyalty_discount_bps := default 0 (try_get_loyalty_discount_bps r buyer_address) in
  let! split := split_payment effective_total fee_bps loyalty_discount_bps
                  (referral_rate s event_id (po_referrer options)) in
  let! w := collect env w token_address buyer_address (fs_effective_total split)
              (po_referrer options) (fs_referral_reward split) in
  let! s := book s event_id token_address total_amount split in
  let s := match discount_code_hash with
           | Some hash => storage.mark_discount_hash_used s hash
           | None => s
           end in
  let! r := unwrap (increment_inventory r env event_id ticket_tier_id owner_address quantity
                      token_address) in
  let! platform_fee_per_ticket :=
    ok_or (checked_div (fs_platform_fee split) quantity) ArithmeticError in
  let! organizer_amount_per_ticket :=
    ok_or (checked_div (fs_organizer_amount split) quantity) ArithmeticError in
  let! referral_amount_per_ticket :=
    ok_or (checked_div (fs_referral_reward split) quantity) ArithmeticError in
  let payment :=
    MkPayment payment_id event_id buyer_address owner_address ticket_tier_id token_address
      amount platform_fee_per_ticket organizer_amount_per_ticket Pending "" (timestamp env)
      None 0 false 0 referral_amount_per_ticket (po_referrer options) in
  let! s := rfold (record_ticket payment payment_id validation_hash quantity)
              (seqZ 0 quantity) s in
  let s := emit s (EvPaymentProcessed payment_id event_id buyer_address
                     (fs_effective_total split) (fs_platform_fee split) (timestamp env)) in
  let r := default r (try_update_loyalty_score r env (this env) buyer_address quantity
                        (fs_effective_total split) (tt_loyalty_multiplier tier)) in
  let s := match discount_code_hash with
           | Some hash =>
               emit s (EvDiscountCodeApplied payment_id event_id hash
                         (default 0 (checked_i128 (total_amount - fs_effective_total split)))
                         (timestamp env))
           | None => s
           end in
  let s := if 0 <? promo_applied_bps then
             emit s (EvGlobalPromoApplied payment_id event_id promo_applied_bps
                       (default 0 (checked_i128 (total_amount - after_promo))) (timestamp env))
           else s in
  Ok (payment_id, w, r, s).

Definition confirm_payment (env : Env) (s : State) (payment_id transaction_hash : string)
    : call unit :=
  do! require_initialized s in
  do! unwrap_res (require_admin env s) in
  let s :=
    match storage.get_payment s payment_id with
    | Some payment =>
        let old_status := py_status payment in
        let payment := payment ⟨ py_status := Confirmed ⟩
                               ⟨ py_confirmed_at := Some (timestamp env) ⟩
                               ⟨ py_transaction_hash := transaction_hash ⟩ in
        let s := storage.set_payment s payment_id payment in
        if bool_decide (old_status = Confirmed) then s
        else storage.update_payment_status_index s (py_event_id payment) old_status Confirmed
               payment_id
    | None => s
    end in
  Ok (tt, emit s (EvPaymentStatusChanged payment_id Pending Confirmed transaction_hash
                    (timestamp env))).

(** ** Organizer settings *)
Definition organizer_event (env : Env) (r : R) (event_id : string)
    : res TicketPaymentError EventInfo :=
  let! event_info := ok_or (try_get_event r event_id) EventNotFound in
  do! require_auth env (ev_organizer_address event_info) in
  Ok event_info.

Definition add_discount_hashes (env : Env) (r : R) (s : State) (event_id : string)
    (hashes : list string) : call unit :=
  do! require_initialized s in
  do! fail_if (bool_decide (hashes = [])) EmptyBatch in
  do! fail_if (MAX_BATCH_SIZE <? Z.of_nat (length hashes)) BatchTooLarge in
  do! storage.get_event_registry s in
  do! organizer_event env r event_id in
  Ok (tt, foldl storage.add_discount_hash s hashes).

Definition set_transfer_fee (env : Env) (r : R) (s : State) (event_id : string) (bps : Z)
    : call unit :=
  do! require_initialized s in
  do! storage.get_event_registry s in
  do! organizer_event env r event_id in
  do! fail_if (MAX_BPS <? bps) InvalidFeePercent in
  Ok (tt, storage.set_transfer_fee s event_id bps).

Definition set_affiliate_rate (env : Env) (r : R) (s : State) (event_id : string)
    (affiliate : Address) (rate_bps : Z) : call unit :=
  do! require_initialized s in
  do! fail_if (MAX_BPS <? rate_bps) InvalidFeePercent in
  do! storage.get_event_registry s in
  do! organizer_event env r event_id in
  Ok (tt, storage.set_affiliate_rate s event_id affiliate rate_bps).

Definition cancel_event (env : Env) (r : R) (s : State) (event_id : string) : call unit :=
  do! require_initialized s in
  do! storage.get_event_registry s in
  let! event_info := organizer_event env r event_id in
  let s := storage.set_event_cancelled_for_refund s event_id in
  Ok (tt, emit s (EvEventCancelled event_id (ev_organizer_address event_info) (timestamp env))).

(** A dispute that is open or in voting. *)
Definition dispute_active (r : R) (event_id : string) : bool :=
  match try_get_dispute r event_id with
  | Some dispute => bool_decide (dp_status dispute = DsOpen)
                    || bool_decide (dp_status dispute = DsVoting)
  | None => false
  end.

Definition is_event_disputed (r : R) (s : State) (event_id : string)
    : res TicketPaymentError bool :=
  do! storage.get_event_registry s in
  Ok (dispute_active r event_id).

Definition has_confirmed_ticket (s : State) (event_id : string) (address : Address) : bool :=
  existsb (λ payment_id,
    match storage.get_payment s payment_id with
    | Some payment => bool_decide (py_buyer_address payment = address)
                      && bool_decide (py_status payment = Confirmed)
    | None => false
    end) (storage.get_event_payments s event_id).
End Process.

End Purchase.
