(* ===== verification/PayRefund.v ===== *)
(** * Ticket payment: refunds

    Single refunds ([internal_refund] and its entry points), the refund of a
    cancelled event, and the batch refunds with their cursors. *)

From S2P Require Import Prelude Machine Host PayTypes PayStorage.
From S2P Require Import PayPurchase.

(** [-x] on [i128], which traps on the least value. *)
Definition neg_i128 (x : Z) : res TicketPaymentError Z := unwrap (checked_i128 (- x)).

Module Refund.
Section Refund.
Context {W R : Type} `{TokenLedger W} `{EventRegistryInterface R}.

(** Not enough sold by the deadline of the funding goal. *)
Definition goal_failed (env : Env) (event_info : EventInfo) : bool :=
  negb (ev_goal_met event_info) && (0 <? ev_min_sales_target event_info)
  && (ev_target_deadline event_info <? timestamp env).

Definition effective_restocking_fee (env : Env) (event_info : EventInfo) (payment : Payment) : Z :=
  if is_cancelled event_info || goal_failed env event_info then 0
  else if py_amount payment <? ev_restocking_fee event_info then py_amount payment
  else if 0 <? ev_restocking_fee event_info then ev_restocking_fee event_info
  else 0.

(** The payment marked [Refunded], with its status index. *)
Definition mark_refunded (env : Env) (s : State) (payment_id : string) (payment : Payment)
    : State :=
  let old_status := py_status payment in
  let payment := payment ⟨ py_status := Refunded ⟩ ⟨ py_confirmed_at := Some (timestamp env) ⟩ in
  let s := storage.set_payment s payment_id payment in
  if bool_decide (old_status = Refunded) then s
  else storage.update_payment_status_index s (py_event_id payment) old_status Refunded payment_id.

(** The escrow accounts after [refund_amount] left the contract. *)
Definition release (s : State) (payment : Payment) (org_adjustment refund_amount : Z)
    : res TicketPaymentError State :=
  let! o := neg_i128 org_adjustment in
  let! p := neg_i128 (py_platform_fee payment) in
  let! s := storage.update_event_balance s (py_event_id payment) o p in
  let! s := storage.subtract_from_active_escrow_total s refund_amount in
  storage.subtract_from_active_escrow_by_token s (py_token_address payment) refund_amount.

Definition internal_refund (env : Env) (w : W) (r : R) (s : State) (payment_id : string)
    : res TicketPaymentError (unit * W * R * State) :=
  let! payment := ok_or (storage.get_payment s payment_id) PaymentNotFound in
  do! require_auth env (py_buyer_address payment) in
  do! fail_if (bool_decide (py_status payment = Refunded)
               || bool_decide (py_status payment = Failed)) InvalidPaymentStatus in
  do! storage.get_event_registry s in
  let! event_info := ok_or (try_get_event r (py_event_id payment)) EventNotFound in
  do! fail_if (Purchase.dispute_active r (py_event_id payment)) EventDisputed in
  let! tier := ok_or (ev_tiers event_info !! py_ticket_tier_id payment) TierNotFound in
  do! fail_if (negb (tt_is_refundable tier) && negb (is_cancelled event_info)
               && negb (goal_failed env event_info) && ev_is_active event_info)
        TicketNotRefundable in
  do! fail_if (negb (is_cancelled event_info) && ev_is_active event_info
               && (0 <? ev_refund_deadline event_info)
               && (ev_refund_deadline event_info <? timestamp env)) RefundDeadlinePassed in
  let fee := effective_restocking_fee env event_info payment in
  let! refund_amount := ok_or (checked_i128 (py_amount payment - fee)) ArithmeticError in
  let! r := unwrap (decrement_inventory r env (py_event_id payment) (py_ticket_tier_id payment)
                      (py_buyer_address payment)) in
  let s := mark_refunded env s payment_id payment in
  let! w := (if 0 <? refund_amount
             then unwrap (transfer w (py_token_address payment) (this env)
                            (py_buyer_address payment) refund_amount)
             else Ok w) in
  let! org_adjustment := ok_or (checked_i128 (py_organizer_amount payment - fee))
                           ArithmeticError in
  let! s := release s payment org_adjustment refund_amount in
  let updated := storage.get_event_balance s (py_event_id payment) in
  let! s := (if (eb_organizer_amount updated =? 0) && (eb_platform_fee updated =? 0)
             then storage.update_event_balance s (py_event_id payment) 0 0 else Ok s) in
  Ok (tt, w, r, emit s (EvPaymentStatusChanged payment_id (py_status payment) Refunded "refund"
                          (timestamp env))).

Definition request_guest_refund (env : Env) (w : W) (r : R) (s : State) (payment_id : string)
    : res TicketPaymentError (unit * W * R * State) :=
  do! require_initialized s in
  do! require_running s in
  internal_refund env w r s payment_id.

Definition request_refund (env : Env) (w : W) (r : R) (s : State) (ticket_id : Z)
    : res TicketPaymentError (unit * W * R * State) :=
  do! require_initialized s in
  do! require_running s in
  let! payment_id := ok_or (get_ticket_payment_id ticket_id) PaymentNotFound in
  let! payment := ok_or (storage.get_payment s payment_id) PaymentNotFound in
  do! fail_if (bool_decide (py_status payment = CheckedIn)) TicketAlreadyUsed in
  do! fail_if (bool_decide (py_status payment = Refunded)) InvalidPaymentStatus in
  do! storage.get_event_registry s in
  let! event_info := ok_or (try_get_event r (py_event_id payment)) EventNotFound in
  do! fail_if (negb (is_cancelled event_info) && (0 <? ev_refund_deadline event_info)
               && (ev_refund_deadline event_info <? timestamp env)) RefundDeadlinePassed in
  internal_refund env w r s payment_id.

Definition admin_refund (env : Env) (w : W) (r : R) (s : State) (payment_id : string)
    : res TicketPaymentError (unit * W * R * State) :=
  do! require_admin env s in
  internal_refund env w r s payment_id.

Definition claim_automatic_refund (env : Env) (w : W) (r : R) (s : State) (payment_id : string)
    : res TicketPaymentError (unit * W * R * State) :=
  do! require_initialized s in
  do! require_running s in
  let! payment := ok_or (storage.get_payment s payment_id) PaymentNotFound in
  do! storage.get_event_registry s in
  let! event_info := ok_or (try_get_event r (py_event_id payment)) EventNotFound in
  do! fail_if (negb (is_cancelled event_info) && negb (goal_failed env event_info))
        InvalidPaymentStatus in
  internal_refund env w r s payment_id.

Definition claim_cancellation_refund (env : Env) (w : W) (r : R) (s : State)
    (payment_id : string) : res TicketPaymentError (unit * W * R * State) :=
  do! require_initialized s in
  do! require_running s in
  let! payment := ok_or (storage.get_payment s payment_id) PaymentNotFound in
  do! require_auth env (py_buyer_address payment) in
  do! (if storage.is_event_cancelled_for_refund s (py_event_id payment) then Ok tt
       else
         do! storage.get_event_registry s in
         let! event_info := ok_or (try_get_event r (py_event_id payment)) EventNotFound in
         fail_if (negb (is_cancelled event_info)) EventNotCompleted) in
  do! fail_if (bool_decide (py_status payment = Refunded)
               || bool_decide (py_status payment = Failed)) InvalidPaymentStatus in
  let refund_amount := py_amount payment in
  let s := mark_refunded env s payment_id (payment ⟨ py_refunded_amount := refund_amount ⟩) in
  do! storage.get_event_registry s in
  let! r := unwrap (decrement_inventory r env (py_event_id payment) (py_ticket_tier_id payment)
                      (py_buyer_address payment)) in
  let! w := unwrap (transfer w (py_token_address payment) (this env) (py_buyer_address payment)
                      refund_amount) in
  let! s := release s payment (py_organizer_amount payment) refund_amount in
  Ok (tt, w, r, emit s (EvCancellationRefundClaimed payment_id (py_event_id payment)
                          (py_buyer_address payment) refund_amount (timestamp env))).

(** ** Batches *)

(** The variables of the loops: ledger, storage, the balance held in memory,
    the number of refunds and their sum. *)
Record Batch : Type := MkBatch {
  bt_ledger : W;
  bt_store : State;
  bt_balance : EventBalance;
  bt_count : Z;
  bt_total : Z
}.

(** [payment_ids.get(i).unwrap()] and the record if there is a confirmed one. *)
Definition confirmed_at_index (s : State) (payment_ids : list string) (i : Z)
    : res TicketPaymentError (option Payment) :=
  let! payment_id := unwrap (payment_ids !! Z.to_nat i) in
  Ok (payment ← storage.get_payment s payment_id;
      guard (py_status payment = Confirmed);; Some payment).

Definition bulk_refund_step (env : Env) (payment_ids : list string) (b : Batch) (i : Z)
    : res TicketPaymentError Batch :=
  let s := bt_store b in
  let! found := confirmed_at_index s payment_ids i in
  match found with
  | Some payment =>
      let! w := unwrap (transfer (bt_ledger b) (py_token_address payment) (this env)
                          (py_buyer_address payment) (py_amount payment)) in
      let refunded := payment ⟨ py_status := Refunded ⟩
                              ⟨ py_confirmed_at := Some (timestamp env) ⟩ in
      let! s := storage.store_payment s refunded in
      let! o := unwrap (checked_i128 (eb_organizer_amount (bt_balance b)
                                      - py_organizer_amount payment)) in
      let! p := unwrap (checked_i128 (eb_platform_fee (bt_balance b)
                                      - py_platform_fee payment)) in
      let! total := unwrap (checked_i128 (bt_total b + py_amount payment)) in
      let! count := unwrap (checked_u32 (bt_count b + 1)) in
      let! s := storage.subtract_from_active_escrow_by_token s (py_token_address payment)
                  (py_amount payment) in
      Ok (MkBatch w s ((bt_balance b) ⟨ eb_organizer_amount := o ⟩ ⟨ eb_platform_fee := p ⟩)
            count total)
  | None => Ok b
  end.

(** After the loop: the balance is persisted once per batch. *)
Definition settle_batch (b : Batch) (event_id : string) : res TicketPaymentError State :=
  if 0 <? bt_count b then
    let s := storage.set_event_balance (bt_store b) event_id (bt_balance b) in
    storage.subtract_from_active_escrow_total s (bt_total b)
  else Ok (bt_store b).

Definition trigger_bulk_refund (env : Env) (w : W) (r : R) (s : State) (event_id : string)
    (batch_size : Z) : tcall W Z :=
  do! require_initialized s in
  do! require_running s in
  do! storage.get_event_registry s in
  let! event_info := Purchase.organizer_event env r event_id in
  do! fail_if (ev_is_active event_info || negb (is_cancelled event_info)) EventNotCompleted in
  let start_index := storage.get_bulk_refund_index s event_id in
  let payment_ids := storage.get_event_payments s event_id in
  let total_payments := Z.of_nat (length payment_ids) in
  if total_payments <=? start_index then Ok (0, w, s)
  else
    let! stop := unwrap (checked_u32 (start_index + batch_size)) in
    let end_index := Z.min stop total_payments in
    let! b := rfold (bulk_refund_step env payment_ids)
                (seqZ start_index (end_index - start_index))
                (MkBatch w s (storage.get_event_balance s event_id) 0 0) in
    let! s := settle_batch b event_id in
    let s := storage.set_bulk_refund_index s event_id end_index in
    Ok (bt_count b, bt_ledger b,
        emit s (EvBulkRefundProcessed event_id (bt_count b) (bt_total b) (timestamp env))).

Definition partial_refund_step (env : Env) (payment_ids : list string) (active_pct : Z)
    (b : Batch) (i : Z) : res TicketPaymentError Batch :=
  let s := bt_store b in
  let! found := confirmed_at_index s payment_ids i in
  match found with
  | Some payment =>
      let! product := ok_or (checked_i128 (py_amount payment * active_pct)) ArithmeticError in
      let refund_amount := Z.quot product MAX_BPS in
      if (0 <? refund_amount) && (refund_amount <=? py_organizer_amount payment) then
        let! w := unwrap (transfer (bt_ledger b) (py_token_address payment) (this env)
                            (py_buyer_address payment) refund_amount) in
        let! refunded := unwrap (checked_i128 (py_refunded_amount payment + refund_amount)) in
        let! left := unwrap (checked_i128 (py_organizer_amount payment - refund_amount)) in
        let payment := payment ⟨ py_refunded_amount := refunded ⟩
                               ⟨ py_organizer_amount := left ⟩ in
        let! s := storage.store_payment s payment in
        let! o := unwrap (checked_i128 (eb_organizer_amount (bt_balance b) - refund_amount)) in
        let! total := unwrap (checked_i128 (bt_total b + refund_amount)) in
        let! count := unwrap (checked_u32 (bt_count b + 1)) in
        let! s := storage.subtract_from_active_escrow_by_token s (py_token_address payment)
                    refund_amount in
        Ok (MkBatch w s ((bt_balance b) ⟨ eb_organizer_amount := o ⟩) count total)
      else Ok b
  | None => Ok b
  end.

Definition reset_partial_refund (s : State) (event_id : string) : State :=
  storage.set_partial_refund_index (storage.set_partial_refund_percentage s event_id 0)
    event_id 0.

Definition issue_partial_refund (env : Env) (w : W) (r : R) (s : State) (event_id : string)
    (percentage_bps batch_size : Z) : tcall W Z :=
  do! require_initialized s in
  do! require_running s in
  do! panic_if (MAX_BPS <? percentage_bps) in
  do! storage.get_event_registry s in
  do! Purchase.organizer_event env r event_id in
  let start_index := storage.get_partial_refund_index s event_id in
  let payment_ids := storage.get_event_payments s event_id in
  let total_payments := Z.of_nat (length payment_ids) in
  if total_payments <=? start_index then
    let s := if 0 <? storage.get_partial_refund_percentage s event_id
             then reset_partial_refund s event_id else s in
    Ok (0, w, s)
  else
    let s := if start_index =? 0
             then storage.set_partial_refund_percentage s event_id percentage_bps else s in
    let active_pct := storage.get_partial_refund_percentage s event_id in
    let! stop := unwrap (checked_u32 (start_index + batch_size)) in
    let end_index := Z.min stop total_payments in
    let! b := rfold (partial_refund_step env payment_ids active_pct)
                (seqZ start_index (end_index - start_index))
                (MkBatch w s (storage.get_event_balance s event_id) 0 0) in
    let! s := settle_batch b event_id in
    let s := storage.set_partial_refund_index s event_id end_index in
    let s := if total_payments <=? end_index then reset_partial_refund s event_id else s in
    Ok (bt_count b, bt_ledger b,
        emit s (EvPartialRefundProcessed event_id (bt_count b) (bt_total b) active_pct
                  (timestamp env))).

(** ** The refund cascade of a dispute *)
Definition cascade_step (env : Env) (event_id : string) (acc : W * State * Z)
    (payment_id : string) : res TicketPaymentError (W * State * Z) :=
  let ' (w, s, refunded) := acc in
  match storage.get_payment s payment_id with
  | Some payment =>
      if bool_decide (py_status payment = Confirmed) then
        let! w := unwrap (transfer w (py_token_address payment) (this env)
                            (py_buyer_address payment) (py_amount payment)) in
        let updated := payment ⟨ py_status := Refunded ⟩
                               ⟨ py_confirmed_at := Some (timestamp env) ⟩ in
        let! s := storage.store_payment s updated in
        let! o := neg_i128 (py_organizer_amount updated) in
        let! p := neg_i128 (py_platform_fee updated) in
        let! s := storage.update_event_balance s event_id o p in
        let! s := storage.subtract_from_active_escrow_total s (py_amount updated) in
        let! s := storage.subtract_from_active_escrow_by_token s (py_token_address updated)
                    (py_amount updated) in
        let! refunded := unwrap (checked_u32 (refunded + 1)) in
        Ok (w, s, refunded)
      else Ok acc
  | None => Ok acc
  end.

Definition trigger_dispute_refund_cascade (env : Env) (w : W) (r : R) (s : State)
    (event_id : string) : tcall W Z :=
  do! require_initialized s in
  do! require_running s in
  do! storage.get_event_registry s in
  let! dispute := ok_or (try_get_dispute r event_id) EventNotFound in
  do! fail_if (negb (bool_decide (dp_status dispute = DsResolvedBuyer))) DisputeNotResolved in
  let! ' (w, s, refunded) :=
    rfold (cascade_step env event_id) (storage.get_event_payments s event_id) (w, s, 0) in
  Ok (refunded, w, emit s (EvBulkRefundProcessed event_id refunded 0 (timestamp env))).

End Refund.
End Refund.
