(* ===== verification/PayWithdraw.v ===== *)
(** * Ticket payment: withdrawals

    Organizer payouts (milestone-limited withdrawal, final claim, milestone
    escrow of [escrow.rs]) and the platform's fees with their daily cap. *)

From S2P Require Import Prelude Machine Host PayTypes PayStorage.
From S2P Require Import PayPurchase.

Module Withdraw.
Section Withdraw.
Context {W R : Type} `{TokenLedger W} `{EventRegistryInterface R}.

(** The largest release percentage among the milestones reached. *)
Definition highest_met (event_info : EventInfo) (milestones : list Milestone) : Z :=
  foldl (λ highest m,
    if (ms_sales_threshold m <=? ev_current_supply event_info)
       && (highest <? ms_release_percent m)
    then ms_release_percent m else highest) 0 milestones.

Definition release_percent (event_info : EventInfo) : Z :=
  match ev_milestone_plan event_info with
  | Some milestones => if bool_decide (milestones = []) then MAX_BPS
                       else highest_met event_info milestones
  | None => MAX_BPS
  end.

Definition withdraw_organizer_funds (env : Env) (w : W) (r : R) (s : State) (event_id : string)
    (token_address : Address) : tcall W Z :=
  do! storage.get_event_registry s in
  let! event_info := Purchase.organizer_event env r event_id in
  do! (if 0 <? ev_end_time event_info then
         let! release_at := unwrap (checked_u64 (ev_end_time event_info + ESCROW_DELAY)) in
         fail_if (timestamp env <? release_at) EventNotCompleted
       else Ok tt) in
  let balance := storage.get_event_balance s event_id in
  do! fail_if (Purchase.dispute_active r event_id) EventDisputed in
  do! fail_if (is_cancelled event_info) EventCancelled in
  do! fail_if ((0 <? ev_min_sales_target event_info) && negb (ev_goal_met event_info))
        GoalNotMet in
  let! total_revenue :=
    ok_or (checked_i128 (eb_organizer_amount balance + eb_total_withdrawn balance))
      ArithmeticError in
  if total_revenue =? 0 then Ok (0, w, s)
  else
    let! max_allowed := ok_or (mul_div total_revenue (release_percent event_info) MAX_BPS)
                          ArithmeticError in
    let! available := ok_or (checked_i128 (max_allowed - eb_total_withdrawn balance))
                        ArithmeticError in
    if available <=? 0 then Ok (0, w, s)
    else
      let available := if eb_organizer_amount balance <? available
                       then eb_organizer_amount balance else available in
      let! w := unwrap (transfer w token_address (this env) (ev_organizer_address event_info)
                          available) in
      let! o := ok_or (checked_i128 (eb_organizer_amount balance - available)) ArithmeticError in
      let! t := ok_or (checked_i128 (eb_total_withdrawn balance + available)) ArithmeticError in
      let s := storage.set_event_balance s event_id (MkBalance o t (eb_platform_fee balance)) in
      let! s := storage.subtract_from_active_escrow_total s available in
      let! s := storage.subtract_from_active_escrow_by_token s token_address available in
      Ok (available, w, s).

Definition settle_platform_fees (env : Env) (s : State) (event_id : string)
    (token_address : Address) : call Z :=
  do! require_admin env s in
  let balance := storage.get_event_balance s event_id in
  if eb_platform_fee balance =? 0 then Ok (0, s)
  else
    let s := storage.set_event_balance s event_id (balance ⟨ eb_platform_fee := 0 ⟩) in
    let! platform_wallet := storage.get_platform_wallet s in
    Ok (eb_platform_fee balance,
        emit s (EvFeeSettled event_id platform_wallet (eb_platform_fee balance) 0
                  (timestamp env))).

Definition withdraw_platform_fees (env : Env) (w : W) (s : State) (amount : Z)
    (token_address : Address) : tcall W unit :=
  do! require_admin env s in
  do! fail_if (amount <=? 0) ArithmeticError in
  let total_accumulated := storage.get_total_fees_collected_by_token s token_address in
  do! fail_if (total_accumulated <? amount) InsufficientFees in
  let cap := storage.get_withdrawal_cap s token_address in
  let! s :=
    (if 0 <? cap then
       let current_day := timestamp env / 86400 in
       let already_withdrawn := storage.get_daily_withdrawn_amount s token_address current_day in
       let! withdrawn := ok_or (checked_i128 (already_withdrawn + amount)) ArithmeticError in
       do! fail_if (cap <? withdrawn) WithdrawalCapExceeded in
       storage.add_to_daily_withdrawn_amount s token_address current_day amount
     else Ok s) in
  let! platform_wallet := storage.get_platform_wallet s in
  let! w := unwrap (transfer w token_address (this env) platform_wallet amount) in
  let! s := storage.subtract_from_total_fees_collected_by_token s token_address amount in
  let! s := storage.subtract_from_active_escrow_total s amount in
  let! s := storage.subtract_from_active_escrow_by_token s token_address amount in
  Ok (tt, w, s).

Definition set_withdrawal_cap (env : Env) (s : State) (token : Address) (amount : Z)
    : call unit :=
  do! require_admin env s in
  do! fail_if (amount <? 0) ArithmeticError in
  Ok (tt, storage.set_withdrawal_cap s token amount).

(** What is paid out when the organizer's share is at most [DUST_THRESHOLD]:
    the whole token balance of the contract less the event's platform fee. *)
Definition swept_amount (contract_token_balance platform_fee organizer_amount : Z) : Z :=
  if (0 <? organizer_amount) && (organizer_amount <=? DUST_THRESHOLD)
     && (organizer_amount <=? contract_token_balance)
  then Z.max (default organizer_amount (checked_i128 (contract_token_balance - platform_fee)))
         organizer_amount
  else organizer_amount.

Definition claim_revenue (env : Env) (w : W) (r : R) (s : State) (event_id : string)
    (token_address : Address) : tcall W Z :=
  do! require_running s in
  do! storage.get_event_registry s in
  let! event_info := Purchase.organizer_event env r event_id in
  do! fail_if (ev_is_active event_info || negb (bool_decide (ev_status event_info = EsInactive)))
        EventNotCompleted in
  do! fail_if ((0 <? ev_min_sales_target event_info) && negb (ev_goal_met event_info))
        GoalNotMet in
  do! fail_if (Purchase.dispute_active r event_id) EventDisputed in
  let bal := storage.get_event_balance s event_id in
  do! fail_if ((eb_organizer_amount bal =? 0) && (eb_platform_fee bal =? 0)) NoFundsAvailable in
  let! platform_wallet := storage.get_platform_wallet s in
  let platform_fee_amount := eb_platform_fee bal in
  let organizer_amount :=
    swept_amount (balance w token_address (this env)) platform_fee_amount
      (eb_organizer_amount bal) in
  let s := if 0 <? platform_fee_amount then
             emit s (EvFeeSettled event_id platform_wallet platform_fee_amount
                       (default (ev_platform_fee_percent event_info)
                          (ev_custom_fee_bps event_info)) (timestamp env))
           else s in
  let! w := (if 0 <? organizer_amount
             then unwrap (transfer w token_address (this env) (ev_payment_address event_info)
                            organizer_amount)
             else Ok w) in
  let! withdrawn := unwrap (checked_i128 (eb_total_withdrawn bal + organizer_amount)) in
  let s := storage.set_event_balance s event_id (MkBalance 0 withdrawn 0) in
  let! s := (if 0 <? organizer_amount then
               let! s := storage.subtract_from_active_escrow_total s organizer_amount in
               storage.subtract_from_active_escrow_by_token s token_address organizer_amount
             else Ok s) in
  Ok (organizer_amount, w,
      emit s (EvRevenueClaimed event_id (ev_organizer_address event_info) organizer_amount
                (timestamp env))).

(** ** [escrow.rs] *)

(** The loop [for i in 0..u32::MAX] stops at the first missing index above
    zero; [fuel] bounds the indices that can be present. *)
Fixpoint milestones_from (s : State) (event_id : string) (fuel : nat) (i : Z)
    : list EscrowMilestone :=
  match fuel with
  | O => []
  | S fuel =>
      match storage.get_escrow_milestone s event_id i with
      | Some milestone => milestone :: milestones_from s event_id fuel (i + 1)
      | None => if 0 <? i then [] else milestones_from s event_id fuel (i + 1)
      end
  end.
Definition get_escrow_milestones (s : State) (event_id : string) : list EscrowMilestone :=
  milestones_from s event_id (size (EscrowMilestones s) + 2) 0.

(** The entries of [event_id] from index [i] on, of which the loop reads a
    prefix. *)
Definition milestone_keys (s : State) (event_id : string) (i : Z) : gset (string * Z) :=
  filter (λ k, k.1 = event_id ∧ i ≤ k.2) (dom (EscrowMilestones s)).
Lemma milestone_keys_step s event_id i m :
  storage.get_escrow_milestone s event_id i = Some m →
  (size (milestone_keys s event_id (i + 1)) < size (milestone_keys s event_id i))%nat.
Proof.
  intros Hm. apply subset_size. split.
  - intros k. unfold milestone_keys. rewrite !elem_of_filter. intros [[? ?] ?].
    split_and!; [done|lia|done].
  - intros Hsub. assert ((event_id, i) ∈ milestone_keys s event_id (i + 1)) as Hin.
    { apply Hsub. apply elem_of_filter. split; [done|]. apply elem_of_dom. by exists m. }
    apply elem_of_filter in Hin as [[_ Hle] _]. cbn in Hle. lia.
Qed.
Lemma milestones_from_fuel s event_id fuel fuel' i :
  1 ≤ i → (size (milestone_keys s event_id i) < fuel)%nat → (fuel ≤ fuel')%nat →
  milestones_from s event_id fuel' i = milestones_from s event_id fuel i.
Proof.
  revert fuel' i. induction fuel as [|fuel IH]; intros fuel' i Hi Hk Hle; [lia|].
  destruct fuel' as [|fuel']; [lia|]. cbn [milestones_from].
  destruct (storage.get_escrow_milestone s event_id i) as [m|] eqn:Em.
  - f_equal. apply milestone_keys_step in Em. apply IH; lia.
  - by rewrite (proj2 (Z.ltb_lt 0 i)) by lia.
Qed.
(** The fuel of [get_escrow_milestones] is enough: more reads nothing more. *)
Lemma get_escrow_milestones_fuel s event_id fuel :
  (size (EscrowMilestones s) + 2 ≤ fuel)%nat →
  milestones_from s event_id fuel 0 = get_escrow_milestones s event_id.
Proof.
  intros Hf. unfold get_escrow_milestones. rewrite Nat.add_comm. cbn [Nat.add].
  destruct fuel as [|fuel]; [lia|]. cbn [milestones_from].
  assert (size (milestone_keys s event_id 1) ≤ size (EscrowMilestones s))%nat.
  { rewrite <- (size_dom (EscrowMilestones s)). apply subseteq_size.
    intros k Hk. by apply elem_of_filter in Hk as [_ ?]. }
  change (0 + 1) with 1.
  assert (milestones_from s event_id fuel 1
          = milestones_from s event_id (S (size (EscrowMilestones s))) 1) as ->
    by (apply milestones_from_fuel; lia).
  done.
Qed.

Definition init_escrow_for_event (s : State) (event_id : string) : EscrowState * State :=
  storage.init_escrow_state s event_id.

(** One turn of the loop over the milestones: index, amount released so far,
    milestones newly reached, and the escrow record. *)
Definition milestone_step (event_info : EventInfo) (balance : EventBalance)
    (reached_before : Z) (acc : Z * Z * EscrowState) (im : Z * EscrowMilestone)
    : res TicketPaymentError (Z * Z * EscrowState) :=
  let ' (amount_released, newly_reached, escrow_state) := acc in
  let ' (i, milestone) := im in
  if i <? reached_before then Ok acc
  else if negb (em_released milestone)
          && (em_sales_threshold milestone <=? ev_current_supply event_info) then
    let! release_amount :=
      ok_or (mul_div (eb_organizer_amount balance) (em_release_percent milestone) 10000)
        ArithmeticError in
    let! ' (amount_released, escrow_state) :=
      (if 0 <? release_amount then
         let! a := ok_or (checked_i128 (amount_released + release_amount)) ArithmeticError in
         let! t := ok_or (checked_i128 (es_total_released escrow_state + release_amount))
                     ArithmeticError in
         Ok (a, escrow_state ⟨ es_total_released := t ⟩)
       else Ok (amount_released, escrow_state)) in
    let! newly_reached := ok_or (checked_u32 (newly_reached + 1)) ArithmeticError in
    Ok (amount_released, newly_reached, escrow_state)
  else Ok acc.

Definition release_escrow_milestone (env : Env) (r : R) (s : State) (event_id : string)
    (token_address : Address) : call Z :=
  do! storage.get_event_registry s in
  let! event_info := ok_or (try_get_event r event_id) EventNotFound in
  do! fail_if (ev_is_active event_info || bool_decide (ev_status event_info = EsActive))
        EventInactive in
  do! require_auth env (ev_organizer_address event_info) in
  let! escrow_state := ok_or (storage.get_escrow_state s event_id) EscrowNotInitialized in
  let milestones := get_escrow_milestones s event_id in
  let balance := storage.get_event_balance s event_id in
  let! ' (amount_released, newly_reached, escrow_state) :=
    rfold (milestone_step event_info balance (es_milestones_reached escrow_state))
      (zip (seqZ 0 (Z.of_nat (length milestones))) milestones) (0, 0, escrow_state) in
  if amount_released =? 0 then Ok (0, s)
  else
    let! reached := ok_or (checked_u32 (es_milestones_reached escrow_state + newly_reached))
                      ArithmeticError in
    let escrow_state := escrow_state ⟨ es_milestones_reached := reached ⟩ in
    let! o := ok_or (checked_i128 (eb_organizer_amount balance - amount_released))
                ArithmeticError in
    let! t := ok_or (checked_i128 (eb_total_withdrawn balance + amount_released))
                ArithmeticError in
    let s := storage.set_event_balance s event_id
               (balance ⟨ eb_organizer_amount := o ⟩ ⟨ eb_total_withdrawn := t ⟩) in
    let s := storage.set_escrow_state s event_id escrow_state in
    Ok (amount_released,
        emit s (EvMilestoneReleased event_id (es_milestones_reached escrow_state)
                  amount_released (timestamp env))).

End Withdraw.
End Withdraw.
