(* ===== verification/PayTransfer.v ===== *)
(** * Ticket payment: tickets after the sale

    Check-in and attendance tokens, transfers between holders, the resale
    market, and the ascending auction of [place_bid] and [close_auction]. *)

From S2P Require Import Prelude Machine Host PayTypes PayStorage.
From S2P Require Import PayPurchase.

Module Tickets.
Section Tickets.
Context {W R : Type} `{TokenLedger W} `{EventRegistryInterface R} `{HostCrypto}.

(** ** Check-in *)
Definition check_in (env : Env) (r : R) (s : State) (payment_id : string) (scanner : Address)
    (raw_secret : string) : call unit :=
  do! require_initialized s in
  do! require_running s in
  let! payment := ok_or (storage.get_payment s payment_id) PaymentNotFound in
  do! require_auth env scanner in
  do! fail_if (bool_decide (py_status payment = CheckedIn)) TicketAlreadyUsed in
  do! fail_if (negb (storage.verify_secret s payment_id raw_secret)) InvalidSecret in
  do! storage.get_event_registry s in
  let! event_info := ok_or (try_get_event r (py_event_id payment)) EventNotFound in
  let is_organizer := bool_decide (scanner = ev_organizer_address event_info) in
  let! is_scanner := unwrap (is_scanner_authorized r (py_event_id payment) scanner) in
  do! fail_if (negb is_organizer && negb is_scanner) UnauthorizedScanner in
  let current_time := timestamp env in
  do! fail_if ((0 <? ev_end_time event_info) && (ev_end_time event_info <? current_time))
        EventEnded in
  let payment := payment ⟨ py_status := CheckedIn ⟩ ⟨ py_last_checked_in_at := current_time ⟩ in
  let! s := storage.store_payment s payment in
  let s := emit s (EvTicketCheckedIn payment_id (py_event_id payment) (py_buyer_address payment)
                     scanner current_time) in
  if storage.is_poap_minted s payment_id then Ok (tt, s)
  else
    let! s := storage.mark_poap_minted s payment_id (py_buyer_address payment) in
    Ok (tt, emit s (EvPoapMinted payment_id (py_event_id payment) (py_buyer_address payment)
                      current_time)).

Definition mint_poap (env : Env) (s : State) (payment_id : string) : call unit :=
  do! fail_if (negb (storage.is_initialized s)) NotInitialized in
  do! require_running s in
  let! payment := ok_or (storage.get_payment s payment_id) PaymentNotFound in
  do! fail_if (negb (bool_decide (py_status payment = CheckedIn))) InvalidPaymentStatus in
  do! fail_if (storage.is_poap_minted s payment_id) TicketAlreadyUsed in
  let! s := storage.mark_poap_minted s payment_id (py_buyer_address payment) in
  Ok (tt, emit s (EvPoapMinted payment_id (py_event_id payment) (py_buyer_address payment)
                    (timestamp env))).

(** ** Transfer *)

(** The organizer's cap: [tier.price * (MAX_BPS + cap_bps) / MAX_BPS]. *)
Definition max_resale_price (tier : TicketTier) (cap_bps : Z) : res TicketPaymentError Z :=
  let factor := default i128_max (checked_i128 (MAX_BPS + cap_bps)) in
  let! product := ok_or (checked_i128 (tt_price tier * factor)) ArithmeticError in
  Ok (Z.quot product MAX_BPS).

Definition check_resale_cap (event_info : EventInfo) (ticket_tier_id : string) (price : Z)
    : res TicketPaymentError unit :=
  match ev_resale_cap_bps event_info with
  | Some cap_bps =>
      let! tier := ok_or (ev_tiers event_info !! ticket_tier_id) TierNotFound in
      let! max_price := max_resale_price tier cap_bps in
      fail_if (max_price <? price) ResalePriceExceedsCap
  | None => Ok tt
  end.

(** The holder becomes [to]: the record and the buyer index. *)
Definition reassign (s : State) (payment_id : string) (payment : Payment) (from to : Address)
    : res TicketPaymentError State :=
  let s := storage.set_payment s payment_id (payment ⟨ py_buyer_address := to ⟩) in
  let s := storage.remove_payment_from_buyer_index s from payment_id in
  storage.add_payment_to_buyer_index s to payment_id.

Definition transfer_ticket (env : Env) (w : W) (r : R) (s : State) (payment_id : string)
    (to : Address) (sale_price : option Z) : tcall W unit :=
  do! require_initialized s in
  do! require_running s in
  let! payment := ok_or (storage.get_payment s payment_id) PaymentNotFound in
  do! fail_if (negb (bool_decide (py_status payment = Confirmed))) InvalidPaymentStatus in
  do! fail_if (py_is_soulbound payment) NonTransferable in
  let from := py_buyer_address payment in
  do! require_auth env from in
  do! fail_if (bool_decide (from = to)) InvalidAddress in
  do! validate_recipient env to in
  do! match sale_price with
      | Some price =>
          do! storage.get_event_registry s in
          let! event_info := ok_or (try_get_event r (py_event_id payment)) EventNotFound in
          check_resale_cap event_info (py_ticket_tier_id payment) price
      | None => Ok tt
      end in
  let transfer_fee_bps :=
    default TRANSFER_FEE_BPS (storage.get_transfer_fee s (py_event_id payment)) in
  let! actual_transfer_fee :=
    (if 0 <? transfer_fee_bps
     then ok_or (mul_div (py_amount payment) transfer_fee_bps MAX_BPS) ArithmeticError
     else Ok 0) in
  let! ' (w, s) :=
    (if 0 <? actual_transfer_fee then
       let! w := unwrap (transfer_from w (py_token_address payment) (this env) from (this env)
                           actual_transfer_fee) in
       let! s := storage.update_event_balance s (py_event_id payment) actual_transfer_fee 0 in
       Ok (w, s)
     else Ok (w, s)) in
  let! s := reassign s payment_id payment from to in
  Ok (tt, w, emit s (EvTicketTransferred payment_id from to actual_transfer_fee
                       (timestamp env))).

(** ** Resale *)
Definition list_for_resale (env : Env) (r : R) (s : State) (payment_id : string)
    (ask_price : Z) : call unit :=
  do! require_initialized s in
  do! require_running s in
  do! fail_if (ask_price <=? 0) InvalidPrice in
  let! payment := ok_or (storage.get_payment s payment_id) PaymentNotFound in
  do! fail_if (negb (bool_decide (py_status payment = Confirmed))) InvalidPaymentStatus in
  do! require_auth env (py_buyer_address payment) in
  do! match resale.get_resale_listing s payment_id with
      | Some existing => fail_if (bool_decide (rl_status existing = RsActive)) TicketAlreadyListed
      | None => Ok tt
      end in
  do! storage.get_event_registry s in
  do! match try_get_event r (py_event_id payment) with
      | Some event_info => check_resale_cap event_info (py_ticket_tier_id payment) ask_price
      | None => Ok tt
      end in
  let listing := MkListing payment_id (py_event_id payment) (py_buyer_address payment) ask_price
                   RsActive (timestamp env) in
  let s := resale.store_resale_listing s listing in
  Ok (tt, emit s (EvResaleListed payment_id (py_buyer_address payment) ask_price
                    (timestamp env))).

Definition cancel_resale_listing (env : Env) (s : State) (payment_id : string) : call unit :=
  do! require_initialized s in
  do! require_running s in
  let! listing := ok_or (resale.get_resale_listing s payment_id) ResaleListingNotFound in
  do! fail_if (negb (bool_decide (rl_status listing = RsActive))) ResaleListingNotActive in
  do! require_auth env (rl_seller listing) in
  let s := resale.store_resale_listing s (listing ⟨ rl_status := RsCancelled ⟩) in
  Ok (tt, emit s (EvResaleCancelled payment_id (rl_seller listing) (timestamp env))).

Definition royalty_of (s : State) (event_id : string) (ask_price : Z)
    : res TicketPaymentError Z :=
  let royalty_bps := resale.get_resale_royalty_bps s event_id in
  if 0 <? royalty_bps then ok_or (mul_div ask_price royalty_bps MAX_BPS) ArithmeticError
  else Ok 0.

(** The price in, the seller's proceeds and the royalty out. *)
Definition pay_resale (env : Env) (w : W) (r : R) (s : State) (token_address : Address)
    (listing : ResaleListing) (buyer : Address) (royalty : Z) : res TicketPaymentError W :=
  let ask_price := rl_ask_price listing in
  let! seller_proceeds := ok_or (checked_i128 (ask_price - royalty)) ArithmeticError in
  do! fail_if (allowance w token_address buyer (this env) <? ask_price) InsufficientAllowance in
  let! w := unwrap (transfer_from w token_address (this env) buyer (this env) ask_price) in
  let! w := (if 0 <? seller_proceeds
             then unwrap (transfer w token_address (this env) (rl_seller listing)
                            seller_proceeds)
             else Ok w) in
  if 0 <? royalty then
    do! storage.get_event_registry s in
    match try_get_event r (rl_event_id listing) with
    | Some event_info =>
        unwrap (transfer w token_address (this env) (ev_organizer_address event_info) royalty)
    | None => unwrap (transfer w token_address (this env) (rl_seller listing) royalty)
    end
  else Ok w.

Definition purchase_resale_ticket (env : Env) (w : W) (r : R) (s : State) (payment_id : string)
    (buyer : Address) (max_price : Z) : tcall W unit :=
  do! require_initialized s in
  do! require_running s in
  do! require_auth env buyer in
  let! listing := ok_or (resale.get_resale_listing s payment_id) ResaleListingNotFound in
  do! fail_if (negb (bool_decide (rl_status listing = RsActive))) ResaleListingNotActive in
  do! fail_if (bool_decide (buyer = rl_seller listing)) InvalidAddress in
  let ask_price := rl_ask_price listing in
  do! fail_if (max_price <? ask_price) PriceMismatch in
  let! royalty := royalty_of s (rl_event_id listing) ask_price in
  let! token_address := storage.get_usdc_token s in
  let! w := pay_resale env w r s token_address listing buyer royalty in
  let! payment := ok_or (storage.get_payment s payment_id) PaymentNotFound in
  let seller := rl_seller listing in
  let! s := reassign s payment_id payment seller buyer in
  let s := resale.store_resale_listing s (listing ⟨ rl_status := RsCompleted ⟩) in
  Ok (tt, w, emit s (EvResalePurchased payment_id seller buyer ask_price royalty
                       (timestamp env))).

Definition set_resale_royalty_bps (env : Env) (s : State) (event_id : string) (bps : Z)
    : call unit :=
  do! require_admin env s in
  resale.set_resale_royalty_bps s event_id bps.

(** ** Ascending auction *)
Definition auction_tier (event_info : EventInfo) (ticket_tier_id : string)
    : res TicketPaymentError AuctionConfig :=
  let! tier := ok_or (ev_tiers event_info !! ticket_tier_id) TierNotFound in
  match tt_auction_config tier with
  | [] => Err NotAuctionTier
  | auction_config :: _ => Ok auction_config
  end.

(** The least bid accepted next. *)
Definition min_required (auction_config : AuctionConfig) (highest : option HighestBid)
    : res TicketPaymentError Z :=
  match highest with
  | Some bid => ok_or (checked_i128 (hb_amount bid + ac_min_increment auction_config))
                  ArithmeticError
  | None => Ok (ac_start_price auction_config)
  end.

Definition place_bid (env : Env) (w : W) (r : R) (s : State) (event_id ticket_tier_id : string)
    (bidder_address token_address : Address) (amount : Z) : tcall W unit :=
  do! require_initialized s in
  do! require_running s in
  do! require_auth env bidder_address in
  do! fail_if (negb (storage.is_token_whitelisted s token_address)) TokenNotWhitelisted in
  do! storage.get_event_registry s in
  let! event_info := ok_or (try_get_event r event_id) EventNotFound in
  do! fail_if (negb (ev_is_active event_info) || is_cancelled event_info) EventInactive in
  do! fail_if (negb (event_accepts_token s event_info token_address)) TokenNotWhitelisted in
  let! auction_config := auction_tier event_info ticket_tier_id in
  let current_time := timestamp env in
  do! fail_if (ac_end_time auction_config <? current_time) AuctionEnded in
  let previous_bidder := storage.get_highest_bid s event_id ticket_tier_id in
  let! least := min_required auction_config previous_bidder in
  do! fail_if (amount <? least) BidTooLow in
  do! fail_if (allowance w token_address bidder_address (this env) <? amount)
        InsufficientAllowance in
  let! w := unwrap (transfer_from w token_address (this env) bidder_address (this env) amount) in
  let! s := storage.add_to_active_escrow_total s amount in
  let! s := storage.add_to_active_escrow_by_token s token_address amount in
  let! ' (w, s) :=
    match previous_bidder with
    | Some prev =>
        let! w := unwrap (transfer w (hb_token_address prev) (this env) (hb_bidder prev)
                            (hb_amount prev)) in
        let! s := storage.subtract_from_active_escrow_total s (hb_amount prev) in
        let! s := storage.subtract_from_active_escrow_by_token s (hb_token_address prev)
                    (hb_amount prev) in
        Ok (w, s)
    | None => Ok (w, s)
    end in
  let s := storage.set_highest_bid s event_id ticket_tier_id
             (MkBid bidder_address token_address amount) in
  Ok (tt, w, emit s (EvBidPlaced event_id ticket_tier_id bidder_address amount current_time)).

Definition close_auction (env : Env) (r : R) (s : State)
    (payment_id event_id ticket_tier_id : string) : res TicketPaymentError (unit * R * State) :=
  do! require_initialized s in
  do! require_running s in
  do! storage.get_event_registry s in
  let! event_info := ok_or (try_get_event r event_id) EventNotFound in
  do! fail_if (negb (ev_is_active event_info) || is_cancelled event_info) EventInactive in
  let! auction_config := auction_tier event_info ticket_tier_id in
  let current_time := timestamp env in
  do! fail_if (current_time <=? ac_end_time auction_config) AuctionNotEnded in
  do! fail_if (storage.is_auction_closed s event_id ticket_tier_id) AuctionEnded in
  let! winning_bid := ok_or (storage.get_highest_bid s event_id ticket_tier_id)
                        NoFundsAvailable in
  let amount := hb_amount winning_bid in
  let bidder_address := hb_bidder winning_bid in
  let s := storage.set_auction_closed s event_id ticket_tier_id in
  let fee_bps := default (ev_platform_fee_percent event_info) (ev_custom_fee_bps event_info) in
  let! total_platform_fee := ok_or (mul_div amount fee_bps MAX_BPS) ArithmeticError in
  let! total_organizer_amount := ok_or (checked_i128 (amount - total_platform_fee))
                                   ArithmeticError in
  let! s := storage.update_event_balance s event_id total_organizer_amount total_platform_fee in
  let! s := storage.add_to_total_volume_processed s amount in
  let! s := storage.add_to_total_fees_collected_by_token s (hb_token_address winning_bid)
              total_platform_fee in
  let! r := unwrap (increment_inventory r env event_id ticket_tier_id bidder_address 1
                      (hb_token_address winning_bid)) in
  let payment :=
    MkPayment payment_id event_id bidder_address bidder_address ticket_tier_id
      (hb_token_address winning_bid) amount total_platform_fee total_organizer_amount Confirmed
      "" (timestamp env) (Some (timestamp env)) 0 false 0 0 None in
  let! s := storage.store_payment s payment in
  let s := emit s (EvAuctionClosed event_id ticket_tier_id bidder_address amount current_time) in
  Ok (tt, r, emit s (EvPaymentProcessed payment_id event_id bidder_address amount
                       total_platform_fee current_time)).

End Tickets.
End Tickets.
