(* ===== verification/PayGovernance.v ===== *)
(** * Ticket payment: governance

    Proposals of the governors with a simple majority and a 48-hour time lock,
    and the two-signature escrow proposals that share the same table
    ([contract.rs], [governance.rs]). *)

From S2P Require Import Prelude Machine Host PayTypes PayStorage.
From S2P Require Import PayPurchase.

Module Gov.

Definition propose_parameter_change (env : Env) (s : State) (proposer : Address)
    (change : ParameterChange) : call Z :=
  do! require_auth env proposer in
  do! fail_if (negb (storage.is_governor s proposer)) NotGovernor in
  let! ' (proposal_id, s) := storage.increment_proposal_count s in
  let! expires_at := unwrap (checked_u64 (timestamp env + 604800)) in
  let proposal := MkProposal proposal_id proposer change PropPending (timestamp env) expires_at
                    1 [proposer] in
  let s := storage.set_proposal s proposal in
  Ok (proposal_id, emit s (EvProposalCreated proposal_id proposer change (timestamp env))).

Definition vote_on_proposal (env : Env) (s : State) (voter : Address) (proposal_id : Z)
    : call unit :=
  do! require_auth env voter in
  do! fail_if (negb (storage.is_governor s voter)) NotGovernor in
  let! proposal := ok_or (storage.get_proposal s proposal_id) InvalidProposal in
  do! fail_if (pr_expires_at proposal <? timestamp env) ProposalExpired in
  do! fail_if (negb (bool_decide (pr_status proposal = PropPending))) ProposalNotActive in
  do! fail_if (bool_decide (voter ∈ pr_voters proposal)) AlreadyVoted in
  let! votes := unwrap (checked_u32 (pr_vote_count proposal + 1)) in
  let proposal := proposal ⟨ pr_voters := pr_voters proposal ++ [voter] ⟩
                           ⟨ pr_vote_count := votes ⟩ in
  let s := storage.set_proposal s proposal in
  Ok (tt, emit s (EvProposalVoted proposal_id voter (timestamp env))).

(** The [match &proposal.change] of [execute_proposal]. *)
Definition apply_change (s : State) (total_governors : Z) (change : ParameterChange)
    : res TicketPaymentError State :=
  match change with
  | AddGovernor new_governor =>
      if storage.is_governor s new_governor then Ok s
      else
        let s := storage.set_governor s new_governor true in
        let! n := unwrap (checked_u32 (total_governors + 1)) in
        Ok (storage.set_total_governors s n)
  | RemoveGovernor old_governor =>
      do! fail_if (total_governors <=? 1) CannotRemoveLastGovernor in
      if storage.is_governor s old_governor then
        let s := storage.set_governor s old_governor false in
        Ok (storage.set_total_governors s (total_governors - 1))
      else Ok s
  | AddTokenToWhitelist token => Ok (storage.add_token_to_whitelist s token)
  | RemoveTokenFromWhitelist token => Ok (storage.remove_token_from_whitelist s token)
  | UpdateWithdrawalCap token cap => Ok (storage.set_withdrawal_cap s token cap)
  | UpdateSlippage bps => storage.set_slippage_bps s bps
  | UpdateTransferFee event_id fee => Ok (storage.set_transfer_fee s event_id fee)
  | EscrowWithdrawal _ _ => Err InvalidPaymentStatus
  end.

Definition execute_proposal (env : Env) (s : State) (executor : Address) (proposal_id : Z)
    : call unit :=
  do! require_auth env executor in
  let! proposal := ok_or (storage.get_proposal s proposal_id) InvalidProposal in
  let current_time := timestamp env in
  do! fail_if (pr_expires_at proposal <? current_time) ProposalExpired in
  do! fail_if (negb (bool_decide (pr_status proposal = PropPending))) ProposalNotActive in
  let! unlocked_at := unwrap (checked_u64 (pr_created_at proposal + 172800)) in
  do! fail_if (current_time <? unlocked_at) VotingPeriodNotMet in
  let total_governors := storage.get_total_governors s in
  let! threshold := unwrap (checked_u32 (total_governors / 2 + 1)) in
  do! fail_if (pr_vote_count proposal <? threshold) InsufficientVotes in
  let! s := apply_change s total_governors (pr_change proposal) in
  let proposal := proposal ⟨ pr_status := PropExecuted ⟩ in
  let s := storage.set_proposal s proposal in
  Ok (tt, emit s (EvGovernanceActionExecuted proposal_id (pr_change proposal) current_time)).

(** ** Escrow withdrawals *)
Section Escrow.
Context {R : Type} `{EventRegistryInterface R}.

Definition propose_escrow_withdrawal (env : Env) (r : R) (s : State) (event_id : string)
    (amount : Z) (token_address : Address) : call Z :=
  do! require_initialized s in
  do! storage.get_event_registry s in
  let! event_info := Purchase.organizer_event env r event_id in
  do! fail_if (amount <=? 0) ArithmeticError in
  let! ' (proposal_id, s) := storage.increment_proposal_count s in
  let! expires_at := unwrap (checked_u64 (timestamp env + 604800)) in
  let proposal := MkProposal proposal_id (ev_organizer_address event_info)
                    (EscrowWithdrawal event_id amount) PropPending (timestamp env) expires_at
                    1 [ev_organizer_address event_info] in
  let s := storage.set_proposal s proposal in
  Ok (proposal_id, emit s (EvEscrowWithdrawalProposed proposal_id event_id amount
                             (ev_organizer_address event_info) (timestamp env))).
End Escrow.

Definition approve_escrow_withdrawal (env : Env) (s : State) (proposal_id : Z) : call unit :=
  let! admin := require_admin env s in
  let! proposal := ok_or (storage.get_proposal s proposal_id) InvalidProposal in
  do! fail_if (negb (bool_decide (pr_status proposal = PropPending))) ProposalNotActive in
  do! fail_if (pr_expires_at proposal <? timestamp env) ProposalExpired in
  if bool_decide (admin ∈ pr_voters proposal) then Ok (tt, s)
  else
    let! votes := unwrap (checked_u32 (pr_vote_count proposal + 1)) in
    let proposal := proposal ⟨ pr_voters := pr_voters proposal ++ [admin] ⟩
                             ⟨ pr_vote_count := votes ⟩ in
    let s := storage.set_proposal s proposal in
    Ok (tt, emit s (EvEscrowWithdrawalApproved proposal_id admin (timestamp env))).

Definition execute_escrow_withdrawal (env : Env) (s : State) (proposal_id : Z) : call unit :=
  let! executor := require_admin env s in
  let! proposal := ok_or (storage.get_proposal s proposal_id) InvalidProposal in
  do! fail_if (negb (bool_decide (pr_status proposal = PropPending))) ProposalNotActive in
  do! fail_if (pr_expires_at proposal <? timestamp env) ProposalExpired in
  do! fail_if (pr_vote_count proposal <? 2) InsufficientVotes in
  let s := storage.set_proposal s (proposal ⟨ pr_status := PropExecuted ⟩) in
  Ok (tt, emit s (EvEscrowWithdrawalExecuted proposal_id "" 0 executor (timestamp env))).

End Gov.
