(* ===== verification/PayPricing.v ===== *)
(** * Ticket payment: Dutch auctions and bonding curves

    [auction.rs] and [bonding_curve.rs].  Prices are computed with plain
    operators on [i128], which trap on overflow; [saturating_mul] is used in
    the power only.  Division truncates towards zero.  The little-endian
    encoding of the price and the preimage of the commitment are written out;
    the hash function itself is the host's ([HostCrypto]). *)

From S2P Require Import Prelude Machine Host PayTypes PayStorage.

(** Plain [+], [-], [*], [/] on [i128]. *)
Definition add_i128 (a b : Z) : res TicketPaymentError Z := unwrap (checked_i128 (a + b)).
Definition sub_i128 (a b : Z) : res TicketPaymentError Z := unwrap (checked_i128 (a - b)).
Definition mul_i128 (a b : Z) : res TicketPaymentError Z := unwrap (checked_i128 (a * b)).
Definition div_i128 (a b : Z) : res TicketPaymentError Z := unwrap (checked_div a b).

Module auction.

Definition COMMIT_EXPIRY_SECS : Z := 300.

Definition set_dutch_auction (s : State) (event_id tier_id : string)
    (config : DutchAuctionConfig) : State :=
  s ⟨ DutchAuction ::= <[(event_id, tier_id) := config]> ⟩.
Definition get_dutch_auction (s : State) (event_id tier_id : string)
    : option DutchAuctionConfig :=
  DutchAuction s !! (event_id, tier_id).
Definition set_pending_commit (s : State) (event_id tier_id : string) (buyer : Address)
    (commit : PendingCommit) : State :=
  s ⟨ PendingCommits ::= <[(event_id, tier_id, buyer) := commit]> ⟩.
Definition take_pending_commit (s : State) (event_id tier_id : string) (buyer : Address)
    : option PendingCommit * State :=
  (PendingCommits s !! (event_id, tier_id, buyer),
   s ⟨ PendingCommits ::= delete (event_id, tier_id, buyer) ⟩).

Definition validate_dutch_auction_config (env : Env) (cfg : DutchAuctionConfig)
    : res TicketPaymentError unit :=
  do! fail_if (da_reserve_price cfg <=? 0) InvalidPrice in
  do! fail_if (da_start_price cfg <=? da_reserve_price cfg) InvalidPrice in
  do! fail_if (da_end_time cfg <=? da_start_time cfg) InvalidPrice in
  fail_if (da_end_time cfg <=? timestamp env) AuctionEnded.

Definition current_dutch_price_linear (cfg : DutchAuctionConfig) (now : Z)
    : res TicketPaymentError Z :=
  if da_end_time cfg <=? now then Ok (da_reserve_price cfg)
  else if now <=? da_start_time cfg then Ok (da_start_price cfg)
  else
    let elapsed := now - da_start_time cfg in
    let total := da_end_time cfg - da_start_time cfg in
    let! spread := sub_i128 (da_start_price cfg) (da_reserve_price cfg) in
    let! product := mul_i128 elapsed spread in
    let! drop := div_i128 product total in
    sub_i128 (da_start_price cfg) drop.

Definition current_dutch_price_exponential (cfg : DutchAuctionConfig) (now : Z)
    : res TicketPaymentError Z :=
  if da_end_time cfg <=? now then Ok (da_reserve_price cfg)
  else if now <=? da_start_time cfg then Ok (da_start_price cfg)
  else
    let elapsed := now - da_start_time cfg in
    let total := da_end_time cfg - da_start_time cfg in
    let scale := 1000000 in
    let! remaining := sub_i128 total elapsed in
    let! scaled := mul_i128 remaining scale in
    let! f := div_i128 scaled total in
    let! square := mul_i128 f f in
    let! curve := div_i128 square scale in
    let! twice := mul_i128 2 f in
    let! factor := sub_i128 twice curve in
    let! spread := sub_i128 (da_start_price cfg) (da_reserve_price cfg) in
    let! product := mul_i128 spread factor in
    let! part := div_i128 product scale in
    add_i128 (da_reserve_price cfg) part.

Definition current_dutch_price (cfg : DutchAuctionConfig) (now : Z) : res TicketPaymentError Z :=
  if da_exponential cfg then current_dutch_price_exponential cfg now
  else current_dutch_price_linear cfg now.

(** ** Commit and reveal *)
Section Commit.
Context `{HostCrypto}.

(** [value.to_le_bytes()]: sixteen bytes of the two's complement. *)
Definition i128_to_le_bytes (value : Z) : string :=
  foldr (λ i acc, String (Ascii.ascii_of_nat (Z.to_nat (Z.land (Z.shiftr value (8 * i)) 255))) acc)
    EmptyString (seqZ 0 16).

Definition build_commit_hash (secret : string) (buyer : Address) (price_stroops : Z) : string :=
  sha256 (secret +:+ to_xdr buyer +:+ i128_to_le_bytes price_stroops).

Definition commit_purchase (env : Env) (s : State) (event_id tier_id : string)
    (buyer : Address) (commit_hash : string) (max_slippage_bps : Z) : call Z :=
  do! require_auth env buyer in
  do! fail_if (MAX_BPS <? max_slippage_bps) InvalidSlippageBps in
  let! cfg := ok_or (get_dutch_auction s event_id tier_id) AuctionNotActive in
  let now := timestamp env in
  do! fail_if (da_end_time cfg <=? now) AuctionEnded in
  do! fail_if (now <? da_start_time cfg) AuctionNotActive in
  let! committed_price := current_dutch_price cfg now in
  let! expires_at := unwrap (checked_u64 (now + COMMIT_EXPIRY_SECS)) in
  let commit := MkCommit commit_hash expires_at committed_price max_slippage_bps in
  Ok (committed_price, set_pending_commit s event_id tier_id buyer commit).

Definition reveal_purchase (env : Env) (s : State) (event_id tier_id : string)
    (buyer : Address) (secret : string) (price_stroops : Z) : call Z :=
  do! require_auth env buyer in
  let (taken, s) := take_pending_commit s event_id tier_id buyer in
  let! commit := ok_or taken InvalidSecret in
  let now := timestamp env in
  do! fail_if (pc_expires_at commit <? now) CommitExpired in
  let expected_hash := build_commit_hash secret buyer price_stroops in
  do! fail_if (negb (bool_decide (expected_hash = pc_hash commit))) InvalidSecret in
  do! fail_if (negb (price_stroops =? pc_committed_price commit)) PriceMismatch in
  let! cfg := ok_or (get_dutch_auction s event_id tier_id) AuctionNotActive in
  let! current_price := current_dutch_price cfg now in
  let! product := mul_i128 (pc_committed_price commit) (pc_max_slippage_bps commit) in
  let! tolerance := div_i128 product MAX_BPS in
  let! ceiling := add_i128 (pc_committed_price commit) tolerance in
  do! fail_if (ceiling <? current_price) PriceOutsideSlippage in
  Ok (Z.min current_price (pc_committed_price commit), s).
End Commit.

End auction.

Module bonding_curve.

Definition PARAM_SCALE : Z := 1000000.
Definition MAX_EXPONENT : Z := 4.

Definition set_bonding_curve (s : State) (event_id tier_id : string)
    (config : BondingCurveConfig) : State :=
  s ⟨ BondingCurve ::= <[(event_id, tier_id) := config]> ⟩.
Definition get_bonding_curve (s : State) (event_id tier_id : string)
    : option BondingCurveConfig :=
  BondingCurve s !! (event_id, tier_id).

Definition validate_bonding_curve_config (cfg : BondingCurveConfig)
    : res TicketPaymentError unit :=
  do! fail_if (bc_a_scaled cfg <=? 0) InvalidPrice in
  do! fail_if ((bc_b_exponent cfg =? 0) || (MAX_EXPONENT <? bc_b_exponent cfg)) InvalidPrice in
  do! fail_if (bc_c_base cfg <? 0) InvalidPrice in
  fail_if (bc_initial_supply cfg =? 0) MaxSupplyExceeded.

(** [for _ in 0..exp { result = result.saturating_mul(base) }] *)
Definition integer_pow (base exp : Z) : Z :=
  if exp =? 0 then 1
  else foldl (λ result _, sat_i128 (result * base)) 1 (seqZ 0 exp).

Definition bonding_curve_price (cfg : BondingCurveConfig) (remaining_supply : Z)
    : res TicketPaymentError Z :=
  let s_pow_b := integer_pow remaining_supply (bc_b_exponent cfg) in
  let! product := mul_i128 (bc_a_scaled cfg) s_pow_b in
  let! variable_component := div_i128 product PARAM_SCALE in
  add_i128 variable_component (bc_c_base cfg).

(** The closure [integral_at]. *)
Definition integral_at (cfg : BondingCurveConfig) (b_plus_1 s : Z)
    : res TicketPaymentError Z :=
  let s_pow := integer_pow s b_plus_1 in
  let! product := mul_i128 (bc_a_scaled cfg) s_pow in
  let! term := div_i128 product b_plus_1 in
  let! term := div_i128 term PARAM_SCALE in
  let! base := mul_i128 (bc_c_base cfg) s in
  add_i128 term base.

Definition bonding_curve_integral_cost (cfg : BondingCurveConfig) (remaining_supply quantity : Z)
    : res TicketPaymentError Z :=
  if quantity =? 0 then Ok 0
  else
    do! fail_if (remaining_supply <? quantity) MaxSupplyExceeded in
    let s_start := remaining_supply in
    let s_end := remaining_supply - quantity in
    let! b_plus_1 := unwrap (checked_u32 (bc_b_exponent cfg + 1)) in
    let! at_start := integral_at cfg b_plus_1 s_start in
    let! at_end := integral_at cfg b_plus_1 s_end in
    let! cost := sub_i128 at_start at_end in
    do! fail_if (cost <? 0) ArithmeticError in
    Ok cost.

Definition check_slippage (actual_price buyer_quoted_price max_slippage_bps : Z)
    : res TicketPaymentError unit :=
  do! fail_if (MAX_BPS <? max_slippage_bps) InvalidSlippageBps in
  let! product := mul_i128 buyer_quoted_price max_slippage_bps in
  let! tolerance := div_i128 product MAX_BPS in
  let! ceiling := add_i128 buyer_quoted_price tolerance in
  fail_if (ceiling <? actual_price) PriceOutsideSlippage.

End bonding_curve.

(** ** Ticket payment: prices

    Dutch auction prices stay between reserve and start price and fall over
    time, a commitment can be revealed at the current price and no more; the
    bonding curve starts at its base price, rises with the supply, and bulk
    orders cost exactly what their parts cost. *)
Import auction bonding_curve.

(** ** Trapping arithmetic whose result fits *)
Lemma add_i128_fits a b : i128_min ≤ a + b ≤ i128_max → add_i128 a b = Ok (a + b).
Proof. intros Hb. unfold add_i128, checked_i128. by rewrite (proj2 (in_i128_spec _) Hb). Qed.
Lemma sub_i128_fits a b : i128_min ≤ a - b ≤ i128_max → sub_i128 a b = Ok (a - b).
Proof. intros Hb. unfold sub_i128, checked_i128. by rewrite (proj2 (in_i128_spec _) Hb). Qed.
Lemma mul_i128_fits a b : i128_min ≤ a * b ≤ i128_max → mul_i128 a b = Ok (a * b).
Proof. intros Hb. unfold mul_i128, checked_i128. by rewrite (proj2 (in_i128_spec _) Hb). Qed.
Lemma div_i128_fits a b : 0 ≤ a ≤ i128_max → 0 < b → div_i128 a b = Ok (a / b).
Proof.
  intros Ha Hb. unfold div_i128, checked_div, checked_i128.
  destruct (Z.eqb_spec b 0); [lia|]. rewrite Z.quot_div_nonneg by lia.
  assert (0 ≤ a / b ≤ a).
  { split; [by apply Z.div_pos; lia|]. apply Z.div_le_upper_bound; nia. }
  rewrite (proj2 (in_i128_spec _)); [done|]. unfold i128_min, i128_max in *. lia.
Qed.

Lemma add_i128_Ok a b r : add_i128 a b = Ok r → r = a + b ∧ i128_min ≤ r ≤ i128_max.
Proof. intros Hr%unwrap_Ok. apply checked_i128_Some in Hr as [-> ?]. done. Qed.
Lemma sub_i128_Ok a b r : sub_i128 a b = Ok r → r = a - b ∧ i128_min ≤ r ≤ i128_max.
Proof. intros Hr%unwrap_Ok. apply checked_i128_Some in Hr as [-> ?]. done. Qed.
Lemma mul_i128_Ok a b r : mul_i128 a b = Ok r → r = a * b ∧ i128_min ≤ r ≤ i128_max.
Proof. intros Hr%unwrap_Ok. apply checked_i128_Some in Hr as [-> ?]. done. Qed.
Lemma div_i128_Ok a b r : 0 ≤ a → 0 < b → div_i128 a b = Ok r → r = a / b.
Proof.
  intros Ha Hb Hr%unwrap_Ok. apply checked_div_Some in Hr as [-> _].
  by rewrite Z.quot_div_nonneg by lia.
Qed.

(** ** Dutch auctions *)

(** A configuration that passed validation, at its machine widths, with a
    spread that 64 bits of seconds cannot overflow. *)
Record dutch_ok (cfg : DutchAuctionConfig) : Prop := {
  do_reserve : 0 < da_reserve_price cfg;
  do_prices : da_reserve_price cfg < da_start_price cfg;
  do_times : 0 ≤ da_start_time cfg < da_end_time cfg;
  do_width : da_end_time cfg ≤ u64_max;
  do_fits : da_start_price cfg * 2 ^ 64 ≤ i128_max
}.

(** The reference price: the fraction of the spread still to go. *)
Definition dutch_fraction (cfg : DutchAuctionConfig) (now : Z) : Z :=
  let remaining := da_end_time cfg - now in
  let total := da_end_time cfg - da_start_time cfg in
  let f := remaining * 1000000 / total in
  2 * f - f * f / 1000000.

Definition dutch_price (cfg : DutchAuctionConfig) (now : Z) : Z :=
  let spread := da_start_price cfg - da_reserve_price cfg in
  if da_end_time cfg <=? now then da_reserve_price cfg
  else if now <=? da_start_time cfg then da_start_price cfg
  else if da_exponential cfg
  then da_reserve_price cfg + spread * dutch_fraction cfg now / 1000000
  else da_start_price cfg
       - (now - da_start_time cfg) * spread / (da_end_time cfg - da_start_time cfg).

(** [2 f - f^2] on the integers up to a scale [k] rises and stays within it. *)
Lemma concave_mono k f g : 0 < k → 0 ≤ f ≤ g → g ≤ k → 2 * f - f * f / k ≤ 2 * g - g * g / k.
Proof.
  intros Hk Hfg Hg. assert (g * g / k - f * f / k ≤ 2 * (g - f)); [|lia].
  assert (g * g / k ≤ f * f / k + 2 * (g - f)); [|lia].
  rewrite <- Z.div_add by lia. apply Z.div_le_mono; [lia|]. nia.
Qed.

Lemma concave_range k f : 0 < k → 0 ≤ f ≤ k → 0 ≤ 2 * f - f * f / k ≤ k.
Proof.
  intros Hk Hf. pose proof (concave_mono k 0 f Hk ltac:(lia) ltac:(lia)) as H0.
  pose proof (concave_mono k f k Hk ltac:(lia) ltac:(lia)) as H1.
  rewrite Z.div_mul in H1 by lia. rewrite Z.div_0_l in H0 by lia. lia.
Qed.

Section Dutch.
Context (cfg : DutchAuctionConfig) (Hcfg : dutch_ok cfg).

Lemma fraction_range now :
  da_start_time cfg ≤ now ≤ da_end_time cfg → 0 ≤ dutch_fraction cfg now ≤ 1000000.
Proof.
  intros Hn. destruct Hcfg. apply concave_range; [lia|].
  rewrite Z.mul_comm. apply share_bounds; lia.
Qed.

Lemma fraction_mono now now' :
  da_start_time cfg ≤ now ≤ now' → now' ≤ da_end_time cfg →
  dutch_fraction cfg now' ≤ dutch_fraction cfg now.
Proof.
  intros Hn Hn'. destruct Hcfg. apply concave_mono; [lia| |].
  - split; [apply Z.div_pos; lia|]. apply Z.div_le_mono; lia.
  - rewrite Z.mul_comm. apply share_bounds; lia.
Qed.

(** The code computes the reference price and never traps. *)
Lemma current_dutch_price_spec now : current_dutch_price cfg now = Ok (dutch_price cfg now).
Proof.
  unfold current_dutch_price, dutch_price. destruct Hcfg. unfold i128_max, u64_max in *.
  destruct (da_exponential cfg);
    [unfold current_dutch_price_exponential|unfold current_dutch_price_linear];
    (destruct (Z.leb_spec (da_end_time cfg) now); [done|]);
    (destruct (Z.leb_spec now (da_start_time cfg)); [done|]).
  - pose proof (fraction_range now ltac:(lia)) as Hf. unfold dutch_fraction in *.
    set (f := (da_end_time cfg - now) * 1000000 / _) in *.
    assert (0 ≤ f ≤ 1000000) by (subst f; rewrite Z.mul_comm; apply share_bounds; lia).
    assert (0 ≤ f * f / 1000000) by (apply Z.div_pos; nia).
    rewrite sub_i128_fits by (unfold i128_min, i128_max; lia). cbn [rbind].
    rewrite mul_i128_fits by (unfold i128_min, i128_max; lia). cbn [rbind].
    rewrite div_i128_fits by (unfold i128_max; lia). cbn [rbind].
    replace (da_end_time cfg - da_start_time cfg - (now - da_start_time cfg))
      with (da_end_time cfg - now) by lia. fold f.
    rewrite mul_i128_fits by (unfold i128_min, i128_max; nia). cbn [rbind].
    rewrite div_i128_fits by (unfold i128_max; nia). cbn [rbind].
    rewrite mul_i128_fits by (unfold i128_min, i128_max; lia). cbn [rbind].
    rewrite sub_i128_fits by (unfold i128_min, i128_max; lia). cbn [rbind].
    rewrite sub_i128_fits by (unfold i128_min, i128_max; lia). cbn [rbind].
    set (fac := 2 * f - f * f / 1000000) in *.
    assert (0 ≤ (da_start_price cfg - da_reserve_price cfg) * fac
            ≤ (da_start_price cfg - da_reserve_price cfg) * 1000000) by nia.
    rewrite mul_i128_fits by (unfold i128_min, i128_max; lia). cbn [rbind].
    rewrite div_i128_fits by (unfold i128_max; lia). cbn [rbind].
    pose proof (share_bounds (da_start_price cfg - da_reserve_price cfg) fac 1000000
                  ltac:(lia) ltac:(lia) ltac:(lia)).
    rewrite add_i128_fits by (unfold i128_min, i128_max; lia). done.
  - set (spread := da_start_price cfg - da_reserve_price cfg).
    assert (0 ≤ (now - da_start_time cfg) * spread ≤ 2 ^ 64 * spread) by (subst spread; nia).
    rewrite sub_i128_fits by (unfold i128_min, i128_max; lia). cbn [rbind]. fold spread.
    rewrite mul_i128_fits by (subst spread; unfold i128_min, i128_max; lia). cbn [rbind].
    rewrite div_i128_fits by (subst spread; unfold i128_max; lia). cbn [rbind].
    pose proof (share_bounds spread (now - da_start_time cfg)
                  (da_end_time cfg - da_start_time cfg) ltac:(subst spread; lia) ltac:(lia)
                  ltac:(lia)) as Hs.
    rewrite Z.mul_comm in Hs.
    rewrite sub_i128_fits by (subst spread; unfold i128_min, i128_max; lia). done.
Qed.

Lemma dutch_price_range now : da_reserve_price cfg ≤ dutch_price cfg now ≤ da_start_price cfg.
Proof.
  unfold dutch_price. destruct Hcfg.
  destruct (Z.leb_spec (da_end_time cfg) now); [lia|].
  destruct (Z.leb_spec now (da_start_time cfg)); [lia|]. destruct (da_exponential cfg).
  - pose proof (fraction_range now ltac:(lia)).
    pose proof (share_bounds (da_start_price cfg - da_reserve_price cfg) (dutch_fraction cfg now)
                  1000000 ltac:(lia) ltac:(lia) ltac:(lia)). lia.
  - pose proof (share_bounds (da_start_price cfg - da_reserve_price cfg)
                  (now - da_start_time cfg) (da_end_time cfg - da_start_time cfg)
                  ltac:(lia) ltac:(lia) ltac:(lia)) as Hs. rewrite Z.mul_comm in Hs. lia.
Qed.

Lemma dutch_price_falls now now' : now ≤ now' → dutch_price cfg now' ≤ dutch_price cfg now.
Proof.
  intros Hn. pose proof (dutch_price_range now) as Hr. pose proof (dutch_price_range now') as Hr'.
  unfold dutch_price in *. destruct Hcfg.
  destruct (Z.leb_spec (da_end_time cfg) now');
    destruct (Z.leb_spec (da_end_time cfg) now); try lia.
  destruct (Z.leb_spec now' (da_start_time cfg));
    destruct (Z.leb_spec now (da_start_time cfg)); try lia.
  destruct (da_exponential cfg).
  - pose proof (fraction_mono now now' ltac:(lia) ltac:(lia)).
    apply Z.add_le_mono_l, Z.div_le_mono; [lia|]. nia.
  - apply Z.sub_le_mono_l, Z.div_le_mono; [lia|]. nia.
Qed.
End Dutch.

(** Validation establishes the assumptions of the price functions. *)
Lemma validate_dutch_ok env cfg :
  validate_dutch_auction_config env cfg = Ok tt →
  0 ≤ da_start_time cfg → da_end_time cfg ≤ u64_max →
  da_start_price cfg * 2 ^ 64 ≤ i128_max → dutch_ok cfg.
Proof.
  unfold validate_dutch_auction_config. intros Hv ???. run Hv. split; lia.
Qed.

(** Dutch auction prices: for a configuration that passed validation, with
    times of 64 bits and a start price below 2^63, both decay functions are
    total; the price is the start price up to the opening, the reserve price
    from the end on, always between the two, and never rises. *)
Theorem dutch_price_correct env cfg now now' :
  validate_dutch_auction_config env cfg = Ok tt →
  0 ≤ da_start_time cfg → da_end_time cfg ≤ u64_max →
  da_start_price cfg * 2 ^ 64 ≤ i128_max → now ≤ now' →
  ∃ p p', current_dutch_price cfg now = Ok p ∧ current_dutch_price cfg now' = Ok p'
    ∧ da_reserve_price cfg ≤ p' ≤ p ∧ p ≤ da_start_price cfg
    ∧ (now ≤ da_start_time cfg → p = da_start_price cfg)
    ∧ (da_end_time cfg ≤ now' → p' = da_reserve_price cfg).
Proof.
  intros Hv H0 H1 H2 Hn. pose proof (validate_dutch_ok env cfg Hv H0 H1 H2) as Hc.
  exists (dutch_price cfg now), (dutch_price cfg now').
  pose proof (dutch_price_falls cfg Hc now now' Hn).
  pose proof (dutch_price_range cfg Hc now). pose proof (dutch_price_range cfg Hc now').
  split_and!; [by apply current_dutch_price_spec..|lia|lia|lia| |].
  - intros Hs. unfold dutch_price. destruct Hc. rewrite (proj2 (Z.leb_gt _ _)) by lia.
    by rewrite (proj2 (Z.leb_le _ _)) by lia.
  - intros He. unfold dutch_price. by rewrite (proj2 (Z.leb_le _ _)) by lia.
Qed.

(** Commit and reveal: a buyer who committed to the hash of a secret and
    of the price quoted can reveal within five minutes, as long as the auction
    and the commitment are still stored; the price approved is the current
    one, which is at most the price committed to, whatever the slippage, and
    the commitment is gone. *)
Theorem commit_reveal `{HostCrypto} env env' s s1 s2 e t buyer secret bps cfg p :
  dutch_ok cfg → 0 ≤ bps →
  commit_purchase env s e t buyer (build_commit_hash secret buyer p) bps = Ok (p, s1) →
  DutchAuction s !! (e, t) = Some cfg → DutchAuction s2 !! (e, t) = Some cfg →
  PendingCommits s2 !! (e, t, buyer) = PendingCommits s1 !! (e, t, buyer) →
  authorized env' buyer = true → timestamp env ≤ timestamp env' ≤ timestamp env + 300 →
  ∃ q s3, reveal_purchase env' s2 e t buyer secret p = Ok (q, s3)
    ∧ current_dutch_price cfg (timestamp env') = Ok q ∧ q ≤ p
    ∧ PendingCommits s3 !! (e, t, buyer) = None
    ∧ ∀ env'' secret' p', is_ok (reveal_purchase env'' s3 e t buyer secret' p') = false.
Proof.
  intros Hc Hbps Hcommit Hcfg Hcfg2 Hsame Hauth Htime.
  unfold commit_purchase, get_dutch_auction in Hcommit. rewrite Hcfg in Hcommit.
  cbn [ok_or rbind] in Hcommit. rewrite current_dutch_price_spec in Hcommit by done.
  run Hcommit. cbn in Hsame. rewrite lookup_insert_eq in Hsame.
  pose proof (dutch_price_range cfg Hc (timestamp env)) as Hrange.
  pose proof (dutch_price_falls cfg Hc _ _ (proj1 Htime)) as Hfalls.
  set (p := dutch_price cfg (timestamp env)) in *.
  exists (dutch_price cfg (timestamp env')). eexists. split; [|split_and!]; [|by apply current_dutch_price_spec|done|..].
  - unfold reveal_purchase, take_pending_commit, require_auth. rewrite Hauth. cbn [rbind].
    rewrite Hsame. cbn [ok_or rbind pc_expires_at pc_hash pc_committed_price pc_max_slippage_bps].
    checked. unfold COMMIT_EXPIRY_SECS. rewrite (proj2 (Z.ltb_ge _ _)) by lia. cbn [fail_if rbind].
    rewrite bool_decide_true by done. rewrite Z.eqb_refl. cbn [negb fail_if rbind].
    unfold get_dutch_auction. cbn [DutchAuction upd]. rewrite Hcfg2. cbn [ok_or rbind].
    rewrite current_dutch_price_spec by done. cbn [rbind].
    destruct Hc. unfold i128_max, u64_max, MAX_BPS in *.
    assert (0 ≤ p * bps ≤ p * 10000) by nia.
    assert (0 ≤ p * bps / 10000) by (apply Z.div_pos; lia).
    assert (p * bps / 10000 ≤ p) by (apply Z.div_le_upper_bound; lia).
    rewrite mul_i128_fits by (unfold i128_min, i128_max; lia). cbn [rbind].
    rewrite div_i128_fits by (unfold i128_max; lia). cbn [rbind].
    rewrite add_i128_fits by (unfold i128_min, i128_max; lia). cbn [rbind].
    rewrite (proj2 (Z.ltb_ge _ _)) by lia. cbn [fail_if rbind].
    by rewrite Z.min_l by lia.
  - cbn. apply lookup_delete_eq.
  - intros env'' secret' p'. unfold reveal_purchase, take_pending_commit.
    destruct (require_auth env'' buyer) as [[]| |]; [|done..]. cbn [rbind].
    cbn. by rewrite lookup_delete_eq.
Qed.

(** ** Bonding curves *)
Lemma foldl_const {A B} (f : A → A) (l : list B) a :
  foldl (λ x _, f x) a l = Nat.iter (length l) f a.
Proof.
  revert a; induction l as [|b l IH]; intros a; [done|].
  simpl. rewrite IH. apply Nat.iter_swap.
Qed.

Lemma integer_pow_iter base exp :
  0 ≤ exp → integer_pow base exp = Nat.iter (Z.to_nat exp) (λ r, sat_i128 (r * base)) 1.
Proof.
  intros He. unfold integer_pow. destruct (Z.eqb_spec exp 0) as [->|]; [done|].
  by rewrite (foldl_const (λ r, sat_i128 (r * base))), length_seqZ.
Qed.

(** The saturating power is the power, cut off at the largest value. *)
Lemma integer_pow_spec base exp :
  0 ≤ base → 0 ≤ exp → integer_pow base exp = Z.min i128_max (base ^ exp).
Proof.
  intros Hb He. rewrite integer_pow_iter by done.
  rewrite <- (Z2Nat.id exp) at 2 by done. clear He. induction (Z.to_nat exp) as [|n IH].
  - unfold i128_max. simpl. lia.
  - rewrite Nat.iter_succ, IH, Nat2Z.inj_succ, Z.pow_succ_r by lia.
    pose proof (Z.pow_nonneg base (Z.of_nat n) Hb) as Hpos.
    assert (Hsat : ∀ z, 0 ≤ z → sat_i128 z = Z.min i128_max z)
      by (intros z Hz; unfold sat_i128, i128_min, i128_max; lia).
    assert (Hmax : 0 < i128_max) by (unfold i128_max; lia).
    destruct (Z.le_gt_cases (base ^ Z.of_nat n) i128_max).
    + rewrite Z.min_r, Hsat, (Z.mul_comm base) by nia. done.
    + rewrite Z.min_l by lia. destruct (Z.eq_dec base 0) as [->|].
      * destruct n; [simpl in *; unfold i128_max in *; lia|]. rewrite Z.pow_0_l in * by lia. lia.
      * rewrite Hsat, !Z.min_l by nia. done.
Qed.

Lemma integer_pow_mono base base' exp :
  0 ≤ base ≤ base' → 0 ≤ exp → 0 ≤ integer_pow base exp ≤ integer_pow base' exp.
Proof.
  intros Hb He. rewrite !integer_pow_spec by lia.
  pose proof (Z.pow_le_mono_l base base' exp Hb). pose proof (Z.pow_nonneg base exp ltac:(lia)).
  unfold i128_max. lia.
Qed.

(** A configuration that passed validation. *)
Lemma validate_curve_Ok cfg :
  validate_bonding_curve_config cfg = Ok tt →
  0 < bc_a_scaled cfg ∧ bc_b_exponent cfg ≠ 0 ∧ bc_b_exponent cfg ≤ 4 ∧ 0 ≤ bc_c_base cfg.
Proof. unfold validate_bonding_curve_config, MAX_EXPONENT. intros Hv. run Hv. lia. Qed.

Lemma bonding_price_Ok cfg n p :
  0 < bc_a_scaled cfg → 0 < bc_b_exponent cfg → 0 ≤ n →
  bonding_curve_price cfg n = Ok p →
  p = bc_a_scaled cfg * integer_pow n (bc_b_exponent cfg) / PARAM_SCALE + bc_c_base cfg.
Proof.
  intros Ha Hb Hn Hp. unfold bonding_curve_price in Hp. run Hp.
  apply mul_i128_Ok in E as [-> ?]. apply add_i128_Ok in Hp as [-> _].
  pose proof (integer_pow_mono 0 n (bc_b_exponent cfg) ltac:(lia) ltac:(lia)).
  apply div_i128_Ok in E0; [by subst|nia|unfold PARAM_SCALE; lia].
Qed.

(** Bonding curve prices: for a validated curve, if the price is defined
    at a supply it is defined at every smaller one, rises with the supply,
    equals the base price when nothing is left and is never below it. *)
Theorem bonding_curve_price_correct cfg n n' p' :
  validate_bonding_curve_config cfg = Ok tt → 0 ≤ bc_b_exponent cfg → 0 ≤ n ≤ n' →
  bonding_curve_price cfg n' = Ok p' →
  ∃ p, bonding_curve_price cfg n = Ok p ∧ bc_c_base cfg ≤ p ≤ p'
    ∧ (n = 0 → p = bc_c_base cfg).
Proof.
  intros (Ha & Hb0 & Hb4 & Hc)%validate_curve_Ok Hb Hn Hp'.
  assert (0 < bc_b_exponent cfg) by lia.
  pose proof (integer_pow_mono n n' (bc_b_exponent cfg) Hn ltac:(lia)) as Hpow.
  pose proof Hp' as Heq. apply bonding_price_Ok in Heq; [|lia..].
  unfold bonding_curve_price in Hp'. run Hp'. apply mul_i128_Ok in E as [-> Hmul].
  apply add_i128_Ok in Hp' as [_ Hadd].
  set (f := bc_a_scaled cfg * integer_pow n (bc_b_exponent cfg)) in *.
  set (f' := bc_a_scaled cfg * integer_pow n' (bc_b_exponent cfg)) in *.
  assert (0 ≤ f ≤ f') by (subst f f'; nia).
  assert (0 ≤ f / PARAM_SCALE ≤ f' / PARAM_SCALE).
  { unfold PARAM_SCALE. split; [apply Z.div_pos; lia|apply Z.div_le_mono; lia]. }
  exists (f / PARAM_SCALE + bc_c_base cfg). split_and!; [|lia|lia|].
  - unfold bonding_curve_price. rewrite mul_i128_fits by (fold f; unfold i128_min in *; lia).
    fold f. cbn [rbind]. rewrite div_i128_fits by (unfold PARAM_SCALE; lia). cbn [rbind].
    rewrite add_i128_fits by (unfold i128_min in *; lia). done.
  - intros ->. assert (f = 0) as ->; [|done]. subst f.
    rewrite integer_pow_spec, Z.pow_0_l by lia. unfold i128_max. simpl. lia.
Qed.

(** The integral is defined below a supply where it is, and rises. *)
Lemma integral_at_mono cfg b n n' v' :
  0 < bc_a_scaled cfg → 0 ≤ bc_c_base cfg → 0 < b → 0 ≤ n ≤ n' →
  integral_at cfg b n' = Ok v' → ∃ v, integral_at cfg b n = Ok v ∧ 0 ≤ v ≤ v'.
Proof.
  intros Ha Hc Hb Hn Hv'. unfold integral_at in *. run Hv'.
  pose proof (integer_pow_mono n n' b Hn ltac:(lia)) as Hpow.
  apply mul_i128_Ok in E as [-> Hmul]. apply mul_i128_Ok in E2 as [-> Hbase].
  apply div_i128_Ok in E0; [|nia|lia]. subst.
  assert (0 ≤ bc_a_scaled cfg * integer_pow n b ≤ bc_a_scaled cfg * integer_pow n' b) as Hf by nia.
  set (f := bc_a_scaled cfg * integer_pow n b) in *.
  set (f' := bc_a_scaled cfg * integer_pow n' b) in *.
  assert (0 ≤ f / b ≤ f' / b ∧ f' / b ≤ f').
  { split; [split; [apply Z.div_pos; lia|apply Z.div_le_mono; lia]|].
    apply Z.div_le_upper_bound; nia. }
  apply div_i128_Ok in E1; [|lia|unfold PARAM_SCALE; lia]. subst.
  assert (0 ≤ f / b / PARAM_SCALE ≤ f' / b / PARAM_SCALE).
  { unfold PARAM_SCALE. split; [apply Z.div_pos; lia|apply Z.div_le_mono; lia]. }
  apply add_i128_Ok in Hv' as [-> Hadd].
  assert (0 ≤ bc_c_base cfg * n ≤ bc_c_base cfg * n') by nia.
  exists (f / b / PARAM_SCALE + bc_c_base cfg * n). split; [|lia].
  rewrite mul_i128_fits by (fold f; unfold i128_min in *; lia). fold f. cbn [rbind].
  rewrite div_i128_fits by lia. cbn [rbind].
  rewrite div_i128_fits by (unfold PARAM_SCALE; lia). cbn [rbind].
  rewrite mul_i128_fits by (unfold i128_min in *; lia). cbn [rbind].
  apply add_i128_fits. unfold i128_min in *. lia.
Qed.

(** The cost of an order as a difference of the integral. *)
Lemma integral_cost_Ok cfg n q c :
  q ≠ 0 → bonding_curve_integral_cost cfg n q = Ok c ↔
  q ≤ n ∧ ∃ u v, bc_b_exponent cfg + 1 ≤ u32_max ∧ 0 ≤ bc_b_exponent cfg + 1
    ∧ integral_at cfg (bc_b_exponent cfg + 1) n = Ok u
    ∧ integral_at cfg (bc_b_exponent cfg + 1) (n - q) = Ok v
    ∧ c = u - v ∧ 0 ≤ c ∧ i128_min ≤ c ≤ i128_max.
Proof.
  intros Hq. unfold bonding_curve_integral_cost. rewrite (proj2 (Z.eqb_neq _ _)) by done. split.
  - intros Hc. run Hc. checked. apply sub_i128_Ok in E3 as [-> ?].
    split; [lia|]. eauto 10 with lia.
  - intros (Hle & u & v & Hb1 & Hb2 & Hu & Hv & -> & Hpos & Hfit).
    rewrite (proj2 (Z.ltb_ge _ _)) by lia. cbn [fail_if rbind].
    unfold checked_u32. rewrite (proj2 (in_u32_spec _)) by lia. cbn [unwrap rbind].
    rewrite Hu, Hv. cbn [rbind]. rewrite sub_i128_fits by lia. cbn [rbind].
    by rewrite (proj2 (Z.ltb_ge _ _)) by lia.
Qed.

(** Bulk orders cannot be split for profit: on a validated curve, if an
    order of [q1 + q2] tickets has a price, then buying [q1] and afterwards
    [q2] has one too, neither is negative, and together they cost exactly the
    same. *)
Theorem bonding_curve_split cfg n q1 q2 c :
  validate_bonding_curve_config cfg = Ok tt → 0 ≤ bc_b_exponent cfg →
  0 ≤ q1 → 0 ≤ q2 →
  bonding_curve_integral_cost cfg n (q1 + q2) = Ok c →
  ∃ c1 c2, bonding_curve_integral_cost cfg n q1 = Ok c1
    ∧ bonding_curve_integral_cost cfg (n - q1) q2 = Ok c2
    ∧ 0 ≤ c1 ∧ 0 ≤ c2 ∧ c = c1 + c2.
Proof.
  intros (Ha & Hb0 & Hb4 & Hc)%validate_curve_Ok Hb Hq1 Hq2 Hcost.
  assert (H0 : ∀ m, bonding_curve_integral_cost cfg m 0 = Ok 0) by done.
  destruct (Z.eq_dec q1 0) as [->|Hn1].
  { rewrite Z.add_0_l in Hcost. rewrite Z.sub_0_r. exists 0, c.
    destruct (Z.eq_dec q2 0) as [->|]; [rewrite H0 in Hcost; injection Hcost as <-; eauto|].
    apply integral_cost_Ok in Hcost as Hs; [|done]. destruct Hs as (_ & ? & ? & Hs).
    split_and!; [done|done|lia|naive_solver|lia]. }
  destruct (Z.eq_dec q2 0) as [->|Hn2].
  { rewrite Z.add_0_r in Hcost. exists c, 0.
    apply integral_cost_Ok in Hcost as Hs; [|done]. destruct Hs as (_ & ? & ? & Hs).
    split_and!; [done|done|naive_solver|lia|lia]. }
  apply integral_cost_Ok in Hcost as (Hle & u & v & ? & ? & Hu & Hv & -> & ? & ?); [|lia].
  destruct (integral_at_mono cfg (bc_b_exponent cfg + 1) (n - q1) n u) as (m & Hm & Hmu);
    [lia..|done|].
  destruct (integral_at_mono cfg (bc_b_exponent cfg + 1) (n - (q1 + q2)) (n - q1) m)
    as (v' & Hv' & Hvm); [lia..|done|].
  rewrite Hv in Hv'. injection Hv' as <-. unfold i128_min, i128_max in *.
  exists (u - m), (m - v). split_and!; [| |lia..].
  - apply integral_cost_Ok; [done|]. unfold i128_min, i128_max. eauto 12 with lia.
  - apply integral_cost_Ok; [done|]. rewrite <- Z.sub_add_distr.
    unfold i128_min, i128_max. eauto 12 with lia.
Qed.
