(* ===== verification/PaySystem.v ===== *)
(** * Ticket payment: the contract as a state machine

    [invoke] dispatches every state-changing entry point of
    [impl TicketPaymentContract]; [reachable] is the set of states that a
    history of successful invocations produces.  Between invocations the
    token ledgers and the other contracts may change in any way. *)

From S2P Require Import Prelude Machine Host PayTypes PayStorage.
From S2P Require Import PayPurchase PayRefund PayWithdraw PayTransfer PayGovernance.

(** The state-changing entry points with their arguments. *)
Inductive entry : Type :=
| Initialize (admin usdc_token platform_wallet event_registry : Address)
| SetPause (paused : bool)
| SetEventDispute (event_id : string) (disputed : bool)
| CreateDiscountCode (event_id code : string) (percentage expires_at max_uses : Z)
| Upgrade (old_wasm_hash new_wasm_hash : string)
| ProposeParameterChange (proposer : Address) (change : ParameterChange)
| VoteOnProposal (voter : Address) (proposal_id : Z)
| ExecuteProposal (executor : Address) (proposal_id : Z)
| SetOracle (oracle : Address)
| ProcessPayment (payment_id event_id tier_id : string) (buyer : Address)
    (recipient : option Address) (token : Address) (amount quantity : Z)
    (options : PurchaseOptions) (validation_hash : string)
| ConfirmPayment (payment_id transaction_hash : string)
| RequestGuestRefund (payment_id : string)
| RequestRefund (ticket_id : Z)
| AdminRefund (payment_id : string)
| ClaimAutomaticRefund (payment_id : string)
| ClaimCancellationRefund (payment_id : string)
| CheckIn (payment_id : string) (scanner : Address) (raw_secret : string)
| MintPoap (payment_id : string)
| WithdrawOrganizerFunds (event_id : string) (token : Address)
| SettlePlatformFees (event_id : string) (token : Address)
| WithdrawPlatformFees (amount : Z) (token : Address)
| SetWithdrawalCap (token : Address) (amount : Z)
| ClaimRevenue (event_id : string) (token : Address)
| ReleaseMilestoneEscrow (event_id : string) (token : Address)
| SetTransferFee (event_id : string) (bps : Z)
| SetAffiliateRate (event_id : string) (affiliate : Address) (rate_bps : Z)
| AddDiscountHashes (event_id : string) (hashes : list string)
| CancelEvent (event_id : string)
| TransferTicket (payment_id : string) (to : Address) (sale_price : option Z)
| ListForResale (payment_id : string) (ask_price : Z)
| CancelResaleListing (payment_id : string)
| PurchaseResaleTicket (payment_id : string) (buyer : Address) (max_price : Z)
| SetResaleRoyaltyBps (event_id : string) (bps : Z)
| TriggerBulkRefund (event_id : string) (batch_size : Z)
| IssuePartialRefund (event_id : string) (percentage_bps batch_size : Z)
| TriggerDisputeRefundCascade (event_id : string)
| PlaceBid (event_id tier_id : string) (bidder token : Address) (amount : Z)
| CloseAuction (payment_id event_id tier_id : string)
| ProposeEscrowWithdrawal (event_id : string) (amount : Z) (token : Address)
| ApproveEscrowWithdrawal (proposal_id : Z)
| ExecuteEscrowWithdrawal (proposal_id : Z).

Section System.
Context {W R : Type} `{TokenLedger W} `{EventRegistryInterface R}
  `{PriceOracleInterface} `{ProSubscriptionInterface} `{HostCrypto}.

(** The outcome of a call that leaves the registry, or the ledger too, alone. *)
Definition keep {A} (w : W) (r : R) (x : call A) : res TicketPaymentError (W * R * State) :=
  let! ' (_, s) := x in Ok (w, r, s).
Definition keep_registry {A} (r : R) (x : tcall W A) : res TicketPaymentError (W * R * State) :=
  let! ' (_, w, s) := x in Ok (w, r, s).
Definition drop_result {A} (x : res TicketPaymentError (A * W * R * State))
    : res TicketPaymentError (W * R * State) :=
  let! ' (_, w, r, s) := x in Ok (w, r, s).

Definition invoke (env : Env) (c : entry) (w : W) (r : R) (s : State)
    : res TicketPaymentError (W * R * State) :=
  match c with
  | Initialize a u p g => keep w r (Purchase.initialize env s a u p g)
  | SetPause b => keep w r (Purchase.set_pause env s b)
  | SetEventDispute i b => keep w r (Purchase.set_event_dispute env s i b)
  | CreateDiscountCode i c p x m => keep w r (Purchase.create_discount_code env s i c p x m)
  | Upgrade o n => keep w r (Purchase.upgrade env s o n)
  | ProposeParameterChange p c => keep w r (Gov.propose_parameter_change env s p c)
  | VoteOnProposal v i => keep w r (Gov.vote_on_proposal env s v i)
  | ExecuteProposal x i => keep w r (Gov.execute_proposal env s x i)
  | SetOracle a => keep w r (Purchase.set_oracle env s a)
  | ProcessPayment p i t b o k a q opts h =>
      drop_result (Purchase.process_payment env w r s p i t b o k a q opts h)
  | ConfirmPayment p h => keep w r (Purchase.confirm_payment env s p h)
  | RequestGuestRefund p => drop_result (Refund.request_guest_refund env w r s p)
  | RequestRefund n => drop_result (Refund.request_refund env w r s n)
  | AdminRefund p => drop_result (Refund.admin_refund env w r s p)
  | ClaimAutomaticRefund p => drop_result (Refund.claim_automatic_refund env w r s p)
  | ClaimCancellationRefund p => drop_result (Refund.claim_cancellation_refund env w r s p)
  | CheckIn p a x => keep w r (Tickets.check_in env r s p a x)
  | MintPoap p => keep w r (Tickets.mint_poap env s p)
  | WithdrawOrganizerFunds i k =>
      keep_registry r (Withdraw.withdraw_organizer_funds env w r s i k)
  | SettlePlatformFees i k => keep w r (Withdraw.settle_platform_fees env s i k)
  | WithdrawPlatformFees a k => keep_registry r (Withdraw.withdraw_platform_fees env w s a k)
  | SetWithdrawalCap k a => keep w r (Withdraw.set_withdrawal_cap env s k a)
  | ClaimRevenue i k => keep_registry r (Withdraw.claim_revenue env w r s i k)
  | ReleaseMilestoneEscrow i k => keep w r (Withdraw.release_escrow_milestone env r s i k)
  | SetTransferFee i b => keep w r (Purchase.set_transfer_fee env r s i b)
  | SetAffiliateRate i a b => keep w r (Purchase.set_affiliate_rate env r s i a b)
  | AddDiscountHashes i l => keep w r (Purchase.add_discount_hashes env r s i l)
  | CancelEvent i => keep w r (Purchase.cancel_event env r s i)
  | TransferTicket p a x => keep_registry r (Tickets.transfer_ticket env w r s p a x)
  | ListForResale p a => keep w r (Tickets.list_for_resale env r s p a)
  | CancelResaleListing p => keep w r (Tickets.cancel_resale_listing env s p)
  | PurchaseResaleTicket p b m =>
      keep_registry r (Tickets.purchase_resale_ticket env w r s p b m)
  | SetResaleRoyaltyBps i b => keep w r (Tickets.set_resale_royalty_bps env s i b)
  | TriggerBulkRefund i n => keep_registry r (Refund.trigger_bulk_refund env w r s i n)
  | IssuePartialRefund i p n => keep_registry r (Refund.issue_partial_refund env w r s i p n)
  | TriggerDisputeRefundCascade i =>
      keep_registry r (Refund.trigger_dispute_refund_cascade env w r s i)
  | PlaceBid i t b k a => keep_registry r (Tickets.place_bid env w r s i t b k a)
  | CloseAuction p i t =>
      let! ' (_, r, s) := Tickets.close_auction env r s p i t in Ok (w, r, s)
  | ProposeEscrowWithdrawal i a k => keep w r (Gov.propose_escrow_withdrawal env r s i a k)
  | ApproveEscrowWithdrawal n => keep w r (Gov.approve_escrow_withdrawal env s n)
  | ExecuteEscrowWithdrawal n => keep w r (Gov.execute_escrow_withdrawal env s n)
  end.

(** ** Reachable states *)
Context (allow : entry → bool).

Inductive reachable : W → R → State → Prop :=
| reach_deploy w r : reachable w r empty_state
| reach_invoke env c w r s w' r' s' :
    reachable w r s → allow c = true → invoke env c w r s = Ok (w', r', s') →
    reachable w' r' s'
| reach_others w r s w' r' : reachable w r s → reachable w' r' s.

(** Runs a history; every state it ends in is reachable. *)
Definition run_history (w : W) (r : R) (s : State) (h : list (Env * entry))
    : res TicketPaymentError (W * R * State) :=
  rfold (λ x ec, invoke ec.1 ec.2 x.1.1 x.1.2 x.2) h (w, r, s).

Lemma pay_history_reachable h w r s w' r' s' :
  reachable w r s → forallb (λ ec, allow ec.2) h = true →
  run_history w r s h = Ok (w', r', s') → reachable w' r' s'.
Proof.
  intros Hr Hok Hrun. unfold run_history in Hrun.
  apply (rfold_ind _ (λ x, reachable x.1.1 x.1.2 x.2)) in Hrun; [done|done|].
  intros [env c] [[w1 r1] s1] [[w2 r2] s2] Hin Hp Hi. cbn in *.
  rewrite forallb_forall in Hok. specialize (Hok (env, c)).
  eapply reach_invoke; [done| |done]. by apply Hok, list_elem_of_In.
Qed.

(** An invariant of the deployed state that every allowed invocation keeps. *)
Lemma reachable_invariant (I : State → Prop) :
  I empty_state →
  (∀ env c w r s w' r' s', allow c = true → I s → invoke env c w r s = Ok (w', r', s') → I s') →
  ∀ w r s, reachable w r s → I s.
Proof. intros Hinit Hstep w r s Hr. induction Hr; eauto. Qed.
End System.

Definition any_entry (c : entry) : bool := true.

(** ** What an invocation leaves alone

    [to_base f] replaces [f t], where the state [t] was built from the state
    [v] by writes that [f] does not look at, by [f v]. *)
Ltac to_base f :=
  repeat match goal with
  | |- context [f ?X] =>
      tryif is_var X then fail
      else match X with context [?v] => is_var v; progress change (f X) with (f v) end
  end.
Ltac to_base_in f H :=
  repeat match type of H with
  | context [f ?X] =>
      tryif is_var X then fail
      else match X with context [?v] => is_var v; progress change (f X) with (f v) in H end
  end.

(** Opens [H : invoke ... = Ok ...]: the dispatcher, then the handler. *)
Ltac open_call H :=
  cbn [invoke] in H; unfold keep, keep_registry, drop_result in H;
  let x := fresh "x" in let E := fresh "Hc" in
  apply rbind_Ok in H as (x & E & H);
  repeat match goal with p : _ * _ |- _ => destruct p end;
  injection H as; subst; rename E into H; units.

Ltac open_handler H :=
  unfold Purchase.initialize, Purchase.set_pause, Purchase.set_event_dispute,
    Purchase.create_discount_code, Purchase.set_oracle, Purchase.process_payment,
    Purchase.set_transfer_fee, Purchase.set_affiliate_rate, Purchase.cancel_event,
    Gov.propose_parameter_change, Gov.vote_on_proposal, Gov.execute_proposal,
    Gov.propose_escrow_withdrawal, Gov.approve_escrow_withdrawal,
    Gov.execute_escrow_withdrawal, storage.increment_proposal_count,
    Refund.request_guest_refund, Refund.request_refund, Refund.admin_refund,
    Refund.claim_automatic_refund, Refund.internal_refund, Refund.claim_cancellation_refund,
    Refund.release, Refund.trigger_bulk_refund, Refund.issue_partial_refund,
    Refund.trigger_dispute_refund_cascade,
    Tickets.check_in, Tickets.mint_poap, Tickets.transfer_ticket, Tickets.list_for_resale,
    Tickets.cancel_resale_listing, Tickets.purchase_resale_ticket,
    Tickets.set_resale_royalty_bps, resale.set_resale_royalty_bps, Tickets.place_bid,
    Tickets.close_auction,
    Withdraw.withdraw_organizer_funds, Withdraw.settle_platform_fees,
    Withdraw.withdraw_platform_fees, Withdraw.set_withdrawal_cap, Withdraw.claim_revenue,
    Withdraw.release_escrow_milestone in H.
