(* ===== verification/PayFrames.v ===== *)
(** * Ticket payment: frames

    The writes to payment records and their indexes are one block of the
    storage; [payments_frame] says that nothing else changed.  Every view of
    the storage that does not look at the block is then unchanged too. *)

From S2P Require Import Prelude Machine Host PayTypes PayStorage.
From S2P Require Import PayPurchase PayRefund PayWithdraw PayTransfer PayGovernance PaySystem.

(** The storage without payment records, their indexes, the ticket secrets,
    the attendance tokens and the published events. *)
Definition erase_payments (s : State) : State :=
  MkState ∅ ∅ ∅ ∅ ∅ ∅ ∅ (Admin s) (UsdcToken s) (PlatformWallet s) (EventRegistry s)
  (ProSubscriptionContract s) (Initialized s) (TokenWhitelist s) (Balances s)
  (TransferFee s) (BulkRefundIndex s) (PriceSwitched s) (TotalVolumeProcessed s)
  (TotalFeesCollected s) (ActiveEscrowTotal s) (ActiveEscrowByToken s)
  (DiscountCodeHash s) (DiscountHashUsed s) (DiscountCode s) (WithdrawalCap s)
  (DailyWithdrawalAmount s) (IsPaused s) (EventCancelledForRefund s)
  (PartialRefundIndex s) (PartialRefundPercentage s) (OracleAddress s) (SlippageBps s)
  (HighestBids s) (AuctionClosed s) (Governor s) (TotalGovernors s) (Proposals s)
  (ProposalCount s) ∅ ∅ ∅ (AffiliateRate s) ∅ ∅ ∅ (ResaleListings s)
  (ResaleRoyaltyBps s) (EscrowStates s) (EscrowMilestones s) (DutchAuction s)
  (BondingCurve s) (PendingCommits s) [].

Definition payments_frame (s s' : State) : Prop := erase_payments s' = erase_payments s.
#[export] Instance payments_frame_equiv : Equivalence payments_frame.
Proof. split; unfold payments_frame; intros ?; [done|by intros ? ->|congruence]. Qed.

(** Closes a frame goal when the new state is written out. *)
Ltac framed := unfold payments_frame; repeat case_match; reflexivity.

Lemma event_index_frame s e p s' :
  storage.add_payment_to_event_index s e p = Ok s' → payments_frame s s'.
Proof. unfold storage.add_payment_to_event_index. intros Hs. run_split Hs; done. Qed.

Lemma buyer_index_frame s b p s' :
  storage.add_payment_to_buyer_index s b p = Ok s' → payments_frame s s'.
Proof. unfold storage.add_payment_to_buyer_index. intros Hs. run_split Hs; done. Qed.

Lemma remove_buyer_loop_frame s b p l : payments_frame s (storage.remove_loop s b p l).2.
Proof. revert s; induction l as [|i l IH]; intros s; simpl; [done|]. case_match; [done|apply IH]. Qed.

Lemma remove_buyer_frame s b p :
  payments_frame s (storage.remove_payment_from_buyer_index s b p).
Proof.
  unfold storage.remove_payment_from_buyer_index. case_match; [done|].
  pose proof (remove_buyer_loop_frame s b p (seqZ 0 (div_ceil (storage.get_buyer_payment_count s b)
    storage.SHARD_SIZE))) as Hf.
  destruct (storage.remove_loop _ _ _ _) as [[] s1]; exact Hf.
Qed.

Lemma add_status_frame s e st p :
  payments_frame s (storage.add_payment_to_status_index s e st p).
Proof. unfold storage.add_payment_to_status_index. framed. Qed.

Lemma status_index_frame s e o n p :
  payments_frame s (storage.update_payment_status_index s e o n p).
Proof.
  unfold storage.update_payment_status_index. etransitivity; [|apply add_status_frame].
  reflexivity.
Qed.

Lemma store_payment_frame s p s' : storage.store_payment s p = Ok s' → payments_frame s s'.
Proof.
  unfold storage.store_payment. intros Hs. run_split Hs; [done|].
  apply event_index_frame in E0. apply buyer_index_frame in E1.
  etransitivity; [|apply add_status_frame]. etransitivity; [|exact E1].
  etransitivity; [|exact E0]. reflexivity.
Qed.

Lemma mark_refunded_frame env s i p : payments_frame s (Refund.mark_refunded env s i p).
Proof.
  unfold Refund.mark_refunded. case_match; [done|].
  etransitivity; [|apply status_index_frame]. reflexivity.
Qed.

Lemma reassign_frame s i p a b s' : Tickets.reassign s i p a b = Ok s' → payments_frame s s'.
Proof.
  unfold Tickets.reassign. intros Hs%buyer_index_frame. etransitivity; [|exact Hs].
  etransitivity; [|apply remove_buyer_frame]. reflexivity.
Qed.

Lemma mark_poap_frame s i a s' : storage.mark_poap_minted s i a = Ok s' → payments_frame s s'.
Proof. unfold storage.mark_poap_minted. intros Hs. run Hs. reflexivity. Qed.

Lemma record_tickets_frame tpl i h q l s s' :
  rfold (Purchase.record_ticket tpl i h q) l s = Ok s' → payments_frame s s'.
Proof.
  apply rfold_ind; [done|]. intros k t t' _ Ht Hs. unfold Purchase.record_ticket in Hs. run Hs.
  apply store_payment_frame in E. etransitivity; [exact Ht|]. etransitivity; [exact E|].
  reflexivity.
Qed.

Lemma note_price_switch_frame env s e t tier :
  ∃ m l, Purchase.note_price_switch env s e t tier
         = s ⟨ PriceSwitched := m ⟩ ⟨ published := l ⟩.
Proof.
  unfold Purchase.note_price_switch. case_match; [by repeat eexists|].
  exists (PriceSwitched s), (published s). by destruct s.
Qed.

Lemma event_code_frame env s e t c t' s' :
  Purchase.apply_event_code env s e t c = Ok (t', s') → ∃ m, s' = s ⟨ DiscountCode := m ⟩.
Proof.
  unfold Purchase.apply_event_code. intros Hp. run_split Hp; simplify_eq; [by eexists|].
  exists (DiscountCode s'). by destruct s'.
Qed.

Lemma emit_frame s e : payments_frame s (emit s e).
Proof. reflexivity. Qed.

Lemma emit_all_frame {A} (g : A → AgoraEvent) l s :
  payments_frame s (foldl (λ s x, emit s (g x)) s l).
Proof.
  revert s; induction l as [|x l IH]; intros s; simpl; [done|].
  etransitivity; [|apply IH]. reflexivity.
Qed.

Lemma discount_hashes_frame l s :
  ∃ m, foldl storage.add_discount_hash s l = s ⟨ DiscountCodeHash := m ⟩.
Proof.
  assert (Hg : ∀ t m, t = s ⟨ DiscountCodeHash := m ⟩ →
    ∃ m', foldl storage.add_discount_hash t l = s ⟨ DiscountCodeHash := m' ⟩).
  { induction l as [|x l IH]; intros t m ->; simpl; [eauto|]. eapply IH. reflexivity. }
  apply (Hg s (DiscountCodeHash s)). by destruct s.
Qed.

Lemma upgrade_frame env s o n x s' :
  Purchase.upgrade env s o n = Ok (x, s') → payments_frame s s'.
Proof.
  unfold Purchase.upgrade. intros Hs. run Hs. etransitivity; [|apply emit_all_frame].
  reflexivity.
Qed.

Lemma confirm_payment_frame env s i h x s' :
  Purchase.confirm_payment env s i h = Ok (x, s') → payments_frame s s'.
Proof.
  unfold Purchase.confirm_payment. intros Hs. run Hs. etransitivity; [|apply emit_frame].
  repeat case_match; [done| |done]. etransitivity; [|apply status_index_frame]. reflexivity.
Qed.

Lemma add_discount_hashes_Ok {R} `{EventRegistryInterface R} env (r : R) s e l x s' :
  Purchase.add_discount_hashes env r s e l = Ok (x, s') →
  ∃ m, s' = s ⟨ DiscountCodeHash := m ⟩.
Proof.
  unfold Purchase.add_discount_hashes. intros Hs. run Hs. apply discount_hashes_frame.
Qed.

(** Adds, for a view [f] that ignores the payments block, the equation
    [f s' = f s] for every such write of the context. *)
Ltac view_eq f H :=
  let E := fresh "V" in
  lazymatch type of H with
  | payments_frame ?s ?s' => assert (E : f s' = f s) by exact (f_equal f H); clear H
  end.
Ltac frames f :=
  repeat match goal with
  | H : context [Refund.mark_refunded ?env ?s ?i ?p] |- _ =>
      let s1 := fresh "s" in let E := fresh "V" in
      assert (E : f (Refund.mark_refunded env s i p) = f s)
        by exact (f_equal f (mark_refunded_frame env s i p));
      generalize dependent (Refund.mark_refunded env s i p); intros s1
  | |- context [Refund.mark_refunded ?env ?s ?i ?p] =>
      let s1 := fresh "s" in let E := fresh "V" in
      assert (E : f (Refund.mark_refunded env s i p) = f s)
        by exact (f_equal f (mark_refunded_frame env s i p));
      generalize dependent (Refund.mark_refunded env s i p); intros s1
  end;
  repeat match goal with
  | H : storage.store_payment _ _ = Ok _ |- _ => apply store_payment_frame in H; view_eq f H
  | H : Purchase.upgrade _ _ _ _ = Ok _ |- _ => apply upgrade_frame in H; view_eq f H
  | H : Purchase.confirm_payment _ _ _ _ = Ok _ |- _ =>
      apply confirm_payment_frame in H; view_eq f H
  | H : Purchase.add_discount_hashes _ _ _ _ _ = Ok _ |- _ =>
      apply add_discount_hashes_Ok in H as (?&->)
  | H : storage.add_payment_to_buyer_index _ _ _ = Ok _ |- _ =>
      apply buyer_index_frame in H; view_eq f H
  | H : Tickets.reassign _ _ _ _ _ = Ok _ |- _ => apply reassign_frame in H; view_eq f H
  | H : storage.mark_poap_minted _ _ _ = Ok _ |- _ => apply mark_poap_frame in H; view_eq f H
  | H : rfold (Purchase.record_ticket _ _ _ _) _ _ = Ok _ |- _ =>
      apply record_tickets_frame in H; view_eq f H
  end.

(** Replaces the state after [note_price_switch] by the two fields it writes. *)
Ltac open_switch :=
  repeat match goal with
  | H : context [Purchase.note_price_switch ?env ?s ?e ?t ?x] |- _ =>
      let Hn := fresh in
      destruct (note_price_switch_frame env s e t x) as (?&?&Hn); rewrite Hn in *; clear Hn
  end.

(** ** Refunds and payouts

    [accounts_frame]: besides the payments block only the escrow accounts, the
    protocol totals and the refund cursors changed. *)
Definition erase_accounts (s : State) : State :=
  MkState ∅ ∅ ∅ ∅ ∅ ∅ ∅ (Admin s) (UsdcToken s) (PlatformWallet s) (EventRegistry s)
  (ProSubscriptionContract s) (Initialized s) (TokenWhitelist s) ∅ (TransferFee s) ∅ ∅
  None ∅ None ∅ (DiscountCodeHash s) (DiscountHashUsed s) (DiscountCode s)
  (WithdrawalCap s) ∅ (IsPaused s) (EventCancelledForRefund s) ∅ ∅ (OracleAddress s)
  (SlippageBps s) (HighestBids s) (AuctionClosed s) (Governor s) (TotalGovernors s)
  (Proposals s) (ProposalCount s) ∅ ∅ ∅ (AffiliateRate s) ∅ ∅ ∅ (ResaleListings s)
  (ResaleRoyaltyBps s) ∅ (EscrowMilestones s) (DutchAuction s) (BondingCurve s)
  (PendingCommits s) [].
Definition accounts_frame (s s' : State) : Prop := erase_accounts s' = erase_accounts s.

(** Opens the single-field writers of the accounts. *)
Ltac open_accounts :=
  unfold Purchase.book, Refund.release, storage.update_event_balance,
    storage.add_to_total_volume_processed, storage.add_to_total_fees_collected_by_token,
    storage.subtract_from_total_fees_collected_by_token, storage.add_to_daily_withdrawn_amount,
    storage.add_to_active_escrow_total, storage.subtract_from_active_escrow_total,
    storage.add_to_active_escrow_by_token, storage.subtract_from_active_escrow_by_token,
    Refund.settle_batch in *.

(** Closes [f s' = f s] for a view [f] of what [erase_accounts] keeps, once the
    call has been opened. *)
Ltac same f :=
  frames f; to_base f;
  repeat match goal with
  | H : context [f ?X] |- _ => (tryif is_var X then fail else (progress (to_base_in f H)))
  end; frames f; to_base f; congruence.

Section Money.
Context {W R : Type} `{TokenLedger W} `{EventRegistryInterface R} `{HostCrypto}.

Lemma bulk_loop_frame env ids l (b b' : @Refund.Batch W) :
  rfold (Refund.bulk_refund_step env ids) l b = Ok b' →
  accounts_frame (Refund.bt_store b) (Refund.bt_store b').
Proof.
  apply (rfold_constant (λ b, erase_accounts (Refund.bt_store b))).
  intros i [w s bal n tot] t' Hs. unfold Refund.bulk_refund_step in Hs. cbn in Hs.
  open_accounts. run_split Hs; [|done]. run_all. cbn [Refund.bt_store]. same erase_accounts.
Qed.

Lemma partial_loop_frame env ids pct l (b b' : @Refund.Batch W) :
  rfold (Refund.partial_refund_step env ids pct) l b = Ok b' →
  accounts_frame (Refund.bt_store b) (Refund.bt_store b').
Proof.
  apply (rfold_constant (λ b, erase_accounts (Refund.bt_store b))).
  intros i [w s bal n tot] t' Hs. unfold Refund.partial_refund_step in Hs. cbn in Hs.
  open_accounts. run_split Hs; [|done..]. run_all. cbn [Refund.bt_store]. same erase_accounts.
Qed.

Lemma cascade_loop_frame env e l (w w' : W) s s' n n' :
  rfold (Refund.cascade_step env e) l (w, s, n) = Ok (w', s', n') → accounts_frame s s'.
Proof.
  apply (rfold_constant (λ x : W * State * Z, erase_accounts x.1.2)).
  intros i [[w1 s1] n1] [[w2 s2] n2] Hs. cbn in *. unfold Refund.cascade_step in Hs.
  open_accounts. run_split Hs; simplify_eq; try done. run_all. same erase_accounts.
Qed.

Lemma settle_frame (b : @Refund.Batch W) e s' :
  Refund.settle_batch b e = Ok s' → accounts_frame (Refund.bt_store b) s'.
Proof.
  destruct b as [w s bal n tot]. unfold Refund.settle_batch.
  cbn [Refund.bt_store Refund.bt_count Refund.bt_balance Refund.bt_total].
  open_accounts. intros Hs. run_split Hs; reflexivity.
Qed.

Lemma bulk_refund_frame env (w : W) (r : R) s i n x w' s' :
  Refund.trigger_bulk_refund env w r s i n = Ok (x, w', s') → accounts_frame s s'.
Proof.
  unfold Refund.trigger_bulk_refund. intros Hc. run_split Hc; simplify_eq; [done|].
  match goal with H : rfold _ _ _ = Ok _ |- _ => apply bulk_loop_frame in H end.
  match goal with H : Refund.settle_batch _ _ = Ok _ |- _ => apply settle_frame in H end.
  unfold accounts_frame in *. to_base erase_accounts. cbn [Refund.bt_store] in *. congruence.
Qed.

Lemma partial_refund_frame env (w : W) (r : R) s i p n x w' s' :
  Refund.issue_partial_refund env w r s i p n = Ok (x, w', s') → accounts_frame s s'.
Proof.
  unfold Refund.issue_partial_refund. intros Hc. run_split Hc; simplify_eq.
  { unfold accounts_frame. by case_match. }
  match goal with H : rfold _ _ _ = Ok _ |- _ => apply partial_loop_frame in H end.
  match goal with H : Refund.settle_batch _ _ = Ok _ |- _ => apply settle_frame in H end.
  unfold accounts_frame in *. cbn [Refund.bt_store] in *.
  repeat case_match; same erase_accounts.
Qed.

Lemma cascade_frame env (w : W) (r : R) s i x w' s' :
  Refund.trigger_dispute_refund_cascade env w r s i = Ok (x, w', s') → accounts_frame s s'.
Proof.
  unfold Refund.trigger_dispute_refund_cascade. intros Hc. run_all; simplify_eq.
  by match goal with H : rfold _ _ _ = Ok _ |- _ => apply cascade_loop_frame in H end.
Qed.
End Money.

(** The batch refunds as equations on a view [f]. *)
Ltac batch_frames f :=
  repeat match goal with
  | H : Refund.trigger_bulk_refund _ _ _ _ _ _ = Ok (_, _, ?s') |- _ =>
      apply bulk_refund_frame, (f_equal f) in H
  | H : Refund.issue_partial_refund _ _ _ _ _ _ _ = Ok (_, _, ?s') |- _ =>
      apply partial_refund_frame, (f_equal f) in H
  | H : Refund.trigger_dispute_refund_cascade _ _ _ _ _ = Ok (_, _, ?s') |- _ =>
      apply cascade_frame, (f_equal f) in H
  end.
