(* ===== verification/PayEscrow.v ===== *)
(** * Ticket payment: the escrow accounts

    The contract keeps the active escrow twice, as one total and per token.
    Every entry point moves both by the same amounts. *)

From S2P Require Import Prelude Machine Host PayTypes PayStorage.
From S2P Require Import PayPurchase PayRefund PayWithdraw PayTransfer PayGovernance PaySystem.
From S2P Require Import PayFrames.

(** What the total exceeds the sum over the tokens by. *)
Definition escrow_gap (s : State) : Z :=
  storage.get_active_escrow_total s - map_sum id (ActiveEscrowByToken s).

Section Primitives.
Implicit Types (s : State) (t : Address).

Lemma add_total_gap s a s' :
  storage.add_to_active_escrow_total s a = Ok s' → escrow_gap s' = escrow_gap s + a.
Proof.
  unfold storage.add_to_active_escrow_total. intros Hs. run Hs. checked.
  unfold escrow_gap, storage.get_active_escrow_total. cbn. lia.
Qed.

Lemma sub_total_gap s a s' :
  storage.subtract_from_active_escrow_total s a = Ok s' → escrow_gap s' = escrow_gap s - a.
Proof.
  unfold storage.subtract_from_active_escrow_total. intros Hs. run Hs. checked.
  unfold escrow_gap, storage.get_active_escrow_total. cbn. lia.
Qed.

Lemma token_gap s t n :
  escrow_gap (s ⟨ ActiveEscrowByToken ::= <[t := n]> ⟩)
  = escrow_gap s + storage.get_active_escrow_by_token s t - n.
Proof.
  unfold escrow_gap, storage.get_active_escrow_total, storage.get_active_escrow_by_token. cbn.
  rewrite map_sum_insert. unfold id. destruct (ActiveEscrowByToken s !! t); cbn; lia.
Qed.

Lemma add_token_gap s t a s' :
  storage.add_to_active_escrow_by_token s t a = Ok s' → escrow_gap s' = escrow_gap s - a.
Proof.
  unfold storage.add_to_active_escrow_by_token. intros Hs. run Hs. checked.
  rewrite token_gap. lia.
Qed.

Lemma sub_token_gap s t a s' :
  storage.subtract_from_active_escrow_by_token s t a = Ok s' → escrow_gap s' = escrow_gap s + a.
Proof.
  unfold storage.subtract_from_active_escrow_by_token. intros Hs. run Hs. checked.
  rewrite token_gap. lia.
Qed.

Lemma balance_gap s e o p s' :
  storage.update_event_balance s e o p = Ok s' → escrow_gap s' = escrow_gap s.
Proof. unfold storage.update_event_balance. intros Hs. by run Hs. Qed.
Lemma volume_gap s a s' :
  storage.add_to_total_volume_processed s a = Ok s' → escrow_gap s' = escrow_gap s.
Proof. unfold storage.add_to_total_volume_processed. intros Hs. by run Hs. Qed.
Lemma add_fees_gap s t a s' :
  storage.add_to_total_fees_collected_by_token s t a = Ok s' → escrow_gap s' = escrow_gap s.
Proof. unfold storage.add_to_total_fees_collected_by_token. intros Hs. by run Hs. Qed.
Lemma sub_fees_gap s t a s' :
  storage.subtract_from_total_fees_collected_by_token s t a = Ok s' →
  escrow_gap s' = escrow_gap s.
Proof. unfold storage.subtract_from_total_fees_collected_by_token. intros Hs. by run Hs. Qed.
Lemma daily_gap s t d a s' :
  storage.add_to_daily_withdrawn_amount s t d a = Ok s' → escrow_gap s' = escrow_gap s.
Proof. unfold storage.add_to_daily_withdrawn_amount. intros Hs. by run Hs. Qed.
Lemma slippage_gap s b s' :
  storage.set_slippage_bps s b = Ok s' → escrow_gap s' = escrow_gap s.
Proof. unfold storage.set_slippage_bps. intros Hs. by run Hs. Qed.
End Primitives.

(** Turns every write of the context into an equation on the gap. *)
Ltac gaps :=
  repeat match goal with
  | H : storage.add_to_active_escrow_total _ _ = Ok _ |- _ => apply add_total_gap in H
  | H : storage.subtract_from_active_escrow_total _ _ = Ok _ |- _ => apply sub_total_gap in H
  | H : storage.add_to_active_escrow_by_token _ _ _ = Ok _ |- _ => apply add_token_gap in H
  | H : storage.subtract_from_active_escrow_by_token _ _ _ = Ok _ |- _ =>
      apply sub_token_gap in H
  | H : storage.update_event_balance _ _ _ _ = Ok _ |- _ => apply balance_gap in H
  | H : storage.add_to_total_volume_processed _ _ = Ok _ |- _ => apply volume_gap in H
  | H : storage.add_to_total_fees_collected_by_token _ _ _ = Ok _ |- _ => apply add_fees_gap in H
  | H : storage.subtract_from_total_fees_collected_by_token _ _ _ = Ok _ |- _ =>
      apply sub_fees_gap in H
  | H : storage.add_to_daily_withdrawn_amount _ _ _ _ = Ok _ |- _ => apply daily_gap in H
  | H : storage.set_slippage_bps _ _ = Ok _ |- _ => apply slippage_gap in H
  end;
  frames escrow_gap; to_base escrow_gap;
  repeat match goal with
  | H : context [escrow_gap ?X] |- _ => (tryif is_var X then fail else (progress (to_base_in escrow_gap H)))
  end;
  frames escrow_gap; to_base escrow_gap.

Section Loops.
Context {W R : Type} `{TokenLedger W} `{EventRegistryInterface R}.

(** Inside a batch the per-token amounts are ahead of the total. *)
Lemma bulk_loop_gap env ids l (b b' : @Refund.Batch W) :
  rfold (Refund.bulk_refund_step env ids) l b = Ok b' →
  escrow_gap (Refund.bt_store b') - Refund.bt_total b'
  = escrow_gap (Refund.bt_store b) - Refund.bt_total b.
Proof.
  apply (rfold_constant (λ b, escrow_gap (Refund.bt_store b) - Refund.bt_total b)).
  intros i t t' Hs.
  unfold Refund.bulk_refund_step in Hs. run_split Hs; [|done]. checked. gaps. cbn. lia.
Qed.

Lemma partial_loop_gap env ids pct l (b b' : @Refund.Batch W) :
  rfold (Refund.partial_refund_step env ids pct) l b = Ok b' →
  escrow_gap (Refund.bt_store b') - Refund.bt_total b'
  = escrow_gap (Refund.bt_store b) - Refund.bt_total b.
Proof.
  apply (rfold_constant (λ b, escrow_gap (Refund.bt_store b) - Refund.bt_total b)).
  intros i t t' Hs.
  unfold Refund.partial_refund_step in Hs. run_split Hs; [|done..]. checked. gaps. cbn. lia.
Qed.

Lemma settle_gap (b : @Refund.Batch W) e s' :
  Refund.settle_batch b e = Ok s' →
  (Refund.bt_count b = 0 → Refund.bt_total b = 0) → 0 ≤ Refund.bt_count b →
  escrow_gap s' = escrow_gap (Refund.bt_store b) - Refund.bt_total b.
Proof.
  destruct b as [w s bal n tot]. unfold Refund.settle_batch. cbn. intros Hs Hnone Hpos.
  run_split Hs; gaps; lia.
Qed.

(** Nothing was refunded when no refund was counted. *)
Definition batch_counted (b : @Refund.Batch W) : Prop :=
  0 ≤ Refund.bt_count b ∧ (Refund.bt_count b = 0 → Refund.bt_total b = 0).

Lemma bulk_loop_counted env ids l (b b' : @Refund.Batch W) :
  batch_counted b → rfold (Refund.bulk_refund_step env ids) l b = Ok b' → batch_counted b'.
Proof.
  intros Hb Hl. apply (rfold_ind _ batch_counted) in Hl; [done|done|].
  intros i t t' _ [? ?] Hs. unfold Refund.bulk_refund_step in Hs.
  run_split Hs; [|done]. checked. split; cbn; lia.
Qed.

Lemma partial_loop_counted env ids pct l (b b' : @Refund.Batch W) :
  batch_counted b → rfold (Refund.partial_refund_step env ids pct) l b = Ok b' →
  batch_counted b'.
Proof.
  intros Hb Hl. apply (rfold_ind _ batch_counted) in Hl; [done|done|].
  intros i t t' _ [? ?] Hs. unfold Refund.partial_refund_step in Hs.
  run_split Hs; [|done..]. checked. split; cbn; lia.
Qed.

Lemma cascade_gap env e l (w w' : W) s s' n n' :
  rfold (Refund.cascade_step env e) l (w, s, n) = Ok (w', s', n') →
  escrow_gap s' = escrow_gap s.
Proof.
  apply (rfold_constant (λ x : W * State * Z, escrow_gap x.1.2)).
  intros i [[w1 s1] n1] [[w2 s2] n2] Hs. cbn in *. unfold Refund.cascade_step in Hs.
  run_split Hs; simplify_eq; try done. gaps. lia.
Qed.
End Loops.

(** The batch loops and their settlement as equations on the gap. *)
Ltac batch_gaps :=
  repeat match goal with
  | H : rfold (Refund.bulk_refund_step _ _) _ _ = Ok ?b |- _ =>
      assert (batch_counted b) as [? ?] by (eapply bulk_loop_counted; [|exact H]; done);
      apply bulk_loop_gap in H
  | H : rfold (Refund.partial_refund_step _ _ _) _ _ = Ok ?b |- _ =>
      assert (batch_counted b) as [? ?] by (eapply partial_loop_counted; [|exact H]; done);
      apply partial_loop_gap in H
  | H : Refund.settle_batch _ _ = Ok _ |- _ => apply settle_gap in H; [|assumption..]
  | H : rfold (Refund.cascade_step _ _) _ _ = Ok _ |- _ => apply cascade_gap in H
  end.

Section Invariant.
Context {W R : Type} `{TokenLedger W} `{EventRegistryInterface R}
  `{PriceOracleInterface} `{ProSubscriptionInterface} `{HostCrypto}.

Lemma bulk_refund_gap env (w : W) (r : R) s i n x w' s' :
  Refund.trigger_bulk_refund env w r s i n = Ok (x, w', s') → escrow_gap s' = escrow_gap s.
Proof.
  unfold Refund.trigger_bulk_refund. intros Hc. run_split Hc; [congruence|].
  batch_gaps. gaps. simplify_eq/=. gaps. lia.
Qed.

Lemma partial_refund_gap env (w : W) (r : R) s i p n x w' s' :
  Refund.issue_partial_refund env w r s i p n = Ok (x, w', s') → escrow_gap s' = escrow_gap s.
Proof.
  unfold Refund.issue_partial_refund. intros Hc. run_split Hc.
  - simplify_eq. by case_match.
  - batch_gaps. simplify_eq/=. repeat case_match; gaps; lia.
Qed.

Lemma process_payment_gap env (w : W) (r : R) s p i t b o k a q opts h x w' r' s' :
  Purchase.process_payment env w r s p i t b o k a q opts h = Ok (x, w', r', s') →
  escrow_gap s' = escrow_gap s.
Proof.
  unfold Purchase.process_payment, Purchase.book, Purchase.apply_event_code. intros Hc.
  run_all. simplify_eq.
  all: open_switch; repeat case_match; gaps; lia.
Qed.

(** No entry point changes the difference between the two accounts. *)
Lemma invoke_gap env c (w : W) (r : R) s w' r' s' :
  invoke env c w r s = Ok (w', r', s') → escrow_gap s' = escrow_gap s.
Proof.
  intros Hi. destruct c; open_call Hi.
  all: try (by eapply process_payment_gap); try (by eapply bulk_refund_gap);
    try (by eapply partial_refund_gap).
  all: open_handler Hi.
  all: try (run_all; batch_gaps; repeat case_match; simplify_eq; gaps; lia).
  run Hi. unfold Gov.apply_change in *. case_match; run_all; gaps; lia.
Qed.

(** The two escrow accounts agree: in every reachable state, whatever the
    history and whatever the other contracts do, the protocol-wide active
    escrow is the sum of the active escrow of all tokens. *)
Theorem reachable_escrow_agree allow (w : W) (r : R) s :
  reachable allow w r s →
  storage.get_active_escrow_total s = map_sum id (ActiveEscrowByToken s).
Proof.
  intros Hr. assert (escrow_gap s = 0); [|unfold escrow_gap in *; lia].
  revert w r s Hr. apply reachable_invariant; [reflexivity|].
  intros env c w r s w' r' s' _ Hs Hi. by rewrite (invoke_gap _ _ _ _ _ _ _ _ Hi).
Qed.
End Invariant.
