(* ===== verification/PaySpecs.v ===== *)
(** * Ticket payment: what the money operations do

    The division of a sale, the solvency of a sale, auction bids, payouts of
    organizers and of the platform, and resales, against the laws of the
    token interface. *)

From S2P Require Import Prelude Machine Host PayTypes PayStorage.
From S2P Require Import PayPurchase PayRefund PayWithdraw PayTransfer PayGovernance PaySystem.
From S2P Require Import PayFrames.

(** ** The division of a sale *)
Lemma mul_div_total x num den :
  0 ≤ x → 0 ≤ num ≤ den → 0 < den → x * den ≤ i128_max →
  mul_div x num den = Some (x * num / den).
Proof.
  intros Hx Hn Hd Hm. unfold mul_div, checked_div, i128_max in *.
  assert (0 ≤ x * num ≤ x * den) by nia.
  pose proof (share_bounds x num den Hx Hn Hd).
  rewrite (proj2 (checked_i128_Some (x * num) (x * num)))
    by (unfold i128_min, i128_max; lia).
  rewrite (proj2 (Z.eqb_neq den 0)) by lia. rewrite Z.quot_div_nonneg by lia.
  apply checked_i128_Some. unfold i128_min, i128_max. nia.
Qed.

Lemma checked_i128_id x : i128_min ≤ x ≤ i128_max → checked_i128 x = Some x.
Proof. intros. by apply checked_i128_Some. Qed.

(** C9. The division of a sale: for every amount whose product with 10,000
    fits 128 bits and all rates up to 100% it succeeds; the platform fee is
    the rate of the amount, less the waived loyalty part and the referrer's
    reward; no part is negative; and what the buyer pays is the platform's
    share plus the organizer's share plus the referrer's reward, plus the
    reward once more, since it is taken off the fee and off the organizer. *)
Theorem split_payment_correct e f l rate :
  0 ≤ e → e * MAX_BPS ≤ i128_max → 0 ≤ f ≤ MAX_BPS → 0 ≤ l ≤ MAX_BPS →
  0 ≤ default 0 rate ≤ MAX_BPS →
  let fee := e * f / MAX_BPS in
  let waived := fee * l / MAX_BPS in
  let reward := (fee - waived) * default 0 rate / MAX_BPS in
  ∃ platform organizer referral,
    Purchase.split_payment e f l rate
      = Ok (Purchase.MkSplit (e - waived) platform organizer referral)
    ∧ platform = fee - waived - reward
    ∧ referral = Z.min reward (e - fee)
    ∧ organizer = e - fee - referral
    ∧ 0 ≤ platform ∧ 0 ≤ organizer ∧ 0 ≤ referral
    ∧ e - waived = platform + organizer + referral + reward.
Proof.
  intros He Hm Hf Hl Hr fee waived reward. unfold MAX_BPS in *.
  assert (Hfee : 0 ≤ fee ≤ e) by (apply share_bounds; lia).
  assert (Hw : 0 ≤ waived ≤ fee) by (apply share_bounds; lia).
  assert (Hrw : 0 ≤ reward ≤ fee - waived) by (apply share_bounds; lia).
  eexists _, _, _; split_and!; [|reflexivity..|lia|lia|lia|lia].
  unfold Purchase.split_payment, MAX_BPS.
  rewrite mul_div_total by lia. fold fee. cbn [ok_or rbind].
  assert (Hwaive : (if 0 <? l
    then let! d := ok_or (mul_div fee l 10000) ArithmeticError in Ok (Z.min d fee)
    else Ok 0) = @Ok TicketPaymentError Z waived).
  { destruct (Z.ltb_spec 0 l).
    - rewrite mul_div_total by (unfold i128_max in *; nia). cbn [ok_or rbind]. fold waived.
      by rewrite Z.min_l by lia.
    - unfold waived. by replace l with 0 by lia; rewrite Z.mul_0_r. }
  rewrite Hwaive. cbn [rbind].
  assert (i128_min ≤ 0) by (unfold i128_min; lia).
  rewrite !checked_i128_id by lia. cbn [ok_or rbind].
  assert (Heff : e - waived - (fee - waived) = e - fee) by lia. rewrite Heff.
  rewrite checked_i128_id by lia. cbn [ok_or rbind].
  destruct rate as [x|]; cbn [default from_option id] in *.
  - rewrite mul_div_total by (unfold i128_max in *; nia). cbn [ok_or rbind]. fold reward.
    rewrite Z.min_l by lia. rewrite checked_i128_id by lia. cbn [ok_or rbind].
    rewrite checked_i128_id by lia. reflexivity.
  - assert (reward = 0) as -> by (unfold reward; by rewrite Z.mul_0_r).
    cbn [rbind]. rewrite (Z.min_l 0) by lia. rewrite checked_i128_id by lia.
    by rewrite !Z.sub_0_r.
Qed.

(** A division that succeeded, without the bound on the amount. *)
Lemma split_payment_Ok e f l rate e' p o x :
  0 ≤ e → 0 ≤ f ≤ MAX_BPS → 0 ≤ default 0 rate →
  Purchase.split_payment e f l rate = Ok (Purchase.MkSplit e' p o x) →
  0 ≤ p ∧ 0 ≤ o ∧ 0 ≤ x ∧ p + o + x ≤ e' ∧ (rate = None → x = 0).
Proof.
  intros He Hf Hr Hs. unfold Purchase.split_payment in Hs.
  apply rbind_Ok in Hs as (fee & Hfee & Hs). run Hfee.
  apply mul_div_bounds in Hfee; [|done..].
  apply rbind_Ok in Hs as (waived & Hw & Hs).
  assert (0 ≤ waived ≤ fee).
  { clear Hs. run_split Hw; [|lia]. apply mul_div_Some in E0; [|unfold MAX_BPS; lia..]. subst.
    pose proof (Z.div_pos (fee * l) MAX_BPS). unfold MAX_BPS in *. nia. }
  clear Hw. run Hs. checked. destruct rate as [y|]; cbn in Hr.
  - run_all. checked. simplify_eq/=.
    match goal with Hm : mul_div _ y _ = _ |- _ => apply mul_div_Some in Hm end;
      [|unfold MAX_BPS; lia..].
    pose proof (Z.div_pos ((fee - waived) * y) MAX_BPS). unfold MAX_BPS in *.
    repeat split; try lia; [nia..|done].
  - run_all. checked. simplify_eq/=. repeat split; lia.
Qed.

Lemma discounted_nonneg x num den r :
  0 ≤ x → 0 ≤ num → 0 < den → mul_div x num den = Some r → 0 ≤ r.
Proof.
  intros Hx Hn Hd Hm. apply mul_div_Some in Hm; [|done..]. subst. apply Z.div_pos; nia.
Qed.

Lemma apply_promo_nonneg env t bps x t' b :
  0 ≤ t → Purchase.apply_promo env t bps x = Ok (t', b) → 0 ≤ t'.
Proof.
  unfold Purchase.apply_promo. intros Ht Hp. run_split Hp; simplify_eq; [|done]. checked.
  eapply discounted_nonneg; [done| | |eassumption]; [lia|done].
Qed.

Lemma apply_code_hash_nonneg `{HostCrypto} s t c t' h :
  0 ≤ t → Purchase.apply_code_hash s t c = Ok (t', h) → 0 ≤ t'.
Proof.
  unfold Purchase.apply_code_hash. intros Ht Hp. run_split Hp; simplify_eq; [|done].
  by eapply discounted_nonneg; [| | |eassumption].
Qed.

Lemma apply_event_code_Ok env s e t c t' s' :
  0 ≤ t → Purchase.apply_event_code env s e t c = Ok (t', s') →
  0 ≤ t' ∧ ∃ m, s' = s ⟨ DiscountCode := m ⟩.
Proof.
  intros Ht Hp. split; [|by eapply event_code_frame].
  unfold Purchase.apply_event_code in Hp. run_split Hp; simplify_eq; [|done]. checked.
  eapply discounted_nonneg; [done| | |eassumption]; [lia|done].
Qed.

(** ** A sale is solvent *)

(** What the contract owes for an event: the organizer's and the platform's
    unpaid shares. *)
Definition owed (s : State) (event_id : string) : Z :=
  eb_organizer_amount (storage.get_event_balance s event_id)
  + eb_platform_fee (storage.get_event_balance s event_id).

Lemma update_balance_Ok s e o p s' :
  storage.update_event_balance s e o p = Ok s' →
  owed s' e = owed s e + o + p
  ∧ ∀ j, j ≠ e → storage.get_event_balance s' j = storage.get_event_balance s j.
Proof.
  unfold storage.update_event_balance. intros Hs. run Hs. checked.
  unfold owed, storage.get_event_balance, storage.set_event_balance. cbn.
  rewrite lookup_insert_eq. cbn. split; [lia|].
  intros j Hj. by rewrite lookup_insert_ne.
Qed.

Lemma book_Ok s e k t sp s' :
  Purchase.book s e k t sp = Ok s' →
  owed s' e = owed s e + Purchase.fs_organizer_amount sp + Purchase.fs_platform_fee sp
  ∧ ∀ j, j ≠ e → storage.get_event_balance s' j = storage.get_event_balance s j.
Proof.
  unfold Purchase.book. intros Hs. apply rbind_Ok in Hs as (s1 & H1 & Hs).
  apply update_balance_Ok in H1. enough (HB : Balances s' = Balances s1).
  { unfold owed, storage.get_event_balance in *. by rewrite HB. }
  open_accounts. run Hs. reflexivity.
Qed.

Section Money.
Context {W R : Type} `{TokenLaws W} `{EventRegistryInterface R}
  `{PriceOracleInterface} `{ProSubscriptionInterface} `{HostCrypto}.

Lemma collect_Ok env (w : W) k b t ref x w' :
  Purchase.collect env w k b t ref x = Ok w' →
  b ≠ this env → ref ≠ Some (this env) → 0 ≤ x → (ref = None → x = 0) →
  balance w' k (this env) = balance w k (this env) + t - x
  ∧ ∀ k', k' ≠ k → balance w' k' (this env) = balance w k' (this env).
Proof.
  unfold Purchase.collect. intros Hc Hb Href Hx Hnone. run Hc. checked. bool_props.
  match goal with Ht : transfer_from _ _ _ _ _ _ = Some _ |- _ =>
    apply transfer_from_moves in Ht as (_ & _ & _ & Hm) end.
  assert (Hother : ∀ k', k' ≠ k → balance x1 k' (this env) = balance w k' (this env)).
  { intros k' Hk. rewrite Hm. repeat case_bool_decide; naive_solver lia. }
  run_split Hc; simplify_eq.
  - apply transfer_moves in Hc as (_ & _ & Hm'). split.
    + rewrite (moved_from _ _ _ _ _ _ Hm') by congruence. lia.
    + intros k' Hk. rewrite Hm', <- Hother by done.
      repeat case_bool_decide; naive_solver lia.
  - split; [lia|done].
  - rewrite Hnone by done. split; [lia|done].
Qed.

(** C8. A sale is solvent: when the event's fee is at most 100%, the tokens
    the contract gains (the buyer's payment less the referrer's reward) cover
    the amounts it newly owes to the organizer and the platform, no other
    token of the contract moves and no other event's account changes. *)
Theorem sale_solvent env (w : W) (r : R) s p i t b o k a q opts h x w' r' s' :
  Purchase.process_payment env w r s p i t b o k a q opts h = Ok (x, w', r', s') →
  b ≠ this env → po_referrer opts ≠ Some (this env) → 0 ≤ q →
  (∀ ev, try_get_event r i = Some ev → 0 ≤ Purchase.platform_fee_bps s ev ≤ MAX_BPS) →
  0 ≤ default 0 (Purchase.referral_rate s i (po_referrer opts)) →
  0 ≤ owed s' i - owed s i ≤ balance w' k (this env) - balance w k (this env)
  ∧ (∀ k', k' ≠ k → balance w' k' (this env) = balance w k' (this env))
  ∧ (∀ j, j ≠ i → storage.get_event_balance s' j = storage.get_event_balance s j).
Proof.
  intros Hc Hb Href Hq Hfee Hrate. unfold Purchase.process_payment in Hc. run Hc.
  repeat match goal with y : _ * _ |- _ => destruct y end. run_all. simplify_eq.
  checked. open_switch.
  match goal with Hp : Purchase.apply_promo _ _ _ _ = _ |- _ =>
    apply apply_promo_nonneg in Hp; [|nia] end.
  match goal with Hp : Purchase.apply_code_hash _ _ _ = _ |- _ =>
    apply apply_code_hash_nonneg in Hp; [|done] end.
  match goal with Hp : Purchase.apply_event_code _ _ _ _ _ = _ |- _ =>
    apply apply_event_code_Ok in Hp as [? [? ->]]; [|done] end.
  match goal with Hp : Purchase.split_payment _ _ _ _ = Ok ?sp |- _ =>
    destruct sp as [e' pf org rw];
    apply split_payment_Ok in Hp as (? & ? & ? & ? & Hnone); [|done|by apply Hfee|done] end.
  match goal with Hp : Purchase.collect _ _ _ _ _ _ _ = _ |- _ =>
    apply collect_Ok in Hp as [Hgain Hothers]; [|done..|] end.
  2: { cbn. intros Hn. apply Hnone. by rewrite Hn. }
  match goal with Hp : Purchase.book _ _ _ _ _ = _ |- _ => apply book_Ok in Hp as [Hown Hrest] end.
  cbn in Hgain, Hown. frames Balances.
  match goal with HB : Balances ?s19 = Balances ?sm |- context [owed ?S i] =>
    assert (HF : Balances S = Balances s19) by (repeat case_match; reflexivity);
    rewrite HB in HF; generalize dependent S; intros sf HF; clear HB end.
  match type of HF with _ = Balances (match _ with Some _ => _ | None => ?sb end) =>
    assert (HF' : Balances sf = Balances sb) by (rewrite HF; by case_match) end.
  unfold owed, storage.get_event_balance in *. rewrite HF'. to_base_in Balances Hown.
  split_and!; [lia..|done|exact Hrest].
Qed.

(** ** Bids *)

(** The tokens that belong to a bid, and to all standing bids. *)
Definition bid_in (tok : Address) (b : HighestBid) : Z :=
  if bool_decide (hb_token_address b = tok) then hb_amount b else 0.
Definition bid_escrow (s : State) (tok : Address) : Z :=
  map_sum (bid_in tok) (HighestBids s).

Lemma new_bid_escrow s s' e t b tok :
  HighestBids s' = <[(e, t) := b]> (HighestBids s) →
  bid_escrow s' tok - bid_escrow s tok
  = bid_in tok b - from_option (bid_in tok) 0 (storage.get_highest_bid s e t).
Proof. intros Hs. unfold bid_escrow. rewrite Hs, map_sum_insert. unfold storage.get_highest_bid. lia. Qed.

Lemma min_required_Ok ac highest n :
  Tickets.min_required ac highest = Ok n →
  n = from_option (λ p, hb_amount p + ac_min_increment ac) (ac_start_price ac) highest.
Proof. unfold Tickets.min_required. intros Hn. run_split Hn; [by checked|done]. Qed.

(** Bidding: an accepted bid was made before the end of the auction and
    reaches the start price or the standing bid plus the increment; it becomes
    the standing bid; in every token the contract gains or loses exactly what
    the standing bids gain or lose; and the outbid bidder got the bid back. *)
Theorem place_bid_correct env (w : W) (r : R) s e t b k a w' s' :
  Tickets.place_bid env w r s e t b k a = Ok (tt, w', s') →
  b ≠ this env →
  (∀ p, storage.get_highest_bid s e t = Some p → hb_bidder p ≠ this env) →
  (∃ ev ac, try_get_event r e = Some ev ∧ Tickets.auction_tier ev t = Ok ac
     ∧ timestamp env ≤ ac_end_time ac
     ∧ from_option (λ p, hb_amount p + ac_min_increment ac) (ac_start_price ac)
         (storage.get_highest_bid s e t) ≤ a)
  ∧ HighestBids s' = <[(e, t) := MkBid b k a]> (HighestBids s)
  ∧ (∀ tok, balance w' tok (this env) - balance w tok (this env)
            = bid_escrow s' tok - bid_escrow s tok)
  ∧ (∀ p, storage.get_highest_bid s e t = Some p → hb_bidder p ≠ b →
      balance w' (hb_token_address p) (hb_bidder p)
      = balance w (hb_token_address p) (hb_bidder p) + hb_amount p).
Proof.
  intros Hc Hb Hprev. unfold Tickets.place_bid in Hc. run Hc.
  repeat match goal with y : _ * _ |- _ => destruct y end.
  match goal with Ht : transfer_from _ _ _ _ _ _ = Some _ |- _ =>
    apply transfer_from_moves in Ht as (_ & _ & _ & Hm) end.
  match goal with Hl : Tickets.min_required _ _ = Ok _ |- _ => apply min_required_Ok in Hl end.
  open_accounts. run_all; simplify_eq.
  - specialize (Hprev _ eq_refl).
    match goal with Ht : transfer _ _ _ _ _ = Some _ |- _ =>
      apply transfer_moves in Ht as (_ & _ & Hm') end.
    split_and!; [eexists _, _; split_and!; [done..|lia|lia]|reflexivity|intros tok|].
    + erewrite new_bid_escrow by reflexivity.
      match goal with Hg : storage.get_highest_bid s e t = _ |- _ => rewrite Hg end.
      rewrite Hm', Hm. unfold bid_in. cbn. repeat case_bool_decide; naive_solver lia.
    + intros p [= <-] Hp. rewrite (moved_to _ _ _ _ _ _ Hm') by done.
      rewrite Hm. repeat case_bool_decide; naive_solver lia.
  - split_and!; [eexists _, _; split_and!; [done..|lia|lia]|reflexivity|intros tok|done].
    erewrite new_bid_escrow by reflexivity.
    match goal with Hg : storage.get_highest_bid s e t = _ |- _ => rewrite Hg end.
    rewrite Hm. unfold bid_in. cbn. repeat case_bool_decide; naive_solver lia.
Qed.

(** ** Payouts *)

(** The share that the milestone plan releases is the largest share among the
    milestones reached, everything when there is no plan. *)
Lemma highest_met_spec ev ms :
  (∀ m, m ∈ ms → ms_sales_threshold m ≤ ev_current_supply ev →
        ms_release_percent m ≤ Withdraw.highest_met ev ms)
  ∧ (Withdraw.highest_met ev ms = 0
     ∨ ∃ m, m ∈ ms ∧ ms_sales_threshold m ≤ ev_current_supply ev
            ∧ ms_release_percent m = Withdraw.highest_met ev ms).
Proof.
  unfold Withdraw.highest_met. induction ms as [|m ms IH] using rev_ind.
  { split; [by intros m ?%elem_of_nil|by left]. }
  rewrite foldl_app. cbn [foldl]. destruct IH as [IH1 IH2].
  set (h := foldl _ 0 ms) in *.
  destruct (_ && _) eqn:E; bool_props; split.
  - intros m' [Hm|Hm%list_elem_of_singleton]%elem_of_app Ht; [|by subst].
    specialize (IH1 _ Hm Ht). lia.
  - right. exists m. split_and!; [apply elem_of_app; right; by left|lia|done].
  - intros m' [Hm|Hm%list_elem_of_singleton]%elem_of_app Ht; [by apply IH1|]. subst.
    apply andb_false_iff in E as [E|E]; lia.
  - destruct IH2 as [IH2|(m' & Hm & ?)]; [by left|right]. exists m'.
    split; [apply elem_of_app; by left|done].
Qed.


Lemma fees_after s s' k x t :
  TotalFeesCollected s' = <[k := x]> (TotalFeesCollected s) →
  storage.get_total_fees_collected_by_token s' t
  = if bool_decide (t = k) then x else storage.get_total_fees_collected_by_token s t.
Proof.
  intros HT. unfold storage.get_total_fees_collected_by_token. rewrite HT, lookup_insert.
  case_bool_decide; case_decide; naive_solver.
Qed.

Lemma daily_after s s' k d x :
  DailyWithdrawalAmount s' = <[(k, d) := x]> (DailyWithdrawalAmount s) →
  storage.get_daily_withdrawn_amount s' k d = x.
Proof.
  intros HT. unfold storage.get_daily_withdrawn_amount. by rewrite HT, lookup_insert_eq.
Qed.

(** Platform payouts: a successful withdrawal of fees was signed by the
    administrator, is positive and at most the fees recorded in that token,
    lowers them by exactly the amount, pays it to the platform's wallet, and,
    where a cap is set, the payouts of that token on that day stay within it. *)
Theorem withdraw_fees_correct env (w : W) s a k w' s' :
  Withdraw.withdraw_platform_fees env w s a k = Ok (tt, w', s') →
  let day := timestamp env / 86400 in
  ∃ admin wallet, storage.get_admin s = Some admin ∧ authorized env admin = true
    ∧ PlatformWallet s = Some wallet
    ∧ 0 < a ≤ storage.get_total_fees_collected_by_token s k
    ∧ (∀ t, storage.get_total_fees_collected_by_token s' t
            = storage.get_total_fees_collected_by_token s t
              - (if bool_decide (t = k) then a else 0))
    ∧ (0 < storage.get_withdrawal_cap s k →
       storage.get_daily_withdrawn_amount s' k day
         = storage.get_daily_withdrawn_amount s k day + a
       ∧ storage.get_daily_withdrawn_amount s' k day ≤ storage.get_withdrawal_cap s k)
    ∧ (wallet ≠ this env →
       balance w' k (this env) = balance w k (this env) - a
       ∧ balance w' k wallet = balance w k wallet + a).
Proof.
  intros Hc day. unfold Withdraw.withdraw_platform_fees, require_admin, storage.get_platform_wallet
    in Hc. run Hc. auths.
  match goal with Hp : transfer _ _ _ _ _ = Some _ |- _ =>
    apply transfer_moves in Hp as (_ & _ & Hm) end.
  open_accounts. run_all. all: eexists _, _; split_and!; [done..|lia|lia| | |].
  all: repeat match goal with Hx : checked_i128 _ = Some _ |- _ =>
    apply checked_i128_Some in Hx as [? _] end.
  1, 4: intros t; erewrite fees_after by reflexivity; case_bool_decide; subst; [reflexivity|];
    rewrite Z.sub_0_r; reflexivity.
  2, 4: intros Hne; split; [by apply (moved_from _ _ _ _ _ _ Hm)|by apply (moved_to _ _ _ _ _ _ Hm)].
  - intros _. unfold day. erewrite daily_after by reflexivity. subst. split; [reflexivity|lia].
  - lia.
Qed.
End Money.
