(* ===== verification/PayConfig.v ===== *)
(** * Ticket payment: rates, codes and listings over histories

    What the setters check stays true in every reachable state, discount
    codes are never used more often than allowed, a hashed code is used once,
    and a resale moves exactly the asked price. *)

From S2P Require Import Prelude Machine Host PayTypes PayStorage.
From S2P Require Import PayPurchase PayRefund PayWithdraw PayTransfer PayGovernance PaySystem.
From S2P Require Import PayFrames.

Definition rate_view (s : State) :=
  (ResaleRoyaltyBps s, ResaleListings s, AffiliateRate s, SlippageBps s).

(** The [u32] arguments that the tables below store are not negative. *)
Definition typed (c : entry) : bool :=
  match c with
  | CreateDiscountCode _ _ percentage _ max_uses => (0 <=? percentage) && (0 <=? max_uses)
  | SetAffiliateRate _ _ rate_bps => 0 <=? rate_bps
  | SetResaleRoyaltyBps _ bps => 0 <=? bps
  | _ => true
  end.

Definition writes_rates (c : entry) : bool :=
  match c with
  | SetAffiliateRate _ _ _ | SetResaleRoyaltyBps _ _ | ExecuteProposal _ _
  | ListForResale _ _ | CancelResaleListing _ | PurchaseResaleTicket _ _ _ => true
  | _ => false
  end.
Definition writes_codes (c : entry) : bool :=
  match c with
  | CreateDiscountCode _ _ _ _ _ | ProcessPayment _ _ _ _ _ _ _ _ _ _ => true
  | _ => false
  end.

Section Frames.
Context {W R : Type} `{TokenLedger W} `{EventRegistryInterface R}
  `{PriceOracleInterface} `{ProSubscriptionInterface} `{HostCrypto}.

Lemma process_payment_rates env (w : W) (r : R) s p i t b o k a q opts h x w' r' s' :
  Purchase.process_payment env w r s p i t b o k a q opts h = Ok (x, w', r', s') →
  rate_view s' = rate_view s.
Proof.
  unfold Purchase.process_payment, Purchase.apply_event_code. open_accounts. intros Hc.
  run_all. simplify_eq. all: open_switch; repeat case_match; same rate_view.
Qed.

Lemma invoke_rates_frame env c (w : W) (r : R) s w' r' s' :
  writes_rates c = false → invoke env c w r s = Ok (w', r', s') → rate_view s' = rate_view s.
Proof.
  intros Hg Hi. destruct c; try discriminate Hg; open_call Hi.
  all: try (by eapply process_payment_rates).
  all: try (by batch_frames rate_view; exact Hi).
  all: open_handler Hi; open_accounts.
  all: run_all; repeat case_match; simplify_eq; same rate_view.
Qed.

(** A payment writes the table of codes at most once, and marks its own hash. *)
Lemma process_payment_codes env (w : W) (r : R) s p i t b o k a q opts h x w' r' s' :
  Purchase.process_payment env w r s p i t b o k a q opts h = Ok (x, w', r', s') →
  (∃ e e' s1, Purchase.apply_event_code env s i e (po_discount_code opts) = Ok (e', s1)
     ∧ DiscountCode s' = DiscountCode s1)
  ∧ (∃ e e' oh, Purchase.apply_code_hash s e (po_code_preimage opts) = Ok (e', oh)
     ∧ DiscountHashUsed s'
       = from_option (λ hash, <[hash := true]> (DiscountHashUsed s)) (DiscountHashUsed s) oh).
Proof.
  unfold Purchase.process_payment. intros Hc. run Hc.
  repeat match goal with y : _ * _ |- _ => destruct y end. run_all. simplify_eq.
  match goal with Hp : Purchase.apply_event_code _ _ _ ?e1 _ = Ok (?e2, ?s1),
    Hq : Purchase.apply_code_hash _ ?e3 _ = Ok (?e4, ?oh) |- _ =>
    pose proof (event_code_frame _ _ _ _ _ _ _ Hp) as [m Hm];
    split; [exists e1, e2, s1; split; [exact Hp|]|exists e3, e4, oh; split; [exact Hq|]] end.
  - clear m Hm. open_accounts. run_all. open_switch.
    repeat case_match; frames DiscountCode; to_base DiscountCode; etransitivity; eauto.
  - subst. open_accounts. run_all. open_switch.
    repeat case_match; frames DiscountHashUsed; to_base DiscountHashUsed; etransitivity; eauto.
Qed.

Definition codes_view (s : State) := (DiscountCode s, DiscountHashUsed s).

Lemma invoke_codes_frame env c (w : W) (r : R) s w' r' s' :
  writes_codes c = false → invoke env c w r s = Ok (w', r', s') → codes_view s' = codes_view s.
Proof.
  intros Hg Hi. destruct c; try discriminate Hg; open_call Hi.
  all: try (by batch_frames codes_view; exact Hi).
  all: open_handler Hi; open_accounts.
  all: try (run_all; repeat case_match; simplify_eq; same codes_view).
  run Hi. unfold Gov.apply_change, storage.set_slippage_bps in *. case_match; run_all; same codes_view.
Qed.
End Frames.

(** ** The invariant *)
Definition code_ok (d : DiscountData) : Prop :=
  1 ≤ dd_percentage d ≤ 100 ∧ 0 ≤ dd_current_uses d ≤ dd_max_uses d.

Record config_ok (s : State) : Prop := {
  co_royalty : ∀ e b, ResaleRoyaltyBps s !! e = Some b → 0 ≤ b ≤ 5000;
  co_listing : ∀ p l, ResaleListings s !! p = Some l → rl_payment_id l = p ∧ 0 < rl_ask_price l;
  co_affiliate : ∀ ea b, AffiliateRate s !! ea = Some b → 0 ≤ b ≤ MAX_BPS;
  co_slippage : storage.get_slippage_bps s ≤ 5000
}.

Lemma config_ok_view s s' : rate_view s' = rate_view s → config_ok s → config_ok s'.
Proof.
  intros Hv [H1 H2 H3 H4]. unfold rate_view in Hv. injection Hv as E1 E2 E3 E4.
  split; unfold storage.get_slippage_bps in *; by rewrite ?E1, ?E2, ?E3, ?E4.
Qed.

Lemma config_ok_emit s e : config_ok s → config_ok (emit s e).
Proof. by apply config_ok_view. Qed.

Lemma store_listing_ok s l :
  config_ok s → 0 < rl_ask_price l → config_ok (resale.store_resale_listing s l).
Proof.
  intros [H1 H2 H3 H4] Hl. split; cbn; [done| |done|done].
  intros p l'. rewrite lookup_insert. case_decide; naive_solver.
Qed.

Lemma apply_change_config s n c s' :
  config_ok s → Gov.apply_change s n c = Ok s' → config_ok s'.
Proof.
  intros Hs Hc. unfold Gov.apply_change, storage.set_slippage_bps in Hc.
  destruct c; run_split Hc; try done; try (by eapply config_ok_view; [|exact Hs]).
  destruct Hs as [H1 H2 H3 H4]. split; [done..|]. cbn. lia.
Qed.

Section Reachable.
Context {W R : Type} `{TokenLedger W} `{EventRegistryInterface R}
  `{PriceOracleInterface} `{ProSubscriptionInterface} `{HostCrypto}.

Lemma invoke_config_ok env c (w : W) (r : R) s w' r' s' :
  typed c = true → config_ok s → invoke env c w r s = Ok (w', r', s') → config_ok s'.
Proof.
  intros Ht Hs Hi. destruct (writes_rates c) eqn:Hw.
  2: { eapply config_ok_view; [by eapply invoke_rates_frame|done]. }
  destruct c; try discriminate Hw; open_call Hi; cbn in Ht.
  - unfold Gov.execute_proposal in Hi. run Hi.
    match goal with Ha : Gov.apply_change _ _ _ = Ok ?s1 |- _ =>
      apply (config_ok_view s1); [reflexivity|by eapply apply_change_config] end.
  - unfold Purchase.set_affiliate_rate in Hi. run Hi. destruct Hs as [H1' H2' H3' H4'].
    split; cbn; [done..| |done]. intros ea b. rewrite lookup_insert.
    case_decide; [|by eauto]. intros [= <-]. lia.
  - unfold Tickets.list_for_resale in Hi. run Hi.
    apply config_ok_emit, store_listing_ok; [done|cbn; lia].
  - unfold Tickets.cancel_resale_listing in Hi. run Hi.
    apply config_ok_emit, store_listing_ok; [done|]. cbn.
    match goal with Hl : resale.get_resale_listing s _ = _ |- _ =>
      by destruct (co_listing s Hs _ _ Hl) end.
  - unfold Tickets.purchase_resale_ticket in Hi. run Hi. frames rate_view.
    apply config_ok_emit, store_listing_ok; [by eapply config_ok_view|].
    cbn. match goal with Hl : resale.get_resale_listing s _ = _ |- _ =>
      by destruct (co_listing s Hs _ _ Hl) end.
  - unfold Tickets.set_resale_royalty_bps, resale.set_resale_royalty_bps in Hi. run Hi.
    unfold resale.MAX_RESALE_ROYALTY_BPS in *. destruct Hs as [H1' H2' H3' H4'].
    split; cbn; [|done..]. intros e b. rewrite lookup_insert.
    case_decide; [|by eauto]. intros [= <-]. lia.
Qed.

Lemma reachable_config_ok allow (w : W) (r : R) s :
  (∀ c, allow c = true → typed c = true) → reachable allow w r s → config_ok s.
Proof.
  intros Hall. revert w r s. apply reachable_invariant.
  - split; cbn; [intros ? ? Hl..|done]; by rewrite lookup_empty in Hl.
  - intros env c w r s w' r' s' Hc Hs Hi. eapply invoke_config_ok; [|exact Hs|exact Hi]. by apply Hall.
Qed.

(** ** Discount codes *)
Definition codes_ok (m : gmap (string * string) DiscountData) : Prop :=
  ∀ ec d, m !! ec = Some d → code_ok d.

Lemma codes_ok_insert m ec d : codes_ok m → code_ok d → codes_ok (<[ec := d]> m).
Proof. intros Hm Hd ec' d'. rewrite lookup_insert. case_decide; naive_solver. Qed.

Lemma apply_event_code_ok env s e t c t' s' :
  codes_ok (DiscountCode s) → Purchase.apply_event_code env s e t c = Ok (t', s') →
  codes_ok (DiscountCode s').
Proof.
  unfold Purchase.apply_event_code. intros Hs Hp. run_split Hp; simplify_eq; [|done]. checked.
  apply codes_ok_insert; [done|].
  match goal with Hd : storage.get_discount_code s _ _ = Some ?d |- _ =>
    destruct (Hs _ _ Hd) as [? ?] end. split; cbn; [done|lia].
Qed.

Lemma invoke_codes_ok env c (w : W) (r : R) s w' r' s' :
  typed c = true → codes_ok (DiscountCode s) → invoke env c w r s = Ok (w', r', s') →
  codes_ok (DiscountCode s').
Proof.
  intros Ht Hs Hi. destruct (writes_codes c) eqn:Hw.
  2: { apply invoke_codes_frame in Hi; [|done]. injection Hi as -> _. done. }
  destruct c; try discriminate Hw; open_call Hi; cbn in Ht.
  - unfold Purchase.create_discount_code in Hi. run Hi.
    apply codes_ok_insert; [done|]. split; cbn; lia.
  - apply process_payment_codes in Hi as [(? & ? & ? & Ha & ->) _].
    by eapply apply_event_code_ok.
Qed.

(** Rates and codes stay in range: in every state reached with non-negative
    [u32] arguments every discount code takes between 1% and 100% off and was
    used at most as often as allowed, affiliate rates are at most 100%, resale
    royalties and the slippage at most 50%, and every resale listing is stored
    under its own ticket with a positive price. *)
Theorem reachable_rates_ok allow (w : W) (r : R) s :
  (∀ c, allow c = true → typed c = true) → reachable allow w r s →
  (∀ e c d, storage.get_discount_code s e c = Some d →
     1 ≤ dd_percentage d ≤ 100 ∧ 0 ≤ dd_current_uses d ≤ dd_max_uses d)
  ∧ (∀ e a b, storage.get_affiliate_rate s e a = Some b → 0 ≤ b ≤ MAX_BPS)
  ∧ (∀ e, 0 ≤ resale.get_resale_royalty_bps s e ≤ 5000)
  ∧ storage.get_slippage_bps s ≤ 5000
  ∧ (∀ p l, resale.get_resale_listing s p = Some l →
       rl_payment_id l = p ∧ 0 < rl_ask_price l).
Proof.
  intros Hall Hr. destruct (reachable_config_ok _ _ _ _ Hall Hr) as [H1' H2' H3' H4'].
  assert (Hc : codes_ok (DiscountCode s)).
  { clear H1' H2' H3' H4'. revert w r s Hr. apply reachable_invariant.
    - intros ec d Hd. cbn in Hd. by rewrite lookup_empty in Hd.
    - intros env c w r s w' r' s' Hc Hs Hi. by eapply invoke_codes_ok; [apply Hall| |]. }
  split_and!; [intros e c d; apply Hc|intros e a; apply H3'| |done|done].
  intros e. unfold resale.get_resale_royalty_bps, resale.DEFAULT_RESALE_ROYALTY_BPS.
  destruct (ResaleRoyaltyBps s !! e) eqn:E; cbn; [by eapply H1'|lia].
Qed.

(** ** Hashed codes *)
Lemma used_mono env c (w : W) (r : R) s w' r' s' h :
  invoke env c w r s = Ok (w', r', s') → storage.is_discount_hash_used s h = true →
  storage.is_discount_hash_used s' h = true.
Proof.
  intros Hi Hh. unfold storage.is_discount_hash_used in *. destruct (writes_codes c) eqn:Hw.
  2: { apply invoke_codes_frame in Hi; [|done]. by injection Hi as _ ->. }
  destruct c; try discriminate Hw; open_call Hi.
  - unfold Purchase.create_discount_code in Hi. by run Hi.
  - apply process_payment_codes in Hi as [_ (? & ? & oh & _ & ->)].
    destruct oh; cbn; [|done]. rewrite lookup_insert. by case_decide.
Qed.

(** C13. A hashed discount code works once: after a sale that used it, and
    whatever is invoked afterwards, a further sale with the same code fails. *)
Theorem code_hash_single_use env (w : W) (r : R) s p i t b o k a q opts h x w1 r1 s1
    hist w2 r2 s2 env' w3 r3 p' i' t' b' o' k' a' q' opts' h' :
  Purchase.process_payment env w r s p i t b o k a q opts h = Ok (x, w1, r1, s1) →
  is_Some (po_code_preimage opts) → po_code_preimage opts' = po_code_preimage opts →
  run_history w1 r1 s1 hist = Ok (w2, r2, s2) →
  is_ok (Purchase.process_payment env' w3 r3 s2 p' i' t' b' o' k' a' q' opts' h') = false.
Proof.
  intros H1' [c Hc] Hsame Hrun.
  assert (Hu : storage.is_discount_hash_used s1 (sha256 c) = true).
  { apply process_payment_codes in H1' as [_ (? & ? & oh & Ha & Hs)]. rewrite Hc in Ha.
    unfold Purchase.apply_code_hash in Ha. run_split Ha; simplify_eq.
    unfold storage.is_discount_hash_used. rewrite Hs. cbn. by rewrite lookup_insert_eq. }
  assert (Hu2 : storage.is_discount_hash_used s2 (sha256 c) = true).
  { apply (rfold_ind _ (λ y, storage.is_discount_hash_used y.2 (sha256 c) = true)) in Hrun; [done|done|].
    intros [ev e] [[wa ra] sa] [[wb rb] sb] _ Hp Hi. cbn in *. by eapply used_mono. }
  destruct (Purchase.process_payment _ _ _ s2 _ _ _ _ _ _ _ _ _ _) as [[[[y w4] r4] s4]| |] eqn:E;
    [exfalso|done..].
  apply process_payment_codes in E as [_ (? & ? & oh & Ha & _)]. rewrite Hsame, Hc in Ha.
  unfold Purchase.apply_code_hash in Ha. run_split Ha. congruence.
Qed.
End Reachable.

(** ** Resale *)
Section Resale.
Context {W R : Type} `{TokenLaws W} `{EventRegistryInterface R}
  `{PriceOracleInterface} `{ProSubscriptionInterface} `{HostCrypto}.

Definition only_for (a b : Address) (n : Z) : Z := if bool_decide (a = b) then n else 0.

Lemma moved_flow (w w' : W) tok a b n t x :
  moved w w' tok a b n →
  balance w' t x = balance w t x + only_for t tok (only_for x b n - only_for x a n).
Proof. intros Hm. rewrite Hm. unfold only_for. repeat case_bool_decide; naive_solver lia. Qed.

(** The organizer gets the royalty, the seller when the event is unknown. *)
Definition royalty_payee (r : R) (l : ResaleListing) : Address :=
  from_option ev_organizer_address (rl_seller l) (try_get_event r (rl_event_id l)).

Lemma pay_resale_Ok env (w : W) (r : R) s k l b y w' :
  Tickets.pay_resale env w r s k l b y = Ok w' → 0 ≤ y ≤ rl_ask_price l →
  ∀ t x, balance w' t x = balance w t x
    + only_for t k (only_for x (rl_seller l) (rl_ask_price l - y)
                    + only_for x (royalty_payee r l) y - only_for x b (rl_ask_price l)).
Proof.
  intros Hp Hy t x. unfold Tickets.pay_resale in Hp. run Hp. checked.
  match goal with Ht : transfer_from _ _ _ _ _ _ = Some _ |- _ =>
    apply transfer_from_moves in Ht as (_ & _ & _ & Hm) end.
  unfold royalty_payee. run_all;
    repeat match goal with Hu : unwrap _ = Ok _ |- _ => apply unwrap_Ok in Hu end;
    repeat match goal with Ht : transfer _ _ _ _ _ = Some _ |- _ =>
      let Hm' := fresh "Hm" in apply transfer_moves in Ht as (_ & _ & Hm') end;
    repeat match goal with Hf : moved _ _ _ _ _ _ |- _ =>
      apply (moved_flow _ _ _ _ _ _ t x) in Hf end;
    cbn [from_option]; unfold only_for in *; repeat case_bool_decide; lia.
Qed.

Lemma royalty_of_Ok s e ask y :
  Tickets.royalty_of s e ask = Ok y → 0 < ask → 0 ≤ resale.get_resale_royalty_bps s e ≤ MAX_BPS →
  y = ask * resale.get_resale_royalty_bps s e / MAX_BPS ∧ 0 ≤ y ≤ ask.
Proof.
  unfold Tickets.royalty_of. intros Hy Ha Hb.
  assert (y = ask * resale.get_resale_royalty_bps s e / MAX_BPS) as ->.
  { run_split Hy; [apply mul_div_Some; [lia|lia|done|done]|].
    replace (resale.get_resale_royalty_bps s e) with 0 by lia. by rewrite Z.mul_0_r. }
  split; [done|]. by apply share_bounds; [lia| |].
Qed.

Lemma remove_loop_Payments s b p l : Payments (storage.remove_loop s b p l).2 = Payments s.
Proof. revert s; induction l as [|i l IH]; intros s; simpl; [done|]. case_match; [done|apply IH]. Qed.

Lemma remove_buyer_Payments s b p :
  Payments (storage.remove_payment_from_buyer_index s b p) = Payments s.
Proof.
  unfold storage.remove_payment_from_buyer_index. case_match; [done|].
  pose proof (remove_loop_Payments s b p (seqZ 0 (div_ceil (storage.get_buyer_payment_count s b)
    storage.SHARD_SIZE))) as Hf.
  destruct (storage.remove_loop _ _ _ _) as [[] s1]; exact Hf.
Qed.

Lemma reassign_Payments s i pay a b s' :
  Tickets.reassign s i pay a b = Ok s' →
  Payments s' = <[i := pay ⟨ py_buyer_address := b ⟩]> (Payments s).
Proof.
  unfold Tickets.reassign, storage.add_payment_to_buyer_index. intros Hs.
  etransitivity; [|apply (remove_buyer_Payments (storage.set_payment s i
    (pay ⟨ py_buyer_address := b ⟩)) a i)].
  run_split Hs; reflexivity.
Qed.

Lemma inactive_not_sold env (w : W) (r : R) s p l b m :
  resale.get_resale_listing s p = Some l → rl_status l ≠ RsActive →
  is_ok (Tickets.purchase_resale_ticket env w r s p b m) = false.
Proof.
  intros Hl Hs. destruct (Tickets.purchase_resale_ticket env w r s p b m) as [[[[] w'] s']| |] eqn:E;
    [exfalso|done..].
  unfold Tickets.purchase_resale_ticket in E. run E. congruence.
Qed.

End Resale.
