(* ===== verification/PayExamples.v ===== *)
(** * Ticket payment: a running instance

    A small registry, a constant oracle and the running ledger, with concrete
    histories on which the theorems of the payment contract are applied. *)

From S2P Require Import Prelude Machine Host PayTypes PayStorage.
From S2P Require Import PayPurchase PayRefund PayWithdraw PayTransfer PayGovernance PayPricing.
From S2P Require Import PaySystem PayFrames PayEscrow PayGovSafety PaySpecs PayConfig.

(** ** The instances *)
Definition DemoRegistry : Type := gmap string EventInfo.

Definition sell (event_info : EventInfo) (quantity : Z) : EventInfo :=
  event_info ⟨ ev_current_supply ::= Z.add quantity ⟩.

#[export] Instance demo_registry : EventRegistryInterface DemoRegistry := {|
  try_get_event := λ r i, r !! i;
  try_get_dispute := λ _ _, None;
  get_global_promo_bps := λ _, Some 1000;
  get_promo_expiry := λ _, Some 50;
  is_scanner_authorized := λ _ _ _, Some false;
  try_get_loyalty_discount_bps := λ _ a, if bool_decide (a = "dave") then Some 500 else None;
  increment_inventory := λ r _ i _ _ q _, if bool_decide (is_Some (r !! i)) then Some (alter (λ e, sell e q) i r) else None;
  decrement_inventory := λ r _ i _ _, if bool_decide (is_Some (r !! i)) then Some (alter (λ e, sell e (-1)) i r) else None;
  try_update_loyalty_score := λ r _ _ _ _ _ _, Some r
|}.
#[export] Instance demo_oracle : PriceOracleInterface := λ _ _, None.
#[export] Instance demo_pro : ProSubscriptionInterface := λ _ _, Some false.
#[export] Instance demo_crypto : HostCrypto := {| sha256 := λ x, "#" +:+ x; to_xdr := λ a, a |}.

Definition ga : TicketTier := MkTier "general" 1000 0 0 0 50 0 true [] 1.
Definition vip : TicketTier :=
  MkTier "vip" 0 0 0 0 1 0 true [MkAuctionConfig 100 200 10] 1.
Definition show (i : string) (o : Address) : EventInfo :=
  MkEvent i "show" o o 500 true EsActive 0 "cid" 100 0 (Some [MkMilestone 1 4000])
    {[ "ga" := ga; "vip" := vip ]} 0 0 (Some 5000) 0 0 false None None None 0 0 [] true 0.
Definition r0 : DemoRegistry := {[ "e1" := show "e1" "alice"; "e2" := show "e2" "bob" ]}.

(** Every address but the contract's own signs. *)
Definition env_at (now : Z) : Env :=
  MkEnv now "payments" (λ a, negb (bool_decide (a = "payments"))).

(** "carol", "dave" and "erin" hold 100,000 "usdc" each and allow the contract
    to pull them. *)
Definition ledger0 : SimpleLedger :=
  MkLedger
    (list_to_map [(("usdc", "carol"), 100000); (("usdc", "dave"), 100000);
                  (("usdc", "erin"), 100000)])
    (list_to_map [(("usdc", "carol", "payments"), 100000); (("usdc", "dave", "payments"), 100000);
                  (("usdc", "erin", "payments"), 100000)]).

Definition plain : PurchaseOptions := MkOptions None None None.
Definition referred : PurchaseOptions := MkOptions (Some "free10") (Some "frank") (Some "SPRING").

(** A code and a hashed code, two sales (one with every discount and a
    referrer), a confirmation, a listing and a bid. *)
Definition setup : list (Env * entry) :=
  [(env_at 10, Initialize "admin" "usdc" "wallet" "registry");
   (env_at 11, CreateDiscountCode "e1" "SPRING" 20 100 2);
   (env_at 12, AddDiscountHashes "e1" ["#free10"]);
   (env_at 13, SetAffiliateRate "e1" "frank" 3000);
   (env_at 60, ProcessPayment "t1" "e1" "ga" "carol" None "usdc" 1000 1 plain "#secret");
   (env_at 61, ConfirmPayment "t1" "tx");
   (env_at 62, ListForResale "t1" 1200);
   (env_at 63, PlaceBid "e1" "vip" "dave" "usdc" 100)].

Definition outcome (h : list (Env * entry)) : SimpleLedger * DemoRegistry * State :=
  match run_history ledger0 r0 empty_state h with
  | Ok x => x
  | _ => (ledger0, r0, empty_state)
  end.

Lemma pay_outcome_reachable allow h :
  forallb (λ ec, allow ec.2) h && is_ok (run_history ledger0 r0 empty_state h) = true →
  reachable allow (outcome h).1.1 (outcome h).1.2 (outcome h).2.
Proof.
  intros [Hok Hrun]%andb_true_iff. unfold outcome.
  destruct (run_history ledger0 r0 empty_state h) as [[[w r] s]| |] eqn:E; [|discriminate..].
  eapply pay_history_reachable; [|exact Hok|exact E]. apply reach_deploy.
Qed.

Definition w1 : SimpleLedger := (outcome setup).1.1.
Definition r1 : DemoRegistry := (outcome setup).1.2.
Definition s1 : State := (outcome setup).2.

Lemma pay_setup_reachable allow :
  forallb (λ ec, allow ec.2) setup = true → reachable allow w1 r1 s1.
Proof. intros Ha. apply pay_outcome_reachable. rewrite Ha. vm_compute. reflexivity. Qed.

Lemma pay_setup_typed : reachable typed w1 r1 s1.
Proof. apply pay_setup_reachable. vm_compute. reflexivity. Qed.
Lemma pay_setup_any : reachable any_entry w1 r1 s1.
Proof. apply pay_setup_reachable. vm_compute. reflexivity. Qed.

(** What a call returned, when it returned. *)
Definition result {A} (d : A) (x : res TicketPaymentError A) : A :=
  match x with Ok a => a | _ => d end.
Lemma result4_ok {A B C D} (d : A * B * C * D) x :
  is_ok x = true → x = Ok ((result d x).1.1.1, (result d x).1.1.2, (result d x).1.2, (result d x).2).
Proof. by destruct x as [[[[a b] c] e]| |]. Qed.
Lemma result3_ok {A B C} (d : A * B * C) x :
  is_ok x = true → x = Ok ((result d x).1.1, (result d x).1.2, (result d x).2).
Proof. by destruct x as [[[a b] c]| |]. Qed.

(** ** Invariants at the demo state *)
Lemma reachable_escrow_agree_witness :
  storage.get_active_escrow_total s1 = 1100 ∧ map_sum id (ActiveEscrowByToken s1) = 1100.
Proof.
  split; [vm_compute; reflexivity|].
  rewrite <- (reachable_escrow_agree any_entry w1 r1 s1 pay_setup_any). vm_compute. reflexivity.
Defined.

Lemma reachable_rates_ok_witness :
  0 ≤ resale.get_resale_royalty_bps s1 "e1" ≤ 5000
  ∧ ∃ d, storage.get_discount_code s1 "e1" "SPRING" = Some d
         ∧ 0 ≤ dd_current_uses d ≤ dd_max_uses d.
Proof.
  destruct (reachable_rates_ok typed w1 r1 s1 (λ c Hc, Hc) pay_setup_typed)
    as (Hcode & _ & Hroy & _).
  split; [apply Hroy|]. eexists. split; [vm_compute; reflexivity|].
  apply (Hcode "e1" "SPRING"). vm_compute. reflexivity.
Defined.

(** ** Sales *)
Lemma split_payment_correct_witness :
  ∃ platform organizer referral,
    Purchase.split_payment 1000 500 500 (Some 3000)
      = Ok (Purchase.MkSplit 998 platform organizer referral)
    ∧ platform + organizer + referral + 14 = 998.
Proof.
  destruct (split_payment_correct 1000 500 500 (Some 3000)) as (p & o & x & Hs & Hp & Hx & Ho & _);
    [unfold MAX_BPS, i128_max; cbn; lia..|].
  exists p, o, x. split; [exact Hs|]. subst. vm_compute. reflexivity.
Defined.

Definition sale_env : Env := env_at 64.
Abbreviation sale :=
  (Purchase.process_payment sale_env w1 r1 s1 "t2" "e1" "ga" "dave" None "usdc" 1000 1 referred
     "#other") (only parsing).
Abbreviation sale_result := (result ("", w1, r1, s1) sale) (only parsing).
Lemma sale_ok :
  sale = Ok (sale_result.1.1.1, sale_result.1.1.2, sale_result.1.2, sale_result.2).
Proof. apply result4_ok. vm_compute. reflexivity. Qed.

Lemma demo_fee_range ev :
  try_get_event r1 "e1" = Some ev → 0 ≤ Purchase.platform_fee_bps s1 ev ≤ MAX_BPS.
Proof.
  assert (Hb : match try_get_event r1 "e1" with
    | Some ev => (0 <=? Purchase.platform_fee_bps s1 ev)
                 && (Purchase.platform_fee_bps s1 ev <=? MAX_BPS)
    | None => true end = true) by (vm_compute; reflexivity).
  intros Hev. rewrite Hev in Hb. lia.
Qed.

Lemma sale_solvent_witness :
  0 ≤ owed sale_result.2 "e1" - owed s1 "e1"
    ≤ balance sale_result.1.1.2 "usdc" "payments" - balance w1 "usdc" "payments"
  ∧ owed sale_result.2 "e1" - owed s1 "e1" = 699
  ∧ balance sale_result.1.1.2 "usdc" "payments" - balance w1 "usdc" "payments" = 709.
Proof.
  split; [|split; vm_compute; reflexivity].
  refine (proj1 (sale_solvent sale_env w1 r1 s1 _ _ _ _ _ _ _ _ _ _ _ _ _ _ sale_ok _ _ _ _ _)).
  - vm_compute. discriminate.
  - vm_compute. discriminate.
  - lia.
  - exact demo_fee_range.
  - vm_compute. discriminate.
Defined.

Lemma code_hash_single_use_witness :
  is_ok (Purchase.process_payment sale_env w1 r1 sale_result.2 "t3" "e2" "ga" "erin" None "usdc"
           1000 1 (MkOptions (Some "free10") None None) "#x") = false.
Proof.
  eapply (code_hash_single_use _ _ _ _ _ _ _ _ _ _ _ _ _ _ _ _ _ _ []).
  - exact sale_ok.
  - by eexists.
  - reflexivity.
  - reflexivity.
Defined.

(** ** Bids, payouts, resale *)
Abbreviation bid :=
  (Tickets.place_bid (env_at 70) w1 r1 s1 "e1" "vip" "erin" "usdc" 150) (only parsing).
Abbreviation bid_result := (result (tt, w1, s1) bid) (only parsing).
Lemma bid_ok : bid = Ok (tt, bid_result.1.2, bid_result.2).
Proof.
  rewrite (result3_ok (tt, w1, s1) bid) at 1 by (vm_compute; reflexivity).
  by destruct (result (tt, w1, s1) bid).1.1.
Qed.

Definition no_bid : HighestBid := MkBid "" "" 0.
Definition standing (s : State) : HighestBid := default no_bid (storage.get_highest_bid s "e1" "vip").
Lemma standing_bid : storage.get_highest_bid s1 "e1" "vip" = Some (MkBid "dave" "usdc" 100).
Proof. vm_compute. reflexivity. Qed.

Lemma place_bid_correct_witness :
  bid_escrow bid_result.2 "usdc" - bid_escrow s1 "usdc" = 50
  ∧ balance bid_result.1.2 "usdc" "dave" = balance w1 "usdc" "dave" + 100.
Proof.
  destruct (place_bid_correct (env_at 70) w1 r1 s1 "e1" "vip" "erin" "usdc" 150 _ _ bid_ok)
    as (_ & _ & Hescrow & Hback).
  - discriminate.
  - intros p Hp. rewrite standing_bid in Hp. injection Hp as <-. discriminate.
  - split.
    + rewrite <- Hescrow. vm_compute. reflexivity.
    + apply (Hback _ standing_bid). discriminate.
Defined.

Abbreviation payout :=
  (Withdraw.withdraw_organizer_funds (env_at 100) w1 r1 s1 "e1" "usdc") (only parsing).
Abbreviation payout_result := (result (0, w1, s1) payout) (only parsing).


Abbreviation fees := (Withdraw.withdraw_platform_fees (env_at 100) w1 s1 30 "usdc") (only parsing).
Abbreviation fees_result := (result (tt, w1, s1) fees) (only parsing).
Lemma fees_ok : fees = Ok (tt, fees_result.1.2, fees_result.2).
Proof.
  rewrite (result3_ok (tt, w1, s1) fees) at 1 by (vm_compute; reflexivity).
  by destruct (result (tt, w1, s1) fees).1.1.
Qed.

Lemma withdraw_fees_correct_witness :
  storage.get_total_fees_collected_by_token fees_result.2 "usdc" = 20
  ∧ PlatformWallet s1 = Some "wallet".
Proof.
  destruct (withdraw_fees_correct (env_at 100) w1 s1 30 "usdc" _ _ fees_ok)
    as (admin & wallet & _ & _ & _ & _ & Hfees & _).
  split; [rewrite Hfees|]; vm_compute; reflexivity.
Defined.

Abbreviation resold :=
  (Tickets.purchase_resale_ticket (env_at 80) w1 r1 s1 "t1" "erin" 1300) (only parsing).
Abbreviation resold_result := (result (tt, w1, s1) resold) (only parsing).
Lemma resold_ok : resold = Ok (tt, resold_result.1.2, resold_result.2).
Proof.
  rewrite (result3_ok (tt, w1, s1) resold) at 1 by (vm_compute; reflexivity).
  by destruct (result (tt, w1, s1) resold).1.1.
Qed.


(** ** Governance *)
Definition gov_setup : list (Env * entry) :=
  [(env_at 10, Initialize "admin" "usdc" "wallet" "registry");
   (env_at 20, ProposeParameterChange "admin" (AddGovernor "gina"))].
Definition w2 : SimpleLedger := (outcome gov_setup).1.1.
Definition r2 : DemoRegistry := (outcome gov_setup).1.2.
Definition s2 : State := (outcome gov_setup).2.

Lemma gov_setup_reachable : reachable any_entry w2 r2 s2.
Proof. apply pay_outcome_reachable. vm_compute. reflexivity. Qed.

Lemma reachable_governors_exact_witness :
  storage.get_total_governors s2 = 1
  ∧ size (filter (λ ab, ab.2 = true) (Governor s2)) = 1%nat.
Proof.
  split; [vm_compute; reflexivity|]. apply Nat2Z.inj.
  rewrite <- (proj1 (reachable_governors_exact any_entry w2 r2 s2 gov_setup_reachable)).
  vm_compute. reflexivity.
Defined.

Abbreviation executed := (Gov.execute_proposal (env_at 172820) s2 "anyone" 1) (only parsing).
Abbreviation executed_result := (result (tt, s2) executed) (only parsing).
Lemma executed_ok : executed = Ok (tt, executed_result.2).
Proof.
  assert (Hok : is_ok executed = true) by (vm_compute; reflexivity).
  unfold result. by destruct (Gov.execute_proposal _ _ _ _) as [[[] s]| |].
Qed.


(** ** Prices *)
Definition dutch : DutchAuctionConfig := MkDutch 1000 100 100 200 true.
Definition curve : BondingCurveConfig := MkCurve 2000000 2 50 100.

Lemma dutch_price_correct_witness :
  ∃ p p', auction.current_dutch_price dutch 120 = Ok p ∧ auction.current_dutch_price dutch 170 = Ok p'
    ∧ 100 ≤ p' ≤ p ∧ p ≤ 1000.
Proof.
  destruct (dutch_price_correct (env_at 10) dutch 120 170) as (p & p' & Hp & Hp' & H1 & H2 & _);
    [vm_compute; reflexivity|unfold dutch, u64_max, i128_max; cbn; lia..|].
  exists p, p'. split; [exact Hp|split; [exact Hp'|split; [exact H1|exact H2]]].
Defined.

Definition s3 : State := auction.set_dutch_auction empty_state "e1" "vip" dutch.
Abbreviation committed :=
  (auction.commit_purchase (env_at 150) s3 "e1" "vip" "erin"
     (auction.build_commit_hash "pepper" "erin" 775) 100) (only parsing).
Abbreviation committed_result := (result (0, s3) committed) (only parsing).
Lemma committed_ok : committed = Ok (775, committed_result.2).
Proof. vm_compute. reflexivity. Qed.

Lemma commit_reveal_witness :
  ∃ q s, auction.reveal_purchase (env_at 160) committed_result.2 "e1" "vip" "erin" "pepper" 775
         = Ok (q, s) ∧ q ≤ 775.
Proof.
  destruct (commit_reveal (env_at 150) (env_at 160) s3 committed_result.2 committed_result.2
    "e1" "vip" "erin" "pepper" 100 dutch 775) as (q & s & Hr & _ & Hq & _).
  - split; unfold dutch, u64_max, i128_max; cbn; lia.
  - lia.
  - exact committed_ok.
  - vm_compute. reflexivity.
  - vm_compute. reflexivity.
  - reflexivity.
  - reflexivity.
  - cbn. lia.
  - exists q, s. split; [exact Hr|exact Hq].
Defined.

Lemma bonding_curve_price_correct_witness :
  ∃ p, bonding_curve.bonding_curve_price curve 3 = Ok p ∧ 50 ≤ p ≤ 250.
Proof.
  destruct (bonding_curve_price_correct curve 3 10 250) as (p & Hp & H1 & _);
    [vm_compute; reflexivity|cbn; lia|lia|vm_compute; reflexivity|].
  exists p. split; [exact Hp|exact H1].
Defined.

Lemma bonding_curve_split_witness :
  ∃ c1 c2, bonding_curve.bonding_curve_integral_cost curve 10 2 = Ok c1
    ∧ bonding_curve.bonding_curve_integral_cost curve 8 3 = Ok c2 ∧ c1 + c2 = 833.
Proof.
  destruct (bonding_curve_split curve 10 2 3 833) as (c1 & c2 & H1 & H2 & _ & _ & Hc);
    [vm_compute; reflexivity|cbn; lia|lia|lia|vm_compute; reflexivity|].
  exists c1, c2. split; [exact H1|split; [exact H2|symmetry; exact Hc]].
Defined.

(** ** Ticket payment: where the guarantees end

    Histories of the running instance on which the contract pays out money or
    tickets that belong to somebody else. *)

Definition buyer_of (s : State) (payment_id : string) : option Address :=
  py_buyer_address <$> storage.get_payment s payment_id.

(** The events of the demo registry after "e1" was completed. *)
Definition completed (r : DemoRegistry) : DemoRegistry :=
  alter (λ e, e ⟨ ev_is_active := false ⟩ ⟨ ev_status := EsInactive ⟩) "e1" r.

Definition two_events : list (Env * entry) :=
  [(env_at 10, Initialize "admin" "usdc" "wallet" "registry");
   (env_at 60, ProcessPayment "t1" "e1" "ga" "carol" None "usdc" 1000 1 plain "#secret");
   (env_at 61, ProcessPayment "t2" "e2" "ga" "dave" None "usdc" 1000 20 plain "#other")].

(** The dust sweep takes the money of other events: the organizer of "e1",
    whose share is 950 units and so below the dust threshold, completes the
    event and claims; the payout is the whole token balance of the contract
    less the fee of "e1", and what is left does not cover what the contract
    owes for "e2". *)
Theorem dust_sweep_drains :
  ∃ (w : SimpleLedger) (r : DemoRegistry) s n w' s',
    reachable any_entry w r s
    ∧ eb_organizer_amount (storage.get_event_balance s "e1") = 950
    ∧ Withdraw.claim_revenue (env_at 100) w r s "e1" "usdc" = Ok (n, w', s')
    ∧ n = 20900 ∧ balance w' "usdc" "payments" = 50 ∧ owed s' "e2" = 19950.
Proof.
  set (x := outcome two_events).
  set (d := (0, x.1.1, x.2)).
  exists x.1.1, (completed x.1.2), x.2.
  exists (result d (Withdraw.claim_revenue (env_at 100) x.1.1 (completed x.1.2) x.2 "e1" "usdc")).1.1,
    (result d (Withdraw.claim_revenue (env_at 100) x.1.1 (completed x.1.2) x.2 "e1" "usdc")).1.2,
    (result d (Withdraw.claim_revenue (env_at 100) x.1.1 (completed x.1.2) x.2 "e1" "usdc")).2.
  split; [|split; [vm_compute; reflexivity|split; [apply result3_ok; vm_compute; reflexivity|]]].
  - eapply reach_others, (pay_outcome_reachable any_entry two_events). vm_compute. reflexivity.
  - split; [|split]; vm_compute; reflexivity.
Qed.

Definition resale_then_transfer : list (Env * entry) :=
  [(env_at 10, Initialize "admin" "usdc" "wallet" "registry");
   (env_at 60, ProcessPayment "t1" "e1" "ga" "carol" None "usdc" 1000 1 plain "#secret");
   (env_at 61, ConfirmPayment "t1" "tx");
   (env_at 62, ListForResale "t1" 1200);
   (env_at 63, TransferTicket "t1" "dave" None)].

(** A stale listing takes the ticket from its new holder: "carol" lists her
    ticket, transfers it to "dave", and "erin" can still buy the listing; the
    price goes to "carol", and "dave" loses the ticket and receives nothing. *)
Theorem stale_listing_steals :
  ∃ (w : SimpleLedger) (r : DemoRegistry) s w' s',
    reachable any_entry w r s ∧ buyer_of s "t1" = Some "dave"
    ∧ Tickets.purchase_resale_ticket (env_at 64) w r s "t1" "erin" 1200 = Ok (tt, w', s')
    ∧ buyer_of s' "t1" = Some "erin"
    ∧ balance w' "usdc" "carol" = balance w "usdc" "carol" + 1140
    ∧ balance w' "usdc" "dave" = balance w "usdc" "dave".
Proof.
  set (x := outcome resale_then_transfer).
  set (y := result (tt, x.1.1, x.2)
              (Tickets.purchase_resale_ticket (env_at 64) x.1.1 x.1.2 x.2 "t1" "erin" 1200)).
  exists x.1.1, x.1.2, x.2, y.1.2, y.2.
  split; [apply (pay_outcome_reachable any_entry resale_then_transfer); vm_compute; reflexivity|].
  split; [vm_compute; reflexivity|split].
  - destruct y as [[[] w'] s'] eqn:E. cbn [fst snd]. rewrite <- E. unfold y.
    rewrite (result3_ok (tt, x.1.1, x.2) _) at 1 by (vm_compute; reflexivity).
    by rewrite <- surjective_pairing, <- surjective_pairing.
  - split; [|split]; vm_compute; reflexivity.
Qed.

Definition refund_twice : list (Env * entry) :=
  two_events
  ++ [(env_at 70, RequestGuestRefund "t1");
      (env_at 71, CheckIn "t1" "alice" "secret");
      (env_at 72, RequestGuestRefund "t1")].

(** A ticket can be refunded twice: check-in accepts a refunded ticket and
    makes it refundable again, so the buyer gets the price back a second time
    at the expense of the other payments. *)
Theorem refund_twice_pays :
  ∃ (w : SimpleLedger) (r : DemoRegistry) s,
    reachable any_entry w r s
    ∧ run_history ledger0 r0 empty_state refund_twice = Ok (w, r, s)
    ∧ balance ledger0 "usdc" "carol" = 100000 ∧ balance w "usdc" "carol" = 101000
    ∧ balance w "usdc" "payments" < owed s "e2".
Proof.
  set (x := outcome refund_twice). exists x.1.1, x.1.2, x.2.
  split; [apply (pay_outcome_reachable any_entry refund_twice); vm_compute; reflexivity|].
  split; [|split; [|split]]; vm_compute; reflexivity.
Qed.
