(* ===== verification/ProSub.v ===== *)
(** * Pro subscriptions: the whole contract

    [pro_subscription/src]: [types.rs], [error.rs], [events.rs],
    [storage.rs], [validation.rs] and every entry point of [contract.rs], and
    the contract as a state machine. *)

From S2P Require Import Prelude Machine Host.

(** ** [types.rs], [error.rs], [events.rs] *)
Definition SECONDS_PER_MONTH : Z := 30 * 24 * 60 * 60.

Inductive SubscriptionTier : Type := Basic | Pro.
#[export] Instance SubscriptionTier_eq_dec : EqDecision SubscriptionTier.
Proof. solve_decision. Defined.

Record Subscription : Type := MkSubscription {
  sub_organizer : Address;
  sub_tier : SubscriptionTier;
  sub_started_at : Z;
  sub_expires_at : Z;
  sub_is_active : bool;
  sub_amount_paid : Z;
  sub_payment_token : Address
}.
#[export] Instance eta_Subscription : Eta Subscription := λ s,
  MkSubscription (sub_organizer s) (sub_tier s) (sub_started_at s) (sub_expires_at s)
    (sub_is_active s) (sub_amount_paid s) (sub_payment_token s).

Inductive ProSubscriptionError : Type :=
| AlreadyInitialized | NotInitialized | Unauthorized | SubscriptionNotFound
| SubscriptionExpired | SubscriptionInactive | InvalidTier | InvalidPrice
| InsufficientPayment | ArithmeticError | TransferFailed | InvalidAddress
| SubscriptionAlreadyActive | AlreadyPro.

Inductive ProSubscriptionEvent : Type :=
| EvContractInitialized (admin platform_wallet payment_token : Address)
    (pro_monthly_price timestamp : Z)
| EvSubscriptionCreated (organizer : Address) (tier : SubscriptionTier)
    (amount_paid expires_at timestamp : Z)
| EvSubscriptionRenewed (organizer : Address) (amount_paid new_expiry timestamp : Z)
| EvSubscriptionCancelled (organizer cancelled_by : Address) (timestamp : Z)
| EvPriceUpdated (old_price new_price : Z) (updated_by : Address) (timestamp : Z)
| EvProMemberAdded (organizer : Address) (timestamp : Z)
| EvProMemberRemoved (organizer : Address) (timestamp : Z).

(** The storage: one field per variant of [DataKey]. *)
Record State : Type := MkState {
  Admin : option Address;
  Initialized : option bool;
  PlatformWallet : option Address;
  ProMonthlyPrice : option Z;
  Subscriptions : gmap string Subscription;
  ProMembersList : option (list Address);
  TotalProSubscriptions : option Z;
  PaymentToken : option Address;
  published : list ProSubscriptionEvent
}.
#[export] Instance eta_ProState : Eta State := λ s,
  MkState (Admin s) (Initialized s) (PlatformWallet s) (ProMonthlyPrice s) (Subscriptions s)
    (ProMembersList s) (TotalProSubscriptions s) (PaymentToken s) (published s).

Definition empty_state : State := MkState None None None None ∅ None None None [].
Definition emit (s : State) (e : ProSubscriptionEvent) : State :=
  s ⟨ published ::= λ l, l ++ [e] ⟩.
Abbreviation call A := (res ProSubscriptionError (A * State)).

(** ** [storage.rs] *)
Module storage.
Definition get_admin (s : State) : option Address := Admin s.
Definition set_admin (s : State) (admin : Address) : State := s ⟨ Admin := Some admin ⟩.
Definition is_initialized (s : State) : bool := default false (Initialized s).
Definition set_initialized (s : State) (b : bool) : State := s ⟨ Initialized := Some b ⟩.
Definition get_platform_wallet (s : State) : option Address := PlatformWallet s.
Definition set_platform_wallet (s : State) (wallet : Address) : State :=
  s ⟨ PlatformWallet := Some wallet ⟩.
Definition get_payment_token (s : State) : option Address := PaymentToken s.
Definition set_payment_token (s : State) (token : Address) : State :=
  s ⟨ PaymentToken := Some token ⟩.
Definition get_pro_monthly_price (s : State) : Z := default 0 (ProMonthlyPrice s).
Definition set_pro_monthly_price (s : State) (price : Z) : State :=
  s ⟨ ProMonthlyPrice := Some price ⟩.
Definition get_subscription (s : State) (organizer : Address) : option Subscription :=
  Subscriptions s !! organizer.
Definition set_subscription (s : State) (subscription : Subscription) : State :=
  s ⟨ Subscriptions ::= <[sub_organizer subscription := subscription]> ⟩.
Definition remove_subscription (s : State) (organizer : Address) : State :=
  s ⟨ Subscriptions ::= delete organizer ⟩.
Definition get_pro_members_list (s : State) : list Address := default [] (ProMembersList s).
Definition add_to_pro_members_list (s : State) (organizer : Address) : State :=
  let list := get_pro_members_list s in
  if bool_decide (organizer ∈ list) then s
  else s ⟨ ProMembersList := Some (list ++ [organizer]) ⟩.

(** The list without the first occurrence of an address. *)
Definition remove_from_pro_members_list (s : State) (organizer : Address) : State :=
  let list := get_pro_members_list s in
  match list_find (organizer =.) list with
  | Some (index, _) => s ⟨ ProMembersList := Some (delete index list) ⟩
  | None => s
  end.
Definition get_total_pro_subscriptions (s : State) : Z := default 0 (TotalProSubscriptions s).
Definition increment_total_pro_subscriptions (s : State) : res ProSubscriptionError State :=
  let! count := unwrap (checked_u32 (get_total_pro_subscriptions s + 1)) in
  Ok (s ⟨ TotalProSubscriptions := Some count ⟩).
Definition decrement_total_pro_subscriptions (s : State) : State :=
  s ⟨ TotalProSubscriptions := Some (sat_u32 (get_total_pro_subscriptions s - 1)) ⟩.
End storage.

(** ** [validation.rs] and the guards of [contract.rs] *)
Definition validate_address (env : Env) (addr : Address) : res ProSubscriptionError unit :=
  fail_if (bool_decide (addr = this env)) InvalidAddress.

Definition require_admin (env : Env) (s : State) : res ProSubscriptionError Address :=
  let! admin := ok_or (storage.get_admin s) NotInitialized in
  do! require_auth env admin in Ok admin.

(** ** The entry points of [contract.rs] *)
Definition initialize (env : Env) (s : State) (admin platform_wallet payment_token : Address)
    (pro_monthly_price : Z) : call unit :=
  do! fail_if (storage.is_initialized s) AlreadyInitialized in
  do! validate_address env admin in
  do! validate_address env platform_wallet in
  do! validate_address env payment_token in
  do! fail_if (pro_monthly_price <=? 0) InvalidPrice in
  let s := storage.set_admin s admin in
  let s := storage.set_platform_wallet s platform_wallet in
  let s := storage.set_payment_token s payment_token in
  let s := storage.set_pro_monthly_price s pro_monthly_price in
  let s := storage.set_initialized s true in
  Ok (tt, emit s (EvContractInitialized admin platform_wallet payment_token
                    pro_monthly_price (timestamp env))).

(** [subscription.is_active && subscription.expires_at > now] *)
Definition is_current (env : Env) (sub : Subscription) : bool :=
  sub_is_active sub && (timestamp env <? sub_expires_at sub).

Section Payments.
Context {W : Type} `{TokenLedger W}.

(** The price of [months] months, paid by the organizer to the platform's
    wallet: the part [subscribe_pro] and [renew_subscription] share. *)
Definition pay_months (w : W) (s : State) (organizer : Address) (months : Z)
    : res ProSubscriptionError (Z * Address * W) :=
  let! total_amount :=
    ok_or (checked_i128 (storage.get_pro_monthly_price s * months)) ArithmeticError in
  let! payment_token := ok_or (storage.get_payment_token s) NotInitialized in
  let! platform_wallet := ok_or (storage.get_platform_wallet s) NotInitialized in
  let! w := unwrap (transfer w payment_token organizer platform_wallet total_amount) in
  Ok (total_amount, payment_token, w).

(** [base.checked_add(SECONDS_PER_MONTH * months as u64)] *)
Definition add_months (base months : Z) : res ProSubscriptionError Z :=
  let! seconds := unwrap (checked_u64 (SECONDS_PER_MONTH * months)) in
  ok_or (checked_u64 (base + seconds)) ArithmeticError.

Definition subscribe_pro (env : Env) (w : W) (s : State) (organizer : Address) (months : Z)
    : res ProSubscriptionError (unit * W * State) :=
  do! fail_if (negb (storage.is_initialized s)) NotInitialized in
  do! require_auth env organizer in
  do! fail_if (months =? 0) InvalidPrice in
  do! fail_if (from_option (is_current env) false (storage.get_subscription s organizer))
        SubscriptionAlreadyActive in
  let! ' (total_amount, payment_token, w) := pay_months w s organizer months in
  let current_time := timestamp env in
  let! expires_at := add_months current_time months in
  let subscription :=
    MkSubscription organizer Pro current_time expires_at true total_amount payment_token in
  let s := storage.set_subscription s subscription in
  let s := storage.add_to_pro_members_list s organizer in
  let! s := storage.increment_total_pro_subscriptions s in
  let s := emit s (EvProMemberAdded organizer current_time) in
  Ok (tt, w, emit s (EvSubscriptionCreated organizer Pro total_amount expires_at current_time)).

Definition renew_subscription (env : Env) (w : W) (s : State) (organizer : Address) (months : Z)
    : res ProSubscriptionError (unit * W * State) :=
  do! fail_if (negb (storage.is_initialized s)) NotInitialized in
  do! require_auth env organizer in
  do! fail_if (months =? 0) InvalidPrice in
  let! subscription := ok_or (storage.get_subscription s organizer) SubscriptionNotFound in
  let! ' (total_amount, _, w) := pay_months w s organizer months in
  let current_time := timestamp env in
  let base_time := if sub_expires_at subscription <? current_time then current_time
                   else sub_expires_at subscription in
  let! new_expiry := add_months base_time months in
  let! amount_paid :=
    ok_or (checked_i128 (sub_amount_paid subscription + total_amount)) ArithmeticError in
  let subscription := subscription ⟨ sub_expires_at := new_expiry ⟩
                        ⟨ sub_is_active := true ⟩ ⟨ sub_amount_paid := amount_paid ⟩ in
  let s := storage.set_subscription s subscription in
  let s := storage.add_to_pro_members_list s organizer in
  let s := emit s (EvProMemberAdded organizer current_time) in
  Ok (tt, w, emit s (EvSubscriptionRenewed organizer total_amount new_expiry current_time)).
End Payments.

Definition cancel_subscription (env : Env) (s : State) (organizer : Address) : call unit :=
  let! admin := require_admin env s in
  let! subscription := ok_or (storage.get_subscription s organizer) SubscriptionNotFound in
  let s := storage.set_subscription s (subscription ⟨ sub_is_active := false ⟩) in
  let s := storage.remove_from_pro_members_list s organizer in
  let s := storage.decrement_total_pro_subscriptions s in
  let s := emit s (EvProMemberRemoved organizer (timestamp env)) in
  Ok (tt, emit s (EvSubscriptionCancelled organizer admin (timestamp env))).

Definition is_pro_member (env : Env) (s : State) (organizer : Address) : bool :=
  match storage.get_subscription s organizer with
  | Some subscription => is_current env subscription
  | None => false
  end.

Definition get_subscription_expiry (s : State) (organizer : Address) : option Z :=
  sub_expires_at <$> storage.get_subscription s organizer.
Definition get_pro_members (s : State) : list Address := storage.get_pro_members_list s.
Definition get_pro_members_count (s : State) : Z :=
  Z.of_nat (length (storage.get_pro_members_list s)).

Definition register_basic (env : Env) (s : State) (organizer : Address) : call unit :=
  do! fail_if (negb (storage.is_initialized s)) NotInitialized in
  do! require_auth env organizer in
  do! fail_if (match storage.get_subscription s organizer with
               | Some existing => bool_decide (sub_tier existing = Pro) && sub_is_active existing
               | None => false
               end) SubscriptionAlreadyActive in
  let subscription :=
    MkSubscription organizer Basic (timestamp env) 0 true 0
      (default (this env) (storage.get_payment_token s)) in
  Ok (tt, storage.set_subscription s subscription).

Definition update_pro_price (env : Env) (s : State) (new_price : Z) : call unit :=
  let! admin := require_admin env s in
  do! fail_if (new_price <=? 0) InvalidPrice in
  let old_price := storage.get_pro_monthly_price s in
  let s := storage.set_pro_monthly_price s new_price in
  Ok (tt, emit s (EvPriceUpdated old_price new_price admin (timestamp env))).

Definition update_admin (env : Env) (s : State) (new_admin : Address) : call unit :=
  do! require_admin env s in
  do! validate_address env new_admin in
  Ok (tt, storage.set_admin s new_admin).

Definition update_platform_wallet (env : Env) (s : State) (new_wallet : Address) : call unit :=
  do! require_admin env s in
  do! validate_address env new_wallet in
  Ok (tt, storage.set_platform_wallet s new_wallet).

Definition update_payment_token (env : Env) (s : State) (new_token : Address) : call unit :=
  do! require_admin env s in
  do! validate_address env new_token in
  Ok (tt, storage.set_payment_token s new_token).

(** ** The contract as a state machine *)
Inductive entry : Type :=
| Initialize (admin platform_wallet payment_token : Address) (pro_monthly_price : Z)
| SubscribePro (organizer : Address) (months : Z)
| RenewSubscription (organizer : Address) (months : Z)
| CancelSubscription (organizer : Address)
| RegisterBasic (organizer : Address)
| UpdateProPrice (new_price : Z)
| UpdateAdmin (new_admin : Address)
| UpdatePlatformWallet (new_wallet : Address)
| UpdatePaymentToken (new_token : Address).

Definition keep {W A} (w : W) (r : call A) : res ProSubscriptionError (W * State) :=
  let! ' (_, s) := r in Ok (w, s).

Definition invoke {W} `{TokenLedger W} (env : Env) (c : entry) (w : W) (s : State)
    : res ProSubscriptionError (W * State) :=
  match c with
  | Initialize a p t n => keep w (initialize env s a p t n)
  | SubscribePro o n => let! ' (_, w, s) := subscribe_pro env w s o n in Ok (w, s)
  | RenewSubscription o n => let! ' (_, w, s) := renew_subscription env w s o n in Ok (w, s)
  | CancelSubscription o => keep w (cancel_subscription env s o)
  | RegisterBasic o => keep w (register_basic env s o)
  | UpdateProPrice n => keep w (update_pro_price env s n)
  | UpdateAdmin a => keep w (update_admin env s a)
  | UpdatePlatformWallet a => keep w (update_platform_wallet env s a)
  | UpdatePaymentToken a => keep w (update_payment_token env s a)
  end.

(** Months are [u32]. *)
Definition typed (c : entry) : bool :=
  match c with
  | SubscribePro _ n | RenewSubscription _ n => in_u32 n
  | _ => true
  end.

(** [sub_steps hist w s w' s']: the invocations [hist], each with its own
    environment, lead from one state to the other; between them the token
    balances may change in any way. *)
Inductive sub_steps {W} `{TokenLedger W} : list (Env * entry) → W → State → W → State → Prop :=
| sub_steps_nil w s : sub_steps [] w s w s
| sub_steps_ledger w1 hist w s w' s' :
    sub_steps hist w1 s w' s' → sub_steps hist w s w' s'
| sub_steps_call env c w1 s1 hist w s w' s' :
    typed c = true → 0 ≤ timestamp env →
    invoke env c w s = Ok (w1, s1) → sub_steps hist w1 s1 w' s' →
    sub_steps ((env, c) :: hist) w s w' s'.

Definition sub_reachable {W} `{TokenLedger W} (w : W) (s : State) : Prop :=
  ∃ hist w0, sub_steps hist w0 empty_state w s.
