(* ===== verification/ProSpecs.v ===== *)
(** * Pro subscriptions: what the contract promises

    The members' list covers the members, membership is bought and only
    bought, and what is bought lasts. *)

From S2P Require Import Prelude Machine Host ProSub.

(** ** The storage functions on the members' list *)
Lemma add_member_list s o :
  storage.get_pro_members_list (storage.add_to_pro_members_list s o)
  = if bool_decide (o ∈ storage.get_pro_members_list s) then storage.get_pro_members_list s
    else storage.get_pro_members_list s ++ [o].
Proof. unfold storage.add_to_pro_members_list. by case_bool_decide. Qed.

Lemma add_member_subs s o :
  Subscriptions (storage.add_to_pro_members_list s o) = Subscriptions s.
Proof. unfold storage.add_to_pro_members_list. by case_bool_decide. Qed.

Lemma remove_member_list s o :
  NoDup (storage.get_pro_members_list s) →
  let l := storage.get_pro_members_list (storage.remove_from_pro_members_list s o) in
  NoDup l ∧ ∀ x, x ∈ l ↔ x ∈ storage.get_pro_members_list s ∧ x ≠ o.
Proof.
  intros Hn l. subst l. unfold storage.remove_from_pro_members_list.
  destruct (list_find _ _) as [[i y]|] eqn:Hf.
  - apply list_find_Some in Hf as (Hi & <- & _).
    change (storage.get_pro_members_list (_ ⟨ ProMembersList := Some ?l ⟩)) with l.
    set (l := storage.get_pro_members_list s) in *.
    pose proof (delete_Permutation _ _ _ Hi) as Hp.
    assert (Hc : NoDup (o :: delete i l)) by by rewrite <- Hp.
    apply NoDup_cons in Hc as [Hno Hnd]. split; [done|].
    intros x. assert (Hx : x ∈ l ↔ x ∈ o :: delete i l) by by rewrite <- Hp.
    rewrite Hx, elem_of_cons. naive_solver.
  - apply list_find_None in Hf. split; [done|]. intros x. split; [|naive_solver].
    intros Hx. split; [done|]. intros ->. rewrite Forall_forall in Hf. by apply (Hf o Hx).
Qed.

Lemma remove_member_subs s o :
  Subscriptions (storage.remove_from_pro_members_list s o) = Subscriptions s.
Proof. unfold storage.remove_from_pro_members_list. by destruct (list_find _ _) as [[]|]. Qed.

(** The configuration the payments read. *)
Definition config_view (s : State) :=
  (storage.is_initialized s, storage.get_pro_monthly_price s,
   Admin s, PlatformWallet s, PaymentToken s).

Lemma add_member_config s o : config_view (storage.add_to_pro_members_list s o) = config_view s.
Proof. unfold storage.add_to_pro_members_list. by case_bool_decide. Qed.

Lemma remove_member_config s o :
  config_view (storage.remove_from_pro_members_list s o) = config_view s.
Proof. unfold storage.remove_from_pro_members_list. by destruct (list_find _ _) as [[]|]. Qed.

(** Counting subscriptions changes nothing else. *)
Lemma increment_total_Ok s s' :
  storage.increment_total_pro_subscriptions s = Ok s' →
  ∃ n, s' = s ⟨ TotalProSubscriptions := Some n ⟩.
Proof. unfold storage.increment_total_pro_subscriptions. intros Hi. run Hi. by eexists. Qed.

(** ** The invariant *)
Record sub_inv (s : State) : Prop := {
  inv_keyed : ∀ o sub, Subscriptions s !! o = Some sub →
    sub_organizer sub = o ∧ 0 ≤ sub_amount_paid sub;
  inv_nodup : NoDup (storage.get_pro_members_list s);
  inv_listed : ∀ o, o ∈ storage.get_pro_members_list s →
    ∃ sub, Subscriptions s !! o = Some sub ∧ sub_is_active sub = true;
  inv_covers : ∀ o sub, Subscriptions s !! o = Some sub → sub_is_active sub = true →
    0 < sub_expires_at sub → o ∈ storage.get_pro_members_list s;
  inv_configured : storage.is_initialized s = true →
    0 < storage.get_pro_monthly_price s ∧ is_Some (Admin s)
    ∧ is_Some (PlatformWallet s) ∧ is_Some (PaymentToken s)
}.

Lemma sub_inv_empty : sub_inv empty_state.
Proof. split; cbn; [naive_solver|constructor|set_solver|naive_solver|done]. Qed.

(** Storing a record that the organizer's place in the list agrees with. *)
Lemma sub_inv_store s s' sub :
  sub_inv s → config_view s' = config_view s →
  let o := sub_organizer sub in let l := storage.get_pro_members_list s' in
  Subscriptions s' = <[o := sub]> (Subscriptions s) →
  NoDup l → (∀ x, x ≠ o → (x ∈ l ↔ x ∈ storage.get_pro_members_list s)) →
  (o ∈ l → sub_is_active sub = true) →
  (sub_is_active sub = true → 0 < sub_expires_at sub → o ∈ l) →
  0 ≤ sub_amount_paid sub →
  sub_inv s'.
Proof.
  intros [Hk Hn Hl Hc Hcf] Hv o l Hs Hnd Hx Ho Ho' Hp. split.
  - intros x sub'. rewrite Hs, lookup_insert. case_decide; [naive_solver|apply Hk].
  - exact Hnd.
  - intros x Hin. rewrite Hs, lookup_insert. case_decide; subst; [eauto|].
    apply Hl, Hx; [congruence|done].
  - intros x sub'. rewrite Hs, lookup_insert. case_decide; subst; [naive_solver|].
    intros ???. apply Hx; [congruence|]. eauto.
  - unfold config_view in Hv. injection Hv as -> -> -> -> ->. exact Hcf.
Qed.

(** A change of the configuration. *)
Lemma sub_inv_config s s' :
  sub_inv s → Subscriptions s' = Subscriptions s →
  storage.get_pro_members_list s' = storage.get_pro_members_list s →
  (storage.is_initialized s' = true →
    0 < storage.get_pro_monthly_price s' ∧ is_Some (Admin s')
    ∧ is_Some (PlatformWallet s') ∧ is_Some (PaymentToken s')) →
  sub_inv s'.
Proof. intros [Hk Hn Hl Hc _] Hs Hm Hcf. split; rewrite ?Hs, ?Hm; done. Qed.

(** The expiry on record, zero without one. *)
Definition expiry (s : State) (o : Address) : Z :=
  from_option sub_expires_at 0 (Subscriptions s !! o).

Section Contract.
Context {W : Type} `{TokenLaws W}.

(** ** One invocation

    What a successful invocation does to the record of one organizer. *)
Inductive sub_change (env : Env) (c : entry) (w w' : W) (s s' : State) (o : Address) : Prop :=
| change_none : Subscriptions s' !! o = Subscriptions s !! o → sub_change env c w w' s s' o
| change_paid months token wallet base sub' :
    storage.is_initialized s = true → authorized env o = true → 0 < months →
    PaymentToken s = Some token → PlatformWallet s = Some wallet →
    moved w w' token o wallet (storage.get_pro_monthly_price s * months) →
    timestamp env ≤ base ≤ Z.max (timestamp env) (expiry s o) →
    (∀ sub, Subscriptions s !! o = Some sub → sub_is_active sub = true → expiry s o ≤ base) →
    Subscriptions s' !! o = Some sub' → sub_is_active sub' = true →
    sub_expires_at sub' = base + SECONDS_PER_MONTH * months →
    (from_option sub_tier Pro (Subscriptions s !! o) = Pro → sub_tier sub' = Pro) →
    sub_change env c w w' s s' o
| change_cancelled admin sub :
    c = CancelSubscription o →
    Admin s = Some admin → authorized env admin = true →
    Subscriptions s !! o = Some sub →
    Subscriptions s' !! o = Some (sub ⟨ sub_is_active := false ⟩) →
    sub_change env c w w' s s' o
| change_basic sub' :
    authorized env o = true →
    (∀ sub, Subscriptions s !! o = Some sub → sub_tier sub = Pro → sub_is_active sub = false) →
    Subscriptions s' !! o = Some sub' → sub_expires_at sub' = 0 →
    sub_change env c w w' s s' o.

Lemma pay_months_Ok (w w' : W) s o months total token :
  pay_months w s o months = Ok (total, token, w') →
  total = storage.get_pro_monthly_price s * months ∧ PaymentToken s = Some token
  ∧ ∃ wallet, PlatformWallet s = Some wallet ∧ 0 ≤ total ∧ moved w w' token o wallet total.
Proof.
  unfold pay_months. intros Hp. run_split Hp. simplify_eq.
  apply checked_i128_Some in E as [-> _]. apply transfer_moves in E2 as (? & ? & ?).
  split_and!; eauto.
Qed.

Lemma add_months_Ok base months e :
  add_months base months = Ok e → e = base + SECONDS_PER_MONTH * months.
Proof.
  unfold add_months. intros Ha. run Ha. apply checked_u64_Some in E as [-> _].
  by apply checked_u64_Some in Ha as [-> _].
Qed.

Lemma subscribe_Ok env (w w' : W) s s' o months :
  subscribe_pro env w s o months = Ok (tt, w', s') →
  storage.is_initialized s = true ∧ authorized env o = true ∧ months ≠ 0
  ∧ (∀ sub, Subscriptions s !! o = Some sub → sub_is_active sub = true →
       sub_expires_at sub ≤ timestamp env)
  ∧ ∃ token wallet sub',
      let total := storage.get_pro_monthly_price s * months in
      PaymentToken s = Some token ∧ PlatformWallet s = Some wallet
      ∧ 0 ≤ total ∧ moved w w' token o wallet total
      ∧ sub' = MkSubscription o Pro (timestamp env)
                 (timestamp env + SECONDS_PER_MONTH * months) true total token
      ∧ Subscriptions s' = <[o := sub']> (Subscriptions s)
      ∧ storage.get_pro_members_list s'
        = storage.get_pro_members_list (storage.add_to_pro_members_list s o)
      ∧ config_view s' = config_view s.
Proof.
  unfold subscribe_pro. intros Hs. run Hs. auths. destruct x3 as [[total token] w1].
  run Hs. apply pay_months_Ok in E3 as (-> & Ht & wallet & Hw & Hp & Hm).
  apply add_months_Ok in E4 as ->. apply increment_total_Ok in E5 as [n ->].
  split_and!; [done|done|lia| |].
  - intros sub Hsub Hact. unfold storage.get_subscription in E2. rewrite Hsub in E2. cbn in E2.
    unfold is_current in E2. rewrite Hact in E2. cbn in E2. lia.
  - exists token, wallet. eexists. split_and!; [done..|reflexivity| | |].
    + refine (eq_trans (add_member_subs _ _) _). reflexivity.
    + refine (eq_trans (add_member_list _ _) _). rewrite add_member_list. reflexivity.
    + refine (eq_trans (add_member_config _ _) _). reflexivity.
Qed.

Lemma renew_Ok env (w w' : W) s s' o months :
  sub_inv s → renew_subscription env w s o months = Ok (tt, w', s') →
  storage.is_initialized s = true ∧ authorized env o = true ∧ months ≠ 0
  ∧ ∃ sub token wallet sub',
      let total := storage.get_pro_monthly_price s * months in
      Subscriptions s !! o = Some sub
      ∧ PaymentToken s = Some token ∧ PlatformWallet s = Some wallet
      ∧ 0 ≤ total ∧ moved w w' token o wallet total
      ∧ sub' = MkSubscription o (sub_tier sub) (sub_started_at sub)
                 (Z.max (timestamp env) (sub_expires_at sub) + SECONDS_PER_MONTH * months)
                 true (sub_amount_paid sub + total) (sub_payment_token sub)
      ∧ Subscriptions s' = <[o := sub']> (Subscriptions s)
      ∧ storage.get_pro_members_list s'
        = storage.get_pro_members_list (storage.add_to_pro_members_list s o)
      ∧ config_view s' = config_view s.
Proof.
  intros Hinv. unfold renew_subscription. intros Hs. run Hs. auths. destruct x3 as [[total token] w1].
  run Hs. apply pay_months_Ok in E3 as (-> & Ht & wallet & Hw & Hp & Hm).
  apply add_months_Ok in E4 as ->. apply checked_i128_Some in E5 as [-> _].
  destruct (inv_keyed _ Hinv _ _ E2) as [Ho _].
  split_and!; [done|done|lia|].
  exists x2, token, wallet. eexists. split_and!; [done..|reflexivity| | |].
  - refine (eq_trans (add_member_subs _ _) _). cbn. rewrite Ho. f_equal.
    change (upd ?f _ _) with (MkSubscription (sub_organizer x2) (sub_tier x2) (sub_started_at x2)
      ((if sub_expires_at x2 <? timestamp env then timestamp env else sub_expires_at x2)
       + SECONDS_PER_MONTH * months) true
      (sub_amount_paid x2 + storage.get_pro_monthly_price s * months) (sub_payment_token x2)).
    rewrite Ho. do 2 f_equal. destruct (_ <? _) eqn:?; lia.
  - refine (eq_trans (add_member_list _ _) _). rewrite add_member_list. reflexivity.
  - refine (eq_trans (add_member_config _ _) _). reflexivity.
Qed.

Lemma cancel_Ok env s s' o :
  sub_inv s → cancel_subscription env s o = Ok (tt, s') →
  ∃ admin sub, Admin s = Some admin ∧ authorized env admin = true
    ∧ Subscriptions s !! o = Some sub
    ∧ Subscriptions s' = <[o := sub ⟨ sub_is_active := false ⟩]> (Subscriptions s)
    ∧ storage.get_pro_members_list s'
      = storage.get_pro_members_list (storage.remove_from_pro_members_list s o)
    ∧ config_view s' = config_view s.
Proof.
  intros Hinv. unfold cancel_subscription, require_admin. intros Hs. run Hs. auths.
  destruct (inv_keyed _ Hinv _ _ E) as [Ho _].
  eexists _, _. split_and!; [done..| | |].
  - refine (eq_trans (remove_member_subs _ _) _). cbn. by rewrite Ho.
  - change (storage.get_pro_members_list (storage.remove_from_pro_members_list
      (storage.set_subscription s (x0 ⟨ sub_is_active := false ⟩)) o)
      = storage.get_pro_members_list (storage.remove_from_pro_members_list s o)).
    unfold storage.remove_from_pro_members_list.
    change (storage.get_pro_members_list (storage.set_subscription s _))
      with (storage.get_pro_members_list s).
    by destruct (list_find _ _) as [[]|].
  - refine (eq_trans (remove_member_config _ _) _). reflexivity.
Qed.

Lemma register_basic_Ok env s s' o :
  register_basic env s o = Ok (tt, s') →
  ∃ token, storage.is_initialized s = true ∧ authorized env o = true
    ∧ (∀ sub, Subscriptions s !! o = Some sub → sub_tier sub = Pro → sub_is_active sub = false)
    ∧ s' = storage.set_subscription s
             (MkSubscription o Basic (timestamp env) 0 true 0 token).
Proof.
  unfold register_basic. intros Hs. run Hs. auths. eexists. split_and!; [done..| |reflexivity].
  intros sub Hsub Ht. unfold storage.get_subscription in E1. rewrite Hsub in E1.
  rewrite bool_decide_true in E1 by done. done.
Qed.

(** A paid record keeps the invariant. *)
Lemma sub_inv_paid s s' sub :
  sub_inv s → config_view s' = config_view s →
  let o := sub_organizer sub in
  Subscriptions s' = <[o := sub]> (Subscriptions s) →
  storage.get_pro_members_list s'
    = storage.get_pro_members_list (storage.add_to_pro_members_list s o) →
  sub_is_active sub = true → 0 ≤ sub_amount_paid sub → sub_inv s'.
Proof.
  intros Hinv Hv o Hs Hl Ha Hp. pose proof (inv_nodup _ Hinv) as Hn.
  assert (Hin : ∀ x, x ∈ storage.get_pro_members_list s' ↔
    x ∈ storage.get_pro_members_list s ∨ x = o).
  { intros x. rewrite Hl, add_member_list. case_bool_decide; [set_solver|].
    rewrite elem_of_app, list_elem_of_singleton. done. }
  apply (sub_inv_store s s' sub); [done..| | |done| |done].
  - rewrite Hl, add_member_list. case_bool_decide; [done|].
    apply NoDup_app. split_and!; [done|set_solver|apply NoDup_singleton].
  - intros x Hx. rewrite Hin. naive_solver.
  - intros _ _. apply Hin. by right.
Qed.

(** Every entry point preserves the invariant. *)
Lemma invoke_sub_inv env c (w w' : W) s s' :
  sub_inv s → invoke env c w s = Ok (w', s') → sub_inv s'.
Proof.
  intros Hinv Hi. destruct c; cbn [invoke] in Hi; unfold keep in Hi;
    apply rbind_Ok in Hi as (r & Hr & Hi).
  - destruct r as [u s1]. simplify_eq. unfold initialize, validate_address in Hr. run Hr.
    apply (sub_inv_config s); [done..|]. intros _. cbn. split_and!; [lia|done..].
  - destruct r as [[[] w1] s1]. simplify_eq.
    apply subscribe_Ok in Hr as (? & ? & ? & _ & ? & ? & sub & ? & ? & ? & ? & Hsub & ? & ? & ?).
    apply (sub_inv_paid s s' sub); by subst sub.
  - destruct r as [[[] w1] s1]. simplify_eq.
    apply renew_Ok in Hr as (? & ? & ? & sub0 & ? & ? & sub & Hs & ? & ? & ? & ? & Hsub & ? & ? & ?); [|done].
    destruct (inv_keyed _ Hinv _ _ Hs). apply (sub_inv_paid s s' sub); subst sub; [done..|cbn; lia].
  - destruct r as [[] s1]. simplify_eq.
    apply cancel_Ok in Hr as (? & sub & ? & ? & Hs & Hs' & Hl & ?); [|done].
    destruct (inv_keyed _ Hinv _ _ Hs) as [Ho ?].
    destruct (remove_member_list s organizer (inv_nodup _ Hinv)) as [Hn Hin].
    eapply (sub_inv_store s s' (sub ⟨ sub_is_active := false ⟩)); cbn; rewrite ?Ho, ?Hl;
      [done|done|done|done|intros; rewrite Hin; naive_solver|rewrite Hin; naive_solver|done|done].
  - destruct r as [[] s1]. simplify_eq. apply register_basic_Ok in Hr as (? & ? & ? & Hb & ->).
    eapply (sub_inv_store s); [done|reflexivity|reflexivity|apply Hinv|done| |cbn; lia|done].
    intros [sub [Hs Ha]]%(inv_listed _ Hinv). done.
  - destruct r as [[] s1]. simplify_eq. unfold update_pro_price, require_admin in Hr. run Hr.
    apply (sub_inv_config s); [done..|]. intros [? ?]%(inv_configured _ Hinv). cbn. split; [lia|done].
  - destruct r as [[] s1]. simplify_eq. unfold update_admin, require_admin in Hr. run Hr.
    apply (sub_inv_config s); [done..|]. intros ?%(inv_configured _ Hinv). cbn. naive_solver.
  - destruct r as [[] s1]. simplify_eq. unfold update_platform_wallet, require_admin in Hr. run Hr.
    apply (sub_inv_config s); [done..|]. intros ?%(inv_configured _ Hinv). cbn. naive_solver.
  - destruct r as [[] s1]. simplify_eq. unfold update_payment_token, require_admin in Hr. run Hr.
    apply (sub_inv_config s); [done..|]. intros ?%(inv_configured _ Hinv). cbn. naive_solver.
Qed.

Lemma sub_steps_inv hist (w w' : W) s s' :
  sub_inv s → sub_steps hist w s w' s' → sub_inv s'.
Proof. intros Hinv Hs. induction Hs; eauto using invoke_sub_inv. Qed.

Lemma sub_reachable_inv (w : W) s : sub_reachable w s → sub_inv s.
Proof. intros (hist & w0 & Hs). eapply sub_steps_inv; [apply sub_inv_empty|exact Hs]. Qed.

(** Every invocation changes the record of an organizer in one of these ways. *)
Lemma invoke_sub_change env c (w w' : W) s s' o :
  sub_inv s → typed c = true → invoke env c w s = Ok (w', s') → sub_change env c w w' s s' o.
Proof.
  intros Hinv Ht Hi. destruct c; cbn [invoke] in Hi; unfold keep in Hi;
    apply rbind_Ok in Hi as (r & Hr & Hi).
  - destruct r as [u s1]. simplify_eq. unfold initialize, validate_address in Hr. run Hr.
    by apply change_none.
  - destruct r as [[[] w1] s1]. simplify_eq. cbn in Ht. apply in_u32_spec in Ht.
    apply subscribe_Ok in Hr
      as (? & ? & ? & Hex & token & wallet & sub & Htok & Hw & Hp & Hm & Hsub & Hs & _).
    destruct (decide (o = organizer)) as [->|]; [|apply change_none; by rewrite Hs, lookup_insert_ne].
    apply (change_paid _ _ _ _ _ _ _ months token wallet (timestamp env) sub); subst sub; try done; try lia.
    + intros sub Hs0 Ha. unfold expiry. rewrite Hs0. by apply Hex.
    + by rewrite Hs, lookup_insert_eq.
  - destruct r as [[[] w1] s1]. simplify_eq. cbn in Ht. apply in_u32_spec in Ht.
    apply renew_Ok in Hr
      as (? & ? & ? & sub0 & token & wallet & sub & Hs0 & Htok & Hw & Hp & Hm & Hsub & Hs & _); [|done].
    destruct (decide (o = organizer)) as [->|]; [|apply change_none; by rewrite Hs, lookup_insert_ne].
    apply (change_paid _ _ _ _ _ _ _ months token wallet
             (Z.max (timestamp env) (expiry s organizer)) sub); subst sub; try done; try lia.
    + by rewrite Hs, lookup_insert_eq.
    + cbn. unfold expiry. by rewrite Hs0.
    + cbn. by rewrite Hs0.
  - destruct r as [[] s1]. simplify_eq.
    apply cancel_Ok in Hr as (admin & sub & ? & ? & Hs & Hs' & _); [|done].
    destruct (decide (o = organizer)) as [->|]; [|apply change_none; by rewrite Hs', lookup_insert_ne].
    apply (change_cancelled _ _ _ _ _ _ _ admin sub); try done. by rewrite Hs', lookup_insert_eq.
  - destruct r as [[] s1]. simplify_eq. apply register_basic_Ok in Hr as (? & ? & ? & Hb & ->).
    destruct (decide (o = organizer)) as [->|];
      [|apply change_none; cbn; by rewrite lookup_insert_ne].
    eapply change_basic; [done|done|cbn; by rewrite lookup_insert_eq|done].
  - destruct r as [[] s1]. simplify_eq. unfold update_pro_price, require_admin in Hr. run Hr.
    by apply change_none.
  - destruct r as [[] s1]. simplify_eq. unfold update_admin, require_admin in Hr. run Hr.
    by apply change_none.
  - destruct r as [[] s1]. simplify_eq. unfold update_platform_wallet, require_admin in Hr. run Hr.
    by apply change_none.
  - destruct r as [[] s1]. simplify_eq. unfold update_payment_token, require_admin in Hr. run Hr.
    by apply change_none.
Qed.

(** ** The members' list *)

(** The members' list covers the members: in every reachable state it has
    no duplicates, everybody who is a pro member at any time is on it, and
    everybody on it has a subscription that was not cancelled. *)
Theorem reachable_members_list (w : W) s :
  sub_reachable w s →
  NoDup (get_pro_members s)
  ∧ get_pro_members_count s = Z.of_nat (size (list_to_set (get_pro_members s) : gset string))
  ∧ (∀ env o, 0 ≤ timestamp env → is_pro_member env s o = true → o ∈ get_pro_members s)
  ∧ (∀ o, o ∈ get_pro_members s →
       ∃ sub, storage.get_subscription s o = Some sub ∧ sub_is_active sub = true).
Proof.
  intros Hinv%sub_reachable_inv. pose proof (inv_nodup _ Hinv) as Hn. split_and!.
  - exact Hn.
  - unfold get_pro_members_count, get_pro_members. by rewrite size_list_to_set.
  - intros env o Ht Hp. unfold is_pro_member, storage.get_subscription in Hp.
    destruct (Subscriptions s !! o) as [sub|] eqn:Hs; [|done].
    unfold is_current in Hp. bool_props. eapply inv_covers; [done..|lia].
  - exact (inv_listed _ Hinv).
Qed.

(** ** Membership is bought *)

(** C40. Membership is bought and only bought: an invocation after which an
    organizer is a pro member at a time at which it would not have been one
    was signed by that organizer, moved a positive amount, the monthly price
    for a whole number of months, from the organizer to the platform's
    wallet, and the membership ends that many months after the later of the
    present and the previous expiry at the latest. *)
Theorem pro_only_by_paying env c (w w' : W) s s' o env' :
  sub_reachable w s → typed c = true → invoke env c w s = Ok (w', s') →
  0 ≤ timestamp env' →
  is_pro_member env' s o = false → is_pro_member env' s' o = true →
  ∃ months token wallet,
    let price := storage.get_pro_monthly_price s * months in
    0 < months ∧ authorized env o = true
    ∧ PaymentToken s = Some token ∧ PlatformWallet s = Some wallet
    ∧ 0 < price ∧ moved w w' token o wallet price
    ∧ timestamp env'
      < Z.max (timestamp env) (default 0 (get_subscription_expiry s o)) + SECONDS_PER_MONTH * months.
Proof.
  intros Hr Ht Hi Hpos Hb Ha. pose proof (sub_reachable_inv _ _ Hr) as Hinv.
  unfold is_pro_member, storage.get_subscription in Hb, Ha.
  destruct (invoke_sub_change _ _ _ _ _ _ o Hinv Ht Hi)
    as [Hs|months token wallet base sub' Hini Hau Hm Htok Hw Hmv Hbase _ Hs Hact Hexp _|admin sub _ _ _ _ Hs
       |sub' _ _ Hs He]; rewrite Hs in Ha.
  - by rewrite Ha in Hb.
  - destruct (inv_configured _ Hinv Hini) as [Hprice _].
    exists months, token, wallet. cbv zeta. split_and!; [done..|nia|done|].
    unfold is_current in Ha. bool_props. unfold expiry in *.
    unfold get_subscription_expiry, storage.get_subscription.
    destruct (Subscriptions s !! o); cbn in *; lia.
  - done.
  - unfold is_current in Ha. bool_props. lia.
Qed.

(** ** What is bought lasts *)
Definition cancels (o : Address) (c : entry) : bool :=
  match c with CancelSubscription o' => bool_decide (o' = o) | _ => false end.

(** A pro membership up to [t] that nobody cancelled. *)
Definition pro_until (s : State) (o : Address) (t : Z) : Prop :=
  ∃ sub, Subscriptions s !! o = Some sub ∧ sub_tier sub = Pro ∧ sub_is_active sub = true
    ∧ t ≤ sub_expires_at sub.

Lemma pro_until_step env c (w w' : W) s s' o t :
  sub_inv s → typed c = true → cancels o c = false → invoke env c w s = Ok (w', s') →
  pro_until s o t → pro_until s' o t.
Proof.
  intros Hinv Ht Hc Hi (sub & Hs & Hp & Ha & He).
  destruct (invoke_sub_change _ _ _ _ _ _ o Hinv Ht Hi)
    as [Hs'|months ? ? base sub' _ _ Hm _ _ _ _ Hb Hs' Ha' He' Ht'|? ? -> _ _ _ _|sub' _ Hb _ _].
  - exists sub. by rewrite Hs'.
  - exists sub'. specialize (Hb sub Hs Ha). unfold expiry in Hb. rewrite Hs in Hb, Ht'. cbn in Hb, Ht'.
    unfold SECONDS_PER_MONTH in He'. split_and!; [done|auto|done|lia].
  - cbn in Hc. by rewrite bool_decide_true in Hc.
  - specialize (Hb sub Hs Hp). congruence.
Qed.

Lemma pro_until_steps hist (w w' : W) s s' o t :
  sub_steps hist w s w' s' → sub_inv s →
  forallb (λ ec, negb (cancels o ec.2)) hist = true → pro_until s o t → pro_until s' o t.
Proof.
  induction 1 as [|?????? _ IH|env c w1 s1 hist w s w' s' Hty Hts Hi _ IH]; [done|auto|].
  intros Hinv Hc Hp. cbn in Hc. bool_props. apply IH; [by eapply invoke_sub_inv|done|].
  by eapply pro_until_step.
Qed.

(** Nobody but the administrator takes a membership away before it ends. *)
Lemma membership_lasts hist env (w w1 w2 : W) s s1 s2 o months :
  sub_reachable w s → subscribe_pro env w s o months = Ok (tt, w1, s1) →
  sub_steps hist w1 s1 w2 s2 → forallb (λ ec, negb (cancels o ec.2)) hist = true →
  ∀ env', timestamp env' < timestamp env + SECONDS_PER_MONTH * months →
    is_pro_member env' s2 o = true.
Proof.
  intros Hr Hsub Hst Hc env' Ht.
  assert (Hinv : sub_inv s1).
  { eapply (invoke_sub_inv env (SubscribePro o months)); [by eapply sub_reachable_inv|].
    cbn [invoke]. by rewrite Hsub. }
  apply subscribe_Ok in Hsub as (_ & _ & _ & _ & token & wallet & sub & _ & _ & _ & _ & Hsub & Hs & _).
  assert (Hp : pro_until s1 o (timestamp env + SECONDS_PER_MONTH * months)).
  { exists sub. rewrite Hs, lookup_insert_eq. by subst sub. }
  apply (pro_until_steps _ _ _ _ _ _ _ Hst Hinv Hc) in Hp as (sub' & Hs' & _ & Ha & He).
  unfold is_pro_member, storage.get_subscription. rewrite Hs'. unfold is_current. rewrite Ha.
  cbn. lia.
Qed.
End Contract.
