(* ===== verification/ProExamples.v ===== *)
(** * Subscriptions: the two contracts together, and examples

    [pro_subscription] answers the question [is_pro_member] that
    [ticket_payment] asks when it fixes the platform fee of a sale; then the
    theorems applied to concrete histories, and histories that show where the
    guarantees end. *)

From S2P Require Import Prelude Machine Host ProSub ProSpecs.
From S2P Require Import PayTypes PayStorage PayPurchase PayRefund PayWithdraw PayTransfer.
From S2P Require Import PayGovernance PaySystem PayFrames PaySpecs PayExamples.

(** The subscription contract in state [ps] at address [addr], as the payment
    contract sees it at the time of [env]; a call to any other address fails. *)
Definition answers (addr : Address) (env : Env) (ps : ProSub.State) : ProSubscriptionInterface :=
  λ a o, if bool_decide (a = addr) then Some (ProSub.is_pro_member env ps o) else None.

(** A sale without fee leaves everything to the organizer. *)
Lemma split_without_fee e l rate :
  0 ≤ e ≤ i128_max → Purchase.split_payment e 0 l rate = Ok (Purchase.MkSplit e 0 e 0).
Proof.
  intros He. unfold Purchase.split_payment.
  assert (H0 : ∀ x, mul_div 0 x MAX_BPS = Some 0).
  { intros x. unfold mul_div. rewrite Z.mul_0_l. reflexivity. }
  assert (He0 : mul_div e 0 MAX_BPS = Some 0) by (unfold mul_div; by rewrite Z.mul_0_r).
  rewrite He0. cbn [ok_or rbind].
  assert (i128_min ≤ 0) by (unfold i128_min; lia).
  destruct (0 <? l); rewrite ?H0; cbn [ok_or rbind]; rewrite ?Z.sub_0_r;
    rewrite (checked_i128_id 0) by lia; cbn [ok_or rbind];
    rewrite (checked_i128_id e) by lia; cbn [ok_or rbind]; rewrite ?Z.sub_0_r;
    rewrite (checked_i128_id e) by lia; cbn [ok_or rbind];
    (destruct rate as [x|]; cbn [rbind]; [rewrite H0; cbn [ok_or rbind]; change (Z.min 0 0) with 0;
      rewrite ?Z.sub_0_r;
      rewrite (checked_i128_id 0) by lia; cbn [ok_or rbind]|]).
  all: rewrite ?(Z.min_l 0 e) by lia; rewrite ?Z.sub_0_r, (checked_i128_id e) by lia; reflexivity.
Qed.

(** What a subscription buys: an organizer who subscribed for some months
    pays no platform fee on any sale within them, and receives the whole
    price, whatever happened to the subscription contract in between short of
    the administrator cancelling that subscription, provided the payment
    contract knows the subscription contract's address. *)
Theorem subscription_waives_fee {W} `{TokenLaws W} hist env env' (w w1 w2 : W) ps ps1 ps2
    organizer months addr (s : State) ev amount loyalty rate :
  sub_reachable w ps → subscribe_pro env w ps organizer months = Ok (tt, w1, ps1) →
  sub_steps hist w1 ps1 w2 ps2 → forallb (λ ec, negb (cancels organizer ec.2)) hist = true →
  timestamp env' < timestamp env + SECONDS_PER_MONTH * months →
  storage.get_pro_subscription_contract s = Some addr →
  ev_organizer_address ev = organizer → 0 ≤ amount ≤ i128_max →
  let fee_bps := @Purchase.platform_fee_bps (answers addr env' ps2) s ev in
  Purchase.split_payment amount fee_bps loyalty rate = Ok (Purchase.MkSplit amount 0 amount 0).
Proof.
  intros Hr Hsub Hst Hc Ht Ha Ho He fee_bps.
  assert (fee_bps = 0) as ->; [|by apply split_without_fee].
  unfold fee_bps, Purchase.platform_fee_bps, try_is_pro_member, answers.
  rewrite Ha, Ho, bool_decide_true by done. cbn [default from_option].
  by rewrite (membership_lasts _ _ _ _ _ _ _ _ _ _ Hr Hsub Hst Hc).
Qed.

Section Unreachable.
Context {W R : Type} `{TokenLedger W} `{EventRegistryInterface R}
  `{PriceOracleInterface} `{ProSubscriptionInterface} `{HostCrypto}.

Lemma process_payment_pro env (w : W) (r : R) s p i t b o k a q opts h x w' r' s' :
  Purchase.process_payment env w r s p i t b o k a q opts h = Ok (x, w', r', s') →
  ProSubscriptionContract s' = ProSubscriptionContract s.
Proof.
  unfold Purchase.process_payment, Purchase.apply_event_code. open_accounts. intros Hc.
  run_all. simplify_eq. all: open_switch; repeat case_match; same ProSubscriptionContract.
Qed.

Lemma invoke_pro_frame env c (w : W) (r : R) s w' r' s' :
  invoke env c w r s = Ok (w', r', s') →
  ProSubscriptionContract s' = ProSubscriptionContract s.
Proof.
  intros Hi. destruct c; open_call Hi.
  all: try (by eapply process_payment_pro).
  all: try (by batch_frames ProSubscriptionContract; exact Hi).
  all: open_handler Hi; open_accounts.
  all: try (run_all; repeat case_match; simplify_eq; same ProSubscriptionContract).
  run Hi. unfold Gov.apply_change, storage.set_slippage_bps in *.
  case_match; run_all; same ProSubscriptionContract.
Qed.

(** The waiver is never granted as deployed: no entry point of the payment
    contract stores the address of the subscription contract, so in every
    reachable state a sale is charged the event's fee, whatever the
    subscription contract would answer. *)
Theorem waiver_unreachable allow (w : W) (r : R) s ev :
  reachable allow w r s →
  Purchase.platform_fee_bps s ev
  = default (ev_platform_fee_percent ev) (ev_custom_fee_bps ev).
Proof.
  intros Hr. unfold Purchase.platform_fee_bps.
  assert (Hn : ProSubscriptionContract s = None).
  { revert w r s Hr. apply reachable_invariant; [done|].
    intros env c w r s w' r' s' _ Hs Hi. by rewrite (invoke_pro_frame _ _ _ _ _ _ _ _ Hi). }
  unfold storage.get_pro_subscription_contract. by rewrite Hn.
Qed.
End Unreachable.

(** ** Histories *)
Definition pro_env (now : Z) : Env := MkEnv now "pro" (λ a, negb (bool_decide (a = "pro"))).
Definition pro_ledger : SimpleLedger :=
  MkLedger (list_to_map [(("usdc", "alice"), 1000); (("usdc", "bob"), 1000)]) ∅.

(** Runs a history of the subscription contract. *)
Definition pro_run (hist : list (Env * ProSub.entry)) (x : SimpleLedger * ProSub.State)
    : res ProSub.ProSubscriptionError (SimpleLedger * ProSub.State) :=
  rfold (λ x ec, ProSub.invoke ec.1 ec.2 x.1 x.2) hist x.

Lemma pro_run_steps hist w s w' s' :
  forallb (λ ec, ProSub.typed ec.2 && (0 <=? timestamp ec.1)) hist = true →
  pro_run hist (w, s) = Ok (w', s') → sub_steps hist w s w' s'.
Proof.
  revert w s. induction hist as [|[env c] hist IH]; intros w s Hok Hrun; cbn in *.
  - simplify_eq. constructor.
  - bool_props. apply rbind_Ok in Hrun as ([w1 s1] & Hi & Hrun). cbn in Hi.
    eapply sub_steps_call; [done|lia|exact Hi|]. by apply IH.
Qed.

(** "bob" registers, subscribes and is cancelled. *)
Definition pro_setup : list (Env * ProSub.entry) :=
  [(pro_env 10, ProSub.Initialize "admin" "wallet" "usdc" 100);
   (pro_env 11, ProSub.RegisterBasic "bob");
   (pro_env 12, ProSub.SubscribePro "bob" 3);
   (pro_env 13, ProSub.CancelSubscription "bob")].
Definition pro_outcome : SimpleLedger * ProSub.State :=
  match pro_run pro_setup (pro_ledger, ProSub.empty_state) with
  | Ok x => x | _ => (pro_ledger, ProSub.empty_state)
  end.
Definition pw : SimpleLedger := pro_outcome.1.
Definition ps : ProSub.State := pro_outcome.2.

Lemma pro_setup_reachable : sub_reachable pw ps.
Proof.
  exists pro_setup, pro_ledger. apply pro_run_steps; vm_compute; reflexivity.
Qed.

(** "alice" subscribes for two months; afterwards the price doubles and "bob"
    renews. *)
Definition alice_subscribed : SimpleLedger * ProSub.State :=
  match ProSub.subscribe_pro (pro_env 20) pw ps "alice" 2 with
  | Ok (_, w, s) => (w, s) | _ => (pw, ps)
  end.
Definition later : list (Env * ProSub.entry) :=
  [(pro_env 30, ProSub.UpdateProPrice 200); (pro_env 31, ProSub.RenewSubscription "bob" 1)].
Definition pro_later : SimpleLedger * ProSub.State :=
  match pro_run later alice_subscribed with Ok x => x | _ => alice_subscribed end.

Lemma later_steps :
  sub_steps later alice_subscribed.1 alice_subscribed.2 pro_later.1 pro_later.2.
Proof. apply pro_run_steps; vm_compute; reflexivity. Qed.

Lemma pro_later_reachable : sub_reachable pro_later.1 pro_later.2.
Proof.
  exists (pro_setup ++ (pro_env 20, ProSub.SubscribePro "alice" 2) :: later), pro_ledger.
  apply pro_run_steps; vm_compute; reflexivity.
Qed.

Lemma reachable_members_list_witness :
  ProSub.get_pro_members pro_later.2 = ["alice"; "bob"]
  ∧ ProSub.is_pro_member (pro_env 40) pro_later.2 "alice" = true
  ∧ "alice" ∈ ProSub.get_pro_members pro_later.2.
Proof.
  destruct (reachable_members_list _ _ pro_later_reachable) as (_ & _ & Hin & _).
  split; [vm_compute; reflexivity|]. split; [vm_compute; reflexivity|].
  apply (Hin (pro_env 40)); [vm_compute; discriminate|vm_compute; reflexivity].
Defined.

Lemma pro_only_by_paying_witness :
  ∃ months token wallet,
    0 < months ∧ moved pw alice_subscribed.1 token "alice" wallet (100 * months).
Proof.
  destruct (pro_only_by_paying (pro_env 20) (ProSub.SubscribePro "alice" 2) pw alice_subscribed.1
    ps alice_subscribed.2 "alice" (pro_env 40)) as (m & t & wl & Hm & _ & _ & _ & _ & Hmv & _).
  - exact pro_setup_reachable.
  - reflexivity.
  - vm_compute; reflexivity.
  - vm_compute; discriminate.
  - vm_compute; reflexivity.
  - vm_compute; reflexivity.
  - exists m, t, wl. split; [exact Hm|]. exact Hmv.
Defined.

(** The payment contract with the address of the subscription contract. *)
Definition connected : State := storage.set_pro_subscription_contract empty_state "pro".

Lemma subscription_waives_fee_witness :
  Purchase.split_payment 1000
    (@Purchase.platform_fee_bps (answers "pro" (pro_env 5000000) pro_later.2) connected
       (show "e1" "alice")) 0 (Some 2000)
  = Ok (Purchase.MkSplit 1000 0 1000 0).
Proof.
  apply (subscription_waives_fee later (pro_env 20) (pro_env 5000000) pw alice_subscribed.1
    pro_later.1 ps alice_subscribed.2 pro_later.2 "alice" 2).
  - exact pro_setup_reachable.
  - vm_compute; reflexivity.
  - exact later_steps.
  - vm_compute; reflexivity.
  - vm_compute; reflexivity.
  - reflexivity.
  - reflexivity.
  - vm_compute; split; discriminate.
Defined.

Lemma waiver_unreachable_witness :
  Purchase.platform_fee_bps PayExamples.s1 (show "e1" "alice") = 500.
Proof. exact (waiver_unreachable any_entry w1 r1 PayExamples.s1 (show "e1" "alice") pay_setup_any). Defined.

(** ** Where the counter of subscriptions goes wrong

    [get_total_pro_subscriptions], "total count of active pro subscriptions",
    drifts both ways: an expired organizer who subscribes again is counted
    twice, and a cancelled one who renews is not counted. *)
Lemma subscriptions_miscounted :
  (ProSub.storage.get_total_pro_subscriptions pro_later.2,
   ProSub.get_pro_members_count pro_later.2) = (1, 2)
  ∧ ∃ w s, pro_run [(pro_env 20000000, ProSub.SubscribePro "alice" 1)] pro_later = Ok (w, s)
    ∧ ProSub.storage.get_total_pro_subscriptions s = 2
    ∧ filter (λ o, ProSub.is_pro_member (pro_env 20000000) s o = true)
        (ProSub.get_pro_members s) = ["alice"].
Proof.
  split; [vm_compute; reflexivity|].
  eexists _, _. split; [vm_compute; reflexivity|]. split; vm_compute; reflexivity.
Qed.

(** A renewal makes a Basic record a pro membership without changing its tier. *)
Lemma basic_renewal_is_pro :
  ∃ w s, pro_run [(pro_env 15, ProSub.RegisterBasic "alice");
                  (pro_env 16, ProSub.RenewSubscription "alice" 1)] (pw, ps) = Ok (w, s)
    ∧ ProSub.is_pro_member (pro_env 17) s "alice" = true
    ∧ (ProSub.sub_tier <$> ProSub.storage.get_subscription s "alice") = Some ProSub.Basic.
Proof. eexists _, _. split; [vm_compute; reflexivity|]. split; vm_compute; reflexivity. Qed.
