(* ===== verification/CrdtClock.v ===== *)
(** * CRDT replication: vector clocks

    [server/src/crdt/vector_clock.rs].  A clock is a finite map from node
    names to [u64] counters, an absent counter counting as zero; the clocks
    are compared up to that reading ([vc_equiv]).  The loops over a
    [HashMap] run over its entries in the order of [map_to_list]; the lemmas
    hold for every order. *)

From S2P Require Import Prelude Machine.

Record VectorClock : Type := MkClock { counters : gmap string Z }.
#[export] Instance VectorClock_eq_dec : EqDecision VectorClock.
Proof. solve_decision. Defined.

Module vector_clock.
Definition new (node_id : string) (initial_value : Z) : VectorClock :=
  MkClock {[ node_id := initial_value ]}.
Definition empty : VectorClock := MkClock ∅.

(** [*counter += 1] traps on overflow. *)
Definition increment (self : VectorClock) (node_id : string) : option VectorClock :=
  c ← checked_u64 (default 0 (counters self !! node_id) + 1);
  Some (MkClock (<[node_id := c]> (counters self))).

Definition merge_entry (merged : gmap string Z) (e : string * Z) : gmap string Z :=
  <[e.1 := Z.max (default 0 (merged !! e.1)) e.2]> merged.
Definition merge (self other : VectorClock) : VectorClock :=
  MkClock (foldl merge_entry (counters self) (map_to_list (counters other))).

Definition all_node_ids (self other : VectorClock) : gset string :=
  dom (counters self) ∪ dom (counters other).

Definition compare_step (self other : VectorClock) (acc : bool * bool) (node_id : string)
    : bool * bool :=
  let c1 := default 0 (counters self !! node_id) in
  let c2 := default 0 (counters other !! node_id) in
  if c1 <? c2 then (true, acc.2)
  else if c2 <? c1 then (acc.1, true)
  else acc.

Definition compare (self other : VectorClock) : Z :=
  let '(less_than, greater_than) :=
    foldl (compare_step self other) (false, false) (elements (all_node_ids self other)) in
  if less_than && negb greater_than then -1
  else if greater_than && negb less_than then 1
  else 0.

Definition equals (self other : VectorClock) : bool :=
  forallb (λ node_id, default 0 (counters self !! node_id)
                      =? default 0 (counters other !! node_id))
    (elements (all_node_ids self other)).

Definition happened_before (self other : VectorClock) : bool := compare self other =? -1.
Definition is_concurrent (self other : VectorClock) : bool :=
  (compare self other =? 0) && negb (equals self other).
Definition node_ids (self : VectorClock) : list string := elements (dom (counters self)).
Definition get_counter (self : VectorClock) (node_id : string) : Z :=
  default 0 (counters self !! node_id).
End vector_clock.
Import vector_clock.

(** ** The causal order *)
Definition vc_le (a b : VectorClock) : Prop := ∀ n, get_counter a n ≤ get_counter b n.
Definition vc_equiv (a b : VectorClock) : Prop := ∀ n, get_counter a n = get_counter b n.
(** Counters are [u64]; the lower bound is what the order needs. *)
Definition vc_ok (a : VectorClock) : Prop := ∀ n c, counters a !! n = Some c → 0 ≤ c.

#[export] Instance vc_equiv_equivalence : Equivalence vc_equiv.
Proof. split; intros ?; unfold vc_equiv; [done|naive_solver|congruence]. Qed.
#[export] Instance vc_le_preorder : PreOrder vc_le.
Proof. split; intros ?; unfold vc_le; [lia|]. intros y z Hxy Hyz n. etransitivity; eauto. Qed.
#[export] Instance vc_le_antisym : AntiSymm vc_equiv vc_le.
Proof. intros a b Ha Hb n. specialize (Ha n). specialize (Hb n). lia. Qed.
#[export] Instance vc_le_proper : Proper (vc_equiv ==> vc_equiv ==> iff) vc_le.
Proof.
  intros a a' Ha b b' Hb. unfold vc_le. split; intros Hl n; specialize (Hl n);
    specialize (Ha n); specialize (Hb n); lia.
Qed.

Lemma get_counter_nonneg a n : vc_ok a → 0 ≤ get_counter a n.
Proof.
  intros Ha. unfold get_counter. destruct (counters a !! n) eqn:E; cbn; [by eapply Ha|lia].
Qed.

(** ** Merging *)
Lemma merge_entries_lookup l m n :
  NoDup l.*1 →
  foldl merge_entry m l !! n =
    match (list_to_map l : gmap string Z) !! n with
    | Some c => Some (Z.max (default 0 (m !! n)) c)
    | None => m !! n
    end.
Proof.
  revert m. induction l as [|[k c] l IH]; intros m Hn; cbn; [by rewrite lookup_empty|].
  cbn in Hn. apply NoDup_cons in Hn as [Hk Hn]. rewrite IH by done. unfold merge_entry. cbn.
  destruct (decide (k = n)) as [->|Hne].
  - rewrite lookup_insert_eq, not_elem_of_list_to_map_1 by done. by rewrite lookup_insert_eq.
  - by rewrite !lookup_insert_ne by done.
Qed.

Lemma merge_lookup a b n :
  counters (merge a b) !! n =
    match counters b !! n with
    | Some c => Some (Z.max (get_counter a n) c)
    | None => counters a !! n
    end.
Proof.
  cbn. rewrite merge_entries_lookup by apply NoDup_fst_map_to_list.
  by rewrite list_to_map_to_list.
Qed.

Lemma merge_counter a b n :
  vc_ok a → vc_ok b → get_counter (merge a b) n = Z.max (get_counter a n) (get_counter b n).
Proof.
  intros Ha Hb. pose proof (get_counter_nonneg a n Ha). unfold get_counter at 1 3.
  rewrite merge_lookup. destruct (counters b !! n); cbn; [done|].
  unfold get_counter in *. lia.
Qed.

Lemma merge_ok a b : vc_ok a → vc_ok b → vc_ok (merge a b).
Proof.
  intros Ha Hb n c. rewrite merge_lookup. pose proof (get_counter_nonneg a n Ha).
  destruct (counters b !! n) eqn:E; [|apply Ha]. intros [= <-]. lia.
Qed.

Lemma new_ok n c : 0 ≤ c → vc_ok (new n c).
Proof. intros Hc m d. cbn. intros [_ <-]%lookup_singleton_Some. done. Qed.

(** ** Comparing *)
Lemma compare_loop a b l acc :
  foldl (compare_step a b) acc l
  = (acc.1 || existsb (λ n, get_counter a n <? get_counter b n) l,
     acc.2 || existsb (λ n, get_counter b n <? get_counter a n) l).
Proof.
  revert acc. induction l as [|n l IH]; intros [x y]; cbn; [by rewrite !orb_false_r|].
  rewrite IH. unfold compare_step, get_counter. cbn.
  destruct (Z.ltb_spec (default 0 (counters a !! n)) (default 0 (counters b !! n))) as [H1|H1];
  destruct (Z.ltb_spec (default 0 (counters b !! n)) (default 0 (counters a !! n))) as [H2|H2];
    cbn; rewrite ?orb_true_r, ?orb_true_l, ?orb_false_r, ?orb_false_l; try done; lia.
Qed.

(** The nodes outside both clocks do not matter. *)
Lemma exists_node a b (f : Z → Z → bool) :
  f 0 0 = false →
  existsb (λ n, f (get_counter a n) (get_counter b n)) (elements (all_node_ids a b)) = true
  ↔ ∃ n, f (get_counter a n) (get_counter b n) = true.
Proof.
  intros Hf. rewrite existsb_exists. split; [naive_solver|]. intros [n Hn]. exists n.
  split; [|done]. apply list_elem_of_In, elem_of_elements. unfold all_node_ids.
  rewrite elem_of_union, !elem_of_dom. unfold get_counter in Hn.
  destruct (counters a !! n), (counters b !! n); cbn in Hn; [by left|by left|by right|congruence].
Qed.

Definition some_less (a b : VectorClock) : bool :=
  existsb (λ n, get_counter a n <? get_counter b n) (elements (all_node_ids a b)).

Lemma some_less_spec a b : some_less a b = false ↔ vc_le b a.
Proof.
  pose proof (exists_node a b Z.ltb eq_refl) as He. fold (some_less a b) in He.
  unfold vc_le. destruct (some_less a b); split; try done.
  - intros Hle. destruct He as [[n Hn] _]; [done|]. specialize (Hle n). lia.
  - intros _ n. destruct (Z.ltb_spec (get_counter a n) (get_counter b n)); [|done].
    destruct He as [_ He]. discriminate He. exists n. lia.
Qed.

Lemma compare_spec a b :
  compare a b = if some_less a b then (if some_less b a then 0 else -1)
                else (if some_less b a then 1 else 0).
Proof.
  unfold compare. rewrite compare_loop. cbn.
  assert (Hs : existsb (λ n, get_counter b n <? get_counter a n) (elements (all_node_ids a b))
    = some_less b a).
  { unfold some_less, all_node_ids. by rewrite (union_comm_L (dom (counters a))). }
  fold (some_less a b). rewrite Hs. by destruct (some_less a b), (some_less b a).
Qed.

Lemma equals_spec a b : equals a b = true ↔ vc_equiv a b.
Proof.
  unfold equals, vc_equiv. rewrite forallb_forall. split; [|intros He n _; apply Z.eqb_eq, He].
  intros Hf n. destruct (decide (n ∈ all_node_ids a b)) as [Hin|Hout].
  - apply Z.eqb_eq, Hf, list_elem_of_In, elem_of_elements, Hin.
  - unfold all_node_ids in Hout. rewrite elem_of_union, !elem_of_dom in Hout. unfold get_counter.
    destruct (counters a !! n), (counters b !! n); naive_solver.
Qed.

(** Vector clocks are a lattice of causality: [compare] answers -1, 1 or 0
    exactly when the first clock is strictly before, strictly after, or
    neither; [equals] and [is_concurrent] split the last case; and [merge] is
    the least clock that is after both. *)
Theorem clock_lattice a b :
  vc_ok a → vc_ok b →
  (happened_before a b = true ↔ vc_le a b ∧ ¬ vc_le b a)
  ∧ (compare a b = 1 ↔ vc_le b a ∧ ¬ vc_le a b)
  ∧ (equals a b = true ↔ vc_le a b ∧ vc_le b a)
  ∧ (is_concurrent a b = true ↔ ¬ vc_le a b ∧ ¬ vc_le b a)
  ∧ vc_le a (merge a b) ∧ vc_le b (merge a b)
  ∧ ∀ c, vc_le a c → vc_le b c → vc_le (merge a b) c.
Proof.
  intros Ha Hb.
  assert (Heq : equals a b = true ↔ vc_le a b ∧ vc_le b a).
  { rewrite equals_spec. split; [intros He|intros []; by apply (anti_symm vc_le)].
    split; intros n; rewrite He; lia. }
  assert (Heq' : equals a b = false ↔ ¬ (vc_le a b ∧ vc_le b a)).
  { rewrite <- Heq. by destruct (equals a b). }
  pose proof (some_less_spec a b) as Hab. pose proof (some_less_spec b a) as Hba.
  unfold happened_before, is_concurrent. rewrite compare_spec.
  split_and!; [| |done| |intros n; rewrite merge_counter by done; lia..|].
  - destruct (some_less a b), (some_less b a); cbn; naive_solver.
  - destruct (some_less a b), (some_less b a); cbn; naive_solver.
  - rewrite andb_true_iff, negb_true_iff, Heq'.
    destruct (some_less a b), (some_less b a); cbn; naive_solver.
  - intros c Hac Hbc n. rewrite merge_counter by done. specialize (Hac n). specialize (Hbc n). lia.
Qed.
