(* ===== verification/CrdtSets.v ===== *)
(** * CRDT replication: the observed-remove set and the last-writer-wins set

    [server/src/crdt/or_set.rs] and [lww_element_set.rs].  What a replica type
    promises is the class [StateCrdt] with its laws: merging is a join up to
    what can be observed, so replicas that received the same states agree,
    whatever the order and the repetitions.  [serde_json::to_string], which
    makes the key of a value, is a parameter. *)

From S2P Require Import Prelude Machine CrdtClock.
From stdpp Require Import pretty.
Import vector_clock.

(** ** Replicas *)
Class StateCrdt (S : Type) := {
  crdt_ok : S → Prop;
  crdt_eq : S → S → Prop;
  crdt_join : S → S → S
}.
Class StateCrdtLaws (S : Type) `{StateCrdt S} := {
  crdt_eq_equivalence :: Equivalence crdt_eq;
  join_ok a b : crdt_ok a → crdt_ok b → crdt_ok (crdt_join a b);
  join_proper a a' b b' : crdt_ok a → crdt_ok a' → crdt_ok b → crdt_ok b' →
    crdt_eq a a' → crdt_eq b b' → crdt_eq (crdt_join a b) (crdt_join a' b');
  join_idem a : crdt_ok a → crdt_eq (crdt_join a a) a;
  join_comm a b : crdt_ok a → crdt_ok b → crdt_eq (crdt_join a b) (crdt_join b a);
  join_assoc a b c : crdt_ok a → crdt_ok b → crdt_ok c →
    crdt_eq (crdt_join (crdt_join a b) c) (crdt_join a (crdt_join b c))
}.

(** The states [l] received one after the other. *)
Definition receive_all {S} `{StateCrdt S} (s : S) (l : list S) : S := foldl crdt_join s l.

Section Convergence.
Context {S : Type} `{StateCrdtLaws S}.
Implicit Types (s t a : S) (l k : list S).

Lemma receive_all_ok s l : crdt_ok s → Forall crdt_ok l → crdt_ok (receive_all s l).
Proof.
  intros Hs Hl. revert s Hs. induction Hl as [|a l Ha Hl IH]; intros s Hs; cbn; [done|].
  apply IH. by apply join_ok.
Qed.

Lemma receive_all_proper s t l :
  crdt_ok s → crdt_ok t → Forall crdt_ok l → crdt_eq s t →
  crdt_eq (receive_all s l) (receive_all t l).
Proof.
  intros Hs Ht Hl. revert s t Hs Ht. induction Hl as [|a l Ha Hl IH]; intros s t Hs Ht He; cbn; [done|].
  apply IH; [by apply join_ok..|]. by apply join_proper.
Qed.

Lemma join_swap s a b :
  crdt_ok s → crdt_ok a → crdt_ok b →
  crdt_eq (crdt_join (crdt_join s a) b) (crdt_join (crdt_join s b) a).
Proof.
  intros Hs Ha Hb. transitivity (crdt_join s (crdt_join a b)); [by apply join_assoc|].
  transitivity (crdt_join s (crdt_join b a)); [|symmetry; by apply join_assoc].
  apply join_proper; [done|done|by apply join_ok..|done|by apply join_comm].
Qed.

(** A state can be received first or last. *)
Lemma receive_last s a l :
  crdt_ok s → crdt_ok a → Forall crdt_ok l →
  crdt_eq (receive_all (crdt_join s a) l) (crdt_join (receive_all s l) a).
Proof.
  intros Hs Ha Hl. revert s Hs. induction Hl as [|b l Hb Hl IH]; intros s Hs; cbn; [done|].
  transitivity (receive_all (crdt_join (crdt_join s b) a) l); [|by apply IH, join_ok].
  apply receive_all_proper; [by repeat apply join_ok..|done|by apply join_swap].
Qed.

Lemma receive_swap s l k :
  crdt_ok s → Forall crdt_ok l → Forall crdt_ok k →
  crdt_eq (receive_all (receive_all s l) k) (receive_all (receive_all s k) l).
Proof.
  intros Hs Hl Hk. revert s Hs. induction Hk as [|a k Ha Hk IH]; intros s Hs; cbn; [done|].
  transitivity (receive_all (receive_all (crdt_join s a) l) k); [|by apply IH, join_ok].
  apply receive_all_proper; [..|symmetry; by apply receive_last]; try done.
  - apply join_ok; [by apply receive_all_ok|done].
  - apply receive_all_ok; [by apply join_ok|done].
Qed.

(** Receiving a state again changes nothing. *)
Lemma receive_again s a l :
  crdt_ok s → Forall crdt_ok l → a ∈ l → crdt_eq (crdt_join (receive_all s l) a) (receive_all s l).
Proof.
  intros Hs Hl Hin. revert s Hs. induction Hl as [|b l Hb Hl IH]; intros s Hs; [set_solver|]. cbn.
  apply elem_of_cons in Hin as [->|Hin]; [|by apply IH; [|apply join_ok]].
  transitivity (receive_all (crdt_join (crdt_join s b) b) l);
    [symmetry; by apply receive_last; [apply join_ok| |]|].
  apply receive_all_proper; [by repeat apply join_ok..|done|].
  transitivity (crdt_join s (crdt_join b b)); [by apply join_assoc|].
  apply join_proper; [done|done|by apply join_ok|done|done|by apply join_idem].
Qed.

Lemma receive_known s l k :
  crdt_ok s → Forall crdt_ok l → k ⊆ l →
  crdt_eq (receive_all (receive_all s l) k) (receive_all s l).
Proof.
  intros Hs Hl Hk. pose proof (receive_all_ok s l Hs Hl) as Hok.
  induction k as [|a k IH]; cbn; [done|].
  assert (Ha : a ∈ l) by set_solver.
  assert (crdt_ok a) by by eapply Forall_forall in Ha.
  transitivity (receive_all (receive_all s l) k); [|apply IH; set_solver].
  apply receive_all_proper; [by apply join_ok|done| |by apply receive_again].
  apply Forall_forall. intros x Hx. eapply Forall_forall; [exact Hl|]. set_solver.
Qed.

(** Replicas that received the same states agree. *)
Lemma receive_converges s l k :
  crdt_ok s → Forall crdt_ok l → Forall crdt_ok k → (∀ x, x ∈ l ↔ x ∈ k) →
  crdt_eq (receive_all s l) (receive_all s k).
Proof.
  intros Hs Hl Hk Hsame.
  transitivity (receive_all (receive_all s l) k);
    [symmetry; apply receive_known; [done|done|intros x; apply Hsame]|].
  transitivity (receive_all (receive_all s k) l); [by apply receive_swap|].
  apply receive_known; [done|done|intros x; apply Hsame].
Qed.
End Convergence.

(** ** Vector clocks are replicas *)
#[export] Instance clock_crdt : StateCrdt VectorClock :=
  {| crdt_ok := vc_ok; crdt_eq := vc_equiv; crdt_join := merge |}.
#[export] Instance clock_crdt_laws : StateCrdtLaws VectorClock.
Proof.
  split; cbn; [apply _|exact merge_ok|..]; intros;
    intros n; rewrite !merge_counter by auto using merge_ok;
    repeat match goal with H : vc_equiv _ _ |- _ => specialize (H n) end; lia.
Qed.

(** The key of a value: [serde_json::to_string(value).unwrap_or_default()]. *)
Class JsonKey (T : Type) := generate_key : T → string.

(** ** [or_set.rs] *)
Record ORSetTag : Type := MkTag {
  tag_id : string;
  tag_node_id : string;
  tag_vector_clock : VectorClock
}.
Record ORSetElement (T : Type) : Type := MkOrElement {
  oe_value : T;
  oe_tags : list ORSetTag
}.
Arguments MkOrElement {T}. Arguments oe_value {T}. Arguments oe_tags {T}.
Record ORSet (T : Type) : Type := MkORSet { or_elements : gmap string (ORSetElement T) }.
Arguments MkORSet {T}. Arguments or_elements {T}.

Module or_set.
Section Def.
Context {T : Type} `{JsonKey T}.
Definition new : ORSet T := MkORSet ∅.

(** The time and the identifier are the clock's and the generator's. *)
Definition generate_tag (node_id : string) (now_millis : Z) (uuid : string) : ORSetTag :=
  MkTag (node_id +:+ "-" +:+ pretty now_millis +:+ "-" +:+ uuid) node_id
    (vector_clock.new node_id 1).

Definition add (self : ORSet T) (value : T) (node_id : string) (now_millis : Z) (uuid : string)
    : ORSet T :=
  let key := generate_key value in
  let tag := generate_tag node_id now_millis uuid in
  match or_elements self !! key with
  | Some element =>
      MkORSet (<[key := MkOrElement (oe_value element) (oe_tags element ++ [tag])]>
                 (or_elements self))
  | None => MkORSet (<[key := MkOrElement value [tag]]> (or_elements self))
  end.

Definition remove (self : ORSet T) (value : T) : ORSet T :=
  MkORSet (delete (generate_key value) (or_elements self)).

Definition nonempty (element : ORSetElement T) : bool :=
  match oe_tags element with [] => false | _ => true end.
Definition has (self : ORSet T) (value : T) : bool :=
  match or_elements self !! generate_key value with
  | Some element => nonempty element
  | None => false
  end.
Definition values (self : ORSet T) : list T :=
  oe_value <$> filter (λ e, nonempty e = true) (map_to_list (or_elements self)).*2.
Definition size (self : ORSet T) : Z :=
  Z.of_nat (length (filter (λ e, nonempty e = true) (map_to_list (or_elements self)).*2)).

Definition merge_tag (tag_map : gmap string ORSetTag) (tag : ORSetTag) : gmap string ORSetTag :=
  match tag_map !! tag_id tag with
  | Some existing =>
      <[tag_id tag := MkTag (tag_id existing) (tag_node_id existing)
          (vector_clock.merge (tag_vector_clock existing) (tag_vector_clock tag))]> tag_map
  | None => <[tag_id tag := tag]> tag_map
  end.
Definition merge_tags (tags1 tags2 : list ORSetTag) : list ORSetTag :=
  let tag_map := foldl (λ m tag, <[tag_id tag := tag]> m) (∅ : gmap string ORSetTag) tags1 in
  (map_to_list (foldl merge_tag tag_map tags2)).*2.

Definition merge_entry (elements : gmap string (ORSetElement T))
    (e : string * ORSetElement T) : gmap string (ORSetElement T) :=
  match elements !! e.1 with
  | Some existing =>
      match merge_tags (oe_tags existing) (oe_tags e.2) with
      | [] => delete e.1 elements
      | merged_tags => <[e.1 := MkOrElement (oe_value existing) merged_tags]> elements
      end
  | None => <[e.1 := e.2]> elements
  end.
Definition merge (self other : ORSet T) : ORSet T :=
  MkORSet (foldl merge_entry (or_elements self) (map_to_list (or_elements other))).
Definition clear (self : ORSet T) : ORSet T := MkORSet ∅.
End Def.
End or_set.

Section OrSet.
Context {T : Type} `{JsonKey T}.
Implicit Types (s a b : ORSet T) (e : string * ORSetElement T).

(** The tags a replica knows for a key: all that can be observed. *)
Definition ids (l : list ORSetTag) : gset string := list_to_set (tag_id <$> l).
Definition ids_of (o : option (ORSetElement T)) : gset string :=
  from_option (λ x, ids (oe_tags x)) ∅ o.
Definition tag_ids (s : ORSet T) (key : string) : gset string := ids_of (or_elements s !! key).

Definition tag_keyed (m : gmap string ORSetTag) : Prop := ∀ i t, m !! i = Some t → tag_id t = i.

Lemma tag_loop (f : gmap string ORSetTag → ORSetTag → gmap string ORSetTag) l m :
  (∀ m t, tag_keyed m → tag_keyed (f m t) ∧ dom (f m t) = {[tag_id t]} ∪ dom m) →
  tag_keyed m → tag_keyed (foldl f m l) ∧ dom (foldl f m l) = ids l ∪ dom m.
Proof.
  intros Hf. revert m. induction l as [|t l IH]; intros m Hm; cbn.
  { split; [done|]. unfold ids. cbn. set_solver. }
  destruct (Hf m t Hm) as [Hk Hd]. destruct (IH _ Hk) as [Hk' Hd']. split; [done|].
  rewrite Hd', Hd. unfold ids. cbn. set_solver.
Qed.

Lemma tag_insert_keyed m t : tag_keyed m → tag_keyed (<[tag_id t := t]> m).
Proof. intros Hm i u. rewrite lookup_insert. case_decide; [naive_solver|apply Hm]. Qed.

Lemma merge_tag_ids m t :
  tag_keyed m →
  tag_keyed (or_set.merge_tag m t) ∧ dom (or_set.merge_tag m t) = {[tag_id t]} ∪ dom m.
Proof.
  intros Hm. unfold or_set.merge_tag. destruct (m !! tag_id t) as [x|] eqn:E;
    (split; [|apply dom_insert_L]); [|by apply tag_insert_keyed].
  intros i u. rewrite lookup_insert. case_decide; [|apply Hm]. intros [= <-]. cbn.
  rewrite (Hm _ _ E). done.
Qed.

Lemma values_ids m : tag_keyed m → ids (map_to_list m).*2 = dom m.
Proof.
  intros Hm. unfold ids. rewrite <- list_fmap_compose. apply set_eq. intros i.
  rewrite elem_of_list_to_set, list_elem_of_fmap, elem_of_dom. split.
  - intros ([k t] & -> & Hin%elem_of_map_to_list). cbn. rewrite (Hm _ _ Hin). by eexists.
  - intros [t Ht]. exists (i, t). cbn. rewrite (Hm _ _ Ht). split; [done|].
    by apply elem_of_map_to_list.
Qed.

(** Merged tags are the union. *)
Lemma merge_tags_ids l k : ids (or_set.merge_tags l k) = ids l ∪ ids k.
Proof.
  unfold or_set.merge_tags.
  destruct (tag_loop (λ m tag, <[tag_id tag := tag]> m) l ∅) as [H1 D1].
  { intros m t Hm. split; [by apply tag_insert_keyed|apply dom_insert_L]. }
  { intros i t. rewrite lookup_empty. done. }
  destruct (tag_loop or_set.merge_tag k _ merge_tag_ids H1) as [H2 D2].
  rewrite values_ids by done. rewrite D2, D1, dom_empty_L. set_solver.
Qed.

Lemma ids_empty l : ids l = ∅ ↔ l = [].
Proof. unfold ids. destruct l; cbn; set_solver. Qed.

Lemma merge_entry_ids m e k :
  ids_of (or_set.merge_entry m e !! k)
  = if bool_decide (k = e.1) then ids_of (m !! k) ∪ ids (oe_tags e.2) else ids_of (m !! k).
Proof.
  destruct e as [k' e]. unfold or_set.merge_entry. cbn [fst snd]. case_bool_decide as Hk; subst.
  - destruct (m !! k') as [x|] eqn:E; [|rewrite lookup_insert_eq; cbn; set_solver].
    cbn [ids_of from_option]. rewrite <- merge_tags_ids.
    destruct (or_set.merge_tags (oe_tags x) (oe_tags e));
      [by rewrite lookup_delete_eq|by rewrite lookup_insert_eq].
  - repeat case_match; by rewrite ?lookup_insert_ne, ?lookup_delete_ne by done.
Qed.

(** A merge knows what either side knew. *)
Lemma or_merge_ids a b k : tag_ids (or_set.merge a b) k = tag_ids a k ∪ tag_ids b k.
Proof.
  unfold tag_ids, or_set.merge. cbn.
  assert (Hl : ∀ l m, NoDup l.*1 → ids_of (foldl or_set.merge_entry m l !! k)
    = ids_of (m !! k) ∪ ids_of ((list_to_map l : gmap string (ORSetElement T)) !! k)).
  { induction l as [|[k' e] l IH]; intros m Hn; cbn; [rewrite lookup_empty; cbn; set_solver|].
    apply NoDup_cons in Hn as [Hk Hn]. rewrite IH, merge_entry_ids by done. cbn.
    case_bool_decide as Hkk; subst.
    - rewrite not_elem_of_list_to_map_1, lookup_insert_eq by done. cbn. set_solver.
    - by rewrite lookup_insert_ne by done. }
  rewrite Hl by apply NoDup_fst_map_to_list. by rewrite list_to_map_to_list.
Qed.

Lemma has_ids s v : or_set.has s v = true ↔ tag_ids s (generate_key v) ≠ ∅.
Proof.
  unfold or_set.has, tag_ids. destruct (or_elements s !! generate_key v) as [[x l]|];
    cbn [ids_of from_option oe_tags]; [|done].
  unfold or_set.nonempty, not. cbn [oe_tags]. rewrite ids_empty. by destruct l.
Qed.

(** ** Observed-remove sets are replicas *)
#[export] Instance or_crdt : StateCrdt (ORSet T) :=
  {| crdt_ok := λ s, ∀ k x, or_elements s !! k = Some x → generate_key (oe_value x) = k;
     crdt_eq := λ a b, ∀ k, tag_ids a k = tag_ids b k; crdt_join := or_set.merge |}.

Lemma merge_entry_keyed m e :
  (∀ k x, m !! k = Some x → generate_key (oe_value x) = k) → generate_key (oe_value e.2) = e.1 →
  ∀ k x, or_set.merge_entry m e !! k = Some x → generate_key (oe_value x) = k.
Proof.
  intros Hm He k x. unfold or_set.merge_entry. repeat case_match; intros Hx.
  - apply lookup_delete_Some in Hx as [_ Hx]. by apply Hm.
  - apply lookup_insert_Some in Hx as [[<- <-]|[_ Hx]]; cbn; eapply Hm; eassumption.
  - apply lookup_insert_Some in Hx as [[<- <-]|[_ Hx]]; [done|by apply Hm].
Qed.

#[export] Instance or_crdt_laws : StateCrdtLaws (ORSet T).
Proof.
  split; cbn.
  - split; intros a; [done| |]; intros b; [done|intros c Hab Hbc k; by rewrite Hab].
  - intros a b Ha Hb. cbn.
    assert (Hl : Forall (λ e, generate_key (oe_value e.2) = e.1) (map_to_list (or_elements b))).
    { apply Forall_forall. intros [k e] Hin%elem_of_map_to_list. by apply Hb. }
    revert Ha. generalize (or_elements a). induction Hl; cbn; [done|]. intros m Hm.
    apply IHHl. by apply merge_entry_keyed.
  - intros a a' b b' _ _ _ _ Ha Hb k. by rewrite !or_merge_ids, Ha, Hb.
  - intros a _ k. rewrite or_merge_ids. set_solver.
  - intros a b _ _ k. rewrite !or_merge_ids. set_solver.
  - intros a b c _ _ _ k. rewrite !or_merge_ids. set_solver.
Qed.
End OrSet.
