(* ===== verification/CrdtLww.v ===== *)
(** * CRDT replication: the last-writer-wins element set

    [server/src/crdt/lww_element_set.rs]. *)

From S2P Require Import Prelude Machine CrdtClock CrdtSets.

Record LWWElement (T : Type) : Type := MkLww {
  le_value : T;
  le_timestamp : Z;
  le_vector_clock : VectorClock;
  le_is_add : bool
}.
Arguments MkLww {T}. Arguments le_value {T}. Arguments le_timestamp {T}.
Arguments le_vector_clock {T}. Arguments le_is_add {T}.
Record LWWElementSet (T : Type) : Type := MkLWWSet { lww_elements : gmap string (LWWElement T) }.
Arguments MkLWWSet {T}. Arguments lww_elements {T}.

Module lww.
Section Def.
Context {T : Type} `{JsonKey T}.
Definition new : LWWElementSet T := MkLWWSet ∅.

(** The body [add] and [remove] share; [is_add] is what is written. *)
Definition write (is_add : bool) (self : LWWElementSet T) (value : T) (node_id : string)
    (timestamp : option Z) (now_millis : Z) : LWWElementSet T :=
  let key := generate_key value in
  let effective_timestamp := default now_millis timestamp in
  let vector_clock := vector_clock.new node_id 1 in
  let element := MkLww value effective_timestamp vector_clock is_add in
  match lww_elements self !! key with
  | Some existing =>
      if le_timestamp existing <? effective_timestamp then
        MkLWWSet (<[key := element]> (lww_elements self))
      else if effective_timestamp =? le_timestamp existing then
        let comparison := vector_clock.compare vector_clock (le_vector_clock existing) in
        if 0 <? comparison then MkLWWSet (<[key := element]> (lww_elements self)) else self
      else self
  | None => MkLWWSet (<[key := element]> (lww_elements self))
  end.
Definition add := write true.
Definition remove := write false.

Definition has (self : LWWElementSet T) (value : T) : bool :=
  match lww_elements self !! generate_key value with
  | Some element => le_is_add element
  | None => false
  end.
Definition values (self : LWWElementSet T) : list T :=
  le_value <$> filter (λ e, le_is_add e = true) (map_to_list (lww_elements self)).*2.
Definition size (self : LWWElementSet T) : Z :=
  Z.of_nat (length (filter (λ e, le_is_add e = true) (map_to_list (lww_elements self)).*2)).

(** What is stored for a key that both sides have. *)
Definition merge_element (existing other_element : LWWElement T) : LWWElement T :=
  if le_timestamp existing <? le_timestamp other_element then other_element
  else if le_timestamp other_element =? le_timestamp existing then
    let merged_clock :=
      vector_clock.merge (le_vector_clock existing) (le_vector_clock other_element) in
    let comparison :=
      vector_clock.compare (le_vector_clock other_element) (le_vector_clock existing) in
    let taken := MkLww (le_value other_element) (le_timestamp other_element) merged_clock
                   (le_is_add other_element) in
    if 0 <? comparison then taken
    else if comparison =? 0 then
      if le_is_add other_element && negb (le_is_add existing) then taken else existing
    else existing
  else existing.
Definition merge_entry (elements : gmap string (LWWElement T)) (e : string * LWWElement T)
    : gmap string (LWWElement T) :=
  match elements !! e.1 with
  | Some existing => <[e.1 := merge_element existing e.2]> elements
  | None => <[e.1 := e.2]> elements
  end.
Definition merge (self other : LWWElementSet T) : LWWElementSet T :=
  MkLWWSet (foldl merge_entry (lww_elements self) (map_to_list (lww_elements other))).
Definition clear (self : LWWElementSet T) : LWWElementSet T := MkLWWSet ∅.
End Def.
End lww.

(** ** The abstract register

    The winner of two writes: the later one, an addition when they are
    simultaneous. *)
Definition wins (x y : Z * bool) : Z * bool :=
  if (x.1 <? y.1) || ((x.1 =? y.1) && y.2) then y else x.
Definition wins_opt (x y : option (Z * bool)) : option (Z * bool) := union_with (λ a b, Some (wins a b)) x y.

Lemma wins_idem x : wins x x = x.
Proof. unfold wins. by case_match. Qed.
Lemma wins_comm x y : wins x y = wins y x.
Proof.
  destruct x as [t []], y as [u []]; unfold wins; cbn; rewrite ?andb_true_r, ?andb_false_r, ?orb_false_r;
    destruct (Z.ltb_spec t u), (Z.ltb_spec u t), (Z.eqb_spec t u), (Z.eqb_spec u t); cbn; try done;
    try lia; f_equal; lia.
Qed.
Lemma wins_assoc x y z : wins (wins x y) z = wins x (wins y z).
Proof.
  destruct x as [t []], y as [u []], z as [v []]; unfold wins; cbn;
    rewrite ?andb_true_r, ?andb_false_r, ?orb_false_r;
    destruct (Z.ltb_spec t u), (Z.ltb_spec u v), (Z.eqb_spec t u), (Z.eqb_spec u v); cbn;
    rewrite ?andb_true_r, ?andb_false_r, ?orb_false_r;
    destruct (Z.ltb_spec t v), (Z.eqb_spec t v); cbn;
    repeat (case_match; bool_props); cbn in *; try done; try lia; f_equal; lia.
Qed.

Section Lww.
Context {T : Type} `{JsonKey T}.
Implicit Types (s a b : LWWElementSet T) (x y : LWWElement T).

(** ** The clocks of the elements

    Writes stamp an element with the clock [{node: 1}]; merging only adds
    further nodes to the clocks of additions. *)
Definition ones (c : VectorClock) : Prop :=
  counters c ≠ ∅ ∧ ∀ n v, counters c !! n = Some v → v = 1.
Definition element_ok (x : LWWElement T) : Prop :=
  ones (le_vector_clock x)
  ∧ (le_is_add x = false → ∃ n, le_vector_clock x = vector_clock.new n 1).

Lemma ones_new n : ones (vector_clock.new n 1).
Proof.
  split; [apply map_non_empty_singleton|]. intros m v. cbn. by intros [_ <-]%lookup_singleton_Some.
Qed.
Lemma ones_vc_ok c : ones c → vc_ok c.
Proof. intros [_ Ho] n v Hv%Ho. lia. Qed.
Lemma ones_merge c d : ones c → ones d → ones (vector_clock.merge c d).
Proof.
  intros [Hc Hc1] [Hd Hd1]. split.
  - apply map_choose in Hd as (n & v & Hv). intros He.
    assert (Hn : counters (vector_clock.merge c d) !! n = None) by by rewrite He.
    rewrite merge_lookup, Hv in Hn. done.
  - intros n v. rewrite merge_lookup. unfold vector_clock.get_counter.
    destruct (counters d !! n) eqn:E; [|apply Hc1]. apply Hd1 in E as ->.
    destruct (counters c !! n) eqn:E'; cbn; [apply Hc1 in E' as ->|]; intros [= <-]; lia.
Qed.

(** Nothing is strictly before a clock of one node. *)
Lemma ones_below c n : ones c → vc_le c (vector_clock.new n 1) → vc_le (vector_clock.new n 1) c.
Proof.
  intros [Hne Ho] Hle. apply map_choose in Hne as (m & v & Hv). pose proof (Ho _ _ Hv) as ->.
  assert (m = n) as ->.
  { specialize (Hle m). unfold vector_clock.get_counter in Hle. rewrite Hv in Hle. cbn in Hle.
    destruct (decide (m = n)); [done|]. rewrite lookup_singleton_ne in Hle by done. cbn in Hle. lia. }
  intros k. unfold vector_clock.get_counter. cbn. destruct (decide (n = k)) as [->|].
  - rewrite lookup_singleton_eq, Hv. cbn. lia.
  - rewrite lookup_singleton_ne by done. cbn. destruct (counters c !! k) eqn:E; cbn; [apply Ho in E|]; lia.
Qed.

(** ** Merging elements is the abstract register *)
Definition view (x : LWWElement T) : Z * bool := (le_timestamp x, le_is_add x).

Lemma compare_sign c d :
  vector_clock.compare c d = 1 ∧ vc_le d c ∧ ¬ vc_le c d
  ∨ vector_clock.compare c d = -1 ∧ vc_le c d ∧ ¬ vc_le d c
  ∨ vector_clock.compare c d = 0.
Proof.
  rewrite compare_spec. pose proof (some_less_spec c d). pose proof (some_less_spec d c).
  destruct (some_less c d), (some_less d c); naive_solver.
Qed.

Lemma merge_element_ok x y :
  element_ok x → element_ok y →
  element_ok (lww.merge_element x y) ∧ view (lww.merge_element x y) = wins (view x) (view y).
Proof.
  intros [Hx Hxr] [Hy Hyr]. unfold lww.merge_element, view, wins. cbn.
  destruct (Z.ltb_spec (le_timestamp x) (le_timestamp y)); [done|].
  rewrite (Z.eqb_sym (le_timestamp y)).
  destruct (Z.eqb_spec (le_timestamp x) (le_timestamp y)) as [He|]; [|done]. cbn.
  pose proof (ones_merge _ _ Hx Hy) as Hm.
  destruct (compare_sign (le_vector_clock y) (le_vector_clock x)) as [(-> & Hle & Hn)|[(-> & Hle & Hn)| -> ]];
    cbn.
  - destruct (le_is_add y) eqn:Ey; cbn; [split; [done|by rewrite ?He]|].
    destruct (Hyr eq_refl) as [n Hyn]. rewrite Hyn in Hle, Hn. exfalso. by apply Hn, ones_below.
  - split; [done|]. destruct (le_is_add y) eqn:Ey; [|done].
    destruct (le_is_add x) eqn:Ex; [by rewrite ?He|].
    destruct (Hxr eq_refl) as [n Hxn]. rewrite Hxn in Hle, Hn. exfalso. by apply Hn, ones_below.
  - destruct (le_is_add y) eqn:Ey, (le_is_add x) eqn:Ex; cbn;
      (split; [by split; cbn; rewrite ?Ex|by rewrite ?Ex, ?He]).
Qed.

(** ** The set *)
Definition lww_ok (s : LWWElementSet T) : Prop :=
  ∀ k x, lww_elements s !! k = Some x → element_ok x ∧ generate_key (le_value x) = k.
Definition lww_view (s : LWWElementSet T) (k : string) : option (Z * bool) :=
  view <$> lww_elements s !! k.

Lemma merge_element_value x y :
  generate_key (le_value x) = generate_key (le_value y) →
  generate_key (le_value (lww.merge_element x y)) = generate_key (le_value y).
Proof. unfold lww.merge_element. by repeat case_match. Qed.

Lemma lww_merge_entry m e k :
  (∀ k x, m !! k = Some x → element_ok x ∧ generate_key (le_value x) = k) →
  element_ok e.2 → generate_key (le_value e.2) = e.1 →
  (∀ k x, lww.merge_entry m e !! k = Some x → element_ok x ∧ generate_key (le_value x) = k)
  ∧ (view <$> lww.merge_entry m e !! k)
    = if bool_decide (k = e.1) then wins_opt (view <$> m !! k) (Some (view e.2)) else view <$> m !! k.
Proof.
  intros Hm He Hk. unfold lww.merge_entry. destruct (m !! e.1) as [x|] eqn:E.
  - destruct (Hm _ _ E) as [Hx Hxk]. destruct (merge_element_ok _ _ Hx He) as [Hok Hv]. split.
    + intros k' x' [[<- <-]|[_ Hx']]%lookup_insert_Some; [|by apply Hm]. split; [done|].
      rewrite merge_element_value; congruence.
    + case_bool_decide as Hkk; subst; [|by rewrite lookup_insert_ne].
      rewrite lookup_insert_eq, E. cbn. by rewrite Hv.
  - split.
    + intros k' x' [[<- <-]|[_ Hx']]%lookup_insert_Some; [done|by apply Hm].
    + case_bool_decide as Hkk; subst; [|by rewrite lookup_insert_ne].
      by rewrite lookup_insert_eq, E.
Qed.

Lemma lww_merge_spec a b :
  lww_ok a → lww_ok b →
  lww_ok (lww.merge a b) ∧ ∀ k, lww_view (lww.merge a b) k = wins_opt (lww_view a k) (lww_view b k).
Proof.
  intros Ha Hb.
  assert (Hl : ∀ l m,
    (∀ k x, m !! k = Some x → element_ok x ∧ generate_key (le_value x) = k) →
    Forall (λ e : string * LWWElement T, element_ok e.2 ∧ generate_key (le_value e.2) = e.1) l →
    NoDup l.*1 →
    (∀ k x, foldl lww.merge_entry m l !! k = Some x → element_ok x ∧ generate_key (le_value x) = k)
    ∧ ∀ k, (view <$> foldl lww.merge_entry m l !! k) = wins_opt (view <$> m !! k)
             (view <$> (list_to_map l : gmap string (LWWElement T)) !! k)).
  { induction l as [|e l IH]; intros m Hm Hf Hn; cbn.
    - split; [done|]. intros k. rewrite lookup_empty. by destruct (m !! k).
    - apply Forall_cons in Hf as [[He1 He2] Hf]. apply NoDup_cons in Hn as [Hk Hn].
      destruct (IH (lww.merge_entry m e)) as [IH1 IH2];
        [apply (lww_merge_entry m e "" Hm He1 He2)|done|done|]. split; [done|].
      intros k. rewrite IH2. destruct (lww_merge_entry m e k Hm He1 He2) as [_ ->].
      case_bool_decide as Hkk; subst.
      + rewrite not_elem_of_list_to_map_1, lookup_insert_eq by done. cbn.
        by destruct (m !! e.1).
      + by rewrite lookup_insert_ne by done. }
  destruct (Hl (map_to_list (lww_elements b)) (lww_elements a)) as [H1 H2]; [done| | |].
  - apply Forall_forall. intros [k x] Hin%elem_of_map_to_list. by apply Hb.
  - apply NoDup_fst_map_to_list.
  - split; [exact H1|]. intros k. unfold lww_view, lww.merge. cbn. rewrite H2.
    by rewrite list_to_map_to_list.
Qed.

Lemma lww_merge_view a b k :
  lww_ok a → lww_ok b → lww_view (lww.merge a b) k = wins_opt (lww_view a k) (lww_view b k).
Proof. intros Ha Hb. by apply lww_merge_spec. Qed.

(** ** Last-writer-wins sets are replicas *)
#[export] Instance lww_crdt : StateCrdt (LWWElementSet T) :=
  {| crdt_ok := lww_ok; crdt_eq := λ a b, ∀ k, lww_view a k = lww_view b k;
     crdt_join := lww.merge |}.

#[export] Instance lww_crdt_laws : StateCrdtLaws (LWWElementSet T).
Proof.
  split; cbn.
  - split; intros a; [done| |]; intros b; [done|intros c Hab Hbc k; by rewrite Hab].
  - intros a b Ha Hb. by apply lww_merge_spec.
  - intros a a' b b' Ha Ha' Hb Hb' Hea Heb k.
    rewrite !lww_merge_view by done. by rewrite Hea, Heb.
  - intros a Ha k. rewrite lww_merge_view by done.
    destruct (lww_view a k); cbn; by rewrite ?wins_idem.
  - intros a b Ha Hb k. rewrite !lww_merge_view by done.
    destruct (lww_view a k) as [p|], (lww_view b k) as [q|]; cbn; by rewrite ?(wins_comm p q).
  - intros a b c Ha Hb Hc k. rewrite !lww_merge_view by (done || by apply lww_merge_spec).
    destruct (lww_view a k), (lww_view b k), (lww_view c k); cbn; by rewrite ?wins_assoc.
Qed.
End Lww.
