(* ===== verification/CrdtReplicas.v ===== *)
(** * CRDT replication: replicas agree

    The states the operations of the two sets can produce, and what replicas
    that exchange them observe. *)

From S2P Require Import Prelude Machine CrdtClock CrdtSets CrdtLww.

(** ** Values of a keyed map

    Both sets keep elements under the keys of their values and show the
    values of those that are live. *)
Section Shown.
Context {E T : Type} (value : E → T) (live : E → bool) `{JsonKey T}.
Implicit Types m : gmap string E.

Definition keyed m : Prop := ∀ k x, m !! k = Some x → generate_key (value x) = k.
Definition shown m : list T := value <$> filter (λ e, live e = true) (map_to_list m).*2.
Definition shows m (v : T) : bool :=
  match m !! generate_key v with Some x => live x | None => false end.

Lemma shown_spec `{!Inj (=) (=) (@generate_key T _)} m v :
  keyed m → v ∈ shown m ↔ shows m v = true.
Proof.
  intros Hok. unfold shown, shows. rewrite list_elem_of_fmap. split.
  - intros (x & -> & [Hx Hin]%list_elem_of_filter).
    apply list_elem_of_fmap in Hin as ([k y] & -> & Hin%elem_of_map_to_list). cbn in *.
    pose proof (Hok _ _ Hin) as Hk. by rewrite Hk, Hin.
  - destruct (m !! generate_key v) as [x|] eqn:Hm; [|done]. intros Hx.
    exists x. split; [by apply Hok in Hm as ->%(inj generate_key)|].
    apply list_elem_of_filter. split; [done|]. apply list_elem_of_fmap.
    exists (generate_key v, x). split; [done|]. by apply elem_of_map_to_list.
Qed.

Lemma shown_nodup m : keyed m → NoDup (shown m).
Proof.
  intros Hok. apply (NoDup_fmap_1 generate_key). unfold shown. rewrite <- list_fmap_compose.
  eapply sublist_NoDup; [|apply fmap_sublist, sublist_filter].
  rewrite <- list_fmap_compose.
  replace (_ <$> map_to_list m) with (map_to_list m).*1; [apply NoDup_fst_map_to_list|].
  apply list_fmap_ext. intros i [k x] Hi%list_elem_of_lookup_2%elem_of_map_to_list. cbn.
  symmetry. by apply Hok.
Qed.

Lemma shown_agree `{!Inj (=) (=) (@generate_key T _)} m m' :
  keyed m → keyed m' → (∀ v, shows m v = shows m' v) → shown m ≡ₚ shown m'.
Proof.
  intros Hm Hm' He. apply NoDup_Permutation; [by apply shown_nodup..|].
  intros v. by rewrite !shown_spec, He.
Qed.
End Shown.

Section OrSet.
Context {T : Type} `{JsonKey T}.
Implicit Types (s a b : ORSet T).

Inductive or_reachable : ORSet T → Prop :=
| or_reach_new : or_reachable or_set.new
| or_reach_add s v n now u : or_reachable s → or_reachable (or_set.add s v n now u)
| or_reach_remove s v : or_reachable s → or_reachable (or_set.remove s v)
| or_reach_merge a b : or_reachable a → or_reachable b → or_reachable (or_set.merge a b)
| or_reach_clear s : or_reachable s → or_reachable (or_set.clear s).

Lemma or_reachable_ok s : or_reachable s → crdt_ok s.
Proof.
  induction 1 as [|s v n now u _ IH|s v _ IH|a b _ IHa _ IHb|s _ _].
  - intros k x. cbn. by rewrite lookup_empty.
  - intros k x. unfold or_set.add. case_match; cbn; intros [[<- <-]|[_ Hx]]%lookup_insert_Some;
      cbn; by try eapply IH.
  - intros k x; cbn; intros [_ Hx]%lookup_delete_Some. by eapply IH.
  - by apply (join_ok (H := or_crdt) a b).
  - intros k x. cbn. by rewrite lookup_empty.
Qed.

(** Receiving states keeps to reachable ones. *)
Lemma or_receive_reachable s l :
  or_reachable s → Forall or_reachable l → or_reachable (receive_all s l).
Proof.
  intros Hs Hl. revert s Hs. induction Hl; intros s Hs; cbn; [done|]. apply IHHl. by constructor.
Qed.

(** Observed-remove sets converge: two replicas that start from the same
    state and receive the same states, in whatever order and however often,
    contain the same elements and list the same values, where the key of a
    value determines it. *)
Theorem or_set_converges s l k :
  Inj (=) (=) (@generate_key T _) →
  or_reachable s → Forall or_reachable l → Forall or_reachable k → (∀ x, x ∈ l ↔ x ∈ k) →
  let a := receive_all s l in let b := receive_all s k in
  (∀ v, or_set.has a v = or_set.has b v) ∧ or_set.values a ≡ₚ or_set.values b
  ∧ or_set.size a = or_set.size b.
Proof.
  intros Hinj Hs Hl Hk Hsame a b.
  assert (Hok : ∀ l, Forall or_reachable l → Forall crdt_ok l).
  { intros l' Hl'. eapply Forall_impl; [exact Hl'|exact or_reachable_ok]. }
  assert (He : crdt_eq a b) by (apply receive_converges; auto using or_reachable_ok).
  assert (Hh : ∀ v, or_set.has a v = or_set.has b v).
  { intros v. apply Bool.eq_iff_eq_true. by rewrite !has_ids, (He (generate_key v)). }
  assert (Hv : or_set.values a ≡ₚ or_set.values b).
  { apply (shown_agree oe_value or_set.nonempty); [| |exact Hh];
      apply or_reachable_ok; by apply or_receive_reachable. }
  split_and!; [done|done|]. unfold or_set.size. f_equal.
  pose proof (Permutation_length Hv) as Hlen. unfold or_set.values in Hlen.
  by rewrite !length_fmap in Hlen.
Qed.

(** Removals do not replicate: a merge contains what either side
    contained, so merging any replica that still has an element brings a
    removed one back, on both sides. *)
Theorem removal_not_replicated a b v :
  or_set.has (or_set.merge a b) v = or_set.has a v || or_set.has b v
  ∧ or_set.has (or_set.remove a v) v = false
  ∧ (or_set.has b v = true →
       or_set.has (or_set.merge (or_set.remove a v) b) v = true
       ∧ or_set.has (or_set.merge b (or_set.remove a v)) v = true).
Proof.
  assert (Hm : ∀ a b, or_set.has (or_set.merge a b) v = or_set.has a v || or_set.has b v).
  { intros c d. apply Bool.eq_iff_eq_true. rewrite orb_true_iff, !has_ids, or_merge_ids.
    destruct (decide (tag_ids c (generate_key v) = ∅)) as [->|]; set_solver. }
  split_and!; [done| |].
  - unfold or_set.has, or_set.remove. cbn. by rewrite lookup_delete_eq.
  - intros Hb. rewrite !Hm, Hb. by rewrite orb_true_r.
Qed.
End OrSet.

Section Lww.
Context {T : Type} `{JsonKey T}.
Implicit Types (s a b : LWWElementSet T).

Inductive lww_reachable : LWWElementSet T → Prop :=
| lww_reach_new : lww_reachable lww.new
| lww_reach_add s v n t now : lww_reachable s → lww_reachable (lww.add s v n t now)
| lww_reach_remove s v n t now : lww_reachable s → lww_reachable (lww.remove s v n t now)
| lww_reach_merge a b : lww_reachable a → lww_reachable b → lww_reachable (lww.merge a b)
| lww_reach_clear s : lww_reachable s → lww_reachable (lww.clear s).

Lemma write_ok i s v n t now : lww_ok s → lww_ok (lww.write i s v n t now).
Proof.
  intros Hs k x. unfold lww.write.
  repeat case_match; try apply Hs; cbn; intros [[<- <-]|[_ Hx]]%lookup_insert_Some;
    try (by apply Hs); (split; [|done]); (split; [apply ones_new|cbn; eauto]).
Qed.

Lemma lww_reachable_ok s : lww_reachable s → lww_ok s.
Proof.
  induction 1 as [|s v n t now _ IH|s v n t now _ IH|a b _ IHa _ IHb|s _ _].
  - intros k x. cbn. by rewrite lookup_empty.
  - by apply write_ok.
  - by apply write_ok.
  - by apply lww_merge_spec.
  - intros k x. cbn. by rewrite lookup_empty.
Qed.

Lemma lww_receive_reachable s l :
  lww_reachable s → Forall lww_reachable l → lww_reachable (receive_all s l).
Proof.
  intros Hs Hl. revert s Hs. induction Hl; intros s Hs; cbn; [done|]. apply IHHl. by constructor.
Qed.

Lemma lww_has_view s v :
  lww.has s v = from_option snd false (lww_view s (generate_key v)).
Proof. unfold lww.has, lww_view. by destruct (lww_elements s !! generate_key v). Qed.

End Lww.
