(* ===== verification/CrdtSync.v ===== *)
(** * CRDT replication: the synchronisation endpoint

    [server/src/handlers/sync.rs].  A request reads the server's clock,
    collects deltas, writes the merged clock and stores the client's deltas;
    each of these holds a lock of its own, so requests interleave between
    them.  [delta_sync] is a request that runs alone, [sync_step] any
    interleaving.  The three [apply_*_operation] functions only log. *)

From S2P Require Import Prelude Machine CrdtClock CrdtSets CrdtLww CrdtReplicas.

Inductive DeltaOperation : Type := DoAdd | DoRemove | DoUpdate.
Record DeltaEntry : Type := MkDelta {
  de_id : string;
  de_entity_type : string;
  de_entity_id : string;
  de_operation : DeltaOperation;
  de_value : string;             (** the JSON value, as text *)
  de_vector_clock : gmap string Z;
  de_timestamp : Z;
  de_synced : bool
}.
Record SyncRequest : Type := MkRequest {
  rq_node_id : string;
  rq_vector_clock : gmap string Z;
  rq_deltas : list DeltaEntry
}.
Record SyncResponse : Type := MkResponse {
  rs_server_vector_clock : gmap string Z;
  rs_server_deltas : list DeltaEntry;
  rs_merged_vector_clock : gmap string Z
}.
Record SyncState : Type := MkSync {
  server_vector_clock : VectorClock;
  delta_store : gmap string (list DeltaEntry)
}.
#[export] Instance eta_SyncState : Eta SyncState :=
  λ s, MkSync (server_vector_clock s) (delta_store s).
Definition new_state : SyncState := MkSync vector_clock.empty ∅.

Definition client_clock (rq : SyncRequest) : VectorClock := MkClock (rq_vector_clock rq).
Definition delta_clock (d : DeltaEntry) : VectorClock := MkClock (de_vector_clock d).

(** The deltas sent to a client with the clock [c]. *)
Definition is_sent (c : VectorClock) (d : DeltaEntry) : bool :=
  vector_clock.happened_before (delta_clock d) c || vector_clock.is_concurrent (delta_clock d) c.
Definition compute_server_deltas (s : SyncState) (c : VectorClock) : list DeltaEntry :=
  p ← map_to_list (delta_store s); filter (λ d, is_sent c d = true) p.2.

(** [apply_client_deltas]: every branch logs and succeeds. *)
Definition apply_operation (d : DeltaEntry) : bool :=
  match de_operation d with DoAdd => true | DoRemove => true | DoUpdate => true end.
Definition apply_client_deltas (deltas : list DeltaEntry) : bool := forallb apply_operation deltas.

(** [sort_by(|a, b| a.timestamp.cmp(&b.timestamp))], which is stable. *)
Fixpoint insert_by_time (d : DeltaEntry) (l : list DeltaEntry) : list DeltaEntry :=
  match l with
  | [] => [d]
  | e :: l' => if de_timestamp e <=? de_timestamp d then e :: insert_by_time d l' else d :: l
  end.
Definition sort_by_time (l : list DeltaEntry) : list DeltaEntry :=
  foldl (λ acc d, insert_by_time d acc) [] l.

Definition push_new (node_deltas : list DeltaEntry) (d : DeltaEntry) : list DeltaEntry :=
  if existsb (λ e, bool_decide (de_id e = de_id d)) node_deltas then node_deltas
  else node_deltas ++ [d].
Definition prune (l : list DeltaEntry) : list DeltaEntry :=
  if 1000 <? Z.of_nat (length l) then drop (length l - 1000) (sort_by_time l) else l.
Definition store_client_deltas (s : SyncState) (node_id : string) (deltas : list DeltaEntry)
    : SyncState :=
  let node_deltas := foldl push_new (default [] (delta_store s !! node_id)) deltas in
  s ⟨ delta_store ::= <[node_id := prune node_deltas]> ⟩.

Definition delta_sync (s : SyncState) (rq : SyncRequest) : SyncState * option SyncResponse :=
  let server_clock := server_vector_clock s in
  let server_deltas := compute_server_deltas s (client_clock rq) in
  let merged_clock := vector_clock.merge server_clock (client_clock rq) in
  if apply_client_deltas (rq_deltas rq) then
    let s := s ⟨ server_vector_clock := merged_clock ⟩ in
    let s := store_client_deltas s (rq_node_id rq) (rq_deltas rq) in
    (s, Some (MkResponse (counters server_clock) server_deltas (counters merged_clock)))
  else (s, None).

(** The status of a node: the server's clock and the number of its deltas. *)
Definition sync_status (s : SyncState) (node_id : string) : gmap string Z * Z :=
  (counters (server_vector_clock s),
   from_option (λ d, Z.of_nat (length d)) 0 (delta_store s !! node_id)).

(** ** Interleaved requests *)
Inductive phase : Type :=
| Arrived
| HasClock (server_clock : VectorClock)
| HasDeltas (server_clock : VectorClock) (server_deltas : list DeltaEntry)
| WroteClock (server_clock : VectorClock) (server_deltas : list DeltaEntry) (merged : VectorClock)
| Answered (response : SyncResponse)
| Refused.

(** What a request does the next time it holds a lock. *)
Definition advance (s : SyncState) (rq : SyncRequest) (p : phase) : SyncState * phase :=
  match p with
  | Arrived => (s, HasClock (server_vector_clock s))
  | HasClock sc => (s, HasDeltas sc (compute_server_deltas s (client_clock rq)))
  | HasDeltas sc ds =>
      let merged := vector_clock.merge sc (client_clock rq) in
      if apply_client_deltas (rq_deltas rq)
      then (s ⟨ server_vector_clock := merged ⟩, WroteClock sc ds merged)
      else (s, Refused)
  | WroteClock sc ds merged =>
      (store_client_deltas s (rq_node_id rq) (rq_deltas rq),
       Answered (MkResponse (counters sc) ds (counters merged)))
  | Answered r => (s, Answered r)
  | Refused => (s, Refused)
  end.

Definition server := (SyncState * gmap nat (SyncRequest * phase))%type.
(** The counters a client sends are [u64]. *)
Inductive sync_step : server → server → Prop :=
| step_arrive s m i rq :
    m !! i = None → vc_ok (client_clock rq) →
    sync_step (s, m) (s, <[i := (rq, Arrived)]> m)
| step_advance s m i rq p s' p' :
    m !! i = Some (rq, p) → advance s rq p = (s', p') →
    sync_step (s, m) (s', <[i := (rq, p')]> m).
Definition served : server → Prop := rtc sync_step (new_state, ∅).

(** A request that is not interrupted is [delta_sync]. *)
Lemma advance_alone s rq :
  let a1 := advance s rq Arrived in
  let a2 := advance a1.1 rq a1.2 in
  let a3 := advance a2.1 rq a2.2 in
  let a4 := advance a3.1 rq a3.2 in
  a4 = ((delta_sync s rq).1, from_option Answered Refused (delta_sync s rq).2).
Proof.
  cbv zeta. cbn [advance fst snd]. unfold delta_sync.
  destruct (apply_client_deltas (rq_deltas rq)); reflexivity.
Qed.

Lemma apply_total deltas : apply_client_deltas deltas = true.
Proof. apply forallb_forall. intros d _. unfold apply_operation. by destruct (de_operation d). Qed.

(** ** The store *)
Definition node_ok (l : list DeltaEntry) : Prop :=
  NoDup (de_id <$> l) ∧ (length l ≤ 1000)%nat.
Definition store_ok (s : SyncState) : Prop :=
  ∀ n l, delta_store s !! n = Some l → node_ok l.

Lemma insert_by_time_perm d l : insert_by_time d l ≡ₚ d :: l.
Proof.
  induction l as [|e l IH]; cbn; [done|]. case_match; [|done].
  rewrite IH. apply Permutation_swap.
Qed.
Lemma sort_by_time_perm l : sort_by_time l ≡ₚ l.
Proof.
  unfold sort_by_time. enough (Hg : ∀ acc, foldl (λ acc d, insert_by_time d acc) acc l ≡ₚ acc ++ l)
    by apply (Hg []).
  induction l as [|d l IH]; intros acc; cbn; [by rewrite app_nil_r|].
  rewrite IH, insert_by_time_perm. by rewrite <- Permutation_middle.
Qed.

Lemma push_new_nodup l d : NoDup (de_id <$> l) → NoDup (de_id <$> push_new l d).
Proof.
  intros Hl. unfold push_new. destruct (existsb _ l) eqn:E; [done|].
  rewrite fmap_app. apply NoDup_app. split_and!; [done| |apply NoDup_singleton].
  intros i (e & -> & He)%list_elem_of_fmap Hi. cbn in Hi. apply list_elem_of_singleton in Hi.
  assert (existsb (λ e, bool_decide (de_id e = de_id d)) l = true); [|congruence].
  apply existsb_exists. exists e. split; [by apply list_elem_of_In|]. by apply bool_decide_eq_true.
Qed.

Lemma prune_ok l : NoDup (de_id <$> l) → node_ok (prune l).
Proof.
  intros Hl. unfold prune, node_ok. destruct (Z.ltb_spec 1000 (Z.of_nat (length l))) as [Hlt|].
  - split; [|rewrite length_drop, sort_by_time_perm; lia].
    rewrite fmap_drop. eapply sublist_NoDup; [|apply sublist_drop].
    by rewrite sort_by_time_perm.
  - split; [done|lia].
Qed.

Lemma store_deltas_ok s n ds : store_ok s → store_ok (store_client_deltas s n ds).
Proof.
  intros Hs n' l. unfold store_client_deltas. cbn. intros [[<- <-]|[_ Hx]]%lookup_insert_Some;
    [|by eapply Hs]. apply prune_ok.
  assert (Hd : NoDup (de_id <$> default [] (delta_store s !! n))).
  { destruct (delta_store s !! n) eqn:E; cbn; [by apply (Hs _ _ E)|constructor]. }
  revert Hd. generalize (default [] (delta_store s !! n)).
  induction ds as [|d ds IH]; intros l Hl; cbn; [done|]. by apply IH, push_new_nodup.
Qed.

(** ** The clock

    [from m c]: every counter of [c] was sent by one of the requests [m]. *)
Definition from (m : gmap nat (SyncRequest * phase)) (c : VectorClock) : Prop :=
  vc_ok c ∧ ∀ n, vector_clock.get_counter c n = 0
    ∨ ∃ i rq p, m !! i = Some (rq, p)
        ∧ vector_clock.get_counter (client_clock rq) n = vector_clock.get_counter c n.

(** What a request carries. *)
Definition phase_ok (m : gmap nat (SyncRequest * phase)) (rq : SyncRequest) (p : phase) : Prop :=
  match p with
  | Arrived => True
  | HasClock sc | HasDeltas sc _ => from m sc
  | WroteClock sc _ merged => from m sc ∧ merged = vector_clock.merge sc (client_clock rq)
  | Answered r =>
      MkClock (rs_merged_vector_clock r)
      = vector_clock.merge (MkClock (rs_server_vector_clock r)) (client_clock rq)
  | Refused => False
  end.

Lemma from_empty m : from m vector_clock.empty.
Proof. split; [intros n c; cbn; by rewrite lookup_empty|]. intros n. left. reflexivity. Qed.

Lemma from_merge m c i rq p :
  from m c → m !! i = Some (rq, p) → vc_ok (client_clock rq) →
  from m (vector_clock.merge c (client_clock rq)).
Proof.
  intros [Hc Hf] Hi Hok. split; [by apply merge_ok|]. intros n. rewrite merge_counter by done.
  destruct (Z.max_spec (vector_clock.get_counter c n) (vector_clock.get_counter (client_clock rq) n))
    as [[_ ->]|[_ ->]]; [right; eauto|apply Hf].
Qed.

(** Steps keep the requests, so they keep the provenance. *)
Lemma from_step m i rq p c :
  (m !! i = None ∨ ∃ p0, m !! i = Some (rq, p0)) → from m c → from (<[i := (rq, p)]> m) c.
Proof.
  intros Hi [Hok Hf]. split; [done|]. intros n.
  destruct (Hf n) as [?|(j & rq' & p' & Hj & Hn)]; [by left|right].
  destruct (decide (j = i)) as [->|Hne].
  - destruct Hi as [Hi|[p0 Hi]]; [congruence|]. simplify_eq. exists i, rq, p.
    by rewrite lookup_insert_eq.
  - exists j, rq', p'. by rewrite lookup_insert_ne.
Qed.

Lemma phase_step m i rq p rq' p' :
  (m !! i = None ∨ ∃ p0, m !! i = Some (rq, p0)) → phase_ok m rq' p' →
  phase_ok (<[i := (rq, p)]> m) rq' p'.
Proof. intros Hi. destruct p'; cbn; try done; [by apply from_step..|]. intros []. split; [by apply from_step|done]. Qed.

Record served_ok (x : server) : Prop := {
  so_store : store_ok x.1;
  so_clock : from x.2 (server_vector_clock x.1);
  so_phase : ∀ i rq p, x.2 !! i = Some (rq, p) → vc_ok (client_clock rq) ∧ phase_ok x.2 rq p
}.

Lemma served_ok_step x y : sync_step x y → served_ok x → served_ok y.
Proof.
  destruct 1 as [s m i rq Hi Hok|s m i rq p s' p' Hi Ha]; intros [Hs Hc Hp]; cbn in *.
  - split; cbn; [done|by apply from_step; [left|]|].
    intros j rq' p' [[<- [= <- <-]]|[_ Hj]]%lookup_insert_Some; [done|].
    destruct (Hp _ _ _ Hj). split; [done|]. apply phase_step; [by left|done].
  - assert (Hr : m !! i = None ∨ ∃ p0, m !! i = Some (rq, p0)) by eauto.
    destruct (Hp _ _ _ Hi) as [Hok Hph].
    assert (Hgoal : store_ok s' ∧ from m (server_vector_clock s') ∧ phase_ok m rq p').
    { destruct p; cbn in Ha, Hph; rewrite ?apply_total in Ha; simplify_eq; cbn; split_and!; try done.
      - by eapply from_merge.
      - by apply store_deltas_ok.
      - destruct Hph as [_ ->]. by destruct server_clock. }
    destruct Hgoal as (Hs' & Hc' & Hp'). split; cbn; [done|by apply from_step|].
    intros j rq' p'' [[<- [= <- <-]]|[_ Hj]]%lookup_insert_Some;
      [split; [done|by apply phase_step]|].
    destruct (Hp _ _ _ Hj). split; [done|]. by apply phase_step.
Qed.

(** The endpoint is safe under every interleaving of requests: per node
    the store holds at most 1,000 deltas with distinct identifiers; every
    counter of the server's clock was sent by a client; and every answer's
    merged clock is the join of the server clock it reports and the clock the
    client sent. *)
Theorem sync_safe s m :
  served (s, m) →
  (∀ n l, delta_store s !! n = Some l → NoDup (de_id <$> l) ∧ (length l ≤ 1000)%nat)
  ∧ (∀ n, vector_clock.get_counter (server_vector_clock s) n ≠ 0 →
       ∃ i rq p, m !! i = Some (rq, p)
         ∧ vector_clock.get_counter (client_clock rq) n
           = vector_clock.get_counter (server_vector_clock s) n)
  ∧ (∀ i rq r, m !! i = Some (rq, Answered r) →
       MkClock (rs_merged_vector_clock r)
       = vector_clock.merge (MkClock (rs_server_vector_clock r)) (client_clock rq))
  ∧ (∀ i rq, m !! i ≠ Some (rq, Refused)).
Proof.
  intros Hr. assert (Hok : served_ok (s, m)).
  { apply (rtc_ind_r (λ y, served_ok y) (new_state, ∅)) in Hr; [done| |].
    - split; [intros n l; cbn; by rewrite lookup_empty|apply from_empty|].
      intros i rq p. cbn. by rewrite lookup_empty.
    - intros y z _ Hst Hy. by eapply served_ok_step. }
  destruct Hok as [Hs [_ Hc] Hp]; cbn in *. split_and!.
  - exact Hs.
  - intros n Hn. destruct (Hc n); [done|done].
  - intros i rq r Hi. by apply (Hp _ _ _ Hi).
  - intros i rq Hi. by apply (Hp _ _ _ Hi).
Qed.

(** Which deltas are sent: a stored delta is in the answer exactly when
    the client's clock is not below the delta's.  In particular a delta made
    after the client's clock, the one the client has not seen, is never sent,
    and one made strictly before it always is. *)
Theorem server_deltas_spec s c d :
  vc_ok c → vc_ok (delta_clock d) →
  (d ∈ compute_server_deltas s c ↔
     (∃ n l, delta_store s !! n = Some l ∧ d ∈ l) ∧ ¬ vc_le c (delta_clock d)).
Proof.
  intros Hc Hd. unfold compute_server_deltas. rewrite list_elem_of_bind.
  assert (Hs : is_sent c d = true ↔ ¬ vc_le c (delta_clock d)).
  { unfold is_sent, vector_clock.happened_before, vector_clock.is_concurrent.
    rewrite compare_spec. pose proof (equals_spec (delta_clock d) c) as He.
    rewrite <- some_less_spec.
    assert (Hq : vector_clock.equals (delta_clock d) c = true → some_less (delta_clock d) c = false).
    { rewrite He, some_less_spec. intros E n. rewrite E. lia. }
    assert (Hq' : some_less (delta_clock d) c = false → some_less c (delta_clock d) = false →
      vector_clock.equals (delta_clock d) c = true).
    { rewrite He, !some_less_spec. intros. by apply (anti_symm vc_le). }
    clear He. destruct (some_less (delta_clock d) c), (some_less c (delta_clock d)),
      (vector_clock.equals (delta_clock d) c); cbn in *; try (by specialize (Hq eq_refl));
      try (by specialize (Hq' eq_refl eq_refl)); split; intros Hx; try done; by destruct Hx. }
  split.
  - intros ([n l] & [Hsent Hin]%list_elem_of_filter & Hm%elem_of_map_to_list). cbn in *. naive_solver.
  - intros [(n & l & Hm & Hin) Hn]. exists (n, l). rewrite list_elem_of_filter, elem_of_map_to_list.
    naive_solver.
Qed.

(** * CRDT replication: running instances

    Concrete replicas and requests on which the theorems are applied, and an
    interleaving that loses an update of the server's clock. *)

(** Text values; the key is the value in brackets. *)
#[export] Instance text_key : JsonKey string := λ v, "[" +:+ v +:+ "]".
#[export] Instance text_key_inj : Inj (=) (=) (@generate_key string _).
Proof.
  intros v v'. unfold generate_key, text_key. intros [= He].
  revert v' He. induction v as [|c v IH]; intros [|c' v'] He; cbn in He; try done.
  - injection He as ? He. by destruct v'.
  - injection He as ? He. by destruct v.
  - injection He as <- He. f_equal. by apply IH.
Qed.

Definition clock_a : VectorClock := vector_clock.new "a" 1.
Definition clock_b : VectorClock := vector_clock.new "b" 1.

Lemma clock_lattice_witness :
  vector_clock.is_concurrent clock_a clock_b = true ∧ vc_le clock_a (vector_clock.merge clock_a clock_b).
Proof.
  destruct (clock_lattice clock_a clock_b) as (_ & _ & _ & _ & Hle & _).
  - apply new_ok. vm_compute. discriminate.
  - apply new_ok. vm_compute. discriminate.
  - split; [vm_compute; reflexivity|exact Hle].
Defined.

(** Three replicas of an observed-remove set. *)
Definition or1 : ORSet string := or_set.add or_set.new "x" "a" 10 "u1".
Definition or2 : ORSet string := or_set.remove (or_set.add or1 "y" "b" 11 "u2") "x".
Definition or3 : ORSet string := or_set.add or_set.new "z" "c" 12 "u3".

Lemma or_set_converges_witness :
  or_set.has (receive_all or1 [or2; or3]) "y" = true
  ∧ or_set.values (receive_all or1 [or2; or3]) ≡ₚ or_set.values (receive_all or1 [or3; or2; or3]).
Proof.
  split; [vm_compute; reflexivity|].
  apply (or_set_converges or1 [or2; or3] [or3; or2; or3]).
  - exact text_key_inj.
  - repeat constructor.
  - repeat constructor.
  - repeat constructor.
  - intros x. set_solver.
Defined.

Lemma removal_not_replicated_witness :
  or_set.has (or_set.remove or1 "x") "x" = false
  ∧ or_set.has (or_set.merge (or_set.remove or1 "x") or1) "x" = true.
Proof.
  destruct (removal_not_replicated or1 or1 "x") as (_ & Hr & Hm). split; [exact Hr|].
  apply Hm. vm_compute. reflexivity.
Defined.

(** Replicas of a last-writer-wins set with simultaneous writes. *)
Definition lw1 : LWWElementSet string := lww.add lww.new "x" "a" (Some 5) 0.
Definition lw2 : LWWElementSet string := lww.remove lww.new "x" "b" (Some 5) 0.
Definition lw3 : LWWElementSet string := lww.add lww.new "y" "c" None 7.


(** A local write loses a tie that a merge would win: the addition at the time
    of the removal is dropped by [add] and kept by [merge]. *)
Lemma lww_tie_depends_on_path :
  lww.has (lww.add lw2 "x" "a" (Some 5) 0) "x" = false
  ∧ lww.has (lww.merge lw2 lw1) "x" = true.
Proof. split; vm_compute; reflexivity. Qed.

(** ** The endpoint *)
Definition d1 : DeltaEntry := MkDelta "d1" "bookmark" "e1" DoAdd "v" {[ "a" := 2 ]} 100 false.
Definition rq_a : SyncRequest := MkRequest "a" {[ "a" := 2 ]} [d1; d1].
Definition rq_b : SyncRequest := MkRequest "b" {[ "b" := 3 ]} [].

Lemma rq_ok rq : forallb (λ p, 0 <=? p.2) (map_to_list (rq_vector_clock rq)) = true →
  vc_ok (client_clock rq).
Proof.
  rewrite forallb_forall. intros Hf n c Hn. cbn in Hn. specialize (Hf (n, c)). cbn in Hf.
  apply Z.leb_le, Hf, list_elem_of_In, elem_of_map_to_list, Hn.
Qed.

(** Runs a schedule: each number lets that request take its next step. *)
Definition run_schedule (x : server) (l : list nat) : server :=
  foldl (λ x i, match x.2 !! i with
                | Some (rq, p) => let a := advance x.1 rq p in (a.1, <[i := (rq, a.2)]> x.2)
                | None => x
                end) x l.
Lemma schedule_served x l : served x → served (run_schedule x l).
Proof.
  revert x. induction l as [|i l IH]; intros [s m] Hx; cbn; [done|]. apply IH.
  destruct (m !! i) as [[rq p]|] eqn:E; [|done]. eapply rtc_r; [exact Hx|].
  eapply step_advance; [exact E|]. by destruct (advance s rq p).
Qed.

Definition two_requests : server := (new_state, <[1%nat := (rq_b, Arrived)]> {[ 0%nat := (rq_a, Arrived) ]}).
Lemma two_requests_served : served two_requests.
Proof.
  eapply rtc_l; [apply (step_arrive _ _ 0%nat rq_a); [reflexivity|by apply rq_ok]|].
  eapply rtc_l; [apply (step_arrive _ _ 1%nat rq_b); [reflexivity|by apply rq_ok]|].
  apply rtc_refl.
Qed.

Definition one_after_the_other : server := run_schedule two_requests [0; 0; 0; 0; 1; 1; 1; 1]%nat.
Definition interleaved : server := run_schedule two_requests [0; 1; 0; 1; 0; 1; 0; 1]%nat.

Lemma sync_safe_witness :
  vector_clock.get_counter (server_vector_clock one_after_the_other.1) "a" = 2
  ∧ ∃ l, delta_store one_after_the_other.1 !! "a" = Some l ∧ (length l ≤ 1000)%nat.
Proof.
  split; [vm_compute; reflexivity|].
  destruct (sync_safe one_after_the_other.1 one_after_the_other.2) as (Hs & _).
  - rewrite <- surjective_pairing. exact (schedule_served two_requests _ two_requests_served).
  - exists [d1]. assert (Hl : delta_store one_after_the_other.1 !! "a" = Some [d1])
      by (vm_compute; reflexivity).
    split; [exact Hl|]. apply (Hs _ _ Hl).
Defined.

Lemma server_deltas_spec_witness :
  ¬ d1 ∈ compute_server_deltas one_after_the_other.1 vector_clock.empty.
Proof.
  intros Hin. apply (server_deltas_spec one_after_the_other.1 vector_clock.empty d1) in Hin as [_ Hn].
  - apply Hn. intros n. unfold vector_clock.get_counter. cbn. rewrite lookup_empty. cbn.
    destruct (decide (n = "a")) as [->|]; [vm_compute; discriminate|].
    rewrite lookup_singleton_ne by done. vm_compute. discriminate.
  - intros n c. cbn. by rewrite lookup_empty.
  - intros n c. cbn. intros [_ <-]%lookup_singleton_Some. vm_compute. discriminate.
Defined.

(** Two requests that interleave lose an update: both are answered, yet the
    server's clock lacks the counter of the first, because the second wrote
    back a clock it had read before. *)
Lemma clock_update_lost :
  served interleaved
  ∧ vector_clock.get_counter (server_vector_clock interleaved.1) "a" = 0
  ∧ vector_clock.get_counter (server_vector_clock interleaved.1) "b" = 3
  ∧ (∃ r, interleaved.2 !! 0%nat = Some (rq_a, Answered r))
  ∧ (∃ r, interleaved.2 !! 1%nat = Some (rq_b, Answered r)).
Proof.
  split; [exact (schedule_served two_requests _ two_requests_served)|].
  split; [vm_compute; reflexivity|]. split; [vm_compute; reflexivity|].
  split; eexists; vm_compute; reflexivity.
Qed.
