(* ===== verification/ZkBytes.v ===== *)
(** * Zero-knowledge attestation: bytes and transcripts

    [server/src/utils/zkp_verifier.rs], hashing helpers.  A byte string is a
    list of [Z]; the state of a streaming hash is the bytes it has absorbed,
    so [finalize] is SHA-512 of them. *)

From S2P Require Import Prelude Machine.

Abbreviation bytes := (list Z).

(** [s.as_bytes()] *)
Definition as_bytes (s : string) : bytes :=
  (λ a, Z.of_N (Ascii.N_of_ascii a)) <$> String.list_ascii_of_string s.

(** [n.to_be_bytes()] for an integer of [k] bytes, and its inverse. *)
Fixpoint be_bytes (k : nat) (n : Z) : bytes :=
  match k with
  | O => []
  | S k => be_bytes k (n / 256) ++ [n mod 256]
  end.
Definition from_be_bytes (l : bytes) : Z := foldl (λ a b, 256 * a + b) 0 l.

Definition is_byte (b : Z) : Prop := 0 ≤ b < 256.

Lemma as_bytes_inj s s' : as_bytes s = as_bytes s' → s = s'.
Proof.
  intros He. assert (Hl : String.list_ascii_of_string s = String.list_ascii_of_string s').
  { eapply (list_fmap_eq_inj _); [|exact He]. intros a b Hab%N2Z.inj.
    rewrite <- (Ascii.ascii_N_embedding a), Hab. apply Ascii.ascii_N_embedding. }
  by rewrite <- (String.string_of_list_ascii_of_string s), Hl,
    String.string_of_list_ascii_of_string.
Qed.

Lemma length_be_bytes k n : length (be_bytes k n) = k.
Proof. revert n; induction k as [|k IH]; intros n; cbn; [done|]. rewrite length_app, IH. cbn. lia. Qed.

Lemma from_be_bytes_snoc l b : from_be_bytes (l ++ [b]) = 256 * from_be_bytes l + b.
Proof. unfold from_be_bytes. by rewrite foldl_app. Qed.

Lemma from_to_be_bytes k n : 0 ≤ n < 256 ^ Z.of_nat k → from_be_bytes (be_bytes k n) = n.
Proof.
  revert n; induction k as [|k IH]; intros n Hn; [cbn in *; lia|]. cbn [be_bytes].
  rewrite from_be_bytes_snoc, IH.
  - pose proof (Z.div_mod n 256). lia.
  - rewrite Nat2Z.inj_succ, Z.pow_succ_r in Hn by lia. split; [apply Z.div_pos; lia|].
    apply Z.div_lt_upper_bound; lia.
Qed.

Lemma to_from_be_bytes l : Forall is_byte l → be_bytes (length l) (from_be_bytes l) = l.
Proof.
  induction l as [|b l IH] using rev_ind; intros Hl; [done|].
  apply Forall_app in Hl as [Hl Hb]. apply Forall_cons in Hb as [Hb _]. unfold is_byte in Hb.
  rewrite length_app, Nat.add_comm. cbn [length Nat.add be_bytes]. rewrite from_be_bytes_snoc.
  replace ((256 * from_be_bytes l + b) / 256) with (from_be_bytes l).
  2: { rewrite (Z.mul_comm 256), Z.div_add_l, (Z.div_small b) by lia. lia. }
  replace ((256 * from_be_bytes l + b) mod 256) with b.
  2: { rewrite Z.add_comm, (Z.mul_comm 256), Z_mod_plus_full. by rewrite Z.mod_small. }
  by rewrite IH.
Qed.

Lemma be_bytes_bytes k n : Forall is_byte (be_bytes k n).
Proof.
  revert n. induction k as [|k IH]; intros n; [constructor|]. cbn [be_bytes]. apply Forall_app.
  split; [apply IH|]. apply Forall_cons. split; [|constructor]. unfold is_byte.
  pose proof (Z.mod_pos_bound n 256). lia.
Qed.
Lemma from_be_bytes_bounds l :
  Forall is_byte l → 0 ≤ from_be_bytes l < 256 ^ Z.of_nat (length l).
Proof.
  induction l as [|b l IH] using rev_ind; intros Hl; [cbn; lia|].
  apply Forall_app in Hl as [Hl Hb]. apply Forall_cons in Hb as [Hb _]. unfold is_byte in Hb.
  specialize (IH Hl). rewrite from_be_bytes_snoc, length_app, Nat.add_comm. cbn [length Nat.add].
  rewrite Nat2Z.inj_succ, Z.pow_succ_r by lia. lia.
Qed.

(** ** Transcripts *)
Definition absorb (hasher field : bytes) : bytes :=
  hasher ++ be_bytes 8 (Z.of_nat (length field)) ++ field.
Definition transcript (domain : bytes) (parts : list bytes) : bytes :=
  foldl absorb (absorb [] domain) parts.

(** Fields fit the 8-byte length prefix. *)
Definition fits (field : bytes) : Prop := Z.of_nat (length field) < 2 ^ 64.

Lemma absorb_all l h : foldl absorb h l = h ++ foldl absorb [] l.
Proof.
  revert h. induction l as [|f l IH]; intros h; cbn [foldl]; [by rewrite app_nil_r|].
  rewrite IH, (IH (absorb [] f)). unfold absorb. cbn [app]. by rewrite <- !app_assoc.
Qed.

(** The absorbed bytes determine the fields. *)
Lemma absorb_inj l k :
  Forall fits l → Forall fits k → foldl absorb [] l = foldl absorb [] k → l = k.
Proof.
  assert (Hnil : ∀ f l, foldl absorb [] (f :: l) ≠ []).
  { intros f l'. cbn [foldl]. rewrite absorb_all. intros He%app_nil. destruct He as [He _].
    unfold absorb in He. apply (f_equal length) in He.
    rewrite !length_app, length_be_bytes in He. cbn in He. lia. }
  intros Hl. revert k. induction Hl as [|f l Hf Hl IH]; intros [|g k] Hk He; [done| | |].
  - by destruct (Hnil g k).
  - by destruct (Hnil f l).
  - apply Forall_cons in Hk as [Hg Hk].
    cbn [foldl] in He. rewrite (absorb_all l), (absorb_all k) in He.
    unfold absorb at 1 3 in He. cbn [app] in He. rewrite <- !app_assoc in He.
    apply app_inj_1 in He as [Hn He]; [|by rewrite !length_be_bytes].
    assert (Hlen : length f = length g).
    { apply Nat2Z.inj. rewrite <- (from_to_be_bytes 8 (Z.of_nat (length f))) by
        (unfold fits in Hf; cbn; lia). rewrite Hn. apply from_to_be_bytes.
      unfold fits in Hg; cbn; lia. }
    apply app_inj_1 in He as [-> He]; [|done]. f_equal. by apply IH.
Qed.

(** Length prefixes keep the fields apart: equal transcripts have the same
    domain and the same parts. *)
Lemma transcript_inj d d' ps ps' :
  Forall fits (d :: ps) → Forall fits (d' :: ps') →
  transcript d ps = transcript d' ps' → d = d' ∧ ps = ps'.
Proof.
  intros Hd Hd' He. assert (H : d :: ps = d' :: ps') by by apply absorb_inj.
  by injection H.
Qed.
