(* ===== verification/ZkGroup.v ===== *)
(** * Zero-knowledge attestation: the group

    [curve25519_dalek] and [sha2] are outside the repository: [Ristretto] is
    the class of the operations [zkp_verifier.rs] calls, [RistrettoLaws] their
    documented behaviour: scalars form a field, points a group of prime order
    on which they act, and both have canonical 32-byte encodings. *)

From Stdlib Require Import Ring.
From S2P Require Import Prelude Machine ZkBytes.

Class Ristretto := {
  scalar : Type;
  point : Type;
  scalar_eq_dec :: EqDecision scalar;
  point_eq_dec :: EqDecision point;
  ZERO : scalar;
  ONE : scalar;
  sadd : scalar → scalar → scalar;
  smul : scalar → scalar → scalar;
  sneg : scalar → scalar;
  identity : point;
  padd : point → point → point;
  pmul : scalar → point → point;
  BASEPOINT : point;
  compress : point → bytes;
  decompress : bytes → option point;
  scalar_as_bytes : scalar → bytes;
  from_canonical_bytes : bytes → option scalar;
  from_uniform_bytes : bytes → point;
  from_bytes_mod_order_wide : bytes → scalar;
  sha512 : bytes → bytes
}.

Declare Scope group_scope.
Delimit Scope group_scope with G.
Infix "+" := sadd : group_scope.
Infix "*" := smul : group_scope.
Notation "- a" := (sneg a) : group_scope.
Infix "⊕" := padd (at level 50, left associativity) : group_scope.
Infix "•" := pmul (at level 40, left associativity) : group_scope.

(** [a - b] on scalars is [a + -b]. *)
Definition ssub `{Ristretto} (a b : scalar) : scalar := (a + - b)%G.
Infix "-" := ssub : group_scope.

Class RistrettoLaws `{Ristretto} := {
  scalar_ring : ring_theory ZERO ONE sadd smul ssub sneg eq;
  scalar_inv : ∀ a : scalar, a ≠ ZERO → ∃ b, (b * a)%G = ONE;
  padd_assoc : ∀ p q r : point, (p ⊕ (q ⊕ r))%G = (p ⊕ q ⊕ r)%G;
  padd_comm : ∀ p q : point, (p ⊕ q)%G = (q ⊕ p)%G;
  padd_0_l : ∀ p : point, (identity ⊕ p)%G = p;
  pmul_add_l : ∀ a b (p : point), ((a + b) • p)%G = (a • p ⊕ b • p)%G;
  pmul_add_r : ∀ a (p q : point), (a • (p ⊕ q))%G = (a • p ⊕ a • q)%G;
  pmul_mul : ∀ a b (p : point), ((a * b) • p)%G = (a • (b • p))%G;
  pmul_1 : ∀ p : point, (ONE • p)%G = p;
  pmul_0 : ∀ p : point, (ZERO • p)%G = identity;
  decompress_compress : ∀ p, decompress (compress p) = Some p;
  compress_decompress : ∀ b p, decompress b = Some p → compress p = b;
  compress_length : ∀ p, length (compress p) = 32%nat;
  scalar_from_bytes : ∀ a, from_canonical_bytes (scalar_as_bytes a) = Some a;
  scalar_to_bytes : ∀ b a, from_canonical_bytes b = Some a → scalar_as_bytes a = b;
  scalar_length : ∀ a, length (scalar_as_bytes a) = 32%nat;
  compress_bytes : ∀ p, Forall is_byte (compress p);
  scalar_is_bytes : ∀ a, Forall is_byte (scalar_as_bytes a);
  sha512_length : ∀ b, length (sha512 b) = 64%nat
}.

(** [vartime_multiscalar_mul] *)
Definition multiscalar_mul `{Ristretto} (l : list (scalar * point)) : point :=
  foldr (λ ap acc, (ap.1 • ap.2 ⊕ acc)%G) identity l.

Section Group.
Context `{RistrettoLaws}.
Open Scope group_scope.
Add Ring scalars : scalar_ring.

Lemma padd_0_r p : p ⊕ identity = p.
Proof. rewrite padd_comm. apply padd_0_l. Qed.
Lemma pneg_l a (p : point) : - a • p ⊕ a • p = identity.
Proof. rewrite <- pmul_add_l. replace (- a + a) with ZERO by ring. apply pmul_0. Qed.

(** A point is cancelled by its negation. *)
Lemma padd_cancel_l (p q r : point) : p ⊕ q = p ⊕ r → q = r.
Proof.
  intros He. apply (f_equal (padd (- ONE • p))) in He. revert He.
  rewrite !padd_assoc. rewrite <- (pmul_1 p) at 2 4. rewrite pneg_l, !padd_0_l. done.
Qed.

(** What the four points of a proof step amount to. *)
Lemma padd_swap (a b c d : point) : (a ⊕ b) ⊕ (c ⊕ d) = (a ⊕ c) ⊕ (b ⊕ d).
Proof.
  rewrite <- !padd_assoc. f_equal. rewrite !padd_assoc. f_equal. apply padd_comm.
Qed.

Lemma multiscalar_2 a p b q : multiscalar_mul [(a, p); (b, q)] = a • p ⊕ b • q.
Proof. cbn. by rewrite padd_0_r. Qed.
Lemma multiscalar_3 a p b q c r :
  multiscalar_mul [(a, p); (b, q); (c, r)] = a • p ⊕ b • q ⊕ c • r.
Proof. cbn. by rewrite padd_0_r, padd_assoc. Qed.

(** An honest response opens to the honest commitment. *)
Lemma response_1 r c s (p : point) : (r + c * s) • p ⊕ - c • (s • p) = r • p.
Proof.
  rewrite <- pmul_mul, <- pmul_add_l. f_equal. ring.
Qed.
Lemma response_2 r r' c t s (p q : point) :
  (r + c * t) • p ⊕ (r' + c * s) • q ⊕ - c • (t • p ⊕ s • q) = r • p ⊕ r' • q.
Proof.
  rewrite pmul_add_r, padd_swap, !response_1. done.
Qed.

(** Two responses to different challenges determine the witness. *)
Lemma extract_1 z z' c c' (p n : point) i :
  z • p ⊕ - c • n = z' • p ⊕ - c' • n → i * (c - c') = ONE → n = (i * (z - z')) • p.
Proof.
  intros He Hi.
  assert (Hd : (c - c') • n = (z - z') • p).
  { apply (f_equal (padd (c • n ⊕ - z' • p))) in He. revert He.
    rewrite (padd_comm (z • p)), (padd_comm (z' • p)).
    rewrite (padd_swap (c • n) _ (- c • n)), (padd_swap (c • n) _ (- c' • n)), <- !pmul_add_l.
    replace (c + - c) with ZERO by ring. replace (- z' + z) with (z - z') by ring.
    replace (c + - c') with (c - c') by ring. replace (- z' + z') with ZERO by ring.
    rewrite !pmul_0, padd_0_l, padd_0_r. done. }
  rewrite pmul_mul, <- Hd, <- pmul_mul, Hi. by rewrite pmul_1.
Qed.
Lemma extract_2 z z' y y' c c' (p q n : point) i :
  z • p ⊕ y • q ⊕ - c • n = z' • p ⊕ y' • q ⊕ - c' • n → i * (c - c') = ONE →
  n = (i * (z - z')) • p ⊕ (i * (y - y')) • q.
Proof.
  intros He Hi.
  assert (Hd : (c - c') • n = (z - z') • p ⊕ (y - y') • q).
  { apply (f_equal (padd (c • n ⊕ (- z' • p ⊕ - y' • q)))) in He. revert He.
    rewrite (padd_comm (z • p ⊕ y • q)), (padd_comm (z' • p ⊕ y' • q)).
    rewrite (padd_swap (c • n) _ (- c • n)), (padd_swap (c • n) _ (- c' • n)).
    rewrite (padd_swap (- z' • p) _ (z • p)), (padd_swap (- z' • p) _ (z' • p)), <- !pmul_add_l.
    replace (c + - c) with ZERO by ring. replace (- z' + z) with (z - z') by ring.
    replace (- y' + y) with (y - y') by ring. replace (c + - c') with (c - c') by ring.
    replace (- z' + z') with ZERO by ring. replace (- y' + y') with ZERO by ring.
    rewrite !pmul_0, !padd_0_l, padd_0_r. done. }
  rewrite !pmul_mul, <- pmul_add_r, <- Hd, <- pmul_mul, Hi. by rewrite pmul_1.
Qed.

(** The group has prime order: distinct scalars move a point differently. *)
Lemma pmul_inj a b (p : point) : p ≠ identity → a • p = b • p → a = b.
Proof.
  intros Hp He. destruct (decide (a - b = ZERO)) as [Hz|Hz].
  - assert (Ha : a = (a - b) + b) by ring. rewrite Ha, Hz. ring.
  - destruct (scalar_inv _ Hz) as [i Hi]. exfalso. apply Hp.
    rewrite <- (pmul_1 p), <- Hi, pmul_mul.
    assert (Hd : (a - b) • p = identity).
    { unfold ssub. rewrite pmul_add_l, He, padd_comm. apply pneg_l. }
    rewrite Hd. apply (padd_cancel_l (i • identity)). rewrite <- pmul_add_r, padd_0_r. by rewrite padd_0_r.
Qed.
End Group.
