(* ===== verification/ZkMerkle.v ===== *)
(** * Zero-knowledge attestation: hashes, commitments and Merkle roots

    [server/src/utils/zkp_verifier.rs], from the hashing helpers to
    [merkle_root_of_commitments]. *)

From S2P Require Import Prelude Machine ZkBytes ZkGroup.

Definition DOMAIN_GENERATOR_H : bytes := as_bytes "agora/zkp/v1/generator-h".
Definition DOMAIN_TICKET_SCALAR : bytes := as_bytes "agora/zkp/v1/ticket-scalar".
Definition DOMAIN_SECRET_SCALAR : bytes := as_bytes "agora/zkp/v1/secret-scalar".
Definition DOMAIN_NULLIFIER_BASE : bytes := as_bytes "agora/zkp/v1/nullifier-base".
Definition DOMAIN_MERKLE_LEAF : bytes := as_bytes "agora/zkp/v1/merkle-leaf".
Definition DOMAIN_MERKLE_NODE : bytes := as_bytes "agora/zkp/v1/merkle-node".
Definition DOMAIN_TRANSCRIPT : bytes := as_bytes "agora/zkp/v1/fiat-shamir".

Section Hashes.
Context `{Ristretto}.

Definition hash_to_group (domain : bytes) (parts : list bytes) : point :=
  from_uniform_bytes (sha512 (transcript domain parts)).
Definition hash_to_scalar (domain : bytes) (parts : list bytes) : scalar :=
  from_bytes_mod_order_wide (sha512 (transcript domain parts)).
Definition hash32 (domain : bytes) (parts : list bytes) : bytes :=
  take 32 (sha512 (transcript domain parts)).
Definition finalize_to_scalar (hasher : bytes) : scalar :=
  from_bytes_mod_order_wide (sha512 hasher).

Definition generator_h : point := hash_to_group DOMAIN_GENERATOR_H [].
Definition generator_g : point := BASEPOINT.
Definition ticket_scalar (ticket_id : string) : scalar :=
  hash_to_scalar DOMAIN_TICKET_SCALAR [as_bytes ticket_id].
Definition secret_scalar (secret_bytes : bytes) : scalar :=
  hash_to_scalar DOMAIN_SECRET_SCALAR [secret_bytes].
Definition commit (ticket secret : scalar) : point :=
  multiscalar_mul [(ticket, generator_g); (secret, generator_h)].
Definition nullifier_base (event_id epoch : string) : point :=
  hash_to_group DOMAIN_NULLIFIER_BASE [as_bytes event_id; as_bytes epoch].
Definition compute_nullifier (secret : scalar) (event_id epoch : string) : point :=
  pmul secret (nullifier_base event_id epoch).
Definition leaf_hash (commitment : bytes) : bytes := hash32 DOMAIN_MERKLE_LEAF [commitment].
Definition node_hash (left right : bytes) : bytes := hash32 DOMAIN_MERKLE_NODE [left; right].

(** One turn of the loop of [merkle_root]: [level.chunks(2)]. *)
Fixpoint next_level (level : list bytes) : list bytes :=
  match level with
  | a :: b :: rest => node_hash a b :: next_level rest
  | [odd] => [odd]
  | [] => []
  end.

(** [while level.len() > 1]; the fuel bounds the number of turns. *)
Fixpoint merkle_loop (fuel : nat) (level : list bytes) : option bytes :=
  if (1 <? length level)%nat then
    match fuel with
    | O => None
    | S fuel => merkle_loop fuel (next_level level)
    end
  else head level.
Definition merkle_root (leaves : list bytes) : bytes :=
  match leaves with
  | [] => replicate 32 0
  | _ => default [] (merkle_loop (length leaves) leaves)
  end.
Definition merkle_root_of_commitments (commitments : list bytes) : bytes :=
  merkle_root (leaf_hash <$> commitments).

(** ** The tree behind the loop *)
Inductive tree : Type := Leaf (h : bytes) | Node (l r : tree).
Fixpoint tree_hash (t : tree) : bytes :=
  match t with
  | Leaf h => h
  | Node l r => node_hash (tree_hash l) (tree_hash r)
  end.
Fixpoint frontier (t : tree) : list bytes :=
  match t with
  | Leaf h => [h]
  | Node l r => frontier l ++ frontier r
  end.
Fixpoint next_trees (ts : list tree) : list tree :=
  match ts with
  | l :: r :: rest => Node l r :: next_trees rest
  | [odd] => [odd]
  | [] => []
  end.

Fixpoint node_inputs (t : tree) : list bytes :=
  match t with
  | Leaf _ => []
  | Node l r =>
      transcript DOMAIN_MERKLE_NODE [tree_hash l; tree_hash r] :: node_inputs l ++ node_inputs r
  end.

(** What the computation of a root hashes. *)
Fixpoint level_inputs (level : list bytes) : list bytes :=
  match level with
  | a :: b :: rest => transcript DOMAIN_MERKLE_NODE [a; b] :: level_inputs rest
  | _ => []
  end.
Fixpoint loop_inputs (fuel : nat) (level : list bytes) : list bytes :=
  if (1 <? length level)%nat then
    match fuel with
    | O => []
    | S fuel => level_inputs level ++ loop_inputs fuel (next_level level)
    end
  else [].
Definition leaf_input (c : bytes) : bytes := transcript DOMAIN_MERKLE_LEAF [c].
Definition root_inputs (commitments : list bytes) : list bytes :=
  (leaf_input <$> commitments) ++ loop_inputs (length commitments) (leaf_hash <$> commitments).

(** Induction two elements at a time. *)
Lemma pair_ind {A} (P : list A → Prop) :
  P [] → (∀ a, P [a]) → (∀ a b l, P l → P (a :: b :: l)) → ∀ l, P l.
Proof.
  intros H0 H1 H2 l. enough (Hp : P l ∧ ∀ a, P (a :: l)) by apply Hp.
  induction l as [|b l [IH1 IH2]]; split; auto.
Qed.

Lemma next_level_hash ts : next_level (tree_hash <$> ts) = tree_hash <$> next_trees ts.
Proof. induction ts using pair_ind; cbn; congruence. Qed.
Lemma next_trees_frontier ts : concat (map frontier (next_trees ts)) = concat (map frontier ts).
Proof. induction ts as [| |l r ts IH] using pair_ind; cbn; [done|done|]. by rewrite IH, app_assoc. Qed.
Lemma next_trees_shrinks ts :
  (1 < length ts → 0 < length (next_trees ts) < length ts)%nat
  ∧ (length (next_trees ts) ≤ length ts)%nat.
Proof. induction ts as [| |l r ts [IH1 IH2]] using pair_ind; cbn; lia. Qed.

Lemma next_trees_inputs ts :
  concat (map node_inputs (next_trees ts))
  ⊆ level_inputs (tree_hash <$> ts) ++ concat (map node_inputs ts).
Proof.
  induction ts as [| |l r ts IH] using pair_ind; cbn; [done|done|].
  change (list_fmap _ _ tree_hash ts) with (tree_hash <$> ts). set_solver.
Qed.

(** The loop ends, with the hash of a tree over the leaves. *)
Lemma merkle_loop_tree fuel ts :
  ts ≠ [] → (length ts ≤ S fuel)%nat →
  ∃ t, merkle_loop fuel (tree_hash <$> ts) = Some (tree_hash t)
       ∧ frontier t = concat (map frontier ts)
       ∧ node_inputs t ⊆ loop_inputs fuel (tree_hash <$> ts) ++ concat (map node_inputs ts).
Proof.
  revert ts. induction fuel as [|fuel IH]; intros ts Hne Hlen;
    cbn [merkle_loop loop_inputs]; rewrite length_fmap.
  - destruct ts as [|t [|]]; [done| |cbn in Hlen; lia]. exists t. cbn. by rewrite !app_nil_r.
  - destruct (Nat.ltb_spec 1 (length ts)) as [Hlt|Hle].
    + destruct (next_trees_shrinks ts) as [Hs _]. specialize (Hs Hlt).
      destruct (IH (next_trees ts)) as (t & Ht & Hf & Hi); [|lia|].
      { intros He. rewrite He in Hs. cbn in Hs. lia. }
      exists t. rewrite next_level_hash, Hf, next_trees_frontier. split_and!; [done|done|].
      pose proof (next_trees_inputs ts). set_solver.
    + destruct ts as [|t [|]]; [done| |cbn in Hle; lia]. exists t. cbn. by rewrite !app_nil_r.
Qed.

Lemma merkle_root_tree leaves :
  leaves ≠ [] →
  ∃ t, merkle_loop (length leaves) leaves = Some (tree_hash t) ∧ frontier t = leaves
       ∧ node_inputs t ⊆ loop_inputs (length leaves) leaves.
Proof.
  intros Hne. destruct (merkle_loop_tree (length leaves) (Leaf <$> leaves)) as (t & Ht & Hf & Hi).
  - by destruct leaves.
  - rewrite length_fmap. lia.
  - assert (Hid : tree_hash <$> (Leaf <$> leaves) = leaves).
    { rewrite <- list_fmap_compose. apply list_fmap_id. }
    assert (Hj : ∀ l, concat (map frontier (Leaf <$> l)) = l ∧ concat (map node_inputs (Leaf <$> l)) = []).
    { induction l as [|h l [IH1 IH2]]; cbn; [done|]. split; [by f_equal|done]. }
    destruct (Hj leaves) as [Hj1 Hj2]. rewrite Hid in Ht, Hi. rewrite Hj1 in Hf. rewrite Hj2, app_nil_r in Hi.
    by exists t.
Qed.

(** ** Collisions *)

(** Two different inputs among [xs] with the same truncated hash. *)
Definition collision (xs : list bytes) : Prop :=
  ∃ x y, x ∈ xs ∧ y ∈ xs ∧ x ≠ y ∧ take 32 (sha512 x) = take 32 (sha512 y).

Lemma hash32_eq xs d d' ps ps' :
  Forall fits (d :: ps) → Forall fits (d' :: ps') → 
  transcript d ps ∈ xs → transcript d' ps' ∈ xs → hash32 d ps = hash32 d' ps' →
  (d = d' ∧ ps = ps') ∨ collision xs.
Proof.
  intros Hd Hd' Hx Hx' He. destruct (decide (transcript d ps = transcript d' ps')) as [Ht|Ht].
  - left. by apply transcript_inj.
  - right. by exists (transcript d ps), (transcript d' ps').
Qed.

Definition short (b : bytes) : Prop := (length b ≤ 32)%nat.
Lemma short_fits b : short b → fits b.
Proof. unfold short, fits. lia. Qed.
Lemma hash32_short d ps : short (hash32 d ps).
Proof. unfold short, hash32. rewrite length_take. lia. Qed.
Lemma tree_hash_short t : Forall short (frontier t) → short (tree_hash t).
Proof. destruct t; cbn; [by intros [? _]%Forall_cons|]. intros _. apply hash32_short. Qed.

Lemma domains_fit : fits DOMAIN_MERKLE_LEAF ∧ fits DOMAIN_MERKLE_NODE.
Proof. split; vm_compute; reflexivity. Qed.
Lemma domains_differ : DOMAIN_MERKLE_LEAF ≠ DOMAIN_MERKLE_NODE.
Proof. by intros He%as_bytes_inj. Qed.

(** Trees over leaf hashes with the same root are equal, or the hash collides. *)
Definition leafy (xs : list bytes) (h : bytes) : Prop :=
  ∃ c, h = leaf_hash c ∧ fits c ∧ leaf_input c ∈ xs.
Lemma leafy_short xs l : Forall (leafy xs) l → Forall short l.
Proof. intros Hl. eapply Forall_impl; [exact Hl|]. intros h (c & -> & _). apply hash32_short. Qed.
Lemma leafy_tree_fits xs t : Forall (leafy xs) (frontier t) → fits (tree_hash t).
Proof. intros Hl. by eapply short_fits, tree_hash_short, leafy_short. Qed.

Lemma leaf_node_collide xs h l r :
  leafy xs h → Forall (leafy xs) (frontier l) → Forall (leafy xs) (frontier r) →
  node_inputs (Node l r) ⊆ xs → h = tree_hash (Node l r) → collision xs.
Proof.
  intros (c & -> & Hc & Hx) Hl Hr Hin He. destruct domains_fit.
  apply (hash32_eq xs) in He as [[He _]|?]; [by destruct domains_differ|done|..];
    [repeat constructor; eauto using leafy_tree_fits..|done|cbn in Hin; set_solver].
Qed.

Lemma tree_hash_inj xs t t' :
  Forall (leafy xs) (frontier t) → Forall (leafy xs) (frontier t') →
  node_inputs t ⊆ xs → node_inputs t' ⊆ xs →
  tree_hash t = tree_hash t' → t = t' ∨ collision xs.
Proof.
  revert t'. induction t as [h|l IHl r IHr]; intros [h'|l' r'] Hf Hf' Hi Hi' He.
  - left. cbn in He. by rewrite He.
  - right. cbn in Hf, Hf'. apply Forall_cons in Hf as [Hh _]. apply Forall_app in Hf' as [Hl Hr].
    by eapply (leaf_node_collide xs h l' r').
  - right. cbn in Hf, Hf'. apply Forall_cons in Hf' as [Hh _]. apply Forall_app in Hf as [Hl Hr].
    by eapply (leaf_node_collide xs h' l r).
  - cbn in Hf, Hf', Hi, Hi'. apply Forall_app in Hf as [Hl Hr]. apply Forall_app in Hf' as [Hl' Hr'].
    destruct domains_fit. cbn [tree_hash] in He.
    apply (hash32_eq xs) in He as [[_ [= E1 E2]]|?]; [|by right|..];
      [|repeat constructor; eauto using leafy_tree_fits..|set_solver|set_solver].
    destruct (IHl l') as [->|]; [done|done|set_solver|set_solver|done| |by right].
    destruct (IHr r') as [->|]; [done|done|set_solver|set_solver|done|by left|by right].
Qed.

Lemma leaf_hashes_inj xs cs cs' :
  Forall short cs → Forall short cs' → leaf_input <$> cs ⊆ xs → leaf_input <$> cs' ⊆ xs →
  leaf_hash <$> cs = leaf_hash <$> cs' → cs = cs' ∨ collision xs.
Proof.
  intros Hs. revert cs'. induction Hs as [|c cs Hc Hs IH]; intros [|c' cs'] Hs' Hi Hi' He; try done; [by left|].
  rewrite !fmap_cons in He, Hi, Hi'. injection He as E1 E2. apply Forall_cons in Hs' as [Hc' Hs'].
  destruct domains_fit.
  apply (hash32_eq xs) in E1 as [[_ [= ->]]|?]; [|by right|..];
    [|repeat constructor; auto using short_fits..|unfold leaf_input in *; set_solver|unfold leaf_input in *; set_solver].
  destruct (IH cs') as [->|]; [done|set_solver|set_solver|done|by left|by right].
Qed.

(** A Merkle root binds its commitments: computing the root always ends,
    and two non-empty lists of 32-byte commitments with the same root are the
    same list, whatever their lengths, unless two of the byte strings hashed
    on the way, which the computation exhibits, collide under the truncated
    SHA-512. *)
Theorem merkle_root_binds cs cs' :
  cs ≠ [] → cs' ≠ [] → Forall short cs → Forall short cs' →
  merkle_loop (length cs) (leaf_hash <$> cs) = Some (merkle_root_of_commitments cs)
  ∧ (merkle_root_of_commitments cs = merkle_root_of_commitments cs' →
       cs = cs' ∨ collision (root_inputs cs ++ root_inputs cs')).
Proof.
  intros Hne Hne' Hs Hs'.
  assert (Hroot : ∀ cs, cs ≠ [] → ∃ t, merkle_root_of_commitments cs = tree_hash t
    ∧ merkle_loop (length cs) (leaf_hash <$> cs) = Some (tree_hash t)
    ∧ frontier t = leaf_hash <$> cs
    ∧ node_inputs t ⊆ loop_inputs (length cs) (leaf_hash <$> cs)).
  { intros l Hl. destruct (merkle_root_tree (leaf_hash <$> l)) as (t & Ht & Hf & Hi); [by destruct l|].
    exists t. rewrite length_fmap in *. split_and!; [|done..].
    unfold merkle_root_of_commitments, merkle_root. destruct l; [done|]. cbn [fmap list_fmap] in *.
    cbn [length] in *. rewrite length_fmap. by rewrite Ht. }
  destruct (Hroot cs Hne) as (t & -> & Hl & Hf & Hi).
  destruct (Hroot cs' Hne') as (t' & -> & Hl' & Hf' & Hi').
  split; [done|]. intros He. set (xs := root_inputs cs ++ root_inputs cs').
  assert (Hleafy : ∀ cs, Forall short cs → leaf_input <$> cs ⊆ xs → Forall (leafy xs) (leaf_hash <$> cs)).
  { intros l Hsl Hx. apply Forall_fmap, Forall_forall. intros c Hc. exists c. split_and!; [done| |].
    - apply short_fits. by eapply Forall_forall in Hsl.
    - apply Hx, list_elem_of_fmap. eauto. }
  assert (Hx : leaf_input <$> cs ⊆ xs) by (unfold xs, root_inputs; set_solver).
  assert (Hx' : leaf_input <$> cs' ⊆ xs) by (unfold xs, root_inputs; set_solver).
  destruct (tree_hash_inj xs t t') as [->|]; [rewrite Hf; auto|rewrite Hf'; auto| | |done| |by right].
  - unfold xs, root_inputs. set_solver.
  - unfold xs, root_inputs. set_solver.
  - apply leaf_hashes_inj; [done..|congruence].
Qed.
End Hashes.
