(* ===== verification/ZkProof.v ===== *)
(** * Zero-knowledge attestation: proofs, prover and verifier

    [server/src/utils/zkp_verifier.rs], from [ZkpError] to
    [RingChaumPedersen]. *)

From Stdlib Require Import Ring.
From S2P Require Import Prelude Machine ZkBytes ZkGroup ZkMerkle.

Definition PROOF_VERSION : Z := 1.
Definition DEFAULT_EPOCH : string := "checkin".
Definition MAX_RING_SIZE : nat := 256.
Definition PROOF_HEADER_BYTES : nat := 1 + 1 + 2 + 32.
Definition PROOF_BYTES_PER_MEMBER : nat := 32 * 3.

Inductive ZkpError : Type :=
| MalformedProof
| UnsupportedVersion (version : Z)
| NonCanonicalEncoding
| RingSize (got min max : nat)
| RingMismatch
| RootMismatch
| DegenerateNullifier
| VerificationFailed
| WitnessOutOfRange (index : nat)
| WitnessMismatch.

(** ** [AttestationTier] *)
Inductive AttestationTier : Type := General | Age21Plus | Vip.
#[export] Instance AttestationTier_eq_dec : EqDecision AttestationTier.
Proof. solve_decision. Defined.

Module tier.
Definition as_byte (t : AttestationTier) : Z :=
  match t with General => 0 | Age21Plus => 1 | Vip => 2 end.
Definition from_byte (b : Z) : option AttestationTier :=
  match b with 0 => Some General | 1 => Some Age21Plus | 2 => Some Vip | _ => None end.
Definition as_str (t : AttestationTier) : string :=
  match t with General => "general" | Age21Plus => "age21plus" | Vip => "vip" end.
Definition from_str_label (s : string) : option AttestationTier :=
  if bool_decide (s = "general") then Some General
  else if bool_decide (s = "age21plus") then Some Age21Plus
  else if bool_decide (s = "vip") then Some Vip
  else None.
Definition min_ring (t : AttestationTier) : nat :=
  match t with General | Age21Plus => 8 | Vip => 4 end.
End tier.

Section Proofs.
Context `{Ristretto}.
Open Scope group_scope.

(** ** [RingMember], [RingProof], [VerificationContext] *)
Record RingMember : Type := MkMember {
  rm_point : point;
  rm_compressed : bytes
}.
Definition from_compressed (compressed : bytes) : res ZkpError RingMember :=
  let! p := ok_or (decompress compressed) NonCanonicalEncoding in
  Ok (MkMember p compressed).
(** [CompressedRistretto::from_slice] wants 32 bytes. *)
Definition member_from_bytes (b : bytes) : res ZkpError RingMember :=
  do! fail_if (negb (length b =? 32)%nat) NonCanonicalEncoding in
  from_compressed b.
Definition leaf (m : RingMember) : bytes := leaf_hash (rm_compressed m).

Record RingProof : Type := MkProof {
  rp_version : Z;
  rp_tier : AttestationTier;
  rp_nullifier : bytes;
  rp_challenges : list scalar;
  rp_z_ticket : list scalar;
  rp_z_secret : list scalar
}.
Definition ring_size (p : RingProof) : nat := length (rp_challenges p).

Definition scalars_bytes (l : list scalar) : bytes := l ≫= scalar_as_bytes.
Definition to_bytes (p : RingProof) : bytes :=
  let n := Z.of_nat (ring_size p) in
  [rp_version p] ++ [tier.as_byte (rp_tier p)] ++ be_bytes 2 (n mod 2 ^ 16)%Z ++ rp_nullifier p
  ++ scalars_bytes (rp_challenges p) ++ scalars_bytes (rp_z_ticket p)
  ++ scalars_bytes (rp_z_secret p).

(** One group of [n] scalars from the front of the bytes, and the rest. *)
Fixpoint read_scalars (n : nat) (b : bytes) : res ZkpError (list scalar * bytes) :=
  match n with
  | O => Ok ([], b)
  | S n =>
      let! s := ok_or (from_canonical_bytes (take 32 b)) NonCanonicalEncoding in
      let! ' (l, b) := read_scalars n (drop 32 b) in
      Ok (s :: l, b)
  end.
Definition proof_from_bytes (b : bytes) : res ZkpError RingProof :=
  do! fail_if (length b <? PROOF_HEADER_BYTES)%nat MalformedProof in
  let version := nth 0 b 0%Z in
  do! fail_if (negb (version =? PROOF_VERSION)%Z) (UnsupportedVersion version) in
  let! t := ok_or (tier.from_byte (nth 1 b 0%Z)) MalformedProof in
  let n := Z.to_nat (from_be_bytes [nth 2 b 0%Z; nth 3 b 0%Z]) in
  do! fail_if ((n =? 0)%nat || (MAX_RING_SIZE <? n)%nat) (RingSize n 1 MAX_RING_SIZE) in
  do! fail_if (negb (length b =? PROOF_HEADER_BYTES + n * PROOF_BYTES_PER_MEMBER)%nat)
        MalformedProof in
  let nullifier := take 32 (drop 4 b) in
  let! ' (challenges, b) := read_scalars n (drop PROOF_HEADER_BYTES b) in
  let! ' (z_ticket, b) := read_scalars n b in
  let! ' (z_secret, b) := read_scalars n b in
  Ok (MkProof version t nullifier challenges z_ticket z_secret).

Record VerificationContext : Type := MkContext {
  vc_event_id : string;
  vc_epoch : string;
  vc_tier : AttestationTier;
  vc_merkle_root : bytes;
  vc_ring : list RingMember
}.
Record VerifiedAttestation : Type := MkAttestation {
  va_nullifier : bytes;
  va_tier : AttestationTier;
  va_anonymity_set_size : nat
}.

(** ** The transcript *)
Definition base_fields (ctx : VerificationContext) (version : Z) (omega nullifier : bytes)
    : list bytes :=
  [DOMAIN_TRANSCRIPT; [version; tier.as_byte (vc_tier ctx)]; as_bytes (vc_event_id ctx);
   as_bytes (vc_epoch ctx); vc_merkle_root ctx; omega; nullifier;
   be_bytes 8 (Z.of_nat (length (vc_ring ctx)))]
  ++ (rm_compressed <$> vc_ring ctx).
Definition base_transcript (ctx : VerificationContext) (version : Z) (omega nullifier : bytes)
    : bytes :=
  foldl absorb [] (base_fields ctx version omega nullifier).

Definition check_ring_size (ctx : VerificationContext) : res ZkpError unit :=
  let n := length (vc_ring ctx) in
  let min := tier.min_ring (vc_tier ctx) in
  fail_if ((n <? min)%nat || (MAX_RING_SIZE <? n)%nat) (RingSize n min MAX_RING_SIZE).

(** ** The verifier *)
(** [A_i = z_t·G + z_s·H − c_i·C_i] and [B_i = z_s·Ω − c_i·N]. *)
Definition a_point (zt zs c : scalar) (member : point) : point :=
  multiscalar_mul [(zt, generator_g); (zs, generator_h); (- c, member)].
Definition b_point (omega nullifier : point) (zs c : scalar) : point :=
  multiscalar_mul [(zs, omega); (- c, nullifier)].

Fixpoint verify_loop (omega nullifier : point) (ring : list RingMember)
    (cs zts zss : list scalar) (acc : bytes * scalar) : bytes * scalar :=
  match ring, cs, zts, zss with
  | m :: ring, c :: cs, zt :: zts, zs :: zss =>
      let hasher := absorb acc.1 (compress (a_point zt zs c (rm_point m))) in
      let hasher := absorb hasher (compress (b_point omega nullifier zs c)) in
      verify_loop omega nullifier ring cs zts zss (hasher, acc.2 + c)
  | _, _, _, _ => acc
  end.

Definition verify (proof : RingProof) (ctx : VerificationContext)
    : res ZkpError VerifiedAttestation :=
  do! fail_if (negb (rp_version proof =? PROOF_VERSION)%Z)
        (UnsupportedVersion (rp_version proof)) in
  do! fail_if (negb (bool_decide (rp_tier proof = vc_tier ctx))) VerificationFailed in
  do! check_ring_size ctx in
  let n := length (vc_ring ctx) in
  do! fail_if (negb (length (rp_challenges proof) =? n)%nat
               || negb (length (rp_z_ticket proof) =? n)%nat
               || negb (length (rp_z_secret proof) =? n)%nat) RingMismatch in
  do! fail_if (negb (bool_decide (merkle_root (leaf <$> vc_ring ctx) = vc_merkle_root ctx)))
        RootMismatch in
  let! nullifier := ok_or (decompress (rp_nullifier proof)) NonCanonicalEncoding in
  do! fail_if (bool_decide (nullifier = identity)) DegenerateNullifier in
  let omega := nullifier_base (vc_event_id ctx) (vc_epoch ctx) in
  let hasher := base_transcript ctx (rp_version proof) (compress omega) (rp_nullifier proof) in
  let '(hasher, challenge_sum) :=
    verify_loop omega nullifier (vc_ring ctx) (rp_challenges proof) (rp_z_ticket proof)
      (rp_z_secret proof) (hasher, ZERO) in
  do! fail_if (negb (bool_decide (finalize_to_scalar hasher = challenge_sum)))
        VerificationFailed in
  Ok (MkAttestation (rp_nullifier proof) (vc_tier ctx) n).

(** ** The prover *)
Record Witness : Type := MkWitness {
  wt_index : nat;
  wt_ticket : scalar;
  wt_secret : scalar
}.

(** The simulated members: challenge, responses and points at every index but
    [l]; the random scalars are the stream [rng], read in order. *)
Record Simulated : Type := MkSim {
  sm_challenge : scalar;
  sm_zt : scalar;
  sm_zs : scalar;
  sm_a : point;
  sm_b : point
}.
Fixpoint simulate (omega nullifier : point) (l : nat) (i : nat) (ring : list RingMember)
    (rng : nat → scalar) (k : nat) : list Simulated * nat :=
  match ring with
  | [] => ([], k)
  | m :: ring =>
      if (i =? l)%nat then
        let '(rest, k') := simulate omega nullifier l (S i) ring rng k in
        (MkSim ZERO ZERO ZERO identity identity :: rest, k')
      else
        let c := rng k in
        let zt := rng (S k) in
        let zs := rng (S (S k)) in
        let '(rest, k') := simulate omega nullifier l (S i) ring rng (S (S (S k))) in
        (MkSim c zt zs (a_point zt zs c (rm_point m)) (b_point omega nullifier zs c) :: rest, k')
  end.

Definition absorb_points (hasher : bytes) (l : list Simulated) : bytes :=
  foldl (λ h x, absorb (absorb h (compress (sm_a x))) (compress (sm_b x))) hasher l.

(** [challenges.iter().enumerate().filter(|(i, _)| i != l).sum()] *)
Definition sum_except (l : nat) (cs : list scalar) : scalar :=
  foldl sadd ZERO (take l cs ++ drop (S l) cs).

Definition prove (witness : Witness) (ctx : VerificationContext) (rng : nat → scalar)
    : res ZkpError RingProof :=
  do! check_ring_size ctx in
  let n := length (vc_ring ctx) in
  let l := wt_index witness in
  do! fail_if (n <=? l)%nat (WitnessOutOfRange l) in
  let! member := unwrap (vc_ring ctx !! l) in
  do! fail_if (negb (bool_decide (commit (wt_ticket witness) (wt_secret witness)
                                  = rm_point member))) WitnessMismatch in
  let omega := nullifier_base (vc_event_id ctx) (vc_epoch ctx) in
  let nullifier := wt_secret witness • omega in
  let '(sims, k) := simulate omega nullifier l 0 (vc_ring ctx) rng 0 in
  let r_ticket := rng k in
  let r_secret := rng (S k) in
  let a_l := multiscalar_mul [(r_ticket, generator_g); (r_secret, generator_h)] in
  let b_l := r_secret • omega in
  let committed := <[l := MkSim ZERO ZERO ZERO a_l b_l]> sims in
  let hasher := base_transcript ctx PROOF_VERSION (compress omega) (compress nullifier) in
  let challenge := finalize_to_scalar (absorb_points hasher committed) in
  let simulated_sum := sum_except l (sm_challenge <$> committed) in
  let c_l := challenge - simulated_sum in
  let z_t := r_ticket + c_l * wt_ticket witness in
  let z_s := r_secret + c_l * wt_secret witness in
  Ok (MkProof PROOF_VERSION (vc_tier ctx) (compress nullifier)
        (<[l := c_l]> (sm_challenge <$> committed))
        (<[l := z_t]> (sm_zt <$> committed)) (<[l := z_s]> (sm_zs <$> committed))).

(** [RingChaumPedersen::verify_encoded] *)
Definition verify_encoded (proof_bytes : bytes) (ctx : VerificationContext)
    : res ZkpError VerifiedAttestation :=
  let! proof := proof_from_bytes proof_bytes in
  verify proof ctx.
End Proofs.

(** ** Zero-knowledge attestation: completeness, soundness, encoding

    Honest proofs verify; accepting answers to two challenges reveal a
    witness; nullifiers identify secrets; the encoding is unique. *)

Section Specs.
Context `{RistrettoLaws}.
Open Scope group_scope.
Add Ring scalars : scalar_ring.

(** ** Sums of challenges *)
Definition sum (l : list scalar) : scalar := foldl sadd ZERO l.
Lemma sum_from a l : foldl sadd a l = a + sum l.
Proof.
  unfold sum. revert a. induction l as [|x l IH]; intros a; cbn; [ring|].
  rewrite IH, (IH (ZERO + x)). ring.
Qed.
Lemma sum_cons a l : sum (a :: l) = a + sum l.
Proof. unfold sum at 1. cbn. rewrite sum_from. ring. Qed.
Lemma sum_app l k : sum (l ++ k) = sum l + sum k.
Proof. unfold sum at 1. rewrite foldl_app, sum_from. reflexivity. Qed.
Lemma sum_insert l c cs :
  (l < length cs)%nat → sum (<[l := c]> cs) = c + sum_except l cs.
Proof.
  intros Hl. rewrite insert_take_drop by done. unfold sum_except. fold (sum (take l cs ++ drop (S l) cs)).
  rewrite !sum_app, sum_cons. ring.
Qed.

(** ** The points of a proof *)
Fixpoint steps (omega nullifier : point) (ring : list RingMember) (cs zts zss : list scalar)
    : list (point * point) :=
  match ring, cs, zts, zss with
  | m :: ring, c :: cs, zt :: zts, zs :: zss =>
      (a_point zt zs c (rm_point m), b_point omega nullifier zs c)
      :: steps omega nullifier ring cs zts zss
  | _, _, _, _ => []
  end.
Definition step_fields (l : list (point * point)) : list bytes :=
  l ≫= λ ab, [compress ab.1; compress ab.2].
Definition absorb_steps (h : bytes) (l : list (point * point)) : bytes :=
  foldl absorb h (step_fields l).

Lemma verify_loop_spec omega n ring cs zts zss h a :
  length cs = length ring → length zts = length ring → length zss = length ring →
  verify_loop omega n ring cs zts zss (h, a)
  = (absorb_steps h (steps omega n ring cs zts zss), a + sum cs).
Proof.
  revert cs zts zss h a. induction ring as [|m ring IH]; intros [|c cs] [|zt zts] [|zs zss] h a;
    intros Hc Ht Hs; try done; cbn [verify_loop steps].
  - unfold absorb_steps, sum. cbn. f_equal. ring.
  - rewrite IH by (cbn in *; lia). rewrite sum_cons. cbn [fst snd]. f_equal. ring.
Qed.

Lemma steps_length omega n ring cs zts zss :
  length cs = length ring → length zts = length ring → length zss = length ring →
  length (steps omega n ring cs zts zss) = length ring.
Proof.
  revert cs zts zss. induction ring as [|m ring IH]; intros [|c cs] [|zt zts] [|zs zss] Hc Ht Hs;
    try done. cbn in *. rewrite IH by lia. done.
Qed.

Lemma steps_lookup omega n ring cs zts zss i m c zt zs :
  ring !! i = Some m → cs !! i = Some c → zts !! i = Some zt → zss !! i = Some zs →
  steps omega n ring cs zts zss !! i
  = Some (a_point zt zs c (rm_point m), b_point omega n zs c).
Proof.
  revert i cs zts zss. induction ring as [|m' ring IH]; intros [|i] [|c' cs] [|zt' zts] [|zs' zss];
    intros Hm Hc Ht Hs; try done; cbn in *; [congruence|]. by apply IH.
Qed.

(** ** The prover's simulation *)
Lemma simulate_spec omega n l ring rng i k :
  let sims := (simulate omega n l i ring rng k).1 in
  length sims = length ring
  ∧ ∀ j m x, ring !! j = Some m → sims !! j = Some x → (i + j)%nat ≠ l →
      sm_a x = a_point (sm_zt x) (sm_zs x) (sm_challenge x) (rm_point m)
      ∧ sm_b x = b_point omega n (sm_zs x) (sm_challenge x).
Proof.
  revert i k. induction ring as [|m ring IH]; intros i k; cbn; [done|].
  destruct (Nat.eqb_spec i l) as [->|Hne].
  - destruct (IH (S l) k) as [Hl Hx]. destruct (simulate _ _ _ (S l) _ _ _) as [rest k'].
    cbn in *. split; [by rewrite Hl|]. intros [|j] m' x; cbn; [intros; lia|].
    intros Hm Hj Hne. apply (Hx j); [done..|lia].
  - destruct (IH (S i) (S (S (S k)))) as [Hl Hx]. destruct (simulate _ _ _ (S i) _ _ _) as [rest k'].
    cbn in *. split; [by rewrite Hl|]. intros [|j] m' x; cbn; [naive_solver|].
    intros Hm Hj Hn. apply (Hx j); [done..|lia].
Qed.

Lemma absorb_points_spec h l :
  absorb_points h l = absorb_steps h ((λ x, (sm_a x, sm_b x)) <$> l).
Proof.
  unfold absorb_points, absorb_steps. revert h. induction l as [|x l IH]; intros h; [done|].
  cbn [foldl]. rewrite IH. reflexivity.
Qed.

(** ** Completeness *)

(** The honest answer at the prover's own index. *)
Lemma honest_points rt rs c t s omega :
  a_point (rt + c * t) (rs + c * s) c (commit t s)
    = multiscalar_mul [(rt, generator_g); (rs, generator_h)]
  ∧ b_point omega (s • omega) (rs + c * s) c = rs • omega.
Proof.
  unfold a_point, b_point, commit. rewrite multiscalar_3, !multiscalar_2.
  split; [apply response_2|apply response_1].
Qed.

(** The verifier recomputes the points the prover committed to. *)
Lemma honest_steps omega ring l m t s c rt rs sims :
  length sims = length ring → ring !! l = Some m → commit t s = rm_point m →
  (∀ j m x, ring !! j = Some m → sims !! j = Some x → j ≠ l →
     sm_a x = a_point (sm_zt x) (sm_zs x) (sm_challenge x) (rm_point m)
     ∧ sm_b x = b_point omega (s • omega) (sm_zs x) (sm_challenge x)) →
  let honest := MkSim ZERO ZERO ZERO
    (multiscalar_mul [(rt, generator_g); (rs, generator_h)]) (rs • omega) in
  let committed := <[l := honest]> sims in
  steps omega (s • omega) ring (<[l := c]> (sm_challenge <$> committed))
    (<[l := rt + c * t]> (sm_zt <$> committed)) (<[l := rs + c * s]> (sm_zs <$> committed))
  = (λ x, (sm_a x, sm_b x)) <$> committed.
Proof.
  intros Hlen Hm Hopen Hsim honest committed.
  assert (Hl : (l < length sims)%nat) by (rewrite Hlen; by eapply lookup_lt_Some).
  assert (Hc : length committed = length ring) by (unfold committed; by rewrite length_insert).
  apply list_eq. intros i. destruct (decide (i < length ring)%nat) as [Hi|Hi].
  2: { rewrite !lookup_ge_None_2; [done| |]; [rewrite length_fmap; lia|].
       rewrite steps_length; rewrite ?length_insert, ?length_fmap; lia. }
  destruct (lookup_lt_is_Some_2 ring i Hi) as [mi Hmi].
  rewrite list_lookup_fmap. destruct (decide (i = l)) as [->|Hne].
  - rewrite Hmi in Hm. injection Hm as ->. rewrite (steps_lookup _ _ _ _ _ _ _ m c (rt + c * t) (rs + c * s));
      [|done|apply list_lookup_insert_eq; rewrite length_fmap; lia..].
    unfold committed. rewrite list_lookup_insert_eq by done.
    cbn [fmap option_fmap option_map honest sm_a sm_b]. rewrite <- Hopen.
    destruct (honest_points rt rs c t s omega) as [-> ->]. done.
  - assert (Hx : is_Some (sims !! i)) by (apply lookup_lt_is_Some_2; lia).
    destruct Hx as [x Hx]. assert (Hcx : committed !! i = Some x)
      by (unfold committed; by rewrite list_lookup_insert_ne).
    rewrite (steps_lookup _ _ _ _ _ _ _ mi (sm_challenge x) (sm_zt x) (sm_zs x));
      [|done|rewrite list_lookup_insert_ne, list_lookup_fmap, Hcx by done; done..].
    rewrite Hcx. cbn [fmap option_fmap option_map]. destruct (Hsim i mi x) as [-> ->]; done.
Qed.

(** Everything the prover computes, in one equation. *)
Lemma prove_Ok w ctx rng proof :
  prove w ctx rng = Ok proof →
  let l := wt_index w in
  let omega := nullifier_base (vc_event_id ctx) (vc_epoch ctx) in
  let nullifier := wt_secret w • omega in
  let n := length (vc_ring ctx) in
  check_ring_size ctx = Ok tt ∧ (l < n)%nat
  ∧ (∃ m, vc_ring ctx !! l = Some m ∧ commit (wt_ticket w) (wt_secret w) = rm_point m)
  ∧ rp_version proof = PROOF_VERSION ∧ rp_tier proof = vc_tier ctx
  ∧ rp_nullifier proof = compress nullifier
  ∧ length (rp_challenges proof) = n ∧ length (rp_z_ticket proof) = n
  ∧ length (rp_z_secret proof) = n
  ∧ finalize_to_scalar
      (absorb_steps (base_transcript ctx PROOF_VERSION (compress omega) (compress nullifier))
         (steps omega nullifier (vc_ring ctx) (rp_challenges proof) (rp_z_ticket proof)
            (rp_z_secret proof)))
    = sum (rp_challenges proof).
Proof.
  intros Hp l omega nullifier n. unfold prove in Hp. fold l omega nullifier n in Hp. run Hp.
  destruct (simulate omega nullifier l 0 (vc_ring ctx) rng 0) as [sims k] eqn:Esim.
  pose proof (simulate_spec omega nullifier l (vc_ring ctx) rng 0 0) as Hsim. rewrite Esim in Hsim.
  cbn [fst] in Hsim. destruct Hsim as [Hlen Hsim]. injection Hp as <-.
  apply Nat.leb_gt in E0. cbn [rp_version rp_tier rp_nullifier rp_challenges rp_z_ticket rp_z_secret].
  assert (Hl : (l < length sims)%nat) by (rewrite Hlen; lia).
  split_and!; [done|lia|eauto|done|done|done|rewrite ?length_insert, ?length_fmap, ?length_insert; done..|].
  rewrite sum_insert by (rewrite length_fmap, length_insert; done).
  match goal with |- context [sum_except l ?cs] => set (rest := sum_except l cs) end.
  match goal with |- context [?c - rest] => set (challenge := c) end.
  set (c_l := challenge - rest).
  transitivity challenge; [|unfold c_l; ring]. unfold challenge at 1. rewrite absorb_points_spec.
  do 2 f_equal. exact (honest_steps omega (vc_ring ctx) l x1 (wt_ticket w) (wt_secret w) c_l
    (rng k) (rng (S k)) sims Hlen E1 E2 Hsim).
Qed.

(** ** Special soundness *)
Lemma compress_inj p q : compress p = compress q → p = q.
Proof.
  intros He. apply (f_equal decompress) in He. rewrite !decompress_compress in He. congruence.
Qed.
Lemma compress_fits p : fits (compress p).
Proof. unfold fits. rewrite compress_length. lia. Qed.

Lemma step_fields_fit l : Forall fits (step_fields l).
Proof.
  induction l as [|[p q] l IH]; [constructor|]. cbn. repeat constructor; [apply compress_fits..|exact IH].
Qed.
Lemma step_fields_inj l k : step_fields l = step_fields k → l = k.
Proof.
  revert k. induction l as [|[p q] l IH]; intros [|[p' q'] k] He; try done. cbn in He.
  injection He as E1%compress_inj E2%compress_inj E3. subst. f_equal. by apply IH.
Qed.
Lemma absorb_steps_inj h l k : absorb_steps h l = absorb_steps h k → l = k.
Proof.
  unfold absorb_steps. rewrite (absorb_all (step_fields l)), (absorb_all (step_fields k)).
  intros He%app_inv_head%absorb_inj; [|apply step_fields_fit..]. by apply step_fields_inj.
Qed.

(** Lists of challenges with different sums differ somewhere. *)
Lemma sums_differ (l k : list scalar) :
  length l = length k → sum l ≠ sum k →
  ∃ i c c', l !! i = Some c ∧ k !! i = Some c' ∧ c ≠ c'.
Proof.
  revert k. induction l as [|c l IH]; intros [|c' k] Hlen Hs; try done.
  destruct (decide (c = c')) as [<-|]; [|by exists 0%nat, c, c'].
  destruct (IH k) as (i & d & d' & Hd & Hd' & Hne); [by injection Hlen| |by exists (S i), d, d'].
  intros He. apply Hs. by rewrite !sum_cons, He.
Qed.


(** ** Nullifiers *)

(** Nullifiers are tickets' fingerprints: proofs made for the same event
    and epoch carry the same nullifier exactly when they were made with the
    same secret, whatever the ring, the tier, the index and the randomness. *)
Theorem nullifier_identifies w w' ctx ctx' rng rng' p p' :
  prove w ctx rng = Ok p → prove w' ctx' rng' = Ok p' →
  vc_event_id ctx = vc_event_id ctx' → vc_epoch ctx = vc_epoch ctx' →
  nullifier_base (vc_event_id ctx) (vc_epoch ctx) ≠ identity →
  (rp_nullifier p = rp_nullifier p' ↔ wt_secret w = wt_secret w').
Proof.
  intros (_ & _ & _ & _ & _ & -> & _)%prove_Ok (_ & _ & _ & _ & _ & -> & _)%prove_Ok <- <- Hne.
  split; [|by intros ->]. intros He%compress_inj. by eapply pmul_inj.
Qed.

(** ** What a proof is bound to *)
Definition hashed (p : RingProof) (ctx : VerificationContext) (N : point) : bytes :=
  let omega := nullifier_base (vc_event_id ctx) (vc_epoch ctx) in
  absorb_steps (base_transcript ctx (rp_version p) (compress omega) (rp_nullifier p))
    (steps omega N (vc_ring ctx) (rp_challenges p) (rp_z_ticket p) (rp_z_secret p)).

(** The fields of a context that fit their length prefixes; in memory all do. *)
Definition context_fits (ctx : VerificationContext) : Prop :=
  fits (as_bytes (vc_event_id ctx)) ∧ fits (as_bytes (vc_epoch ctx)) ∧ fits (vc_merkle_root ctx)
  ∧ Forall (λ m, fits (rm_compressed m)) (vc_ring ctx)
  ∧ Z.of_nat (length (vc_ring ctx)) < 2 ^ 64.

Lemma base_fields_fit ctx v o n :
  context_fits ctx → fits o → fits n → Forall fits (base_fields ctx v o n).
Proof.
  intros (H1 & H2 & H3 & H4 & _) Ho Hn. unfold base_fields. apply Forall_app. split.
  - repeat (apply Forall_cons; split); try done; unfold fits; cbn; lia.
  - by apply Forall_fmap.
Qed.

Lemma tier_byte_inj t t' : tier.as_byte t = tier.as_byte t' → t = t'.
Proof. by destruct t, t'. Qed.

(** A proof is inert outside its context: if the challenge of two
    verifications is the hash of the same bytes, they agree on version, tier,
    event, epoch, root, the ring's encoded commitments, the nullifier and
    every point the challenge was computed from. *)
Theorem challenge_binds p p' ctx ctx' N N' :
  context_fits ctx → context_fits ctx' → fits (rp_nullifier p) → fits (rp_nullifier p') →
  hashed p ctx N = hashed p' ctx' N' →
  rp_version p = rp_version p' ∧ vc_tier ctx = vc_tier ctx'
  ∧ vc_event_id ctx = vc_event_id ctx' ∧ vc_epoch ctx = vc_epoch ctx'
  ∧ vc_merkle_root ctx = vc_merkle_root ctx'
  ∧ (rm_compressed <$> vc_ring ctx) = (rm_compressed <$> vc_ring ctx')
  ∧ rp_nullifier p = rp_nullifier p'
  ∧ steps (nullifier_base (vc_event_id ctx) (vc_epoch ctx)) N (vc_ring ctx)
      (rp_challenges p) (rp_z_ticket p) (rp_z_secret p)
    = steps (nullifier_base (vc_event_id ctx') (vc_epoch ctx')) N' (vc_ring ctx')
        (rp_challenges p') (rp_z_ticket p') (rp_z_secret p').
Proof.
  intros Hf Hf' Hn Hn'. unfold hashed, absorb_steps, base_transcript. rewrite <- !foldl_app.
  intros He%absorb_inj;
    [|apply Forall_app; split; [apply base_fields_fit; auto using compress_fits|apply step_fields_fit]..].
  unfold base_fields in He. rewrite <- !app_assoc in He. cbn [app] in He.
  remember (be_bytes 8 (Z.of_nat (length (vc_ring ctx)))) as bn eqn:Ebn.
  remember (be_bytes 8 (Z.of_nat (length (vc_ring ctx')))) as bn' eqn:Ebn'.
  injection He as Ev Et Eev Eep Er _ Enu En Erest.
  apply tier_byte_inj in Et. apply as_bytes_inj in Eev, Eep.
  assert (Hlen : length (vc_ring ctx) = length (vc_ring ctx')).
  { apply Nat2Z.inj. destruct Hf as (_ & _ & _ & _ & Hf), Hf' as (_ & _ & _ & _ & Hf').
    rewrite <- (from_to_be_bytes 8 (Z.of_nat (length (vc_ring ctx)))) by (cbn; lia).
    rewrite <- (from_to_be_bytes 8 (Z.of_nat (length (vc_ring ctx')))) by (cbn; lia).
    congruence. }
  apply app_inj_1 in Erest as [Ering Esteps]; [|by rewrite !length_fmap].
  apply step_fields_inj in Esteps. by split_and!.
Qed.

(** ** The wire format *)
Definition proof_ok (p : RingProof) : Prop :=
  rp_version p = PROOF_VERSION ∧ (1 ≤ ring_size p ≤ MAX_RING_SIZE)%nat
  ∧ length (rp_z_ticket p) = ring_size p ∧ length (rp_z_secret p) = ring_size p
  ∧ length (rp_nullifier p) = 32%nat.

Lemma scalars_length l : length (scalars_bytes l) = (32 * length l)%nat.
Proof.
  induction l as [|s l IH]; [done|].
  change (scalars_bytes (s :: l)) with (scalar_as_bytes s ++ scalars_bytes l).
  rewrite length_app, scalar_length, IH. cbn [length]. lia.
Qed.

Lemma read_scalars_app l b : read_scalars (length l) (scalars_bytes l ++ b) = Ok (l, b).
Proof.
  induction l as [|s l IH]; [done|]. cbn [length read_scalars].
  change (scalars_bytes (s :: l)) with (scalar_as_bytes s ++ scalars_bytes l).
  rewrite <- app_assoc. rewrite (take_app_length' _ _ 32) by by rewrite scalar_length.
  rewrite (drop_app_length' _ _ 32) by by rewrite scalar_length.
  rewrite scalar_from_bytes. cbn [ok_or rbind]. by rewrite IH.
Qed.

Lemma read_scalars_Ok n b l b' :
  read_scalars n b = Ok (l, b') → length l = n ∧ b = scalars_bytes l ++ b'.
Proof.
  revert b l. induction n as [|n IH]; intros b l Hr; cbn in Hr; [by simplify_eq|].
  run Hr. destruct x0 as [l1 b1]. run Hr. simplify_eq. apply IH in E0 as [<- Hd].
  split; [done|]. change (scalars_bytes (x :: l1)) with (scalar_as_bytes x ++ scalars_bytes l1).
  rewrite (scalar_to_bytes _ _ E), <- app_assoc, <- Hd. by rewrite take_drop.
Qed.

Lemma be_bytes_2 n : ∃ a b, be_bytes 2 n = [a; b].
Proof. by eexists _, _. Qed.

Lemma tier_byte t : tier.from_byte (tier.as_byte t) = Some t.
Proof. by destruct t. Qed.
Lemma tier_from_byte b t : tier.from_byte b = Some t → tier.as_byte t = b.
Proof.
  unfold tier.from_byte. destruct b as [|[b|[b|b|]|]|b]; try done; by intros [= <-].
Qed.

Lemma decode_encode p : proof_ok p → proof_from_bytes (to_bytes p) = Ok p.
Proof.
  intros (Hv & Hn & Ht & Hs & Hnu). destruct p as [v t nu cs zt zs].
  unfold ring_size, MAX_RING_SIZE in Hn, Ht, Hs. cbn in Hv, Hn, Ht, Hs, Hnu. subst v.
  assert (Hmod : (Z.of_nat (length cs) mod 2 ^ 16)%Z = Z.of_nat (length cs))
    by (apply Z.mod_small; lia).
  assert (Hb : be_bytes 2 (Z.of_nat (length cs) mod 2 ^ 16) = be_bytes 2 (Z.of_nat (length cs)))
    by by rewrite Hmod.
  assert (Hfrom : from_be_bytes (be_bytes 2 (Z.of_nat (length cs))) = Z.of_nat (length cs))
    by (apply from_to_be_bytes; cbn; lia).
  destruct (be_bytes_2 (Z.of_nat (length cs))) as (hi & lo & Ehl). rewrite Ehl in Hb, Hfrom.
  unfold to_bytes, ring_size.
  cbn [rp_version rp_tier rp_nullifier rp_challenges rp_z_ticket rp_z_secret]. rewrite Hb.
  unfold proof_from_bytes. cbn [app length nth].
  rewrite (proj2 (Nat.ltb_ge _ _)) by (rewrite length_app; unfold PROOF_HEADER_BYTES; lia).
  cbn [fail_if rbind negb Z.eqb Pos.eqb PROOF_VERSION]. rewrite tier_byte. cbn [ok_or rbind].
  rewrite Hfrom, Nat2Z.id.
  rewrite (proj2 (Nat.eqb_neq _ _)), (proj2 (Nat.ltb_ge _ _)) by (unfold MAX_RING_SIZE; lia).
  cbn [orb fail_if rbind].
  rewrite (proj2 (Nat.eqb_eq _ _)).
  2: { rewrite !length_app, !scalars_length. unfold PROOF_HEADER_BYTES, PROOF_BYTES_PER_MEMBER. lia. }
  cbn [negb fail_if rbind drop].
  rewrite drop_0, (take_app_length' nu) by done.
  change (drop PROOF_HEADER_BYTES (_ :: _ :: _ :: _ :: ?l)) with (drop 32 l).
  rewrite (drop_app_length' nu) by done.
  rewrite read_scalars_app. cbn [rbind]. rewrite <- Ht, read_scalars_app. cbn [rbind].
  rewrite Ht, <- Hs. rewrite <- (app_nil_r (scalars_bytes zs)), read_scalars_app. reflexivity.
Qed.

Lemma four_front (b : bytes) :
  (36 ≤ length b)%nat →
  b = nth 0 b 0%Z :: nth 1 b 0%Z :: nth 2 b 0%Z :: nth 3 b 0%Z :: take 32 (drop 4 b) ++ drop 36 b.
Proof.
  intros Hl. do 4 (destruct b as [|? b]; [cbn in Hl; lia|]). cbn [nth drop].
  rewrite drop_0. do 4 f_equal. by rewrite take_drop.
Qed.

Lemma encode_decode b p :
  Forall is_byte b → proof_from_bytes b = Ok p → proof_ok p ∧ to_bytes p = b.
Proof.
  intros Hb Hp. unfold proof_from_bytes in Hp. run Hp.
  set (n := Z.to_nat (from_be_bytes [nth 2 b 0%Z; nth 3 b 0%Z])) in *.
  destruct x4 as [cs b1]. run Hp. destruct x as [zt b2]. run Hp. destruct x as [zs b3]. run Hp.
  apply Nat.ltb_ge in E. apply Z.eqb_eq in E0. apply Nat.eqb_neq in H1. apply Nat.ltb_ge in H2.
  apply Nat.eqb_eq in E3. change PROOF_HEADER_BYTES with 36%nat in *.
  change PROOF_BYTES_PER_MEMBER with 96%nat in *.
  apply read_scalars_Ok in E4 as [Hcs Hb1], E2 as [Hzt Hb2], E5 as [Hzs Hb3].
  pose proof (four_front b E) as Hfront.
  assert (Hb4 : b3 = []).
  { apply length_zero_iff_nil. apply (f_equal length) in Hb1.
    rewrite length_drop, Hb2, Hb3, !length_app, !scalars_length in Hb1. lia. }
  subst b3 b2 b1. rewrite app_nil_r in Hb1.
  assert (Hnu : length (take 32 (drop 4 b)) = 32%nat) by (rewrite length_take, length_drop; lia).
  assert (Hbytes : Forall is_byte [nth 2 b 0%Z; nth 3 b 0%Z]).
  { rewrite Hfront in Hb. repeat (apply Forall_cons in Hb as [? Hb]). repeat (apply Forall_cons; split; [done|]). constructor. }
  pose proof (from_be_bytes_bounds _ Hbytes) as Hbound. cbn [length] in Hbound.
  assert (Hn : Z.of_nat n = from_be_bytes [nth 2 b 0%Z; nth 3 b 0%Z]) by (unfold n; lia).
  unfold MAX_RING_SIZE in *. split.
  - unfold proof_ok, ring_size, MAX_RING_SIZE.
    cbn [rp_version rp_z_ticket rp_z_secret rp_challenges rp_nullifier]. split_and!; [done|lia..].
  - unfold to_bytes, ring_size.
    cbn [rp_version rp_tier rp_nullifier rp_challenges rp_z_ticket rp_z_secret].
    rewrite Hcs, Z.mod_small by lia. rewrite Hn.
    pose proof (to_from_be_bytes _ Hbytes) as Hbe. cbn [length] in Hbe. rewrite Hbe.
    rewrite (tier_from_byte _ _ E1), <- Hb1. cbn [app]. by rewrite <- Hfront.
Qed.

(** The encoding of proofs is unique: every well-formed proof decodes from
    its encoding, and every byte string that decodes is the encoding of the
    well-formed proof it decodes to, so no proof has two encodings. *)
Theorem codec_unique p b :
  (proof_ok p → proof_from_bytes (to_bytes p) = Ok p)
  ∧ (Forall is_byte b → proof_from_bytes b = Ok p → proof_ok p ∧ to_bytes p = b).
Proof. split; [apply decode_encode|apply encode_decode]. Qed.

(** ** Completeness from the wire *)
Lemma prove_proof_ok w ctx rng proof : prove w ctx rng = Ok proof → proof_ok proof.
Proof.
  intros (Hs & _ & _ & Hv & Ht & Hnu & Hc & Hzt & Hzs & _)%prove_Ok.
  unfold check_ring_size in Hs. run Hs. apply Nat.ltb_ge in H1, H2.
  unfold proof_ok, ring_size. rewrite Hv, Hc, Hzt, Hzs, Hnu, compress_length.
  split_and!; [done|destruct (vc_tier ctx); cbn in *; lia|lia|done..].
Qed.

Lemma honest_verify w ctx rng proof :
  let nullifier := wt_secret w • nullifier_base (vc_event_id ctx) (vc_epoch ctx) in
  prove w ctx rng = Ok proof →
  merkle_root (leaf <$> vc_ring ctx) = vc_merkle_root ctx → nullifier ≠ identity →
  verify_encoded (to_bytes proof) ctx
  = Ok (MkAttestation (compress nullifier) (vc_tier ctx) (length (vc_ring ctx))).
Proof.
  intros nullifier Hp Hroot Hn. unfold verify_encoded.
  rewrite decode_encode by by eapply prove_proof_ok. cbn [rbind].
  apply prove_Ok in Hp as (Hs & _ & _ & Hv & Ht & Hnu & Hc & Hzt & Hzs & Hf).
  unfold verify. rewrite Hv, Ht, Hnu, Hs, Hc, Hzt, Hzs, !Nat.eqb_refl.
  rewrite !bool_decide_true by done. rewrite decompress_compress.
  cbn [negb orb fail_if rbind ok_or Z.eqb Pos.eqb PROOF_VERSION].
  rewrite bool_decide_false by done. cbn [fail_if rbind].
  rewrite verify_loop_spec by done. cbn iota.
  replace (ZERO + sum (rp_challenges proof)) with (sum (rp_challenges proof)) by ring.
  rewrite bool_decide_true by done. reflexivity.
Qed.

(** Honest proofs verify: for a ring whose Merkle root is the published
    one, a proof the prover returns is accepted by the verifier, from its
    encoding, with the nullifier of the secret and the ring's size; the
    prover returns one exactly when the ring has a permitted size and the
    witness opens the commitment at its index. *)
Theorem honest_proof_verifies w ctx rng :
  let omega := nullifier_base (vc_event_id ctx) (vc_epoch ctx) in
  let nullifier := wt_secret w • omega in
  merkle_root (leaf <$> vc_ring ctx) = vc_merkle_root ctx → nullifier ≠ identity →
  (is_ok (prove w ctx rng) = true ↔
     (tier.min_ring (vc_tier ctx) ≤ length (vc_ring ctx) ≤ MAX_RING_SIZE)%nat
     ∧ ∃ m, vc_ring ctx !! wt_index w = Some m
            ∧ commit (wt_ticket w) (wt_secret w) = rm_point m)
  ∧ ∀ proof, prove w ctx rng = Ok proof →
      verify_encoded (to_bytes proof) ctx
      = Ok (MkAttestation (compress nullifier) (vc_tier ctx) (length (vc_ring ctx))).
Proof.
  intros omega nullifier Hroot Hn. split.
  - split.
    + destruct (prove w ctx rng) as [proof| |] eqn:Hp; [|done..]. intros _.
      apply prove_Ok in Hp as (Hs & Hl & Hm & _). unfold check_ring_size in Hs. run Hs.
      apply Nat.ltb_ge in H1, H2. done.
    + intros [Hs (m & Hm & Ho)]. unfold prove, check_ring_size.
      rewrite (proj2 (Nat.ltb_ge _ _)), (proj2 (Nat.ltb_ge _ _)) by lia. cbn [orb fail_if rbind].
      pose proof (lookup_lt_Some _ _ _ Hm) as Hlt.
      rewrite (proj2 (Nat.leb_gt _ _)) by done. cbn [fail_if rbind]. rewrite Hm. cbn [unwrap rbind].
      rewrite bool_decide_true by done. cbn [negb fail_if rbind].
      by destruct (simulate _ _ _ _ _ _ _).
  - intros proof Hp. by apply (honest_verify w ctx rng).
Qed.
End Specs.
