(* ===== verification/ZkCheckin.v ===== *)
(** * Zero-knowledge attestation: the check-in handlers

    [server/src/handlers/zk_checkin.rs] over the three tables of its
    migration.  A handler is a function of the database; texts of errors and
    log entries are left out.  [hex] is outside the repository and a
    parameter. *)

From S2P Require Import Prelude Machine ZkBytes ZkGroup ZkMerkle ZkProof.

Class HexCodec := {
  hex_encode : bytes → string;
  hex_decode : string → option bytes
}.
Class HexLaws `{HexCodec} := {
  hex_decode_encode : ∀ b, Forall is_byte b → hex_decode (hex_encode b) = Some b;
  hex_encode_length : ∀ b, String.length (hex_encode b) = (2 * length b)%nat
}.

Definition MAX_PROOF_ENCODED_BYTES : nat := 64 * 1024.
Definition scheme_id : string := "ring-cp-ristretto255-v1".

(** The database is taken to be reachable: [DatabaseError] is never produced. *)
Inductive AppError : Type :=
| ValidationError
| AuthError
| Forbidden
| NotFound
| Conflict
| DatabaseError
| ExternalServiceError
| InternalServerError.

(** ** The tables *)
Abbreviation bucket_key := (string * string * Z)%type (only parsing).

Record CommitmentRow : Type := MkRow {
  cr_event_id : string;
  cr_tier : string;
  cr_bucket_index : Z;
  cr_commitment : bytes;
  cr_leaf_hash : bytes
}.
(** [merkle_root] is set exactly when the bucket is sealed. *)
Record Bucket : Type := MkBucket {
  bk_merkle_root : option bytes;
  bk_commitment_count : Z
}.
Record SpentRow : Type := MkSpent {
  sp_tier : string;
  sp_scheme : string;
  sp_anonymity_set_size : Z;
  sp_scanner_id : option string
}.
Record Db : Type := MkDb {
  zk_ticket_commitments : list CommitmentRow;      (** in the order of [id] *)
  zk_anonymity_buckets : gmap (string * string * Z) Bucket;
  zk_spent_nullifiers : gmap (string * string * list Z) SpentRow
}.
#[export] Instance eta_Db : Eta Db := λ d,
  MkDb (zk_ticket_commitments d) (zk_anonymity_buckets d) (zk_spent_nullifiers d).
Definition empty_db : Db := MkDb [] ∅ ∅.

Abbreviation handler A := (res AppError (A * Db)).

(** ** Helpers *)
Definition parse_tier (label : string) : res AppError AttestationTier :=
  ok_or (tier.from_str_label label) ValidationError.
Definition parse_hex_bytes `{HexCodec} (value : string) (expected_len : nat)
    : res AppError bytes :=
  let! b := ok_or (hex_decode value) ValidationError in
  do! fail_if (negb (length b =? expected_len)%nat) ValidationError in
  Ok b.
Definition validate_bucket_index (bucket_index : Z) : res AppError unit :=
  fail_if (bucket_index <? 0) ValidationError.

Definition in_bucket (event_id t : string) (bucket_index : Z) (r : CommitmentRow) : Prop :=
  cr_event_id r = event_id ∧ cr_tier r = t ∧ cr_bucket_index r = bucket_index.
#[export] Instance in_bucket_dec e t b r : Decision (in_bucket e t b r).
Proof. unfold in_bucket. apply _. Defined.
Definition load_bucket_commitments (db : Db) (event_id : string) (t : AttestationTier)
    (bucket_index : Z) : list bytes :=
  cr_commitment <$> filter (in_bucket event_id (tier.as_str t) bucket_index)
                      (zk_ticket_commitments db).

Definition load_sealed_bucket (db : Db) (event_id : string) (t : AttestationTier)
    (bucket_index : Z) : res AppError (bytes * Z) :=
  let! row := ok_or (zk_anonymity_buckets db !! (event_id, tier.as_str t, bucket_index)) NotFound in
  let! root := ok_or (bk_merkle_root row) Conflict in
  Ok (root, bk_commitment_count row).

Definition map_zkp_error (err : ZkpError) : AppError :=
  match err with
  | MalformedProof | NonCanonicalEncoding => ValidationError
  | UnsupportedVersion _ => ValidationError
  | RingSize _ _ _ => ValidationError
  | RingMismatch | RootMismatch => Conflict
  | DegenerateNullifier | VerificationFailed | WitnessOutOfRange _ | WitnessMismatch => AuthError
  end.
Definition map_err {A} (r : res ZkpError A) : res AppError A :=
  match r with Ok a => Ok a | Err e => Err (map_zkp_error e) | Panic => Panic end.

Section Handlers.
Context `{Ristretto} `{HexCodec}.

(** [for row in &rows { ring.push(RingMember::from_bytes(..)?) }] *)
Fixpoint parse_members (rows : list bytes) : res AppError (list RingMember) :=
  match rows with
  | [] => Ok []
  | row :: rows =>
      let! m := map_err (member_from_bytes row) in
      let! ring := parse_members rows in
      Ok (m :: ring)
  end.

(** ** [register_commitment] *)
Record RegisterCommitmentResponse : Type := MkRegistered {
  rc_event_id : string;
  rc_tier : string;
  rc_bucket_index : Z;
  rc_bucket_size : Z;
  rc_created : bool
}.

(** The conflict target of the insertion: [(event_id, tier, commitment)]. *)
Definition same_commitment (event_id t : string) (c : bytes) (r : CommitmentRow) : bool :=
  bool_decide (cr_event_id r = event_id) && bool_decide (cr_tier r = t)
  && bool_decide (cr_commitment r = c).

(** The transaction up to its checks, and its writes. *)
Definition register_check (db : Db) (event_id : string) (t : AttestationTier) (bucket_index : Z)
    : res AppError unit :=
  do! fail_if (match zk_anonymity_buckets db !! (event_id, tier.as_str t, bucket_index) with
               | Some b => bool_decide (is_Some (bk_merkle_root b))
               | None => false
               end) Conflict in
  fail_if (MAX_RING_SIZE <=? length (load_bucket_commitments db event_id t bucket_index))%nat
    Conflict.
Definition register_write (db : Db) (event_id : string) (t : AttestationTier) (bucket_index : Z)
    (commitment leaf_hash : bytes) : bool * Db :=
  let exists_already :=
    existsb (same_commitment event_id (tier.as_str t) commitment) (zk_ticket_commitments db) in
  let db := if exists_already then db
            else db ⟨ zk_ticket_commitments ::= λ l,
                        l ++ [MkRow event_id (tier.as_str t) bucket_index commitment leaf_hash] ⟩ in
  let key := (event_id, tier.as_str t, bucket_index) in
  let db := match zk_anonymity_buckets db !! key with
            | Some _ => db
            | None => db ⟨ zk_anonymity_buckets ::= <[key := MkBucket None 0]> ⟩
            end in
  (negb exists_already, db).

Definition register_commitment_inner (db : Db) (event_id tier_label commitment_hex : string)
    (bucket_index : Z) : handler RegisterCommitmentResponse :=
  let! t := parse_tier tier_label in
  do! validate_bucket_index bucket_index in
  let! commitment := parse_hex_bytes commitment_hex 32 in
  let! member := map_err (member_from_bytes commitment) in
  do! register_check db event_id t bucket_index in
  let '(created, db) := register_write db event_id t bucket_index commitment (leaf member) in
  let bucket_size := Z.of_nat (length (load_bucket_commitments db event_id t bucket_index)) in
  Ok (MkRegistered event_id (tier.as_str t) bucket_index bucket_size created, db).

(** ** [seal_bucket] *)
Record SealBucketResponse : Type := MkSealed {
  sb_event_id : string;
  sb_tier : string;
  sb_bucket_index : Z;
  sb_merkle_root : string;
  sb_commitment_count : Z
}.

(** The reads: the published root, or the one to publish. *)
Definition seal_read (db : Db) (event_id : string) (t : AttestationTier) (bucket_index : Z)
    : res AppError (bytes * Z * bool) :=
  match zk_anonymity_buckets db !! (event_id, tier.as_str t, bucket_index) with
  | Some (MkBucket (Some root) count) => Ok (root, count, true)
  | _ =>
      let rows := load_bucket_commitments db event_id t bucket_index in
      do! fail_if (length rows <? tier.min_ring t)%nat ValidationError in
      let! members := parse_members rows in
      let commitments := rm_compressed <$> members in
      Ok (merkle_root_of_commitments commitments, Z.of_nat (length commitments), false)
  end.
(** [UPDATE .. WHERE .. AND sealed_at IS NULL] *)
Definition seal_write (db : Db) (event_id : string) (t : AttestationTier) (bucket_index : Z)
    (root : bytes) (count : Z) : Db :=
  let key := (event_id, tier.as_str t, bucket_index) in
  match zk_anonymity_buckets db !! key with
  | Some (MkBucket None _) =>
      db ⟨ zk_anonymity_buckets ::= <[key := MkBucket (Some root) count]> ⟩
  | _ => db
  end.
Definition seal_bucket_inner (db : Db) (event_id tier_label : string) (bucket_index : Z)
    : handler SealBucketResponse :=
  let! t := parse_tier tier_label in
  do! validate_bucket_index bucket_index in
  let! ' (root, count, published) := seal_read db event_id t bucket_index in
  let db := if published then db else seal_write db event_id t bucket_index root count in
  Ok (MkSealed event_id (tier.as_str t) bucket_index (hex_encode root) count, db).

(** ** [get_ring] *)
Record RingResponse : Type := MkRing {
  rr_event_id : string;
  rr_tier : string;
  rr_bucket_index : Z;
  rr_merkle_root : string;
  rr_epoch : string;
  rr_commitments : list string
}.
Definition get_ring_inner (db : Db) (event_id tier_label : string) (bucket_index : Z)
    : res AppError RingResponse :=
  let! t := parse_tier tier_label in
  do! validate_bucket_index bucket_index in
  let! ' (root, _) := load_sealed_bucket db event_id t bucket_index in
  let rows := load_bucket_commitments db event_id t bucket_index in
  Ok (MkRing event_id (tier.as_str t) bucket_index (hex_encode root) DEFAULT_EPOCH
        (hex_encode <$> rows)).

(** ** [zk_checkin] *)
Record ZkCheckinRequest : Type := MkCheckin {
  ck_event_id : string;
  ck_tier : string;
  ck_bucket_index : Z;
  ck_epoch : option string;
  ck_proof : string;
  ck_scanner_id : option string
}.
Record ZkCheckinResponse : Type := MkAdmitted {
  ad_admitted : bool;
  ad_tier : string;
  ad_anonymity_set_size : Z;
  ad_nullifier : string
}.
Definition zk_checkin_inner (db : Db) (payload : ZkCheckinRequest) : handler ZkCheckinResponse :=
  let event_id := ck_event_id payload in
  let! t := parse_tier (ck_tier payload) in
  do! validate_bucket_index (ck_bucket_index payload) in
  do! fail_if (MAX_PROOF_ENCODED_BYTES <? String.length (ck_proof payload))%nat ValidationError in
  let! proof_bytes := ok_or (hex_decode (ck_proof payload)) ValidationError in
  let epoch := default DEFAULT_EPOCH (ck_epoch payload) in
  let! ' (root, _) := load_sealed_bucket db event_id t (ck_bucket_index payload) in
  (* [copy_from_slice] traps on another length *)
  do! panic_if (negb (length root =? 32)%nat) in
  let rows := load_bucket_commitments db event_id t (ck_bucket_index payload) in
  let! ring := parse_members rows in
  let ctx := MkContext event_id epoch t root ring in
  let! attestation := map_err (verify_encoded proof_bytes ctx) in
  let key := (event_id, epoch, va_nullifier attestation) in
  do! fail_if (bool_decide (is_Some (zk_spent_nullifiers db !! key))) Conflict in
  let row := MkSpent (tier.as_str t) scheme_id (Z.of_nat (va_anonymity_set_size attestation))
               (ck_scanner_id payload) in
  Ok (MkAdmitted true (tier.as_str t) (Z.of_nat (va_anonymity_set_size attestation))
        (hex_encode (va_nullifier attestation)),
      db ⟨ zk_spent_nullifiers ::= <[key := row]> ⟩).

(** ** Requests as a state machine *)
Inductive request : Type :=
| Register (event_id tier_label commitment_hex : string) (bucket_index : Z)
| Seal (event_id tier_label : string) (bucket_index : Z)
| CheckIn (payload : ZkCheckinRequest).

Definition serve (db : Db) (rq : request) : res AppError Db :=
  match rq with
  | Register e t c b => let! ' (_, db) := register_commitment_inner db e t c b in Ok db
  | Seal e t b => let! ' (_, db) := seal_bucket_inner db e t b in Ok db
  | CheckIn p => let! ' (_, db) := zk_checkin_inner db p in Ok db
  end.

Inductive db_reachable : Db → Prop :=
| db_empty : db_reachable empty_db
| db_serve db rq db' : db_reachable db → serve db rq = Ok db' → db_reachable db'.
End Handlers.
