(* ===== verification/ZkGate.v ===== *)
(** * Zero-knowledge attestation: what the gate guarantees

    Published anonymity sets never change, the holder of a ticket in one is
    admitted, and a nullifier is admitted once per event and epoch. *)

From S2P Require Import Prelude Machine ZkBytes ZkGroup ZkMerkle ZkProof.
From S2P Require Import ZkCheckin.

Lemma as_str_inj t t' : tier.as_str t = tier.as_str t' → t = t'.
Proof. by destruct t, t'. Qed.
Lemma parse_tier_label t : parse_tier (tier.as_str t) = Ok t.
Proof. by destruct t. Qed.

Section Gate.
Context `{RistrettoLaws} `{HexLaws}.
Implicit Types (db : Db) (t : AttestationTier).

(** ** The tables *)
Definition valid_commitment (c : bytes) : Prop := length c = 32%nat ∧ is_Some (decompress c).

Record db_ok db : Prop := {
  db_valid : ∀ r, r ∈ zk_ticket_commitments db → valid_commitment (cr_commitment r);
  db_size : ∀ e t b, (length (load_bucket_commitments db e t b) ≤ MAX_RING_SIZE)%nat;
  db_sealed : ∀ e t b root n,
    zk_anonymity_buckets db !! (e, tier.as_str t, b) = Some (MkBucket (Some root) n) →
    let rows := load_bucket_commitments db e t b in
    root = merkle_root_of_commitments rows ∧ n = Z.of_nat (length rows)
    ∧ (tier.min_ring t ≤ length rows)%nat
}.

Lemma load_valid db e t b c :
  db_ok db → c ∈ load_bucket_commitments db e t b → valid_commitment c.
Proof.
  intros Hok (r & -> & [_ Hr]%list_elem_of_filter)%list_elem_of_fmap. by eapply db_valid.
Qed.

(** Valid rows parse, to members with those encodings. *)
Lemma parse_members_valid rows :
  (∀ c, c ∈ rows → valid_commitment c) →
  ∃ ring, parse_members rows = Ok ring ∧ rm_compressed <$> ring = rows
    ∧ ∀ m, m ∈ ring → decompress (rm_compressed m) = Some (rm_point m).
Proof.
  induction rows as [|c rows IH]; intros Hv; [exists []; cbn; set_solver|].
  destruct IH as (ring & Hp & Hc & Hd); [set_solver|].
  destruct (Hv c) as [Hlen [p Hdec]]; [set_solver|].
  exists (MkMember p c :: ring). cbn [parse_members].
  unfold member_from_bytes, from_compressed. rewrite Hlen. cbn [Nat.eqb negb fail_if rbind].
  rewrite Hdec. cbn [ok_or rbind map_err]. rewrite Hp. cbn [rbind]. split_and!; [done| |].
  - cbn. by rewrite Hc.
  - intros m [->|Hm]%elem_of_cons; [done|by apply Hd].
Qed.

Lemma leaf_compressed (ring : list RingMember) : leaf <$> ring = leaf_hash <$> (rm_compressed <$> ring).
Proof. by rewrite <- list_fmap_compose. Qed.

(** ** Registering *)
Lemma register_write_rows db e t b c h :
  zk_ticket_commitments (register_write db e t b c h).2
  = zk_ticket_commitments db
    ++ (if existsb (same_commitment e (tier.as_str t) c) (zk_ticket_commitments db) then []
        else [MkRow e (tier.as_str t) b c h]).
Proof.
  unfold register_write. destruct (existsb _ _); cbn [snd]; case_match; cbn;
    by rewrite ?app_nil_r.
Qed.

Lemma register_write_load db e t b c h e' t' b' :
  load_bucket_commitments (register_write db e t b c h).2 e' t' b'
  = load_bucket_commitments db e' t' b'
    ++ (if existsb (same_commitment e (tier.as_str t) c) (zk_ticket_commitments db) then []
        else if bool_decide (e = e' ∧ t = t' ∧ b = b') then [c] else []).
Proof.
  unfold load_bucket_commitments. rewrite register_write_rows, filter_app, fmap_app. f_equal.
  destruct (existsb _ _); [done|]. case_bool_decide as Hb.
  - destruct Hb as (<- & <- & <-). by rewrite filter_cons_True.
  - rewrite filter_cons_False; [done|]. intros (? & Ht%as_str_inj & ?). cbn in *. naive_solver.
Qed.

Lemma register_write_buckets db e t b c h k :
  zk_anonymity_buckets (register_write db e t b c h).2 !! k
  = match zk_anonymity_buckets db !! k with
    | Some x => Some x
    | None => if bool_decide (k = (e, tier.as_str t, b)) then Some (MkBucket None 0) else None
    end.
Proof.
  unfold register_write. destruct (existsb _ _); cbn [snd]; cbn [zk_anonymity_buckets];
    destruct (zk_anonymity_buckets db !! (e, tier.as_str t, b)) as [x|] eqn:E;
    (destruct (decide (k = (e, tier.as_str t, b))) as [->|Hne];
     [rewrite bool_decide_true by done|rewrite bool_decide_false by done]); cbn;
    rewrite ?E; cbn; rewrite ?lookup_insert_eq, ?lookup_insert_ne, ?E by done; try done;
    by destruct (zk_anonymity_buckets db !! k).
Qed.

Lemma register_check_Ok db e t b :
  register_check db e t b = Ok tt →
  (∀ root n, zk_anonymity_buckets db !! (e, tier.as_str t, b) ≠ Some (MkBucket (Some root) n))
  ∧ (length (load_bucket_commitments db e t b) < MAX_RING_SIZE)%nat.
Proof.
  unfold register_check. intros Hc. run Hc. apply Nat.leb_gt in Hc. split; [|done].
  intros root n Hs. rewrite Hs in E. discriminate E.
Qed.

Lemma register_ok db e t b c h :
  db_ok db → register_check db e t b = Ok tt → valid_commitment c →
  db_ok (register_write db e t b c h).2.
Proof.
  intros Hok [Hns Hsz]%register_check_Ok Hc. split.
  - intros r. rewrite register_write_rows. intros [Hr|Hr]%elem_of_app; [by eapply db_valid|].
    destruct (existsb _ _); [set_solver|]. apply list_elem_of_singleton in Hr as ->. done.
  - intros e' t' b'. rewrite register_write_load, length_app. pose proof (db_size _ Hok e' t' b').
    destruct (existsb _ _); [cbn; lia|]. case_bool_decide as Hb; cbn; [|lia].
    destruct Hb as (<- & <- & <-). lia.
  - intros e' t' b' root n. rewrite register_write_buckets, register_write_load.
    destruct (zk_anonymity_buckets db !! (e', tier.as_str t', b')) as [x|] eqn:E;
      [intros [= ->]|by case_bool_decide].
    assert (Hne : ¬ (e = e' ∧ t = t' ∧ b = b')).
    { intros (<- & <- & <-). by destruct (Hns root n). }
    rewrite bool_decide_false by done.
    replace (if existsb _ _ then [] else []) with (@nil bytes) by by destruct (existsb _ _).
    rewrite app_nil_r. by eapply db_sealed.
Qed.

(** ** Sealing *)
Lemma seal_read_Ok db e t b root n :
  db_ok db → seal_read db e t b = Ok (root, n, false) →
  let rows := load_bucket_commitments db e t b in
  root = merkle_root_of_commitments rows ∧ n = Z.of_nat (length rows)
  ∧ (tier.min_ring t ≤ length rows)%nat.
Proof.
  intros Hok. unfold seal_read.
  destruct (parse_members_valid (load_bucket_commitments db e t b)) as (ring & Hp & Hc & _);
    [intros c Hc; by eapply load_valid|].
  assert (Hr : ∀ x, (do! fail_if (length (load_bucket_commitments db e t b) <? tier.min_ring t)%nat
                  ValidationError in
          let! members := parse_members (load_bucket_commitments db e t b) in
          let commitments := rm_compressed <$> members in
          Ok (merkle_root_of_commitments commitments, Z.of_nat (length commitments), false)) = Ok x →
     x = (root, n, false) → root = merkle_root_of_commitments (load_bucket_commitments db e t b)
     ∧ n = Z.of_nat (length (load_bucket_commitments db e t b))
     ∧ (tier.min_ring t ≤ length (load_bucket_commitments db e t b))%nat).
  { intros x Hx ->. run Hx. rewrite Hp in E0. simplify_eq. rewrite Hc. apply Nat.ltb_ge in E. done. }
  destruct (zk_anonymity_buckets db !! (e, tier.as_str t, b)) as [[[r|] k]|]; intros Hs;
    [by simplify_eq|by eapply Hr|by eapply Hr].
Qed.

Lemma seal_write_buckets db e t b root n k :
  zk_anonymity_buckets (seal_write db e t b root n) !! k
  = match zk_anonymity_buckets db !! k with
    | Some (MkBucket None m) =>
        Some (if bool_decide (k = (e, tier.as_str t, b)) then MkBucket (Some root) n
              else MkBucket None m)
    | x => x
    end.
Proof.
  unfold seal_write.
  destruct (zk_anonymity_buckets db !! (e, tier.as_str t, b)) as [[[r|] m]|] eqn:E;
    (destruct (decide (k = (e, tier.as_str t, b))) as [->|Hne];
     [rewrite bool_decide_true by done|rewrite bool_decide_false by done]); cbn;
    rewrite ?lookup_insert_eq, ?lookup_insert_ne, ?E by done; try done;
    by destruct (zk_anonymity_buckets db !! k) as [[[]]|].
Qed.
Lemma seal_write_rest db e t b root n :
  zk_ticket_commitments (seal_write db e t b root n) = zk_ticket_commitments db
  ∧ zk_spent_nullifiers (seal_write db e t b root n) = zk_spent_nullifiers db.
Proof. unfold seal_write. by repeat case_match. Qed.

Lemma seal_ok db e t b root n :
  db_ok db → seal_read db e t b = Ok (root, n, false) → db_ok (seal_write db e t b root n).
Proof.
  intros Hok Hs. destruct (seal_write_rest db e t b root n) as [Hrows _].
  assert (Hload : ∀ e' t' b', load_bucket_commitments (seal_write db e t b root n) e' t' b'
    = load_bucket_commitments db e' t' b') by (intros; unfold load_bucket_commitments; by rewrite Hrows).
  split.
  - rewrite Hrows. by apply db_valid.
  - intros e' t' b'. rewrite Hload. by apply db_size.
  - intros e' t' b' root' n'. rewrite Hload, seal_write_buckets.
    destruct (zk_anonymity_buckets db !! (e', tier.as_str t', b')) as [[[r|] m]|] eqn:E; [| |done].
    + intros [= -> ->]. by eapply db_sealed.
    + case_bool_decide as Hk; [|done]. injection Hk as -> ->%as_str_inj ->. intros [= -> ->].
      by apply seal_read_Ok.
Qed.

(** ** Checking in *)
Lemma map_err_Ok {A} (r : res ZkpError A) a : map_err r = Ok a → r = Ok a.
Proof. by destruct r; intros [= ->]. Qed.

Lemma checkin_Ok db p resp db' :
  zk_checkin_inner db p = Ok (resp, db') →
  ∃ t proof_bytes root n ring att,
    let epoch := default DEFAULT_EPOCH (ck_epoch p) in
    let ctx := MkContext (ck_event_id p) epoch t root ring in
    let key := (ck_event_id p, epoch, va_nullifier att) in
    tier.from_str_label (ck_tier p) = Some t
    ∧ hex_decode (ck_proof p) = Some proof_bytes
    ∧ load_sealed_bucket db (ck_event_id p) t (ck_bucket_index p) = Ok (root, n)
    ∧ parse_members (load_bucket_commitments db (ck_event_id p) t (ck_bucket_index p)) = Ok ring
    ∧ verify_encoded proof_bytes ctx = Ok att
    ∧ zk_spent_nullifiers db !! key = None
    ∧ resp = MkAdmitted true (tier.as_str t) (Z.of_nat (va_anonymity_set_size att))
               (hex_encode (va_nullifier att))
    ∧ db' = db ⟨ zk_spent_nullifiers ::= <[key := MkSpent (tier.as_str t) scheme_id
                   (Z.of_nat (va_anonymity_set_size att)) (ck_scanner_id p)]> ⟩.
Proof.
  unfold zk_checkin_inner, parse_tier. intros Hc. run Hc. destruct x3 as [root n]. run Hc.
  exists x, x2, root, n, x1, x3. cbv zeta. split_and!; [done..|by apply map_err_Ok| |done|done].
  by apply eq_None_not_Some.
Qed.

(** ** Every request keeps the tables in order *)
Lemma member_valid c m : member_from_bytes c = Ok m → valid_commitment c.
Proof.
  unfold member_from_bytes, from_compressed. intros Hm. run Hm.
  apply Nat.eqb_eq in E. split; [done|by eexists].
Qed.

Lemma serve_ok db rq db' : db_ok db → serve db rq = Ok db' → db_ok db'.
Proof.
  intros Hok Hs. destruct rq as [e l c b|e l b|p]; cbn [serve] in Hs;
    apply rbind_Ok in Hs as ([resp db1] & Hc & [= <-]).
  - unfold register_commitment_inner in Hc. run Hc.
    destruct (register_write db e x b x1 (leaf x2)) as [created db2] eqn:Ew. simplify_eq.
    change db1 with (created, db1).2. rewrite <- Ew. apply register_ok; [done|done|].
    eapply member_valid, map_err_Ok. eassumption.
  - unfold seal_bucket_inner in Hc. run Hc. destruct x1 as [[root n] published]. simplify_eq.
    destruct published; [done|]. by apply seal_ok.
  - apply checkin_Ok in Hc as (t & pb & root & n & ring & att & _ & _ & _ & _ & _ & _ & _ & ->).
    destruct Hok as [H1' H2' H3']. split; [exact H1'|exact H2'|exact H3'].
Qed.

Lemma reachable_db_ok db : db_reachable db → db_ok db.
Proof.
  induction 1 as [|db rq db' _ IH Hs]; [|by eapply serve_ok].
  split; cbn; [set_solver|intros; unfold MAX_RING_SIZE; lia|done].
Qed.

(** ** Published sets *)
Lemma load_sealed_Ok db e t b root n :
  load_sealed_bucket db e t b = Ok (root, n) ↔
  zk_anonymity_buckets db !! (e, tier.as_str t, b) = Some (MkBucket (Some root) n).
Proof.
  unfold load_sealed_bucket.
  destruct (zk_anonymity_buckets db !! (e, tier.as_str t, b)) as [[[r|] k]|]; cbn; naive_solver.
Qed.

(** A published anonymity set is frozen: in every reachable database the
    root of a sealed bucket is the Merkle root of its commitments, its count
    is their number, within the limits of its tier; and no request changes
    the root or the commitments again. *)
Theorem sealed_set_frozen db e t b root n :
  db_reachable db → load_sealed_bucket db e t b = Ok (root, n) →
  let rows := load_bucket_commitments db e t b in
  root = merkle_root_of_commitments rows ∧ n = Z.of_nat (length rows)
  ∧ (tier.min_ring t ≤ length rows ≤ MAX_RING_SIZE)%nat
  ∧ ∀ rq db', serve db rq = Ok db' →
      load_sealed_bucket db' e t b = Ok (root, n) ∧ load_bucket_commitments db' e t b = rows.
Proof.
  intros Hok%reachable_db_ok Hl rows. apply load_sealed_Ok in Hl.
  destruct (db_sealed _ Hok _ _ _ _ _ Hl) as (Hr & Hn & Hmin). split_and!; [done|done|done|apply (db_size _ Hok)|].
  intros rq db' Hs. rewrite load_sealed_Ok. destruct rq as [e' l c b'|e' l b'|p]; cbn [serve] in Hs;
    apply rbind_Ok in Hs as ([resp db1] & Hc & [= <-]).
  - unfold register_commitment_inner in Hc. run Hc.
    match goal with Hk : register_check _ _ _ _ = Ok _ |- _ =>
      apply register_check_Ok in Hk as [Hns _] end.
    destruct (register_write db e' x b' x1 (leaf x2)) as [created db2] eqn:Ew. simplify_eq.
    change db1 with (created, db1).2. rewrite <- Ew, register_write_buckets, register_write_load, Hl.
    split; [done|]. rewrite bool_decide_false.
    2: { intros (-> & -> & ->). by destruct (Hns _ _ Hl). }
    unfold rows. destruct (existsb _ _); by rewrite app_nil_r.
  - unfold seal_bucket_inner in Hc. run Hc. destruct x1 as [[root' n'] published]. simplify_eq.
    destruct published; [done|]. rewrite seal_write_buckets, Hl. split; [done|].
    unfold load_bucket_commitments. by rewrite (proj1 (seal_write_rest _ _ _ _ _ _)).
  - apply checkin_Ok in Hc as (t' & pb & root' & n' & ring & att & _ & _ & _ & _ & _ & _ & _ & ->).
    done.
Qed.

(** ** Admission *)
Lemma scalars_is_bytes l : Forall is_byte (scalars_bytes l).
Proof.
  induction l as [|s l IH]; [constructor|].
  change (scalars_bytes (s :: l)) with (scalar_as_bytes s ++ scalars_bytes l).
  apply Forall_app. split; [apply scalar_is_bytes|done].
Qed.

Lemma proof_bytes_ok w ctx rng proof :
  prove w ctx rng = Ok proof →
  Forall is_byte (to_bytes proof) ∧ (length (to_bytes proof) ≤ 36 + 96 * 256)%nat.
Proof.
  intros Hp. pose proof (prove_proof_ok _ _ _ _ Hp) as (Hv & Hn & Hzt & Hzs & Hnu).
  apply prove_Ok in Hp as (_ & _ & _ & _ & _ & Hnull & _). unfold to_bytes. split.
  - rewrite !Forall_app, !Forall_singleton, Hnull, Hv. unfold is_byte at 1 2, PROOF_VERSION.
    split_and!; auto using be_bytes_bytes, scalars_is_bytes, compress_bytes; try lia;
      destruct (rp_tier proof); cbn; lia.
  - rewrite !length_app, length_be_bytes, !scalars_length. unfold ring_size, MAX_RING_SIZE in *.
    cbn [length]. lia.
Qed.

Lemma hash32_length d ps : length (hash32 d ps) = 32%nat.
Proof. unfold hash32. rewrite length_take, sha512_length. lia. Qed.
Lemma root_length cs : length (merkle_root_of_commitments cs) = 32%nat.
Proof.
  unfold merkle_root_of_commitments. destruct cs as [|c cs]; [apply length_replicate|].
  destruct (merkle_root_tree (leaf_hash <$> (c :: cs))) as (tr & Ht & Hf & _); [done|].
  unfold merkle_root. cbn [fmap list_fmap] in *. rewrite Ht. cbn [default from_option].
  destruct tr; cbn in *; [|apply hash32_length]. injection Hf as -> _. apply hash32_length.
Qed.

(** The holder of a ticket in a sealed bucket passes the gate. *)
Lemma checkin_admits db e t b root n ring w epoch rng proof scanner :
  db_ok db → 0 ≤ b → load_sealed_bucket db e t b = Ok (root, n) →
  parse_members (load_bucket_commitments db e t b) = Ok ring →
  let ctx := MkContext e epoch t root ring in
  let nullifier := pmul (wt_secret w) (nullifier_base e epoch) in
  let key := (e, epoch, compress nullifier) in
  prove w ctx rng = Ok proof → nullifier ≠ identity → zk_spent_nullifiers db !! key = None →
  zk_checkin_inner db
    (MkCheckin e (tier.as_str t) b (Some epoch) (hex_encode (to_bytes proof)) scanner)
  = Ok (MkAdmitted true (tier.as_str t) (Z.of_nat (length ring)) (hex_encode (compress nullifier)),
        db ⟨ zk_spent_nullifiers ::= <[key := MkSpent (tier.as_str t) scheme_id
               (Z.of_nat (length ring)) scanner]> ⟩).
Proof.
  intros Hok Hb Hl Hring ctx nullifier key Hp Hn Hfresh.
  destruct (proof_bytes_ok _ _ _ _ Hp) as [Hbytes Hlen].
  pose proof (proj1 (load_sealed_Ok _ _ _ _ _ _) Hl) as Hs.
  destruct (db_sealed _ Hok _ _ _ _ _ Hs) as (Hroot & _).
  unfold zk_checkin_inner. cbn [ck_event_id ck_tier ck_bucket_index ck_epoch ck_proof ck_scanner_id].
  rewrite parse_tier_label. cbn [rbind]. unfold validate_bucket_index.
  rewrite (proj2 (Z.ltb_ge _ _)) by done. cbn [fail_if rbind].
  rewrite (proj2 (Nat.ltb_ge _ _)).
  2: { rewrite hex_encode_length. change MAX_PROOF_ENCODED_BYTES with (64 * 1024)%nat. lia. }
  cbn [fail_if rbind]. rewrite hex_decode_encode by done. cbn [ok_or rbind default from_option].
  rewrite Hl. cbn [rbind]. rewrite Hroot at 1. rewrite root_length. cbn [Nat.eqb negb panic_if rbind].
  rewrite Hring. cbn [rbind]. change (id epoch) with epoch. fold ctx.
  rewrite (honest_verify w ctx rng proof); [|done| |done].
  2: { destruct (parse_members_valid (load_bucket_commitments db e t b)) as (ring' & Hp' & Hc & _);
         [intros c Hc; by eapply load_valid|].
       rewrite Hring in Hp'. injection Hp' as <-. unfold ctx. cbn [vc_ring vc_merkle_root].
       rewrite leaf_compressed, Hc. by rewrite Hroot. }
  cbv zeta. unfold ctx.
  cbn [map_err rbind va_nullifier va_anonymity_set_size vc_event_id vc_epoch vc_tier vc_ring].
  fold nullifier. fold key. rewrite bool_decide_false by (rewrite Hfresh; by intros []).
  reflexivity.
Qed.


(** ** Single use *)
Lemma spent_stays db rq db' key :
  serve db rq = Ok db' → is_Some (zk_spent_nullifiers db !! key) →
  is_Some (zk_spent_nullifiers db' !! key).
Proof.
  intros Hs Hk. destruct rq as [e' l c b'|e' l b'|p]; cbn [serve] in Hs;
    apply rbind_Ok in Hs as ([resp db1] & Hc & [= <-]).
  - unfold register_commitment_inner in Hc. run Hc.
    destruct (register_write db e' x b' x1 (leaf x2)) as [created db2] eqn:Ew. simplify_eq.
    change db1 with (created, db1).2. rewrite <- Ew. unfold register_write. by repeat case_match.
  - unfold seal_bucket_inner in Hc. run Hc. destruct x1 as [[root' n'] published]. simplify_eq.
    destruct published; [done|]. by rewrite (proj2 (seal_write_rest _ _ _ _ _ _)).
  - apply checkin_Ok in Hc as (t' & pb & root' & n' & ring & att & _ & _ & _ & _ & _ & _ & _ & ->).
    cbn. rewrite lookup_insert. case_decide; [by eexists|done].
Qed.

Lemma verified_nullifier_bytes b ctx att :
  verify_encoded b ctx = Ok att → Forall is_byte (va_nullifier att).
Proof.
  unfold verify_encoded. intros Hv. run Hv. unfold verify in Hv. run Hv.
  destruct (verify_loop _ _ _ _ _ _ _) as [h s]. run Hv. cbn.
  match goal with Hd : decompress _ = Some _ |- _ => rewrite <- (compress_decompress _ _ Hd) end.
  apply compress_bytes.
Qed.

Inductive serves : Db → Db → Prop :=
| serves_refl db : serves db db
| serves_step db rq db1 db2 : serve db rq = Ok db1 → serves db1 db2 → serves db db2.

Lemma serves_spent db db' key :
  serves db db' → is_Some (zk_spent_nullifiers db !! key) →
  is_Some (zk_spent_nullifiers db' !! key).
Proof. induction 1; eauto using spent_stays. Qed.

(** C37. A nullifier is admitted once: after a check-in, and whatever is served
    in between, every further check-in for the same event and epoch that is
    admitted has another nullifier. *)
Theorem nullifier_single_use db p resp db1 db2 p' resp' db3 :
  zk_checkin_inner db p = Ok (resp, db1) → serves db1 db2 →
  zk_checkin_inner db2 p' = Ok (resp', db3) →
  ck_event_id p' = ck_event_id p →
  default DEFAULT_EPOCH (ck_epoch p') = default DEFAULT_EPOCH (ck_epoch p) →
  ad_nullifier resp' ≠ ad_nullifier resp.
Proof.
  intros Hc Hs Hc' He Hep.
  apply checkin_Ok in Hc as (t & pb & root & n & ring & att & _ & _ & _ & _ & Hv & _ & -> & ->).
  apply checkin_Ok in Hc' as (t' & pb' & root' & n' & ring' & att' & _ & _ & _ & _ & Hv' & Hfresh & -> & _).
  set (key := (ck_event_id p, default DEFAULT_EPOCH (ck_epoch p), va_nullifier att)) in *.
  assert (Hk : is_Some (zk_spent_nullifiers db2 !! key)).
  { eapply serves_spent; [exact Hs|]. cbn. rewrite lookup_insert_eq. by eexists. }
  cbn [ad_nullifier]. intros Heq. apply (f_equal hex_decode) in Heq.
  rewrite !hex_decode_encode in Heq by by eapply verified_nullifier_bytes.
  injection Heq as Heq. rewrite He, Hep, Heq in Hfresh. fold key in Hfresh.
  rewrite Hfresh in Hk. by destruct Hk.
Qed.

(** A ticket is not single-use: the caller chooses the epoch, so a holder
    admitted under one epoch is admitted again, with the same ticket, under
    any other epoch in which the nullifier has not been spent. *)
Theorem epoch_reentry db e t b root n ring w epoch epoch' rng rng' proof proof' scanner :
  db_reachable db → 0 ≤ b → load_sealed_bucket db e t b = Ok (root, n) →
  parse_members (load_bucket_commitments db e t b) = Ok ring → epoch ≠ epoch' →
  let nul ep := pmul (wt_secret w) (nullifier_base e ep) in
  prove w (MkContext e epoch t root ring) rng = Ok proof → nul epoch ≠ identity →
  prove w (MkContext e epoch' t root ring) rng' = Ok proof' → nul epoch' ≠ identity →
  zk_spent_nullifiers db !! (e, epoch, compress (nul epoch)) = None →
  zk_spent_nullifiers db !! (e, epoch', compress (nul epoch')) = None →
  let rq ep pr := MkCheckin e (tier.as_str t) b (Some ep) (hex_encode (to_bytes pr)) scanner in
  ∃ resp db1 resp' db2,
    zk_checkin_inner db (rq epoch proof) = Ok (resp, db1) ∧ ad_admitted resp = true
    ∧ zk_checkin_inner db1 (rq epoch' proof') = Ok (resp', db2) ∧ ad_admitted resp' = true.
Proof.
  intros Hr Hb Hl Hring Hne nul Hp Hn Hp' Hn' Hf Hf' rq.
  pose proof (reachable_db_ok _ Hr) as Hok.
  pose proof (checkin_admits _ _ _ _ _ _ _ _ _ _ _ scanner Hok Hb Hl Hring Hp Hn Hf) as H1'.
  eexists _, _. unfold rq. rewrite H1'.
  match type of H1' with _ = Ok (_, ?d) => set (db1 := d) in * end.
  assert (Hok1 : db_ok db1).
  { eapply (serve_ok db (CheckIn (rq epoch proof))); [done|]. cbn [serve]. unfold rq. by rewrite H1'. }
  assert (Hf1 : zk_spent_nullifiers db1 !! (e, epoch', compress (nul epoch')) = None).
  { unfold db1. cbn. rewrite lookup_insert_ne; [done|]. congruence. }
  pose proof (checkin_admits db1 _ _ _ _ _ _ _ _ _ _ scanner Hok1 Hb Hl Hring Hp' Hn' Hf1) as H2'.
  eexists _, _. split_and!; [reflexivity|done|exact H2'|done].
Qed.
End Gate.
