(* ===== verification/ZkExamples.v ===== *)
(** * Zero-knowledge attestation: a running instance

    The integers modulo 7 as scalars and points, a small mixing function as
    the hash and lower-case hexadecimal: the theorems are applied to rings,
    proofs and databases that are computed. *)

From Stdlib Require Import Ring.
From S2P Require Import Prelude Machine ZkBytes ZkGroup ZkMerkle ZkProof.
From S2P Require Import ZkCheckin ZkGate.

(** ** The integers modulo 7 *)
Inductive F7 : Type := f0 | f1 | f2 | f3 | f4 | f5 | f6.
#[export] Instance F7_eq_dec : EqDecision F7.
Proof. solve_decision. Defined.
Definition to_Z (a : F7) : Z :=
  match a with f0 => 0 | f1 => 1 | f2 => 2 | f3 => 3 | f4 => 4 | f5 => 5 | f6 => 6 end.
Definition of_Z (z : Z) : F7 :=
  match z mod 7 with 0 => f0 | 1 => f1 | 2 => f2 | 3 => f3 | 4 => f4 | 5 => f5 | _ => f6 end.
Definition encode7 (a : F7) : bytes := to_Z a :: replicate 31 0.
Definition decode7 (b : bytes) : option F7 :=
  match b with
  | x :: rest =>
      if bool_decide (rest = replicate 31 0) && (0 <=? x) && (x <? 7) then Some (of_Z x) else None
  | [] => None
  end.
Definition mix (b : bytes) : Z := foldl (λ a x, (31 * a + x + 11) mod 256) 5 b.

#[export] Instance F7_group : Ristretto := {|
  scalar := F7; point := F7; ZERO := f0; ONE := f1;
  sadd := λ a b, of_Z (to_Z a + to_Z b); smul := λ a b, of_Z (to_Z a * to_Z b);
  sneg := λ a, of_Z (- to_Z a);
  identity := f0; padd := λ a b, of_Z (to_Z a + to_Z b); pmul := λ a b, of_Z (to_Z a * to_Z b);
  BASEPOINT := f1;
  compress := encode7; decompress := decode7;
  scalar_as_bytes := encode7; from_canonical_bytes := decode7;
  from_uniform_bytes := λ b, of_Z (1 + nth 0 b 0 mod 6);
  from_bytes_mod_order_wide := λ b, of_Z (nth 0 b 0 + nth 1 b 0);
  sha512 := λ b, (λ i, (mix b * (i + 1) + i) mod 256) <$> seqZ 0 64
|}.

Lemma decode_encode7 a : decode7 (encode7 a) = Some a.
Proof. by destruct a. Qed.
Lemma of_to_Z z : 0 ≤ z < 7 → to_Z (of_Z z) = z.
Proof.
  intros Hz. assert (z = 0 ∨ z = 1 ∨ z = 2 ∨ z = 3 ∨ z = 4 ∨ z = 5 ∨ z = 6) by lia.
  destruct_or!; by subst.
Qed.
Lemma encode_decode7 b a : decode7 b = Some a → encode7 a = b.
Proof.
  unfold decode7, encode7. destruct b as [|x rest]; [done|].
  destruct (_ && _) eqn:E; [|done]. intros [= <-]. bool_props. subst rest.
  rewrite of_to_Z by lia. done.
Qed.
Lemma encode7_bytes a : Forall is_byte (encode7 a).
Proof.
  apply Forall_cons. split; [destruct a; unfold is_byte; cbn; lia|].
  apply Forall_replicate. unfold is_byte. lia.
Qed.

Lemma F7_ring : ring_theory f0 f1 sadd smul ssub sneg eq.
Proof.
  split; repeat intros []; reflexivity.
Qed.

#[export] Instance F7_laws : RistrettoLaws.
Proof.
  split.
  - exact F7_ring.
  - intros []; intros Hne; [done|exists f1|exists f4|exists f5|exists f2|exists f3|exists f6];
      reflexivity.
  - repeat intros []; reflexivity.
  - repeat intros []; reflexivity.
  - repeat intros []; reflexivity.
  - repeat intros []; reflexivity.
  - repeat intros []; reflexivity.
  - repeat intros []; reflexivity.
  - repeat intros []; reflexivity.
  - repeat intros []; reflexivity.
  - exact decode_encode7.
  - exact encode_decode7.
  - done.
  - exact decode_encode7.
  - exact encode_decode7.
  - done.
  - exact encode7_bytes.
  - exact encode7_bytes.
  - done.
Qed.

(** ** Lower-case hexadecimal *)
Definition digits : string := "0123456789abcdef".
Definition hex_digit (z : Z) : Ascii.ascii :=
  default Ascii.zero (String.get (Z.to_nat z) digits).
Definition digit_value (c : Ascii.ascii) : option Z :=
  let fix go (k : Z) (s : string) :=
    match s with
    | EmptyString => None
    | String d s => if bool_decide (c = d) then Some k else go (k + 1) s
    end in go 0 digits.
Fixpoint encode_hex (b : bytes) : string :=
  match b with
  | [] => EmptyString
  | x :: b => String (hex_digit (x / 16)) (String (hex_digit (x mod 16)) (encode_hex b))
  end.
Fixpoint decode_hex (s : string) : option bytes :=
  match s with
  | EmptyString => Some []
  | String hi (String lo s) =>
      h ← digit_value hi; l ← digit_value lo; rest ← decode_hex s; Some (16 * h + l :: rest)
  | _ => None
  end.
#[export] Instance hex_ops : HexCodec := {| hex_encode := encode_hex; hex_decode := decode_hex |}.

Lemma digit_value_digit z : 0 ≤ z < 16 → digit_value (hex_digit z) = Some z.
Proof.
  intros Hz. assert (Hall : forallb (λ z, bool_decide (digit_value (hex_digit z) = Some z)) (seqZ 0 16) = true)
    by (vm_compute; reflexivity).
  rewrite forallb_forall in Hall. eapply bool_decide_eq_true_1, Hall.
  apply list_elem_of_In, elem_of_seqZ. lia.
Qed.
#[export] Instance hex_laws : HexLaws.
Proof.
  split.
  - change hex_decode with decode_hex. change hex_encode with encode_hex.
    induction 1 as [|x b Hx _ IH]; [done|]. unfold is_byte in Hx. cbn [encode_hex decode_hex].
    rewrite !digit_value_digit; cbn [mbind option_bind].
    2: { split; [apply Z.div_pos; lia|apply Z.div_lt_upper_bound; lia]. }
    2: { pose proof (Z.mod_pos_bound x 16). lia. }
    rewrite IH. cbn [mbind option_bind]. do 2 f_equal. pose proof (Z.div_mod x 16). lia.
  - change hex_encode with encode_hex. induction b as [|x b IH]; [done|]. cbn [encode_hex String.length length]. rewrite IH. lia.
Qed.

(** ** A VIP ring *)
Definition ticket (i : Z) : F7 := of_Z (2 * i).
Definition secret (i : Z) : F7 := of_Z (i + 1).
Definition card (i : Z) : F7 := commit (ticket i) (secret i).
Definition ring4 : list RingMember := (λ i, MkMember (card i) (compress (card i))) <$> [0; 1; 2; 3].
Definition ctx4 : VerificationContext :=
  MkContext "gig" "checkin" Vip (merkle_root (leaf <$> ring4)) ring4.
Definition w2 : Witness := MkWitness 2 (ticket 2) (secret 2).
Definition rng1 (k : nat) : F7 := of_Z (Z.of_nat k * 3 + 1).
Definition rng2 (k : nat) : F7 := of_Z (Z.of_nat k * 5 + 2).
Definition proof_of (w : Witness) (ctx : VerificationContext) (rng : nat → F7) : RingProof :=
  match prove w ctx rng with Ok p => p | _ => MkProof 0 Vip [] [] [] [] end.

Lemma proof_of_Ok w ctx rng :
  is_ok (prove w ctx rng) = true → prove w ctx rng = Ok (proof_of w ctx rng).
Proof. unfold proof_of. by destruct (prove w ctx rng). Qed.

Lemma encode7_short a : short (encode7 a).
Proof. unfold short, encode7. cbn [length]. rewrite length_replicate. lia. Qed.

Lemma merkle_root_binds_witness :
  let cs := [encode7 f1; encode7 f2] in
  merkle_loop (length cs) (leaf_hash <$> cs) = Some (merkle_root_of_commitments cs).
Proof.
  intros cs. destruct (merkle_root_binds cs [encode7 f1]) as [Hl _].
  - discriminate.
  - discriminate.
  - repeat (apply Forall_cons; split; [apply encode7_short|]). apply Forall_nil. exact I.
  - repeat (apply Forall_cons; split; [apply encode7_short|]). apply Forall_nil. exact I.
  - exact Hl.
Defined.

Lemma honest_proof_verifies_witness :
  verify_encoded (to_bytes (proof_of w2 ctx4 rng1)) ctx4
  = Ok (MkAttestation (compress (pmul (secret 2) (nullifier_base "gig" "checkin"))) Vip 4).
Proof.
  apply (honest_proof_verifies w2 ctx4 rng1).
  - vm_compute; reflexivity.
  - vm_compute; discriminate.
  - apply proof_of_Ok. vm_compute; reflexivity.
Defined.

Lemma nullifier_identifies_witness :
  rp_nullifier (proof_of w2 ctx4 rng1) = rp_nullifier (proof_of w2 ctx4 rng2).
Proof.
  apply (nullifier_identifies w2 w2 ctx4 ctx4 rng1 rng2).
  - apply proof_of_Ok. vm_compute; reflexivity.
  - apply proof_of_Ok. vm_compute; reflexivity.
  - reflexivity.
  - reflexivity.
  - vm_compute; discriminate.
  - reflexivity.
Defined.

Lemma codec_unique_witness :
  proof_from_bytes (to_bytes (proof_of w2 ctx4 rng1)) = Ok (proof_of w2 ctx4 rng1).
Proof.
  apply (codec_unique (proof_of w2 ctx4 rng1) []).
  apply (prove_proof_ok w2 ctx4 rng1). apply proof_of_Ok. vm_compute; reflexivity.
Defined.

Definition nul2 : F7 := pmul (secret 2) (nullifier_base "gig" "checkin").
Lemma ctx4_fits : context_fits ctx4.
Proof.
  split; [vm_compute; reflexivity|]. split; [vm_compute; reflexivity|].
  split; [vm_compute; reflexivity|]. split; [|vm_compute; reflexivity].
  repeat (apply Forall_cons; split; [vm_compute; reflexivity|]). by apply Forall_nil.
Qed.

Lemma challenge_binds_witness :
  rp_nullifier (proof_of w2 ctx4 rng1) = rp_nullifier (proof_of w2 ctx4 rng1).
Proof.
  apply (challenge_binds (proof_of w2 ctx4 rng1) (proof_of w2 ctx4 rng1) ctx4 ctx4
           nul2 nul2).
  - exact ctx4_fits.
  - exact ctx4_fits.
  - unfold fits. vm_compute. reflexivity.
  - unfold fits. vm_compute. reflexivity.
  - reflexivity.
Defined.

Definition member2 : RingMember := MkMember (card 2) (compress (card 2)).
Definition gig : F7 := nullifier_base "gig" "checkin".
Definition answer_t (c : F7) : F7 := sadd f3 (smul c (ticket 2)).
Definition answer_s (c : F7) : F7 := sadd f5 (smul c (secret 2)).
Definition absorbed (c : F7) : bytes :=
  (verify_loop gig nul2 [member2] [c] [answer_t c] [answer_s c] ([], ZERO)).1.


(** ** A gate *)
Definition serve_all (l : list request) (db : Db) : res AppError Db := rfold serve l db.
Lemma serve_all_reachable l db db' :
  db_reachable db → serve_all l db = Ok db' → db_reachable db'.
Proof.
  revert db. induction l as [|rq l IH]; intros db Hr Hs; cbn in Hs; [by simplify_eq|].
  apply rbind_Ok in Hs as (db1 & H1 & Hs). eapply IH; [|exact Hs]. by eapply db_serve.
Qed.

Definition registrations : list request :=
  (λ i, Register "gig" "vip" (hex_encode (compress (card i))) 0) <$> [0; 1; 2; 3].
Definition gate : Db :=
  match serve_all (registrations ++ [Seal "gig" "vip" 0]) empty_db with
  | Ok db => db | _ => empty_db
  end.
Lemma gate_reachable : db_reachable gate.
Proof.
  apply (serve_all_reachable (registrations ++ [Seal "gig" "vip" 0]) empty_db); [constructor|].
  unfold gate. assert (Hok : is_ok (serve_all (registrations ++ [Seal "gig" "vip" 0]) empty_db) = true)
    by (vm_compute; reflexivity).
  by destruct (serve_all _ _).
Qed.
Definition gate_root : bytes := merkle_root (leaf <$> ring4).
Lemma gate_sealed : load_sealed_bucket gate "gig" Vip 0 = Ok (gate_root, 4).
Proof. vm_compute. reflexivity. Qed.
Lemma gate_ring : parse_members (load_bucket_commitments gate "gig" Vip 0) = Ok ring4.
Proof. reflexivity. Qed.

Lemma sealed_set_frozen_witness :
  gate_root = merkle_root_of_commitments (load_bucket_commitments gate "gig" Vip 0)
  ∧ (tier.min_ring Vip ≤ length (load_bucket_commitments gate "gig" Vip 0))%nat.
Proof.
  destruct (sealed_set_frozen gate "gig" Vip 0 gate_root 4 gate_reachable gate_sealed)
    as (Hr & _ & Hs & _).
  split; [exact Hr|]. apply Hs.
Defined.

Definition gate_ctx (epoch : string) : VerificationContext :=
  MkContext "gig" epoch Vip gate_root ring4.
Definition gate_proof (epoch : string) : RingProof := proof_of w2 (gate_ctx epoch) rng1.
Lemma gate_proof_Ok : prove w2 (gate_ctx "checkin") rng1 = Ok (gate_proof "checkin").
Proof. apply proof_of_Ok. vm_compute. reflexivity. Qed.
Lemma gate_proof_again : prove w2 (gate_ctx "again") rng1 = Ok (gate_proof "again").
Proof. apply proof_of_Ok. vm_compute. reflexivity. Qed.


(** The first check-in, and a replay under the same epoch. *)
Definition at_gate (epoch : string) : ZkCheckinRequest :=
  MkCheckin "gig" "vip" 0 (Some epoch) (hex_encode (to_bytes (gate_proof epoch))) None.
Definition checked_in (db : Db) (p : ZkCheckinRequest) : ZkCheckinResponse * Db :=
  match zk_checkin_inner db p with Ok x => x | _ => (MkAdmitted false "" 0 "", db) end.
Lemma checked_in_Ok db p :
  is_ok (zk_checkin_inner db p) = true →
  zk_checkin_inner db p = Ok ((checked_in db p).1, (checked_in db p).2).
Proof. unfold checked_in. by destruct (zk_checkin_inner db p) as [[]| |]. Qed.

(** The ticket of another member at the same event and epoch. *)
Definition w1 : Witness := MkWitness 1 (ticket 1) (secret 1).
Definition other : ZkCheckinRequest :=
  MkCheckin "gig" "vip" 0 (Some "checkin")
    (hex_encode (to_bytes (proof_of w1 (gate_ctx "checkin") rng2))) None.

Lemma nullifier_single_use_witness :
  ad_nullifier (checked_in (checked_in gate (at_gate "checkin")).2 other).1
  ≠ ad_nullifier (checked_in gate (at_gate "checkin")).1.
Proof.
  apply (nullifier_single_use gate (at_gate "checkin") _ (checked_in gate (at_gate "checkin")).2
    (checked_in gate (at_gate "checkin")).2 other _
    (checked_in (checked_in gate (at_gate "checkin")).2 other).2).
  - apply checked_in_Ok. vm_compute; reflexivity.
  - apply serves_refl.
  - apply checked_in_Ok. vm_compute; reflexivity.
  - reflexivity.
  - reflexivity.
Defined.

Lemma epoch_reentry_witness :
  ∃ resp db1 resp' db2,
    zk_checkin_inner gate (at_gate "checkin") = Ok (resp, db1) ∧ ad_admitted resp = true
    ∧ zk_checkin_inner db1 (at_gate "again") = Ok (resp', db2) ∧ ad_admitted resp' = true.
Proof.
  apply (epoch_reentry gate "gig" Vip 0 gate_root 4 ring4 w2 "checkin" "again" rng1 rng1
    (gate_proof "checkin") (gate_proof "again") None).
  - exact gate_reachable.
  - discriminate.
  - exact gate_sealed.
  - exact gate_ring.
  - discriminate.
  - exact gate_proof_Ok.
  - vm_compute; discriminate.
  - exact gate_proof_again.
  - vm_compute; discriminate.
  - reflexivity.
  - reflexivity.
Defined.

(** ** A registration that races with the sealing

    The transaction of [register_commitment] checks that the bucket is open
    and then writes; a sealing that publishes its root in between is not
    noticed, the commitment enters the published set, and every honest proof
    against it is refused from then on. *)
Definition filling : Db :=
  match serve_all registrations empty_db with Ok db => db | _ => empty_db end.
Definition raced : Db :=
  (register_write gate "gig" Vip 0 (compress f2) (leaf_hash (compress f2))).2.
Lemma seal_race_bricks_bucket :
  register_check filling "gig" Vip 0 = Ok tt
  ∧ serve filling (Seal "gig" "vip" 0) = Ok gate
  ∧ zk_checkin_inner raced (at_gate "checkin") = Err Conflict
  ∧ merkle_root_of_commitments (load_bucket_commitments raced "gig" Vip 0) ≠ gate_root.
Proof.
  split; [vm_compute; reflexivity|]. split; [vm_compute; reflexivity|].
  split; [vm_compute; reflexivity|]. vm_compute. discriminate.
Qed.
