(* ===== verification/IdxEvents.v ===== *)
(** * The indexer: decoding of contract events

    [server/src/models/indexer_event.rs].  JSON values and XDR values are
    inductive types; a text is the sequence of its bytes.  Reading base64 XDR,
    base64 and strkey encodings and derived [Debug] texts belong to crates
    outside the repository: the class [XdrCodec]. *)

From Stdlib Require Import Ascii.
From stdpp Require Import pretty.
From S2P Require Import Prelude Machine.

(** ** [serde_json::Value] *)
Inductive Value : Type :=
| JNull
| JBool (b : bool)
| JNumber (n : Z)              (** integers *)
| JFloat (text : string)       (** other numbers *)
| JString (s : string)
| JArray (l : list Value)
| JObject (m : list (string * Value)).

Fixpoint obj_insert (k : string) (v : Value) (m : list (string * Value)) : list (string * Value) :=
  match m with
  | [] => [(k, v)]
  | (k', v') :: m => if decide (k = k') then (k, v) :: m else (k', v') :: obj_insert k v m
  end.
Fixpoint obj_get (k : string) (m : list (string * Value)) : option Value :=
  match m with
  | [] => None
  | (k', v) :: m => if decide (k = k') then Some v else obj_get k m
  end.
(** [Value::get], [Value::as_str], [Value::as_i64] *)
Definition get (v : Value) (k : string) : option Value :=
  match v with JObject m => obj_get k m | _ => None end.
Definition as_str (v : Value) : option string :=
  match v with JString s => Some s | _ => None end.
Definition as_i64 (v : Value) : option Z :=
  match v with
  | JNumber n => if (- 2 ^ 63 <=? n) && (n <? 2 ^ 63) then Some n else None
  | _ => None
  end.
Definition get_str (v : Value) (k : string) : option string := get v k ≫= as_str.

Lemma obj_get_insert k v m : obj_get k (obj_insert k v m) = Some v.
Proof.
  induction m as [|[k' v'] m IH]; cbn; [by rewrite decide_True|].
  destruct (decide (k = k')); cbn; [by rewrite decide_True|by rewrite decide_False].
Qed.
Lemma obj_get_insert_ne k k' v m : k ≠ k' → obj_get k (obj_insert k' v m) = obj_get k m.
Proof.
  intros Hne. induction m as [|[j w] m IH]; cbn; [by rewrite decide_False|].
  destruct (decide (k' = j)) as [->|]; cbn; [by rewrite !decide_False by congruence|].
  by rewrite IH.
Qed.

(** ** [String::from_utf8_lossy]

    Each maximal prefix of a sequence that does not continue becomes one
    replacement character. *)
Definition byte (a : ascii) : N := N_of_ascii a.
Definition within (lo hi : N) (a : ascii) : bool := (lo <=? byte a)%N && (byte a <=? hi)%N.
Definition REPLACEMENT (s : string) : string :=
  String (ascii_of_N 0xEF) (String (ascii_of_N 0xBF) (String (ascii_of_N 0xBD) s)).
(** Whether [b] may follow the first byte [a] of three, or of four. *)
Definition second_of_three (a b : ascii) : bool :=
  if (byte a =? 0xE0)%N then within 0xA0 0xBF b
  else if (byte a =? 0xED)%N then within 0x80 0x9F b
  else within 0x80 0xBF b.
Definition second_of_four (a b : ascii) : bool :=
  if (byte a =? 0xF0)%N then within 0x90 0xBF b
  else if (byte a =? 0xF4)%N then within 0x80 0x8F b
  else within 0x80 0xBF b.
Fixpoint from_utf8_lossy (s : string) : string :=
  match s with
  | EmptyString => EmptyString
  | String a r1 =>
      if (byte a <? 0x80)%N then String a (from_utf8_lossy r1)
      else if within 0xC2 0xDF a then
        match r1 with
        | String b r2 =>
            if within 0x80 0xBF b then String a (String b (from_utf8_lossy r2))
            else REPLACEMENT (from_utf8_lossy r1)
        | _ => REPLACEMENT EmptyString
        end
      else if within 0xE0 0xEF a then
        match r1 with
        | String b r2 =>
            if second_of_three a b then
              match r2 with
              | String c r3 =>
                  if within 0x80 0xBF c
                  then String a (String b (String c (from_utf8_lossy r3)))
                  else REPLACEMENT (from_utf8_lossy r2)
              | _ => REPLACEMENT EmptyString
              end
            else REPLACEMENT (from_utf8_lossy r1)
        | _ => REPLACEMENT EmptyString
        end
      else if within 0xF0 0xF4 a then
        match r1 with
        | String b r2 =>
            if second_of_four a b then
              match r2 with
              | String c r3 =>
                  if within 0x80 0xBF c then
                    match r3 with
                    | String d r4 =>
                        if within 0x80 0xBF d
                        then String a (String b (String c (String d (from_utf8_lossy r4))))
                        else REPLACEMENT (from_utf8_lossy r3)
                    | _ => REPLACEMENT EmptyString
                    end
                  else REPLACEMENT (from_utf8_lossy r2)
              | _ => REPLACEMENT EmptyString
              end
            else REPLACEMENT (from_utf8_lossy r1)
        | _ => REPLACEMENT EmptyString
        end
      else REPLACEMENT (from_utf8_lossy r1)
  end.

(** ** [stellar_xdr::ScVal] *)
Inductive ScAddress : Type :=
| Account (ed25519 : string)
| Contract (contract_id : string)
| OtherAddress (debug_text : string).
Inductive ScVal : Type :=
| ScBool (b : bool)
| ScVoid
| ScError (debug_text : string)
| ScU32 (v : Z)
| ScI32 (v : Z)
| ScU64 (v : Z)
| ScI64 (v : Z)
| ScTimepoint (v : Z)
| ScDuration (v : Z)
| ScU128 (hi lo : Z)
| ScI128 (hi lo : Z)
| ScU256 (hi_hi hi_lo lo_hi lo_lo : Z)
| ScI256 (hi_hi hi_lo lo_hi lo_lo : Z)
| ScBytes (b : string)
| ScString (s : string)
| ScSymbol (s : string)
| ScVec (v : option (list ScVal))
| ScMap (m : option (list (ScVal * ScVal)))
| ScAddressVal (a : ScAddress)
| ScOther (debug_text : string).

Class XdrCodec := {
  from_xdr_base64 : string → option ScVal;
  base64_encode : string → string;
  strkey_account : string → string;
  hex_text : string → string;
  debug : ScVal → string
}.

(** ** Numbers and addresses *)
Definition combine_i128 (hi lo : Z) : Z := Z.lor (Z.shiftl hi 64) lo.
Definition combine_u128 (hi lo : Z) : Z := Z.lor (Z.shiftl hi 64) lo.

(** [format!("{:016x}")] of a [u64], or of the bits of an [i64] *)
Definition hex_digit (n : Z) : ascii :=
  ascii_of_N (Z.to_N (if n <? 10 then 48 + n else 87 + n)).
Fixpoint hex_digits (k : nat) (n : Z) : string :=
  match k with
  | O => EmptyString
  | S k => String (hex_digit (Z.shiftr n (4 * Z.of_nat k) mod 16)) (hex_digits k n)
  end.
Definition hex016 (n : Z) : string := hex_digits 16 n.

Section Decode.
Context `{XdrCodec}.

Definition address_to_strkey (address : ScAddress) : string :=
  match address with
  | Account key => strkey_account key
  | Contract contract_id => String.append "C" (hex_text contract_id)
  | OtherAddress debug_text => debug_text
  end.

Definition key_str (key : ScVal) : string :=
  match key with
  | ScSymbol s => from_utf8_lossy s
  | ScString s => from_utf8_lossy s
  | other => debug other
  end.

Fixpoint scval_to_json (scval : ScVal) : Value :=
  match scval with
  | ScBool b => JBool b
  | ScVoid => JNull
  | ScU32 v | ScI32 v | ScU64 v | ScI64 v => JNumber v
  | ScTimepoint v | ScDuration v => JNumber v
  | ScU128 hi lo =>
      let n := combine_u128 hi lo in
      if hi =? 0 then JNumber lo else JString (pretty n)
  | ScI128 hi lo =>
      if hi =? 0 then JNumber lo else JString (pretty (combine_i128 hi lo))
  | ScU256 a b c d | ScI256 a b c d =>
      JString (String.append (hex016 a)
                 (String.append (hex016 b) (String.append (hex016 c) (hex016 d))))
  | ScBytes b => JString (base64_encode b)
  | ScString s => JString (from_utf8_lossy s)
  | ScSymbol s => JString (from_utf8_lossy s)
  | ScVec (Some v) => JArray (List.map scval_to_json v)
  | ScMap (Some m) =>
      JObject (foldl (λ obj kv, obj_insert kv.1 kv.2 obj) []
                 (List.map (λ kv, match kv with
                                  | (key, val) => (key_str key, scval_to_json val)
                                  end) m))
  | ScAddressVal address => JString (address_to_strkey address)
  | ScError code => JObject [("scError", JString code)]
  | (ScVec None | ScMap None | ScOther _) as other => JString (debug other)
  end.

(** ** Topics and payloads *)
Fixpoint find_symbol (v : list ScVal) : option string :=
  match v with
  | [] => None
  | ScSymbol s :: _ => Some (from_utf8_lossy s)
  | _ :: v => find_symbol v
  end.
Definition decode_topic_symbol (topic : option string) : string :=
  match topic with
  | None => ""
  | Some raw =>
      match from_xdr_base64 raw with
      | None => raw
      | Some (ScSymbol s) => from_utf8_lossy s
      | Some (ScVec (Some v)) => default "" (find_symbol v)
      | Some _ => ""
      end
  end.

Definition normalize_payload (value : Value) : Value :=
  let xdr := match value with
             | JString s => Some s
             | JObject m => obj_get "xdr" m ≫= as_str
             | _ => None
             end in
  match xdr with
  | Some xdr => match from_xdr_base64 xdr with
                | Some scval => scval_to_json scval
                | None => value
                end
  | None => value
  end.
End Decode.

Inductive EventKind : Type :=
| RegisterEvent
| ProcessPurchase
| Refund
| TransferTicket
| EventStatusUpdate
| CollateralStaked
| CollateralUnstaked
| Unhandled.
#[export] Instance EventKind_eq_dec : EqDecision EventKind.
Proof. solve_decision. Defined.

Definition one_of (topic : string) (l : list string) : bool := bool_decide (topic ∈ l).
Definition event_kind_for_topic (topic : string) : EventKind :=
  if one_of topic ["EventRegistered"; "register_event"; "event_registered"] then RegisterEvent
  else if one_of topic ["PaymentProcessed"; "process_purchase"; "purchase_confirmed";
                        "ticket_purchased"] then ProcessPurchase
  else if one_of topic ["BulkRefundProcessed"; "PartialRefundProcessed";
                        "CancellationRefundClaimed"; "refund"; "ticket_refunded"] then Refund
  else if one_of topic ["TicketTransferred"; "transfer_ticket"] then TransferTicket
  else if one_of topic ["EventStatusUpdated"; "event_status_updated"; "event_cancelled"]
  then EventStatusUpdate
  else if one_of topic ["CollateralStaked"; "collateral_staked"; "CollateralUnstaked";
                        "collateral_unstaked"] then
    if String.prefix "CollateralUn" topic || String.prefix "collateral_un" topic
    then CollateralUnstaked
    else CollateralStaked
  else Unhandled.

(** ** Decoded events *)
Record PurchasePayload : Type := MkPurchase {
  pp_payment_id : string;
  pp_event_id : string;
  pp_buyer : option string;
  pp_owner : option string;
  pp_amount : option Z
}.
Record RefundPayload : Type := MkRefund { rf_payment_id : string; rf_event_id : string }.
Record TransferPayload : Type := MkTransfer {
  tr_payment_id : string;
  tr_event_id : string;
  tr_from : option string;
  tr_to : option string
}.
Record RegisterPayload : Type := MkRegister { rg_event_id : string; rg_organizer : option string }.

Record IndexedEvent : Type := MkIndexed {
  ie_id : string;
  ie_ledger : Z;
  ie_contract_id : string;
  ie_latest_ledger : Z;
  ie_kind : EventKind;
  ie_topic_name : string;
  ie_value : Value
}.

Definition decode `{XdrCodec} (id : string) (ledger : Z) (contract_id : string)
    (topic : list string) (value : Value) (latest_ledger : Z) : IndexedEvent :=
  let topic_name := decode_topic_symbol (head topic) in
  let kind := event_kind_for_topic topic_name in
  let payload := normalize_payload value in
  MkIndexed id ledger contract_id latest_ledger kind topic_name payload.

Definition as_purchase (e : IndexedEvent) : PurchasePayload :=
  MkPurchase (default "" (get_str (ie_value e) "payment_id"))
             (default "" (get_str (ie_value e) "event_id"))
             (get_str (ie_value e) "buyer")
             (get_str (ie_value e) "owner")
             (get (ie_value e) "amount" ≫= as_i64).
Definition as_refund (e : IndexedEvent) : RefundPayload :=
  MkRefund (match get_str (ie_value e) "payment_id" with
            | Some v => v
            | None => default "" (get_str (ie_value e) "stellar_id")
            end)
           (default "" (get_str (ie_value e) "event_id")).
Definition as_transfer (e : IndexedEvent) : TransferPayload :=
  MkTransfer (default "" (get_str (ie_value e) "payment_id"))
             (default "" (get_str (ie_value e) "event_id"))
             (get_str (ie_value e) "from")
             (get_str (ie_value e) "to").
Definition as_register (e : IndexedEvent) : RegisterPayload :=
  MkRegister (default "" (get_str (ie_value e) "event_id")) (get_str (ie_value e) "organizer").

(** ** Amounts *)
Lemma combine_i128_value hi lo : 0 ≤ lo < 2 ^ 64 → combine_i128 hi lo = hi * 2 ^ 64 + lo.
Proof.
  intros Hlo. unfold combine_i128. rewrite Z.shiftl_mul_pow2 by lia.
  rewrite <- (Z.lxor_lor (hi * 2 ^ 64) lo), <- Z.add_nocarry_lxor; [done| |];
    apply Z.bits_inj'; intros n Hn; rewrite Z.land_spec, Z.bits_0;
    (destruct (decide (n < 64)) as [Hlt|Hge];
     [by rewrite Z.mul_pow2_bits_low|
      apply andb_false_intro2; rewrite <- (Z.mod_small lo (2 ^ 64)) by done;
      apply Z.mod_pow2_bits_high; lia]).
Qed.

(** Which amounts the indexer sees: of a 128-bit amount, in two's complement
    from a signed high and an unsigned low half, exactly the values from zero
    below [2^63] are read as numbers; every other one, negative or larger, is
    read as no amount. *)
Theorem amount_visible `{XdrCodec} hi lo :
  0 ≤ lo < 2 ^ 64 → - 2 ^ 63 ≤ hi < 2 ^ 63 →
  combine_i128 hi lo = hi * 2 ^ 64 + lo
  ∧ as_i64 (scval_to_json (ScI128 hi lo))
    = let v := combine_i128 hi lo in if (0 <=? v) && (v <? 2 ^ 63) then Some v else None.
Proof.
  intros Hlo Hhi. rewrite combine_i128_value by done. split; [done|]. cbn [scval_to_json]. cbv zeta.
  destruct (hi =? 0) eqn:Eh.
  - apply Z.eqb_eq in Eh as ->. cbn [as_i64]. replace (0 * 2 ^ 64 + lo) with lo by lia.
    destruct ((- 2 ^ 63 <=? lo) && (lo <? 2 ^ 63)) eqn:E1, ((0 <=? lo) && (lo <? 2 ^ 63)) eqn:E2;
      lia || done.
  - cbn [as_i64]. destruct ((0 <=? _) && _) eqn:E; [lia|done].
Qed.
