(* ===== verification/IdxPool.v ===== *)
(** * The indexer: RPC nodes and back-off

    [RpcNodePool], [backoff_with_jitter] and [fetch_page] of
    [server/src/services/indexer.rs].  Instants and durations are numbers of
    nanoseconds; every reading of the clock is an argument, and so are the
    answers of the RPC nodes and the draws of the random generator. *)

From S2P Require Import Prelude Machine IdxEvents.

Definition POLL_INTERVAL : Z := 5 * 10 ^ 9.
Definition MAX_BACKOFF : Z := 300 * 10 ^ 9.
Definition NODE_COOLDOWN : Z := 60 * 10 ^ 9.

Record RpcNodePool : Type := MkPool {
  urls : list string;
  next : nat;
  cooldown_until : list Z;
  cooldown : Z
}.
#[export] Instance eta_RpcNodePool : Eta RpcNodePool := λ p,
  MkPool (urls p) (next p) (cooldown_until p) (cooldown p).

Module pool.
Definition new (urls : list string) (cooldown now : Z) : RpcNodePool :=
  MkPool urls 0 (replicate (length urls) now) cooldown.

(** The turns of [for _ in 0..self.urls.len()]; [clock k] is the reading of
    turn [k]. *)
Fixpoint next_url_loop (turns : nat) (clock : nat → Z) (k : nat) (self : RpcNodePool)
    : res unit (option string * RpcNodePool) :=
  match turns with
  | O => Ok (None, self)
  | S turns =>
      let idx := next self in
      let self := self ⟨ next := Nat.modulo (idx + 1) (length (urls self)) ⟩ in
      let! until := unwrap (cooldown_until self !! idx) in
      if until <=? clock k then
        let! url := unwrap (urls self !! idx) in
        Ok (Some url, self)
      else next_url_loop turns clock (S k) self
  end.
Definition next_url (self : RpcNodePool) (clock : nat → Z)
    : res unit (option string * RpcNodePool) :=
  match urls self with
  | [] => Ok (None, self)
  | _ => next_url_loop (length (urls self)) clock 0 self
  end.

Definition set_cooldown (self : RpcNodePool) (url : string) (t : Z) : RpcNodePool :=
  match list_find (λ u, u = url) (urls self) with
  | Some (idx, _) => self ⟨ cooldown_until ::= <[idx := t]> ⟩
  | None => self
  end.
Definition mark_success (self : RpcNodePool) (url : string) (now : Z) : RpcNodePool :=
  set_cooldown self url now.
Definition mark_failure (self : RpcNodePool) (url : string) (now : Z) : RpcNodePool :=
  set_cooldown self url (now + cooldown self).
End pool.

(** ** [backoff_with_jitter] *)
Definition duration_max : Z := u64_max * 10 ^ 9 + 999999999.
Definition backoff_with_jitter (attempt base max : Z) (gen_range : Z → Z → Z) : Z :=
  let exp := Z.min duration_max (base * sat_u32 (2 ^ Z.min attempt 16)) in
  let exp := Z.min exp max in
  let nominal_ms := Z.min (exp / 10 ^ 6) u64_max in
  let jittered := gen_range (nominal_ms / 2) nominal_ms in
  Z.max jittered 1 * 10 ^ 6.

(** ** [fetch_page] *)
Record SorobanEvent : Type := MkSoroban {
  se_id : string;
  se_ledger : Z;
  se_contract_id : string;
  se_topic : list string;
  se_value : Value
}.
Record FetchedPage : Type := MkPage {
  fp_events : list SorobanEvent;
  fp_latest_ledger : Z
}.
Inductive IndexerError : Type :=
| Http
| Rpc
| RateLimited
| NoHealthyNode
| Database
| InvalidRange.

(** What a node answers: no response, or a status with a body that parses as
    [GetEventsResponse] or not. *)
Record GetEventsResponse : Type := MkResponse {
  ge_result : option FetchedPage;
  ge_error : option Value
}.
Inductive HttpAnswer : Type :=
| NoResponse
| Response (status : Z) (body : option GetEventsResponse).
Definition fetch_page_from (answer : HttpAnswer) : res IndexerError FetchedPage :=
  match answer with
  | NoResponse => Err Http
  | Response status body =>
      do! fail_if (status =? 429) RateLimited in
      do! fail_if (negb ((200 <=? status) && (status <? 300))) Rpc in
      let! rpc := ok_or body Rpc in
      do! fail_if (bool_decide (is_Some (ge_error rpc))) Rpc in
      Ok (default (MkPage [] 0) (ge_result rpc))
  end.

(** [asked url] is the answer of the node, [now] the instant at which a
    failure is noted. *)
Definition fetch_page (nodes : RpcNodePool) (clock : nat → Z)
    (asked : string → HttpAnswer) (now : Z)
    : RpcNodePool * res IndexerError (FetchedPage * string) :=
  match pool.next_url nodes clock with
  | Ok (Some url, nodes) =>
      match fetch_page_from (asked url) with
      | Ok page => (nodes, Ok (page, url))
      | Err e =>
          let nodes := match e with
                       | RateLimited | Http | Rpc => pool.mark_failure nodes url now
                       | _ => nodes
                       end in
          (nodes, Err e)
      | Panic => (nodes, Panic)
      end
  | Ok (None, nodes) => (nodes, Err NoHealthyNode)
  | _ => (nodes, Panic)
  end.

(** A poll of the producer: [fetch_page], and [mark_success] on a page. *)
Record Poll : Type := MkPoll {
  po_clock : nat → Z;
  po_asked : string → HttpAnswer;
  po_now : Z
}.
Definition poll (nodes : RpcNodePool) (p : Poll)
    : RpcNodePool * res IndexerError (FetchedPage * string) :=
  let '(nodes, r) := fetch_page nodes (po_clock p) (po_asked p) (po_now p) in
  match r with
  | Ok (page, url) => (pool.mark_success nodes url (po_now p), r)
  | _ => (nodes, r)
  end.
(** Successive polls, with the results in order. *)
Fixpoint polls (nodes : RpcNodePool) (l : list Poll)
    : list (res IndexerError (FetchedPage * string)) :=
  match l with
  | [] => []
  | p :: l => let '(nodes, r) := poll nodes p in r :: polls nodes l
  end.
(** Time passes: the readings of a poll lie between the end of the one before
    and its own end. *)
Fixpoint chronological (from : Z) (l : list Poll) : Prop :=
  match l with
  | [] => True
  | p :: l => (∀ k, from ≤ po_clock p k ≤ po_now p) ∧ chronological (po_now p) l
  end.

(** ** The pool *)
Record pool_ok (p : RpcNodePool) : Prop := {
  pool_lengths : length (cooldown_until p) = length (urls p);
  pool_next : urls p = [] ∨ (next p < length (urls p))%nat
}.

Lemma new_pool_ok us c now : pool_ok (pool.new us c now).
Proof.
  split; cbn; [by rewrite length_replicate|].
  destruct us; [by left|right; cbn; lia].
Qed.
Lemma set_cooldown_ok p url t : pool_ok p → pool_ok (pool.set_cooldown p url t).
Proof.
  intros [Hl Hn]. unfold pool.set_cooldown. destruct (list_find _ _) as [[idx ?]|]; [|done].
  split; cbn; [by rewrite length_insert|done].
Qed.
Lemma set_cooldown_frame p url t :
  urls (pool.set_cooldown p url t) = urls p ∧ next (pool.set_cooldown p url t) = next p.
Proof. unfold pool.set_cooldown. by destruct (list_find _ _) as [[? ?]|]. Qed.
(** Only the cooldown of a node with this address changes. *)
Lemma set_cooldown_lookup p url t i u c :
  urls p !! i = Some u → cooldown_until p !! i = Some c →
  ∃ c', cooldown_until (pool.set_cooldown p url t) !! i = Some c'
        ∧ (c' = c ∨ url = u ∧ c' = t).
Proof.
  intros Hu Hc. unfold pool.set_cooldown.
  destruct (list_find _ _) as [[idx ?]|] eqn:Ef; [|by eauto].
  apply list_find_Some in Ef as (Hx & -> & _). cbn.
  destruct (decide (i = idx)) as [->|Hne].
  - exists t. split; [|right; split; congruence].
    apply list_lookup_insert_eq. by eapply lookup_lt_Some.
  - exists c. rewrite list_lookup_insert_ne by done. auto.
Qed.

(** Node [i] is cooling down at instant [t]. *)
Definition cooling (p : RpcNodePool) (i : nat) (t : Z) : Prop :=
  ∃ c, cooldown_until p !! i = Some c ∧ t < c.
(** The node tried in turn [j], counted from the present one. *)
Definition turn (p : RpcNodePool) (j : nat) : nat := Nat.modulo (next p + j) (length (urls p)).

Lemma turn_step p x j :
  turn (p ⟨ next := Nat.modulo (next p + 1) (length (urls p)) ⟩) x = j ↔ turn p (S x) = j.
Proof.
  unfold turn. cbn. rewrite Nat.Div0.add_mod_idemp_l.
  by replace (next p + 1 + x)%nat with (next p + S x)%nat by lia.
Qed.
Lemma turn_lt p j : urls p ≠ [] → (turn p j < length (urls p))%nat.
Proof. intros Hne. apply Nat.mod_upper_bound. by destruct (urls p). Qed.

Lemma next_url_loop_spec clock turns : ∀ k p,
  pool_ok p → urls p ≠ [] →
  ∃ r p', pool.next_url_loop turns clock k p = Ok (r, p') ∧ pool_ok p'
  ∧ urls p' = urls p ∧ cooldown_until p' = cooldown_until p
  ∧ match r with
    | Some url =>
        ∃ j, (j < turns)%nat ∧ urls p !! turn p j = Some url
             ∧ ¬ cooling p (turn p j) (clock (k + j)%nat) ∧ next p' = turn p (S j)
             ∧ ∀ x, (x < j)%nat → cooling p (turn p x) (clock (k + x)%nat)
    | None => ∀ x, (x < turns)%nat → cooling p (turn p x) (clock (k + x)%nat)
    end.
Proof.
  induction turns as [|turns IH]; intros k p [Hl Hn] Hne.
  { eexists _, _. split; [done|]. split; [done|]. split_and!; [done..|]. intros x Hx. lia. }
  destruct Hn as [?|Hn]; [done|]. cbn [pool.next_url_loop]. cbn.
  destruct (lookup_lt_is_Some_2 (cooldown_until p) (next p)) as [c Hc]; [lia|].
  destruct (lookup_lt_is_Some_2 (urls p) (next p)) as [url Hu]; [lia|].
  assert (turn p 0 = next p) as H0.
  { unfold turn. rewrite Nat.add_0_r. by apply Nat.mod_small. }
  rewrite Hc. cbn. set (p1 := p ⟨ next := _ ⟩).
  assert (pool_ok p1) as Hp1.
  { split; [done|right]. cbn. apply Nat.mod_upper_bound. lia. }
  destruct (c <=? clock k) eqn:Et.
  - rewrite Hu. cbn. eexists _, _. split; [done|]. split; [done|]. split_and!; [done..|].
    exists 0%nat. rewrite H0, Nat.add_0_r. split_and!; [lia|done| |done|intros x Hx; lia].
    intros (c' & Hc' & Hlt). simplify_eq. lia.
  - assert (cooling p (turn p 0) (clock (k + 0)%nat)) as Hcool.
    { rewrite H0, Nat.add_0_r. exists c. split; [done|lia]. }
    destruct (IH (S k) p1 Hp1 Hne) as (r & p' & -> & Hok & Hu' & Hc' & Hr).
    eexists _, _. split; [done|]. split; [done|]. split_and!; [done..|].
    assert (∀ x, turn p1 x = turn p (S x)) as Hturn by (intros x; by apply turn_step).
    destruct r as [url'|].
    + destruct Hr as (j & Hj & Hurl & Hnc & Hnx & Hbefore). exists (S j).
      rewrite Hturn in Hurl, Hnc. rewrite Hturn in Hnx.
      replace (k + S j)%nat with (S k + j)%nat by lia.
      split_and!; [lia|done|done|done|]. intros [|x] Hx; [done|].
      replace (k + S x)%nat with (S k + x)%nat by lia. rewrite <- Hturn. apply Hbefore. lia.
    + intros [|x] Hx; [done|].
      replace (k + S x)%nat with (S k + x)%nat by lia. rewrite <- Hturn. apply Hr. lia.
Qed.

(** Every node comes up once in a round. *)
Lemma turn_reaches p i :
  (i < length (urls p))%nat → (next p < length (urls p))%nat →
  ∃ d, (d < length (urls p))%nat ∧ turn p d = i.
Proof.
  intros Hi Hn. set (n := length (urls p)) in *.
  exists (Nat.modulo (i + n - next p) n). split; [apply Nat.mod_upper_bound; lia|].
  unfold turn. fold n. rewrite Nat.Div0.add_mod_idemp_r.
  replace (next p + (i + n - next p))%nat with (i + 1 * n)%nat by lia.
  rewrite Nat.Div0.mod_add. by apply Nat.mod_small.
Qed.

(** What a poll does to the pool, and whom it asks: a healthy node is asked,
    or comes closer. *)
Lemma poll_progress p po i u c d :
  pool_ok p → urls p !! i = Some u → cooldown_until p !! i = Some c →
  (∀ k, c ≤ po_clock po k) → (∃ page, fetch_page_from (po_asked po u) = Ok page) →
  turn p d = i → (d < length (urls p))%nat →
  let '(p', r) := poll p po in
  (∃ page, r = Ok (page, u))
  ∨ (pool_ok p' ∧ urls p' = urls p ∧ cooldown_until p' !! i = Some c
     ∧ ∃ d', (d' < d)%nat ∧ turn p' d' = i).
Proof.
  intros Hok Hu Hc Hclock [page Hpage] Hd Hdn.
  assert (urls p ≠ []) as Hne by (intros He; by rewrite He in Hu).
  unfold poll, fetch_page, pool.next_url.
  destruct (next_url_loop_spec (po_clock po) (length (urls p)) 0 p Hok Hne)
    as (r & p1 & E & Hok1 & Hurls & Hcool & Hr).
  replace (match urls p with [] => _ | _ :: _ => _ end)
    with (pool.next_url_loop (length (urls p)) (po_clock po) 0 p)
    by (destruct (urls p); [done|reflexivity]).
  rewrite E. clear E.
  assert (∀ x, ¬ cooling p i (po_clock po x)) as Hhealthy.
  { intros x (c' & Hc' & Hlt). simplify_eq. specialize (Hclock x). lia. }
  destruct r as [v|]; cycle 1.
  { exfalso. apply (Hhealthy (0 + d)%nat). rewrite <- Hd. by apply Hr. }
  destruct Hr as (j & Hj & Hv & _ & Hnx & Hbefore).
  destruct (decide (v = u)) as [->|Hvu]; [rewrite Hpage; cbn; left; eauto|].
  assert (j < d)%nat as Hjd.
  { destruct (decide (j = d)) as [->|]; [congruence|].
    destruct (decide (d < j)%nat) as [Hlt|]; [|lia].
    exfalso. apply (Hhealthy (0 + d)%nat). rewrite <- Hd. by apply Hbefore. }
  assert (∃ d', (d' < d)%nat ∧ turn p1 d' = i) as Hcloser.
  { exists (d - S j)%nat. split; [lia|]. unfold turn. rewrite Hnx, Hurls. unfold turn.
    rewrite Nat.Div0.add_mod_idemp_l. rewrite <- Hd. unfold turn. f_equal. lia. }
  assert (∀ t, pool_ok (pool.set_cooldown p1 v t)
     ∧ urls (pool.set_cooldown p1 v t) = urls p
     ∧ cooldown_until (pool.set_cooldown p1 v t) !! i = Some c
     ∧ ∃ d', (d' < d)%nat ∧ turn (pool.set_cooldown p1 v t) d' = i) as Hmarked.
  { intros t. destruct (set_cooldown_frame p1 v t) as [Hfu Hfn].
    split; [by apply set_cooldown_ok|]. split; [congruence|].
    rewrite <- Hurls in Hu. rewrite <- Hcool in Hc.
    destruct (set_cooldown_lookup p1 v t i u c Hu Hc) as (c' & Hc' & [->|[? _]]); [|done].
    split; [done|]. destruct Hcloser as (d' & ? & ?). exists d'. split; [done|].
    unfold turn. by rewrite Hfu, Hfn. }
  assert (pool_ok p1 ∧ urls p1 = urls p ∧ cooldown_until p1 !! i = Some c
     ∧ ∃ d', (d' < d)%nat ∧ turn p1 d' = i) as Hplain
    by (split_and!; [done..|congruence|done]).
  destruct (fetch_page_from (po_asked po v)) as [pg|e|]; cbn; [right; apply Hmarked| |by right].
  destruct e; right; first [apply Hmarked | done].
Qed.

(** No healthy node is starved: a node whose cooldown is over and which
    answers is asked within one round, that is within as many polls as there
    are nodes, whatever the other nodes answer and however often they are put
    into cooldown; and the rotation never fails. *)
Theorem node_pool_fair p from l i u c :
  pool_ok p → urls p !! i = Some u → cooldown_until p !! i = Some c → c ≤ from →
  chronological from l → Forall (λ po, ∃ page, fetch_page_from (po_asked po u) = Ok page) l →
  length l = length (urls p) →
  ∃ k page, polls p l !! k = Some (Ok (page, u)).
Proof.
  intros Hok Hu Hc Hcf Hl Hasked Hlen.
  destruct (turn_reaches p i) as (d & Hd & Hturn).
  { by eapply lookup_lt_Some. }
  { destruct (pool_next p Hok) as [He|]; [by rewrite He in Hu|done]. }
  rewrite <- Hlen in Hd. clear Hlen.
  revert p from d Hok Hu Hc Hcf Hl Hd Hturn.
  induction l as [|po l IH]; intros p from d Hok Hu Hc Hcf Hl Hd Hturn; [cbn in Hd; lia|].
  destruct Hl as [Hclock Hl]. apply Forall_cons in Hasked as [Hpo Hasked].
  assert (turn p d = i ∧ (d < length (urls p))%nat ∨ (length (urls p) ≤ d)%nat) as Hcase
    by (destruct (decide (d < length (urls p))%nat); [by left|right; lia]).
  assert (∃ d, (d < length (po :: l))%nat ∧ (d < length (urls p))%nat ∧ turn p d = i)
    as (d' & Hd' & Hdn & Hturn').
  { destruct Hcase as [[? ?]|Hbig]; [by exists d|].
    destruct (turn_reaches p i) as (d' & ? & ?).
    { by eapply lookup_lt_Some. }
    { destruct (pool_next p Hok) as [He|]; [by rewrite He in Hu|done]. }
    exists d'. split_and!; [lia|done|done]. }
  clear d Hd Hturn Hcase.
  assert (∀ k, c ≤ po_clock po k) as Hck by (intros k; specialize (Hclock k); lia).
  pose proof (poll_progress p po i u c d' Hok Hu Hc Hck Hpo Hturn' Hdn) as Hp.
  cbn [polls]. destruct (poll p po) as [p' r].
  destruct Hp as [[page ->]|(Hok' & Hurls & Hc' & d'' & Hlt & Ht)].
  - by exists 0%nat, page.
  - rewrite <- Hurls in Hu.
    destruct (IH Hasked p' (po_now po) d'' Hok' Hu Hc') as (k & page & Hk);
      [|done|cbn in Hd'; lia|done|by exists (S k), page].
    specialize (Hclock 0%nat). lia.
Qed.

(** Back-off is bounded: the nominal delay doubles with every failure, up to
    [2^16] times the base, and never exceeds the cap; the delay drawn lies
    between half of it and all of it, in whole milliseconds and at least one. *)
Theorem backoff_bounds attempt base max gen_range :
  0 ≤ attempt → 0 ≤ base → 0 ≤ max ≤ duration_max →
  (∀ lo hi, lo ≤ hi → lo ≤ gen_range lo hi ≤ hi) →
  let nominal_ms := Z.min (Z.min (base * 2 ^ Z.min attempt 16) max / 10 ^ 6) u64_max in
  ∃ ms, backoff_with_jitter attempt base max gen_range = ms * 10 ^ 6
    ∧ Z.max 1 (nominal_ms / 2) ≤ ms ≤ Z.max 1 nominal_ms
    ∧ (10 ^ 6 ≤ max → ms * 10 ^ 6 ≤ max).
Proof.
  intros Ha Hb [Hm0 Hm] Hgen nominal_ms. unfold backoff_with_jitter.
  assert (0 < 2 ^ Z.min attempt 16 ≤ 2 ^ 16) as [Hp0 Hp].
  { split; [apply Z.pow_pos_nonneg; lia|apply Z.pow_le_mono_r; lia]. }
  assert (sat_u32 (2 ^ Z.min attempt 16) = 2 ^ Z.min attempt 16) as ->.
  { unfold sat_u32, u32_max. lia. }
  set (e := base * 2 ^ Z.min attempt 16) in *.
  assert (0 ≤ e) by (unfold e; nia).
  replace (Z.min (Z.min duration_max e) max) with (Z.min e max) by lia.
  fold nominal_ms. set (exp := Z.min e max) in *.
  assert (0 ≤ exp / 10 ^ 6) by (apply Z.div_pos; lia).
  assert (exp / 10 ^ 6 * 10 ^ 6 ≤ max) as Hcap.
  { pose proof (Z.mul_div_le exp (10 ^ 6)). lia. }
  assert (0 ≤ nominal_ms ≤ exp / 10 ^ 6) as Hn.
  { unfold nominal_ms, u64_max. lia. }
  assert (0 ≤ nominal_ms / 2 ≤ nominal_ms) as Hhalf.
  { split; [apply Z.div_pos; lia|apply Z.div_le_upper_bound; lia]. }
  destruct (Hgen (nominal_ms / 2) nominal_ms (proj2 Hhalf)) as [Hlo Hhi].
  eexists. split; [done|]. clearbody nominal_ms. split; [lia|]. intros H1ms. nia.
Qed.
