(* ===== verification/IdxStore.v ===== *)
(** * The indexer: tables, checkpoints and state application

    [server/src/models/blockchain_checkpoint.rs] and the database half of
    [server/src/services/indexer.rs].  A table is a finite map by its primary
    key, or a list of rows where the source never names the key; the columns
    that only keep times are left out.  UUIDs are their canonical texts; the
    parser of the [uuid] crate and PostgreSQL's cast are parameters. *)

From S2P Require Import Prelude Machine IdxEvents IdxPool.

Definition CHAIN_KEY : string := "soroban:mainnet".
Definition DEFAULT_WINDOW_LEDGERS : Z := 100.
Definition DEFAULT_CONFIRMATIONS : Z := 2.
Definition MAX_EVENTS_PER_POLL : nat := 100.
Definition MAX_REPLAY_LEDGERS : Z := 100000.
Definition FINALIZER_BATCH_SIZE : nat := 250.

Record IndexerConfig : Type := MkConfig {
  ic_rpc_urls : list string;
  ic_ticket_payment_contract_id : string;
  ic_event_registry_contract_id : string;
  ic_start_ledger : Z;
  ic_window_ledgers : Z;
  ic_confirmations : Z;
  ic_workers : nat;
  ic_redis_url : option string
}.
Definition contract_ids (self : IndexerConfig) : list string :=
  filter (λ id, id ≠ "") [ic_ticket_payment_contract_id self; ic_event_registry_contract_id self].
Definition is_enabled (self : IndexerConfig) : bool :=
  bool_decide (ic_rpc_urls self ≠ []) && bool_decide (contract_ids self ≠ []).

Class Uuids := {
  parse_str : string → option string;    (** [uuid::Uuid::parse_str] *)
  pg_uuid : string → option string       (** [$n::uuid] *)
}.

(** ** The tables *)
Record Ticket : Type := MkTicket {
  tk_stellar_id : option string;
  tk_event_id : option string;
  tk_buyer_wallet : option string;
  tk_owner_wallet : option string;
  tk_status : string
}.
Record Organizer : Type := MkOrganizer {
  or_wallet_address : option string;
  or_is_verified : bool
}.
Record LedgerEvent : Type := MkLedgerEvent {
  le_ledger : Z;
  le_contract_id : string;
  le_topic : Value;
  le_value : Value;
  le_finalized : bool
}.
Record BlockchainCheckpoint : Type := MkCheckpoint {
  cp_ledger_sequence : Z;
  cp_event_cursor : option string
}.
Record Db : Type := MkDb {
  blockchain_checkpoints : gmap string BlockchainCheckpoint;
  indexer_ledger_events : gmap string LedgerEvent;
  tickets : list Ticket;
  events : gset string;
  organizers : list Organizer
}.
#[export] Instance eta_Db : Eta Db := λ d,
  MkDb (blockchain_checkpoints d) (indexer_ledger_events d) (tickets d) (events d) (organizers d).
#[export] Instance eta_Ticket : Eta Ticket := λ t,
  MkTicket (tk_stellar_id t) (tk_event_id t) (tk_buyer_wallet t) (tk_owner_wallet t) (tk_status t).
#[export] Instance eta_LedgerEvent : Eta LedgerEvent := λ e,
  MkLedgerEvent (le_ledger e) (le_contract_id e) (le_topic e) (le_value e) (le_finalized e).
#[export] Instance eta_Organizer : Eta Organizer := λ o,
  MkOrganizer (or_wallet_address o) (or_is_verified o).

(** ** [CheckpointStore] *)
Module checkpoint.
Definition load (db : Db) (chain_key : string) : option BlockchainCheckpoint :=
  blockchain_checkpoints db !! chain_key.
Definition save (db : Db) (chain_key : string) (ledger_sequence : Z) (event_cursor : option string)
    : Db :=
  db ⟨ blockchain_checkpoints ::= <[chain_key := MkCheckpoint ledger_sequence event_cursor]> ⟩.
Definition rollback_to (db : Db) (chain_key : string) (fork_ledger : Z) : Z * Db :=
  let db := db ⟨ indexer_ledger_events ::= filter (λ ie, ¬ fork_ledger ≤ le_ledger ie.2) ⟩ in
  let db := db ⟨ blockchain_checkpoints ::= <[chain_key := MkCheckpoint (fork_ledger - 1) None]> ⟩ in
  (fork_ledger - 1, db).
Definition prune_window (db : Db) (keep_from_ledger : Z) : Db :=
  db ⟨ indexer_ledger_events ::=
       filter (λ ie, ¬ (le_finalized ie.2 = true ∧ le_ledger ie.2 < keep_from_ledger)) ⟩.
End checkpoint.

(** ** The sliding-window buffer *)
Definition buffer_contains (db : Db) (id : string) (ledger : Z) : bool :=
  match indexer_ledger_events db !! id with
  | Some row => le_ledger row =? ledger
  | None => false
  end.
Definition parked (event : IndexedEvent) : LedgerEvent :=
  MkLedgerEvent (ie_ledger event) (ie_contract_id event) (JString (ie_topic_name event))
    (ie_value event) false.
(** The number of rows inserted, and the table. *)
Definition buffer_insert (db : Db) (event : IndexedEvent) : Z * Db :=
  match indexer_ledger_events db !! ie_id event with
  | Some _ => (0, db)
  | None => (1, db ⟨ indexer_ledger_events ::= <[ie_id event := parked event]> ⟩)
  end.
Definition mark_finalized (db : Db) (id : string) : Db :=
  db ⟨ indexer_ledger_events ::= alter (λ row, row ⟨ le_finalized := true ⟩) id ⟩.

(** ** State application *)

(** A purchase published to the WebSocket clients: the event and the amount in
    stroops. *)
Abbreviation broadcast := (string * Z)%type (only parsing).

Section Apply.
Context `{Uuids}.

Definition stellar_is (stellar_id : string) (t : Ticket) : bool :=
  bool_decide (tk_stellar_id t = Some stellar_id).

(** [INSERT INTO tickets .. ON CONFLICT (stellar_id) DO NOTHING], where
    [event_id] references [events]. *)
Definition insert_ticket (db : Db) (stellar_id event_text : string) (buyer owner : option string)
    : res IndexerError Db :=
  let! event_id := ok_or (pg_uuid event_text) Database in
  if existsb (stellar_is stellar_id) (tickets db) then Ok db
  else
    do! fail_if (negb (bool_decide (event_id ∈ events db))) Database in
    Ok (db ⟨ tickets ::= λ l,
          l ++ [MkTicket (Some stellar_id) (Some event_id) buyer owner "Unused"] ⟩).

Definition purchase_stellar_id (event : IndexedEvent) : string :=
  let payload := as_purchase event in
  if decide (pp_payment_id payload = "") then ie_id event else pp_payment_id payload.
Definition apply_purchase (db : Db) (broker : bool) (event : IndexedEvent)
    : res IndexerError (Db * list broadcast) :=
  let payload := as_purchase event in
  if decide (pp_event_id payload = "") then Ok (db, [])
  else
    let owner := match pp_owner payload with Some o => Some o | None => pp_buyer payload end in
    let! db := insert_ticket db (purchase_stellar_id event) (pp_event_id payload)
                 (pp_buyer payload) owner in
    Ok (db, if broker then
              match parse_str (pp_event_id payload) with
              | Some event_uuid => [(event_uuid, default 0 (pp_amount payload))]
              | None => []
              end
            else []).

Definition refund_stellar_id (event : IndexedEvent) : string :=
  let payload := as_refund event in
  if decide (rf_payment_id payload = "") then ie_id event else rf_payment_id payload.
(** [WHERE stellar_id = $1 OR (event_id = $2 AND status != 'Revoked')]; a
    comparison with NULL does not hold. *)
Definition refund_matches (stellar_id : string) (event_uuid : option string) (t : Ticket) : bool :=
  stellar_is stellar_id t
  || match event_uuid with
     | Some u => bool_decide (tk_event_id t = Some u) && negb (bool_decide (tk_status t = "Revoked"))
     | None => false
     end.
Definition revoke (stellar_id : string) (event_uuid : option string) (t : Ticket) : Ticket :=
  if refund_matches stellar_id event_uuid t then t ⟨ tk_status := "Revoked" ⟩ else t.
Definition apply_refund (db : Db) (event : IndexedEvent) : Db :=
  let event_uuid := parse_str (rf_event_id (as_refund event)) in
  db ⟨ tickets ::= fmap (revoke (refund_stellar_id event) event_uuid) ⟩.

Definition set_owner (payment_id : string) (to : option string) (t : Ticket) : Ticket :=
  if stellar_is payment_id t then t ⟨ tk_owner_wallet := to ⟩ else t.
Definition apply_transfer (db : Db) (event : IndexedEvent) : Db :=
  let payload := as_transfer event in
  if decide (tr_payment_id payload = "") then db
  else match tr_to payload with
       | None => db
       | Some _ => db ⟨ tickets ::= fmap (set_owner (tr_payment_id payload) (tr_to payload)) ⟩
       end.

(** [apply_registered] and [apply_status_update] only touch the time of the
    last update of an event. *)
Definition apply_registered (db : Db) (event : IndexedEvent) : Db := db.
Definition apply_status_update (db : Db) (event : IndexedEvent) : Db := db.

Definition set_verified (organizer : string) (verified : bool) (o : Organizer) : Organizer :=
  if bool_decide (or_wallet_address o = Some organizer) then o ⟨ or_is_verified := verified ⟩ else o.
Definition apply_collateral (db : Db) (event : IndexedEvent) (verified : bool) : Db :=
  let organizer := default "" (get_str (ie_value event) "organizer") in
  if decide (organizer = "") then db
  else db ⟨ organizers ::= fmap (set_verified organizer verified) ⟩.

Definition apply_event_state (config : IndexerConfig) (broker : bool) (db : Db)
    (event : IndexedEvent) : res IndexerError (Db * list broadcast) :=
  if decide (ie_contract_id event = ic_ticket_payment_contract_id config) then
    match ie_kind event with
    | ProcessPurchase => apply_purchase db broker event
    | Refund => Ok (apply_refund db event, [])
    | TransferTicket => Ok (apply_transfer db event, [])
    | _ => Ok (db, [])
    end
  else if decide (ie_contract_id event = ic_event_registry_contract_id config) then
    match ie_kind event with
    | RegisterEvent => Ok (apply_registered db event, [])
    | EventStatusUpdate => Ok (apply_status_update db event, [])
    | CollateralStaked => Ok (apply_collateral db event true, [])
    | CollateralUnstaked => Ok (apply_collateral db event false, [])
    | _ => Ok (db, [])
    end
  else Ok (db, []).

Definition apply_and_finalize (config : IndexerConfig) (broker : bool) (db : Db)
    (event : IndexedEvent) : res IndexerError (Db * list broadcast) :=
  let! ' (db, out) := apply_event_state config broker db event in
  Ok (mark_finalized db (ie_id event), out).
End Apply.
