(* ===== verification/IdxSweep.v ===== *)
(** * The indexer: finalizer and replay

    [finalize_batch], the turns of [run_finalizer] and [run_replay] of
    [server/src/services/indexer.rs].  None of them runs in a transaction: an
    error keeps what was written before it. *)

From S2P Require Import Prelude Machine IdxEvents IdxPool IdxStore.

(** ** Pending rows *)

(** [ORDER BY ledger ASC, id ASC]; ids are compared as byte strings. *)
Definition row_le (a b : string * LedgerEvent) : Prop :=
  le_ledger a.2 < le_ledger b.2
  ∨ le_ledger a.2 = le_ledger b.2 ∧ String.le a.1 b.1.
#[export] Instance row_le_dec : RelDecision row_le.
Proof. intros a b. unfold row_le. apply _. Defined.

Definition is_pending (bound : Z) (ie : string * LedgerEvent) : Prop :=
  le_finalized ie.2 = false ∧ le_ledger ie.2 ≤ bound.
#[export] Instance is_pending_dec bound ie : Decision (is_pending bound ie).
Proof. unfold is_pending. apply _. Defined.

(** [WHERE finalized = FALSE AND ledger <= $1], and the first batch of it. *)
Definition pending (db : Db) (final_bound : Z) : gmap string LedgerEvent :=
  filter (is_pending final_bound) (indexer_ledger_events db).
Definition pending_events (db : Db) (final_bound : Z) : list (string * LedgerEvent) :=
  take FINALIZER_BATCH_SIZE (merge_sort row_le (map_to_list (pending db final_bound))).

#[global] Arguments pending : simpl never.
#[global] Arguments pending_events : simpl never.

(** [serde_json::from_value::<Vec<String>>], and the fallback. *)
Fixpoint strings_of (l : list Value) : option (list string) :=
  match l with
  | [] => Some []
  | JString s :: l => strings_of l ≫= λ ss, Some (s :: ss)
  | _ => None
  end.
Definition row_topic (topic : Value) : list string :=
  match match topic with JArray l => strings_of l | _ => None end with
  | Some t => t
  | None => match as_str topic with Some s => [s] | None => [] end
  end.
Definition event_of_row `{XdrCodec} (latest : Z) (id : string) (row : LedgerEvent) : IndexedEvent :=
  decode id (le_ledger row mod 2 ^ 32) (le_contract_id row) (row_topic (le_topic row))
    (le_value row) latest.

Section Sweep.
Context `{XdrCodec} `{Uuids}.
Variable config : IndexerConfig.
Variable broker : bool.

(** ** [finalize_batch]: the database, what was published, and the result *)
Fixpoint finalize_rows (latest : Z) (rows : list (string * LedgerEvent)) (db : Db)
    : Db * list (string * Z) * res IndexerError unit :=
  match rows with
  | [] => (db, [], Ok tt)
  | (id, row) :: rows =>
      let event := event_of_row latest id row in
      if decide (ie_kind event = Unhandled) then finalize_rows latest rows (mark_finalized db id)
      else match apply_and_finalize config broker db event with
           | Ok (db, out) =>
               let '(db, out', r) := finalize_rows latest rows db in (db, out ++ out', r)
           | Err e => (db, [], Err e)
           | Panic => (db, [], Panic)
           end
  end.
Definition finalize_batch (db : Db) (final_bound : Z)
    : Db * list (string * Z) * res IndexerError unit :=
  finalize_rows (final_bound + ic_confirmations config) (pending_events db final_bound) db.

(** ** One turn of [run_finalizer] *)
Definition finalizer_tick (observed : Z) (db : Db) : Db * list (string * Z) :=
  if observed <? ic_confirmations config + 1 then (db, [])
  else
    let final_bound := observed - ic_confirmations config in
    match finalize_batch db final_bound with
    | (db, out, Ok _) =>
        let db := checkpoint.save db CHAIN_KEY final_bound None in
        let keep := sat_u32 (final_bound - ic_window_ledgers config) in
        (checkpoint.prune_window db keep, out)
    | (db, out, _) => (db, out)
    end.

(** ** [run_replay] *)
Record ReplaySummary : Type := MkSummary {
  rs_start_ledger : Z;
  rs_end_ledger : Z;
  rs_events_processed : Z;
  rs_skipped_duplicates : Z
}.
Definition run_replay_validation (start_ledger end_ledger : Z) : res IndexerError unit :=
  do! fail_if (start_ledger =? 0) InvalidRange in
  do! fail_if (end_ledger <? start_ledger) InvalidRange in
  fail_if (MAX_REPLAY_LEDGERS <? sat_u32 (end_ledger - start_ledger)) InvalidRange.

(** The loop over a page: processed, skipped, whether an event beyond the end
    was met, whether any event was taken. *)
Record Progress : Type := MkProgress {
  pg_processed : Z;
  pg_skipped : Z;
  pg_started : bool
}.
Fixpoint replay_events (latest end_ledger : Z) (raws : list SorobanEvent) (db : Db) (p : Progress)
    : Db * res IndexerError (Progress * bool) :=
  match raws with
  | [] => (db, Ok (p, false))
  | raw :: raws =>
      if end_ledger <? se_ledger raw then (db, Ok (p, true))
      else
        let event := decode (se_id raw) (se_ledger raw) (se_contract_id raw) (se_topic raw)
                       (se_value raw) latest in
        let '(inserted, db) := buffer_insert db event in
        if 0 <? inserted then
          match apply_and_finalize config broker db event with
          | Ok (db, _) =>
              replay_events latest end_ledger raws db
                (MkProgress (pg_processed p + 1) (pg_skipped p) true)
          | Err e => (db, Err e)
          | Panic => (db, Panic)
          end
        else replay_events latest end_ledger raws db
               (MkProgress (pg_processed p) (pg_skipped p + 1) true)
  end.
(** [pages] are the pages that the RPC serves one after the other; [None]: the
    loop waits for another one. *)
Fixpoint replay_pages (end_ledger : Z) (pages : list FetchedPage) (db : Db) (p : Progress)
    : Db * option (res IndexerError Progress) :=
  match pages with
  | [] => (db, None)
  | page :: pages =>
      match replay_events (fp_latest_ledger page) end_ledger (fp_events page) db p with
      | (db, Ok (p, done)) =>
          if done || (length (fp_events page) <? MAX_EVENTS_PER_POLL)%nat
             || (end_ledger <=? fp_latest_ledger page) || negb (pg_started p)
          then (db, Some (Ok p))
          else replay_pages end_ledger pages db p
      | (db, Err e) => (db, Some (Err e))
      | (db, Panic) => (db, Some Panic)
      end
  end.
Definition run_replay (start_ledger end_ledger : Z) (pages : list FetchedPage) (db : Db)
    : Db * option (res IndexerError ReplaySummary) :=
  match run_replay_validation start_ledger end_ledger with
  | Ok _ =>
      match replay_pages end_ledger pages db (MkProgress 0 0 false) with
      | (db, Some (Ok p)) =>
          (checkpoint.save db CHAIN_KEY end_ledger None,
           Some (Ok (MkSummary start_ledger end_ledger (pg_processed p) (pg_skipped p))))
      | (db, Some (Err e)) => (db, Some (Err e))
      | (db, Some Panic) => (db, Some Panic)
      | (db, None) => (db, None)
      end
  | Err e => (db, Some (Err e))
  | Panic => (db, Some Panic)
  end.
End Sweep.

(** ** Frames of state application *)
Section Frames.
Context `{XdrCodec} `{Uuids}.
Variable config : IndexerConfig.
Variable broker : bool.

Lemma apply_purchase_frame db event db' out :
  apply_purchase db broker event = Ok (db', out) →
  indexer_ledger_events db' = indexer_ledger_events db
  ∧ blockchain_checkpoints db' = blockchain_checkpoints db ∧ events db' = events db.
Proof.
  unfold apply_purchase. intros Hr. case_decide; [by injection Hr as <- <-|].
  apply rbind_Ok in Hr as (db1 & Hi & Hr). injection Hr as <- <-.
  unfold insert_ticket in Hi. apply rbind_Ok in Hi as (u & _ & Hi).
  destruct (existsb _ _); [by injection Hi as <-|]. by run Hi.
Qed.
Lemma apply_event_frame db event db' out :
  apply_event_state config broker db event = Ok (db', out) →
  indexer_ledger_events db' = indexer_ledger_events db
  ∧ blockchain_checkpoints db' = blockchain_checkpoints db ∧ events db' = events db.
Proof.
  unfold apply_event_state, apply_transfer, apply_collateral. intros Hr.
  repeat case_decide; destruct (ie_kind event); try (by eapply apply_purchase_frame);
    try (destruct (tr_to _)); by injection Hr as <- <-.
Qed.

(** Whether a purchase of the payment contract names an event the platform
    has; other events always apply. *)
Definition applicable (db : Db) (event : IndexedEvent) : Prop :=
  ie_contract_id event = ic_ticket_payment_contract_id config → ie_kind event = ProcessPurchase →
  pp_event_id (as_purchase event) ≠ "" →
  ∃ u, pg_uuid (pp_event_id (as_purchase event)) = Some u ∧ u ∈ events db.

Lemma applicable_applies db event :
  applicable db event → is_ok (apply_event_state config broker db event) = true.
Proof.
  intros Ha. unfold apply_event_state, apply_purchase.
  repeat case_decide; destruct (ie_kind event) eqn:Ek; try done.
  destruct Ha as (u & Hu & Hin); [done..|]. unfold insert_ticket. rewrite Hu. cbn.
  destruct (existsb _ _); cbn; [done|]. by rewrite bool_decide_true by done.
Qed.
(** What cannot be applied: a purchase whose event is not a UUID. *)
Lemma unparsable_fails db event :
  ie_contract_id event = ic_ticket_payment_contract_id config → ie_kind event = ProcessPurchase →
  pp_event_id (as_purchase event) ≠ "" → pg_uuid (pp_event_id (as_purchase event)) = None →
  apply_event_state config broker db event = Err Database.
Proof.
  intros Hc Hk He Hu. unfold apply_event_state, apply_purchase.
  rewrite decide_True, Hk, decide_False by done. unfold insert_ticket. by rewrite Hu.
Qed.
End Frames.
