(* ===== verification/IdxSpecs.v ===== *)
(** * The indexer: the finalizer drains the buffer, and what stops it

    Sweeps of the finalizer, the poisoned row, events parked and read back,
    and replays that end after one page. *)

From S2P Require Import Prelude Machine IdxEvents IdxPool IdxStore IdxSweep.

Section Specs.
Context `{XdrCodec} `{Uuids}.
Variable config : IndexerConfig.
Variable broker : bool.
#[local] Abbreviation conf := (ic_confirmations config).

(** ** Pending rows *)
Lemma pending_events_spec db bound id row :
  (id, row) ∈ pending_events db bound →
  indexer_ledger_events db !! id = Some row ∧ is_pending bound (id, row).
Proof.
  intros Hin. apply elem_of_take in Hin as (i & Hi & _). apply list_elem_of_lookup_2 in Hi.
  rewrite merge_sort_Permutation in Hi. apply elem_of_map_to_list in Hi.
  by apply map_lookup_filter_Some in Hi.
Qed.
Lemma pending_events_length db bound :
  length (pending_events db bound) = Nat.min FINALIZER_BATCH_SIZE (size (pending db bound)).
Proof.
  unfold pending_events. rewrite length_take.
  by rewrite merge_sort_Permutation, length_map_to_list.
Qed.
Lemma pending_events_NoDup db bound : NoDup (pending_events db bound).*1.
Proof.
  unfold pending_events. set (l := merge_sort _ _).
  assert (NoDup l.*1) as Hl by (unfold l; rewrite merge_sort_Permutation; apply NoDup_fst_map_to_list).
  rewrite <- (take_drop FINALIZER_BATCH_SIZE l), fmap_app in Hl. by apply NoDup_app in Hl as [? _].
Qed.

(** ** What a sweep writes *)
Definition mark_row (row : LedgerEvent) : LedgerEvent := row ⟨ le_finalized := true ⟩.
Definition marks (ids : list string) (m : gmap string LedgerEvent) : gmap string LedgerEvent :=
  foldl (λ m id, alter mark_row id m) m ids.

Lemma marks_lookup ids m id :
  marks ids m !! id = (if decide (id ∈ ids) then mark_row else Datatypes.id) <$> m !! id.
Proof.
  revert m. induction ids as [|i ids IH]; intros m; cbn.
  - rewrite decide_False by apply not_elem_of_nil. by destruct (m !! id).
  - unfold marks in *. rewrite IH. destruct (decide (id = i)) as [->|Hne].
    + rewrite lookup_alter_eq, (decide_True _ _ (list_elem_of_here i ids)).
      destruct (m !! i); cbn; [|done]. by case_decide.
    + rewrite lookup_alter_ne by done.
      destruct (decide (id ∈ ids)).
      * by rewrite decide_True by by right.
      * by rewrite decide_False by (rewrite elem_of_cons; tauto).
Qed.

Lemma finalize_rows_ok latest rows : ∀ db,
  (∀ id row, (id, row) ∈ rows → applicable config db (event_of_row latest id row)) →
  ∃ db' out, finalize_rows config broker latest rows db = (db', out, Ok tt)
  ∧ events db' = events db ∧ indexer_ledger_events db' = marks rows.*1 (indexer_ledger_events db).
Proof.
  induction rows as [|[id row] rows IH]; intros db Ha; [by eexists _, _|].
  assert (∀ db1, events db1 = events db →
    ∀ i r, (i, r) ∈ rows → applicable config db1 (event_of_row latest i r)) as Hrest.
  { intros db1 He i r Hi ? ? ?. rewrite He. apply Ha; [by right|done..]. }
  cbn [finalize_rows]. case_decide as Hk.
  - destruct (IH (mark_finalized db id)) as (db' & out & -> & He & Hl); [by apply Hrest|].
    by eexists _, _.
  - assert (is_ok (apply_event_state config broker db (event_of_row latest id row)) = true) as Hok
      by (apply applicable_applies, Ha; left).
    unfold apply_and_finalize.
    destruct (apply_event_state _ _ _ _) as [[db1 out1]|e|] eqn:Ea; [|done|done].
    apply apply_event_frame in Ea as (Hl1 & _ & He1). cbn.
    destruct (IH (mark_finalized db1 id)) as (db' & out & -> & He & Hl); [by apply Hrest|].
    eexists _, _. split; [done|]. split; [by rewrite He|]. rewrite Hl. cbn. by rewrite Hl1.
Qed.

(** ** One turn of the finalizer *)
Definition sound (db : Db) (observed : Z) : Prop :=
  ∀ id row, pending db (observed - conf) !! id = Some row →
    applicable config db (event_of_row observed id row).

Lemma tick_spec db observed :
  conf < observed → sound db observed →
  let bound := observed - conf in
  let db' := (finalizer_tick config broker observed db).1 in
  events db' = events db
  ∧ pending db' bound = filter (λ ie, ie.1 ∉ (pending_events db bound).*1) (pending db bound)
  ∧ checkpoint.load db' CHAIN_KEY = Some (MkCheckpoint bound None).
Proof.
  intros Hobs Hs bound. unfold finalizer_tick.
  destruct (observed <? conf + 1) eqn:Eo; [lia|]. fold bound.
  destruct (finalize_rows_ok (bound + conf) (pending_events db bound) db) as (db' & out & E & He & Hl).
  { intros id row Hin. apply pending_events_spec in Hin as [Hin Hp].
    replace (bound + conf) with observed by (unfold bound; lia).
    apply Hs. by apply map_lookup_filter_Some. }
  unfold finalize_batch. rewrite E. cbn. split; [done|]. split; cycle 1.
  { unfold checkpoint.load. cbn. by rewrite lookup_insert_eq. }
  set (ids := (pending_events db bound).*1) in *.
  apply map_eq. intros j. apply option_eq. intros x.
  unfold pending at 1. cbn. rewrite Hl, !map_lookup_filter_Some, marks_lookup. cbn.
  unfold pending. rewrite map_lookup_filter_Some.
  destruct (indexer_ledger_events db !! j) as [r|]; cbn; [|naive_solver].
  unfold is_pending. cbn. destruct (decide (j ∈ ids)) as [Hj|Hj]; cbn.
  - split; [|naive_solver]. intros [[[= <-] _] [Hf _]]. done.
  - split; [by intros [[? _] ?]|]. intros [(? & Hf & ?) _]. split_and!; [done| |done..].
    intros [Ht _]. congruence.
Qed.

Lemma filter_drops (m : gmap string LedgerEvent) (ids : list string) :
  NoDup ids → (∀ id, id ∈ ids → is_Some (m !! id)) →
  size (filter (λ ie, ie.1 ∉ ids) m) = (size m - length ids)%nat.
Proof.
  intros Hnd Hin. rewrite <- !size_dom.
  replace (dom (filter (λ ie, ie.1 ∉ ids) m)) with (dom m ∖ list_to_set ids).
  - rewrite size_difference, size_list_to_set; [done|done|].
    intros id Hid. apply elem_of_list_to_set in Hid. by apply elem_of_dom, Hin.
  - symmetry. apply dom_filter_L. intros i. rewrite elem_of_difference, elem_of_dom.
    rewrite elem_of_list_to_set. unfold is_Some. naive_solver.
Qed.


(** ** The poisoned row *)
#[local] Instance row_le_trans : Transitive row_le.
Proof.
  intros [i a] [j b] [k c]. unfold row_le. cbn. intros [?|[? ?]] [?|[? ?]]; [left; lia..|].
  right. split; [lia|]. by etrans.
Qed.
#[local] Instance row_le_total : Total row_le.
Proof.
  intros [i a] [j b]. unfold row_le. cbn.
  destruct (Z.lt_trichotomy (le_ledger a) (le_ledger b)) as [?|[?|?]]; [by left; left| |by right; left].
  destruct (total String.le i j); [left|right]; right; by split.
Qed.
Lemma row_le_antisymm i a j b : row_le (i, a) (j, b) → row_le (j, b) (i, a) → i = j.
Proof.
  unfold row_le. cbn. intros [?|[? ?]] [?|[? ?]]; [lia..|]. by apply (anti_symm String.le).
Qed.

Lemma pending_events_first db bound id row :
  pending db bound !! id = Some row →
  (∀ i r, pending db bound !! i = Some r → row_le (id, row) (i, r)) →
  ∃ rows, pending_events db bound = (id, row) :: rows.
Proof.
  intros Hrow Hmin. unfold pending_events.
  set (l := map_to_list (pending db bound)).
  pose proof (StronglySorted_merge_sort row_le l) as Hsorted.
  pose proof (merge_sort_Permutation row_le l) as Hperm.
  assert (∀ i r, (i, r) ∈ merge_sort row_le l ↔ pending db bound !! i = Some r) as Hin.
  { intros i r. rewrite Hperm. apply elem_of_map_to_list. }
  destruct (merge_sort row_le l) as [|[i r] rest] eqn:E.
  { apply Hin in Hrow. by apply not_elem_of_nil in Hrow. }
  assert ((i, r) = (id, row)) as ->; [|by eexists].
  assert (pending db bound !! i = Some r) as Hr by (apply Hin; left).
  assert (i = id) as ->; [|congruence].
  apply Hin, elem_of_cons in Hrow as [Hrow|Hrow]; [congruence|].
  apply StronglySorted_inv in Hsorted as [_ Hall]. rewrite Forall_forall in Hall.
  eapply row_le_antisymm; [by apply Hall|by apply Hmin].
Qed.

(** One bad row stops the finalizer for good: if the first pending row is a
    purchase whose event is not a UUID, then every turn that reaches it fails
    and changes nothing: no other row is applied, however many more are
    final, nothing is published, and the checkpoint stays. *)
Theorem poison_stalls db id row observed :
  let event := event_of_row observed id row in
  indexer_ledger_events db !! id = Some row → le_finalized row = false →
  (∀ i r, indexer_ledger_events db !! i = Some r → le_finalized r = false →
     row_le (id, row) (i, r)) →
  ie_contract_id event = ic_ticket_payment_contract_id config →
  ie_kind event = ProcessPurchase → pp_event_id (as_purchase event) ≠ "" →
  pg_uuid (pp_event_id (as_purchase event)) = None →
  le_ledger row ≤ observed - conf →
  finalizer_tick config broker observed db = (db, []).
Proof.
  intros event Hrow Hf Hmin Hc Hk He Hu Hb. unfold finalizer_tick.
  destruct (observed <? conf + 1); [done|]. set (bound := observed - conf) in *.
  destruct (pending_events_first db bound id row) as [rows E].
  { by apply map_lookup_filter_Some. }
  { intros i r Hi. apply map_lookup_filter_Some in Hi as [Hi [Hfi _]]. by apply Hmin. }
  unfold finalize_batch. rewrite E.
  replace (bound + conf) with observed by (unfold bound; lia). cbn [finalize_rows].
  fold event. rewrite decide_False by (rewrite Hk; discriminate).
  unfold apply_and_finalize. by rewrite (unparsable_fails config broker).
Qed.

(** ** Parking an event and reading it back *)

(** The buffer keeps events: an event decoded from the RPC, parked in the
    buffer and read back by the finalizer is the same event, with the chain
    head the finalizer sees, unless its name or its payload is itself the
    text of an XDR value. *)
Theorem parked_read_back id ledger contract topic value head_seen latest :
  let e := decode id ledger contract topic value head_seen in
  0 ≤ ledger < 2 ^ 32 → from_xdr_base64 (ie_topic_name e) = None →
  (∀ s, ie_value e = JString s → from_xdr_base64 s = None) →
  (∀ m s, ie_value e = JObject m → obj_get "xdr" m = Some (JString s) → from_xdr_base64 s = None) →
  event_of_row latest (ie_id e) (parked e)
  = MkIndexed (ie_id e) (ie_ledger e) (ie_contract_id e) latest (ie_kind e) (ie_topic_name e)
      (ie_value e).
Proof.
  intros e Hl Ht Hs Ho. unfold event_of_row, decode. cbn [parked le_ledger le_contract_id le_topic le_value].
  assert (ie_ledger e = ledger) as Hledger by done. rewrite Hledger, Z.mod_small by done.
  change (row_topic (JString (ie_topic_name e))) with [ie_topic_name e]. cbn [head hd_error].
  assert (decode_topic_symbol (Some (ie_topic_name e)) = ie_topic_name e) as ->.
  { unfold decode_topic_symbol. by rewrite Ht. }
  assert (normalize_payload (ie_value e) = ie_value e) as ->; [|done].
  unfold normalize_payload. destruct (ie_value e) as [| | | |s| |m] eqn:Ev; try done.
  - by rewrite (Hs s).
  - destruct (obj_get "xdr" m) as [[]|] eqn:Ex; cbn; try done. by rewrite (Ho m s).
Qed.

(** ** Replays *)
Lemma replay_events_count latest end_ledger raws : ∀ db p db' p' fin,
  replay_events config broker latest end_ledger raws db p = (db', Ok (p', fin)) →
  pg_processed p' + pg_skipped p' ≤ pg_processed p + pg_skipped p + Z.of_nat (length raws).
Proof.
  induction raws as [|raw raws IH]; intros db p db' p' fin Hr; cbn [replay_events] in Hr.
  { injection Hr as <- <- <-. cbn. lia. }
  destruct (end_ledger <? se_ledger raw); [injection Hr as <- <- <-; lia|].
  destruct (buffer_insert _ _) as [n db1]. cbn [length].
  destruct (0 <? n).
  - destruct (apply_and_finalize _ _ _ _) as [[db2 out]|e|]; [|done|done].
    apply IH in Hr. cbn in Hr. lia.
  - apply IH in Hr. cbn in Hr. lia.
Qed.

(** A replay ends after its first page once the chain is past the range:
    whatever further pages the node has, they are not asked for, so at most
    the events of one page are handled; yet the checkpoint is moved to the
    end of the range. *)
Theorem replay_one_page start_ledger end_ledger page rest db db' summary :
  end_ledger ≤ fp_latest_ledger page →
  run_replay config broker start_ledger end_ledger (page :: rest) db = (db', Some (Ok summary)) →
  run_replay config broker start_ledger end_ledger [page] db = (db', Some (Ok summary))
  ∧ rs_events_processed summary + rs_skipped_duplicates summary
    ≤ Z.of_nat (length (fp_events page))
  ∧ checkpoint.load db' CHAIN_KEY = Some (MkCheckpoint end_ledger None).
Proof.
  intros Hlatest. unfold run_replay.
  destruct (run_replay_validation _ _) as [?|?|]; [|done|done]. cbn [replay_pages].
  destruct (replay_events _ _ _ _ _ _ _) as [db1 [[p fin]|e|]] eqn:E; [|done|done].
  apply replay_events_count in E. cbn in E.
  rewrite (proj2 (Z.leb_le _ _) Hlatest), !orb_true_r. cbn.
  intros [= <- <-]. split; [done|]. cbn. split; [lia|].
  unfold checkpoint.load. cbn. by rewrite lookup_insert_eq.
Qed.
End Specs.

(** ** The indexer: applying events again

    After a re-organisation the events above the fork are applied a second
    time.  Which histories can be replayed without changing the tables, and
    what a refund does to the other tickets of its event. *)

(** ** Writes that set a field or keep it *)
Definition set_or_keep {A} (f : A → A) : Prop := (∀ a, f a = a) ∨ (∃ c, ∀ a, f a = c).

(** A write after a write that it would not have changed, and itself. *)
Lemma set_or_keep_again {A} (f g : A → A) a :
  set_or_keep g → f a = a → g (f (g a)) = g a.
Proof. intros [Hg|[c Hg]] Hf; by rewrite ?Hg, ?Hf. Qed.

Section Replay.
Context `{Uuids}.
Variable config : IndexerConfig.
Variable broker : bool.

Definition apply_all (l : list IndexedEvent) (db : Db) : res IndexerError Db :=
  rfold (λ db e, let! ' (db, _) := apply_event_state config broker db e in Ok db) l db.

(** ** What an event does to a row *)
Definition of_payments (e : IndexedEvent) : bool :=
  bool_decide (ie_contract_id e = ic_ticket_payment_contract_id config).
Definition of_registry (e : IndexedEvent) : bool :=
  negb (of_payments e) && bool_decide (ie_contract_id e = ic_event_registry_contract_id config).

(** The ticket an event inserts unless it is there. *)
Definition purchased (e : IndexedEvent) : option string :=
  if of_payments e && bool_decide (ie_kind e = ProcessPurchase)
     && negb (bool_decide (pp_event_id (as_purchase e) = ""))
  then Some (purchase_stellar_id e) else None.
Definition transferred (e : IndexedEvent) : option (string * string) :=
  if of_payments e && bool_decide (ie_kind e = TransferTicket)
     && negb (bool_decide (tr_payment_id (as_transfer e) = ""))
  then (λ to, (tr_payment_id (as_transfer e), to)) <$> tr_to (as_transfer e) else None.
Definition refunded (e : IndexedEvent) : option string :=
  if of_payments e && bool_decide (ie_kind e = Refund) then Some (refund_stellar_id e) else None.
(** A refund that names an event, and so all tickets of it. *)
Definition event_wide (e : IndexedEvent) : Prop :=
  is_Some (refunded e) ∧ is_Some (parse_str (rf_event_id (as_refund e))).

Definition owner_write (e : IndexedEvent) (sid : option string) (o : option string) : option string :=
  match transferred e with
  | Some (p, to) => if bool_decide (sid = Some p) then Some to else o
  | None => o
  end.
Definition status_write (e : IndexedEvent) (sid : option string) (s : string) : string :=
  match refunded e with
  | Some p => if bool_decide (sid = Some p) then "Revoked" else s
  | None => s
  end.
Definition on_ticket (e : IndexedEvent) (t : Ticket) : Ticket :=
  MkTicket (tk_stellar_id t) (tk_event_id t) (tk_buyer_wallet t)
    (owner_write e (tk_stellar_id t) (tk_owner_wallet t))
    (status_write e (tk_stellar_id t) (tk_status t)).
Definition verified_write (e : IndexedEvent) (wallet : option string) (v : bool) : bool :=
  let organizer := default "" (get_str (ie_value e) "organizer") in
  if of_registry e && negb (bool_decide (organizer = ""))
     && bool_decide (wallet = Some organizer) then
    match ie_kind e with CollateralStaked => true | CollateralUnstaked => false | _ => v end
  else v.
Definition on_organizer (e : IndexedEvent) (o : Organizer) : Organizer :=
  MkOrganizer (or_wallet_address o) (verified_write e (or_wallet_address o) (or_is_verified o)).

Lemma owner_write_set_or_keep e sid : set_or_keep (owner_write e sid).
Proof.
  unfold owner_write. destruct (transferred e) as [[p to]|]; [|by left].
  case_bool_decide; [right; by eexists|by left].
Qed.
Lemma status_write_set_or_keep e sid : set_or_keep (status_write e sid).
Proof.
  unfold status_write. destruct (refunded e); [|by left].
  case_bool_decide; [right; by eexists|by left].
Qed.
Lemma verified_write_set_or_keep e w : set_or_keep (verified_write e w).
Proof.
  unfold verified_write. cbv zeta.
  destruct (_ && _ && _); [|by left]. destruct (ie_kind e); first [by left|right; by eexists].
Qed.

Definition has_ticket (db : Db) (sid : string) : Prop :=
  ∃ t, t ∈ tickets db ∧ tk_stellar_id t = Some sid.
Lemma existsb_has_ticket db sid : existsb (stellar_is sid) (tickets db) = true ↔ has_ticket db sid.
Proof.
  rewrite existsb_exists. unfold stellar_is, has_ticket. split.
  - intros (t & Ht & Hs). apply bool_decide_eq_true in Hs. exists t. by rewrite list_elem_of_In.
  - intros (t & Ht & Hs). exists t. rewrite list_elem_of_In in Ht. by rewrite bool_decide_true.
Qed.

(** The writes of [UPDATE] statements as writes of rows. *)
Definition write_rows (e : IndexedEvent) (db : Db) : Db :=
  db ⟨ tickets ::= fmap (on_ticket e) ⟩ ⟨ organizers ::= fmap (on_organizer e) ⟩.

Lemma write_rows_keep e db :
  transferred e = None → refunded e = None → (∀ w v, verified_write e w v = v) →
  write_rows e db = db.
Proof.
  intros Ht Hr Hv. unfold write_rows, upd. destruct db as [cps les ts evs os]. cbn. f_equal.
  - rewrite <- (list_fmap_id ts) at 2. apply list_fmap_ext. intros i [] _.
    unfold on_ticket, owner_write, status_write. by rewrite Ht, Hr.
  - rewrite <- (list_fmap_id os) at 2. apply list_fmap_ext. intros i [] _.
    unfold on_organizer. by rewrite Hv.
Qed.
Lemma payments_keep_organizers e w v : of_payments e = true → verified_write e w v = v.
Proof. intros Hp. unfold verified_write, of_registry. by rewrite Hp. Qed.
Lemma not_payments e :
  of_payments e = false → purchased e = None ∧ transferred e = None ∧ refunded e = None.
Proof. intros Hp. unfold purchased, transferred, refunded. by rewrite Hp. Qed.

(** A refund without an event revokes by the payment alone. *)
Lemma refund_writes db e sid :
  of_payments e = true → ie_kind e = Refund → refunded e = Some sid →
  parse_str (rf_event_id (as_refund e)) = None → apply_refund db e = write_rows e db.
Proof.
  intros Hp Hk Hr Hn. unfold apply_refund, write_rows, upd. rewrite Hn.
  destruct db as [cps les ts evs os]. cbn. f_equal.
  - apply list_fmap_ext. intros i [sid' ev b o s] _.
    unfold revoke, refund_matches, stellar_is, on_ticket, owner_write, status_write.
    assert (transferred e = None) as ->
      by (unfold transferred; rewrite Hp, Hk; reflexivity).
    rewrite Hr. unfold refunded in Hr. rewrite Hp, Hk in Hr. injection Hr as <-.
    cbn. rewrite orb_false_r. by destruct (bool_decide _).
  - rewrite <- (list_fmap_id os) at 1. apply list_fmap_ext. intros i [] _.
    unfold on_organizer. by rewrite payments_keep_organizers.
Qed.
Lemma transfer_writes db e :
  of_payments e = true → ie_kind e = TransferTicket → apply_transfer db e = write_rows e db.
Proof.
  intros Hp Hk. unfold apply_transfer.
  assert (refunded e = None) as Hr by (unfold refunded; rewrite Hp, Hk; reflexivity).
  assert (transferred e = if decide (tr_payment_id (as_transfer e) = "") then None
    else (λ to, (tr_payment_id (as_transfer e), to)) <$> tr_to (as_transfer e)) as Ht.
  { unfold transferred. rewrite Hp, Hk. rewrite (bool_decide_true (TransferTicket = TransferTicket)) by done.
    case_decide; [rewrite bool_decide_true by done|rewrite bool_decide_false by done]; done. }
  case_decide as Hpid.
  { symmetry. apply write_rows_keep; [done|done|]. intros. by apply payments_keep_organizers. }
  destruct (tr_to (as_transfer e)) as [to|] eqn:Eto; cycle 1.
  { symmetry. apply write_rows_keep; [done|done|]. intros. by apply payments_keep_organizers. }
  unfold write_rows, upd. destruct db as [cps les ts evs os]. cbn. f_equal.
  - apply list_fmap_ext. intros i [sid ev b o s] _.
    unfold set_owner, stellar_is, on_ticket, owner_write, status_write. rewrite Ht, Hr. cbn.
    by destruct (bool_decide _).
  - rewrite <- (list_fmap_id os) at 1. apply list_fmap_ext. intros i [] _.
    unfold on_organizer. by rewrite payments_keep_organizers.
Qed.
Lemma collateral_writes db e (b : bool) :
  of_payments e = false → of_registry e = true →
  ie_kind e = (if b then CollateralStaked else CollateralUnstaked) →
  apply_collateral db e b = write_rows e db.
Proof.
  intros Hp Hg Hk. destruct (not_payments e Hp) as (_ & Ht & Hr).
  assert (∀ w v, verified_write e w v =
    if decide (default "" (get_str (ie_value e) "organizer") = "") then v
    else if bool_decide (w = Some (default "" (get_str (ie_value e) "organizer"))) then b else v)
    as Hv.
  { intros w v. unfold verified_write. rewrite Hg. cbv zeta. cbn [andb].
    case_decide as Ho; [by rewrite bool_decide_true|]. rewrite bool_decide_false by done. cbn.
    rewrite Hk. by destruct b, (bool_decide _). }
  unfold apply_collateral. case_decide as Ho.
  { symmetry. apply write_rows_keep; [done|done|]. intros w v. by rewrite Hv. }
  unfold write_rows, upd. destruct db as [cps les ts evs os]. cbn. f_equal.
  - rewrite <- (list_fmap_id ts) at 1. apply list_fmap_ext. intros i [] _.
    unfold on_ticket, owner_write, status_write. by rewrite Ht, Hr.
  - apply list_fmap_ext. intros i [w v] _. unfold set_verified, on_organizer. cbn.
    rewrite Hv. by destruct (bool_decide _).
Qed.

(** Every event but a purchase is a write of rows; a purchase writes none. *)
Lemma apply_as_writes db e :
  ¬ event_wide e → purchased e = None →
  apply_event_state config broker db e = Ok (write_rows e db, []).
Proof.
  intros Hw Hpu. unfold apply_event_state.
  destruct (decide (ie_contract_id e = ic_ticket_payment_contract_id config)) as [Hc|Hc].
  - assert (of_payments e = true) as Hp by by apply bool_decide_eq_true.
    assert (∀ w v, verified_write e w v = v) as Hv by (intros; by apply payments_keep_organizers).
    destruct (ie_kind e) eqn:Hk;
      try (rewrite write_rows_keep; [done| | |done];
           [unfold transferred|unfold refunded]; rewrite Hp, Hk; reflexivity).
    + unfold apply_purchase. unfold purchased in Hpu.
      rewrite Hp, Hk, (bool_decide_true (ProcessPurchase = ProcessPurchase)) in Hpu by done.
      cbn [andb] in Hpu. destruct (decide (pp_event_id (as_purchase e) = "")) as [Hev|Hev];
        [|by rewrite bool_decide_false in Hpu].
      rewrite write_rows_keep; [done| | |done];
        [unfold transferred|unfold refunded]; rewrite Hp, Hk; reflexivity.
    + assert (refunded e = Some (refund_stellar_id e)) as Hr
        by (unfold refunded; rewrite Hp, Hk; reflexivity).
      erewrite refund_writes; [done|done|done|done|].
      destruct (parse_str _) eqn:Ep; [|done]. exfalso. apply Hw.
      unfold event_wide. by rewrite Hr, Ep.
    + by rewrite transfer_writes.
  - assert (of_payments e = false) as Hp by by apply bool_decide_eq_false.
    destruct (not_payments e Hp) as (_ & Ht & Hr).
    destruct (decide (ie_contract_id e = ic_event_registry_contract_id config)) as [Hg|Hg].
    + assert (of_registry e = true) as Hreg
        by (unfold of_registry; rewrite Hp; by apply bool_decide_eq_true).
      destruct (ie_kind e) eqn:Hk;
        try (rewrite write_rows_keep; [done|done|done|];
             intros w v; unfold verified_write; rewrite Hk; cbv zeta; by destruct (_ && _ && _)).
      * by rewrite (collateral_writes db e true).
      * by rewrite (collateral_writes db e false).
    + rewrite write_rows_keep; [done|done|done|]. intros w v. unfold verified_write, of_registry.
      by rewrite Hp, bool_decide_false.
Qed.

Lemma purchased_Some e sid :
  purchased e = Some sid →
  of_payments e = true ∧ ie_kind e = ProcessPurchase ∧ pp_event_id (as_purchase e) ≠ ""
  ∧ sid = purchase_stellar_id e.
Proof.
  unfold purchased. intros Hpu.
  destruct (of_payments e), (decide (ie_kind e = ProcessPurchase)) as [Hk|Hk],
    (decide (pp_event_id (as_purchase e) = "")) as [Hev|Hev]; cbn [andb] in Hpu; try done;
    rewrite ?(bool_decide_true (ie_kind e = ProcessPurchase)),
      ?(bool_decide_false (ie_kind e = ProcessPurchase)),
      ?(bool_decide_true (_ = "")), ?(bool_decide_false (_ = "")) in Hpu by done; try done.
  by injection Hpu as <-.
Qed.
(** A purchase of a ticket that is there changes nothing. *)
Lemma purchase_known db e sid u :
  purchased e = Some sid → has_ticket db sid → pg_uuid (pp_event_id (as_purchase e)) = Some u →
  write_rows e db = db ∧ ∃ out, apply_event_state config broker db e = Ok (db, out).
Proof.
  intros (Hp & Hk & Hev & ->)%purchased_Some Hin Hu. split.
  - apply write_rows_keep; [| |intros; by apply payments_keep_organizers];
      [unfold transferred|unfold refunded]; rewrite Hp, Hk; reflexivity.
  - apply bool_decide_eq_true in Hp. unfold apply_event_state, apply_purchase.
    rewrite decide_True, Hk, decide_False by done. unfold insert_ticket. rewrite Hu. cbn.
    rewrite (proj2 (existsb_has_ticket _ _)) by done. cbn. by eexists.
Qed.
(** A purchase that succeeded named a UUID, and appended its ticket unless it
    was there. *)
Lemma purchase_effect db e sid db' out :
  purchased e = Some sid → apply_event_state config broker db e = Ok (db', out) →
  is_Some (pg_uuid (pp_event_id (as_purchase e)))
  ∧ (has_ticket db sid ∧ db' = db
     ∨ ¬ has_ticket db sid ∧ organizers db' = organizers db
       ∧ ∃ t, tickets db' = tickets db ++ [t] ∧ tk_stellar_id t = Some sid).
Proof.
  intros (Hp & Hk & Hev & ->)%purchased_Some Ha.
  apply bool_decide_eq_true in Hp. unfold apply_event_state, apply_purchase in Ha.
  rewrite decide_True, Hk, decide_False in Ha by done.
  apply rbind_Ok in Ha as (db1 & Hi & Ha). injection Ha as <- <-.
  unfold insert_ticket in Hi. apply rbind_Ok in Hi as (u & Hu & Hi). apply ok_or_Ok in Hu.
  split; [by eexists|]. destruct (existsb _ _) eqn:Ex.
  - injection Hi as <-. left. by rewrite existsb_has_ticket in Ex.
  - right. split; [intros Hin; apply existsb_has_ticket in Hin; congruence|].
    run Hi. split; [done|]. by eexists.
Qed.

(** ** Histories *)
Definition writes (l : list IndexedEvent) (t : Ticket) : Ticket := foldl (λ t e, on_ticket e t) t l.
Definition writes_org (l : list IndexedEvent) (o : Organizer) : Organizer :=
  foldl (λ o e, on_organizer e o) o l.

(** The payment an event refers to. *)
Definition touches (e : IndexedEvent) : option string :=
  match transferred e with Some (p, _) => Some p | None => refunded e end.
(** Nothing refers to a payment before the purchase that creates its ticket. *)
Fixpoint causal (known touched : list string) (l : list IndexedEvent) : Prop :=
  match l with
  | [] => True
  | e :: l =>
      (∀ p, purchased e = Some p → p ∈ known ∨ p ∉ touched)
      ∧ causal (option_list (purchased e) ++ known) (option_list (touches e) ++ touched) l
  end.

Definition owner_writes (l : list IndexedEvent) (sid : option string) (o : option string) :=
  foldl (λ o e, owner_write e sid o) o l.
Definition status_writes (l : list IndexedEvent) (sid : option string) (s : string) :=
  foldl (λ s e, status_write e sid s) s l.
Lemma writes_fields l t :
  writes l t = MkTicket (tk_stellar_id t) (tk_event_id t) (tk_buyer_wallet t)
    (owner_writes l (tk_stellar_id t) (tk_owner_wallet t))
    (status_writes l (tk_stellar_id t) (tk_status t)).
Proof.
  revert t. induction l as [|e l IH]; intros [sid ev b o s]; [done|]. cbn. unfold writes in IH.
  by rewrite IH.
Qed.
Lemma writes_again l e t : writes l t = t → writes (l ++ [e]) (on_ticket e t) = on_ticket e t.
Proof.
  unfold writes at 2. rewrite foldl_app. cbn. fold (writes l (on_ticket e t)).
  rewrite !writes_fields. destruct t as [sid ev b o s]. cbn. intros Ht. injection Ht as Ho Hs.
  unfold on_ticket. cbn.
  by rewrite (set_or_keep_again (owner_writes l sid)), (set_or_keep_again (status_writes l sid))
    by auto using owner_write_set_or_keep, status_write_set_or_keep.
Qed.
Lemma writes_org_again l e o :
  writes_org l o = o → writes_org (l ++ [e]) (on_organizer e o) = on_organizer e o.
Proof.
  assert (∀ l o, writes_org l o = MkOrganizer (or_wallet_address o)
    (foldl (λ v e, verified_write e (or_wallet_address o) v) (or_is_verified o) l)) as Hf.
  { clear. induction l as [|e l IH]; intros [w v]; [done|]. cbn. unfold writes_org in IH.
    by rewrite IH. }
  unfold writes_org at 2. rewrite foldl_app. cbn. fold (writes_org l (on_organizer e o)).
  rewrite !Hf. destruct o as [w v]. cbn. intros Ho. injection Ho as Hv. unfold on_organizer. cbn.
  by rewrite (set_or_keep_again (λ v, foldl _ v l)) by auto using verified_write_set_or_keep.
Qed.
(** Rows of a payment that nothing refers to are left alone. *)
Lemma writes_untouched l t p :
  tk_stellar_id t = Some p → (∀ e, e ∈ l → touches e ≠ Some p) → writes l t = t.
Proof.
  intros Ht. induction l as [|e l IH]; intros Hl; [done|]. cbn.
  assert (on_ticket e t = t) as ->; [|apply IH; intros e' He'; apply Hl; by right].
  specialize (Hl e (list_elem_of_here _ _)). destruct t as [sid ev b o s]. cbn in Ht. subst sid.
  unfold on_ticket, touches, owner_write, status_write in *. cbn.
  destruct (transferred e) as [[q to]|] eqn:Et.
  - assert (refunded e = None) as ->.
    { unfold transferred in Et. unfold refunded. destruct (of_payments e); [|done]. cbn [andb] in *.
      destruct (decide (ie_kind e = Refund)) as [Hk|]; [|by rewrite bool_decide_false].
      rewrite Hk in Et. discriminate Et. }
    by rewrite bool_decide_false by congruence.
  - destruct (refunded e) as [q|]; [|done]. by rewrite bool_decide_false by congruence.
Qed.

(** ** Where a history leaves the tables *)
Record replayed (l : list IndexedEvent) (known touched : list string) (db : Db) : Prop := {
  rp_tickets : ∀ t, t ∈ tickets db → writes l t = t;
  rp_organizers : ∀ o, o ∈ organizers db → writes_org l o = o;
  rp_known : ∀ p, p ∈ known → has_ticket db p;
  rp_touched : ∀ e p, e ∈ l → touches e = Some p → p ∈ touched;
  rp_purchased : ∀ e p, e ∈ l → purchased e = Some p →
    has_ticket db p ∧ is_Some (pg_uuid (pp_event_id (as_purchase e)))
}.
Lemma has_ticket_write_rows e db p : has_ticket (write_rows e db) p ↔ has_ticket db p.
Proof.
  unfold has_ticket, write_rows. cbn. split.
  - intros (t & Ht & Hp). apply list_elem_of_fmap in Ht as (t' & -> & Ht'). by exists t'.
  - intros (t & Ht & Hp). exists (on_ticket e t). split; [by apply list_elem_of_fmap_2|done].
Qed.

Lemma writes_purchase e sid t : purchased e = Some sid → on_ticket e t = t.
Proof.
  intros (Hp & Hk & _)%purchased_Some. destruct t. unfold on_ticket, owner_write, status_write.
  assert (transferred e = None) as -> by (unfold transferred; rewrite Hp, Hk; reflexivity).
  by assert (refunded e = None) as -> by (unfold refunded; rewrite Hp, Hk; reflexivity).
Qed.
Lemma writes_org_purchase e sid o : purchased e = Some sid → on_organizer e o = o.
Proof.
  intros (Hp & _)%purchased_Some. destruct o. unfold on_organizer.
  by rewrite payments_keep_organizers.
Qed.

Lemma replayed_step l known touched db e db' out :
  replayed l known touched db → ¬ event_wide e →
  (∀ p, purchased e = Some p → p ∈ known ∨ p ∉ touched) →
  apply_event_state config broker db e = Ok (db', out) →
  replayed (l ++ [e]) (option_list (purchased e) ++ known) (option_list (touches e) ++ touched) db'.
Proof.
  intros [Ht Ho Hk Hto Hpu] Hw Hc Ha.
  assert (∀ e' p, e' ∈ l ++ [e] → touches e' = Some p → p ∈ option_list (touches e) ++ touched)
    as Hto'.
  { intros e' p He' Hp. apply elem_of_app. apply elem_of_app in He' as [He'|He'].
    - right. by eapply Hto.
    - apply list_elem_of_singleton in He' as ->. left. rewrite Hp. left. }
  destruct (purchased e) as [p|] eqn:Ep; cycle 1.
  { rewrite apply_as_writes in Ha by done. injection Ha as <- <-. split; cbn.
    - intros t Hin. apply list_elem_of_fmap in Hin as (t' & -> & Hin). by apply writes_again, Ht.
    - intros o Hin. apply list_elem_of_fmap in Hin as (o' & -> & Hin). by apply writes_org_again, Ho.
    - intros q Hq. by apply has_ticket_write_rows, Hk.
    - done.
    - intros e' q He' Hq. apply elem_of_app in He' as [He'|He'].
      + rewrite has_ticket_write_rows. by apply Hpu.
      + apply list_elem_of_singleton in He' as ->. congruence. }
  pose proof Ha as Ha'. apply (purchase_effect _ _ p) in Ha' as [Huuid Hcase]; [|done].
  assert (∀ q, has_ticket db q → has_ticket db' q) as Hmono.
  { destruct Hcase as [[_ ->]|(_ & _ & t & Et & _)]; [done|]. intros q (t' & Hin & Hq).
    exists t'. rewrite Et. split; [by apply elem_of_app; left|done]. }
  assert (has_ticket db' p) as Hnew.
  { destruct Hcase as [[? ->]|(_ & _ & t & Et & Hs)]; [done|]. exists t. rewrite Et.
    split; [apply elem_of_app; right; left|done]. }
  assert (∀ t, writes (l ++ [e]) t = writes l t) as Hwt.
  { intros t. unfold writes. rewrite foldl_app. cbn. by rewrite (writes_purchase _ p). }
  assert (∀ o, writes_org (l ++ [e]) o = writes_org l o) as Hwo.
  { intros o. unfold writes_org. rewrite foldl_app. cbn. by rewrite (writes_org_purchase _ p). }
  split.
  - intros t Hin. rewrite Hwt. destruct Hcase as [[_ ->]|(Hn & _ & t0 & Et & Hs)]; [by apply Ht|].
    rewrite Et in Hin. apply elem_of_app in Hin as [Hin|Hin]; [by apply Ht|].
    apply list_elem_of_singleton in Hin as ->. apply (writes_untouched _ _ p); [done|].
    intros e' He' Htouch. destruct (Hc p) as [Hkp|Hnt]; [done|by apply Hn, Hk|].
    by apply Hnt, (Hto e').
  - intros o Hin. rewrite Hwo. apply Ho. by destruct Hcase as [[_ ->]|(_ & <- & _)].
  - intros q Hq. apply elem_of_app in Hq as [Hq|Hq]; [|by apply Hmono, Hk].
    apply list_elem_of_singleton in Hq as ->. done.
  - done.
  - intros e' q He' Hq. apply elem_of_app in He' as [He'|He'].
    + destruct (Hpu e' q) as [? ?]; [done..|]. auto.
    + apply list_elem_of_singleton in He' as ->. rewrite Ep in Hq. by injection Hq as <-.
Qed.

Lemma replayed_run l2 : ∀ l1 known touched db db',
  replayed l1 known touched db → Forall (λ e, ¬ event_wide e) l2 → causal known touched l2 →
  apply_all l2 db = Ok db' → ∃ known' touched', replayed (l1 ++ l2) known' touched' db'.
Proof.
  induction l2 as [|e l2 IH]; intros l1 known touched db db' Hr Hw Hc Ha.
  { injection Ha as <-. rewrite app_nil_r. by eexists _, _. }
  apply Forall_cons in Hw as [Hwe Hw]. destruct Hc as [Hce Hc].
  apply rbind_Ok in Ha as (db1 & H1 & Ha). apply rbind_Ok in H1 as ([db1' out] & H1 & Hx).
  injection Hx as ->. replace (l1 ++ e :: l2) with ((l1 ++ [e]) ++ l2) by by rewrite <- app_assoc.
  eapply IH; [by eapply replayed_step|done|done|done].
Qed.

(** Applying again: every purchase finds its ticket, the rest are row writes. *)
Lemma rerun l : ∀ db,
  Forall (λ e, ¬ event_wide e) l →
  (∀ e p, e ∈ l → purchased e = Some p →
     has_ticket db p ∧ is_Some (pg_uuid (pp_event_id (as_purchase e)))) →
  apply_all l db = Ok (db ⟨ tickets ::= fmap (writes l) ⟩ ⟨ organizers ::= fmap (writes_org l) ⟩).
Proof.
  induction l as [|e l IH]; intros db Hw Hp.
  { unfold apply_all. cbn. f_equal. unfold upd. destruct db. cbn. f_equal; symmetry; apply list_fmap_id. }
  apply Forall_cons in Hw as [Hwe Hw].
  assert (∃ out, apply_event_state config broker db e = Ok (write_rows e db, out)) as [out E].
  { destruct (purchased e) as [p|] eqn:Ep; [|eexists; by apply apply_as_writes].
    destruct (Hp e p) as [Hin [u Hu]]; [left|done|].
    destruct (purchase_known db e p u) as [-> ?]; done. }
  unfold apply_all. cbn [rfold]. rewrite E. cbn [rbind]. fold (apply_all l (write_rows e db)).
  rewrite IH; [|done|].
  - f_equal. unfold write_rows, upd. destruct db. cbn. f_equal; by rewrite <- list_fmap_compose.
  - intros e' p He' Hp'. rewrite has_ticket_write_rows. apply Hp; [by right|done].
Qed.

(** Replays are idempotent: a history in which nothing refers to a payment
    before its purchase, and no refund names a whole event, can be applied a
    second time: it succeeds and leaves every table as it was. *)
Theorem replay_idempotent l db db1 known :
  Forall (λ e, ¬ event_wide e) l → (∀ p, p ∈ known → has_ticket db p) → causal known [] l →
  apply_all l db = Ok db1 → apply_all l db1 = Ok db1.
Proof.
  intros Hw Hk Hc Ha.
  destruct (replayed_run l [] known [] db db1) as (known' & touched' & Hr); [|done..|].
  { split; [done|done|done| |]; intros e p He; by apply not_elem_of_nil in He. }
  rewrite rerun; [|done|by destruct Hr]. f_equal. unfold upd. destruct db1 as [cps les ts evs os]. cbn.
  f_equal.
  - rewrite <- (list_fmap_id ts) at 2. apply list_fmap_ext. intros i t Hi.
    apply (rp_tickets _ _ _ _ Hr). by eapply list_elem_of_lookup_2.
  - rewrite <- (list_fmap_id os) at 2. apply list_fmap_ext. intros i o Hi.
    apply (rp_organizers _ _ _ _ Hr). by eapply list_elem_of_lookup_2.
Qed.

(** A refund hits the whole event: a refund that names an event of the
    platform revokes every ticket of it, whoever holds it and whichever
    payment was refunded, and leaves the tickets of other events and payments
    alone. *)
Theorem refund_revokes_event db e u t :
  parse_str (rf_event_id (as_refund e)) = Some u → t ∈ tickets db →
  let t' := revoke (refund_stellar_id e) (Some u) t in
  t' ∈ tickets (apply_refund db e)
  ∧ (tk_event_id t = Some u → tk_status t' = "Revoked")
  ∧ (tk_event_id t ≠ Some u → tk_stellar_id t ≠ Some (refund_stellar_id e) → t' = t).
Proof.
  intros Hu Ht t'. unfold apply_refund. rewrite Hu. cbn.
  split; [by apply list_elem_of_fmap_2|]. unfold t', revoke, refund_matches, stellar_is.
  split; intros Hev.
  - rewrite (bool_decide_true (tk_event_id t = Some u)) by done. cbn.
    destruct (bool_decide _); cbn; [done|]. case_bool_decide; by cbn.
  - intros Hsid. rewrite (bool_decide_false _ Hsid), (bool_decide_false _ Hev). done.
Qed.
End Replay.
