(* ===== verification/IdxPipeline.v ===== *)
(** * The indexer: the pipeline

    [run_producer], [run_persister] and [run_finalizer] of
    [server/src/services/indexer.rs] as tasks that interleave: a task is the
    point it has reached, and every statement on the database, the channel or
    the shared head of the chain is one action.  An action on the database may
    fail ([ok = false]); the source logs such a failure and goes on as written
    here.  The RPC answers with any page.  [Restart] is a crash followed by the
    recovery at the top of [run_producer].  [sy_heads], [sy_sent],
    [sy_handled] and [sy_purged] record the history and are never read. *)

From S2P Require Import Prelude Machine IdxEvents IdxPool IdxStore IdxSweep.

Definition QUEUE_CAPACITY : nat := 4096.

(** ** Tasks *)
Inductive producer_at : Type :=
| Loading                                           (** top of the loop *)
| Fetching (checkpoint_ledger : Z)
| Scanning (checkpoint_ledger : Z) (page : FetchedPage) (rest : list SorobanEvent)
| RollingBack (checkpoint_ledger : Z) (page : FetchedPage) (event : IndexedEvent)
    (rest : list SorobanEvent)
| Sending (checkpoint_ledger : Z) (page : FetchedPage) (event : IndexedEvent)
    (rest : list SorobanEvent)
| Saving (checkpoint_ledger : Z) (last : string).
Inductive persister_at : Type :=
| Receiving
| Inserting (event : IndexedEvent)
| Applying (event : IndexedEvent)
| Marking (event : IndexedEvent).
Inductive finalizer_at : Type :=
| Waiting
| Selecting (final_bound : Z)
| Sweeping (final_bound : Z) (rows : list (string * LedgerEvent))
| Retiring (final_bound : Z) (id : string) (rows : list (string * LedgerEvent))
| Advancing (final_bound : Z)
| Pruning (final_bound : Z).

Record Sys : Type := MkSys {
  sy_db : Db;
  sy_queue : list IndexedEvent;
  sy_latest : Z;
  sy_cursor : option string;
  sy_start : option Z;
  sy_producer : producer_at;
  sy_persisters : list persister_at;
  sy_finalizer : finalizer_at;
  sy_heads : list Z;
  sy_sent : list IndexedEvent;
  sy_handled : list IndexedEvent;
  sy_purged : list string
}.
#[export] Instance eta_Sys : Eta Sys := λ s,
  MkSys (sy_db s) (sy_queue s) (sy_latest s) (sy_cursor s) (sy_start s) (sy_producer s)
    (sy_persisters s) (sy_finalizer s) (sy_heads s) (sy_sent s) (sy_handled s) (sy_purged s).

Inductive action : Type :=
| Load (ok : bool)
| Fetch (answer : option FetchedPage)
| Check (ok : bool)
| RollBack (ok : bool)
| Send
| Save (ok : bool)
| Take (w : nat)
| Insert (w : nat) (ok : bool)
| Apply (w : nat) (ok : bool)
| Mark (w : nat) (ok : bool)
| Observe
| Select (ok : bool)
| Sweep (ok : bool)
| Retire (ok : bool)
| Advance (ok : bool)
| Prune (ok : bool)
| Restart (ok : bool).

(** A page as the JSON decoder accepts it: ledgers are [u32]. *)
Definition page_ok (page : FetchedPage) : bool :=
  in_u32 (fp_latest_ledger page) && forallb (λ e, in_u32 (se_ledger e)) (fp_events page).
Definition decoded `{XdrCodec} (page : FetchedPage) (raw : SorobanEvent) : IndexedEvent :=
  decode (se_id raw) (se_ledger raw) (se_contract_id raw) (se_topic raw) (se_value raw)
    (fp_latest_ledger page).
Definition checkpoint_ledger (db : Db) : Z :=
  match checkpoint.load db CHAIN_KEY with Some cp => cp_ledger_sequence cp | None => 0 end.

Section Pipeline.
Context `{XdrCodec} `{Uuids}.
Variable config : IndexerConfig.
Variable broker : bool.
#[local] Abbreviation conf := (ic_confirmations config).

(** [let (mut cursor, mut start_ledger) = match checkpoint { .. }] *)
Definition recover (saved : option BlockchainCheckpoint) : option string * option Z :=
  match saved with
  | Some cp =>
      match cp_event_cursor cp with
      | Some cursor => (Some cursor, None)
      | None => (None, Some ((cp_ledger_sequence cp + 1) mod 2 ^ 32))
      end
  | None => (None, if 0 <? ic_start_ledger config then Some (ic_start_ledger config) else None)
  end.
Definition start (db : Db) : Sys :=
  let '(cursor, start_ledger) := recover (checkpoint.load db CHAIN_KEY) in
  MkSys db [] 0 cursor start_ledger Loading (replicate (ic_workers config) Receiving) Waiting
    [] [] [] [].

(** ** The producer *)
Definition produce (a : action) (s : Sys) : option Sys :=
  match a, sy_producer s with
  | Load ok, Loading =>
      Some (s ⟨ sy_producer := Fetching (if ok then checkpoint_ledger (sy_db s) else 0) ⟩)
  | Fetch None, Fetching _ => Some (s ⟨ sy_producer := Loading ⟩)
  | Fetch (Some page), Fetching cp =>
      if page_ok page then
        Some (s ⟨ sy_latest := fp_latest_ledger page ⟩
                ⟨ sy_heads ::= cons (fp_latest_ledger page) ⟩
                ⟨ sy_producer := Scanning cp page (fp_events page) ⟩)
      else Some (s ⟨ sy_producer := Loading ⟩)
  | Check ok, Scanning cp page (raw :: rest) =>
      let event := decoded page raw in
      if (ie_ledger event <=? cp)
         && negb (ok && buffer_contains (sy_db s) (ie_id event) (ie_ledger event))
      then Some (s ⟨ sy_producer := RollingBack cp page event rest ⟩)
      else Some (s ⟨ sy_producer := Sending cp page event rest ⟩)
  | Check _, Scanning cp page [] =>
      Some (s ⟨ sy_producer := match last (fp_events page) with
                               | Some l => Saving cp (se_id l)
                               | None => Loading
                               end ⟩)
  | RollBack true, RollingBack cp page event rest =>
      let fork := ie_ledger event in
      Some (s ⟨ sy_db ::= λ db, (checkpoint.rollback_to db CHAIN_KEY fork).2 ⟩
              ⟨ sy_purged ::= app (map_to_list (filter (λ ie, fork ≤ le_ledger ie.2)
                                     (indexer_ledger_events (sy_db s)))).*1 ⟩
              ⟨ sy_cursor := None ⟩ ⟨ sy_start := Some fork ⟩ ⟨ sy_producer := Loading ⟩)
  | RollBack false, RollingBack cp page event rest =>
      Some (s ⟨ sy_producer := Sending cp page event rest ⟩)
  | Send, Sending cp page event rest =>
      if (length (sy_queue s) <? QUEUE_CAPACITY)%nat then
        Some (s ⟨ sy_queue ::= λ q, q ++ [event] ⟩ ⟨ sy_sent ::= cons event ⟩
                ⟨ sy_producer := Scanning cp page rest ⟩)
      else None
  | Save ok, Saving cp l =>
      Some (s ⟨ sy_cursor := Some l ⟩ ⟨ sy_start := None ⟩
              ⟨ sy_db ::= λ db, if ok then checkpoint.save db CHAIN_KEY cp (Some l) else db ⟩
              ⟨ sy_producer := Loading ⟩)
  | _, _ => None
  end.

(** ** The persisters *)
Definition is_final (event : IndexedEvent) : bool :=
  sat_u32 (ie_ledger event + conf) <=? ie_latest_ledger event.
Definition persist (a : action) (s : Sys) : option Sys :=
  match a with
  | Take w =>
      match sy_persisters s !! w, sy_queue s with
      | Some Receiving, event :: queue =>
          Some (s ⟨ sy_queue := queue ⟩ ⟨ sy_persisters ::= <[w := Inserting event]> ⟩)
      | _, _ => None
      end
  | Insert w ok =>
      match sy_persisters s !! w with
      | Some (Inserting event) =>
          if ok then
            let '(inserted, db) := buffer_insert (sy_db s) event in
            Some (s ⟨ sy_db := db ⟩
                    ⟨ sy_persisters ::= <[w := if (0 <? inserted) && is_final event
                                               then Applying event else Receiving]> ⟩)
          else Some (s ⟨ sy_persisters ::= <[w := Receiving]> ⟩)
      | _ => None
      end
  | Apply w ok =>
      match sy_persisters s !! w with
      | Some (Applying event) =>
          match (if ok then apply_event_state config broker (sy_db s) event else Err Database) with
          | Ok (db, _) =>
              Some (s ⟨ sy_db := db ⟩ ⟨ sy_handled ::= λ l, l ++ [event] ⟩
                      ⟨ sy_persisters ::= <[w := Marking event]> ⟩)
          | _ => Some (s ⟨ sy_persisters ::= <[w := Receiving]> ⟩)
          end
      | _ => None
      end
  | Mark w ok =>
      match sy_persisters s !! w with
      | Some (Marking event) =>
          Some (s ⟨ sy_db ::= λ db, if ok then mark_finalized db (ie_id event) else db ⟩
                  ⟨ sy_persisters ::= <[w := Receiving]> ⟩)
      | _ => None
      end
  | _ => None
  end.

(** ** The finalizer *)
Definition finalize (a : action) (s : Sys) : option Sys :=
  match a, sy_finalizer s with
  | Observe, Waiting =>
      let observed := sy_latest s in
      if observed <? conf + 1 then Some s
      else Some (s ⟨ sy_finalizer := Selecting (observed - conf) ⟩)
  | Select ok, Selecting b =>
      Some (s ⟨ sy_finalizer := if ok then Sweeping b (pending_events (sy_db s) b) else Waiting ⟩)
  | Sweep ok, Sweeping b ((id, row) :: rows) =>
      let event := event_of_row (b + conf) id row in
      if decide (ie_kind event = Unhandled) then
        if ok then Some (s ⟨ sy_db ::= λ db, mark_finalized db id ⟩
                           ⟨ sy_handled ::= λ l, l ++ [event] ⟩ ⟨ sy_finalizer := Sweeping b rows ⟩)
        else Some (s ⟨ sy_finalizer := Waiting ⟩)
      else
        match (if ok then apply_event_state config broker (sy_db s) event else Err Database) with
        | Ok (db, _) =>
            Some (s ⟨ sy_db := db ⟩ ⟨ sy_handled ::= λ l, l ++ [event] ⟩
                    ⟨ sy_finalizer := Retiring b id rows ⟩)
        | _ => Some (s ⟨ sy_finalizer := Waiting ⟩)
        end
  | Sweep _, Sweeping b [] => Some (s ⟨ sy_finalizer := Advancing b ⟩)
  | Retire ok, Retiring b id rows =>
      if ok then Some (s ⟨ sy_db ::= λ db, mark_finalized db id ⟩ ⟨ sy_finalizer := Sweeping b rows ⟩)
      else Some (s ⟨ sy_finalizer := Waiting ⟩)
  | Advance ok, Advancing b =>
      Some (s ⟨ sy_db ::= λ db, if ok then checkpoint.save db CHAIN_KEY b None else db ⟩
              ⟨ sy_finalizer := Pruning b ⟩)
  | Prune ok, Pruning b =>
      let keep := sat_u32 (b - ic_window_ledgers config) in
      Some (s ⟨ sy_db ::= λ db, if ok then checkpoint.prune_window db keep else db ⟩
              ⟨ sy_finalizer := Waiting ⟩)
  | _, _ => None
  end.

(** A crash loses what is in memory. *)
Definition restart (ok : bool) (s : Sys) : Sys :=
  let '(cursor, start_ledger) :=
    recover (if ok then checkpoint.load (sy_db s) CHAIN_KEY else None) in
  MkSys (sy_db s) [] 0 cursor start_ledger Loading
    (replicate (ic_workers config) Receiving) Waiting
    (sy_heads s) (sy_sent s) (sy_handled s) (sy_purged s).

Definition exec (s : Sys) (a : action) : option Sys :=
  match a with
  | Load _ | Fetch _ | Check _ | RollBack _ | Send | Save _ => produce a s
  | Take _ | Insert _ _ | Apply _ _ | Mark _ _ => persist a s
  | Restart ok => Some (restart ok s)
  | _ => finalize a s
  end.
Definition exec_all (l : list action) (s : Sys) : option Sys :=
  foldl (λ o a, o ≫= λ s, exec s a) (Some s) l.

(** States reached by actions allowed by [allow], from a database [db0]. *)
Inductive runs (allow : action → Prop) (db0 : Db) : Sys → Prop :=
| runs_start : runs allow db0 (start db0)
| runs_step s a s' : runs allow db0 s → allow a → exec s a = Some s' → runs allow db0 s'.
End Pipeline.

Definition anything (a : action) : Prop := True.
(** No statement fails and the process does not crash. *)
Definition faultless (a : action) : Prop :=
  match a with
  | Load ok | Check ok | RollBack ok | Save ok | Insert _ ok | Apply _ ok | Mark _ ok
  | Select ok | Sweep ok | Retire ok | Advance ok | Prune ok => ok = true
  | Restart _ => False
  | Fetch _ | Send | Take _ | Observe => True
  end.
