(* ===== verification/IdxSafety.v ===== *)
(** * The indexer: safety of the pipeline

    Over all interleavings: only final events are applied, the tables are the
    result of applying them one after the other, and without failures nothing
    that was fetched is lost. *)

From S2P Require Import Prelude Machine IdxEvents IdxPool IdxStore IdxSweep.
From S2P Require Import IdxSpecs IdxPipeline.

(** ** The tables that the indexer maintains for the application *)
Definition same_tables (a b : Db) : Prop :=
  tickets a = tickets b ∧ events a = events b ∧ organizers a = organizers b.
#[export] Instance same_tables_equiv : Equivalence same_tables.
Proof.
  split; unfold same_tables; [done| |].
  - intros a b (? & ? & ?). done.
  - intros a b c (? & ? & ?) (? & ? & ?). split_and!; congruence.
Qed.

Section Safety.
Context `{XdrCodec} `{Uuids}.
Variable config : IndexerConfig.
Variable broker : bool.
#[local] Abbreviation conf := (ic_confirmations config).

Lemma insert_same_tables a b sid ev buyer owner b' :
  same_tables a b → insert_ticket b sid ev buyer owner = Ok b' →
  ∃ a', insert_ticket a sid ev buyer owner = Ok a' ∧ same_tables a' b'.
Proof.
  intros (Ht & He & Ho) Hi. unfold insert_ticket in *. rewrite Ht, He.
  destruct (pg_uuid ev); [|done]. cbn in *.
  destruct (existsb _ _); [injection Hi as <-; by eexists|].
  destruct (bool_decide _); cbn in *; [|done]. injection Hi as <-.
  eexists. split; [done|]. unfold same_tables. cbn. by rewrite Ht.
Qed.
Lemma apply_same_tables a b e b' out :
  same_tables a b → apply_event_state config broker b e = Ok (b', out) →
  ∃ a', apply_event_state config broker a e = Ok (a', out) ∧ same_tables a' b'.
Proof.
  intros Hs Ha. pose proof Hs as (Ht & He & Ho). unfold apply_event_state in *.
  repeat case_decide; destruct (ie_kind e) eqn:Hk;
    try (injection Ha as <- <-; eexists; split; [done|]; done).
  - unfold apply_purchase in *. case_decide; [injection Ha as <- <-; by eexists|].
    apply rbind_Ok in Ha as (b1 & Hi & Ha). injection Ha as <- <-.
    destruct (insert_same_tables _ _ _ _ _ _ _ Hs Hi) as (a1 & -> & ?). by eexists.
  - injection Ha as <- <-. eexists. split; [done|]. unfold same_tables, apply_refund. cbn.
    by rewrite Ht.
  - injection Ha as <- <-. eexists. split; [done|]. unfold apply_transfer.
    case_decide; [done|]. destruct (tr_to _); [|done]. unfold same_tables. cbn. by rewrite Ht.
  - injection Ha as <- <-. eexists. split; [done|]. unfold apply_collateral.
    case_decide; [done|]. unfold same_tables. cbn. by rewrite Ho.
  - injection Ha as <- <-. eexists. split; [done|]. unfold apply_collateral.
    case_decide; [done|]. unfold same_tables. cbn. by rewrite Ho.
Qed.

Lemma rfold_snoc {E S A} (f : S → A → res E S) l a s :
  rfold f (l ++ [a]) s = rbind (rfold f l s) (λ s, f s a).
Proof.
  revert s. induction l as [|b l IH]; intros s; cbn.
  - by destruct (f s a).
  - destruct (f s b); cbn; [apply IH|done|done].
Qed.
(** ** The invariant *)
Definition fetched (heads : list Z) (e : IndexedEvent) : Prop :=
  0 ≤ ie_ledger e ∧ ie_latest_ledger e ∈ heads.
Definition final (heads : list Z) (e : IndexedEvent) : Prop :=
  ∃ h, h ∈ heads ∧ sat_u32 (ie_ledger e + conf) ≤ h.
Definition raws_ok (heads : list Z) (page : FetchedPage) (rest : list SorobanEvent) : Prop :=
  fp_latest_ledger page ∈ heads ∧ Forall (λ raw, 0 ≤ se_ledger raw) rest.
Definition producer_ok (heads : list Z) (p : producer_at) : Prop :=
  match p with
  | Scanning _ page rest => raws_ok heads page rest
  | RollingBack _ page e rest | Sending _ page e rest => raws_ok heads page rest ∧ fetched heads e
  | _ => True
  end.
Definition persister_ok (heads : list Z) (w : persister_at) : Prop :=
  match w with
  | Receiving => True
  | Inserting e => fetched heads e
  | Applying e | Marking e => fetched heads e ∧ is_final config e = true
  end.
Definition finalizer_ok (heads : list Z) (f : finalizer_at) : Prop :=
  match f with
  | Waiting => True
  | Selecting b | Advancing b | Pruning b => b + conf ∈ heads
  | Sweeping b rows | Retiring b _ rows =>
      b + conf ∈ heads ∧ Forall (λ ie, 0 ≤ le_ledger ie.2 ≤ b) rows
  end.
Record sys_ok (db0 : Db) (s : Sys) : Prop := {
  ok_latest : sy_latest s = 0 ∨ sy_latest s ∈ sy_heads s;
  ok_queue : Forall (fetched (sy_heads s)) (sy_queue s);
  ok_producer : producer_ok (sy_heads s) (sy_producer s);
  ok_persisters : Forall (persister_ok (sy_heads s)) (sy_persisters s);
  ok_finalizer : finalizer_ok (sy_heads s) (sy_finalizer s);
  ok_buffer : map_Forall (λ _ row, 0 ≤ le_ledger row) (indexer_ledger_events (sy_db s));
  ok_handled : Forall (final (sy_heads s)) (sy_handled s);
  ok_tables : ∃ db, apply_all config broker (sy_handled s) db0 = Ok db ∧ same_tables db (sy_db s)
}.

(** More heads keep everything. *)
Lemma fetched_mono hs hs' e : hs ⊆ hs' → fetched hs e → fetched hs' e.
Proof. unfold fetched. set_solver. Qed.
Lemma final_mono hs hs' e : hs ⊆ hs' → final hs e → final hs' e.
Proof. unfold final. set_solver. Qed.
Lemma persister_ok_mono hs hs' w : hs ⊆ hs' → persister_ok hs w → persister_ok hs' w.
Proof. intros Hs. destruct w; cbn; intuition eauto using fetched_mono. Qed.
Lemma finalizer_ok_mono hs hs' f : hs ⊆ hs' → finalizer_ok hs f → finalizer_ok hs' f.
Proof. intros Hs. destruct f; cbn; set_solver. Qed.

(** Events of a page are fetched; pages only hold [u32] ledgers. *)
Lemma decoded_fetched heads page raw rest :
  raws_ok heads page (raw :: rest) → fetched heads (decoded page raw) ∧ raws_ok heads page rest.
Proof. intros [Hh Hr]. apply Forall_cons in Hr as [? ?]. done. Qed.
Lemma page_raws_ok heads page :
  page_ok page = true → fp_latest_ledger page ∈ heads → raws_ok heads page (fp_events page).
Proof.
  unfold page_ok. intros [_ Hp]%andb_true_iff Hh. split; [done|].
  apply Is_true_true, forallb_True in Hp. eapply Forall_impl; [exact Hp|]. cbn. intros raw Hraw.
  apply Is_true_true, in_u32_spec in Hraw. lia.
Qed.

(** ** The buffer *)
Definition rows_ok (db : Db) : Prop :=
  map_Forall (λ _ row, 0 ≤ le_ledger row) (indexer_ledger_events db).
Lemma filter_rows_ok (P : string * LedgerEvent → Prop) `{∀ x, Decision (P x)} db :
  rows_ok db → map_Forall (λ _ row, 0 ≤ le_ledger row) (filter P (indexer_ledger_events db)).
Proof. intros Hr i row Hrow. apply map_lookup_filter_Some in Hrow as [Hrow _]. by eapply Hr. Qed.
Lemma mark_rows_ok db id : rows_ok db → rows_ok (mark_finalized db id).
Proof.
  intros Hr i row Hrow. cbn in Hrow. apply lookup_alter_Some in Hrow as [(-> & row' & Hrow & ->)|[_ Hrow]].
  - cbn. by eapply Hr.
  - by eapply Hr.
Qed.
Lemma insert_rows_ok db e n db' :
  rows_ok db → 0 ≤ ie_ledger e → buffer_insert db e = (n, db') → rows_ok db' ∧ same_tables db' db.
Proof.
  unfold buffer_insert. intros Hr He Hi. destruct (indexer_ledger_events db !! ie_id e).
  - by injection Hi as <- <-.
  - injection Hi as <- <-. split; [|done]. by apply map_Forall_insert_2.
Qed.
Lemma pending_rows_ok db b :
  rows_ok db → Forall (λ ie : string * LedgerEvent, 0 ≤ le_ledger ie.2 ≤ b) (pending_events db b).
Proof.
  intros Hr. apply Forall_forall. intros [id row] Hin. unfold pending_events in Hin.
  apply elem_of_take in Hin as (i & Hi & _). apply list_elem_of_lookup_2 in Hi.
  rewrite merge_sort_Permutation in Hi. apply elem_of_map_to_list, map_lookup_filter_Some in Hi as [Hi [_ Hb]].
  cbn in *. split; [by eapply Hr|done].
Qed.

Lemma persister_insert heads ws w x :
  Forall (persister_ok heads) ws → persister_ok heads x → Forall (persister_ok heads) (<[w := x]> ws).
Proof. intros Hw Hx. by apply Forall_insert. Qed.

(** Handling one more event. *)
Lemma handle_tables db0 l db e db' out :
  (∃ d, apply_all config broker l db0 = Ok d ∧ same_tables d db) →
  apply_event_state config broker db e = Ok (db', out) →
  ∃ d, apply_all config broker (l ++ [e]) db0 = Ok d ∧ same_tables d db'.
Proof.
  intros (d & Hd & Hs) Ha. unfold apply_all in *. rewrite rfold_snoc, Hd. cbn.
  destruct (apply_same_tables _ _ _ _ _ Hs Ha) as (d' & -> & Hs'). cbn. by exists d'.
Qed.
Lemma unhandled_applies db e :
  ie_kind e = Unhandled → apply_event_state config broker db e = Ok (db, []).
Proof. intros Hk. unfold apply_event_state. rewrite Hk. by repeat case_decide. Qed.

Hypothesis conf_nonneg : 0 ≤ conf.

Lemma is_final_final heads e : fetched heads e → is_final config e = true → final heads e.
Proof. intros [_ Hh] Hf. exists (ie_latest_ledger e). unfold is_final in Hf. split; [done|lia]. Qed.
Lemma swept_final heads b id row :
  b + conf ∈ heads → 0 ≤ le_ledger row ≤ b → final heads (event_of_row (b + conf) id row).
Proof.
  intros Hh Hrow. exists (b + conf). split; [done|]. cbn.
  pose proof (Z.mod_le (le_ledger row) (2 ^ 32)). pose proof (Z.mod_pos_bound (le_ledger row) (2 ^ 32)).
  unfold sat_u32. lia.
Qed.

(** ** Every action keeps the invariant *)
Lemma produce_ok db0 s a s' : sys_ok db0 s → produce a s = Some s' → sys_ok db0 s'.
Proof.
  intros [Hl Hq Hp Hw Hf Hb Hh Ht] Hstep. unfold produce in Hstep.
  destruct a as [ok|[page|]|ok|[]| |ok|?|? ?|? ?|? ?| |?|?|?|?|?|?]; try done;
    destruct (sy_producer s) as [|cp|cp pg [|raw rest]|cp pg e rest|cp pg e rest|cp l] eqn:Ep;
    try done; cbn in Hp.
  - injection Hstep as <-. by split.
  - destruct (page_ok page) eqn:Epg; injection Hstep as <-; [|by split].
    set (hs := fp_latest_ledger page :: sy_heads s).
    assert (sy_heads s ⊆ hs) as Hsub by (unfold hs; set_solver).
    split; cbn; fold hs.
    + right. left.
    + eapply Forall_impl; [exact Hq|]. intros e. by apply fetched_mono.
    + apply page_raws_ok; [done|left].
    + eapply Forall_impl; [exact Hw|]. intros w. by apply persister_ok_mono.
    + by eapply finalizer_ok_mono.
    + done.
    + eapply Forall_impl; [exact Hh|]. intros e. by apply final_mono.
    + done.
  - injection Hstep as <-. by split.
  - injection Hstep as <-. split; cbn; try done. by destruct (last _).
  - apply decoded_fetched in Hp as [He Hrest].
    destruct (_ && _); injection Hstep as <-; split; cbn; try done.
  - injection Hstep as <-. split; cbn; try done. by apply filter_rows_ok.
  - injection Hstep as <-. by split.
  - destruct (_ <? _)%nat; [|done]. injection Hstep as <-. destruct Hp as [Hrest He].
    split; cbn; try done. apply Forall_app. by split; [|apply Forall_singleton].
  - injection Hstep as <-. split; cbn; try done; by destruct ok.
Qed.

Lemma persist_ok db0 s a s' : sys_ok db0 s → persist config broker a s = Some s' → sys_ok db0 s'.
Proof.
  intros [Hl Hq Hp Hw Hf Hb Hh Ht] Hstep. unfold persist in Hstep.
  destruct a as [ok|?|ok|?| |ok|w|w ok|w ok|w ok| |?|?|?|?|?|?]; try done;
    (destruct (sy_persisters s !! w) as [[|e|e|e]|] eqn:Ew; try done);
    try (assert (Hwe : persister_ok (sy_heads s) _) by (by eapply Forall_lookup_1); cbn in Hwe).
  - destruct (sy_queue s) as [|e q] eqn:Eq; [done|]. injection Hstep as <-.
    apply Forall_cons in Hq as [He Hq]. split; cbn; try done. by apply persister_insert.
  - destruct ok; cycle 1.
    { injection Hstep as <-. split; cbn; try done. by apply persister_insert. }
    destruct (buffer_insert (sy_db s) e) as [n db'] eqn:Ei. injection Hstep as <-.
    destruct (insert_rows_ok _ _ _ _ Hb (proj1 Hwe) Ei) as [Hb' Hs'].
    split; cbn; try done.
    + apply persister_insert; [done|]. destruct (0 <? n), (is_final config e) eqn:Ee; by cbn.
    + destruct Ht as (d & Hd & Hs). exists d. split; [done|]. by etrans.
  - destruct ok; [|injection Hstep as <-; split; cbn; try done; by apply persister_insert].
    destruct (apply_event_state config broker (sy_db s) e) as [[db' out]|?|] eqn:Ea;
      injection Hstep as <-; split; cbn; try done; try by apply persister_insert.
    + apply apply_event_frame in Ea as (-> & _). done.
    + apply Forall_app. split; [done|]. apply Forall_singleton. destruct Hwe. by apply is_final_final.
    + by eapply handle_tables.
  - injection Hstep as <-. split; cbn; try done.
    + by apply persister_insert.
    + destruct ok; [by apply mark_rows_ok|done].
    + by destruct ok.
Qed.

Lemma finalize_ok db0 s a s' :
  sys_ok db0 s → finalize config broker a s = Some s' → sys_ok db0 s'.
Proof.
  intros [Hl Hq Hp Hw Hf Hb Hh Ht] Hstep. unfold finalize in Hstep.
  destruct a as [ok|?|ok|?| |ok|w|w ok|w ok|w ok| |ok|ok|ok|ok|ok|?]; try done;
    destruct (sy_finalizer s) as [|b|b [|[id row] rows]|b id rows|b|b] eqn:Ef; try done; cbn in Hf.
  - destruct (_ <? _) eqn:Eo; injection Hstep as <-; [by split; rewrite ?Ef|].
    split; cbn; try done. replace (sy_latest s - conf + conf) with (sy_latest s) by lia.
    destruct Hl as [Hl|Hl]; [lia|done].
  - injection Hstep as <-. split; cbn; try done. destruct ok; [|done]. cbn.
    split; [done|by apply pending_rows_ok].
  - injection Hstep as <-. split; cbn; try done. by destruct Hf.
  - destruct Hf as [Hbh Hrows]. apply Forall_cons in Hrows as [Hrow Hrows]. cbn in Hrow.
    set (e := event_of_row (b + conf) id row) in *.
    assert (final (sy_heads s) e) as Hfin by by apply swept_final.
    case_decide as Hk.
    + destruct ok; injection Hstep as <-; split; cbn; try done.
      * by apply mark_rows_ok.
      * apply Forall_app. by split; [|apply Forall_singleton].
      * eapply (handle_tables _ _ _ _ (sy_db s)) in Ht; [exact Ht|by apply unhandled_applies].
    + destruct ok; [|injection Hstep as <-; by split].
      destruct (apply_event_state config broker (sy_db s) e) as [[db' out]|?|] eqn:Ea;
        injection Hstep as <-; split; cbn; try done.
      * apply apply_event_frame in Ea as (-> & _). done.
      * apply Forall_app. by split; [|apply Forall_singleton].
      * by eapply handle_tables.
  - destruct ok; injection Hstep as <-; split; cbn; try done. by apply mark_rows_ok.
  - injection Hstep as <-. split; cbn; try done; by destruct ok.
  - injection Hstep as <-. split; cbn; try done; destruct ok; [by apply filter_rows_ok|done..].
Qed.

Lemma start_ok db0 : rows_ok db0 → sys_ok db0 (start config db0).
Proof.
  intros Hr. unfold start. destruct (recover config _).
  split; cbn; try done; [by left|by apply Forall_replicate|by exists db0].
Qed.
Lemma exec_ok db0 s a s' : sys_ok db0 s → exec config broker s a = Some s' → sys_ok db0 s'.
Proof.
  intros Hok Hstep. unfold exec in Hstep. destruct a;
    first [by eapply produce_ok|by eapply persist_ok|by eapply finalize_ok|idtac].
  unfold restart in Hstep. destruct (recover config _). injection Hstep as <-.
  destruct Hok as [Hl Hq Hp Hw Hf Hb Hh Ht].
  split; cbn; try done; [by left|by apply Forall_replicate].
Qed.
Lemma runs_ok allow db0 s : rows_ok db0 → runs config broker allow db0 s → sys_ok db0 s.
Proof. intros Hr. induction 1; [by apply start_ok|by eapply exec_ok]. Qed.

(** C29. Forks cannot reach the application: under every interleaving of the
    tasks, every failure of the database, every answer of the RPC and every
    crash, each event that was applied lay, when it was, at least the
    configured number of confirmations below a chain head the RPC had
    reported; and tickets and organizers are what applying these events one
    after the other to the initial tables gives. *)
Theorem only_final_applied db0 s :
  rows_ok db0 → runs config broker anything db0 s →
  Forall (final (sy_heads s)) (sy_handled s)
  ∧ ∃ db, apply_all config broker (sy_handled s) db0 = Ok db ∧ same_tables db (sy_db s).
Proof. intros Hr Hs. apply (runs_ok _ _ _ Hr) in Hs as []. done. Qed.
End Safety.

(** ** Nothing is lost *)
Section Conservation.
Context `{XdrCodec} `{Uuids}.
Variable config : IndexerConfig.
Variable broker : bool.
Variable db0 : Db.

(** An event applied in this run, or a row final before it. *)
Definition handled_id (s : Sys) (id : string) : Prop :=
  id ∈ ie_id <$> sy_handled s
  ∨ ∃ row, indexer_ledger_events db0 !! id = Some row ∧ le_finalized row = true.
(** Where an event that was sent can be. *)
Definition kept (s : Sys) (e : IndexedEvent) : Prop :=
  e ∈ sy_queue s ∨ Inserting e ∈ sy_persisters s
  ∨ is_Some (indexer_ledger_events (sy_db s) !! ie_id e)
  ∨ handled_id s (ie_id e) ∨ ie_id e ∈ sy_purged s.
Record conserved (s : Sys) : Prop := {
  cs_sent : ∀ e, e ∈ sy_sent s → kept s e;
  cs_final : ∀ id row, indexer_ledger_events (sy_db s) !! id = Some row →
    le_finalized row = true → handled_id s id;
  cs_marking : ∀ e, Marking e ∈ sy_persisters s → ie_id e ∈ ie_id <$> sy_handled s;
  cs_retiring : ∀ b id rows, sy_finalizer s = Retiring b id rows → id ∈ ie_id <$> sy_handled s
}.

(** Two states with the same buffer, channel and persisters, in which at least
    as much was handled and purged. *)
Lemma kept_mono s s' e :
  sy_queue s ⊆ sy_queue s' → (Inserting e ∈ sy_persisters s → Inserting e ∈ sy_persisters s') →
  (is_Some (indexer_ledger_events (sy_db s) !! ie_id e) →
   is_Some (indexer_ledger_events (sy_db s') !! ie_id e)) →
  sy_handled s ⊆ sy_handled s' → sy_purged s ⊆ sy_purged s' → kept s e → kept s' e.
Proof.
  intros Hq Hw Hb Hh Hp [?|[?|[?|[[?|?]|?]]]]; unfold kept, handled_id.
  - left. by apply Hq.
  - right; left. by apply Hw.
  - right; right; left. by apply Hb.
  - right; right; right; left; left. set_solver.
  - by right; right; right; left; right.
  - right; right; right; right. by apply Hp.
Qed.
Lemma handled_id_mono s s' id : sy_handled s ⊆ sy_handled s' → handled_id s id → handled_id s' id.
Proof. intros Hh [?|?]; [left; set_solver|by right]. Qed.

Lemma elem_of_slot {A} (l : list A) w x y z :
  z ∈ l → l !! w = Some y → y ≠ z → z ∈ <[w := x]> l.
Proof.
  intros Hz Hw Hne. apply list_elem_of_lookup in Hz as [i Hi]. apply list_elem_of_lookup.
  exists i. rewrite list_lookup_insert_ne; [done|]. intros ->. congruence.
Qed.
Lemma elem_of_slot_inv {A} (l : list A) w x z : z ∈ <[w := x]> l → z = x ∨ z ∈ l.
Proof.
  intros Hz. apply list_elem_of_lookup in Hz as [i Hi].
  apply list_lookup_insert_Some in Hi as [(_ & <- & _)|[_ Hi]]; [by left|right].
  by eapply list_elem_of_lookup_2.
Qed.

Lemma mark_finalized_lookup db id i row :
  indexer_ledger_events (mark_finalized db id) !! i = Some row →
  ∃ row', indexer_ledger_events db !! i = Some row' ∧ (i = id ∨ row = row').
Proof.
  cbn. intros Hrow. apply lookup_alter_Some in Hrow as [(-> & row' & Hrow & ->)|[_ Hrow]]; eauto.
Qed.
Lemma mark_finalized_keeps db id i :
  is_Some (indexer_ledger_events db !! i) → is_Some (indexer_ledger_events (mark_finalized db id) !! i).
Proof. cbn. by rewrite lookup_alter_is_Some. Qed.

Lemma produce_conserved s a s' :
  conserved s → faultless a → produce a s = Some s' → conserved s'.
Proof.
  intros [Hs Hf Hm Hr] Hok Hstep. unfold produce in Hstep.
  assert (∀ s1, sy_db s1 = sy_db s → sy_queue s1 = sy_queue s → sy_persisters s1 = sy_persisters s →
    sy_finalizer s1 = sy_finalizer s → sy_handled s1 = sy_handled s → sy_purged s1 = sy_purged s →
    sy_sent s1 = sy_sent s → conserved s1) as Hsame.
  { intros s1 E1 E2 E3 E4 E5 E6 E7. split; unfold kept, handled_id in *; rewrite ?E1, ?E2, ?E3, ?E4, ?E5, ?E6, ?E7; done. }
  destruct a as [ok|[page|]|ok|[]| |ok|?|? ?|? ?|? ?| |?|?|?|?|?|?]; try done;
    destruct (sy_producer s) as [|cp|cp pg [|raw rest]|cp pg e rest|cp pg e rest|cp l] eqn:Ep; try done.
  - injection Hstep as <-. by apply Hsame.
  - destruct (page_ok page); injection Hstep as <-; by apply Hsame.
  - injection Hstep as <-. by apply Hsame.
  - injection Hstep as <-. by apply Hsame.
  - destruct (_ && _); injection Hstep as <-; by apply Hsame.
  - injection Hstep as <-. split; cbn.
    + intros e' He'. specialize (Hs e' He'). unfold kept, handled_id in *. cbn.
      destruct Hs as [?|[?|[[row Hrow]|[?|?]]]]; [by auto..| |by auto 10|].
      * destruct (decide (ie_ledger e ≤ le_ledger row)) as [Hle|Hle].
        -- right; right; right; right. apply elem_of_app. left. apply list_elem_of_fmap.
           exists (ie_id e', row). split; [done|]. apply elem_of_map_to_list.
           by apply map_lookup_filter_Some.
        -- right; right; left. exists row. by apply map_lookup_filter_Some.
      * right; right; right; right. apply elem_of_app. by right.
    + intros id row Hrow Hfin. apply map_lookup_filter_Some in Hrow as [Hrow _]. by eapply Hf.
    + done.
    + done.
  - destruct (_ <? _)%nat; [|done]. injection Hstep as <-. split; cbn; [|done..].
    intros e' He'. apply elem_of_cons in He' as [->|He'].
    + left. cbn. apply elem_of_app. right. left.
    + eapply kept_mono; [..|by apply Hs]; cbn; set_solver.
  - cbn in Hok. subst ok. injection Hstep as <-. split; cbn; [|done..].
    intros e' He'. by apply Hs.
Qed.

Lemma persist_conserved s a s' :
  conserved s → faultless a → persist config broker a s = Some s' → conserved s'.
Proof.
  intros [Hs Hf Hm Hr] Hok Hstep. unfold persist in Hstep.
  destruct a as [ok|?|ok|?| |ok|w|w ok|w ok|w ok| |?|?|?|?|?|?]; try done; cbn in Hok; try subst ok;
    (destruct (sy_persisters s !! w) as [[|e|e|e]|] eqn:Ew; try done).
  - destruct (sy_queue s) as [|e q] eqn:Eq; [done|]. injection Hstep as <-. split; cbn.
    + intros e' He'. specialize (Hs e' He'). unfold kept in *. cbn. rewrite Eq in Hs.
      destruct Hs as [Hin|[Hin|Hs]]; [|right; left; by eapply elem_of_slot|by right; right].
      apply elem_of_cons in Hin as [->|Hin]; [right; left|by left].
      apply list_elem_of_lookup. exists w. apply list_lookup_insert_eq. by eapply lookup_lt_Some.
    + done.
    + intros e' He'. apply elem_of_slot_inv in He' as [|He']; [done|by apply Hm].
    + done.
  - unfold buffer_insert in Hstep.
    destruct (indexer_ledger_events (sy_db s) !! ie_id e) as [row|] eqn:Erow;
      injection Hstep as <-; split; cbn; try done.
    + intros e' He'. specialize (Hs e' He'). unfold kept in *. cbn.
      destruct Hs as [Hin|[Hin|Hs]]; [by left| |by right; right].
      destruct (decide (ie_id e = ie_id e')) as [<-|Hne]; [right; right; left; by eexists|].
      right; left. eapply elem_of_slot; [done..|congruence].
    + intros e' He'. apply elem_of_slot_inv in He' as [He'|He']; [done|by apply Hm].
    + intros e' He'. specialize (Hs e' He'). unfold kept in *. cbn.
      destruct (decide (ie_id e = ie_id e')) as [Heq|Hne].
      { right; right; left. rewrite Heq, lookup_insert_eq. by eexists. }
      rewrite lookup_insert_ne by done.
      destruct Hs as [Hin|[Hin|Hs]]; [by left| |by right; right].
      right; left. eapply elem_of_slot; [done..|congruence].
    + intros id row Hrow Hfin. apply lookup_insert_Some in Hrow as [(_ & <-)|[_ Hrow]]; [done|].
      by eapply Hf.
    + intros e' He'. apply elem_of_slot_inv in He' as [He'|He']; [by destruct (is_final _ _)|by apply Hm].
  - destruct (apply_event_state config broker (sy_db s) e) as [[db' out]|?|] eqn:Ea;
      injection Hstep as <-; split; cbn;
      try (intros e' He'; apply elem_of_slot_inv in He' as [He'|He']);
      try (intros e' He'; eapply kept_mono; [..|by apply Hs]; cbn; try done;
           intros Hin; by eapply elem_of_slot); try done; try (by apply Hm).
    + intros e' He'. eapply kept_mono; [..|by apply Hs]; cbn; [done| | |set_solver|done].
      * intros Hin. by eapply elem_of_slot.
      * apply apply_event_frame in Ea as (-> & _). done.
    + intros id row. apply apply_event_frame in Ea as (-> & _). intros Hrow Hfin.
      eapply handled_id_mono; [|by eapply Hf]. cbn. set_solver.
    + injection He' as ->. set_solver.
    + specialize (Hm e' He'). set_solver.
    + intros b id rows E. specialize (Hr b id rows E). set_solver.
  - injection Hstep as <-. split; cbn.
    + intros e' He'. eapply kept_mono; [..|by apply Hs]; cbn; try done.
      * intros Hin. by eapply elem_of_slot.
      * by apply mark_finalized_keeps.
    + intros id row Hrow Hfin. apply mark_finalized_lookup in Hrow as (row' & Hrow & [->|<-]).
      * left. apply Hm. by eapply list_elem_of_lookup_2.
      * by eapply Hf.
    + intros e' He'. apply elem_of_slot_inv in He' as [|He']; [done|by apply Hm].
    + done.
Qed.

Lemma finalize_conserved s a s' :
  conserved s → faultless a → finalize config broker a s = Some s' → conserved s'.
Proof.
  intros [Hs Hf Hm Hr] Hok Hstep. unfold finalize in Hstep.
  destruct a as [ok|?|ok|?| |ok|w|w ok|w ok|w ok| |ok|ok|ok|ok|ok|?]; try done; cbn in Hok; try subst ok;
    destruct (sy_finalizer s) as [|b|b [|[id row] rows]|b id rows|b|b] eqn:Ef; try done.
  - destruct (_ <? _); injection Hstep as <-; split; cbn; try done. by rewrite Ef.
  - injection Hstep as <-. by split.
  - injection Hstep as <-. by split.
  - set (e := event_of_row (b + ic_confirmations config) id row) in *. case_decide as Hk.
    + injection Hstep as <-. split; cbn.
      * intros e' He'. eapply kept_mono; [..|by apply Hs]; cbn; try done; [|set_solver].
        by apply mark_finalized_keeps.
      * intros i r Hrow Hfin. apply mark_finalized_lookup in Hrow as (row' & Hrow & [->|<-]).
        -- left. cbn. rewrite fmap_app. apply elem_of_app. right. left.
        -- eapply handled_id_mono; [|by eapply Hf]. cbn. set_solver.
      * intros e' He'. specialize (Hm e' He'). set_solver.
      * done.
    + destruct (apply_event_state config broker (sy_db s) e) as [[db' out]|?|] eqn:Ea;
        injection Hstep as <-; split; cbn; try done.
      * intros e' He'. eapply kept_mono; [..|by apply Hs]; cbn; try done; [|set_solver].
        by apply apply_event_frame in Ea as (-> & _).
      * intros i r. apply apply_event_frame in Ea as (-> & _). intros Hrow Hfin.
        eapply handled_id_mono; [|by eapply Hf]. cbn. set_solver.
      * intros e' He'. specialize (Hm e' He'). set_solver.
      * intros b' i rows' [= <- <- <-]. rewrite fmap_app. apply elem_of_app. right. left.
  - injection Hstep as <-. split; cbn; try done.
    + intros e' He'. eapply kept_mono; [..|by apply Hs]; cbn; try done. by apply mark_finalized_keeps.
    + intros i r Hrow Hfin. apply mark_finalized_lookup in Hrow as (row' & Hrow & [->|<-]).
      * left. by eapply Hr.
      * by eapply Hf.
  - injection Hstep as <-. by split.
  - injection Hstep as <-. split; cbn; try done.
    + intros e' He'. specialize (Hs e' He'). unfold kept in *. cbn.
      destruct Hs as [?|[?|[[r Hrow]|Hs]]]; [by left|by right; left| |by right; right; right].
      destruct (le_finalized r) eqn:Er; [right; right; right; left; by eapply Hf|].
      right; right; left. exists r. apply map_lookup_filter_Some. split; [done|]. cbn. intros [? _]; congruence.
    + intros i r Hrow Hfin. apply map_lookup_filter_Some in Hrow as [Hrow _]. by eapply Hf.
Qed.

(** Nothing fetched is lost: as long as no statement on the database fails
    and the process does not crash, every event handed to the persisters is,
    under every interleaving, in the channel, with a persister, in the
    buffer, applied, or was purged by a rollback. *)
Theorem nothing_lost s e :
  runs config broker faultless db0 s → e ∈ sy_sent s → kept s e.
Proof.
  intros Hruns. assert (conserved s) as Hc; [|by apply Hc].
  induction Hruns as [|s a s' _ IH Hok Hstep].
  - unfold start. destruct (recover config _).
    split; cbn; [intros ? Hin; by apply not_elem_of_nil in Hin|unfold handled_id; by eauto| |done].
    intros ? Hin. by apply elem_of_replicate in Hin as [? _].
  - unfold exec in Hstep. destruct a;
      first [by eapply produce_conserved|by eapply persist_conserved|by eapply finalize_conserved|done].
Qed.
End Conservation.
