(* ===== verification/IdxExamples.v ===== *)
(** * The indexer: running instances

    A concrete codec and concrete pages, the theorems applied to them, and
    runs that show where the pipeline's guarantees end. *)

From stdpp Require Import pretty.
From S2P Require Import Prelude Machine IdxEvents IdxPool IdxStore IdxSweep.
From S2P Require Import IdxSpecs IdxPipeline IdxSafety.

(** One topic is XDR, the rest are plain; UUIDs are texts that start with "u". *)
#[local] Instance toy_xdr : XdrCodec := {|
  from_xdr_base64 := λ s, if decide (s = "AAAADw==") then Some (ScSymbol "PaymentProcessed") else None;
  base64_encode := λ s, s;
  strkey_account := λ s, s;
  hex_text := λ s, s;
  debug := λ _, "debug"
|}.
Definition toy_uuid (s : string) : option string := if String.prefix "u" s then Some s else None.
#[local] Instance toy_uuids : Uuids := {| parse_str := toy_uuid; pg_uuid := toy_uuid |}.

Definition cfg : IndexerConfig := MkConfig ["a"; "b"; "c"] "CPAY" "CREG" 1 100 2 1 None.
Definition db_init : Db := MkDb ∅ ∅ [] {["u1"]} [MkOrganizer (Some "alice") false].

Definition payload (l : list (string * string)) : Value := JObject (prod_map id JString <$> l).
Definition raw_purchase (id : string) (ledger : Z) (payment event : string) : SorobanEvent :=
  MkSoroban id ledger "CPAY" ["AAAADw=="]
    (payload [("payment_id", payment); ("event_id", event); ("buyer", "bob")]).
Definition raw_transfer (id : string) (ledger : Z) (payment to : string) : SorobanEvent :=
  MkSoroban id ledger "CPAY" ["TicketTransferred"] (payload [("payment_id", payment); ("to", to)]).
Definition raw_refund (id : string) (ledger : Z) (payment event : string) : SorobanEvent :=
  MkSoroban id ledger "CPAY" ["CancellationRefundClaimed"]
    (payload [("payment_id", payment); ("event_id", event)]).
Definition seen (head : Z) (raw : SorobanEvent) : IndexedEvent := decoded (MkPage [] head) raw.
Definition status_of (db : Db) (sid : string) : option string :=
  tk_status <$> head (filter (λ t, tk_stellar_id t = Some sid) (tickets db)).

(** ** Nodes and delays *)
Definition flaky : Poll :=
  MkPoll (λ _, 10) (λ u, if decide (u = "c") then Response 200 (Some (MkResponse (Some (MkPage [] 7)) None))
                   else Response 429 None) 10.
Lemma node_pool_fair_witness :
  ∃ k page, polls (pool.new ["a"; "b"; "c"] 60 0) [flaky; flaky; flaky] !! k = Some (Ok (page, "c")).
Proof.
  apply (node_pool_fair (pool.new ["a"; "b"; "c"] 60 0) 0 [flaky; flaky; flaky] 2 "c" 0).
  - apply new_pool_ok.
  - reflexivity.
  - reflexivity.
  - lia.
  - repeat (split; [intros k; cbn; lia|]). done.
  - repeat (apply Forall_cons; split; [eexists; reflexivity|]). apply Forall_nil. done.
  - reflexivity.
Defined.
Lemma backoff_bounds_witness :
  let nominal_ms := Z.min (Z.min (POLL_INTERVAL * 2 ^ Z.min 3 16) MAX_BACKOFF / 10 ^ 6) u64_max in
  ∃ ms, backoff_with_jitter 3 POLL_INTERVAL MAX_BACKOFF (λ lo hi, lo) = ms * 10 ^ 6
    ∧ Z.max 1 (nominal_ms / 2) ≤ ms ≤ Z.max 1 nominal_ms
    ∧ (10 ^ 6 ≤ MAX_BACKOFF → ms * 10 ^ 6 ≤ MAX_BACKOFF).
Proof.
  apply (backoff_bounds 3 POLL_INTERVAL MAX_BACKOFF (λ lo hi, lo)); [lia|done|by split|].
  intros lo hi Hle. lia.
Defined.
Lemma amount_visible_witness :
  combine_i128 (-1) 5 = -1 * 2 ^ 64 + 5
  ∧ as_i64 (scval_to_json (ScI128 (-1) 5))
    = let v := combine_i128 (-1) 5 in if (0 <=? v) && (v <? 2 ^ 63) then Some v else None.
Proof. apply (amount_visible (-1) 5); lia. Defined.

(** ** Sweeps *)
Definition parked_in (raws : list SorobanEvent) (db : Db) : Db :=
  foldl (λ db raw, (buffer_insert db (seen 5 raw)).2) db raws.
Definition backlog : Db := parked_in [raw_purchase "1" 4 "p1" "u1"; raw_purchase "2" 5 "p2" "u1"] db_init.
Lemma backlog_sound : sound cfg backlog 20.
Proof.
  intros id row Hrow _ _ _. exists "u1". split; [|apply (bool_decide_unpack _); vm_compute; exact I].
  assert (pending backlog (20 - ic_confirmations cfg)
    = <["2" := parked (seen 5 (raw_purchase "2" 5 "p2" "u1"))]>
        (<["1" := parked (seen 5 (raw_purchase "1" 4 "p1" "u1"))]> ∅)) as E
    by (vm_compute; reflexivity).
  rewrite E in Hrow. apply lookup_insert_Some in Hrow as [[<- <-]|[_ Hrow]]; [vm_compute; reflexivity|].
  apply lookup_insert_Some in Hrow as [[<- <-]|[_ Hrow]]; [vm_compute; reflexivity|].
  by rewrite lookup_empty in Hrow.
Qed.

(** A purchase for an event that is not a UUID. *)
Definition poisoned : Db := parked_in [raw_purchase "1" 4 "p1" "gala"; raw_purchase "2" 5 "p2" "u1"] db_init.
Lemma poison_stalls_witness : finalizer_tick cfg true 20 poisoned = (poisoned, []).
Proof.
  apply (poison_stalls cfg true poisoned "1" (parked (seen 5 (raw_purchase "1" 4 "p1" "gala"))) 20);
    try (vm_compute; reflexivity); [|vm_compute; discriminate|vm_compute; discriminate].
  intros i r Hr _.
  assert (indexer_ledger_events poisoned
    = <["2" := parked (seen 5 (raw_purchase "2" 5 "p2" "u1"))]>
        (<["1" := parked (seen 5 (raw_purchase "1" 4 "p1" "gala"))]> ∅)) as E
    by (vm_compute; reflexivity).
  rewrite E in Hr. apply lookup_insert_Some in Hr as [[<- <-]|[_ Hr]].
  { left. vm_compute. reflexivity. }
  apply lookup_insert_Some in Hr as [[<- <-]|[_ Hr]]; [|by rewrite lookup_empty in Hr].
  right. split; [reflexivity|vm_compute; exact I].
Defined.

Lemma parked_read_back_witness :
  let e := seen 5 (raw_purchase "1" 4 "p1" "u1") in
  event_of_row 20 (ie_id e) (parked e)
  = MkIndexed (ie_id e) (ie_ledger e) (ie_contract_id e) 20 (ie_kind e) (ie_topic_name e) (ie_value e).
Proof.
  apply (parked_read_back "1" 4 "CPAY" ["AAAADw=="]
           (payload [("payment_id", "p1"); ("event_id", "u1"); ("buyer", "bob")]) 5 20).
  - lia.
  - vm_compute. reflexivity.
  - vm_compute. discriminate.
  - intros m s Hm Hx. vm_compute in Hm. injection Hm as <-. vm_compute in Hx. discriminate.
Defined.

(** ** Replays *)
Definition first_page : FetchedPage := MkPage [raw_purchase "1" 4 "p1" "u1"] 90.
Definition later_page : FetchedPage := MkPage [raw_purchase "2" 5 "p2" "u1"] 90.
Definition replay_result := run_replay cfg false 1 50 [first_page; later_page] db_init.
Lemma replay_one_page_witness :
  run_replay cfg false 1 50 [first_page] db_init = (replay_result.1, Some (Ok (MkSummary 1 50 1 0)))
  ∧ 1 + 0 ≤ Z.of_nat (length (fp_events first_page))
  ∧ checkpoint.load replay_result.1 CHAIN_KEY = Some (MkCheckpoint 50 None).
Proof.
  apply (replay_one_page cfg false 1 50 first_page [later_page] db_init replay_result.1
           (MkSummary 1 50 1 0)); [vm_compute; discriminate|].
  vm_compute. reflexivity.
Defined.

Definition history : list IndexedEvent :=
  [seen 9 (raw_purchase "1" 4 "p1" "u1"); seen 9 (raw_transfer "2" 5 "p1" "carol")].
Definition after_history : Db := match apply_all cfg true history db_init with Ok db => db | _ => db_init end.
Lemma replay_idempotent_witness : apply_all cfg true history after_history = Ok after_history.
Proof.
  apply (replay_idempotent cfg true history db_init after_history []).
  - repeat (apply Forall_cons; split; [intros [[x Hx] _]; vm_compute in Hx; discriminate|]).
    apply Forall_nil. exact I.
  - intros p Hp. by apply not_elem_of_nil in Hp.
  - split; [intros p _; right; apply not_elem_of_nil|].
    split; [intros p Hp; vm_compute in Hp; discriminate|]. exact I.
  - vm_compute. reflexivity.
Defined.
Lemma refund_revokes_event_witness :
  let e := seen 9 (raw_refund "3" 6 "p9" "u1") in
  let t := MkTicket (Some "p1") (Some "u1") (Some "bob") (Some "carol") "Unused" in
  let t' := revoke (refund_stellar_id e) (Some "u1") t in
  t' ∈ tickets (apply_refund after_history e)
  ∧ (tk_event_id t = Some "u1" → tk_status t' = "Revoked")
  ∧ (tk_event_id t ≠ Some "u1" → tk_stellar_id t ≠ Some (refund_stellar_id e) → t' = t).
Proof.
  apply (refund_revokes_event after_history (seen 9 (raw_refund "3" 6 "p9" "u1")) "u1"
           (MkTicket (Some "p1") (Some "u1") (Some "bob") (Some "carol") "Unused")).
  - vm_compute. reflexivity.
  - vm_compute. left.
Defined.
(** Such a refund cannot be replayed: the second time it revokes a ticket that
    was sold after it. *)
Lemma refund_replay_revokes :
  let l := [seen 9 (raw_refund "3" 6 "p9" "u1"); seen 9 (raw_purchase "4" 7 "p2" "u1")] in
  ∃ db1 db2, apply_all cfg true l db_init = Ok db1 ∧ apply_all cfg true l db1 = Ok db2
    ∧ status_of db1 "p2" = Some "Unused" ∧ status_of db2 "p2" = Some "Revoked".
Proof. eexists _, _. split_and!; vm_compute; reflexivity. Qed.

(** ** Runs of the pipeline *)
Definition poll_page (page : FetchedPage) : list action := [Load true; Fetch (Some page)].
Definition send_one : list action := [Check true; Send].
Definition persist_one : list action := [Take 0; Insert 0 true; Apply 0 true; Mark 0 true].
Definition sweep_none : list action :=
  [Observe; Select true; Sweep true; Advance true; Prune true].
Lemma exec_all_runs allow l : ∀ s s',
  runs cfg true allow db_init s → Forall allow l → exec_all cfg true l s = Some s' →
  runs cfg true allow db_init s'.
Proof.
  induction l as [|a l IH]; intros s s' Hs Hl He; [by injection He as <-|].
  apply Forall_cons in Hl as [Ha Hl]. unfold exec_all in He. cbn in He.
  destruct (exec cfg true s a) as [s1|] eqn:E.
  - apply (IH s1); [by eapply runs_step|done|exact He].
  - exfalso. clear -He. induction l as [|b l IH]; cbn in He; [done|by apply IH].
Qed.

Definition page1 : FetchedPage := MkPage [raw_purchase "1" 4 "p1" "u1"] 90.
Definition normal_run : list action := poll_page page1 ++ send_one ++ persist_one.
Definition after_run : Sys :=
  match exec_all cfg true normal_run (start cfg db_init) with Some s => s | None => start cfg db_init end.
Lemma normal_run_runs : exec_all cfg true normal_run (start cfg db_init) = Some after_run.
Proof. vm_compute. reflexivity. Qed.
Lemma only_final_applied_witness :
  sy_handled after_run = [seen 90 (raw_purchase "1" 4 "p1" "u1")]
  ∧ Forall (final cfg (sy_heads after_run)) (sy_handled after_run)
  ∧ ∃ db, apply_all cfg true (sy_handled after_run) db_init = Ok db ∧ same_tables db (sy_db after_run).
Proof.
  split; [vm_compute; reflexivity|].
  apply (only_final_applied cfg true); [vm_compute; discriminate|apply map_Forall_empty|].
  eapply exec_all_runs; [apply runs_start| |apply normal_run_runs].
  repeat (apply Forall_cons; split; [exact I|]). apply Forall_nil. exact I.
Defined.
Lemma nothing_lost_witness : kept db_init after_run (seen 90 (raw_purchase "1" 4 "p1" "u1")).
Proof.
  apply (nothing_lost cfg true db_init after_run).
  - eapply exec_all_runs; [apply runs_start| |apply normal_run_runs].
    repeat (apply Forall_cons; split; [first [exact I|reflexivity]|]). apply Forall_nil. exact I.
  - vm_compute. left.
Defined.

(** ** Where the guarantees end *)

(** The cursor is saved once the events are in the channel: a crash before the
    persister takes them loses them, and the recovered cursor is past them. *)
Definition crash_run : list action := poll_page page1 ++ send_one ++ [Check true; Save true; Restart true].
Lemma crash_loses_event :
  ∃ s, exec_all cfg true crash_run (start cfg db_init) = Some s
    ∧ sy_sent s = [seen 90 (raw_purchase "1" 4 "p1" "u1")]
    ∧ sy_cursor s = Some "1" ∧ sy_queue s = [] ∧ sy_persisters s = [Receiving]
    ∧ indexer_ledger_events (sy_db s) = ∅ ∧ sy_handled s = [].
Proof. eexists. split_and!; vm_compute; reflexivity. Qed.

(** A backlog longer than a page looks like a fork: the finalizer moves the
    checkpoint to the head seen with the first page, and the first event of
    the second page, new and below it, starts a rollback. *)
Definition full_page : FetchedPage :=
  MkPage ((λ i, raw_purchase (String.append "1-" (pretty i)) 4 (pretty i) "u1")
            <$> seq 0 100) 90.
Definition next_page : FetchedPage := MkPage [raw_purchase "2-0" 5 "p200" "u1"] 90.
Definition false_fork_run : list action :=
  poll_page full_page ++ mjoin (replicate 100 send_one) ++ [Check true; Save true] ++ sweep_none
  ++ poll_page next_page ++ [Check true; RollBack true].
Lemma backlog_rolls_back :
  (length (fp_events full_page) <= MAX_EVENTS_PER_POLL)%nat
  ∧ ∃ s, exec_all cfg true false_fork_run (start cfg db_init) = Some s
    ∧ sy_start s = Some 5 ∧ sy_cursor s = None
    ∧ checkpoint.load (sy_db s) CHAIN_KEY = Some (MkCheckpoint 4 None).
Proof. split; [vm_compute; lia|]. eexists. split_and!; vm_compute; reflexivity. Qed.

(** The producer writes back the checkpoint it read before the finalizer
    advanced it. *)
Lemma checkpoint_goes_back :
  ∃ s, exec_all cfg true (poll_page page1 ++ send_one ++ sweep_none ++ [Check true; Save true])
         (start cfg db_init) = Some s
    ∧ checkpoint.load (sy_db s) CHAIN_KEY = Some (MkCheckpoint 0 (Some "1")).
Proof. eexists. split; vm_compute; reflexivity. Qed.

(** A replay applies events that are not final. *)
Lemma replay_applies_unconfirmed :
  let page := MkPage [raw_purchase "1" 90 "p1" "u1"] 90 in
  is_final cfg (seen 90 (raw_purchase "1" 90 "p1" "u1")) = false
  ∧ status_of (run_replay cfg false 90 90 [page] db_init).1 "p1" = Some "Unused".
Proof. split; vm_compute; reflexivity. Qed.
