(* ===== verification/WaitPow.v ===== *)
(** * Waiting room: proof of work

    [server/src/services/pow.rs].  SHA-256 belongs to the crate [sha2]: the
    class [Sha256].  A nonce is accepted when the hexadecimal text of the digest
    begins with enough zeros. *)

From Stdlib Require Import Ascii.
From stdpp Require Import pretty.
From S2P Require Import Prelude Machine ZkBytes.

Definition DEFAULT_DIFFICULTY : Z := 4.
Definition DEFAULT_CHALLENGE_TTL_SECONDS : Z := 300.

Class Sha256 : Type := { sha256 : bytes → bytes }.
Class Sha256Laws `{Sha256} : Prop := {
  sha256_length m : length (sha256 m) = 32%nat;
  sha256_bytes m : Forall is_byte (sha256 m)
}.

(** [hex::encode] *)
Definition nibbles (l : bytes) : list Z := b ← l; [b / 16; b mod 16].
Definition hex_char (n : Z) : ascii := ascii_of_N (Z.to_N (if n <? 10 then 48 + n else 87 + n)).
Definition hex_encode (l : bytes) : list ascii := hex_char <$> nibbles l.

(** [generate_challenge], with the draw of the random generator. *)
Definition generate_challenge (random : bytes) : string :=
  String.string_of_list_ascii (hex_encode random).

Section Pow.
Context `{Sha256}.

Definition digest (challenge nonce : string) : bytes := sha256 (as_bytes challenge ++ as_bytes nonce).
Definition verify_pow (challenge nonce : string) (difficulty : Z) : bool :=
  if difficulty =? 0 then true
  else forallb (λ c, Ascii.eqb c "0")
         (take (Z.to_nat difficulty) (hex_encode (digest challenge nonce))).

(** The turns of [for nonce in 0..u64::MAX]. *)
Fixpoint solve_loop (turns : nat) (nonce : N) (challenge : string) (difficulty : Z) : option string :=
  match turns with
  | O => None
  | S turns =>
      let candidate := pretty nonce in
      if verify_pow challenge candidate difficulty then Some candidate
      else solve_loop turns (nonce + 1) challenge difficulty
  end.
Definition solve_pow (challenge : string) (difficulty : Z) : option string :=
  solve_loop (Z.to_nat u64_max) 0 challenge difficulty.

(** ** Digits of the digest *)
Fixpoint digits_value (l : list Z) : Z :=
  match l with [] => 0 | d :: l => d * 16 ^ Z.of_nat (length l) + digits_value l end.
Definition is_digit (d : Z) : Prop := 0 ≤ d < 16.

Lemma digits_value_bounds l : Forall is_digit l → 0 ≤ digits_value l < 16 ^ Z.of_nat (length l).
Proof.
  induction 1 as [|d l Hd Hl IH]; [cbn; lia|]. cbn [digits_value length]. unfold is_digit in Hd.
  rewrite Nat2Z.inj_succ, Z.pow_succ_r by lia. nia.
Qed.
Lemma digits_value_app l k :
  digits_value (l ++ k) = digits_value l * 16 ^ Z.of_nat (length k) + digits_value k.
Proof.
  induction l as [|d l IH]; [done|]. cbn [app digits_value]. rewrite IH, length_app, Nat2Z.inj_add, Z.pow_add_r by lia.
  ring.
Qed.
Lemma nibbles_digits l : Forall is_byte l → Forall is_digit (nibbles l).
Proof.
  intros Hl. unfold nibbles. apply Forall_bind. eapply Forall_impl; [exact Hl|].
  unfold is_byte, is_digit. intros b Hb. repeat constructor.
  - apply Z.div_pos; lia.
  - apply Z.div_lt_upper_bound; lia.
  - pose proof (Z.mod_pos_bound b 16). lia.
  - pose proof (Z.mod_pos_bound b 16). lia.
Qed.
Lemma length_nibbles l : length (nibbles l) = (2 * length l)%nat.
Proof. unfold nibbles. induction l as [|b l IH]; [done|]. cbn [mbind list_bind app length] in *. lia. Qed.
Lemma nibbles_value l : digits_value (nibbles l) = from_be_bytes l.
Proof.
  induction l as [|b l IH] using rev_ind; [done|]. rewrite from_be_bytes_snoc. unfold nibbles in *.
  rewrite bind_app, digits_value_app, IH.
  pose proof (Z.div_mod b 16 ltac:(lia)). cbn -[Z.mul Z.div Z.modulo]. lia.
Qed.
Lemma hex_char_zero d : is_digit d → Ascii.eqb (hex_char d) "0" = bool_decide (d = 0).
Proof.
  intros Hd. unfold is_digit in Hd.
  assert (Hc : d = 0 ∨ d = 1 ∨ d = 2 ∨ d = 3 ∨ d = 4 ∨ d = 5 ∨ d = 6 ∨ d = 7 ∨ d = 8 ∨ d = 9 ∨ d = 10
    ∨ d = 11 ∨ d = 12 ∨ d = 13 ∨ d = 14 ∨ d = 15) by lia.
  by repeat destruct Hc as [->|Hc]; [..|subst d].
Qed.

(** The first [n] digits of a number are zero when it is small. *)
Lemma leading_zeros l n : Forall is_digit l → (n ≤ length l)%nat →
  forallb (λ c, Ascii.eqb c "0") (take n (hex_char <$> l)) = true
  ↔ digits_value l < 16 ^ Z.of_nat (length l - n).
Proof.
  intros Hl. revert n. induction Hl as [|d l Hd Hl IH]; intros [|n] Hn; cbn [length] in *.
  - done.
  - lia.
  - rewrite Nat.sub_0_r. pose proof (digits_value_bounds (d :: l) ltac:(by constructor)). cbn in *. naive_solver.
  - cbn [fmap list_fmap take forallb Nat.sub]. rewrite andb_true_iff, hex_char_zero, bool_decide_eq_true by done.
    rewrite IH by lia. cbn [digits_value]. pose proof (digits_value_bounds l Hl).
    assert (16 ^ Z.of_nat (length l - n) ≤ 16 ^ Z.of_nat (length l)) by (apply Z.pow_le_mono_r; lia).
    unfold is_digit in Hd. split; [intros [-> ?]; lia|]. intros Hlt. assert (d = 0) by nia. subst d. lia.
Qed.

(** ** The search *)
Lemma solve_loop_spec turns nonce challenge difficulty s :
  solve_loop turns nonce challenge difficulty = Some s ↔
  ∃ n, (nonce ≤ n)%N ∧ (n < nonce + N.of_nat turns)%N ∧ s = pretty n
       ∧ verify_pow challenge s difficulty = true
       ∧ ∀ m, (nonce ≤ m < n)%N → verify_pow challenge (pretty m) difficulty = false.
Proof.
  revert nonce. induction turns as [|turns IH]; intros nonce; cbn [solve_loop].
  { split; [done|]. intros (n & ? & ? & _). lia. }
  destruct (verify_pow challenge (pretty nonce) difficulty) eqn:Hv.
  - split.
    + intros [= <-]. exists nonce. split_and!; [lia|lia|done|done|]. intros m Hm. lia.
    + intros (n & Hn & _ & -> & _ & Hleast). destruct (decide (n = nonce)) as [->|]; [done|].
      rewrite (Hleast nonce) in Hv by lia. done.
  - rewrite IH. split; intros (n & H1 & H2 & -> & H3 & H4).
    + exists n. split_and!; [lia|lia|done|done|]. intros m Hm.
      destruct (decide (m = nonce)) as [->|]; [done|]. apply H4. lia.
    + exists n. assert (n ≠ nonce) by (intros ->; congruence). split_and!; [lia|lia|done|done|].
      intros m Hm. apply H4. lia.
Qed.
End Pow.

(** A difficulty of [d] asks for [4 * d] zero bits: a nonce is accepted exactly
    when the digest, read as a number, is below [2 ^ (256 - 4 * d)]. *)
Lemma verify_pow_bits `{Sha256Laws} challenge nonce d : 0 ≤ d ≤ 64 →
  verify_pow challenge nonce d = true ↔ from_be_bytes (digest challenge nonce) < 2 ^ (256 - 4 * d).
Proof.
  intros Hd. unfold verify_pow, digest. set (m := as_bytes challenge ++ as_bytes nonce).
  pose proof (sha256_bytes m) as Hb. pose proof (sha256_length m) as Hl.
  assert (Hs : length (nibbles (sha256 m)) = 64%nat) by (by rewrite length_nibbles, Hl).
  rewrite <- nibbles_value.
  replace (2 ^ (256 - 4 * d)) with (16 ^ Z.of_nat (length (nibbles (sha256 m)) - Z.to_nat d)).
  2: { rewrite Hs. change 16 with (2 ^ 4). rewrite <- Z.pow_mul_r by lia. f_equal. lia. }
  rewrite <- leading_zeros; [|by apply nibbles_digits|lia].
  destruct (Z.eqb_spec d 0) as [->|]; [done|]. done.
Qed.

(** Searching ends with the least nonce: [solve_pow] returns a nonce exactly
    when some number below [u64::MAX] is accepted, and then it is the least. *)
Lemma solve_pow_least `{Sha256} challenge difficulty s :
  solve_pow challenge difficulty = Some s ↔
  ∃ n, (Z.of_N n < u64_max) ∧ s = pretty n ∧ verify_pow challenge s difficulty = true
       ∧ ∀ m, (m < n)%N → verify_pow challenge (pretty m) difficulty = false.
Proof.
  unfold solve_pow. rewrite solve_loop_spec.
  assert (Hm : 0 ≤ u64_max) by done.
  split; intros (n & Hn); exists n.
  - destruct Hn as (_ & ? & -> & ? & Hl). split_and!; [lia|done|done|]. intros m ?. apply Hl. lia.
  - destruct Hn as (? & -> & ? & Hl). split_and!; [lia|lia|done|done|]. intros m ?. apply Hl. lia.
Qed.
