(* ===== verification/WaitQueue.v ===== *)
(** * Waiting room: the queue engine

    [server/src/services/queue.rs].  An asynchronous function is a program: a
    tree of Redis commands ([cmd]), each of which may fail.  A command is
    atomic; between two commands of a program those of others may run.  The
    state is what the keys of the waiting room hold, with the rows of the table
    [events] that the handlers read: a field for every kind of key, an entry
    for every event or client that the key names ([keys_distinct] in
    [WaitSpecs] shows that the texts of the keys keep them apart).  The Lua
    script is translated line by line, in doubles ([Float]); Lua numbers pass
    through Redis as texts that read back exactly.  Signing tokens and drawing
    UUIDs belong to the crates [jsonwebtoken] and [uuid]: the class [Tokens]. *)

From Stdlib Require Import QArith Qround.
From S2P Require Import Prelude Prog Machine Float ZkBytes.
#[local] Open Scope Z_scope.

Definition WAITING_ROOM_KEY_PREFIX : string := "agora:waiting".
Definition ACTIVE_EVENTS_KEY : string := "agora:waiting:active".
Definition POW_CHALLENGE_PREFIX : string := "agora:pow".
Definition DEFAULT_ADMISSION_RATE_PER_MINUTE : Z := 60.
Definition DEFAULT_GRANT_TTL_MINUTES : Z := 10.
Definition GRANT_PURPOSE : string := "checkout_access".

(** ** Keys *)
#[local] Notation "a +++ b" := (String.append a b) (at level 60, right associativity).
Definition queue_zset_key (event_id : string) : string :=
  WAITING_ROOM_KEY_PREFIX +++ ":" +++ event_id +++ ":zset".
Definition queue_seq_key (event_id : string) : string :=
  WAITING_ROOM_KEY_PREFIX +++ ":" +++ event_id +++ ":seq".
Definition queue_config_key (event_id : string) : string :=
  WAITING_ROOM_KEY_PREFIX +++ ":" +++ event_id +++ ":config".
Definition queue_bucket_key (event_id : string) : string :=
  WAITING_ROOM_KEY_PREFIX +++ ":" +++ event_id +++ ":bucket".
Definition grant_key (event_id client_id : string) : string :=
  WAITING_ROOM_KEY_PREFIX +++ ":" +++ event_id +++ ":grant:" +++ client_id.
Definition pow_challenge_key (challenge : string) : string :=
  POW_CHALLENGE_PREFIX +++ ":" +++ challenge.

(** ** Data *)
Inductive AppError : Type :=
| Conflict | ExternalServiceError | InternalServerError | AuthError | DatabaseError
| ValidationError | NotFound | BadRequest | UnprocessableEntity.

Inductive QueueStatusKind : Type := IsWaiting | IsAdmitted.
#[export] Instance QueueStatusKind_eq_dec : EqDecision QueueStatusKind.
Proof. solve_decision. Defined.
Record QueueStatus : Type := MkStatus {
  status : QueueStatusKind;
  position : option Z;
  queue_size : Z;
  estimated_wait : option Z;
  grant_token : option string
}.
Record GrantClaims : Type := MkClaims {
  sub : string;
  claim_event_id : string;
  purpose : string;
  iat : Z;
  exp : Z;
  jti : string
}.

Class Tokens : Type := {
  encode : GrantClaims → option string;
  decode : Z → string → option GrantClaims;   (** at a time, checking [exp] *)
  uuid_v4 : bytes → string
}.

(** ** Redis

    A key set with a lifetime is kept with the millisecond at which it ends. *)
Record World : Type := MkWorld {
  queues : gmap string (gmap string Q);
  seqs : gmap string Z;
  rates : gmap string Z;
  buckets : gmap string (Q * Z);
  grants : gmap (string * string) (string * Z);
  active : gset string;
  challenges : gmap string (string * Z);
  inventory : gmap string (Z * Z)            (** table [events], by id *)
}.
#[export] Instance eta_World : Eta World := λ w,
  MkWorld (queues w) (seqs w) (rates w) (buckets w) (grants w) (active w) (challenges w) (inventory w).

Definition i64_max : Z := 2 ^ 63 - 1.
Definition queue_of (w : World) (event_id : string) : gmap string Q := default ∅ (queues w !! event_id).
Definition live {A} (now : Z) (v : option (A * Z)) : option A :=
  match v with Some (a, until) => if now <? until then Some a else None | None => None end.

(** Members of a sorted set by score, then by their bytes. *)
Definition member_le (a b : string * Q) : Prop :=
  (a.2 < b.2)%Q ∨ (a.2 == b.2)%Q ∧ String.le a.1 b.1.
#[export] Instance member_le_dec : RelDecision member_le.
Proof.
  intros a b. unfold member_le.
  assert (Hlt : Decision (a.2 < b.2)%Q).
  { destruct (Qlt_le_dec a.2 b.2) as [H|H]; [by left|right]. by apply Qle_not_lt. }
  assert (Heq : Decision (a.2 == b.2)%Q) by apply Qeq_dec.
  apply _.
Defined.
Definition line (zset : gmap string Q) : list string := (merge_sort member_le (map_to_list zset)).*1.

(** [ZRANGE key 0 stop]; a negative index counts from the end. *)
Definition zrange0 (l : list string) (stop : Z) : list string :=
  take (Z.to_nat (if stop <? 0 then Z.of_nat (length l) + stop + 1 else stop + 1)) l.
Definition zrank (zset : gmap string Q) (member : string) : option Z :=
  (λ p, Z.of_nat p.1) <$> list_find (λ m, m = member) (line zset).
Definition zrem (members : list string) (zset : gmap string Q) : gmap string Q :=
  foldr delete zset members.

(** The script [ADMIT_LUA], of the hash [bucket] (fields [tokens] and
    [last_refill]) and the sorted set. *)
Definition ADMIT_LUA (bucket : option (Q * Z)) (zset : gmap string Q)
    (now : Z) (refill capacity : Q) (max_admit : Z) : list string * (Q * Z) * gmap string Q :=
  let tokens := from_option fst 0%Q bucket in
  let last := of_int (from_option snd now bucket) in
  let elapsed := fdiv (fsub (of_int now) last) 1000 in
  let tokens := fadd tokens (fmul elapsed refill) in
  let tokens := if Qlt_le_dec capacity tokens then capacity else tokens in
  if Qlt_le_dec tokens 1 then ([], (tokens, now), zset)
  else
    let taken := Z.min (Qfloor tokens) max_admit in
    let members := zrange0 (line zset) (taken - 1) in
    (members, (fsub tokens (of_int (Z.of_nat (length members))), now), zrem members zset).

(** ** Commands *)
Inductive cmd : Type → Type :=
| GetGrant (event_id client_id : string) : cmd (option string)
| SetGrant (event_id client_id token : string) (seconds : Z) : cmd unit
| Incr (event_id : string) : cmd Z
| ZaddNx (event_id : string) (score : Z) (client_id : string) : cmd Z
| Zrank (event_id client_id : string) : cmd (option Z)
| Zcard (event_id : string) : cmd Z
| Sadd (event_id : string) : cmd Z
| Srem (event_id : string) : cmd Z
| Smembers : cmd (list string)
| HsetnxRate (event_id : string) (rate_per_minute : Z) : cmd bool
| HgetallRate (event_id : string) : cmd (option Z)    (** the field [rate_per_minute] *)
| EvalAdmit (event_id : string) (now : Z) (refill capacity : Q) (max_admit : Z) : cmd (list string)
| SetChallenge (challenge event_id : string) (seconds : Z) : cmd unit
| GetChallenge (challenge : string) : cmd (option string)
| DelChallenge (challenge : string) : cmd Z
| SelectInventory (id : string) : cmd (option (Z * Z))
| Now : cmd Z                                         (** [Utc::now()] *)
| Draw : cmd bytes.                                   (** sixteen random bytes *)

Definition b2z (b : bool) : Z := if b then 1 else 0.

(** A command at the time [now]; [None] is an error of the server. *)
Definition exec {R} (now : Z) (draw : bytes) (c : cmd R) (w : World) : option (R * World) :=
  match c in cmd R return option (R * World) with
  | GetGrant e c => Some (live now (grants w !! (e, c)), w)
  | SetGrant e c token seconds =>
      Some (tt, w ⟨ grants ::= <[(e, c) := (token, now + seconds * 1000)]> ⟩)
  | Incr e =>
      let n := default 0 (seqs w !! e) in
      if n <? i64_max then Some (n + 1, w ⟨ seqs ::= <[e := n + 1]> ⟩) else None
  | ZaddNx e score c =>
      match queue_of w e !! c with
      | Some _ => Some (0, w)
      | None => Some (1, w ⟨ queues ::= <[e := <[c := of_int score]> (queue_of w e)]> ⟩)
      end
  | Zrank e c => Some (zrank (queue_of w e) c, w)
  | Zcard e => Some (Z.of_nat (size (queue_of w e)), w)
  | Sadd e => Some (b2z (negb (bool_decide (e ∈ active w))), w ⟨ active ::= λ s, s ∪ {[e]} ⟩)
  | Srem e => Some (b2z (bool_decide (e ∈ active w)), w ⟨ active ::= λ s, s ∖ {[e]} ⟩)
  | Smembers => Some (elements (active w), w)
  | HsetnxRate e rate =>
      match rates w !! e with
      | Some _ => Some (false, w)
      | None => Some (true, w ⟨ rates ::= <[e := rate]> ⟩)
      end
  | HgetallRate e => Some (rates w !! e, w)
  | EvalAdmit e at_ms refill capacity max_admit =>
      let ' (members, b, zset) := ADMIT_LUA (buckets w !! e) (queue_of w e) at_ms refill capacity max_admit in
      Some (members, w ⟨ buckets ::= <[e := b]> ⟩ ⟨ queues ::= <[e := zset]> ⟩)
  | SetChallenge ch e seconds => Some (tt, w ⟨ challenges ::= <[ch := (e, now + seconds * 1000)]> ⟩)
  | GetChallenge ch => Some (live now (challenges w !! ch), w)
  | DelChallenge ch => Some (b2z (bool_decide (is_Some (live now (challenges w !! ch)))),
                             w ⟨ challenges ::= delete ch ⟩)
  | SelectInventory id => Some (inventory w !! id, w)
  | Now => Some (now, w)
  | Draw => Some (draw, w)
  end.

(** ** Programs *)
Abbreviation prog := (Prog.prog cmd AppError).
#[global] Notation "'let?' x := c 'in' k" := (call_or ExternalServiceError c (λ x, k))
  (at level 10, x name, c at level 200, k at level 200,
   format "'[v' 'let?'  x  :=  c  'in'  '/' k ']'") : soroban_scope.
(** A program that runs alone, every command answered. *)
Abbreviation run now draw := (prun (λ R, @exec R now draw)).

(** ** Pure helpers *)
Definition admission_rate_for_inventory (total_tickets minted_tickets max_rate_per_minute : Z) : Z :=
  if total_tickets <=? 0 then max_rate_per_minute
  else
    let remaining := total_tickets - minted_tickets in
    if remaining <=? 0 then 0 else Z.min remaining max_rate_per_minute.
Definition estimated_wait_seconds (position rate_per_minute : Z) : Z :=
  if rate_per_minute =? 0 then 0
  else ceil_to u64_max (fmul (fdiv (of_int position) (of_int rate_per_minute)) 60).

(** ** Engine *)
Section Engine.
Context `{Tokens}.

Definition issue_grant_token (client_id event_id : string) (ttl_minutes : Z) : prog string :=
  let? now := Now in
  let? random := Draw in
  let claims := MkClaims client_id event_id GRANT_PURPOSE (now / 1000)
                  ((now + ttl_minutes * 60000) / 1000) (uuid_v4 random) in
  Done (ok_or (encode claims) InternalServerError).
Definition verify_grant_token (now : Z) (token : string) : res AppError GrantClaims :=
  ok_or (decode now token) AuthError.

Definition queue_size_of (event_id : string) : prog Z :=
  let? size := Zcard event_id in Done (Ok (Z.max size 0)).
Definition grant_for (event_id client_id : string) : prog (option string) :=
  let? token := GetGrant event_id client_id in Done (Ok token).
Definition rate_per_minute (event_id : string) : prog Z :=
  let? entry := HgetallRate event_id in
  Done (Ok (default DEFAULT_ADMISSION_RATE_PER_MINUTE entry)).

Definition admitted_status (event_id token : string) : prog QueueStatus :=
  let* size := queue_size_of event_id in
  Done (Ok (MkStatus IsAdmitted None size (Some 0) (Some token))).

Definition join (event_id client_id : string) (rate : Z) : prog QueueStatus :=
  if rate =? 0 then Done (Err Conflict)
  else
    let* held := grant_for event_id client_id in
    match held with
    | Some token => admitted_status event_id token
    | None =>
        let? seq := Incr event_id in
        let? added := ZaddNx event_id seq client_id in
        let? swept := Sadd event_id in
        let? first := HsetnxRate event_id rate in
        let? rank := Zrank event_id client_id in
        let position := from_option (λ r, r + 1) 1 rank in
        let* size := queue_size_of event_id in
        Done (Ok (MkStatus IsWaiting (Some position) size
                    (Some (estimated_wait_seconds position rate)) None))
    end.

Definition status_of (event_id client_id : string) : prog (option QueueStatus) :=
  let* held := grant_for event_id client_id in
  match held with
  | Some token => let* s := admitted_status event_id token in Done (Ok (Some s))
  | None =>
      let? rank := Zrank event_id client_id in
      match rank with
      | None => Done (Ok None)
      | Some rank =>
          let position := rank + 1 in
          let* rate := rate_per_minute event_id in
          let* size := queue_size_of event_id in
          Done (Ok (Some (MkStatus IsWaiting (Some position) size
                            (Some (estimated_wait_seconds position rate)) None)))
      end
  end.

(** [for client_id in &admitted] *)
Fixpoint issue_grants (event_id : string) (ttl_minutes : Z) (admitted : list string) : prog unit :=
  match admitted with
  | [] => Done (Ok tt)
  | client_id :: admitted =>
      let* token := issue_grant_token client_id event_id ttl_minutes in
      let? stored := SetGrant event_id client_id token (Z.max (ttl_minutes * 60) 60) in
      issue_grants event_id ttl_minutes admitted
  end.

Definition admit_for_event (event_id : string) (ttl_minutes : Z) : prog Z :=
  let* rate := rate_per_minute event_id in
  if rate =? 0 then Done (Ok 0)
  else
    let? now := Now in
    let refill_per_sec := fdiv (of_int rate) 60 in
    let capacity := of_int rate in
    let max_admit := ceil_to i64_max capacity in
    let? admitted := EvalAdmit event_id now refill_per_sec capacity max_admit in
    let* issued := issue_grants event_id ttl_minutes admitted in
    let? remaining := Zcard event_id in
    if remaining =? 0 then
      let? removed := Srem event_id in Done (Ok (Z.of_nat (length admitted)))
    else Done (Ok (Z.of_nat (length admitted))).

Fixpoint admit_events (ttl_minutes : Z) (event_ids : list string) (total : Z) : prog Z :=
  match event_ids with
  | [] => Done (Ok total)
  | event_id :: event_ids =>
      let* n := admit_for_event event_id ttl_minutes in
      admit_events ttl_minutes event_ids (total + n)
  end.
Definition admit_all (ttl_minutes : Z) : prog Z :=
  let? event_ids := Smembers in admit_events ttl_minutes event_ids 0.

(** Ticks of the worker: an error is logged, and the next tick follows. *)
Fixpoint worker (ttl_minutes : Z) (ticks : nat) : prog unit :=
  match ticks with
  | O => Done (Ok tt)
  | S ticks => bind_any (admit_all ttl_minutes) (λ _, worker ttl_minutes ticks)
  end.
End Engine.
