(* ===== verification/WaitRoom.v ===== *)
(** * Waiting room: handlers

    [server/src/handlers/waiting_room.rs].  A handler is a program of the
    engine's commands; its errors are those of the response.  [Uuid::parse_str]
    is a parameter: the id that a text denotes. *)

From Stdlib Require Import Ascii.
From S2P Require Import Prelude Prog Machine ZkBytes WaitPow WaitQueue.

Record WaitingRoomConfig : Type := MkRoom {
  pow_difficulty : Z;
  admission_rate_per_minute : Z;
  grant_ttl_minutes : Z;
  challenge_ttl_seconds : Z;
  tick_interval_ms : Z
}.
(** [from_env], where a variable that is missing or no number is [None]. *)
Definition from_env (difficulty rate grant_ttl challenge_ttl tick : option Z) : WaitingRoomConfig :=
  MkRoom (default DEFAULT_DIFFICULTY difficulty) (default DEFAULT_ADMISSION_RATE_PER_MINUTE rate)
    (let ttl := default DEFAULT_GRANT_TTL_MINUTES grant_ttl in
     if i64_max <? ttl then ttl - 2 ^ 64 else ttl)                 (** [as i64] *)
    (default DEFAULT_CHALLENGE_TTL_SECONDS challenge_ttl) (default 1000 tick).

Record JoinRequest : Type := MkJoin {
  jr_event_id : string;
  jr_client_id : string;
  jr_challenge : string;
  jr_nonce : string
}.
Record ChallengeResponse : Type := MkChallenge {
  cr_challenge : string;
  cr_difficulty : Z;
  cr_expires_in : Z
}.

(** [s.trim().is_empty()]: nothing but white space, in UTF-8. *)
Fixpoint blank_bytes (l : bytes) : bool :=
  match l with
  | [] => true
  | b :: l1 =>
      if ((9 <=? b) && (b <=? 13)) || (b =? 32) then blank_bytes l1
      else match l1 with
      | c :: l2 =>
          if (b =? 194) && ((c =? 133) || (c =? 160)) then blank_bytes l2
          else match l2 with
          | d :: l3 =>
              if ((b =? 225) && (c =? 154) && (d =? 128))
                 || ((b =? 226) && (c =? 128) && (((128 <=? d) && (d <=? 138)) || (d =? 168) || (d =? 169) || (d =? 175)))
                 || ((b =? 226) && (c =? 129) && (d =? 159))
                 || ((b =? 227) && (c =? 128) && (d =? 128))
              then blank_bytes l3 else false
          | [] => false
          end
      | [] => false
      end
  end.
Definition blank (s : string) : bool := blank_bytes (as_bytes s).

Definition client_id_byte (b : Z) : bool :=
  ((48 <=? b) && (b <=? 57)) || ((65 <=? b) && (b <=? 90)) || ((97 <=? b) && (b <=? 122))
  || (b =? 45) || (b =? 95) || (b =? 46) || (b =? 58).
Definition is_valid_client_id (client_id : string) : bool :=
  let len := Z.of_nat (length (as_bytes client_id)) in
  (1 <=? len) && (len <=? 128) && forallb client_id_byte (as_bytes client_id).

Section Handlers.
Context `{Sha256} `{Tokens}.
Variable parse_str : string → option string.
Variable config : WaitingRoomConfig.

Definition request_challenge (event_id : string) : prog ChallengeResponse :=
  if blank event_id then Done (Err BadRequest)
  else
    let? random := Draw in
    let challenge := generate_challenge random in
    let? stored := SetChallenge challenge event_id (challenge_ttl_seconds config) in
    Done (Ok (MkChallenge challenge (pow_difficulty config) (challenge_ttl_seconds config))).

Definition admission_rate_from_db (event_id : string) (max_rate_per_minute : Z) : prog Z :=
  match parse_str event_id with
  | None => Done (Err ValidationError)
  | Some event_uuid =>
      call_or DatabaseError (SelectInventory event_uuid) (λ row,
        match row with
        | Some (total, minted) => Done (Ok (admission_rate_for_inventory total minted max_rate_per_minute))
        | None => Done (Err NotFound)
        end)
  end.

(** From the proof of work on, once the challenge is consumed. *)
Definition join_checked (payload : JoinRequest) : prog QueueStatus :=
  if negb (verify_pow (jr_challenge payload) (jr_nonce payload) (pow_difficulty config))
  then Done (Err UnprocessableEntity)
  else
    let* rate := admission_rate_from_db (jr_event_id payload) (admission_rate_per_minute config) in
    if rate =? 0 then Done (Err Conflict)
    else join (jr_event_id payload) (jr_client_id payload) rate.

Definition join_queue (payload : JoinRequest) : prog QueueStatus :=
  if blank (jr_event_id payload) || blank (jr_client_id payload)
     || blank (jr_challenge payload) || blank (jr_nonce payload)
  then Done (Err BadRequest)
  else if negb (is_valid_client_id (jr_client_id payload)) then Done (Err BadRequest)
  else
    Call (GetChallenge (jr_challenge payload)) (λ stored_event,
      match stored_event with
      | Some (Some event_id) =>
          if decide (event_id = jr_event_id payload)
          then Call (DelChallenge (jr_challenge payload)) (λ _, join_checked payload)
          else Done (Err UnprocessableEntity)
      | _ => Done (Err UnprocessableEntity)
      end).

Definition queue_status (event_id client_id : string) : prog QueueStatus :=
  if blank event_id || blank client_id then Done (Err BadRequest)
  else
    let* s := status_of event_id client_id in
    match s with
    | Some s => Done (Ok s)
    | None => Done (Err NotFound)
    end.

(** ** Server-sent events: the ticks of [position_stream] *)
Inductive sse : Type :=
| SseAdmitted (event_id token : string)
| SsePosition (position : option Z) (queue_size : Z) (wait : option Z)
| SseNotInQueue (event_id : string)
| SseError (e : AppError).
(** What a status yields, and whether the stream goes on. *)
Definition stream_turn (event_id : string) (r : res AppError (option QueueStatus)) : list sse * bool :=
  match r with
  | Ok (Some s) =>
      if decide (status s = IsAdmitted) then
        match grant_token s with
        | Some token => ([SseAdmitted event_id token], false)
        | None => ([], true)
        end
      else ([SsePosition (position s) (queue_size s) (estimated_wait s)], true)
  | Ok None => ([SseNotInQueue event_id], false)
  | Err e => ([SseError e], false)
  | Panic => ([], false)
  end.
Fixpoint position_stream (ticks : nat) (event_id client_id : string) (sent : list sse) : prog (list sse) :=
  match ticks with
  | O => Done (Ok sent)
  | S ticks =>
      bind_any (status_of event_id client_id) (λ r,
        let ' (out, more) := stream_turn event_id r in
        if more then position_stream ticks event_id client_id (sent ++ out)
        else Done (Ok (sent ++ out)))
  end.
Definition queue_stream (ticks : nat) (event_id client_id : string) : prog (list sse) :=
  if blank event_id || blank client_id then Done (Err BadRequest)
  else position_stream ticks event_id client_id [].
End Handlers.
