(* ===== verification/WaitBucket.v ===== *)
(** * Waiting room: the token bucket

    What one evaluation of the admission script does to the bucket and the
    queue, in doubles. *)

From Stdlib Require Import QArith Qround Qpower Lqa.
From S2P Require Import Prelude Prog Machine Float WaitQueue.
#[local] Open Scope Q_scope.

Definition ulp : Q := pow2 (- 53).
Lemma ulp_value : ulp == 1 # 2 ^ 53.
Proof. reflexivity. Qed.

Lemma Qmult_le_compat_l x y z : x <= y → 0 <= z → z * x <= z * y.
Proof. intros. rewrite !(Qmult_comm z). by apply Qmult_le_compat_r. Qed.

(** ** Small integers are exact *)
Definition small (z : Z) : Prop := (0 <= z <= 2 ^ 53)%Z.
Lemma of_int_small z : small z → of_int z == inject_Z z.
Proof. intros Hz. unfold small in Hz. apply rnd_Z. lia. Qed.
Lemma inject_nonneg z : (0 <= z)%Z → 0 <= inject_Z z.
Proof. intros Hz. by rewrite (Zle_Qle 0) in Hz. Qed.
Lemma elapsed_exact now last : small now → small last → (last <= now)%Z →
  fsub (of_int now) (of_int last) == inject_Z (now - last).
Proof.
  intros Hn Hl Hle. unfold fsub. rewrite !of_int_small by done. unfold small in *.
  assert (Heq : inject_Z now - inject_Z last == inject_Z (now - last)).
  { unfold Zminus. rewrite inject_Z_plus, inject_Z_opp. ring. }
  rewrite Heq. apply rnd_Z. lia.
Qed.

(** ** One refill *)
Section Refill.
Variable rate : Z.
Hypothesis rate_range : (1 <= rate <= 2 ^ 53)%Z.

Definition refill_of : Q := fdiv (of_int rate) 60.
Definition earned (now last : Z) : Q := fmul (fdiv (fsub (of_int now) (of_int last)) 1000) refill_of.
(** Tokens that pass in [ms] milliseconds, without rounding. *)
Definition exact_earned (ms : Z) : Q := inject_Z rate * inject_Z ms * (1 # 60000).

Lemma rate_small : small rate.
Proof. unfold small. lia. Qed.
Lemma rate_pos : 1 <= inject_Z rate.
Proof. destruct rate_range as [H _]. by rewrite Zle_Qle in H. Qed.

Lemma earned_bounds now last : small now → small last → (last <= now)%Z →
  exact_earned (now - last) * (1 - pow2 (- 51)) <= earned now last
  <= exact_earned (now - last) * (1 + pow2 (- 51)).
Proof.
  intros Hn Hl Hle. unfold earned, refill_of, exact_earned, fmul, fdiv.
  rewrite elapsed_exact, of_int_small by (done || apply rate_small).
  set (d := inject_Z (now - last)). set (r := inject_Z rate).
  assert (Hd : 0 <= d) by (apply inject_nonneg; lia). pose proof rate_pos as Hr. fold r in Hr.
  assert (Ha0 : 0 <= d / 1000) by (apply Qle_shift_div_l; lra).
  assert (Hb0 : 0 <= r / 60) by (apply Qle_shift_div_l; lra).
  pose proof (rnd_error _ Ha0) as [Ha1 Ha2]. pose proof (rnd_error _ Hb0) as [Hb1 Hb2].
  pose proof (rnd_nonneg _ Ha0). pose proof (rnd_nonneg _ Hb0).
  set (a := rnd (d / 1000)) in *. set (b := rnd (r / 60)) in *.
  assert (Hab : 0 <= a * b) by (by apply Qmult_le_0_compat).
  pose proof (rnd_error _ Hab) as [Hc1 Hc2].
  assert (Hx0 : 0 <= d / 1000 * (r / 60)) by (by apply Qmult_le_0_compat).
  assert (Heq : r * d * (1 # 60000) == d / 1000 * (r / 60)) by field.
  rewrite Heq. set (x := d / 1000) in *. set (y := r / 60) in *.
  assert (Hlo : (1 - pow2 (- 53)) * (1 - pow2 (- 53)) * (1 - pow2 (- 53)) >= 1 - pow2 (- 51)) by (vm_compute; congruence).
  assert (Hhi : (1 + pow2 (- 53)) * (1 + pow2 (- 53)) * (1 + pow2 (- 53)) <= 1 + pow2 (- 51)) by (vm_compute; congruence).
  assert (Hl0 : 0 <= 1 - pow2 (- 53)) by (vm_compute; congruence).
  assert (Hh0 : 0 <= 1 + pow2 (- 53)) by (vm_compute; congruence).
  set (lo := 1 - pow2 (- 53)) in *. set (hi := 1 + pow2 (- 53)) in *.
  split.
  - apply Qle_trans with (x * y * (lo * lo * lo)); [apply Qmult_le_compat_l; [done|by apply Qmult_le_0_compat]|].
    apply Qle_trans with (a * b * lo); [|done].
    assert (x * lo * (y * lo) <= a * b) by (apply Qmult_le_compat_nonneg; split; try done; by apply Qmult_le_0_compat).
    assert (Hs : x * y * (lo * lo * lo) == x * lo * (y * lo) * lo) by ring. rewrite Hs.
    by apply Qmult_le_compat_r.
  - apply Qle_trans with (a * b * hi); [done|].
    apply Qle_trans with (x * y * (hi * hi * hi)); [|apply Qmult_le_compat_l; [done|by apply Qmult_le_0_compat]].
    assert (a * b <= x * hi * (y * hi)) by (apply Qmult_le_compat_nonneg; by split).
    assert (Hs : x * y * (hi * hi * hi) == x * hi * (y * hi) * hi) by ring. rewrite Hs.
    by apply Qmult_le_compat_r.
Qed.

(** ** One evaluation *)
Definition max_admit_of : Z := ceil_to i64_max (of_int rate).
Definition evaluate (bucket : option (Q * Z)) (zset : gmap string Q) (now : Z)
    : list string * (Q * Z) * gmap string Q :=
  ADMIT_LUA bucket zset now refill_of (of_int rate) max_admit_of.
Definition filled (tokens : Q) (now last : Z) : Q :=
  let t := fadd tokens (earned now last) in if Qlt_le_dec (of_int rate) t then of_int rate else t.
Definition bucket_ok (b : Q * Z) : Prop := 0 <= b.1 <= inject_Z rate ∧ small b.2.

Lemma max_admit_rate : max_admit_of = rate.
Proof.
  unfold max_admit_of, ceil_to. rewrite (Qceiling_comp _ _ (of_int_small _ rate_small)), Qceiling_Z.
  unfold i64_max. lia.
Qed.
Lemma filled_bounds b now : bucket_ok b → small now → (b.2 <= now)%Z →
  0 <= filled b.1 now b.2 <= inject_Z rate
  ∧ filled b.1 now b.2 <= b.1 + exact_earned (now - b.2) * (1 + pow2 (- 51)) + inject_Z rate * ulp.
Proof.
  intros [[Ht0 Ht1] Hl] Hn Hle. pose proof (earned_bounds now b.2 Hn Hl Hle) as [He0 He1].
  unfold filled, fadd. set (x := earned now b.2) in *. pose proof rate_pos as Hr.
  assert (Hx : 0 <= x).
  { eapply Qle_trans; [|exact He0]. apply Qmult_le_0_compat; [|vm_compute; congruence].
    unfold exact_earned. apply Qmult_le_0_compat; [|lra].
    apply Qmult_le_0_compat; [lra|apply inject_nonneg; lia]. }
  destruct (capped_add rate b.1 x) as (H0 & H1 & H2); [lia|done|done|]. fold ulp in H1, H2.
  pose proof (of_int_small _ rate_small) as Hcap.
  destruct (Qlt_le_dec (of_int rate) (rnd (b.1 + x))) as [Hlt|Hge]; rewrite Hcap in *.
  - specialize (H2 Hlt). split; lra.
  - specialize (H1 Hge). split; lra.
Qed.

(** The members admitted, and what becomes of bucket and queue. *)
Lemma evaluate_cases b zset now :
  evaluate (Some b) zset now =
  let t := filled b.1 now b.2 in
  if Qlt_le_dec t 1 then ([], (t, now), zset)
  else
    let members := take (Z.to_nat (Z.min (Qfloor t) rate)) (line zset) in
    (members, (fsub t (of_int (Z.of_nat (length members))), now), zrem members zset).
Proof.
  unfold evaluate, ADMIT_LUA. cbn [from_option fst snd]. fold (earned now b.2). fold (filled b.1 now b.2).
  rewrite max_admit_rate. cbv zeta. destruct (Qlt_le_dec (filled b.1 now b.2) 1) as [|H1]; [done|].
  assert (Hf : (1 <= Qfloor (filled b.1 now b.2))%Z) by (apply (Qfloor_resp_le 1); done).
  assert (Hz : zrange0 (line zset) (Z.min (Qfloor (filled b.1 now b.2)) rate - 1)
    = take (Z.to_nat (Z.min (Qfloor (filled b.1 now b.2)) rate)) (line zset)).
  { unfold zrange0. destruct (Z.ltb_spec (Z.min (Qfloor (filled b.1 now b.2)) rate - 1) 0); [lia|].
    do 2 f_equal. lia. }
  by rewrite Hz.
Qed.

Lemma evaluate_bounds b zset now members b' zset' :
  bucket_ok b → small now → (b.2 <= now)%Z → evaluate (Some b) zset now = (members, b', zset') →
  bucket_ok b' ∧ b'.2 = now
  ∧ inject_Z (Z.of_nat (length members)) + b'.1
    <= b.1 + exact_earned (now - b.2) * (1 + pow2 (- 51)) + inject_Z rate * (2 * ulp).
Proof.
  intros Hb Hn Hle. rewrite evaluate_cases. destruct (filled_bounds b now Hb Hn Hle) as [[Hf0 Hf1] Hf2].
  set (t := filled b.1 now b.2) in *. cbv zeta. pose proof rate_pos as Hr.
  assert (Hu : 0 <= ulp) by (vm_compute; congruence).
  destruct (Qlt_le_dec t 1) as [H1|H1]; intros [= <- <- <-]; cbn [fst snd length].
  { split_and!; [by split|done|]. change (inject_Z (Z.of_nat 0)) with 0. nra. }
  set (l := take _ _). set (n := Z.of_nat (length l)).
  assert (Hfl : (1 <= Qfloor t)%Z) by (by apply (Qfloor_resp_le 1)).
  assert (Hn' : (0 <= n <= Qfloor t)%Z) by (subst n l; rewrite length_take; lia).
  assert (Hnt : inject_Z n <= t).
  { eapply Qle_trans; [|apply Qfloor_le]. rewrite <- Zle_Qle. lia. }
  assert (Hns : small n).
  { unfold small. pose proof (Qle_trans _ _ _ Hnt Hf1) as Hx. rewrite <- Zle_Qle in Hx. lia. }
  assert (Hn0 : 0 <= inject_Z n) by (apply inject_nonneg; lia).
  assert (Heq : fsub t (of_int n) == rnd (t - inject_Z n))
    by (unfold fsub; by rewrite (of_int_small _ Hns)).
  assert (Hd : 0 <= t - inject_Z n) by lra. pose proof (rnd_error _ Hd) as [_ Hd2].
  pose proof (rnd_nonneg _ Hd). change (pow2 (- 53)) with ulp in Hd2.
  unfold bucket_ok. cbn [fst snd]. rewrite Heq. split_and!; [done| |done|done|].
  - apply rnd_le_Z; [lia|]. lra.
  - nra.
Qed.

(** After a minute and a second somebody is admitted, if anybody waits. *)
Lemma evaluate_progress b zset now members b' zset' :
  bucket_ok b → small now → (b.2 + 61000 <= now)%Z → evaluate (Some b) zset now = (members, b', zset') →
  zset ≠ ∅ → ∃ head rest, line zset = head :: rest ∧ head ∈ members.
Proof.
  intros Hb Hn Hle. rewrite evaluate_cases.
  destruct (filled_bounds b now Hb Hn ltac:(lia)) as [[_ _] _]. pose proof rate_pos as Hr.
  assert (H1 : 1 <= filled b.1 now b.2).
  { destruct Hb as [[Hb0 _] Hl]. pose proof (earned_bounds now b.2 Hn Hl ltac:(lia)) as [He _].
    assert (Hms : 61000 <= inject_Z (now - b.2)) by (change 61000 with (inject_Z 61000); rewrite <- Zle_Qle; lia).
    assert (Hx : 61 # 60 <= exact_earned (now - b.2)) by (unfold exact_earned; nra).
    assert (Hc : 1 <= (61 # 60) * (1 - pow2 (- 51))) by (vm_compute; congruence).
    assert (Hp : 0 <= 1 - pow2 (- 51)) by (vm_compute; congruence).
    assert (Hy : 1 <= earned now b.2).
    { eapply Qle_trans; [exact Hc|]. eapply Qle_trans; [|exact He]. by apply Qmult_le_compat_r. }
    unfold filled, fadd. destruct (Qlt_le_dec _ _) as [|_].
    - by rewrite (of_int_small _ rate_small).
    - apply (rnd_ge_Z _ 1); [lia|]. change (inject_Z 1) with 1. lra. }
  cbv zeta. destruct (Qlt_le_dec _ 1) as [Hlt|_]; [lra|]. intros [= <- <- <-] Hne.
  assert (Hfl : (1 <= Qfloor (filled b.1 now b.2))%Z) by (by apply (Qfloor_resp_le 1)).
  destruct (line zset) as [|head rest] eqn:Hline.
  - exfalso. apply Hne. apply map_to_list_empty_iff. unfold line in Hline.
    apply fmap_nil_inv in Hline. apply Permutation_nil. by rewrite <- Hline, merge_sort_Permutation.
  - exists head, rest. split; [done|].
    destruct (Z.to_nat _) eqn:Hz; [lia|]. cbn. by left.
Qed.
End Refill.
