(* ===== verification/WaitRuns.v ===== *)
(** * Waiting room: interleavings

    Whatever programs run, on however many servers, what Redis sees is a
    sequence of commands.  The theorems of this file hold for every such
    sequence: nobody is overtaken, and admissions are bounded. *)

From Stdlib Require Import QArith Qround Lqa.
From S2P Require Import Prelude Prog Machine Float ZkBytes WaitQueue WaitBucket.
#[local] Open Scope Z_scope.

(** ** The line *)
#[export] Instance member_le_total : Total member_le.
Proof.
  intros a b. unfold member_le.
  destruct (Qlt_le_dec a.2 b.2) as [|H1]; [by left; left|].
  destruct (Qlt_le_dec b.2 a.2) as [|H2]; [by right; left|].
  assert (He : (a.2 == b.2)%Q) by lra.
  destruct (total String.le a.1 b.1); [left|right]; right; (split; [lra|done]).
Qed.
#[export] Instance member_le_trans : Transitive member_le.
Proof.
  intros a b c [H1|[H1 H1']] [H2|[H2 H2']]; unfold member_le; [left; lra|left; lra|left; lra|].
  right. split; [lra|]. by transitivity b.1.
Qed.

Lemma line_permutation zset : line zset ≡ₚ (map_to_list zset).*1.
Proof. unfold line. by rewrite merge_sort_Permutation. Qed.
Lemma elem_of_line zset c : c ∈ line zset ↔ is_Some (zset !! c).
Proof.
  rewrite line_permutation, list_elem_of_fmap. split.
  - intros ([c' s] & -> & Hin). apply elem_of_map_to_list in Hin. by exists s.
  - intros [s Hs]. exists (c, s). split; [done|]. by apply elem_of_map_to_list.
Qed.
Lemma NoDup_line zset : NoDup (line zset).
Proof. rewrite line_permutation. apply NoDup_fst_map_to_list. Qed.
Lemma length_line zset : length (line zset) = size zset.
Proof. rewrite line_permutation, length_fmap. apply length_map_to_list. Qed.

Lemma sorted_lookup {A} (R : relation A) `{!Transitive R} l i j x y :
  Sorted R l → (i < j)%nat → l !! i = Some x → l !! j = Some y → R x y.
Proof.
  intros Hs%Sorted_StronglySorted; [|done]. revert i j. induction Hs as [|z l Hs IH Hz]; intros i j Hij Hi Hj; [done|].
  destruct j as [|j]; [lia|]. destruct i as [|i]; cbn in *.
  - injection Hi as ->. rewrite Forall_forall in Hz. apply Hz. by eapply list_elem_of_lookup_2.
  - apply (IH i j); [lia|done|done].
Qed.

(** Lower scores come first. *)
Lemma line_order zset a b sa sb j :
  zset !! a = Some sa → zset !! b = Some sb → (sa < sb)%Q → line zset !! j = Some b →
  ∃ i, (i < j)%nat ∧ line zset !! i = Some a.
Proof.
  intros Ha Hb Hlt Hj. set (l := merge_sort member_le (map_to_list zset)).
  assert (Hla : (a, sa) ∈ l) by (unfold l; rewrite merge_sort_Permutation; by apply elem_of_map_to_list).
  apply list_elem_of_lookup in Hla as [i Hi].
  assert (Hli : line zset !! i = Some a) by (unfold line; fold l; by rewrite list_lookup_fmap, Hi).
  assert (Hlj : l !! j = Some (b, sb)).
  { unfold line in Hj. fold l in Hj. rewrite list_lookup_fmap in Hj.
    destruct (l !! j) as [[b' s]|] eqn:E; [|done]. injection Hj as ->. do 2 f_equal.
    apply list_elem_of_lookup_2 in E. unfold l in E. rewrite merge_sort_Permutation in E.
    apply elem_of_map_to_list in E. congruence. }
  exists i. split; [|done]. destruct (Nat.lt_trichotomy i j) as [|[->|Hgt]]; [done| |].
  - rewrite Hi in Hlj. injection Hlj as -> ->. lra.
  - exfalso. assert (Hle : member_le (b, sb) (a, sa)).
    { eapply (sorted_lookup member_le l); [apply Sorted_merge_sort; apply _|exact Hgt|done|done]. }
    destruct Hle as [H|[H _]]; cbn in H; lra.
Qed.
Lemma lookup_zrem members zset c :
  zrem members zset !! c = if decide (c ∈ members) then None else zset !! c.
Proof.
  unfold zrem. induction members as [|m members IH]; cbn [foldr].
  - by rewrite decide_False by apply not_elem_of_nil.
  - destruct (decide (c = m)) as [->|Hne].
    + rewrite lookup_delete_eq, decide_True; [done|by left].
    + rewrite lookup_delete_ne, IH by done. destruct (decide (c ∈ members)).
      * rewrite decide_True; [done|by right].
      * rewrite decide_False; [done|]. rewrite elem_of_cons. tauto.
Qed.
Lemma lua_members bucket zset now refill capacity m members b zset' :
  ADMIT_LUA bucket zset now refill capacity m = (members, b, zset') →
  (∃ n, members = take n (line zset)) ∧ zset' = zrem members zset.
Proof.
  unfold ADMIT_LUA. cbv zeta. destruct (Qlt_le_dec _ 1); intros [= <- <- <-].
  - split; [by exists 0%nat|done].
  - split; [by eexists|done].
Qed.

(** ** Sequences of commands *)
Record act : Type := Act { at_time : Z; drawn : bytes; answer : Type; command : cmd answer }.
Arguments Act at_time drawn {answer} command.

(** Who is admitted, and to which event. *)
Definition admitted_by {R} (c : cmd R) : R → list (string * string) :=
  match c in cmd R return R → list (string * string) with
  | EvalAdmit e _ _ _ _ => λ members, (λ m, (e, m)) <$> members
  | _ => λ _, []
  end.
Definition act_once (a : act) (w : World) : World * list (string * string) :=
  match exec (at_time a) (drawn a) (command a) w with
  | Some (r, w') => (w', admitted_by (command a) r)
  | None => (w, [])
  end.
Fixpoint commands (l : list act) (w : World) : World * list (string * string) :=
  match l with
  | [] => (w, [])
  | a :: l =>
      let ' (w1, adm1) := act_once a w in
      let ' (w2, adm2) := commands l w1 in (w2, adm1 ++ adm2)
  end.

(** ** Nobody is overtaken *)
Definition ahead (w : World) (e a b : string) : Prop :=
  ∃ sa sb, queue_of w e !! a = Some sa ∧ queue_of w e !! b = Some sb ∧ (sa < sb)%Q.

Lemma queue_of_insert w e e' q :
  queue_of (w ⟨ queues ::= <[e := q]> ⟩) e' = if decide (e' = e) then q else queue_of w e'.
Proof.
  unfold queue_of. unfold upd. cbn. destruct (decide (e' = e)) as [->|].
  - by rewrite lookup_insert_eq.
  - by rewrite lookup_insert_ne by congruence.
Qed.

Lemma exec_ahead {R} now draw (c : cmd R) w r w' e a b :
  exec now draw c w = Some (r, w') → ahead w e a b →
  (∀ adm1 adm2, admitted_by c r = adm1 ++ (e, b) :: adm2 → (e, a) ∈ adm1)
  ∧ (ahead w' e a b ∨ (e, a) ∈ admitted_by c r).
Proof.
  intros He Ha.
  assert (Hnil : ∀ adm1 adm2, [] = adm1 ++ (e, b) :: adm2 → (e, a) ∈ adm1)
    by (intros [|] ?; discriminate).
  destruct c; cbn in He |- *; simplify_eq;
    try (split; [exact Hnil|left; exact Ha]).
  - destruct (_ <? _); simplify_eq. split; [exact Hnil|left; exact Ha].
  - destruct (queue_of w event_id !! client_id) eqn:Eq; simplify_eq; (split; [exact Hnil|left]); [exact Ha|].
    destruct Ha as (sa & sb & H1 & H2 & H3). exists sa, sb.
    rewrite queue_of_insert. destruct (decide (e = event_id)) as [->|]; [|done].
    rewrite !lookup_insert_ne by congruence. done.
  - destruct (rates w !! event_id); simplify_eq; (split; [exact Hnil|left; exact Ha]).
  - destruct (ADMIT_LUA _ _ _ _ _ _) as [[members bk] zset'] eqn:EL. simplify_eq.
    apply lua_members in EL as [[n Hm] ->]. destruct Ha as (sa & sb & H1 & H2 & H3).
    destruct (decide (e = event_id)) as [->|Hne].
    + split.
      * intros adm1 adm2 Hadm.
        assert (Hb : ((λ m, (event_id, m)) <$> r) !! length adm1 = Some (event_id, b))
          by (by rewrite Hadm, list_lookup_middle).
        rewrite list_lookup_fmap in Hb. destruct (r !! length adm1) as [b'|] eqn:Er; [|done].
        injection Hb as ->. rewrite Hm in Er. apply lookup_take_Some in Er as [Er Hlen].
        destruct (line_order _ _ _ _ _ _ H1 H2 H3 Er) as (i & Hi & Hai).
        assert (Hr : r !! i = Some a) by (rewrite Hm; apply lookup_take_Some; split; [done|lia]).
        assert (Hai' : (adm1 ++ (event_id, b) :: adm2) !! i = Some (event_id, a))
          by (rewrite <- Hadm, list_lookup_fmap, Hr; done).
        rewrite lookup_app_l in Hai' by done. by eapply list_elem_of_lookup_2.
      * destruct (decide (a ∈ r)) as [Hin|Hnin].
        { right. apply list_elem_of_fmap. by exists a. }
        left. exists sa, sb. rewrite queue_of_insert, decide_True by done.
        rewrite !lookup_zrem, decide_False by done. split_and!; [done| |done].
        rewrite decide_False; [done|]. intros Hb. apply Hnin. rewrite Hm in Hb |- *.
        apply list_elem_of_lookup in Hb as [j Hj]. apply lookup_take_Some in Hj as [Hj Hjn].
        destruct (line_order _ _ _ _ _ _ H1 H2 H3 Hj) as (i & Hi & Hai).
        apply list_elem_of_lookup. exists i. apply lookup_take_Some. split; [done|lia].
    + split.
      * intros adm1 adm2 Hadm. exfalso.
        assert (Hb : (e, b) ∈ (λ m, (event_id, m)) <$> r)
          by (rewrite Hadm; apply elem_of_app; right; by left).
        apply list_elem_of_fmap in Hb as (? & [= ? ?] & _). done.
      * left. exists sa, sb. rewrite queue_of_insert, decide_False by done. done.
Qed.

(** C33. Nobody is overtaken: if [a] is ahead of [b] in the queue of an event,
    then in every continuation, whatever commands any number of servers send,
    [b] is admitted only after [a] was. *)
Theorem no_overtaking l w w' adm e a b adm1 adm2 :
  ahead w e a b → commands l w = (w', adm) → adm = adm1 ++ (e, b) :: adm2 → (e, a) ∈ adm1.
Proof.
  revert w adm adm1. induction l as [|x l IH]; intros w adm adm1 Ha Hc Hadm; cbn in Hc.
  { simplify_eq. by destruct adm1. }
  destruct (act_once x w) as [w1 l1] eqn:E1. destruct (commands l w1) as [w2 l2] eqn:E2.
  injection Hc as <- <-.
  assert (Hx : (∀ k1 k2, l1 = k1 ++ (e, b) :: k2 → (e, a) ∈ k1) ∧ (ahead w1 e a b ∨ (e, a) ∈ l1)).
  { unfold act_once in E1. destruct (exec _ _ _ _) as [[r w1']|] eqn:Ex; simplify_eq.
    - by eapply exec_ahead.
    - split; [|by left]. intros [|] ?; discriminate. }
  destruct Hx as [H1 H2]. apply app_eq_inv in Hadm as [(k & Hk & Hr)|(k & Hk & Hr)].
  - destruct k as [|y k]; cbn in Hr.
    + rewrite app_nil_r in Hk. subst l1. destruct H2 as [H2|]; [|done].
      apply (IH w1 l2 []) in H2; [|done|done]. by apply not_elem_of_nil in H2.
    + simplify_eq. by eapply H1.
  - subst adm1. apply elem_of_app. destruct H2 as [H2|]; [right|by left].
    by eapply (IH w1 l2 k).
Qed.

(** ** Admissions are bounded *)

(** The arguments of an evaluation of the script for [e]. *)
Definition script_args {R} (e : string) (c : cmd R) : option (Z * Q * Q * Z) :=
  match c with
  | EvalAdmit e' now refill capacity m => if decide (e' = e) then Some (now, refill, capacity, m) else None
  | _ => None
  end.
(** The evaluations for [e] are those of the worker at the rate [rate], one
    after the other from [last] on until [until] at most; their number. *)
Fixpoint calls (rate : Z) (e : string) (last until : Z) (l : list act) : Prop :=
  match l with
  | [] => True
  | a :: l =>
      match script_args e (command a) with
      | Some (now, refill, capacity, m) =>
          last ≤ now ≤ until ∧ refill = refill_of rate ∧ capacity = of_int rate ∧ m = max_admit_of rate
          ∧ calls rate e now until l
      | None => calls rate e last until l
      end
  end.
Fixpoint evaluations (e : string) (l : list act) : nat :=
  match l with
  | [] => 0
  | a :: l => (if script_args e (command a) then 1 else 0) + evaluations e l
  end.
Definition admissions (e : string) (adm : list (string * string)) : list (string * string) :=
  filter (λ p, p.1 = e) adm.

Lemma admissions_fmap e e' r :
  admissions e ((λ m, (e', m)) <$> r) = if decide (e' = e) then (λ m, (e', m)) <$> r else [].
Proof.
  unfold admissions. induction r as [|m r IH]; [by case_decide|]. cbn [fmap list_fmap]. rewrite filter_cons. cbn [fst].
  change (list_fmap _ _ _ r) with ((λ m, (e', m)) <$> r). rewrite IH. by repeat case_decide.
Qed.

(** Other commands leave the bucket alone and admit nobody. *)
Lemma exec_other {R} now draw (c : cmd R) w r w' e :
  script_args e c = None → exec now draw c w = Some (r, w') →
  buckets w' !! e = buckets w !! e ∧ admissions e (admitted_by c r) = [].
Proof.
  intros Hs He. destruct c; cbn [script_args exec admitted_by] in Hs, He |- *; simplify_eq; try done.
  - destruct (_ <? _); by simplify_eq.
  - destruct (queue_of w event_id !! client_id); by simplify_eq.
  - destruct (rates w !! event_id); by simplify_eq.
  - destruct (decide (event_id = e)); [done|].
    destruct (ADMIT_LUA _ _ _ _ _ _) as [[members bk] zset']. simplify_eq. cbn [buckets upd].
    split; [by apply lookup_insert_ne|]. by rewrite admissions_fmap, decide_False.
Qed.
Lemma exec_script {R} now draw (c : cmd R) w r w' e at_ms refill capacity m :
  script_args e c = Some (at_ms, refill, capacity, m) → exec now draw c w = Some (r, w') →
  ∃ members b zset, ADMIT_LUA (buckets w !! e) (queue_of w e) at_ms refill capacity m = (members, b, zset)
    ∧ buckets w' !! e = Some b ∧ length (admissions e (admitted_by c r)) = length members.
Proof.
  intros Hs He. destruct c; cbn [script_args exec admitted_by] in Hs, He |- *; simplify_eq.
  destruct (decide (event_id = e)) as [->|]; [|done]. simplify_eq.
  destruct (ADMIT_LUA _ _ _ _ _ _) as [[members bk] zset'] eqn:EL. simplify_eq.
  exists r, bk, zset'. split_and!; [done|by apply lookup_insert_eq|].
  by rewrite admissions_fmap, decide_True, length_fmap.
Qed.
Lemma admissions_app e l k : admissions e (l ++ k) = admissions e l ++ admissions e k.
Proof. apply filter_app. Qed.

Section Bounded.
Variable rate : Z.
Hypothesis rate_range : 1 ≤ rate ≤ 2 ^ 53.
#[local] Open Scope Q_scope.

(** The bucket of [e] as a history that reached [last] leaves it. *)
Definition bucket_at (w : World) (e : string) (last : Z) (tokens : Q) : Prop :=
  (buckets w !! e = None ∧ tokens = 0)
  ∨ (buckets w !! e = Some (tokens, last) ∧ 0 <= tokens <= inject_Z rate).

Lemma exact_earned_add a b : exact_earned rate (a + b) == exact_earned rate a + exact_earned rate b.
Proof. unfold exact_earned. rewrite inject_Z_plus. ring. Qed.
Lemma exact_earned_nonneg a : (0 <= a)%Z → 0 <= exact_earned rate a.
Proof.
  intros Ha. unfold exact_earned. pose proof (rate_pos _ rate_range). pose proof (inject_nonneg _ Ha). nra.
Qed.

Lemma commands_bounded l w w' adm e last until tokens :
  small last → (until <= 2 ^ 53)%Z → (last <= until)%Z → bucket_at w e last tokens →
  calls rate e last until l → commands l w = (w', adm) →
  inject_Z (Z.of_nat (length (admissions e adm)))
  <= tokens + exact_earned rate (until - last) * (1 + pow2 (- 51))
     + inject_Z (Z.of_nat (evaluations e l)) * (inject_Z rate * (2 * ulp)).
Proof.
  revert w adm last tokens. induction l as [|x l IH]; intros w adm last tokens Hl Hu Hlu Hb Hc Hrun; cbn in Hrun.
  { injection Hrun as <- <-. pose proof (exact_earned_nonneg (until - last) ltac:(lia)) as He.
    assert (Hp : 0 <= 1 + pow2 (- 51)) by (vm_compute; congruence).
    pose proof (Qmult_le_0_compat _ _ He Hp). change (inject_Z (Z.of_nat (evaluations e []))) with 0.
    change (inject_Z (Z.of_nat (length (admissions e [])))) with 0.
    assert (0 <= tokens) by (destruct Hb as [[_ ->]|[_ ?]]; lra). lra. }
  destruct (act_once x w) as [w1 l1] eqn:E1. destruct (commands l w1) as [w2 l2] eqn:E2.
  injection Hrun as <- <-.
  rewrite admissions_app, length_app, Nat2Z.inj_add, inject_Z_plus. cbn [calls evaluations] in *.
  destruct (script_args e (command x)) as [[[[now refill] capacity] m]|] eqn:Es.
  - destruct Hc as (Hnow & -> & -> & -> & Hc). unfold act_once in E1.
    assert (Hex : ∃ r, exec (at_time x) (drawn x) (command x) w = Some (r, w1) ∧ l1 = admitted_by (command x) r).
    { destruct (exec _ _ _ _) as [[r w1']|] eqn:Ex; simplify_eq; [by eexists|].
      exfalso. destruct (command x); cbn in Es, Ex; try discriminate.
      by destruct (ADMIT_LUA _ _ _ _ _ _) as [[? ?] ?]. }
    destruct Hex as (r & Hex & ->).
    destruct (exec_script _ _ _ _ _ _ _ _ _ _ _ Es Hex) as (members & b & zset & HL & Hb1 & ->).
    assert (Hsn : small now) by (unfold small in *; lia).
    assert (Hev : bucket_ok rate b ∧ b.2 = now ∧ inject_Z (Z.of_nat (length members)) + b.1
      <= tokens + exact_earned rate (now - last) * (1 + pow2 (- 51)) + inject_Z rate * (2 * ulp)).
    { destruct Hb as [[Hn ->]|[Hs Ht]].
      - rewrite Hn in HL.
        destruct (evaluate_bounds rate rate_range (0, now) (queue_of w e) now members b zset) as (H1 & H2 & H3);
          [split; [cbn; pose proof (rate_pos _ rate_range); lra|done]|done|cbn; lia|exact HL|].
        split_and!; [done|done|]. cbn [fst snd] in H3. rewrite Z.sub_diag in H3.
        pose proof (exact_earned_nonneg (now - last) ltac:(lia)).
        assert (Hz : exact_earned rate 0 == 0) by (unfold exact_earned; change (inject_Z 0) with 0; ring).
        rewrite Hz in H3. assert (0 <= 1 + pow2 (- 51)) by (vm_compute; congruence). nra.
      - rewrite Hs in HL.
        destruct (evaluate_bounds rate rate_range (tokens, last) (queue_of w e) now members b zset) as (H1 & H2 & H3);
          [by split|done|cbn; lia|exact HL|]. done. }
    destruct Hev as (Hok & Hb2 & Hle).
    pose proof (IH w1 l2 now b.1 Hsn Hu ltac:(lia)) as Hrec.
    specialize (Hrec ltac:(right; split; [rewrite Hb1; f_equal; destruct b; cbn in *; congruence|apply Hok])).
    specialize (Hrec Hc E2).
    assert (Hsplit : exact_earned rate (until - last) == exact_earned rate (until - now) + exact_earned rate (now - last)).
    { rewrite <- exact_earned_add. f_equiv. lia. }
    rewrite Hsplit, Nat2Z.inj_add, inject_Z_plus. change (inject_Z (Z.of_nat 1)) with 1. lra.
  - assert (Hw1 : buckets w1 !! e = buckets w !! e ∧ admissions e l1 = []).
    { unfold act_once in E1. destruct (exec _ _ _ _) as [[r w1']|] eqn:Ex; simplify_eq; [|done].
      by eapply exec_other. }
    destruct Hw1 as [Hw1 ->]. change (inject_Z (Z.of_nat (length []))) with 0. cbn [Nat.add].
    rewrite Qplus_0_l. apply (IH w1 l2 last tokens); try done. unfold bucket_at in *. by rewrite Hw1.
Qed.
End Bounded.

