(* ===== verification/WaitSpecs.v ===== *)
(** * Waiting room: joining and sweeping

    Keys, the operations of the engine when they run alone, and the invariant
    that the worker relies on; at the end, runs and schedules. *)

From Stdlib Require Import Ascii QArith Qround Lqa.
From stdpp Require Import pretty.
From S2P Require Import Prelude Machine Float Prog ZkBytes WaitPow.
From S2P Require Import WaitQueue WaitRoom WaitBucket WaitRuns.
#[local] Open Scope Z_scope.

(** ** Keys *)
Inductive key : Type :=
| KZset (e : string) | KSeq (e : string) | KConfig (e : string) | KBucket (e : string)
| KGrant (e c : string) | KActive | KPow (ch : string).
Definition key_text (k : key) : string :=
  match k with
  | KZset e => queue_zset_key e
  | KSeq e => queue_seq_key e
  | KConfig e => queue_config_key e
  | KBucket e => queue_bucket_key e
  | KGrant e c => grant_key e c
  | KActive => ACTIVE_EVENTS_KEY
  | KPow ch => pow_challenge_key ch
  end.
Fixpoint no_colon (s : string) : Prop :=
  match s with EmptyString => True | String a s => a ≠ ":"%char ∧ no_colon s end.
Definition key_event (k : key) : string :=
  match k with
  | KZset e | KSeq e | KConfig e | KBucket e | KGrant e _ => e
  | KActive | KPow _ => EmptyString
  end.

Lemma split_colon e1 e2 r1 r2 : no_colon e1 → no_colon e2 →
  String.append e1 (String ":" r1) = String.append e2 (String ":" r2) → e1 = e2 ∧ r1 = r2.
Proof.
  revert e2. induction e1 as [|a e1 IH]; intros [|b e2] H1 H2 Heq; cbn in *; simplify_eq; try tauto.
  destruct (IH e2) as [-> ->]; tauto.
Qed.
Lemma append_colon e r s : no_colon s → String.append e (String ":" r) ≠ s.
Proof.
  revert s. induction e as [|a e IH]; intros [|b s] Hs Heq; cbn in *; try discriminate.
  - injection Heq as <- _. by destruct Hs.
  - injection Heq as <- Heq. destruct Hs. by eapply IH.
Qed.

(** Keys of events whose ids have no colon are told apart by their texts. *)
Lemma keys_distinct k k' :
  no_colon (key_event k) → no_colon (key_event k') → key_text k = key_text k' → k = k'.
Proof.
  intros H H' Heq.
  assert (Hact : no_colon "active") by (cbn; by split_and!).
  assert (Hn : ∀ e r, no_colon e → String.append e (String ":" r) ≠ "active")
    by (intros; by apply append_colon).
  destruct k, k'; cbn in H, H', Heq; try discriminate Heq; try (injection Heq as Heq; cbn in Heq);
    try (by exfalso; apply (Hn _ _ H Heq)); try (by exfalso; apply (Hn _ _ H' (eq_sym Heq)));
    try (apply split_colon in Heq as [? Hr]; [|done..]; by simplify_eq); by simplify_eq.
Qed.

(** ** Programs that run alone *)
Section Alone.
Context `{Sha256} `{Tokens}.

(** Scores stay below the next number of the counter, and every queue with
    somebody in it is swept. *)
Definition queue_ok (w : World) (e : string) : Prop :=
  let n := default 0 (seqs w !! e) in
  0 ≤ n ∧ ∀ c s, queue_of w e !! c = Some s → (s <= inject_Z n)%Q.
Definition swept (w : World) : Prop := ∀ e, queue_of w e ≠ ∅ → e ∈ active w.
Definition room_ok (w : World) : Prop := (∀ e, queue_ok w e) ∧ swept w.

(** ** Joining *)
Lemma sorted_members zset : StronglySorted member_le (merge_sort member_le (map_to_list zset)).
Proof. apply Sorted_StronglySorted; [apply _|]. apply Sorted_merge_sort. apply _. Qed.
Lemma line_snoc zset c s : zset !! c = None → (∀ c' s', zset !! c' = Some s' → (s' < s)%Q) →
  line (<[c := s]> zset) = line zset ++ [c].
Proof.
  intros Hc Hs. unfold line.
  assert (Hperm : merge_sort member_le (map_to_list (<[c := s]> zset))
                  ≡ₚ merge_sort member_le (map_to_list zset) ++ [(c, s)]).
  { rewrite !merge_sort_Permutation, map_to_list_insert by done. apply Permutation_cons_append. }
  assert (Heq : merge_sort member_le (map_to_list (<[c := s]> zset))
                = merge_sort member_le (map_to_list zset) ++ [(c, s)]).
  { apply (StronglySorted_unique_strong member_le); [|apply sorted_members| |done].
    - intros [c1 s1] [c2 s2] H1 H2 [Hlt|[Heq Hle]] [Hlt'|[Heq' Hle']]; cbn [fst snd] in *; try lra.
      assert (Hcc : c1 = c2) by (by apply (anti_symm String.le)). subst c2. f_equal.
      rewrite <- Hperm in H2. rewrite !merge_sort_Permutation in H1, H2.
      apply elem_of_map_to_list in H1, H2. congruence.
    - apply StronglySorted_app_2; [|apply sorted_members|by repeat constructor].
      intros [c' s'] x Hin Hx. rewrite list_elem_of_singleton in Hx. subst x.
      rewrite merge_sort_Permutation in Hin. apply elem_of_map_to_list in Hin. left. by apply (Hs c'). }
  rewrite Heq. by rewrite fmap_app.
Qed.
Lemma list_find_line zset c i : line zset !! i = Some c → list_find (λ m, m = c) (line zset) = Some (i, c).
Proof.
  intros Hi. apply list_find_Some. split_and!; [done|done|]. intros j y Hj Hlt ->.
  pose proof (NoDup_lookup _ _ _ _ (NoDup_line zset) Hi Hj). lia.
Qed.
Lemma zrank_line zset c i : line zset !! i = Some c → zrank zset c = Some (Z.of_nat i).
Proof. intros Hi. unfold zrank. by rewrite (list_find_line _ _ _ Hi). Qed.
Lemma zrank_queued zset c : is_Some (zset !! c) → ∃ i, line zset !! i = Some c ∧ zrank zset c = Some (Z.of_nat i).
Proof.
  intros Hc. apply elem_of_line in Hc. apply list_elem_of_lookup in Hc as [i Hi]. exists i.
  split; [done|by apply zrank_line].
Qed.

Definition enqueued (w : World) (e c : string) : World :=
  let n := default 0 (seqs w !! e) + 1 in
  let w := w ⟨ seqs ::= <[e := n]> ⟩ in
  match queue_of w e !! c with
  | Some _ => w
  | None => w ⟨ queues ::= <[e := <[c := of_int n]> (queue_of w e)]> ⟩
  end.
Definition swept_at (w : World) (e : string) (rate : Z) : World :=
  let w := w ⟨ active ::= λ s, s ∪ {[e]} ⟩ in
  match rates w !! e with Some _ => w | None => w ⟨ rates ::= <[e := rate]> ⟩ end.

Lemma run_join now draw e c rate w :
  0 < rate → default 0 (seqs w !! e) < i64_max → live now (grants w !! (e, c)) = None →
  run now draw (join e c rate) w =
  let w' := swept_at (enqueued w e c) e rate in
  let position := from_option (λ r, r + 1) 1 (zrank (queue_of w' e) c) in
  (Ok (MkStatus IsWaiting (Some position) (Z.of_nat (size (queue_of w' e)))
         (Some (estimated_wait_seconds position rate)) None), w').
Proof.
  intros Hr Hn Hl. unfold join. destruct (Z.eqb_spec rate 0); [lia|].
  cbn [grant_for call_or bind prun exec]. rewrite Hl. cbn [call_or prun exec].
  destruct (Z.ltb_spec (default 0 (seqs w !! e)) i64_max); [|lia].
  cbn [call_or prun exec]. unfold enqueued, swept_at. cbv zeta.
  set (w1 := w ⟨ seqs ::= _ ⟩). destruct (queue_of w1 e !! c) eqn:Eq.
  - cbn [call_or prun exec]. set (w2 := w1 ⟨ active ::= _ ⟩).
    destruct (rates w2 !! e) eqn:Er; cbn [call_or prun exec queue_size_of bind]; by rewrite Z.max_l by lia.
  - cbn [call_or prun exec]. set (w2 := _ ⟨ active ::= _ ⟩).
    destruct (rates w2 !! e) eqn:Er; cbn [call_or prun exec queue_size_of bind]; by rewrite Z.max_l by lia.
Qed.

Lemma swept_at_fields w e rate :
  queues (swept_at w e rate) = queues w ∧ seqs (swept_at w e rate) = seqs w
  ∧ active (swept_at w e rate) = active w ∪ {[e]}.
Proof. unfold swept_at. cbv zeta. by destruct (rates _ !! e). Qed.
Lemma enqueued_seqs w e c : seqs (enqueued w e c) = <[e := default 0 (seqs w !! e) + 1]> (seqs w).
Proof. unfold enqueued. cbv zeta. by destruct (queue_of _ e !! c). Qed.
Lemma enqueued_active w e c : active (enqueued w e c) = active w.
Proof. unfold enqueued. cbv zeta. by destruct (queue_of _ e !! c). Qed.
Lemma enqueued_queue w e c e' :
  queue_of (enqueued w e c) e' =
  if decide (e' = e ∧ queue_of w e !! c = None)
  then <[c := of_int (default 0 (seqs w !! e) + 1)]> (queue_of w e) else queue_of w e'.
Proof.
  unfold enqueued. cbv zeta. set (w1 := w ⟨ seqs ::= _ ⟩). change (queue_of w1 e) with (queue_of w e).
  destruct (queue_of w e !! c) as [s|] eqn:Eq.
  - rewrite decide_False; [done|]. by intros [_ ?].
  - rewrite queue_of_insert. destruct (decide (e' = e)) as [->|]; [by rewrite decide_True|].
    rewrite decide_False; [done|]. by intros [? _].
Qed.

Lemma enqueued_ok w e c e' : queue_ok w e' → default 0 (seqs w !! e) < 2 ^ 53 → queue_ok (enqueued w e c) e'.
Proof.
  intros [Hn Hs] Hlt. unfold queue_ok. rewrite enqueued_seqs, enqueued_queue.
  destruct (decide (e' = e)) as [->|Hne].
  - rewrite lookup_insert_eq. cbn [default from_option id]. set (n := default 0 (seqs w !! e)) in *.
    assert (Hq : (inject_Z n <= inject_Z (n + 1))%Q) by (rewrite <- Zle_Qle; lia).
    split; [lia|]. intros c' s. destruct (decide _) as [[_ Hc]|_].
    + intros [[-> <-]|[_ Hc']]%lookup_insert_Some.
      * rewrite of_int_small by (unfold small; lia). lra.
      * specialize (Hs _ _ Hc'). lra.
    + intros Hc'. specialize (Hs _ _ Hc'). lra.
  - rewrite lookup_insert_ne by done. split; [done|]. rewrite decide_False by (by intros [? _]). done.
Qed.
Lemma join_swept w e c rate : swept w → swept (swept_at (enqueued w e c) e rate).
Proof.
  intros Hw e' Hq. destruct (swept_at_fields (enqueued w e c) e rate) as (Hqs & _ & ->).
  unfold queue_of in Hq. rewrite Hqs in Hq. change (queue_of (enqueued w e c) e' ≠ ∅) in Hq.
  rewrite enqueued_queue in Hq. rewrite enqueued_active. destruct (decide (e' = e)) as [->|Hne]; [set_solver|].
  rewrite decide_False in Hq by (by intros [? _]). specialize (Hw _ Hq). set_solver.
Qed.
End Alone.

(** Joining is fair and idempotent: a client who holds a grant gets it back
    and changes nothing; a client already in line keeps the place; any other is
    put last.  The position reported is the place in line, the event is swept by
    the worker afterwards, and the invariant of the room is kept. *)
Theorem join_correct `{Tokens} now draw e c rate w :
  room_ok w → 0 < rate → default 0 (seqs w !! e) < 2 ^ 53 →
  let ' (r, w') := run now draw (join e c rate) w in
  room_ok w' ∧
  match live now (grants w !! (e, c)) with
  | Some token =>
      w' = w ∧ r = Ok (MkStatus IsAdmitted None (Z.of_nat (size (queue_of w e))) (Some 0) (Some token))
  | None =>
      e ∈ active w'
      ∧ line (queue_of w' e)
        = (if decide (is_Some (queue_of w e !! c)) then line (queue_of w e) else line (queue_of w e) ++ [c])
      ∧ ∃ i, line (queue_of w' e) !! i = Some c
        ∧ r = Ok (MkStatus IsWaiting (Some (Z.of_nat i + 1)) (Z.of_nat (size (queue_of w' e)))
                    (Some (estimated_wait_seconds (Z.of_nat i + 1) rate)) None)
  end.
Proof.
  intros [Hok Hsw] Hr Hn. destruct (live now (grants w !! (e, c))) as [token|] eqn:Hl.
  { unfold join. destruct (Z.eqb_spec rate 0); [lia|]. cbn [grant_for call_or bind prun exec]. rewrite Hl.
    cbn [admitted_status queue_size_of call_or bind prun exec]. rewrite Z.max_l by lia. by split_and!. }
  rewrite run_join by (done || unfold i64_max; lia). cbv zeta.
  destruct (swept_at_fields (enqueued w e c) e rate) as (Hqs & Hss & Has).
  assert (Hq : ∀ e', queue_of (swept_at (enqueued w e c) e rate) e' = queue_of (enqueued w e c) e')
    by (intros; unfold queue_of; by rewrite Hqs).
  assert (Hline : line (queue_of (enqueued w e c) e)
    = if decide (is_Some (queue_of w e !! c)) then line (queue_of w e) else line (queue_of w e) ++ [c]).
  { rewrite enqueued_queue. destruct (queue_of w e !! c) as [s|] eqn:Eq.
    - rewrite decide_False, decide_True by (done || by intros [_ ?]). done.
    - rewrite decide_True, decide_False by (done || by intros [? ?]).
      apply line_snoc; [done|]. intros c' s' Hc'. destruct (Hok e) as [Hn0 Hs]. specialize (Hs _ _ Hc').
      rewrite of_int_small by (unfold small; lia). rewrite inject_Z_plus. change (inject_Z 1) with 1%Q. lra. }
  assert (Hin : is_Some (queue_of (enqueued w e c) e !! c)).
  { apply elem_of_line. rewrite Hline. case_decide; [by apply elem_of_line|]. apply elem_of_app. right. by left. }
  destruct (zrank_queued _ _ Hin) as (i & Hi & Hrank).
  split; [split|].
  - intros e'. pose proof (enqueued_ok w e c e' (Hok e') Hn) as Hok'. unfold queue_ok. by rewrite Hq, Hss.
  - by apply join_swept.
  - split_and!; [rewrite Has; set_solver|by rewrite Hq|]. exists i. by rewrite Hq, Hrank.
Qed.

(** ** Estimates *)
Lemma scaled_bounds p r : small p → 1 ≤ r ≤ 2 ^ 53 →
  let x := (inject_Z p / inject_Z r * 60)%Q in
  (x * (1 - pow2 (- 51)) <= fmul (fdiv (of_int p) (of_int r)) 60 <= x * (1 + pow2 (- 51)))%Q.
Proof.
  intros Hp Hr x. unfold fmul, fdiv.
  rewrite (of_int_small _ Hp), (of_int_small r) by (unfold small; lia).
  assert (Hr1 : (1 <= inject_Z r)%Q) by (change 1%Q with (inject_Z 1); rewrite <- Zle_Qle; lia).
  assert (Hp0 : (0 <= inject_Z p)%Q) by (apply inject_nonneg; unfold small in Hp; lia).
  assert (Ha0 : (0 <= inject_Z p / inject_Z r)%Q) by (apply Qle_shift_div_l; lra).
  subst x. set (a := (inject_Z p / inject_Z r)%Q) in *.
  pose proof (rnd_error a Ha0) as [Ha1 Ha2]. pose proof (rnd_nonneg a Ha0) as Hb0.
  assert (Hb : (0 <= rnd a * 60)%Q) by lra. pose proof (rnd_error _ Hb) as [Hc1 Hc2].
  change (pow2 (- 53)) with (1 # 9007199254740992)%Q in *.
  change (pow2 (- 51)) with (1 # 2251799813685248)%Q in *. lra.
Qed.

(** The wait announced is the exact one, rounded up to seconds, or a second more. *)
Lemma estimate_accurate p r : 1 ≤ p ≤ 2 ^ 40 → 1 ≤ r ≤ 2 ^ 20 →
  div_ceil (60 * p) r ≤ estimated_wait_seconds p r ≤ div_ceil (60 * p) r + 1.
Proof.
  intros Hp Hr. unfold estimated_wait_seconds. destruct (Z.eqb_spec r 0); [lia|].
  pose proof (scaled_bounds p r ltac:(unfold small; lia) ltac:(lia)) as [Hlo Hhi].
  set (y := fmul _ 60) in *. set (x := (inject_Z p / inject_Z r * 60)%Q) in *.
  pose proof (div_ceil_spec (60 * p) r ltac:(lia) ltac:(lia)) as Hk. set (k := div_ceil (60 * p) r) in *.
  change (pow2 (- 51)) with (1 # 2251799813685248)%Q in *.
  assert (Hr1 : (1 <= inject_Z r)%Q) by (change 1%Q with (inject_Z 1); rewrite <- Zle_Qle; lia).
  assert (Hx : (x * inject_Z r == inject_Z (60 * p))%Q).
  { unfold x. rewrite inject_Z_mult. change (inject_Z 60) with 60%Q. field. lra. }
  assert (Hpq : (0 <= inject_Z (60 * p) <= 65970697666560)%Q).
  { change 65970697666560%Q with (inject_Z 65970697666560). change 0%Q with (inject_Z 0). rewrite <- !Zle_Qle. lia. }
  assert (Hup : (inject_Z (60 * p) <= inject_Z r * inject_Z k)%Q) by (rewrite <- inject_Z_mult, <- Zle_Qle; lia).
  assert (Hdn : (inject_Z r * inject_Z (k - 1) + 1 <= inject_Z (60 * p))%Q).
  { change 1%Q with (inject_Z 1). rewrite <- inject_Z_mult, <- inject_Z_plus, <- Zle_Qle. lia. }
  assert (Hx0 : (0 <= x)%Q) by (apply Qnot_lt_le; intros ?; nra).
  assert (Hxk : (x <= inject_Z k)%Q) by (apply Qnot_lt_le; intros ?; nra).
  assert (Hxm : (x <= 65970697666560)%Q) by (apply Qnot_lt_le; intros ?; nra).
  assert (Hyl : (inject_Z (k - 1) < y)%Q).
  { apply Qlt_le_trans with (x * (1 - (1 # 2251799813685248)))%Q; [|done]. apply Qnot_le_lt. intros Hle.
    assert (Hc : ((x - inject_Z (k - 1)) * inject_Z r <= x * (1 # 2251799813685248) * inject_Z r)%Q)
      by (apply Qmult_le_compat_r; lra).
    assert (He : (x * (1 # 2251799813685248) * inject_Z r == inject_Z (60 * p) * (1 # 2251799813685248))%Q)
      by (rewrite <- Hx; ring).
    assert (Hd : ((x - inject_Z (k - 1)) * inject_Z r == inject_Z (60 * p) - inject_Z r * inject_Z (k - 1))%Q)
      by (rewrite <- Hx; ring). lra. }
  assert (Hyh : (y <= inject_Z (k + 1))%Q).
  { rewrite inject_Z_plus. change (inject_Z 1) with 1%Q. lra. }
  assert (Hc1 : k - 1 < Qceiling y).
  { pose proof (Qle_ceiling y). rewrite Zlt_Qlt. lra. }
  assert (Hc2 : Qceiling y ≤ k + 1).
  { rewrite <- (Qceiling_Z (k + 1)). by apply Qceiling_resp_le. }
  assert (Hkm : k ≤ 65970697666560) by nia. assert (Hk0 : 0 ≤ k) by nia.
  unfold ceil_to, u64_max. lia.
Qed.

(** ** Waiting room: what it takes to join

    A join that succeeds has spent a challenge and shown its proof of work.
    Programs are examined by the commands they can issue. *)
#[local] Open Scope Z_scope.

(** Commands that leave the challenges alone. *)
Definition no_challenge {R} (c : cmd R) : Prop :=
  match c with SetChallenge _ _ _ | DelChallenge _ => False | _ => True end.
Lemma exec_no_challenge {R} now draw (c : cmd R) w r w' :
  no_challenge c → exec now draw c w = Some (r, w') → challenges w' = challenges w.
Proof.
  intros Hc He. destruct c; cbn [exec] in He; try done; simplify_eq; try done.
  - destruct (_ <? _); by simplify_eq.
  - destruct (queue_of w event_id !! client_id); by simplify_eq.
  - destruct (rates w !! event_id); by simplify_eq.
  - destruct (ADMIT_LUA _ _ _ _ _ _) as [[? ?] ?]. by simplify_eq.
Qed.

Lemma join_no_challenge e c rate : only (@no_challenge) (join e c rate).
Proof. unfold join, grant_for, admitted_status, queue_size_of. only_tac; done. Qed.

Section Gate.
Context `{Sha256} `{Tokens}.
Variable parse_str : string → option string.
Variable config : WaitingRoomConfig.

Lemma run_join_checked now draw p w st w' :
  run now draw (join_checked parse_str config p) w = (Ok st, w') →
  verify_pow (jr_challenge p) (jr_nonce p) (pow_difficulty config) = true
  ∧ (∃ id total minted, parse_str (jr_event_id p) = Some id ∧ inventory w !! id = Some (total, minted)
       ∧ admission_rate_for_inventory total minted (admission_rate_per_minute config) ≠ 0)
  ∧ challenges w' = challenges w.
Proof.
  unfold join_checked. destruct (verify_pow _ _ _); [|done]. cbn [negb]. rewrite prun_bind.
  unfold admission_rate_from_db. destruct (parse_str (jr_event_id p)) as [id|]; [|done].
  cbn [call_or prun exec]. destruct (inventory w !! id) as [[total minted]|] eqn:Ei; [|done]. cbn [prun].
  destruct (Z.eqb_spec (admission_rate_for_inventory total minted (admission_rate_per_minute config)) 0) as [|Hr]; [done|].
  intros Hrun. split_and!; [done|by exists id, total, minted|].
  pose proof (only_prun (λ R, @exec R now draw) (@no_challenge) challenges
    (join (jr_event_id p) (jr_client_id p)
       (admission_rate_for_inventory total minted (admission_rate_per_minute config))) w) as Hf.
  rewrite Hrun in Hf. cbn [snd] in Hf. apply Hf; [|apply join_no_challenge].
  intros R c w1 r w2. apply exec_no_challenge.
Qed.
End Gate.

(** Joining costs work: a join succeeds only with a challenge that was issued
    for this very event and has not expired, a nonce that solves it, a well
    formed client id and an event with tickets left.  The challenge is spent: a
    later request that names it is refused and changes nothing. *)
Theorem join_needs_work `{Sha256} `{Tokens} parse_str config now draw p w st w' :
  run now draw (join_queue parse_str config p) w = (Ok st, w') →
  live now (challenges w !! jr_challenge p) = Some (jr_event_id p)
  ∧ verify_pow (jr_challenge p) (jr_nonce p) (pow_difficulty config) = true
  ∧ is_valid_client_id (jr_client_id p) = true
  ∧ (∃ id total minted, parse_str (jr_event_id p) = Some id ∧ inventory w !! id = Some (total, minted)
       ∧ admission_rate_for_inventory total minted (admission_rate_per_minute config) ≠ 0)
  ∧ ∀ now' draw' p', jr_challenge p' = jr_challenge p →
      ∃ e, run now' draw' (join_queue parse_str config p') w' = (Err e, w').
Proof.
  unfold join_queue. destruct (blank _ || _ || _ || _); [done|].
  destruct (is_valid_client_id (jr_client_id p)) eqn:Hv; [|done]. cbn [negb prun exec].
  destruct (live now (challenges w !! jr_challenge p)) as [e|] eqn:Hl; [|done].
  destruct (decide (e = jr_event_id p)) as [->|]; [|done]. cbn [prun exec]. intros Hrun.
  apply run_join_checked in Hrun as (Hpow & Hinv & Hch). split_and!; [done..|].
  intros now' draw' p' Hp'. destruct (blank _ || _ || _ || _); [by eexists|].
  destruct (is_valid_client_id (jr_client_id p')); [|by eexists]. cbn [negb prun exec]. rewrite Hp', Hch.
  change (challenges (w ⟨ challenges ::= delete (jr_challenge p) ⟩)) with (delete (jr_challenge p) (challenges w)).
  rewrite lookup_delete_eq. by eexists.
Qed.

(** Every schedule is a sequence of commands. *)
Lemma schedule_commands {A} now draw order (s : list (prog A) * World) :
  ∃ l, (commands l s.2).1 = (schedule (λ R, @exec R now draw) order s).2.
Proof.
  revert s. induction order as [|i order IH]; intros s; [by exists []|].
  change (schedule (λ R, @exec R now draw) (i :: order) s) with (schedule (λ R, @exec R now draw) order (sched_step (λ R, @exec R now draw) i s)).
  destruct (IH (sched_step (λ R, @exec R now draw) i s)) as [l Hl].
  unfold sched_step in Hl |- *. destruct (s.1 !! i) as [[r|R c k]|]; [by exists l| |by exists l].
  exists (Act now draw c :: l). cbn [commands act_once at_time drawn command].
  unfold act_once. cbn [at_time drawn command answer].
  destruct (exec now draw c s.2) as [[r w]|]; cbn [snd] in Hl.
  - destruct (commands l w) as [w2 adm2] eqn:E. cbn [fst] in Hl |- *. by rewrite <- Hl.
  - destruct (commands l s.2) as [w2 adm2] eqn:E. cbn [fst] in Hl |- *. by rewrite <- Hl.
Qed.

(** ** Waiting room: the worker drains the queues

    Ticks of the worker that run alone: what a sweep does to an event, that it
    keeps the invariant, and that spaced ticks let everybody in. *)
#[local] Open Scope Z_scope.

Lemma subseteq_nothing (m : gmap string Q) : m ⊆ ∅ → m = ∅.
Proof.
  intros Hm. apply map_empty. intros c. destruct (m !! c) as [s|] eqn:Hc; [|done].
  eapply lookup_weaken in Hc; [|exact Hm]. by rewrite lookup_empty in Hc.
Qed.

Section Drain.
Context `{Tokens}.
(** Signing the claims of a grant does not fail. *)
Hypothesis signs : ∀ claims, is_Some (encode claims).
Variable ttl : Z.

(** ** One event *)
Definition grant_at (now : Z) (draw : bytes) (e c : string) : string * Z :=
  (default EmptyString (encode (MkClaims c e GRANT_PURPOSE (now / 1000) ((now + ttl * 60000) / 1000) (uuid_v4 draw))),
   now + Z.max (ttl * 60) 60 * 1000).
Definition granted (now : Z) (draw : bytes) (e : string) (l : list string)
    (g : gmap (string * string) (string * Z)) : gmap (string * string) (string * Z) :=
  foldl (λ g c, <[(e, c) := grant_at now draw e c]> g) g l.
Definition rate_of (w : World) (e : string) : Z := default DEFAULT_ADMISSION_RATE_PER_MINUTE (rates w !! e).
Definition admitted_world (now : Z) (draw : bytes) (e : string) (w : World) : World :=
  if rate_of w e =? 0 then w
  else
    let ' (members, b, zset) := evaluate (rate_of w e) (buckets w !! e) (queue_of w e) now in
    let w := w ⟨ buckets ::= <[e := b]> ⟩ ⟨ queues ::= <[e := zset]> ⟩ ⟨ grants ::= granted now draw e members ⟩ in
    if Z.of_nat (size zset) =? 0 then w ⟨ active ::= λ s, s ∖ {[e]} ⟩ else w.

Lemma run_issue_grants now draw e l w :
  run now draw (issue_grants e ttl l) w = (Ok tt, w ⟨ grants ::= granted now draw e l ⟩).
Proof.
  revert w. induction l as [|c l IH]; intros w; [by destruct w|].
  cbn [issue_grants]. rewrite prun_bind. cbn [issue_grant_token call_or prun exec].
  destruct (signs (MkClaims c e GRANT_PURPOSE (now / 1000) ((now + ttl * 60000) / 1000) (uuid_v4 draw))) as [t Ht].
  rewrite Ht. cbn [ok_or call_or prun exec]. rewrite IH. unfold granted. cbn [foldl].
  unfold grant_at at 3. by rewrite Ht.
Qed.
Lemma run_admit now draw e w :
  ∃ n, run now draw (admit_for_event e ttl) w = (Ok n, admitted_world now draw e w).
Proof.
  unfold admit_for_event, admitted_world. rewrite prun_bind. cbn [rate_per_minute call_or prun exec].
  fold (rate_of w e). destruct (rate_of w e =? 0); [by eexists|]. cbn [call_or prun exec].
  change (ADMIT_LUA _ _ _ _ _ _) with (evaluate (rate_of w e) (buckets w !! e) (queue_of w e) now).
  destruct (evaluate _ _ _ _) as [[members b] zset] eqn:Ev. cbn [call_or prun exec]. rewrite prun_bind, run_issue_grants.
  cbn [call_or prun exec]. set (w1 := _ ⟨ grants ::= _ ⟩).
  assert (Hq : queue_of w1 e = zset).
  { change (queue_of w1 e) with (queue_of (w ⟨ buckets ::= <[e := b]> ⟩ ⟨ queues ::= <[e := zset]> ⟩) e).
    by rewrite queue_of_insert, decide_True. }
  rewrite Hq. destruct (Z.of_nat (size zset) =? 0); cbn [call_or prun exec]; by eexists.
Qed.

(** ** What concerns one event *)
Definition view (e : string) (w : World) : gmap string Q * option (Q * Z) * option Z :=
  (queue_of w e, buckets w !! e, rates w !! e).

Lemma admitted_other now draw e e' w : e' ≠ e →
  view e' (admitted_world now draw e w) = view e' w
  ∧ (e' ∈ active (admitted_world now draw e w) ↔ e' ∈ active w).
Proof.
  intros Hne. unfold admitted_world. destruct (rate_of w e =? 0); [done|].
  destruct (evaluate _ _ _ _) as [[members b] zset]. set (w1 := _ ⟨ grants ::= _ ⟩).
  assert (Hv : view e' w1 = view e' w).
  { unfold view, queue_of. subst w1. cbn. by rewrite !lookup_insert_ne by done. }
  destruct (Z.of_nat (size zset) =? 0); [|done]. split; [done|]. subst w1. cbn. set_solver.
Qed.
Lemma granted_mono now draw e l g k : is_Some (g !! k) → is_Some (granted now draw e l g !! k).
Proof.
  revert g. unfold granted. induction l as [|c l IH]; intros g Hk; [done|]. cbn. apply IH.
  destruct (decide (k = (e, c))) as [->|]; [by rewrite lookup_insert_eq|by rewrite lookup_insert_ne].
Qed.
Lemma granted_in now draw e l g c : c ∈ l → is_Some (granted now draw e l g !! (e, c)).
Proof.
  revert g. induction l as [|c' l IH]; intros g Hc; [by apply not_elem_of_nil in Hc|].
  apply elem_of_cons in Hc as [->|Hc]; [|by apply IH]. unfold granted. cbn [foldl].
  apply granted_mono. by rewrite lookup_insert_eq.
Qed.
Lemma admitted_grants now draw e w k :
  is_Some (grants w !! k) → is_Some (grants (admitted_world now draw e w) !! k).
Proof.
  intros Hk. unfold admitted_world. destruct (rate_of w e =? 0); [done|].
  destruct (evaluate _ _ _ _) as [[members b] zset].
  destruct (Z.of_nat (size zset) =? 0); by apply granted_mono.
Qed.
Lemma admitted_self now draw e w members b zset : rate_of w e ≠ 0 →
  evaluate (rate_of w e) (buckets w !! e) (queue_of w e) now = (members, b, zset) →
  view e (admitted_world now draw e w) = (zset, Some b, rates w !! e)
  ∧ (e ∈ active (admitted_world now draw e w) ↔ e ∈ active w ∧ zset ≠ ∅)
  ∧ (∀ c, c ∈ members → is_Some (grants (admitted_world now draw e w) !! (e, c))).
Proof.
  intros Hr Hev. unfold admitted_world. destruct (Z.eqb_spec (rate_of w e) 0); [done|]. rewrite Hev.
  set (w1 := _ ⟨ grants ::= _ ⟩).
  assert (Hv : view e w1 = (zset, Some b, rates w !! e)).
  { unfold view, queue_of. subst w1. cbn. by rewrite !lookup_insert_eq. }
  assert (Hg : ∀ c, c ∈ members → is_Some (grants w1 !! (e, c))) by (intros; by apply granted_in).
  assert (Ha : active w1 = active w) by done.
  destruct (Z.eqb_spec (Z.of_nat (size zset)) 0) as [Hz|Hz].
  - assert (zset = ∅) by (apply map_size_empty_iff; lia). split_and!; [done| |done].
    change (active (w1 ⟨ active ::= λ s, s ∖ {[e]} ⟩)) with (active w1 ∖ {[e]}). set_solver.
  - split_and!; [done| |done]. rewrite Ha. split; [|by intros [? _]]. intros ?. split; [done|].
    intros ->. by rewrite map_size_empty in Hz.
Qed.

(** ** A sweep *)
Definition sweep (now : Z) (draw : bytes) (l : list string) (w : World) : World :=
  foldl (λ w e, admitted_world now draw e w) w l.
Lemma run_admit_all now draw w :
  ∃ n, run now draw (admit_all ttl) w = (Ok n, sweep now draw (elements (active w)) w).
Proof.
  unfold admit_all. cbn [call_or prun exec]. generalize (elements (active w)) as l. intros l.
  generalize 0 as total. revert w. induction l as [|e l IH]; intros w total; [by eexists|].
  cbn [admit_events]. rewrite prun_bind. destruct (run_admit now draw e w) as [n ->]. apply IH.
Qed.
Lemma sweep_seqs now draw l w : seqs (sweep now draw l w) = seqs w.
Proof.
  revert w. induction l as [|e l IH]; intros w; [done|]. cbn. unfold sweep in IH. rewrite IH. unfold admitted_world.
  destruct (rate_of w e =? 0); [done|]. destruct (evaluate _ _ _ _) as [[members b] zset].
  by destruct (Z.of_nat (size zset) =? 0).
Qed.
Lemma sweep_grants now draw l w k :
  is_Some (grants w !! k) → is_Some (grants (sweep now draw l w) !! k).
Proof. revert w. induction l as [|e l IH]; intros w Hk; [done|]. apply IH. by apply admitted_grants. Qed.
Lemma sweep_other now draw l w e : e ∉ l →
  view e (sweep now draw l w) = view e w ∧ (e ∈ active (sweep now draw l w) ↔ e ∈ active w).
Proof.
  revert w. induction l as [|e' l IH]; intros w Hl; [done|]. apply not_elem_of_cons in Hl as [Hne Hl]. cbn.
  destruct (IH (admitted_world now draw e' w) Hl) as [Hv Ha].
  destruct (admitted_other now draw e' e w Hne) as [Hv' Ha']. rewrite <- Hv', <- Ha'. done.
Qed.
Lemma sweep_self now draw l w e members b zset : e ∈ l → NoDup l → rate_of w e ≠ 0 →
  evaluate (rate_of w e) (buckets w !! e) (queue_of w e) now = (members, b, zset) →
  view e (sweep now draw l w) = (zset, Some b, rates w !! e)
  ∧ (e ∈ active (sweep now draw l w) ↔ e ∈ active w ∧ zset ≠ ∅)
  ∧ (∀ c, c ∈ members → is_Some (grants (sweep now draw l w) !! (e, c))).
Proof.
  revert w. induction l as [|e' l IH]; intros w Hin Hnd Hr Hev; [by apply not_elem_of_nil in Hin|].
  apply NoDup_cons in Hnd as [Hn Hnd]. cbn. destruct (decide (e = e')) as [<-|Hne].
  - destruct (admitted_self now draw e w members b zset Hr Hev) as (Hv & Ha & Hg).
    destruct (sweep_other now draw l (admitted_world now draw e w) e Hn) as [Hv' Ha'].
    rewrite <- Hv, <- Ha. split_and!; [done|done|]. intros c Hc. by apply sweep_grants, Hg.
  - apply elem_of_cons in Hin as [|Hin]; [done|].
    destruct (admitted_other now draw e' e w Hne) as [Hv Ha]. rewrite <- Ha.
    unfold view in Hv. injection Hv as Hq Hb Hrt. rewrite <- Hrt.
    apply IH; try done.
    + unfold rate_of in *. by rewrite Hrt.
    + unfold rate_of in *. by rewrite Hq, Hb, Hrt.
Qed.
Lemma sweep_idle now draw l w e : rate_of w e = 0 → view e (sweep now draw l w) = view e w.
Proof.
  revert w. induction l as [|e' l IH]; intros w Hr; [done|]. cbn.
  assert (Hv : view e (admitted_world now draw e' w) = view e w).
  { destruct (decide (e = e')) as [<-|Hne]; [|by apply admitted_other]. unfold admitted_world. by rewrite Hr. }
  rewrite <- Hv. apply IH. unfold view in Hv. injection Hv as _ _ Hrt. unfold rate_of in *. by rewrite Hrt.
Qed.
Lemma sweep_idle_active now draw l w e : rate_of w e = 0 →
  e ∈ active (sweep now draw l w) ↔ e ∈ active w.
Proof.
  revert w. induction l as [|e' l IH]; intros w Hr; [done|]. cbn.
  destruct (decide (e = e')) as [<-|Hne].
  - assert (Hid : admitted_world now draw e w = w) by (unfold admitted_world; by rewrite Hr). rewrite Hid. by apply IH.
  - destruct (admitted_other now draw e' e w Hne) as [Hv Ha]. rewrite <- Ha. apply IH.
    unfold view in Hv. injection Hv as _ _ Hrt. unfold rate_of in *. by rewrite Hrt.
Qed.

(** A sweep keeps the invariant of the room. *)
Lemma sweep_ok now draw w : room_ok w → room_ok (sweep now draw (elements (active w)) w).
Proof.
  intros [Hok Hsw]. set (w' := sweep now draw (elements (active w)) w).
  assert (Hsub : ∀ e, queue_of w' e ⊆ queue_of w e ∧ (queue_of w' e ≠ ∅ → e ∈ active w → e ∈ active w')).
  { intros e. subst w'. destruct (Z.eq_dec (rate_of w e) 0) as [Hr|Hr].
    { pose proof (sweep_idle now draw (elements (active w)) w e Hr) as Hv. injection Hv as -> _ _.
      split; [done|]. intros _. by rewrite sweep_idle_active. }
    destruct (decide (e ∈ active w)) as [Ha|Ha].
    - destruct (evaluate (rate_of w e) (buckets w !! e) (queue_of w e) now) as [[members b] zset] eqn:Hev.
      destruct (sweep_self now draw (elements (active w)) w e members b zset) as (Hv & Ha' & _);
        [by apply elem_of_elements|apply NoDup_elements|done|done|]. injection Hv as -> _ _.
      split; [|by intros; apply Ha']. apply lua_members in Hev as [_ ->]. apply map_subseteq_spec.
      intros c s. rewrite lookup_zrem. by case_decide.
    - destruct (sweep_other now draw (elements (active w)) w e) as [Hv _]; [by rewrite elem_of_elements|].
      injection Hv as -> _ _. done. }
  split.
  - intros e. destruct (Hok e) as [Hn Hs]. unfold queue_ok. subst w'. rewrite sweep_seqs. split; [done|].
    intros c s Hc. apply (Hs c). eapply lookup_weaken; [exact Hc|apply Hsub].
  - intros e Hq. apply Hsub; [done|]. apply Hsw. intros He. apply Hq.
    destruct (Hsub e) as [Hs _]. rewrite He in Hs. by apply subseteq_nothing.
Qed.

(** ** Spaced ticks *)
Definition tick (w : World) (nd : Z * bytes) : World := (run nd.1 nd.2 (admit_all ttl) w).2.
Fixpoint spaced (last : Z) (l : list (Z * bytes)) : Prop :=
  match l with
  | [] => True
  | nd :: l => last + 61000 ≤ nd.1 ≤ 2 ^ 53 ∧ spaced nd.1 l
  end.
(** The bucket was last filled by [last]. *)
Definition bucket_ready (rate : Z) (w : World) (e : string) (last : Z) : Prop :=
  ∀ b, buckets w !! e = Some b → bucket_ok rate b ∧ b.2 ≤ last.

Definition event_ok (rate : Z) (w : World) (e : string) (last : Z) : Prop :=
  room_ok w ∧ rates w !! e = Some rate ∧ bucket_ready rate w e last.

Lemma zrem_shorter head rest members zset :
  line zset = head :: rest → head ∈ members → (size (zrem members zset) < size zset)%nat.
Proof.
  intros Hl Hin. assert (Hh : is_Some (zset !! head)) by (apply elem_of_line; rewrite Hl; by left).
  apply map_subset_size. apply map_subset_alt. split.
  - apply map_subseteq_spec. intros c s. rewrite lookup_zrem. by case_decide.
  - exists head. split; [|done]. by rewrite lookup_zrem, decide_True.
Qed.

Lemma tick_step rate w e last nd : 1 ≤ rate ≤ 2 ^ 53 → 0 ≤ last → last + 61000 ≤ nd.1 ≤ 2 ^ 53 →
  event_ok rate w e last →
  event_ok rate (tick w nd) e nd.1
  ∧ (∀ k, is_Some (grants w !! k) → is_Some (grants (tick w nd) !! k))
  ∧ (∀ c, is_Some (queue_of w e !! c) →
       is_Some (queue_of (tick w nd) e !! c) ∨ is_Some (grants (tick w nd) !! (e, c)))
  ∧ queue_of (tick w nd) e ⊆ queue_of w e
  ∧ (queue_of w e ≠ ∅ → is_Some (buckets (tick w nd) !! e)
      ∧ (is_Some (buckets w !! e) → (size (queue_of (tick w nd) e) < size (queue_of w e))%nat)).
Proof.
  intros Hr Hl0 Ht (Hroom & Hrate & Hb). unfold tick. destruct nd as [now draw]. cbn [fst snd] in *.
  destruct (run_admit_all now draw w) as [n ->]. cbn [snd].
  assert (Hro : rate_of w e = rate) by (unfold rate_of; by rewrite Hrate).
  pose proof (sweep_ok now draw w Hroom) as Hroom'.
  assert (Hg : ∀ k, is_Some (grants w !! k) → is_Some (grants (sweep now draw (elements (active w)) w) !! k))
    by (intros; by apply sweep_grants).
  destruct (decide (e ∈ active w)) as [Ha|Ha].
  2: { assert (Hq : queue_of w e = ∅) by (destruct (decide (queue_of w e = ∅)); [done|]; by apply Hroom in n0).
    destruct (sweep_other now draw (elements (active w)) w e) as [Hv _]; [by rewrite elem_of_elements|].
    injection Hv as Hq' Hb' Hr'. unfold event_ok, bucket_ready. rewrite Hq', Hb', Hr', Hq.
    split_and!; [done|done| |done| |done|done].
    - intros b Eb. destruct (Hb b Eb). split; [done|lia].
    - intros c Hc. rewrite lookup_empty in Hc. by destruct Hc. }
  destruct (evaluate rate (buckets w !! e) (queue_of w e) now) as [[members b] zset] eqn:Hev.
  destruct (sweep_self now draw (elements (active w)) w e members b zset) as (Hv & _ & Hgr);
    [by apply elem_of_elements|apply NoDup_elements|lia|by rewrite Hro|].
  injection Hv as Hq' Hb' Hr'.
  pose proof (lua_members _ _ _ _ _ _ _ _ _ Hev) as [_ Hz].
  assert (Hsn : small now) by (unfold small; lia).
  assert (Hok : bucket_ok rate b ∧ b.2 = now).
  { destruct (buckets w !! e) as [b0|] eqn:Eb.
    - destruct (Hb b0 Eb) as [Hb0 Hb1].
      destruct (evaluate_bounds rate Hr b0 (queue_of w e) now members b zset) as (? & ? & _); [done|done|lia|done|done].
    - destruct (evaluate_bounds rate Hr (0%Q, now) (queue_of w e) now members b zset) as (? & ? & _);
        [|done|done|done|done]. split; [|done]. cbn. pose proof (rate_pos rate Hr). lra. }
  unfold event_ok, bucket_ready. rewrite Hq', Hb', Hr'. split_and!; [done|done| |done| | |].
  - intros b' [= <-]. destruct Hok as [? ->]. done.
  - intros c Hc. rewrite Hz, lookup_zrem. destruct (decide (c ∈ members)); [right; by apply Hgr|by left].
  - rewrite Hz. apply map_subseteq_spec. intros c s. rewrite lookup_zrem. by case_decide.
  - intros Hne. split; [done|]. intros [b0 Eb]. destruct (Hb b0 Eb) as [Hb0 Hb1]. rewrite Eb in Hev.
    destruct (evaluate_progress rate Hr b0 (queue_of w e) now members b zset) as (head & rest & Hline & Hin);
      [done|done|lia|done|done|]. rewrite Hz. by eapply zrem_shorter.
Qed.
End Drain.


(** * Waiting room: running instances

    The theorems applied to concrete rooms, and schedules that show where the
    guarantees end. *)
#[local] Open Scope Z_scope.

(** A hash that accepts the nonce "7" only, tokens that are readable, and two
    spellings of one event. *)
Definition toy_hash (m : bytes) : bytes :=
  match last m with Some 55 => replicate 32 0 | _ => replicate 32 255 end.
#[local] Instance toy_sha : Sha256 := {| sha256 := toy_hash |}.
#[local] Instance toy_sha_laws : Sha256Laws.
Proof.
  assert (Hr : ∀ b, is_byte b → Forall is_byte (replicate 32 b)) by (intros; by apply Forall_replicate).
  assert (Hc : ∀ m, toy_hash m = replicate 32 0 ∨ toy_hash m = replicate 32 255).
  { intros m. unfold toy_hash. destruct (last m) as [z|]; [|by right].
    destruct (decide (z = 55)) as [->|]; [by left|right].
    destruct z as [|p|p]; try done. by do 6 (destruct p as [p|p|]; try done). }
  split; intros m; cbn [sha256 toy_sha]; destruct (Hc m) as [->| ->];
    [apply length_replicate|apply length_replicate|apply Hr; unfold is_byte; lia|apply Hr; unfold is_byte; lia].
Qed.
#[local] Instance toy_tokens : Tokens := {|
  encode := λ c, Some (String.append (sub c) "!"); decode := λ _ _, None; uuid_v4 := λ _, "id" |}.
Definition id_of (s : string) : option string :=
  if decide (s = "E1") then Some "e1" else if decide (s = "e1") then Some "e1" else None.
Definition room : WaitingRoomConfig := from_env None (Some 2) None None None.
Definition w0 : World :=
  MkWorld ∅ ∅ ∅ ∅ ∅ ∅ (<["x" := ("e1", 900000)]> (<["y" := ("e1", 900000)]> (<["z" := ("E1", 900000)]> ∅)))
    {["e1" := (100, 50)]}.
Definition req (e c ch : string) : JoinRequest := MkJoin e c ch "7".

(** ** Proof of work *)
Lemma solve_pow_witness : solve_pow "x" 4 = Some "7" ∧ verify_pow "x" "8" 4 = false.
Proof.
  split; [|reflexivity]. apply solve_pow_least. exists 7%N. split_and!; [done|reflexivity|reflexivity|].
  intros m Hm. assert (Hc : (m = 0 ∨ m = 1 ∨ m = 2 ∨ m = 3 ∨ m = 4 ∨ m = 5 ∨ m = 6)%N) by lia.
  by repeat destruct Hc as [->|Hc]; [..|subst m].
Qed.

(** ** Queues *)
Definition w1 : World := (run 1000 [] (join_queue id_of room (req "e1" "bob" "x")) w0).2.
Definition w2 : World := (run 2000 [] (join_queue id_of room (req "e1" "al" "y")) w1).2.

Lemma join_needs_work_witness :
  live 1000 (challenges w0 !! "x") = Some "e1"
  ∧ ∃ e, run 1500 [] (join_queue id_of room (req "e1" "eve" "x")) w1 = (Err e, w1).
Proof.
  assert (Hrun : run 1000 [] (join_queue id_of room (req "e1" "bob" "x")) w0
    = (Ok (MkStatus IsWaiting (Some 1) 1 (Some 30) None), w1)) by (vm_compute; reflexivity).
  destruct (join_needs_work id_of room 1000 [] (req "e1" "bob" "x") w0 _ _ Hrun) as (Hl & _ & _ & _ & Hs).
  split; [exact Hl|]. by apply Hs.
Defined.

Lemma empty_room_ok w : queues w = ∅ → seqs w = ∅ → room_ok w.
Proof.
  intros Hq Hs. split.
  - intros e. unfold queue_ok, queue_of. rewrite Hq, Hs, !lookup_empty. split; [done|]. intros c s Hc. done.
  - intros e He. exfalso. apply He. unfold queue_of. by rewrite Hq, lookup_empty.
Qed.
Lemma join_correct_witness :
  let ' (r, w') := run 1000 [] (join "e1" "bob" 2) w0 in
  r = Ok (MkStatus IsWaiting (Some 1) 1 (Some 30) None) ∧ line (queue_of w' "e1") = ["bob"] ∧ room_ok w'.
Proof.
  pose proof (join_correct 1000 [] "e1" "bob" 2 w0 (empty_room_ok w0 eq_refl eq_refl) ltac:(lia) ltac:(done)) as Hj.
  destruct (run 1000 [] (join "e1" "bob" 2) w0) as [r w'] eqn:Er. destruct Hj as (Hok & _ & Hline & _).
  vm_compute in Er. split_and!; [by injection Er|exact Hline|exact Hok].
Defined.

(** Two sweeps: nobody at first, then the head of the line. *)
Definition sweep_at (t : Z) : act := Act t [] (EvalAdmit "e1" t (refill_of 2) (of_int 2) (max_admit_of 2)).
Lemma no_overtaking_witness :
  (commands [sweep_at 3000; sweep_at 33000; sweep_at 63000] w2).2 = [("e1", "bob"); ("e1", "al")]
  ∧ ("e1", "bob") ∈ [("e1", "bob")].
Proof.
  assert (Hadm : (commands [sweep_at 3000; sweep_at 33000; sweep_at 63000] w2).2 = [("e1", "bob"); ("e1", "al")])
    by (vm_compute; reflexivity).
  split; [exact Hadm|].
  apply (no_overtaking [sweep_at 3000; sweep_at 33000; sweep_at 63000] w2
    (commands [sweep_at 3000; sweep_at 33000; sweep_at 63000] w2).1 _ "e1" "bob" "al" [("e1", "bob")] []
    ltac:(exists 1%Q, 2%Q; split_and!; vm_compute; reflexivity) (surjective_pairing _)). exact Hadm.
Defined.


Lemma w2_event_ok : event_ok 2 w2 "e1" 3000.
Proof.
  assert (H1 := join_correct 1000 [] "e1" "bob" 2 _ (empty_room_ok (w0 ⟨ challenges ::= delete "x" ⟩) eq_refl eq_refl) ltac:(lia) ltac:(done)).
  assert (Hw1 : run 1000 [] (join "e1" "bob" 2) (w0 ⟨ challenges ::= delete "x" ⟩)
    = (Ok (MkStatus IsWaiting (Some 1) 1 (Some 30) None), w1)) by (vm_compute; reflexivity).
  rewrite Hw1 in H1. destruct H1 as [H1 _].
  assert (H1' : room_ok (w1 ⟨ challenges ::= delete "y" ⟩)) by exact H1.
  assert (H2 := join_correct 2000 [] "e1" "al" 2 (w1 ⟨ challenges ::= delete "y" ⟩) H1' ltac:(lia) ltac:(vm_compute; reflexivity)).
  assert (Hw2 : run 2000 [] (join "e1" "al" 2) (w1 ⟨ challenges ::= delete "y" ⟩)
    = (Ok (MkStatus IsWaiting (Some 2) 2 (Some 60) None), w2)) by (vm_compute; reflexivity).
  rewrite Hw2 in H2. destruct H2 as [H2 _]. split_and!; [exact H2|vm_compute; reflexivity|].
  intros b Hb. assert (Hn : buckets w2 !! "e1" = None) by (vm_compute; reflexivity). congruence.
Qed.

(** ** Where the guarantees end *)

(** A bucket that was idle is full: four clients at a rate of two per minute
    enter within sixty seconds, although the queue promises that admissions
    never exceed the rate. *)
Definition crowd : World :=
  MkWorld {["e1" := <["a" := 1%Q]> (<["b" := 2%Q]> (<["c" := 3%Q]> (<["d" := 4%Q]> ∅)))]}
    {["e1" := 4]} {["e1" := 2]} {["e1" := (0%Q, 0)]} ∅ {["e1"]} ∅ ∅.
Lemma burst_of_twice_the_rate :
  length (commands [sweep_at 60000; sweep_at 90000; sweep_at 120000] crowd).2 = 4%nat.
Proof. vm_compute. reflexivity. Qed.

(** Both requests read the challenge before either deletes it: one solved
    challenge lets two clients in. *)
Lemma challenge_spent_twice :
  (schedule (λ R, @exec R 1000 []) ([0; 1; 0; 1] ++ replicate 20 0 ++ replicate 20 1)%nat
     ([join_queue id_of room (req "e1" "bob" "x"); join_queue id_of room (req "e1" "eve" "x")], w0)).1
  = [Done (Ok (MkStatus IsWaiting (Some 1) 1 (Some 30) None));
     Done (Ok (MkStatus IsWaiting (Some 2) 2 (Some 60) None))].
Proof. vm_compute. reflexivity. Qed.

(** The worker sees an empty queue, a client joins, the worker then stops
    sweeping the event: the client waits in a queue that nobody sweeps. *)
Definition idle : World := w0 ⟨ active := {["e1"]} ⟩ ⟨ rates := {["e1" := 2]} ⟩ ⟨ buckets := {["e1" := (2%Q, 900)]} ⟩.
Definition discard {A} (p : prog A) : prog unit := bind p (λ _, Done (Ok tt)).
Definition raced : World :=
  (schedule (λ R, @exec R 1000 []) ([0; 0; 0; 0; 0] ++ replicate 20 1 ++ replicate 20 0)%nat
     ([discard (admit_all 10); discard (join_queue id_of room (req "e1" "bob" "x"))], idle)).2.
Lemma race_strands_client :
  line (queue_of raced "e1") = ["bob"] ∧ ("e1" ∉ active raced)
  ∧ line (queue_of (foldl (tick 10) raced [(100000, []); (200000, []); (300000, [])]) "e1") = ["bob"].
Proof.
  split_and!; [vm_compute; reflexivity| |vm_compute; reflexivity].
  apply (bool_decide_eq_false_1 ("e1" ∈ active raced)). vm_compute. reflexivity.
Qed.

(** Two spellings of one event have queues and buckets of their own. *)
Definition w3 : World := (run 2500 [] (join_queue id_of room (req "E1" "eve" "z")) w2).2.
Lemma spellings_split :
  id_of "E1" = id_of "e1" ∧ line (queue_of w3 "e1") = ["bob"; "al"] ∧ line (queue_of w3 "E1") = ["eve"]
  ∧ (run 33000 [] (admit_all 10) (run 3000 [] (admit_all 10) w3).2).1 = Ok 2
  ∧ (run 33000 [] (admit_all 10) (run 3000 [] (admit_all 10) w2).2).1 = Ok 1.
Proof. by vm_compute. Qed.

(** A grant that cannot be stored is lost: the client has left the queue. *)
Lemma grant_lost :
  let w := (run 3000 [] (admit_all 10) w2).2 in
  let w' := (commands [sweep_at 33000] w).1 in
  (commands [sweep_at 33000] w).2 = [("e1", "bob")]
  ∧ (run 33000 [] (status_of "e1" "bob") w').1 = Ok None.
Proof. by vm_compute. Qed.

(** Rounding can add a second to an estimate. *)
Lemma estimate_one_more : estimated_wait_seconds 25 3 = 501 ∧ div_ceil (60 * 25) 3 = 500.
Proof. by vm_compute. Qed.
