(* ===== verification/SrvErrors.v ===== *)
(** * The server: errors and responses

    [server/src/utils/error.rs].  A status is its number.  The errors of [sqlx]
    are told apart as far as the source does. *)

From S2P Require Import Prelude Machine Prog ZkBytes WaitPow.

(** [r.map_err(f)] *)
Definition map_err {E F A} (f : E → F) (r : res E A) : res F A :=
  match r with Ok a => Ok a | Err e => Err (f e) | Panic => Panic end.

Inductive ErrorCode : Type :=
| CodeValidationFailed | CodeUnauthorized | CodeForbidden | CodeNotFound | CodeConflict
| CodeRateLimited | CodeInternalError | CodeServiceUnavailable.

(** [ErrorCode::as_str] *)
Definition as_str (self : ErrorCode) : string :=
  match self with
  | CodeValidationFailed => "VALIDATION_FAILED"
  | CodeUnauthorized => "UNAUTHORIZED"
  | CodeForbidden => "FORBIDDEN"
  | CodeNotFound => "NOT_FOUND"
  | CodeConflict => "CONFLICT"
  | CodeRateLimited => "RATE_LIMITED"
  | CodeInternalError => "INTERNAL_ERROR"
  | CodeServiceUnavailable => "SERVICE_UNAVAILABLE"
  end.
Definition from_status (status : Z) : ErrorCode :=
  if (status =? 400) || (status =? 422) then CodeValidationFailed
  else if status =? 401 then CodeUnauthorized
  else if status =? 403 then CodeForbidden
  else if status =? 404 then CodeNotFound
  else if status =? 409 then CodeConflict
  else if status =? 429 then CodeRateLimited
  else if (status =? 503) || (status =? 502) || (status =? 504) then CodeServiceUnavailable
  else CodeInternalError.

(** [sqlx::Error] *)
Inductive SqlxError : Type :=
| SqlxIo | SqlxPoolClosed | SqlxPoolTimedOut
| SqlxDatabase (is_unique_violation is_foreign_key_violation : bool) (text : string)
| SqlxOther (text : string).
Inductive DatabaseErrorCategory : Type := Connection | UniqueViolation | ForeignKeyViolation | Query.
Definition from_sqlx (err : SqlxError) : DatabaseErrorCategory :=
  match err with
  | SqlxIo | SqlxPoolClosed | SqlxPoolTimedOut => Connection
  | SqlxDatabase unique foreign _ =>
      if unique then UniqueViolation else if foreign then ForeignKeyViolation else Query
  | SqlxOther _ => Query
  end.

Inductive AppError : Type :=
| ValidationError (msg : string)
| AuthError (msg : string)
| Forbidden (msg : string)
| NotFound (msg : string)
| Conflict (msg : string)
| DatabaseError (err : SqlxError)
| ExternalServiceError (msg : string)
| InternalServerError (msg : string).

Definition status_code (self : AppError) : Z :=
  match self with
  | ValidationError _ => 400
  | AuthError _ => 401
  | Forbidden _ => 403
  | NotFound _ => 404
  | Conflict _ => 409
  | DatabaseError err =>
      match from_sqlx err with
      | Connection => 503
      | UniqueViolation | ForeignKeyViolation => 409
      | Query => 500
      end
  | ExternalServiceError _ => 503
  | InternalServerError _ => 500
  end.
Definition error_code (self : AppError) : ErrorCode :=
  match self with
  | ValidationError _ => CodeValidationFailed
  | AuthError _ => CodeUnauthorized
  | Forbidden _ => CodeForbidden
  | NotFound _ => CodeNotFound
  | Conflict _ => CodeConflict
  | DatabaseError err =>
      match from_sqlx err with
      | Connection => CodeServiceUnavailable
      | UniqueViolation | ForeignKeyViolation => CodeConflict
      | Query => CodeInternalError
      end
  | ExternalServiceError _ => CodeServiceUnavailable
  | InternalServerError _ => CodeInternalError
  end.
Definition public_message (self : AppError) : string :=
  match self with
  | ValidationError msg | AuthError msg | Forbidden msg | NotFound msg | Conflict msg
  | ExternalServiceError msg | InternalServerError msg => msg
  | DatabaseError err =>
      match from_sqlx err with
      | Connection => "Database service is temporarily unavailable"
      | UniqueViolation => "A resource with this identifier already exists"
      | ForeignKeyViolation => "The referenced resource does not exist"
      | Query => "A database error occurred"
      end
  end.

Record ApiError : Type := MkApiError {
  ae_code : ErrorCode;
  ae_message : string;
  ae_request_id : option string;
  ae_status : Z
}.
(** The id of the request is the one of the task that answers it, if any. *)
Definition with_code (request_id : option string) (code : ErrorCode) (status : Z) (message : string)
    : ApiError := MkApiError code message request_id status.
Definition api_error_new (request_id : option string) (status : Z) (message : string) : ApiError :=
  with_code request_id (from_status status) status message.
Definition internal (request_id : option string) (message : string) : ApiError :=
  with_code request_id CodeInternalError 500 message.
Definition api_error_of (request_id : option string) (err : AppError) : ApiError :=
  with_code request_id (error_code err) (status_code err) (public_message err).
Definition handle_timeout_error (request_id : option string) : ApiError :=
  api_error_new request_id 504 "Request timed out".

(** ** What clients rely on *)

(** Two ways to the same code: the code of an error is the one its status maps
    to, so clients that branch on either agree. *)
Lemma codes_agree err : error_code err = from_status (status_code err).
Proof. destruct err as [| | | | |e| |]; try done. destruct e as [| | |[] []|]; done. Qed.
(** The texts of codes are distinct. *)
Lemma code_text_inj a b : as_str a = as_str b → a = b.
Proof. by destruct a, b. Qed.
(** The text of a database failure never reaches a client: two failures of a
    category give the same response. *)
Lemma database_errors_masked rid e1 e2 :
  from_sqlx e1 = from_sqlx e2 → api_error_of rid (DatabaseError e1) = api_error_of rid (DatabaseError e2).
Proof. intros He. unfold api_error_of. cbn. by rewrite He. Qed.

(** ** The server: tables

    What the handlers of the server use of PostgreSQL.  A table is a map from
    primary keys to rows.  A statement is one command; a program whose statement
    got no answer returns [DatabaseError]. *)

(** What the constraints of a table answer. *)
Definition unique_violation : SqlxError := SqlxDatabase true false "duplicate key value".
Definition foreign_key_violation : SqlxError := SqlxDatabase false true "violates foreign key constraint".

(** [query(..).await?] *)
Definition db_failed : AppError := DatabaseError SqlxIo.
#[global] Notation "'let!?' x := c 'in' k" := (call_or db_failed c (λ x, k))
  (at level 10, x name, c at level 200, k at level 200,
   format "'[v' 'let!?'  x  :=  c  'in'  '/' k ']'") : soroban_scope.
Abbreviation ret := Done (only parsing).

(** The text of a UUID, from its 128-bit number. *)
Definition uuid_text (n : Z) : string :=
  let h := String.string_of_list_ascii (hex_encode (be_bytes 16 n)) in
  String.substring 0 8 h +:+ "-" +:+ String.substring 8 4 h +:+ "-" +:+ String.substring 12 4 h +:+ "-"
  +:+ String.substring 16 4 h +:+ "-" +:+ String.substring 20 12 h.

Section Tables.
Context {K V : Type} `{Countable K}.
Implicit Types (m : gmap K V) (P : V → Prop).

(** A row that satisfies a condition, as [SELECT ... WHERE] with [fetch_optional]. *)
Definition find_row P `{∀ v, Decision (P v)} m : option (K * V) :=
  head (filter (λ p, P p.2) (map_to_list m)).
(** The rows that do, the greatest [key] first. *)
Definition descending (key : V → Z) (a b : V) : Prop := key b ≤ key a.
#[export] Instance descending_dec (key : V → Z) : RelDecision (descending key).
Proof. intros a b. unfold descending. apply _. Defined.
Definition rows_desc P `{∀ v, Decision (P v)} (key : V → Z) m : list V :=
  merge_sort (descending key) (filter P (map_to_list m).*2).
(** [UPDATE ... SET f WHERE P], and the rows it affected. *)
Definition update_rows P `{∀ v, Decision (P v)} (f : V → V) m : gmap K V :=
  (λ v, if decide (P v) then f v else v) <$> m.
Definition count_rows P `{∀ v, Decision (P v)} m : Z :=
  Z.of_nat (length (filter P (map_to_list m).*2)).

Lemma find_row_Some P `{∀ v, Decision (P v)} m k v : find_row P m = Some (k, v) → m !! k = Some v ∧ P v.
Proof.
  unfold find_row. intros Hf. apply head_Some in Hf as [l Hf].
  assert (Hin : (k, v) ∈ filter (λ p, P p.2) (map_to_list m)) by (rewrite Hf; left).
  apply list_elem_of_filter in Hin as [HP Hin]. by apply elem_of_map_to_list in Hin.
Qed.
Lemma find_row_None P `{∀ v, Decision (P v)} m : find_row P m = None ↔ ∀ k v, m !! k = Some v → ¬ P v.
Proof.
  unfold find_row. rewrite head_None. split.
  - intros Hf k v Hk HP. apply (not_elem_of_nil (k, v)). rewrite <- Hf. apply list_elem_of_filter.
    split; [done|]. by apply elem_of_map_to_list.
  - intros Hm. destruct (filter _ _) as [|[k v] l] eqn:Hf; [done|].
    assert (Hin : (k, v) ∈ filter (λ p, P p.2) (map_to_list m)) by (rewrite Hf; left).
    apply list_elem_of_filter in Hin as [HP Hin]. apply elem_of_map_to_list in Hin. by apply Hm in Hin.
Qed.
(** With a condition that singles a row out, that row. *)
Lemma find_row_only P `{∀ v, Decision (P v)} m k v :
  m !! k = Some v → P v → (∀ k' v', m !! k' = Some v' → P v' → k' = k) → find_row P m = Some (k, v).
Proof.
  intros Hk HP Hu. destruct (find_row P m) as [[k' v']|] eqn:Hf.
  - apply find_row_Some in Hf as [Hk' HP']. assert (k' = k) as -> by eauto. congruence.
  - by eapply find_row_None in Hf.
Qed.
Lemma rows_desc_elem P `{∀ v, Decision (P v)} key m v : v ∈ rows_desc P key m ↔ P v ∧ ∃ k, m !! k = Some v.
Proof.
  unfold rows_desc. rewrite merge_sort_Permutation, list_elem_of_filter, list_elem_of_fmap.
  split; intros [HP Hv]; (split; [done|]).
  - destruct Hv as ([k w] & -> & Hw). exists k. by apply elem_of_map_to_list in Hw.
  - destruct Hv as [k Hk]. exists (k, v). split; [done|]. by apply elem_of_map_to_list.
Qed.
Lemma rows_desc_sorted P `{∀ v, Decision (P v)} key m : Sorted (descending key) (rows_desc P key m).
Proof. apply Sorted_merge_sort. intros a b. unfold descending. lia. Qed.
Lemma lookup_update_rows P `{∀ v, Decision (P v)} f m k :
  update_rows P f m !! k = (λ v, if decide (P v) then f v else v) <$> m !! k.
Proof. unfold update_rows. by rewrite lookup_fmap. Qed.
End Tables.
