(* ===== verification/SrvRate.v ===== *)
(** * The server: rate limits

    [server/src/utils/rate_limit.rs].  Instants are nanoseconds; every reading
    of the clock is an argument.  Numbers of tokens are doubles ([Float]).  The
    reading of an IP address from a text is a parameter. *)

From Stdlib Require Import Ascii QArith Qround Lqa.
From S2P Require Import Prelude Machine Float WaitBucket.
#[local] Open Scope Z_scope.

Record TokenBucket : Type := MkBucket { tokens : Q; last_refill : Z }.
Record AcquireOutcome : Type := MkOutcome { allowed : bool; remaining : Z; retry_after : Z }.

(** [Duration::as_secs_f64], and [Instant::duration_since], which saturates. *)
Definition as_secs_f64 (nanos : Z) : Q :=
  fadd (of_int (nanos / 10 ^ 9)) (fdiv (of_int (nanos mod 10 ^ 9)) (of_int (10 ^ 9))).
Definition duration_since (now earlier : Z) : Z := Z.max 0 (now - earlier).

Definition bucket_new (capacity : Q) (now : Z) : TokenBucket := MkBucket capacity now.
Definition refilled (self : TokenBucket) (capacity refill_per_sec : Q) (now : Z) : Q :=
  let elapsed := as_secs_f64 (duration_since now (last_refill self)) in
  fmin (fadd (tokens self) (fmul elapsed refill_per_sec)) capacity.
Definition try_acquire (self : TokenBucket) (capacity refill_per_sec : Q) (now : Z)
    : AcquireOutcome * TokenBucket :=
  let t := refilled self capacity refill_per_sec now in
  if Qlt_le_dec t 1 then
    let secs := if Qlt_le_dec 0 refill_per_sec
                then ceil_to u64_max (fdiv (fsub 1 t) refill_per_sec) else 1 in
    (MkOutcome false 0 (Z.max secs 1), MkBucket t now)
  else
    let t := fsub t 1 in
    let secs := if Qlt_le_dec 0 refill_per_sec
                then ceil_to u64_max (fdiv (fsub capacity t) refill_per_sec) else 1 in
    (MkOutcome true (floor_to u64_max t) (Z.max secs 1), MkBucket t now).

(** ** Headers of a response *)
Record RateHeaders : Type := MkHeaders {
  x_ratelimit_limit : Z;
  x_ratelimit_remaining : Z;
  x_ratelimit_reset : Z;
  retry_after_header : option Z
}.
Definition apply_rate_limit_headers (limit remaining reset_epoch : Z) (retry_after : option Z) : RateHeaders :=
  MkHeaders limit remaining reset_epoch ((λ secs, Z.max secs 1) <$> retry_after).

(** ** The layer *)
Record RateLimitLayer : Type := MkLayer { max_requests : Z; window : Z (* nanoseconds *) }.
Definition rate_limit_from_env (max window_secs : option Z) : RateLimitLayer :=
  MkLayer (default 100 max) (default 60 window_secs * 10 ^ 9).
Definition refill_per_sec (self : RateLimitLayer) : Q :=
  if max_requests self =? 0 then 0%Q
  else
    let w := as_secs_f64 (window self) in
    let floor := fdiv 1 1000 in
    fdiv (of_int (max_requests self)) (if Qlt_le_dec w floor then floor else w).

(** [s.split(',').next()] and [trim], on ASCII texts. *)
Fixpoint before_comma (s : string) : string :=
  match s with
  | EmptyString => EmptyString
  | String a s => if Ascii.eqb a ","%char then EmptyString else String a (before_comma s)
  end.
Definition is_space (a : Ascii.ascii) : bool :=
  let n := Ascii.nat_of_ascii a in ((9 <=? n) && (n <=? 13) || (n =? 32))%nat.
Fixpoint trim_start (s : string) : string :=
  match s with String a s' => if is_space a then trim_start s' else s | EmptyString => s end.
Fixpoint trim_end (s : string) : string :=
  match s with
  | EmptyString => EmptyString
  | String a s =>
      match trim_end s with
      | EmptyString => if is_space a then EmptyString else String a EmptyString
      | t => String a t
      end
  end.
Definition trim (s : string) : string := trim_end (trim_start s).


Section Layer.
Context {Ip : Type} `{Countable Ip}.
Variable parse_ip : string → option Ip.

(** The headers a client sends, and the peer of its connection. *)
Record HttpRequest : Type := MkHttp {
  x_forwarded_for : option string;
  x_real_ip : option string;
  peer : option Ip
}.
Definition extract_ip (localhost : Ip) (req : HttpRequest) : Ip :=
  match x_forwarded_for req ≫= (λ f, parse_ip (trim (before_comma f))) with
  | Some ip => ip
  | None =>
      match x_real_ip req ≫= (λ r, parse_ip (trim r)) with
      | Some ip => ip
      | None => default localhost (peer req)
      end
  end.

(** [call]: [Some] headers of the answer of the inner service, or the headers
    of a refusal with status 429. *)
Definition rate_limit_call (self : RateLimitLayer) (localhost : Ip) (store : gmap Ip TokenBucket)
    (req : HttpRequest) (created now unix_now : Z) : (bool * RateHeaders) * gmap Ip TokenBucket :=
  let ip := extract_ip localhost req in
  let window_secs := Z.max (window self / 10 ^ 9) 1 in
  let capacity := of_int (max_requests self) in
  let ' (outcome, store) :=
    if max_requests self =? 0 then (MkOutcome false 0 window_secs, store)
    else
      let entry := default (bucket_new capacity created) (store !! ip) in
      let ' (outcome, entry) := try_acquire entry capacity (refill_per_sec self) now in
      (outcome, <[ip := entry]> store) in
  let retry := Z.max (retry_after outcome) 1 in
  let reset_epoch := Z.min u64_max (unix_now + retry) in
  (allowed outcome,
   apply_rate_limit_headers (max_requests self) (remaining outcome) reset_epoch
     (if allowed outcome then None else Some retry), store).
End Layer.
Arguments HttpRequest Ip : clear implicits.

(** ** The server: what the rate limit allows

    Bounds on the requests of one address, in doubles, and what the choice of
    the address by its sender undoes. *)
#[local] Open Scope Z_scope.

(** ** Durations in doubles *)
Lemma as_secs_bounds d : 0 ≤ d ≤ 2 ^ 60 →
  let x := (inject_Z d * (1 # 1000000000))%Q in
  (0 <= as_secs_f64 d ∧ x * (1 - pow2 (- 51)) <= as_secs_f64 d <= x * (1 + pow2 (- 51)))%Q.
Proof.
  intros Hd x. unfold as_secs_f64, fadd, fdiv.
  pose proof (Z.div_mod d (10 ^ 9) ltac:(lia)) as Hdm. pose proof (Z.mod_pos_bound d (10 ^ 9) ltac:(lia)) as Hm.
  assert (Hq : 0 ≤ d / 10 ^ 9 ≤ 2 ^ 53).
  { split; [apply Z.div_pos; lia|]. apply Z.div_le_upper_bound; lia. }
  set (s := d / 10 ^ 9) in *. set (n := d mod 10 ^ 9) in *.
  rewrite (of_int_small s), (of_int_small n), (of_int_small (10 ^ 9)) by (unfold small; lia).
  change (inject_Z (10 ^ 9)) with 1000000000%Q.
  assert (Hx : (x == inject_Z s + inject_Z n / 1000000000)%Q).
  { unfold x. rewrite Hdm, inject_Z_plus, inject_Z_mult. change (inject_Z (10 ^ 9)) with 1000000000%Q. field. }
  assert (Hs0 : (0 <= inject_Z s)%Q) by (apply inject_nonneg; lia).
  assert (Hn0 : (0 <= inject_Z n / 1000000000)%Q)
    by (apply Qle_shift_div_l; [lra|]; rewrite Qmult_0_l; apply inject_nonneg; lia).
  pose proof (rnd_error _ Hn0) as [H1 H2]. pose proof (rnd_nonneg _ Hn0). rewrite Hx.
  set (a := rnd (inject_Z n / 1000000000)) in *. set (y := (inject_Z n / 1000000000)%Q) in *.
  assert (Hsum : (0 <= inject_Z s + a)%Q) by lra. pose proof (rnd_error _ Hsum) as [H3 H4].
  pose proof (rnd_nonneg _ Hsum). change (pow2 (- 53)) with (1 # 9007199254740992)%Q in *.
  change (pow2 (- 51)) with (1 # 2251799813685248)%Q in *. split_and!; [done|lra|lra].
Qed.

Section Limited.
Variable self : RateLimitLayer.
Hypothesis max_range : 1 ≤ max_requests self ≤ 2 ^ 53.
Hypothesis window_range : 10 ^ 9 ≤ window self ≤ 2 ^ 60.
#[local] Open Scope Q_scope.
#[local] Abbreviation cap := (max_requests self).
#[local] Abbreviation refill := (refill_per_sec self).

Lemma cap_small : small cap.
Proof. unfold small. lia. Qed.
Lemma cap_pos : 1 <= inject_Z cap.
Proof. destruct max_range as [Hm _]. by rewrite Zle_Qle in Hm. Qed.

(** Tokens per nanosecond, without rounding. *)
Definition exact_gain (d : Z) : Q := inject_Z cap * inject_Z d / inject_Z (window self).
Lemma window_pos : 1 <= inject_Z (window self).
Proof. change 1 with (inject_Z 1). rewrite <- Zle_Qle. lia. Qed.

Lemma refill_bounds :
  0 < refill ∧ refill * inject_Z (window self) * (1 # 1000000000) <= inject_Z cap * (1 + 6 * pow2 (- 53)).
Proof.
  unfold refill_per_sec. destruct (Z.eqb_spec cap 0); [lia|].
  destruct (as_secs_bounds (window self) ltac:(lia)) as (Hw0 & Hw1 & Hw2).
  set (w := as_secs_f64 (window self)) in *. set (W := inject_Z (window self)) in *.
  assert (HW : 1000000000 <= W) by (change 1000000000 with (inject_Z (10 ^ 9)); subst W; rewrite <- Zle_Qle; lia).
  change (pow2 (- 51)) with (1 # 2251799813685248) in *. change (pow2 (- 53)) with (1 # 9007199254740992) in *.
  assert (Hw : (1 # 2) <= w) by lra.
  destruct (Qlt_le_dec w (fdiv 1 1000)) as [Hlt|_].
  { exfalso. assert (Hf : fdiv 1 1000 <= 1 # 4) by (vm_compute; congruence). lra. }
  unfold fdiv. assert (Hcap : of_int cap / w == inject_Z cap / w) by (by rewrite (of_int_small _ cap_small)).
  rewrite Hcap. pose proof cap_pos as Hc.
  assert (Hq : 0 < inject_Z cap / w) by (apply Qlt_shift_div_l; lra).
  pose proof (rnd_error _ (Qlt_le_weak _ _ Hq)) as [Hr1 Hr2].
  change (pow2 (- 53)) with (1 # 9007199254740992) in *.
  assert (Hmul : inject_Z cap / w * w == inject_Z cap) by (field; lra).
  set (q := inject_Z cap / w) in *. split; [lra|].
  assert (Hq1 : q * (W * (1 # 1000000000) * (1 - (1 # 2251799813685248))) <= inject_Z cap).
  { rewrite <- Hmul. apply Qmult_le_compat_l; lra. }
  assert (Hq2 : rnd q * W * (1 # 1000000000) <= q * (1 + (1 # 9007199254740992)) * (W * (1 # 1000000000))).
  { rewrite <- Qmult_assoc. apply Qmult_le_compat_r; [done|lra]. }
  nra.
Qed.

Definition gained (d : Z) : Q := fmul (as_secs_f64 d) refill.
Lemma gained_bounds d : (0 <= d <= 2 ^ 60)%Z →
  0 <= gained d ∧ gained d <= exact_gain d * (1 + pow2 (- 49)).
Proof.
  intros Hd. destruct (as_secs_bounds d Hd) as (He0 & _ & He). destruct refill_bounds as [Hr0 Hr].
  unfold gained, fmul, exact_gain. set (e := as_secs_f64 d) in *. set (r := refill) in *.
  pose proof window_pos as HW. set (W := inject_Z (window self)) in *. pose proof cap_pos as Hc.
  assert (Hx : 0 <= e * r) by (apply Qmult_le_0_compat; lra).
  pose proof (rnd_error _ Hx) as [_ H2]. split; [by apply rnd_nonneg|].
  assert (Hd0 : 0 <= inject_Z d) by (apply inject_nonneg; lia).
  change (pow2 (- 53)) with (1 # 9007199254740992) in *. change (pow2 (- 51)) with (1 # 2251799813685248) in *.
  change (pow2 (- 49)) with (1 # 562949953421312) in *.
  set (D := inject_Z d * (1 # 1000000000)) in *.
  assert (Hr' : r * (1 # 1000000000) <= inject_Z cap * (1 + 6 * (1 # 9007199254740992)) / W).
  { apply Qle_shift_div_l; [lra|]. lra. }
  assert (Hm : e * r <= inject_Z d * (1 + (1 # 2251799813685248)) * (r * (1 # 1000000000))).
  { assert (Hs : inject_Z d * (1 + (1 # 2251799813685248)) * (r * (1 # 1000000000))
      == D * (1 + (1 # 2251799813685248)) * r) by (unfold D; ring).
    rewrite Hs. apply Qmult_le_compat_r; lra. }
  assert (Hm2 : inject_Z d * (1 + (1 # 2251799813685248)) * (r * (1 # 1000000000))
    <= inject_Z d * (1 + (1 # 2251799813685248)) * (inject_Z cap * (1 + 6 * (1 # 9007199254740992)) / W)).
  { apply Qmult_le_compat_l; [done|]. apply Qmult_le_0_compat; lra. }
  assert (Hs : inject_Z d * (1 + (1 # 2251799813685248)) * (inject_Z cap * (1 + 6 * (1 # 9007199254740992)) / W)
    == inject_Z cap * inject_Z d / W * ((1 + (1 # 2251799813685248)) * (1 + 6 * (1 # 9007199254740992)))) by (field; lra).
  rewrite Hs in Hm2.
  assert (Hg : 0 <= inject_Z cap * inject_Z d / W) by (apply Qle_shift_div_l; [lra|]; nra).
  set (g := inject_Z cap * inject_Z d / W) in *. lra.
Qed.

(** ** One request *)
Definition rate_ok (b : TokenBucket) : Prop := 0 <= tokens b <= inject_Z cap.
Definition slop : Q := inject_Z cap * (2 * ulp).

Lemma refilled_bounds b now : rate_ok b → (0 <= now - last_refill b <= 2 ^ 60)%Z →
  let t := refilled b (of_int cap) refill now in
  0 <= t <= inject_Z cap
  ∧ t <= tokens b + exact_gain (now - last_refill b) * (1 + pow2 (- 49)) + inject_Z cap * ulp.
Proof.
  intros Hb Hd. unfold refilled, duration_since. rewrite Z.max_r by lia. fold (gained (now - last_refill b)).
  destruct (gained_bounds (now - last_refill b) Hd) as [Hg0 Hg1]. set (x := gained _) in *.
  destruct (capped_add cap (tokens b) x) as (H0 & H1 & H2); [lia|done|done|]. fold ulp in H1, H2.
  pose proof (of_int_small _ cap_small) as Hcap. unfold fmin, fadd in *. pose proof cap_pos.
  destruct (Qle_bool (rnd (tokens b + x)) (of_int cap)) eqn:Hle.
  - apply Qle_bool_iff in Hle. rewrite Hcap in Hle. specialize (H1 Hle). split; lra.
  - assert (Hlt : of_int cap < rnd (tokens b + x)).
    { apply Qnot_le_lt. intros Hc. apply Qle_bool_iff in Hc. congruence. }
    rewrite Hcap in *. specialize (H2 Hlt). split; lra.
Qed.
Lemma acquire_bounds b now o b' : rate_ok b → (0 <= now - last_refill b <= 2 ^ 60)%Z →
  try_acquire b (of_int cap) refill now = (o, b') →
  rate_ok b' ∧ last_refill b' = now
  ∧ (if allowed o then 1 else 0) + tokens b' <= refilled b (of_int cap) refill now + inject_Z cap * ulp.
Proof.
  intros Hb Hd. destruct (refilled_bounds b now Hb Hd) as [[Ht0 Ht1] _]. unfold try_acquire.
  set (t := refilled b (of_int cap) refill now) in *. cbv zeta. pose proof cap_pos.
  assert (Hu : 0 <= ulp) by (vm_compute; congruence).
  destruct (Qlt_le_dec t 1) as [H1|H1]; intros [= <- <-]; unfold rate_ok; cbn [allowed tokens last_refill].
  { split_and!; [done|done|done|nra]. }
  unfold fsub. assert (Hd1 : 0 <= t - 1) by lra. pose proof (rnd_error _ Hd1) as [_ He].
  pose proof (rnd_nonneg _ Hd1). change (pow2 (- 53)) with ulp in He.
  assert (Hcap : rnd (t - 1) <= inject_Z cap) by (apply rnd_le_Z; [lia|lra]).
  split_and!; [done|done|done|nra].
Qed.

(** ** A run of requests *)
Section Run.
Context {Ip : Type} `{Countable Ip}.
Variable parse_ip : string → option Ip.
Variable localhost : Ip.

(** A request, with the readings of the clocks it meets. *)
Record arrival : Type := MkArrival {
  ar_req : HttpRequest Ip; ar_created : Z; ar_now : Z; ar_unix : Z
}.
Definition ip_of (a : arrival) : Ip := extract_ip parse_ip localhost (ar_req a).
Definition serve_one (store : gmap Ip TokenBucket) (a : arrival) : bool * gmap Ip TokenBucket :=
  let ' (ok, _, store) := rate_limit_call parse_ip self localhost store (ar_req a)
                            (ar_created a) (ar_now a) (ar_unix a) in (ok, store).
(** How many requests of [ip] are let through. *)
Fixpoint passed (ip : Ip) (store : gmap Ip TokenBucket) (l : list arrival) : nat :=
  match l with
  | [] => 0
  | a :: l =>
      let ' (ok, store) := serve_one store a in
      (if ok && bool_decide (ip_of a = ip) then 1 else 0) + passed ip store l
  end.
Fixpoint in_order (last until : Z) (l : list arrival) : Prop :=
  match l with
  | [] => True
  | a :: l => last ≤ ar_created a ∧ ar_created a ≤ ar_now a ∧ ar_now a ≤ until ∧ in_order (ar_now a) until l
  end.

Lemma serve_one_other store a ip : ip_of a ≠ ip → (serve_one store a).2 !! ip = store !! ip.
Proof.
  intros Hne. unfold serve_one, rate_limit_call. fold (ip_of a). destruct (Z.eqb_spec cap 0); [lia|].
  destruct (try_acquire _ _ _ _) as [o b]. cbn. by rewrite lookup_insert_ne.
Qed.
Lemma serve_one_self store a b :
  default (bucket_new (of_int cap) (ar_created a)) (store !! ip_of a) = b →
  ∃ o b', try_acquire b (of_int cap) refill (ar_now a) = (o, b')
    ∧ serve_one store a = (allowed o, <[ip_of a := b']> store).
Proof.
  intros Hb. unfold serve_one, rate_limit_call. fold (ip_of a). rewrite Hb. destruct (Z.eqb_spec cap 0); [lia|].
  destruct (try_acquire _ _ _ _) as [o b'] eqn:Ht. by exists o, b'.
Qed.

Lemma exact_gain_add a b : exact_gain (a + b) == exact_gain a + exact_gain b.
Proof. unfold exact_gain. rewrite inject_Z_plus. pose proof window_pos. field. lra. Qed.
Lemma exact_gain_nonneg a : (0 <= a)%Z → 0 <= exact_gain a.
Proof.
  intros Ha. unfold exact_gain. pose proof window_pos. pose proof cap_pos. pose proof (inject_nonneg _ Ha).
  apply Qle_shift_div_l; [lra|]. nra.
Qed.

Lemma passed_bounded ip l store b last until :
  store !! ip = Some b → rate_ok b → (last_refill b <= last)%Z → (until - last_refill b <= 2 ^ 60)%Z →
  (last <= until)%Z → in_order last until l →
  inject_Z (Z.of_nat (passed ip store l))
  <= tokens b + exact_gain (until - last_refill b) * (1 + pow2 (- 49)) + inject_Z (Z.of_nat (length l)) * slop.
Proof.
  assert (Hp : 0 <= 1 + pow2 (- 49)) by (vm_compute; congruence).
  assert (Hsl : 0 <= slop) by (unfold slop; pose proof cap_pos; assert (0 <= ulp) by (vm_compute; congruence); nra).
  revert store b last. induction l as [|a l IH]; intros store b last Hs Hb Hl Hu Hlu Ho; cbn [passed length].
  { change (inject_Z (Z.of_nat 0)) with 0. unfold rate_ok in Hb.
    pose proof (Qmult_le_0_compat _ _ (exact_gain_nonneg (until - last_refill b) ltac:(lia)) Hp). lra. }
  destruct Ho as (H1 & H2 & H3 & Ho).
  assert (Hlen : inject_Z (Z.of_nat (S (length l))) * slop == slop + inject_Z (Z.of_nat (length l)) * slop).
  { rewrite Nat2Z.inj_succ. unfold Z.succ. rewrite inject_Z_plus. change (inject_Z 1) with 1. ring. }
  rewrite Hlen. destruct (decide (ip_of a = ip)) as [<-|Hne].
  - destruct (serve_one_self store a b ltac:(by rewrite Hs)) as (o & b' & Ht & ->).
    assert (Hd : (0 <= ar_now a - last_refill b <= 2 ^ 60)%Z) by lia.
    destruct (acquire_bounds b (ar_now a) o b' Hb Hd Ht) as (Hb' & Hl' & Hstep).
    destruct (refilled_bounds b (ar_now a) Hb Hd) as [_ Hfill].
    rewrite bool_decide_eq_true_2, andb_true_r by done.
    pose proof (IH (<[ip_of a := b']> store) b' (ar_now a) ltac:(by rewrite lookup_insert_eq) Hb'
      ltac:(lia) ltac:(lia) ltac:(lia) Ho) as Hrec. rewrite Hl' in Hrec.
    assert (Hg : exact_gain (until - last_refill b)
      == exact_gain (until - ar_now a) + exact_gain (ar_now a - last_refill b)).
    { rewrite <- exact_gain_add. f_equiv. lia. }
    rewrite Hg, Nat2Z.inj_add, inject_Z_plus. unfold slop in *.
    destruct (allowed o); [change (inject_Z (Z.of_nat 1)) with 1|change (inject_Z (Z.of_nat 0)) with 0]; lra.
  - pose proof (serve_one_other store a ip Hne) as Hk. destruct (serve_one store a) as [ok store'].
    cbn [snd] in Hk. rewrite bool_decide_eq_false_2, andb_false_r by done. cbn [Nat.add].
    pose proof (IH store' b (ar_now a) ltac:(by rewrite Hk) Hb ltac:(lia) Hu ltac:(lia) Ho). lra.
Qed.

(** A bucket of the store, as a run that reached [last] leaves it. *)
Definition stored_ok (store : gmap Ip TokenBucket) (ip : Ip) (last until : Z) : Prop :=
  ∀ b, store !! ip = Some b → rate_ok b ∧ (last_refill b <= last)%Z ∧ (until - last_refill b <= 2 ^ 60)%Z.

Lemma passed_from ip l store last until :
  stored_ok store ip last until → (last <= until)%Z → (until - last <= 2 ^ 60)%Z → in_order last until l →
  inject_Z (Z.of_nat (passed ip store l))
  <= inject_Z cap + exact_gain (until - last) * (1 + pow2 (- 49)) + inject_Z (Z.of_nat (length l)) * slop.
Proof.
  assert (Hp : 0 <= 1 + pow2 (- 49)) by (vm_compute; congruence).
  assert (Hsl : 0 <= inject_Z cap * ulp) by (pose proof cap_pos; assert (0 <= ulp) by (vm_compute; congruence); nra).
  revert store last. induction l as [|a l IH]; intros store last Hst Hlu Hu Ho; cbn [passed length].
  { change (inject_Z (Z.of_nat 0)) with 0. pose proof cap_pos.
    pose proof (Qmult_le_0_compat _ _ (exact_gain_nonneg (until - last) ltac:(lia)) Hp). lra. }
  destruct Ho as (H1 & H2 & H3 & Ho).
  assert (Hlen : inject_Z (Z.of_nat (S (length l))) * slop == slop + inject_Z (Z.of_nat (length l)) * slop).
  { rewrite Nat2Z.inj_succ. unfold Z.succ. rewrite inject_Z_plus. change (inject_Z 1) with 1. ring. }
  assert (Hg : exact_gain (until - last)
    == exact_gain (until - ar_now a) + exact_gain (ar_now a - last)) by (rewrite <- exact_gain_add; f_equiv; lia).
  pose proof (Qmult_le_0_compat _ _ (exact_gain_nonneg (ar_now a - last) ltac:(lia)) Hp) as Hg0.
  rewrite Hlen, Hg. destruct (decide (ip_of a = ip)) as [<-|Hne].
  - set (b := default (bucket_new (of_int cap) (ar_created a)) (store !! ip_of a)).
    assert (Hb : rate_ok b ∧ (0 <= ar_now a - last_refill b <= 2 ^ 60)%Z).
    { subst b. destruct (store !! ip_of a) as [b|] eqn:Eb; cbn [default from_option].
      - destruct (Hst b Eb) as (? & ? & ?). split; [done|unfold id; lia].
      - unfold rate_ok, bucket_new. cbn [tokens last_refill]. rewrite (of_int_small _ cap_small).
        pose proof cap_pos. split; [lra|lia]. }
    destruct Hb as [Hb Hd]. destruct (serve_one_self store a b eq_refl) as (o & b' & Ht & ->).
    destruct (acquire_bounds b (ar_now a) o b' Hb Hd Ht) as (Hb' & Hl' & Hstep).
    destruct (refilled_bounds b (ar_now a) Hb Hd) as [[_ Hfill] _].
    rewrite bool_decide_eq_true_2, andb_true_r by done.
    pose proof (passed_bounded (ip_of a) l (<[ip_of a := b']> store) b' (ar_now a) until
      ltac:(by rewrite lookup_insert_eq) Hb' ltac:(lia) ltac:(lia) ltac:(lia) Ho) as Hrec. rewrite Hl' in Hrec.
    rewrite Nat2Z.inj_add, inject_Z_plus. unfold slop in *.
    destruct (allowed o); [change (inject_Z (Z.of_nat 1)) with 1|change (inject_Z (Z.of_nat 0)) with 0]; lra.
  - pose proof (serve_one_other store a ip Hne) as Hk. destruct (serve_one store a) as [ok store'].
    cbn [snd] in Hk. rewrite bool_decide_eq_false_2, andb_false_r by done. cbn [Nat.add].
    assert (Hst' : stored_ok store' ip (ar_now a) until).
    { intros b Eb. rewrite Hk in Eb. destruct (Hst b Eb) as (? & ? & ?). split_and!; [done|lia|lia]. }
    pose proof (IH store' (ar_now a) Hst' ltac:(lia) ltac:(lia) Ho). unfold slop in *. lra.
Qed.
End Run.
End Limited.
Arguments arrival Ip : clear implicits.

(** C18. The limit holds up to a factor of two: of the requests that one address
    sends within one window, interleaved with those of others, at most twice the
    configured maximum are let through, whatever the rounding of the doubles. *)
Theorem requests_bounded {Ip} `{Countable Ip} (parse_ip : string → option Ip) localhost self ip store last l :
  1 ≤ max_requests self ≤ 2 ^ 20 → 10 ^ 9 ≤ window self ≤ 2 ^ 59 →
  stored_ok self store ip last (last + window self) → in_order last (last + window self) l →
  Z.of_nat (length l) ≤ 2 ^ 20 →
  Z.of_nat (passed self parse_ip localhost ip store l) ≤ 2 * max_requests self.
Proof.
  intros Hm Hw Hst Ho Hn.
  pose proof (passed_from self ltac:(lia) ltac:(lia) parse_ip localhost ip l store last (last + window self)
    Hst ltac:(lia) ltac:(lia) Ho) as Hp.
  set (p := Z.of_nat (passed _ _ _ _ _ _)) in *. set (n := Z.of_nat (length l)) in *.
  assert (He : (exact_gain self (last + window self - last) == inject_Z (max_requests self))%Q).
  { unfold exact_gain. replace (last + window self - last) with (window self) by lia.
    pose proof (window_pos self ltac:(lia)). field. lra. }
  rewrite He in Hp. unfold slop in Hp.
  assert (Hr : (1 <= inject_Z (max_requests self) <= 1048576)%Q).
  { change 1048576%Q with (inject_Z (2 ^ 20)). change 1%Q with (inject_Z 1). rewrite <- !Zle_Qle. lia. }
  assert (Hk : (0 <= inject_Z n <= 1048576)%Q).
  { change 1048576%Q with (inject_Z (2 ^ 20)). change 0%Q with (inject_Z 0). rewrite <- !Zle_Qle. lia. }
  assert (Hkr : (inject_Z n * inject_Z (max_requests self) <= 1048576 * 1048576)%Q)
    by (apply Qmult_le_compat_nonneg; split; lra).
  change (pow2 (- 49)) with (1 # 562949953421312)%Q in Hp. change ulp with (1 # 9007199254740992)%Q in Hp.
  assert (Hlt : (inject_Z p < inject_Z (2 * max_requests self + 1))%Q).
  { rewrite inject_Z_plus, inject_Z_mult. change (inject_Z 2) with 2%Q. change (inject_Z 1) with 1%Q. lra. }
  rewrite <- Zlt_Qlt in Hlt. lia.
Qed.

(** The address is the sender's word: requests that each claim an address of
    their own in [X-Forwarded-For] are all let through, whatever the limit. *)
Lemma claimed_addresses_unlimited {Ip} `{Countable Ip} (parse_ip : string → option Ip) localhost self store l :
  1 ≤ max_requests self ≤ 2 ^ 53 → 10 ^ 9 ≤ window self ≤ 2 ^ 60 →
  NoDup (ip_of parse_ip localhost <$> l) →
  (∀ a, a ∈ l → store !! ip_of parse_ip localhost a = None ∧ 0 ≤ ar_now a - ar_created a ≤ 2 ^ 60) →
  ∀ a, a ∈ l → ∃ store', (serve_one self parse_ip localhost store' a).1 = true
    ∧ ∃ l1 l2, l = l1 ++ a :: l2 ∧ store' = foldl (λ s a, (serve_one self parse_ip localhost s a).2) store l1.
Proof.
  intros Hm Hw. revert store. induction l as [|x l IH]; intros store Hnd Hfresh a Ha; [by apply not_elem_of_nil in Ha|].
  apply NoDup_cons in Hnd as [Hx Hnd]. apply elem_of_cons in Ha as [->|Ha].
  - exists store. split; [|by exists [], l]. destruct (Hfresh x ltac:(by left)) as [Hn Hd].
    destruct (serve_one_self self Hm parse_ip localhost store x
      (bucket_new (of_int (max_requests self)) (ar_created x)) ltac:(by rewrite Hn)) as (o & b' & Ht & ->).
    cbn [fst]. unfold try_acquire in Ht. destruct (Qlt_le_dec _ 1) as [Hlt|_]; [|by injection Ht as <- _].
    exfalso. unfold refilled, duration_since, bucket_new in Hlt. cbn [tokens last_refill] in Hlt.
    rewrite Z.max_r in Hlt by lia. pose proof (gained_bounds self Hm Hw _ Hd) as [Hg _]. unfold gained in Hg.
    set (y := fmul _ _) in *. pose proof (of_int_small _ (cap_small self Hm)) as Hcap. pose proof (cap_pos self Hm).
    assert (Hge : (1 <= fadd (of_int (max_requests self)) y)%Q).
    { apply (rnd_ge_Z _ 1); [lia|]. change (inject_Z 1) with 1%Q. rewrite Hcap. lra. }
    unfold fmin in Hlt. destruct (Qle_bool _ _); [lra|]. rewrite Hcap in Hlt. lra.
  - destruct (IH (serve_one self parse_ip localhost store x).2 Hnd) with (a := a) as (s' & Hs & l1 & l2 & -> & ->);
      [|done|].
    + intros a' Ha'. destruct (Hfresh a' ltac:(by right)) as [Hn Hd]. split; [|done].
      rewrite (serve_one_other self Hm); [done|]. intros He. apply Hx. rewrite He. by apply list_elem_of_fmap_2.
    + eexists. split; [exact Hs|]. by exists (x :: l1), l2.
Qed.
