(* ===== verification/SrvAuth.v ===== *)
(** * The server: who sends a request

    [server/src/handlers/auth.rs], [middleware/api_key_auth.rs],
    [handlers/api_keys.rs] and [middleware/csrf.rs], [middleware/admin_auth.rs].
    A header is the text it holds, [None] when it is missing or not visible
    ASCII.  Times are milliseconds.  Signing and reading tokens ([jsonwebtoken]),
    Ed25519 ([ed25519-dalek]), strkeys and UUIDs belong to crates: the class
    [Signing].  The tables are [jwt_nonces] and [developer_api_keys]. *)

From Stdlib Require Import Ascii QArith.
From S2P Require Import Prelude Machine Float Prog ZkBytes WaitPow.
From S2P Require Import SrvErrors SrvRate.
#[local] Open Scope Z_scope.

(** ** Texts *)
Fixpoint strip_prefix (p s : string) : option string :=
  match p, s with
  | EmptyString, _ => Some s
  | String a p, String b s => if Ascii.eqb a b then strip_prefix p s else None
  | String _ _, EmptyString => None
  end.
Definition starts_with (p s : string) : bool := bool_decide (is_Some (strip_prefix p s)).
(** Texts that are values of headers: visible ASCII, spaces and tabs. *)
Definition header_text (s : string) : bool :=
  forallb (λ b, (b =? 9) || ((32 <=? b) && (b <=? 126))) (as_bytes s).

(** ** What the crates provide *)
Record Claims : Type := MkJwtClaims { jwt_sub : string; jwt_iat : Z; jwt_exp : Z }.
(** [jwt_encode] and [jwt_decode] work with the secret of the environment and
    panic when it is not set; errors carry the text of the crate. *)
Class Signing : Type := {
  jwt_encode : Claims → res string string;
  jwt_decode : Z → string → res string Claims;         (** at a second, checking [exp] *)
  verifying_key : bytes → bool;                        (** [VerifyingKey::from_bytes] succeeds *)
  ed25519_verify : bytes → bytes → bytes → bool;       (** key, message, signature *)
  strkey_of : bytes → string;                          (** the strkey of a public key *)
  is_public_strkey : string → bool;                    (** [Strkey::from_string] gives a public key *)
  hex_decode : string → option bytes
}.
(** A token reads back as the claims it was made of. *)
Class SigningLaws `{Signing} : Prop := {
  jwt_sound c t now c' : jwt_encode c = Ok t → jwt_decode now t = Ok c' → c' = c;
  jwt_complete c t now : jwt_encode c = Ok t → now ≤ jwt_exp c → jwt_decode now t = Ok c
}.

(** ** The database, and the buckets of keys that the process keeps *)
Record NonceRow : Type := MkNonce { nr_nonce : string; nr_address : string; nr_used : bool; nr_expires_at : Z }.
#[export] Instance eta_NonceRow : Eta NonceRow := λ r,
  MkNonce (nr_nonce r) (nr_address r) (nr_used r) (nr_expires_at r).
Record ApiKeyRow : Type := MkKeyRow {
  ak_id : string; ak_organizer_id : string; ak_key_hash : string; ak_prefix : string; ak_name : string;
  ak_created_at : Z; ak_last_used_at : option Z; ak_is_active : bool
}.
#[export] Instance eta_ApiKeyRow : Eta ApiKeyRow := λ r,
  MkKeyRow (ak_id r) (ak_organizer_id r) (ak_key_hash r) (ak_prefix r) (ak_name r) (ak_created_at r)
    (ak_last_used_at r) (ak_is_active r).
Record AuthDb : Type := MkAuthDb {
  jwt_nonces : gmap string NonceRow;               (** by id *)
  developer_api_keys : gmap string ApiKeyRow;      (** by id *)
  organizer_profiles : gset string;                (** addresses *)
  key_buckets : gmap string TokenBucket            (** [ApiKeyAuthState::store], by hash *)
}.
#[export] Instance eta_AuthDb : Eta AuthDb := λ d,
  MkAuthDb (jwt_nonces d) (developer_api_keys d) (organizer_profiles d) (key_buckets d).

(** The row of a nonce and of a hash: both columns are UNIQUE. *)
Definition nonce_row (db : AuthDb) (nonce : string) : option (string * NonceRow) :=
  find_row (λ r, nr_nonce r = nonce) (jwt_nonces db).
Definition key_row (db : AuthDb) (hash : string) : option (string * ApiKeyRow) :=
  find_row (λ r, ak_key_hash r = hash) (developer_api_keys db).

(** The statements of the handlers, the buckets, the clocks and the generators. *)
Inductive auth_cmd : Type → Type :=
| InsertNonce (nonce address : string) : auth_cmd (res SqlxError unit)
| SelectNonce (nonce address : string) : auth_cmd (option (string * bool * Z))
| MarkNonceUsed (id : string) : auth_cmd unit
| DeleteOldNonces : auth_cmd unit
| SelectKey (hash : string) : auth_cmd (option (string * bool))
| TouchKey (hash : string) : auth_cmd unit
| AcquireKey (hash : string) : auth_cmd bool
| InsertKey (organizer hash prefix name : string) : auth_cmd (res SqlxError ApiKeyRow)
| SelectKeys (organizer : string) : auth_cmd (list ApiKeyRow)
| RevokeKey (id organizer : string) : auth_cmd Z
| AuthNow : auth_cmd Z
| DrawBytes : auth_cmd bytes
| DrawAlnum : auth_cmd string.
(** What a command meets: the wall clock, the monotonic clock, 32 random bytes,
    32 random letters or digits and a new UUID. *)
Record AuthEnv : Type := MkAuthEnv {
  wall : Z; instant : Z; random_bytes : bytes; random_alnum : string; fresh_uuid : string
}.

(** ** API keys: the bucket of a key *)
Definition RATE_LIMIT_PER_HOUR : Z := 1000.
Definition WINDOW : Z := 3600 * 10 ^ 9.
Definition key_acquire (self : TokenBucket) (capacity refill_per_sec : Q) (now : Z) : bool * TokenBucket :=
  let t := refilled self capacity refill_per_sec now in
  if Qlt_le_dec t 1 then (false, MkBucket t now) else (true, MkBucket (fsub t 1) now).

Definition week_ms : Z := 7 * 86400000.
Definition auth_exec (env : AuthEnv) {R} (c : auth_cmd R) (db : AuthDb) : option (R * AuthDb) :=
  match c in auth_cmd R return option (R * AuthDb) with
  | InsertNonce nonce address =>
      if decide (nonce_row db nonce = None ∧ jwt_nonces db !! fresh_uuid env = None) then
        Some (Ok tt, db ⟨ jwt_nonces ::= <[fresh_uuid env := MkNonce nonce address false (wall env + 300000)]> ⟩)
      else Some (Err unique_violation, db)
  | SelectNonce nonce address =>
      Some ((λ p, (p.1, nr_used p.2, nr_expires_at p.2)) <$>
              (nonce_row db nonce ≫= λ p, if decide (nr_address p.2 = address) then Some p else None), db)
  | MarkNonceUsed id => Some (tt, db ⟨ jwt_nonces ::= alter (λ r, r ⟨ nr_used := true ⟩) id ⟩)
  | DeleteOldNonces =>
      (* created_at is expires_at less five minutes *)
      Some (tt, db ⟨ jwt_nonces ::= filter (λ p, ¬ (nr_expires_at p.2 < wall env ∨
                       (nr_used p.2 = true ∧ nr_expires_at p.2 - 300000 < wall env - week_ms))) ⟩)
  | SelectKey hash => Some ((λ p, (ak_organizer_id p.2, ak_is_active p.2)) <$> key_row db hash, db)
  | TouchKey hash =>
      Some (tt, db ⟨ developer_api_keys ::= update_rows (λ r, ak_key_hash r = hash)
                       (λ r, r ⟨ ak_last_used_at := Some (wall env) ⟩) ⟩)
  | AcquireKey hash =>
      let capacity := of_int RATE_LIMIT_PER_HOUR in
      let refill_per_sec := fdiv capacity (as_secs_f64 WINDOW) in
      let entry := default (bucket_new capacity (instant env)) (key_buckets db !! hash) in
      let ' (ok, entry) := key_acquire entry capacity refill_per_sec (instant env) in
      Some (ok, db ⟨ key_buckets ::= <[hash := entry]> ⟩)
  | InsertKey organizer hash prefix name =>
      if decide (¬ (key_row db hash = None ∧ developer_api_keys db !! fresh_uuid env = None))
      then Some (Err unique_violation, db)
      else if decide (organizer ∉ organizer_profiles db) then Some (Err foreign_key_violation, db)
      else
        let row := MkKeyRow (fresh_uuid env) organizer hash prefix name (wall env) None true in
        Some (Ok row, db ⟨ developer_api_keys ::= <[fresh_uuid env := row]> ⟩)
  | SelectKeys organizer =>
      Some (rows_desc (λ r, ak_organizer_id r = organizer ∧ ak_is_active r = true) ak_created_at
              (developer_api_keys db), db)
  | RevokeKey id organizer =>
      match developer_api_keys db !! id with
      | Some r =>
          if decide (ak_organizer_id r = organizer ∧ ak_is_active r = true)
          then Some (1, db ⟨ developer_api_keys ::= <[id := r ⟨ ak_is_active := false ⟩]> ⟩)
          else Some (0, db)
      | None => Some (0, db)
      end
  | AuthNow => Some (wall env, db)
  | DrawBytes => Some (random_bytes env, db)
  | DrawAlnum => Some (random_alnum env, db)
  end.
Abbreviation auth_prog := (prog auth_cmd).
Abbreviation auth_run env := (prun (λ R, @auth_exec env R)).

Section Auth.
Context `{Sha256} `{Signing}.

(** ** Tokens *)
Definition issue_jwt (now : Z) (address : string) : res AppError string :=
  map_err (λ e, InternalServerError ("Failed to issue JWT: " +:+ e))
    (jwt_encode (MkJwtClaims address (now / 1000) ((now + 86400000) / 1000))).
Definition verify_jwt (now : Z) (token : string) : res AppError Claims :=
  map_err (λ e, AuthError ("Invalid or expired token: " +:+ e)) (jwt_decode (now / 1000) token).

Definition api_key_prefix : string := "sk_live_".
Record Headers : Type := MkAuthHeaders { x_api_key_organizer : option string; authorization : option string }.
#[export] Instance eta_Headers : Eta Headers := λ h, MkAuthHeaders (x_api_key_organizer h) (authorization h).

Definition extract_bearer (now : Z) (headers : Headers) : res AppError string :=
  let! header := ok_or (authorization headers) (AuthError "Missing Authorization header") in
  let! token := ok_or (strip_prefix "Bearer " header) (AuthError "Authorization header must use Bearer scheme") in
  if starts_with api_key_prefix token then Err (AuthError "Invalid API key")
  else let! claims := verify_jwt now token in Ok (jwt_sub claims).
Definition extract_auth (now : Z) (headers : Headers) : res AppError string :=
  match x_api_key_organizer headers with
  | Some org => if decide (org = EmptyString) then extract_bearer now headers else Ok org
  | None => extract_bearer now headers
  end.

(** ** Signing in *)
Definition validate_stellar_address (address : string) : bool :=
  starts_with "G" address && (String.length address =? 56)%nat && is_public_strkey address.
Definition hex (l : bytes) : string := String.string_of_list_ascii (hex_encode l).
Definition request_nonce (address : string) : auth_prog AppError string :=
  if decide (address = EmptyString) then ret (Err (ValidationError "address is required"))
  else if negb (validate_stellar_address address)
  then ret (Err (ValidationError "address must be a valid Stellar public key"))
  else
    let!? random := DrawBytes in
    let nonce := hex random in
    let!? inserted := InsertNonce nonce address in
    let* _ := ret (map_err DatabaseError inserted) in
    ret (Ok nonce).

Record VerifyRequest : Type := MkVerifyReq {
  vr_address : string; vr_nonce : string; vr_signature : string; vr_public_key : string
}.
Record SignedIn : Type := MkSignedIn { si_token : string; si_cookie : string }.
(** Step 2 of [verify_signature]. *)
Definition check_signature (payload : VerifyRequest) : res AppError unit :=
  let! sig_bytes := ok_or (hex_decode (vr_signature payload)) (ValidationError "signature must be valid hex") in
  let! pk_bytes := ok_or (hex_decode (vr_public_key payload)) (ValidationError "public_key must be valid hex") in
  do! fail_if (negb (length pk_bytes =? 32)%nat) (ValidationError "public_key must be 32 bytes") in
  do! fail_if (negb (String.eqb (strkey_of pk_bytes) (vr_address payload)))
        (AuthError "Public key does not match address") in
  do! fail_if (negb (verifying_key pk_bytes)) (ValidationError "public_key must be a 32-byte Ed25519 key") in
  do! fail_if (negb (length sig_bytes =? 64)%nat) (ValidationError "signature must be 64 bytes") in
  fail_if (negb (ed25519_verify pk_bytes (as_bytes (vr_nonce payload)) sig_bytes))
    (AuthError "Signature verification failed").
Definition verify_signature (payload : VerifyRequest) : auth_prog AppError SignedIn :=
  if decide (vr_address payload = EmptyString ∨ vr_nonce payload = EmptyString ∨
             vr_signature payload = EmptyString ∨ vr_public_key payload = EmptyString)
  then ret (Err (ValidationError "address, nonce, signature, and public_key are all required"))
  else
    let!? row := SelectNonce (vr_nonce payload) (vr_address payload) in
    match row with
    | None => ret (Err (AuthError "Nonce not found or address mismatch"))
    | Some (id, used, expires_at) =>
        if used : bool then ret (Err (AuthError "Nonce has already been used"))
        else
          let!? now := AuthNow in
          if expires_at <? now then ret (Err (AuthError "Nonce has expired"))
          else
            let* _ := ret (check_signature payload) in
            let!? _ := MarkNonceUsed id in
            let!? now := AuthNow in
            let* token := ret (issue_jwt now (vr_address payload)) in
            let!? csrf := DrawBytes in
            ret (Ok (MkSignedIn token ("XSRF-TOKEN=" +:+ hex csrf +:+ "; Path=/; HttpOnly; SameSite=Lax")))
    end.

(** ** API keys *)
Definition hash_key (key : string) : string := hex (sha256 (as_bytes key)).
Definition prefix_of (key : string) : string := String.substring 0 8 key.
Record CreatedKey : Type := MkCreatedKey { ck_id : string; ck_key : string; ck_prefix : string; ck_name : string; ck_created_at : Z }.
Definition create_api_key (now : Z) (headers : Headers) (name : string) : auth_prog AppError CreatedKey :=
  let* address := ret (extract_auth now headers) in
  if decide (trim name = EmptyString) then ret (Err (ValidationError "name is required"))
  else if (100 <? String.length name)%nat then ret (Err (ValidationError "name must not exceed 100 characters"))
  else
    let!? alnum := DrawAlnum in
    let plaintext := api_key_prefix +:+ alnum in
    let!? inserted := InsertKey address (hash_key plaintext) (prefix_of plaintext) (trim name) in
    let* row := ret (map_err DatabaseError inserted) in
    ret (Ok (MkCreatedKey (ak_id row) plaintext (ak_prefix row) (ak_name row) (ak_created_at row))).
(** The items leave the owner and the hash out. *)
Record ApiKeyListItem : Type := MkKeyItem {
  li_id : string; li_prefix : string; li_name : string; li_created_at : Z;
  li_last_used_at : option Z; li_is_active : bool
}.
Definition list_api_keys (now : Z) (headers : Headers) : auth_prog AppError (list ApiKeyListItem) :=
  let* address := ret (extract_auth now headers) in
  let!? rows := SelectKeys address in
  ret (Ok (map (λ r, MkKeyItem (ak_id r) (ak_prefix r) (ak_name r) (ak_created_at r) (ak_last_used_at r)
                       (ak_is_active r)) rows)).
Definition revoke_api_key (now : Z) (headers : Headers) (id : string) : auth_prog AppError unit :=
  let* address := ret (extract_auth now headers) in
  let!? affected := RevokeKey id address in
  if affected =? 0 then ret (Err (NotFound ("API key " +:+ id +:+ " not found"))) else ret (Ok tt).

(** ** The middleware

    What it hands on: the headers, the extension [ApiKeyOrganizer], and the key
    of which a task it spawns sets [last_used_at]. *)
Record Passed : Type := MkPassed { p_headers : Headers; p_extension : option string; p_spawned : option string }.
Definition api_error (status : Z) (message : string) : ApiError := api_error_new None status message.
Definition inject (now : Z) (headers : Headers) (organizer_id : string) : Headers :=
  let headers := if header_text organizer_id then headers ⟨ x_api_key_organizer := Some organizer_id ⟩ else headers in
  match issue_jwt now organizer_id with
  | Ok jwt =>
      let val := "Bearer " +:+ jwt in
      if header_text val then headers ⟨ authorization := Some val ⟩ else headers
  | _ => headers
  end.
Definition api_key_auth_middleware (headers : Headers) : auth_prog ApiError Passed :=
  let headers := headers ⟨ x_api_key_organizer := None ⟩ in
  let pass := ret (Ok (MkPassed headers None None)) in
  match strip_prefix "Bearer " (default EmptyString (authorization headers)) with
  | Some token =>
      if starts_with api_key_prefix token then
        if negb (String.length token =? String.length api_key_prefix + 32)%nat
        then ret (Err (api_error 401 "Invalid API key format"))
        else
          let key_hash := hash_key token in
          Call (SelectKey key_hash) (λ row,
            match row with
            | Some (Some (organizer_id, is_active)) =>
                if negb is_active then ret (Err (api_error 401 "API key has been revoked"))
                else
                  call_or (api_error 500 "Internal error") (AcquireKey key_hash) (λ ok,
                    if negb ok
                    then ret (Err (api_error 429 "API key rate limit exceeded (1000 requests per hour)"))
                    else
                      call_or (api_error 500 "Internal error") AuthNow (λ now,
                        ret (Ok (MkPassed (inject now headers organizer_id) (Some organizer_id) (Some key_hash)))))
            | Some None => ret (Err (api_error 401 "Invalid API key"))
            | None => ret (Err (api_error 500 "Internal error"))
            end)
      else pass
  | None => pass
  end.
Definition extract_organizer (now : Z) (req : Passed) : res AppError string :=
  match p_extension req with
  | Some org => Ok org
  | None => extract_auth now (p_headers req)
  end.
End Auth.

(** ** Cross-site requests and administrators *)
Inductive Method : Type := GET | HEAD | OPTIONS | POST | PUT | PATCH | DELETE.
Fixpoint contains (s p : string) : bool :=
  starts_with p s || match s with EmptyString => false | String _ s => contains s p end.
Definition check_csrf (method : Method) (path : string) (cookie header : option string) : res AppError unit :=
  match method with
  | GET | HEAD | OPTIONS => Ok tt
  | _ =>
      if contains path "/auth/nonce" || contains path "/auth/verify" then Ok tt
      else
        match cookie, header with
        | Some cookie, Some header =>
            if String.eqb cookie header && negb (String.eqb cookie EmptyString) then Ok tt
            else Err (AuthError "CSRF validation failed")
        | _, _ => Err (AuthError "CSRF validation failed")
        end
  end.
(** The error is the message of a response with status 401. *)
Definition require_admin_token (token : option string) (authorization : option string) : res string unit :=
  match token with
  | None => Err "Admin token is not configured"
  | Some expected =>
      match authorization ≫= strip_prefix "Bearer " with
      | Some token => if String.eqb token expected then Ok tt else Err "Missing or invalid admin token"
      | None => Err "Missing or invalid admin token"
      end
  end.
