(* ===== verification/SrvAuthSpecs.v ===== *)
(** * The server: what authentication promises

    Every statement is about a program that runs among others: between any two
    of its commands, commands of other requests run, with the clocks and draws
    of their moments, and each command may get lost. *)

From Stdlib Require Import QArith.
From S2P Require Import Prelude Machine Float Prog ZkBytes WaitPow.
From S2P Require Import SrvErrors SrvRate SrvAuth.
#[local] Open Scope Z_scope.

Definition auth_step_at (env : AuthEnv) : ∀ R, auth_cmd R → AuthDb → option (R * AuthDb) := @auth_exec env.
(** A command among those that satisfy [P]. *)
Definition auth_step (P : ∀ R, auth_cmd R → Prop) (db db' : AuthDb) : Prop :=
  ∃ env R (c : auth_cmd R) r, P R c ∧ auth_exec env c db = Some (r, db').
Abbreviation among P := (behaves auth_step_at (rtc (auth_step P))).

(** What every such command preserves, they preserve together. *)
Lemma auth_preserved P (I : AuthDb → Prop) db db' :
  (∀ env R (c : auth_cmd R) r d d', P R c → I d → auth_exec env c d = Some (r, d') → I d') →
  rtc (auth_step P) db db' → I db → I db'.
Proof. intros HI Hr. induction Hr as [|a b c (env & R & cm & r & HP & He) _ IH]; [done|]. eauto. Qed.

(** Anything but drawing a given nonce once more. *)
Definition not_drawing (nonce : string) R (c : auth_cmd R) : Prop :=
  match c with InsertNonce n _ => n ≠ nonce | _ => True end.

(** ** Nonces *)
Definition nonces_unique (db : AuthDb) : Prop :=
  ∀ i j r s, jwt_nonces db !! i = Some r → jwt_nonces db !! j = Some s → nr_nonce r = nr_nonce s → i = j.
(** No row but [id] holds the nonce. *)
Definition only_at (nonce id : string) (db : AuthDb) : Prop :=
  ∀ i r, jwt_nonces db !! i = Some r → nr_nonce r = nonce → i = id.
(** Every row that holds it is used. *)
Definition spent (nonce : string) (db : AuthDb) : Prop :=
  ∀ i r, jwt_nonces db !! i = Some r → nr_nonce r = nonce → nr_used r = true.

(** How a command changes the table of nonces. *)
Lemma exec_nonces env R (c : auth_cmd R) r db db' i row :
  auth_exec env c db = Some (r, db') → jwt_nonces db' !! i = Some row →
  (∃ row0, jwt_nonces db !! i = Some row0 ∧ nr_nonce row = nr_nonce row0 ∧ (nr_used row0 = true → nr_used row = true)) ∨
  (i = fresh_uuid env ∧ ¬ not_drawing (nr_nonce row) R c ∧ nonce_row db (nr_nonce row) = None).
Proof.
  destruct c; cbn; intros He Hi; simplify_eq; try (left; by exists row).
  - destruct (decide _) as [[Hn Hf]|]; simplify_eq; [|left; by exists row]. cbn in Hi.
    apply lookup_insert_Some in Hi as [[<- <-]|[? Hi]]; [|left; by exists row]. right. cbn. split_and!; [done|by intros []|done].
  - cbn in Hi. left. destruct (decide (i = id)) as [->|Hne].
    + rewrite lookup_alter_eq in Hi. apply fmap_Some in Hi as (row0 & H0 & ->). by exists row0.
    + rewrite lookup_alter_ne in Hi by done. by exists row.
  - cbn in Hi. apply map_lookup_filter_Some in Hi as [Hi _]. left. by exists row.
  - destruct (key_acquire _ _ _ _). simplify_eq. left. by exists row.
  - repeat case_decide; simplify_eq; left; by exists row.
  - destruct (developer_api_keys db !! id) as [k|]; [case_decide|]; simplify_eq; left; by exists row.
Qed.
Lemma exec_nonces_unique env R (c : auth_cmd R) r db db' :
  auth_exec env c db = Some (r, db') → nonces_unique db → nonces_unique db'.
Proof.
  intros He Hu i j a b Hi Hj Hab.
  destruct (exec_nonces _ _ _ _ _ _ _ _ He Hi) as [(a0 & Ha0 & Han & _)|(-> & _ & Hna)],
           (exec_nonces _ _ _ _ _ _ _ _ He Hj) as [(b0 & Hb0 & Hbn & _)|(-> & _ & Hnb)]; [| | |done].
  - eapply Hu; [done..|congruence].
  - exfalso. eapply find_row_None in Hnb; [|exact Ha0]. apply Hnb. congruence.
  - exfalso. eapply find_row_None in Hna; [|exact Hb0]. apply Hna. congruence.
Qed.
Section Nonce.
Variables (nonce id : string).
Abbreviation others := (rtc (auth_step (not_drawing nonce))).
Lemma others_unique db db' : others db db' → nonces_unique db → nonces_unique db'.
Proof. apply auth_preserved. intros env R c r d d' _ Hd He. by eapply exec_nonces_unique. Qed.
Lemma others_only_at db db' : others db db' → only_at nonce id db → only_at nonce id db'.
Proof.
  apply auth_preserved. intros env R c r d d' Hc Hd He i row Hi Hn.
  destruct (exec_nonces _ _ _ _ _ _ _ _ He Hi) as [(row0 & H0 & Hn0 & _)|(_ & Hx & _)]; [|by rewrite Hn in Hx].
  apply (Hd _ row0); [done|congruence].
Qed.
Lemma exec_spent env R (c : auth_cmd R) r db db' :
  not_drawing nonce R c → auth_exec env c db = Some (r, db') → spent nonce db → spent nonce db'.
Proof.
  intros Hc He Hd i row Hi Hn.
  destruct (exec_nonces _ _ _ _ _ _ _ _ He Hi) as [(row0 & H0 & Hn0 & Hu)|(_ & Hx & _)]; [|by rewrite Hn in Hx].
  apply Hu, (Hd i); [done|congruence].
Qed.
Lemma others_spent db db' : others db db' → spent nonce db → spent nonce db'.
Proof. apply auth_preserved. intros env R c r d d' Hc Hd He. by eapply exec_spent. Qed.
Lemma mark_spent env db r db' :
  only_at nonce id db → auth_exec env (MarkNonceUsed id) db = Some (r, db') → spent nonce db'.
Proof.
  cbn. intros Ho He i row Hi Hn. simplify_eq. cbn in Hi. destruct (decide (i = id)) as [->|Hne].
  - rewrite lookup_alter_eq in Hi. apply fmap_Some in Hi as (row0 & _ & ->). done.
  - rewrite lookup_alter_ne in Hi by done. destruct Hne. by eapply Ho.
Qed.
End Nonce.

Section Auth.
Context `{Sha256} `{Signing}.

(** What a sign-in that succeeded went through. *)
Lemma sign_in_inv P payload db si db' : among P (verify_signature payload) db (Ok si) db' →
  ∃ env1 env2 env3 db1 db2 db3 id row,
    rtc (auth_step P) db db1 ∧ nonce_row db1 (vr_nonce payload) = Some (id, row) ∧
    nr_address row = vr_address payload ∧ nr_used row = false ∧ wall env1 ≤ nr_expires_at row ∧
    check_signature payload = Ok tt ∧
    rtc (auth_step P) db1 db2 ∧ auth_exec env2 (MarkNonceUsed id) db2 = Some (tt, db3) ∧
    rtc (auth_step P) db3 db' ∧ issue_jwt (wall env3) (vr_address payload) = Ok (si_token si).
Proof.
  unfold verify_signature. intros Hb. next Hb. read Hb.
  destruct (nonce_row d _) as [[id row]|] eqn:Hrow; cbn [mbind option_bind] in Hb; [|by destruct Hb].
  destruct (decide _) in Hb; cbn [fmap option_fmap option_map fst snd] in Hb; [|by destruct Hb].
  destruct (nr_used row) eqn:Hu; next Hb. read Hb. next Hb.
  apply behaves_call_or in Hb as (env2 & db2 & [] & db3 & Hr2 & Hs2 & Hb). read Hb. next Hb. read Hb. next Hb.
  exists env0, env2, env1, d, db2, db3, id, row. split_and!; try done; [lia|by etrans..].
Qed.
Lemma check_signature_Ok payload : check_signature payload = Ok tt →
  ∃ pk sig, hex_decode (vr_public_key payload) = Some pk ∧ hex_decode (vr_signature payload) = Some sig ∧
    length pk = 32%nat ∧ length sig = 64%nat ∧ strkey_of pk = vr_address payload ∧
    ed25519_verify pk (as_bytes (vr_nonce payload)) sig = true.
Proof.
  unfold check_signature. intros Hc. run Hc. exists x0, x. split_and!; try done; try (by apply Nat.eqb_eq).
  by apply String.eqb_eq.
Qed.

(** A nonce that was spent signs nobody in any more. *)
Lemma spent_refused payload db si db' :
  spent (vr_nonce payload) db → ¬ among (not_drawing (vr_nonce payload)) (verify_signature payload) db (Ok si) db'.
Proof.
  intros Hs (_ & _ & _ & db1 & _ & _ & id & row & Hr & Hrow & _ & Hu & _)%sign_in_inv.
  apply find_row_Some in Hrow as [Hrow Hn]. apply (others_spent _ _ _ Hr) in Hs. rewrite (Hs _ _ Hrow Hn) in Hu. done.
Qed.
Lemma sign_in_spends payload db si db' :
  nonces_unique db → among (not_drawing (vr_nonce payload)) (verify_signature payload) db (Ok si) db' →
  spent (vr_nonce payload) db'.
Proof.
  intros Hu (_ & env2 & _ & db1 & db2 & db3 & id & row & Hr & Hrow & _ & _ & _ & _ & Hr2 & Hm & Hr3 & _)%sign_in_inv.
  eapply others_spent; [done|]. eapply mark_spent; [|done]. eapply others_only_at; [done|].
  apply find_row_Some in Hrow as [Hrow Hn]. intros i r Hi Hin.
  eapply (others_unique _ _ _ Hr Hu); [done..|congruence].
Qed.


(** ** API keys *)
Lemma strip_prefix_Some p s t : strip_prefix p s = Some t ↔ s = p +:+ t.
Proof.
  revert s. induction p as [|a p IH]; intros s; [split; [by intros [= ->]|by intros ->]|]. cbn [strip_prefix].
  destruct s as [|b s]; [done|]. destruct (Ascii.eqb_spec a b) as [->|Hne].
  - rewrite IH. cbn. split; [by intros ->|by intros [=]].
  - cbn. split; [done|]. intros [=]. congruence.
Qed.
(** A row of the table that vouches for the wallet. *)
Definition vouches (db : AuthDb) (key wallet : string) : Prop :=
  ∃ id row, developer_api_keys db !! id = Some row ∧ ak_key_hash row = hash_key key ∧
    ak_is_active row = true ∧ ak_organizer_id row = wallet.
Definition bearer (headers : Headers) (token : string) : Prop :=
  authorization headers = Some ("Bearer " +:+ token).

Lemma middleware_inv P headers db req db' : among P (api_key_auth_middleware headers) db (Ok req) db' →
  (∃ key org env dbm, bearer headers key ∧ starts_with api_key_prefix key = true ∧
     rtc (auth_step P) db dbm ∧ vouches dbm key org ∧
     req = MkPassed (inject (wall env) (headers ⟨ x_api_key_organizer := None ⟩) org) (Some org) (Some (hash_key key))) ∨
  (req = MkPassed (headers ⟨ x_api_key_organizer := None ⟩) None None ∧
   ∀ key, bearer headers key → starts_with api_key_prefix key = false).
Proof.
  unfold api_key_auth_middleware, bearer. cbv zeta. intros Hb.
  change (authorization (headers ⟨ x_api_key_organizer := None ⟩)) with (authorization headers) in Hb.
  destruct (strip_prefix "Bearer " _) as [token|] eqn:Hst.
  2: { right. next Hb. split; [done|]. intros key Hk. by rewrite Hk in Hst. }
  apply strip_prefix_Some in Hst. destruct (authorization headers) as [h|] eqn:Hh; [|done]. cbn in Hst. subst h.
  destruct (starts_with api_key_prefix token) eqn:Hp.
  2: { right. next Hb. split; [done|]. intros key Hk. by simplify_eq. }
  left. destruct (negb _) eqn:Hlen in Hb; [by destruct Hb|].
  destruct Hb as (env & dbm & Hr & [[? ?]|(r & dbm' & Hs & [Hb|[? ?]])]); [done| |done].
  cbn in Hs. simplify_eq. destruct (key_row dbm' _) as [[id row]|] eqn:Hrow; [|by destruct Hb].
  cbn [fmap option_fmap option_map fst snd] in Hb. destruct (ak_is_active row) eqn:Hact; [|by destruct Hb].
  cbn [negb] in Hb. apply behaves_call_or in Hb as (env2 & db2 & ok & db3 & Hr2 & Hs2 & Hb).
  destruct (negb ok); [by destruct Hb|]. read Hb. next Hb.
  apply find_row_Some in Hrow as [Hrow Hhash].
  exists token, (ak_organizer_id row), env0, dbm'. split_and!; try done. by exists id, row.
Qed.

(** The wallet that handlers read off what the middleware injected. *)
Lemma inject_auth `{!SigningLaws} t now headers key org w :
  x_api_key_organizer headers = None → bearer headers key → starts_with api_key_prefix key = true →
  extract_auth now (inject t headers org) = Ok w → w = org.
Proof.
  unfold inject, bearer, extract_auth. intros Hx Hb Hp Hw.
  assert (Hkeep : ∀ h, authorization h = authorization headers → extract_bearer now h = Ok w → w = org).
  { intros h Hh Hw'. unfold extract_bearer in Hw'. rewrite Hh, Hb in Hw'. cbn [ok_or rbind] in Hw'.
    rewrite (proj2 (strip_prefix_Some _ _ key) eq_refl) in Hw'. cbn [ok_or rbind] in Hw'. by rewrite Hp in Hw'. }
  assert (Hmint : ∀ h, issue_jwt t org = Ok h → ∀ hd, authorization hd = Some ("Bearer " +:+ h) →
            extract_bearer now hd = Ok w → w = org).
  { intros h Hi hd Hh Hw'. unfold extract_bearer in Hw'. rewrite Hh in Hw'. cbn [ok_or rbind] in Hw'.
    rewrite (proj2 (strip_prefix_Some _ _ h) eq_refl) in Hw'. cbn [ok_or rbind] in Hw'.
    destruct (starts_with _ h); [done|]. unfold verify_jwt, issue_jwt in *.
    destruct (jwt_encode _) eqn:He in Hi; cbn in Hi; simplify_eq.
    destruct (jwt_decode _ _) eqn:Hd in Hw'; cbn in Hw'; simplify_eq.
    by rewrite (jwt_sound _ _ _ _ He Hd). }
  destruct (header_text org); destruct (issue_jwt t org) as [jwt|e|] eqn:Hi;
    try destruct (header_text ("Bearer " +:+ jwt)); cbn [upd eta_Headers x_api_key_organizer] in Hw;
    rewrite ?Hx in Hw; try case_decide; try (by simplify_eq); try (by eapply Hkeep; [|exact Hw]);
    by eapply Hmint; [..|exact Hw].
Qed.

(** C14. Who a request comes from.  Whatever headers a client sends, an
    [x-api-key-organizer] of its own included, and whatever others do to the
    tables meanwhile, the wallet that handlers behind the middleware take the
    request to come from is the owner of an active API key whose hash is that of
    the key the request bears, or the subject of a token that the request bears
    and that verifies at that moment. *)
Theorem middleware_authentic `{!SigningLaws} P headers db req db' now wallet :
  among P (api_key_auth_middleware headers) db (Ok req) db' →
  extract_auth now (p_headers req) = Ok wallet ∨ extract_organizer now req = Ok wallet →
  (∃ key dbm, bearer headers key ∧ rtc (auth_step P) db dbm ∧ vouches dbm key wallet) ∨
  (∃ token claims, bearer headers token ∧ jwt_decode (now / 1000) token = Ok claims ∧ jwt_sub claims = wallet).
Proof.
  intros [(key & org & env & dbm & Hb & Hp & Hr & Hv & ->)|[-> Hno]]%middleware_inv Hw.
  - left. exists key, dbm. split_and!; [done|done|]. cut (wallet = org); [by intros ->|].
    destruct Hw as [Hw|Hw]; [by eapply inject_auth in Hw|]. cbn in Hw. by simplify_eq.
  - right. unfold extract_organizer in Hw. cbn [p_extension p_headers] in Hw.
    assert (Hx : extract_bearer now headers = Ok wallet) by (by destruct Hw).
    unfold extract_bearer in Hx. apply rbind_Ok in Hx as (h & Hh & Hx). apply rbind_Ok in Hx as (token & Ht & Hx).
    apply ok_or_Ok in Hh, Ht. apply strip_prefix_Some in Ht as ->. destruct (starts_with _ token); [done|].
    unfold verify_jwt in Hx. destruct (jwt_decode _ token) as [claims| |] eqn:Hd; cbn in Hx; simplify_eq.
    by exists token, claims.
Qed.
End Auth.

(** ** Cross-site requests *)
(** A request that changes something passes only with a pair of equal, non-empty
    tokens, or on one of the two paths that sign in. *)
Lemma csrf_needs_pair method path cookie header :
  check_csrf method path cookie header = Ok tt ↔
  method = GET ∨ method = HEAD ∨ method = OPTIONS ∨
  contains path "/auth/nonce" || contains path "/auth/verify" = true ∨
  ∃ t, cookie = Some t ∧ header = Some t ∧ t ≠ "".
Proof.
  set (pair := ∃ t, _).
  assert (Hpair : match cookie, header with
                  | Some c, Some h => if String.eqb c h && negb (String.eqb c "") then Ok tt
                                      else Err (AuthError "CSRF validation failed")
                  | _, _ => Err (AuthError "CSRF validation failed")
                  end = Ok tt ↔ pair).
  { subst pair. destruct cookie as [c|]; [|by split; [|intros (? & ? & _)]].
    destruct header as [h|]; [|by split; [|intros (? & _ & ? & _)]].
    destruct (String.eqb_spec c h) as [<-|Hne], (String.eqb_spec c "") as [->|He]; cbn [andb negb];
      (split; [intros Heq; try done; by exists c|intros (t & Hc & Hh & Ht); by simplify_eq]). }
  unfold check_csrf.
  destruct (contains path "/auth/nonce" || contains path "/auth/verify"), method; try rewrite Hpair; intuition done.
Qed.

(** ** The server: the life of an API key

    From [create_api_key] to [revoke_api_key], through [api_key_auth_middleware]. *)
#[local] Open Scope Z_scope.

Definition keys_unique (db : AuthDb) : Prop :=
  ∀ i j r s, developer_api_keys db !! i = Some r → developer_api_keys db !! j = Some s →
    ak_key_hash r = ak_key_hash s → i = j.
(** The hash is in the table, with keys that are revoked only. *)
Definition revoked (hash : string) (db : AuthDb) : Prop :=
  (∃ i r, developer_api_keys db !! i = Some r ∧ ak_key_hash r = hash) ∧
  ∀ i r, developer_api_keys db !! i = Some r → ak_key_hash r = hash → ak_is_active r = false.

(** How a command changes the table of keys: rows stay, their hashes too, and no
    row becomes active again. *)
Lemma exec_keys env R (c : auth_cmd R) r db db' i row :
  auth_exec env c db = Some (r, db') → developer_api_keys db' !! i = Some row →
  (∃ row0, developer_api_keys db !! i = Some row0 ∧ ak_key_hash row = ak_key_hash row0 ∧
     (ak_is_active row0 = false → ak_is_active row = false)) ∨
  (i = fresh_uuid env ∧ key_row db (ak_key_hash row) = None).
Proof.
  destruct c; cbn; intros He Hi; simplify_eq; try (left; by exists row).
  - case_decide; simplify_eq; left; by exists row.
  - cbn in Hi. rewrite lookup_update_rows in Hi. apply fmap_Some in Hi as (row0 & H0 & ->).
    left. exists row0. by case_decide.
  - destruct (key_acquire _ _ _ _). simplify_eq. left. by exists row.
  - case_decide as Hd; simplify_eq; [left; by exists row|]. case_decide; simplify_eq; [left; by exists row|].
    cbn in Hi. apply lookup_insert_Some in Hi as [[<- <-]|[? Hi]]; [|left; by exists row].
    right. split; [done|]. cbn. apply dec_stable. naive_solver.
  - destruct (developer_api_keys db !! id) as [k|] eqn:Hk; [case_decide|]; simplify_eq; try (left; by exists row).
    cbn in Hi. left. apply lookup_insert_Some in Hi as [[<- <-]|[? Hi]]; [by exists k|by exists row].
Qed.
Lemma exec_keys_stay env R (c : auth_cmd R) r db db' i row0 :
  auth_exec env c db = Some (r, db') → developer_api_keys db !! i = Some row0 →
  ∃ row, developer_api_keys db' !! i = Some row ∧ ak_key_hash row = ak_key_hash row0.
Proof.
  destruct c; cbn; intros He Hi; simplify_eq; try (by exists row0).
  - case_decide; simplify_eq; by exists row0.
  - cbn. rewrite lookup_update_rows, Hi. cbn. eexists; split; [done|]. by case_decide.
  - destruct (key_acquire _ _ _ _). simplify_eq. by exists row0.
  - case_decide as Hd; simplify_eq; [by exists row0|]. case_decide; simplify_eq; [by exists row0|].
    exists row0. split; [|done]. cbn. rewrite lookup_insert_ne; [done|]. intros <-. destruct Hd. congruence.
  - destruct (developer_api_keys db !! id) as [k|] eqn:Hk; [case_decide|]; simplify_eq; try (by exists row0).
    cbn. destruct (decide (i = id)) as [->|Hne].
    + exists (k ⟨ ak_is_active := false ⟩). rewrite lookup_insert_eq. rewrite Hk in Hi. by simplify_eq.
    + exists row0. by rewrite lookup_insert_ne.
Qed.
Lemma exec_keys_unique env R (c : auth_cmd R) r db db' :
  auth_exec env c db = Some (r, db') → keys_unique db → keys_unique db'.
Proof.
  intros He Hu i j a b Hi Hj Hab.
  destruct (exec_keys _ _ _ _ _ _ _ _ He Hi) as [(a0 & Ha0 & Han & _)|[-> Hna]],
           (exec_keys _ _ _ _ _ _ _ _ He Hj) as [(b0 & Hb0 & Hbn & _)|[-> Hnb]]; [| | |done].
  - eapply Hu; [done..|congruence].
  - exfalso. eapply find_row_None in Hnb; [|exact Ha0]. apply Hnb. congruence.
  - exfalso. eapply find_row_None in Hna; [|exact Hb0]. apply Hna. congruence.
Qed.
Lemma exec_revoked env R (c : auth_cmd R) r hash db db' :
  auth_exec env c db = Some (r, db') → revoked hash db → revoked hash db'.
Proof.
  intros He [(i0 & r0 & Hi0 & Hh0) Hall]. split.
  - destruct (exec_keys_stay _ _ _ _ _ _ _ _ He Hi0) as (r1 & Hr1 & Hh1). exists i0, r1. split; [done|congruence].
  - intros i row Hi Hh. destruct (exec_keys _ _ _ _ _ _ _ _ He Hi) as [(row0 & H0 & Hn & Ha)|[_ Hn]].
    + apply Ha, (Hall i); [done|congruence].
    + exfalso. eapply find_row_None in Hn; [|exact Hi0]. apply Hn. congruence.
Qed.
Section Others.
Variable P : ∀ R, auth_cmd R → Prop.
Lemma others_keys_unique db db' : rtc (auth_step P) db db' → keys_unique db → keys_unique db'.
Proof. apply auth_preserved. intros env R c r d d' _ Hd He. by eapply exec_keys_unique. Qed.
Lemma others_revoked hash db db' : rtc (auth_step P) db db' → revoked hash db → revoked hash db'.
Proof. apply auth_preserved. intros env R c r d d' _ Hd He. by eapply exec_revoked. Qed.
Lemma others_key_stays id row db db' : rtc (auth_step P) db db' → developer_api_keys db !! id = Some row →
  ∃ row', developer_api_keys db' !! id = Some row' ∧ ak_key_hash row' = ak_key_hash row.
Proof.
  intros Hr Hi. apply (auth_preserved P (λ d, ∃ row', developer_api_keys d !! id = Some row' ∧
    ak_key_hash row' = ak_key_hash row) _ _) in Hr; [done| |by exists row].
  intros env R c r d d' _ (row1 & H1 & Hh1) He.
  destruct (exec_keys_stay _ _ _ _ _ _ _ _ He H1) as (row2 & H2 & Hh2). exists row2. split; [done|congruence].
Qed.
End Others.

Section Keys.
Context `{Sha256} `{Signing}.

(** A revoked key opens nothing.  Once [revoke_api_key] has answered that the
    key with an id is revoked, and whatever other requests did meanwhile and do
    later, no request that bears a key with the hash of that row passes the
    middleware. *)
Theorem revoked_key_refused P now headers id row key headers' db db1 db2 out db3 :
  keys_unique db →
  developer_api_keys db !! id = Some row → ak_key_hash row = hash_key key →
  among P (revoke_api_key now headers id) db (Ok tt) db1 →
  rtc (auth_step P) db1 db2 →
  bearer headers' key → starts_with api_key_prefix key = true →
  among P (api_key_auth_middleware headers') db2 out db3 →
  is_ok out = false.
Proof.
  intros Hu Hrow Hk Hrev Hr2 Hb Hp Hm. destruct out as [req| |]; [|done|done]. exfalso.
  unfold revoke_api_key in Hrev. next Hrev.
  apply behaves_call_or in Hrev as (env & d & n & d1 & Hr & Hs & Hrev). next Hrev.
  destruct (others_key_stays _ _ _ _ _ Hr Hrow) as (row1 & H1 & Hh1).
  cbn in Hs. rewrite H1 in Hs. case_decide; simplify_eq.
  assert (Hrevoked : revoked (hash_key key) db2).
  { eapply others_revoked; [exact Hr2|]. split; cbn.
    - exists id, (row1 ⟨ ak_is_active := false ⟩). rewrite lookup_insert_eq. split; [done|]. cbn. congruence.
    - intros i r Hi Hh. apply lookup_insert_Some in Hi as [[<- <-]|[Hne Hi]]; [done|]. destruct Hne.
      symmetry. eapply (others_keys_unique _ _ _ Hr Hu); [exact Hi|exact H1|congruence]. }
  apply middleware_inv in Hm as [(key' & org & env2 & dbm & Hb' & _ & Hrm & (i & r & Hi & Hh & Hact & _) & _)|[_ Hno]].
  - unfold bearer in *. simplify_eq. apply (others_revoked _ _ _ _ Hrm) in Hrevoked as [_ Hall].
    by rewrite (Hall _ _ Hi Hh) in Hact.
  - by rewrite (Hno _ Hb) in Hp.
Qed.

(** The bucket of a key that was never used lets a request through. *)
Lemma fresh_key_acquires env hash db : key_buckets db !! hash = None →
  ∃ db', auth_exec env (AcquireKey hash) db = Some (true, db').
Proof.
  intros Hb. cbn. rewrite Hb. cbn [default from_option]. unfold key_acquire, refilled, bucket_new, duration_since.
  cbn [tokens last_refill]. rewrite Z.sub_diag.
  set (t := fmin _ _). assert (Ht : (1 <= t)%Q) by (vm_compute; discriminate).
  destruct (Qlt_le_dec t 1) as [Hlt|_]; [|by eexists]. exfalso. by apply (Qlt_not_le _ _ Hlt).
Qed.

(** A request that bears an active key with a token left in its bucket. *)
Lemma middleware_passes env key id row spoof db db' :
  starts_with api_key_prefix key = true → String.length key = 40%nat →
  key_row db (hash_key key) = Some (id, row) → ak_is_active row = true →
  auth_exec env (AcquireKey (hash_key key)) db = Some (true, db') →
  auth_run env (api_key_auth_middleware (MkAuthHeaders spoof (Some ("Bearer " +:+ key)))) db =
    (Ok (MkPassed (inject (wall env) (MkAuthHeaders None (Some ("Bearer " +:+ key))) (ak_organizer_id row))
           (Some (ak_organizer_id row)) (Some (hash_key key))), db').
Proof.
  intros Hp Hlen Hrow Hact Hacq. unfold api_key_auth_middleware. cbv zeta.
  change (authorization ((MkAuthHeaders spoof (Some ("Bearer " +:+ key))) ⟨ x_api_key_organizer := None ⟩))
    with (Some ("Bearer " +:+ key)).
  change (default EmptyString (Some ("Bearer " +:+ key))) with ("Bearer " +:+ key).
  replace (strip_prefix "Bearer " ("Bearer " +:+ key)) with (Some key) by (symmetry; by apply strip_prefix_Some).
  rewrite Hp, Hlen. cbn [negb Nat.eqb String.length api_key_prefix Nat.add prun]. cbn [auth_exec]. rewrite Hrow.
  cbn [fmap option_fmap option_map fst snd]. rewrite Hact. cbn [negb call_or prun]. rewrite Hacq. by cbn [negb prun call_or auth_exec].
Qed.
Lemma inject_names t now headers org : org ≠ "" → header_text org = true → extract_auth now (inject t headers org) = Ok org.
Proof.
  intros Hne Ht. assert (Hx : x_api_key_organizer (inject t headers org) = Some org).
  { unfold inject. rewrite Ht. cbv zeta. by destruct (issue_jwt t org) as [jwt| |]; [destruct (header_text ("Bearer " +:+ jwt))|..]. }
  unfold extract_auth. rewrite Hx. by rewrite decide_False.
Qed.

(** A key works.  The key that [create_api_key] hands out, whatever others did
    meanwhile, identifies its owner from then on: the first request that bears
    it passes the middleware, and both ways in which handlers read the wallet
    give the one that asked for the key, whatever [x-api-key-organizer] the
    request carries.  (A generated key is the prefix and 32 letters or digits;
    the address of a wallet is not empty and can be the value of a header.) *)
Theorem created_key_works P now headers name wallet ck db db1 env spoof now' :
  extract_auth now headers = Ok wallet → wallet ≠ "" → header_text wallet = true →
  among P (create_api_key now headers name) db (Ok ck) db1 →
  String.length (ck_key ck) = 40%nat →
  key_buckets db1 !! hash_key (ck_key ck) = None →
  ∃ req db2,
    auth_run env (api_key_auth_middleware (MkAuthHeaders spoof (Some ("Bearer " +:+ ck_key ck)))) db1 = (Ok req, db2) ∧
    extract_auth now' (p_headers req) = Ok wallet ∧ extract_organizer now' req = Ok wallet.
Proof.
  intros Hw Hne Htext Hc Hlen Hbucket. unfold create_api_key in Hc. rewrite Hw in Hc. next Hc. simplify_eq. next Hc.
  read Hc. apply behaves_call_or in Hc as (env1 & d1 & ins & d2 & Hr1 & Hs & Hc).
  cbn in Hs. case_decide as Hd; simplify_eq; [by destruct Hc as [[=] _]|]. case_decide; simplify_eq; [by destruct Hc as [[=] _]|].
  cbn [map_err] in Hc. next Hc. cbn [ck_key ak_id] in Hbucket, Hlen |- *.
  set (key := api_key_prefix +:+ random_alnum env0) in *. set (row := MkKeyRow _ _ _ _ _ _ _ _) in *.
  set (db1 := d1 ⟨ developer_api_keys ::= _ ⟩) in *.
  assert (Hrow : key_row db1 (hash_key key) = Some (fresh_uuid env1, row)).
  { destruct Hd as [Hnone _]. apply find_row_only; [apply lookup_insert_eq|done|].
    intros k v Hk Hh. cbn in Hk. apply lookup_insert_Some in Hk as [[<- _]|[_ Hk]]; [done|].
    exfalso. by eapply find_row_None in Hnone; [|exact Hk]. }
  destruct (fresh_key_acquires env _ _ Hbucket) as [db2 Hacq].
  eexists _, _. split; [eapply middleware_passes; try done|split; [by apply inject_names|done]].
Qed.
End Keys.
