(* ===== verification/SrvMarket.v ===== *)
(** * The server: the secondary market

    [server/src/handlers/marketplace.rs] and its tables
    ([migrations/20260816000001_resale_marketplace.sql]).  The transaction that
    settles a sale is one command.  The wallet of the caller is an argument, as
    [extract_auth] gives it ([SrvAuth]).  Amounts are stroops, [i64]; texts are
    ASCII.  [base64] and the delivery of notifications belong to crates.  The last part
    compares a listing with what the payment contract settles. *)

From Stdlib Require Import QArith.
From stdpp Require Import pretty.
From S2P Require Import Prelude Machine Float Prog ZkBytes SrvErrors.
From S2P Require Import SrvRate.
#[local] Open Scope Z_scope.

Definition MAX_BPS : Z := 10000.
Definition X25519_PUBLIC_KEY_LEN : nat := 32.
Definition BOX_NONCE_LEN : nat := 24.
Definition MAX_CIPHERTEXT_BYTES : nat := 4096.
Definition DEFAULT_LIMIT : Z := 20.
Definition MAX_LIMIT : Z := 100.
Definition i64_max : Z := 2 ^ 63 - 1.
Definition i64_min : Z := - 2 ^ 63.

(** ** Rows *)
Inductive ListingStatus : Type := Active | Cancelled | Sold.
#[export] Instance ListingStatus_eq_dec : EqDecision ListingStatus.
Proof. solve_decision. Defined.
Definition status_text (s : ListingStatus) : string :=
  match s with Active => "active" | Cancelled => "cancelled" | Sold => "sold" end.
Definition parse_status (s : string) : option ListingStatus :=
  if decide (s = "active") then Some Active else if decide (s = "cancelled") then Some Cancelled
  else if decide (s = "sold") then Some Sold else None.
Record ResaleListingRow : Type := MkListing {
  l_payment_id : string; l_event_id : string; l_seller_wallet : string;
  l_price_stroops : Z; l_max_price_stroops : Z; l_royalty_bps : Z; l_status : ListingStatus;
  l_buyer_wallet : option string; l_listing_tx_hash : option string; l_sale_tx_hash : option string;
  l_sold_at : option Z; l_created_at : Z; l_updated_at : Z
}.
#[export] Instance eta_ResaleListingRow : Eta ResaleListingRow := λ l,
  MkListing (l_payment_id l) (l_event_id l) (l_seller_wallet l) (l_price_stroops l) (l_max_price_stroops l)
    (l_royalty_bps l) (l_status l) (l_buyer_wallet l) (l_listing_tx_hash l) (l_sale_tx_hash l) (l_sold_at l)
    (l_created_at l) (l_updated_at l).
Inductive OfferStatus : Type := Pending | Accepted | Withdrawn | Declined.
#[export] Instance OfferStatus_eq_dec : EqDecision OfferStatus.
Proof. solve_decision. Defined.
Record ResaleOfferRow : Type := MkOffer {
  o_id : string; o_payment_id : string; o_buyer_wallet : string; o_buyer_public_key : string;
  o_offer_price_stroops : Z; o_status : OfferStatus; o_created_at : Z
}.
#[export] Instance eta_ResaleOfferRow : Eta ResaleOfferRow := λ o,
  MkOffer (o_id o) (o_payment_id o) (o_buyer_wallet o) (o_buyer_public_key o) (o_offer_price_stroops o) (o_status o)
    (o_created_at o).
Record KeyEnvelopeRow : Type := MkEnvelope {
  e_payment_id : string; e_buyer_wallet : string; e_ephemeral_public_key : string; e_nonce : string;
  e_ciphertext : string; e_claimed_at : option Z; e_created_at : Z
}.
#[export] Instance eta_KeyEnvelopeRow : Eta KeyEnvelopeRow := λ e,
  MkEnvelope (e_payment_id e) (e_buyer_wallet e) (e_ephemeral_public_key e) (e_nonce e) (e_ciphertext e)
    (e_claimed_at e) (e_created_at e).
(** Offers and envelopes are unique per ticket and buyer, push tokens per token. *)
Record MarketDb : Type := MkMarketDb {
  resale_listings : gmap string ResaleListingRow;
  resale_offers : gmap (string * string) ResaleOfferRow;
  resale_key_envelopes : gmap (string * string) KeyEnvelopeRow;
  push_tokens : gmap string (string * string)            (** token ↦ wallet, platform *)
}.
#[export] Instance eta_MarketDb : Eta MarketDb := λ d,
  MkMarketDb (resale_listings d) (resale_offers d) (resale_key_envelopes d) (push_tokens d).

(** ** What a buyer is shown *)
Record ResaleListingView : Type := MkView {
  v_listing : ResaleListingRow; v_royalty_stroops : Z; v_seller_proceeds_stroops : Z; v_headroom_stroops : Z
}.
Definition saturating_mul_i64 (a b : Z) : Z := Z.max i64_min (Z.min i64_max (a * b)).
Definition view_of (listing : ResaleListingRow) : ResaleListingView :=
  let royalty_stroops := Z.quot (saturating_mul_i64 (l_price_stroops listing) (l_royalty_bps listing)) MAX_BPS in
  MkView listing royalty_stroops (l_price_stroops listing - royalty_stroops)
    (l_max_price_stroops listing - l_price_stroops listing).

(** ** Requests *)
Record CreateListingRequest : Type := MkCreateListing {
  cl_payment_id : string; cl_event_id : string; cl_price_stroops : Z; cl_max_price_stroops : Z;
  cl_royalty_bps : Z; cl_listing_tx_hash : option string
}.
Record ListListingsQuery : Type := MkListQuery {
  lq_event_id : option string; lq_seller_wallet : option string; lq_status : option string;
  lq_limit : option Z; lq_offset : option Z
}.
Record CreateOfferRequest : Type := MkCreateOffer { co_buyer_public_key : string; co_offer_price_stroops : Z }.
Record CreateKeyEnvelopeRequest : Type := MkCreateEnvelope {
  ce_buyer_wallet : string; ce_ephemeral_public_key : string; ce_nonce : string; ce_ciphertext : string;
  ce_sale_tx_hash : option string
}.
Record RegisterPushTokenRequest : Type := MkRegister { rp_token : string; rp_platform : string }.
Record Notification : Type := MkNotification { n_recipient : string; n_subject : string; n_body : string }.

(** ** Statements *)
Inductive market_cmd : Type → Type :=
| SelectOtherSeller (payment_id seller : string) : market_cmd (option ListingStatus)
| UpsertListing (payload : CreateListingRequest) (seller : string) : market_cmd (res SqlxError ResaleListingRow)
| SelectListing (payment_id : string) : market_cmd (option ResaleListingRow)
| SelectListings (status : ListingStatus) (event_id seller : option string) (limit offset : Z)
    : market_cmd (list ResaleListingRow)
| SetCancelled (payment_id : string) : market_cmd unit
| DeclinePending (payment_id : string) : market_cmd unit
| UpsertOffer (payment_id buyer buyer_public_key : string) (price : Z) : market_cmd (res SqlxError ResaleOfferRow)
| SelectOffers (payment_id : string) : market_cmd (list ResaleOfferRow)
| CountOffers (payment_id buyer : string) : market_cmd Z
| SettleSale (payment_id : string) (payload : CreateKeyEnvelopeRequest) : market_cmd (res SqlxError KeyEnvelopeRow)
| ClaimEnvelope (payment_id buyer : string) : market_cmd (option KeyEnvelopeRow)
| UpsertPushToken (wallet token platform : string) : market_cmd unit
| SelectPushTokens (wallet : string) : market_cmd (list string)
| SendPush (n : Notification) : market_cmd unit.
Record MarketEnv : Type := MkMarketEnv { m_now : Z; m_uuid : string }.

Definition check_violation : SqlxError := SqlxDatabase false false "violates check constraint".
(** The CHECK constraints of [resale_listings]. *)
Definition listing_checks (price max_price royalty_bps : Z) : bool :=
  (0 <? price) && (0 <? max_price) && (0 <=? royalty_bps) && (royalty_bps <=? 10000) && (price <=? max_price).
Definition upsert_listing (now : Z) (payload : CreateListingRequest) (seller : string) (db : MarketDb)
    : res SqlxError ResaleListingRow * MarketDb :=
  let ' MkCreateListing pid event price max_price bps tx := payload in
  if negb (listing_checks price max_price bps) then (Err check_violation, db)
  else
    let row :=
      match resale_listings db !! pid with
      | None => MkListing pid event seller price max_price bps Active None tx None None now now
      | Some l => MkListing pid event (l_seller_wallet l) price max_price bps Active None tx None None
                    (l_created_at l) now
      end in
    (Ok row, db ⟨ resale_listings ::= <[pid := row]> ⟩).
Definition upsert_offer (env : MarketEnv) (pid buyer key : string) (price : Z) (db : MarketDb)
    : res SqlxError ResaleOfferRow * MarketDb :=
  if decide (resale_listings db !! pid = None) then (Err foreign_key_violation, db)
  else if price <=? 0 then (Err check_violation, db)
  else
    let row :=
      match resale_offers db !! (pid, buyer) with
      | None => MkOffer (m_uuid env) pid buyer key price Pending (m_now env)
      | Some o => o ⟨ o_buyer_public_key := key ⟩ ⟨ o_offer_price_stroops := price ⟩ ⟨ o_status := Pending ⟩
      end in
    (Ok row, db ⟨ resale_offers ::= <[(pid, buyer) := row]> ⟩).
(** The transaction of [create_key_envelope]. *)
Definition settle_sale (now : Z) (pid : string) (payload : CreateKeyEnvelopeRequest) (db : MarketDb)
    : res SqlxError KeyEnvelopeRow * MarketDb :=
  let ' MkCreateEnvelope buyer eph nonce ciphertext sale_tx := payload in
  match resale_listings db !! pid with
  | None => (Err foreign_key_violation, db)
  | Some l =>
      let row :=
        match resale_key_envelopes db !! (pid, buyer) with
        | None => MkEnvelope pid buyer eph nonce ciphertext None now
        | Some e => MkEnvelope pid buyer eph nonce ciphertext None (e_created_at e)
        end in
      let sold := l ⟨ l_status := Sold ⟩ ⟨ l_buyer_wallet := Some buyer ⟩
                    ⟨ l_sale_tx_hash ::= λ h, match sale_tx with Some t => Some t | None => h end ⟩
                    ⟨ l_sold_at := Some now ⟩ ⟨ l_updated_at := now ⟩ in
      (Ok row,
       db ⟨ resale_key_envelopes ::= <[(pid, buyer) := row]> ⟩
          ⟨ resale_listings ::= <[pid := sold]> ⟩
          ⟨ resale_offers ::= update_rows (λ o, o_payment_id o = pid)
              (λ o, o ⟨ o_status := if decide (o_buyer_wallet o = buyer) then Accepted else Declined ⟩) ⟩)
  end.

(** [ORDER BY offer_price_stroops DESC, created_at ASC] *)
Definition better_offer (a b : ResaleOfferRow) : Prop :=
  o_offer_price_stroops b < o_offer_price_stroops a ∨
  (o_offer_price_stroops a = o_offer_price_stroops b ∧ o_created_at a ≤ o_created_at b).
#[export] Instance better_offer_dec : RelDecision better_offer.
Proof. intros a b. unfold better_offer. apply _. Defined.

Definition market_exec (env : MarketEnv) {R} (c : market_cmd R) (db : MarketDb) : option (R * MarketDb) :=
  match c in market_cmd R return option (R * MarketDb) with
  | SelectOtherSeller pid seller =>
      Some (match resale_listings db !! pid with
            | Some l => if decide (l_seller_wallet l ≠ seller) then Some (l_status l) else None
            | None => None
            end, db)
  | UpsertListing payload seller => Some (upsert_listing (m_now env) payload seller db)
  | SelectListing pid => Some (resale_listings db !! pid, db)
  | SelectListings status event seller limit offset =>
      Some (take (Z.to_nat limit) (drop (Z.to_nat offset)
              (rows_desc (λ l, l_status l = status ∧ (event = None ∨ event = Some (l_event_id l)) ∧
                               (seller = None ∨ seller = Some (l_seller_wallet l)))
                 l_created_at (resale_listings db))), db)
  | SetCancelled pid =>
      Some (tt, db ⟨ resale_listings ::= alter (λ l, l ⟨ l_status := Cancelled ⟩ ⟨ l_updated_at := m_now env ⟩) pid ⟩)
  | DeclinePending pid =>
      Some (tt, db ⟨ resale_offers ::= update_rows (λ o, o_payment_id o = pid ∧ o_status o = Pending)
                       (λ o, o ⟨ o_status := Declined ⟩) ⟩)
  | UpsertOffer pid buyer key price => Some (upsert_offer env pid buyer key price db)
  | SelectOffers pid =>
      Some (merge_sort better_offer (filter (λ o, o_payment_id o = pid) (map_to_list (resale_offers db)).*2), db)
  | CountOffers pid buyer =>
      Some (count_rows (λ o, o_payment_id o = pid ∧ o_buyer_wallet o = buyer) (resale_offers db), db)
  | SettleSale pid payload => Some (settle_sale (m_now env) pid payload db)
  | ClaimEnvelope pid buyer =>
      match resale_key_envelopes db !! (pid, buyer) with
      | Some e =>
          let e := e ⟨ e_claimed_at ::= λ t, match t with Some t => Some t | None => Some (m_now env) end ⟩ in
          Some (Some e, db ⟨ resale_key_envelopes ::= <[(pid, buyer) := e]> ⟩)
      | None => Some (None, db)
      end
  | UpsertPushToken wallet token platform =>
      Some (tt, db ⟨ push_tokens ::= <[token := (wallet, platform)]> ⟩)
  | SelectPushTokens wallet =>
      Some (fst <$> filter (λ p, p.2.1 = wallet) (map_to_list (push_tokens db)), db)
  | SendPush _ => Some (tt, db)
  end.
Abbreviation market_prog := (prog market_cmd AppError).

(** ** Validation *)
Class Base64 : Type := { b64_decode : string → option bytes }.
Section Market.
Context `{Base64}.

Definition validate_b64_exact (field value : string) (expected_len : nat) : res AppError unit :=
  let! decoded := ok_or (b64_decode value) (ValidationError (field +:+ " must be valid base64")) in
  fail_if (negb (length decoded =? expected_len)%nat)
    (ValidationError (field +:+ " must decode to exactly " +:+ pretty expected_len +:+ " bytes, got "
                      +:+ pretty (length decoded))).
Definition validate_b64_max (field value : string) (max_len : nat) : res AppError unit :=
  let! decoded := ok_or (b64_decode value) (ValidationError (field +:+ " must be valid base64")) in
  do! fail_if (length decoded =? 0)%nat (ValidationError (field +:+ " must not be empty")) in
  fail_if (max_len <? length decoded)%nat
    (ValidationError (field +:+ " must decode to at most " +:+ pretty max_len +:+ " bytes, got "
                      +:+ pretty (length decoded))).
Definition validate_identifier (field value : string) : res AppError unit :=
  let trimmed := trim value in
  do! fail_if (String.eqb trimmed "") (ValidationError (field +:+ " is required")) in
  fail_if (128 <? String.length trimmed)%nat (ValidationError (field +:+ " must be 128 characters or fewer")).
Definition validate_create_listing (payload : CreateListingRequest) : res AppError unit :=
  do! validate_identifier "payment_id" (cl_payment_id payload) in
  do! validate_identifier "event_id" (cl_event_id payload) in
  do! fail_if (cl_price_stroops payload <=? 0) (ValidationError "price_stroops must be greater than zero") in
  do! fail_if (cl_max_price_stroops payload <=? 0) (ValidationError "max_price_stroops must be greater than zero") in
  do! fail_if (cl_max_price_stroops payload <? cl_price_stroops payload)
        (ValidationError ("price_stroops (" +:+ pretty (cl_price_stroops payload)
           +:+ ") exceeds the resale cap for this ticket (" +:+ pretty (cl_max_price_stroops payload) +:+ ")")) in
  fail_if (negb ((0 <=? cl_royalty_bps payload) && (cl_royalty_bps payload <=? MAX_BPS)))
    (ValidationError "royalty_bps must be between 0 and 10000").
Definition validate_envelope (payload : CreateKeyEnvelopeRequest) : res AppError unit :=
  do! validate_identifier "buyer_wallet" (ce_buyer_wallet payload) in
  do! validate_b64_exact "ephemeral_public_key" (ce_ephemeral_public_key payload) X25519_PUBLIC_KEY_LEN in
  do! validate_b64_exact "nonce" (ce_nonce payload) BOX_NONCE_LEN in
  validate_b64_max "ciphertext" (ce_ciphertext payload) MAX_CIPHERTEXT_BYTES.

(** ** Listings *)
Definition load_listing (payment_id : string) : market_prog ResaleListingRow :=
  let!? row := SelectListing payment_id in
  ret (ok_or row (NotFound ("No resale listing for ticket '" +:+ payment_id +:+ "'"))).
Definition load_listing_as_seller (payment_id caller : string) : market_prog ResaleListingRow :=
  let* listing := load_listing payment_id in
  if negb (String.eqb (l_seller_wallet listing) caller)
  then ret (Err (Forbidden "Only the seller of this listing can perform this action"))
  else ret (Ok listing).
Definition create_listing (seller : string) (payload : CreateListingRequest) : market_prog ResaleListingView :=
  let* _ := ret (validate_create_listing payload) in
  let!? other := SelectOtherSeller (cl_payment_id payload) seller in
  match other with
  | Some _ => ret (Err (Forbidden "This ticket is listed by a different seller"))
  | None =>
      let!? row := UpsertListing payload seller in
      let* listing := ret (map_err DatabaseError row) in
      ret (Ok (view_of listing))
  end.
Definition list_listings (params : ListListingsQuery) : market_prog (list ResaleListingView) :=
  match parse_status (default "active" (lq_status params)) with
  | None => ret (Err (ValidationError "status must be one of: active, cancelled, sold"))
  | Some status =>
      let limit := Z.max 1 (Z.min MAX_LIMIT (default DEFAULT_LIMIT (lq_limit params))) in
      let offset := Z.max 0 (default 0 (lq_offset params)) in
      let!? listings := SelectListings status (lq_event_id params) (lq_seller_wallet params) limit offset in
      ret (Ok (map view_of listings))
  end.
Definition get_listing (payment_id : string) : market_prog ResaleListingView :=
  let* listing := load_listing payment_id in
  ret (Ok (view_of listing)).
Definition cancel_listing (seller payment_id : string) : market_prog string :=
  let* listing := load_listing_as_seller payment_id seller in
  if decide (l_status listing = Sold)
  then ret (Err (Conflict "This ticket has already been sold and cannot be unlisted"))
  else
    let!? _ := SetCancelled payment_id in
    Call (DeclinePending payment_id) (λ _, ret (Ok payment_id)).

(** ** Offers *)
Definition create_offer (buyer payment_id : string) (payload : CreateOfferRequest) : market_prog ResaleOfferRow :=
  let price := co_offer_price_stroops payload in
  let* _ := ret (validate_b64_exact "buyer_public_key" (co_buyer_public_key payload) X25519_PUBLIC_KEY_LEN) in
  let* _ := ret (fail_if (price <=? 0) (ValidationError "offer_price_stroops must be greater than zero")) in
  let* listing := load_listing payment_id in
  let* _ := ret (fail_if (negb (bool_decide (l_status listing = Active)))
                   (Conflict ("This listing is " +:+ status_text (l_status listing) +:+ " and is not accepting offers"))) in
  let* _ := ret (fail_if (String.eqb (l_seller_wallet listing) buyer)
                   (ValidationError "You cannot make an offer on your own listing")) in
  let* _ := ret (fail_if (price <? l_price_stroops listing)
                   (ValidationError ("Offer must be at least the listed price (" +:+ pretty (l_price_stroops listing)
                                     +:+ " stroops)"))) in
  let* _ := ret (fail_if (l_max_price_stroops listing <? price)
                   (ValidationError ("Offer exceeds the resale cap for this ticket ("
                                     +:+ pretty (l_max_price_stroops listing) +:+ " stroops)"))) in
  let!? row := UpsertOffer payment_id buyer (co_buyer_public_key payload) price in
  ret (map_err DatabaseError row).
Definition list_offers (seller payment_id : string) : market_prog (list ResaleOfferRow) :=
  let* _ := load_listing_as_seller payment_id seller in
  let!? offers := SelectOffers payment_id in
  ret (Ok offers).

(** ** Handing the key over *)
(** [format!("{:.2}", x)] rounds the double to two decimals, half to even. *)
Definition fixed2 (x : Q) : string :=
  let n := rne (x * 100) in
  let cents := n mod 100 in
  pretty (n / 100) +:+ "." +:+ (if cents <? 10 then "0" else "") +:+ pretty cents.
Definition format_stroops (stroops : Z) : string := fixed2 (fdiv (of_int stroops) (of_int 10000000)).
Definition sold_body (listing : ResaleListingRow) (buyer : string) : string :=
  let n := String.length buyer in
  "Your ticket sold for " +:+ format_stroops (l_price_stroops listing) +:+ " USDC to "
  +:+ String.substring 0 (Nat.min n 4) buyer +:+ "…" +:+ String.substring (n - 4) (n - (n - 4)) buyer +:+ ".".
Fixpoint send_all (body : string) (tokens : list string) : market_prog unit :=
  match tokens with
  | [] => ret (Ok tt)
  | token :: tokens => Call (SendPush (MkNotification token "Ticket sold" body)) (λ _, send_all body tokens)
  end.
Definition notify_ticket_sold (listing : ResaleListingRow) (buyer : string) : market_prog unit :=
  Call (SelectPushTokens (l_seller_wallet listing)) (λ tokens,
    match tokens with
    | Some tokens => send_all (sold_body listing buyer) tokens
    | None => ret (Ok tt)
    end).
Definition create_key_envelope (seller payment_id : string) (payload : CreateKeyEnvelopeRequest)
    : market_prog KeyEnvelopeRow :=
  let* _ := ret (validate_envelope payload) in
  let* listing := load_listing_as_seller payment_id seller in
  let* _ := ret (fail_if (bool_decide (l_status listing = Cancelled))
                   (Conflict "This listing was cancelled; re-list the ticket before completing a sale")) in
  let* _ := ret (fail_if (String.eqb (ce_buyer_wallet payload) seller)
                   (ValidationError "The buyer and seller must be different wallets")) in
  let!? count := CountOffers payment_id (ce_buyer_wallet payload) in
  let* _ := ret (fail_if (count =? 0) (ValidationError "That buyer has no offer on this listing")) in
  let!? row := SettleSale payment_id payload in
  let* envelope := ret (map_err DatabaseError row) in
  let* _ := notify_ticket_sold listing (ce_buyer_wallet payload) in
  ret (Ok envelope).
Definition get_key_envelope (buyer payment_id : string) : market_prog KeyEnvelopeRow :=
  let!? row := ClaimEnvelope payment_id buyer in
  ret (ok_or row (NotFound "No key envelope is available for you on this ticket yet")).

(** ** Push tokens *)
Definition register_push_token (wallet : string) (payload : RegisterPushTokenRequest) : market_prog string :=
  let* _ := ret (validate_identifier "token" (rp_token payload)) in
  if decide (rp_platform payload ∈ ["ios"; "android"; "web"]) then
    let!? _ := UpsertPushToken wallet (trim (rp_token payload)) (rp_platform payload) in
    ret (Ok wallet)
  else ret (Err (ValidationError "platform must be one of: ios, android, web")).

(** Every request the routes take to the market. *)
Inductive market_request : prog market_cmd AppError unit → Prop :=
| RqCreate seller payload : market_request (forget (create_listing seller payload))
| RqList params : market_request (forget (list_listings params))
| RqGet pid : market_request (forget (get_listing pid))
| RqCancel seller pid : market_request (forget (cancel_listing seller pid))
| RqOffer buyer pid payload : market_request (forget (create_offer buyer pid payload))
| RqOffers seller pid : market_request (forget (list_offers seller pid))
| RqEnvelope seller pid payload : market_request (forget (create_key_envelope seller pid payload))
| RqClaim buyer pid : market_request (forget (get_key_envelope buyer pid))
| RqToken wallet payload : market_request (forget (register_push_token wallet payload)).
End Market.

(** ** The server: what the secondary market promises

    [market_ok] is an invariant of the tables; it holds at every moment of every
    execution of the server, in which requests come at any time and their
    statements interleave in any order. *)
#[local] Open Scope Z_scope.

Definition market_step_at (env : MarketEnv) : ∀ R, market_cmd R → MarketDb → option (R * MarketDb) := @market_exec env.

(** Listings, offers and envelopes stay, and a listing stays with its seller. *)
Record grows (db db' : MarketDb) : Prop := {
  gr_listings pid l : resale_listings db !! pid = Some l →
    ∃ l', resale_listings db' !! pid = Some l' ∧ l_seller_wallet l' = l_seller_wallet l;
  gr_offers k : is_Some (resale_offers db !! k) → is_Some (resale_offers db' !! k);
  gr_envelopes k : is_Some (resale_key_envelopes db !! k) → is_Some (resale_key_envelopes db' !! k)
}.
#[export] Instance grows_preorder : PreOrder grows.
Proof.
  split; [intros db; split; eauto|]. intros a b c [L1 O1 E1] [L2 O2 E2]. split; [|eauto..].
  intros pid l Hl. destruct (L1 _ _ Hl) as (l1 & Hl1 & Hs1). destruct (L2 _ _ Hl1) as (l2 & Hl2 & Hs2).
  exists l2. split; [done|congruence].
Qed.

Record listing_ok (db : MarketDb) (pid : string) (l : ResaleListingRow) : Prop := {
  lo_id : l_payment_id l = pid;
  lo_checks : listing_checks (l_price_stroops l) (l_max_price_stroops l) (l_royalty_bps l) = true;
  lo_sold : l_status l = Sold →
    ∃ buyer, l_buyer_wallet l = Some buyer ∧ is_Some (resale_key_envelopes db !! (pid, buyer))
}.
Record offer_ok (db : MarketDb) (k : string * string) (o : ResaleOfferRow) : Prop := {
  oo_key : (o_payment_id o, o_buyer_wallet o) = k;
  oo_price : 0 < o_offer_price_stroops o;
  oo_listing : ∃ l, resale_listings db !! k.1 = Some l ∧ l_seller_wallet l ≠ k.2
}.
Record envelope_ok (db : MarketDb) (k : string * string) (e : KeyEnvelopeRow) : Prop := {
  eo_key : (e_payment_id e, e_buyer_wallet e) = k;
  eo_offer : is_Some (resale_offers db !! k)
}.
Record market_ok (db : MarketDb) : Prop := {
  mo_listings pid l : resale_listings db !! pid = Some l → listing_ok db pid l;
  mo_offers k o : resale_offers db !! k = Some o → offer_ok db k o;
  mo_envelopes k e : resale_key_envelopes db !! k = Some e → envelope_ok db k e
}.

(** What the handlers establish before the two statements that need it. *)
Definition guarded {R} (c : market_cmd R) (db : MarketDb) : Prop :=
  match c with
  | UpsertOffer pid buyer _ _ => ∀ l, resale_listings db !! pid = Some l → l_seller_wallet l ≠ buyer
  | SettleSale pid payload => is_Some (resale_offers db !! (pid, ce_buyer_wallet payload))
  | _ => True
  end.

(** Rows that are fine stay so while the tables grow. *)
Lemma offer_ok_mono db db' k o : grows db db' → offer_ok db k o → offer_ok db' k o.
Proof.
  intros Hg [Hk Hp (l & Hl & Hs)]. split; [done|done|].
  destruct (gr_listings _ _ Hg _ _ Hl) as (l' & Hl' & Hs'). exists l'. split; [done|congruence].
Qed.
Lemma envelope_ok_mono db db' k e : grows db db' → envelope_ok db k e → envelope_ok db' k e.
Proof. intros Hg [Hk Ho]. split; [done|]. by apply (gr_offers _ _ Hg). Qed.
Lemma listing_ok_mono db db' pid l : grows db db' → listing_ok db pid l → listing_ok db' pid l.
Proof.
  intros Hg [Hi Hc Hs]. split; [done|done|]. intros HS. destruct (Hs HS) as (b & Hb & He). exists b.
  split; [done|]. by apply (gr_envelopes _ _ Hg).
Qed.
(** Hence only the rows that a command writes matter. *)
Lemma market_ok_grow db db' : grows db db' → market_ok db →
  (∀ pid l, resale_listings db' !! pid = Some l → resale_listings db !! pid = Some l ∨ listing_ok db' pid l) →
  (∀ k o, resale_offers db' !! k = Some o → resale_offers db !! k = Some o ∨ offer_ok db' k o) →
  (∀ k e, resale_key_envelopes db' !! k = Some e → resale_key_envelopes db !! k = Some e ∨ envelope_ok db' k e) →
  market_ok db'.
Proof.
  intros Hg [L O E] HL HO HE. split.
  - intros pid l Hl. destruct (HL _ _ Hl) as [H|H]; [|done]. by eapply listing_ok_mono, L.
  - intros k o Ho. destruct (HO _ _ Ho) as [H|H]; [|done]. by eapply offer_ok_mono, O.
  - intros k e He. destruct (HE _ _ He) as [H|H]; [|done]. by eapply envelope_ok_mono, E.
Qed.

Lemma upsert_listing_ok now payload seller db : market_ok db →
  grows db (upsert_listing now payload seller db).2 ∧ market_ok (upsert_listing now payload seller db).2.
Proof.
  intros Hok. destruct payload as [pid event price cap bps tx]. unfold upsert_listing.
  destruct (listing_checks price cap bps) eqn:Hc; cbn [negb]; [|by split]. cbv zeta. cbn [snd].
  set (row := match resale_listings db !! pid with Some _ => _ | None => _ end).
  assert (Hrow : l_payment_id row = pid ∧ l_status row = Active ∧
            listing_checks (l_price_stroops row) (l_max_price_stroops row) (l_royalty_bps row) = true ∧
            ∀ l, resale_listings db !! pid = Some l → l_seller_wallet row = l_seller_wallet l).
  { subst row. by destruct (resale_listings db !! pid); split_and!; try done; intros ? [= <-]. }
  destruct Hrow as (Hid & Hst & Hch & Hse). clearbody row.
  assert (Hg : grows db (db ⟨ resale_listings ::= <[pid := row]> ⟩)).
  { split; cbn; [|done|done]. intros p l Hl. destruct (decide (p = pid)) as [->|Hne].
    - exists row. rewrite lookup_insert_eq. auto.
    - exists l. by rewrite lookup_insert_ne. }
  split; [done|]. apply (market_ok_grow db); [done|done| |cbn; auto|cbn; auto].
  intros p l Hl. cbn in Hl. apply lookup_insert_Some in Hl as [[<- <-]|[_ Hl]]; [right|by left].
  split; [done|done|]. by rewrite Hst.
Qed.
Lemma upsert_offer_ok env pid buyer key price db : market_ok db →
  (∀ l, resale_listings db !! pid = Some l → l_seller_wallet l ≠ buyer) →
  grows db (upsert_offer env pid buyer key price db).2 ∧ market_ok (upsert_offer env pid buyer key price db).2.
Proof.
  intros Hok Hs. unfold upsert_offer. case_decide as Hl; [by split|].
  destruct (Z.leb_spec price 0) as [|Hp]; [by split|]. cbv zeta. cbn [snd].
  destruct (resale_listings db !! pid) as [l|] eqn:Hlk; [|done].
  set (row := match resale_offers db !! (pid, buyer) with Some _ => _ | None => _ end).
  assert (Hrow : (o_payment_id row, o_buyer_wallet row) = (pid, buyer) ∧ o_offer_price_stroops row = price).
  { subst row. destruct (resale_offers db !! (pid, buyer)) as [o|] eqn:Ho; [|done].
    split; [|done]. exact (oo_key _ _ _ (mo_offers _ Hok _ _ Ho)). }
  destruct Hrow as [Hk Hpr]. clearbody row.
  assert (Hg : grows db (db ⟨ resale_offers ::= <[(pid, buyer) := row]> ⟩)).
  { split; cbn; [eauto| |done]. intros k Hk'. apply lookup_insert_is_Some. destruct (decide ((pid, buyer) = k)); auto. }
  split; [done|]. apply (market_ok_grow db); [done|done|cbn; auto| |cbn; auto].
  intros k o Ho. cbn in Ho. apply lookup_insert_Some in Ho as [[<- <-]|[_ Ho]]; [right|by left].
  split; [done|lia|]. exists l. split; [exact Hlk|]. by apply Hs.
Qed.
(** Statements that change the status of offers only. *)
Lemma set_offers_ok P `{∀ o, Decision (P o)} f db : market_ok db →
  (∀ o, o_payment_id (f o) = o_payment_id o ∧ o_buyer_wallet (f o) = o_buyer_wallet o ∧
        o_offer_price_stroops (f o) = o_offer_price_stroops o) →
  let db' := db ⟨ resale_offers ::= update_rows P f ⟩ in grows db db' ∧ market_ok db'.
Proof.
  intros Hok Hf db'. assert (Hg : grows db db').
  { split; cbn; [eauto| |done]. intros k [o Ho]. rewrite lookup_update_rows, Ho. by eexists. }
  split; [done|]. apply (market_ok_grow db); [done|done|cbn; auto| |cbn; auto].
  intros k o Ho. cbn in Ho. rewrite lookup_update_rows in Ho. apply fmap_Some in Ho as (o0 & Ho & ->).
  case_decide; [|by left]. right. destruct (Hf o0) as (H1 & H2 & H3).
  destruct (offer_ok_mono _ db' _ _ Hg (mo_offers _ Hok _ _ Ho)) as [Hk Hp Hl].
  split; [by rewrite H1, H2|by rewrite H3|done].
Qed.
Lemma settle_sale_ok now pid payload db : market_ok db →
  is_Some (resale_offers db !! (pid, ce_buyer_wallet payload)) →
  grows db (settle_sale now pid payload db).2 ∧ market_ok (settle_sale now pid payload db).2.
Proof.
  intros Hok Ho. destruct payload as [buyer eph nonce ct tx]. cbn [ce_buyer_wallet] in Ho. unfold settle_sale.
  destruct (resale_listings db !! pid) as [l|] eqn:Hl; [|by split]. cbv zeta. cbn [snd].
  set (row := match resale_key_envelopes db !! (pid, buyer) with Some _ => _ | None => _ end).
  assert (Hrow : (e_payment_id row, e_buyer_wallet row) = (pid, buyer))
    by (subst row; by destruct (resale_key_envelopes db !! (pid, buyer))).
  clearbody row. set (sold := l ⟨ l_status := Sold ⟩ ⟨ l_buyer_wallet := _ ⟩ ⟨ l_sale_tx_hash ::= _ ⟩ ⟨ l_sold_at := _ ⟩ ⟨ l_updated_at := _ ⟩).
  set (db1 := db ⟨ resale_key_envelopes ::= _ ⟩). set (db2 := db1 ⟨ resale_listings ::= _ ⟩).
  assert (H1 : grows db db1 ∧ market_ok db1).
  { assert (Hg : grows db db1).
    { split; cbn; [eauto|done|]. intros k Hk. apply lookup_insert_is_Some. destruct (decide ((pid, buyer) = k)); auto. }
    split; [done|]. apply (market_ok_grow db); [done|done|cbn; auto|cbn; auto|].
    intros k e He. cbn in He. apply lookup_insert_Some in He as [[<- <-]|[_ He]]; [right|by left]. by split. }
  assert (H2 : grows db1 db2 ∧ market_ok db2).
  { assert (Hg : grows db1 db2).
    { split; cbn; [|done|done]. intros p l0 Hl0. destruct (decide (p = pid)) as [->|Hne].
      - exists sold. rewrite lookup_insert_eq. split; [done|]. rewrite Hl in Hl0. by simplify_eq.
      - exists l0. by rewrite lookup_insert_ne. }
    split; [done|]. apply (market_ok_grow db1); [done|apply H1| |cbn; auto|cbn; auto].
    intros p l0 Hl0. cbn in Hl0. apply lookup_insert_Some in Hl0 as [[<- <-]|[_ Hl0]]; [right|by left].
    destruct (mo_listings _ Hok _ _ Hl) as [Hid Hch _]. split; [done|done|]. intros _. exists buyer. split; [done|].
    cbn. by rewrite lookup_insert_eq. }
  destruct (set_offers_ok (λ o, o_payment_id o = pid)
    (λ o, o ⟨ o_status := if decide (o_buyer_wallet o = buyer) then Accepted else Declined ⟩) db2) as [Hg Hm]; [apply H2|done|].
  split; [|done]. etrans; [apply H1|]. etrans; [apply H2|done].
Qed.
Lemma market_exec_ok env R (c : market_cmd R) r db db' :
  guarded c db → market_ok db → market_exec env c db = Some (r, db') → grows db db' ∧ market_ok db'.
Proof.
  intros Hg Hok He. destruct c; cbn in He, Hg; simplify_eq; try done.
  - pose proof (upsert_listing_ok (m_now env) payload seller db Hok) as Hu.
    by destruct (upsert_listing _ _ _ _); simplify_eq.
  - assert (Hgr : grows db (db ⟨ resale_listings ::= alter (λ l, l ⟨ l_status := Cancelled ⟩ ⟨ l_updated_at := m_now env ⟩) payment_id ⟩)).
    { split; cbn; [|done|done]. intros p l Hl. destruct (decide (p = payment_id)) as [->|Hne].
      - rewrite lookup_alter_eq, Hl. by eexists.
      - rewrite lookup_alter_ne by done. by exists l. }
    split; [done|]. apply (market_ok_grow db); [done|done| |cbn; auto|cbn; auto].
    intros p l Hl. cbn in Hl. destruct (decide (p = payment_id)) as [->|Hne].
    + rewrite lookup_alter_eq in Hl. apply fmap_Some in Hl as (l0 & Hl0 & ->). right.
      destruct (mo_listings _ Hok _ _ Hl0) as [Hid Hch _]. by split.
    + rewrite lookup_alter_ne in Hl by done. by left.
  - by apply set_offers_ok.
  - pose proof (upsert_offer_ok env payment_id buyer buyer_public_key price db Hok Hg) as Hu.
    by destruct (upsert_offer _ _ _ _ _ _); simplify_eq.
  - pose proof (settle_sale_ok (m_now env) payment_id payload db Hok Hg) as Hu.
    by destruct (settle_sale _ _ _ _); simplify_eq.
  - destruct (resale_key_envelopes db !! (payment_id, buyer)) as [e|] eqn:Hk; simplify_eq; [|done].
    set (e' := e ⟨ e_claimed_at ::= _ ⟩).
    assert (Hgr : grows db (db ⟨ resale_key_envelopes ::= <[(payment_id, buyer) := e']> ⟩)).
    { split; cbn; [eauto|done|]. intros k Hk'. apply lookup_insert_is_Some. destruct (decide ((payment_id, buyer) = k)); auto. }
    split; [done|]. apply (market_ok_grow db); [done|done|cbn; auto|cbn; auto|].
    intros k e0 He. cbn in He. apply lookup_insert_Some in He as [[<- <-]|[_ He]]; [right|by left].
    destruct (envelope_ok_mono _ _ _ _ Hgr (mo_envelopes _ Hok _ _ Hk)) as [Hkey Ho]. by split.
  - assert (Hgr : grows db (db ⟨ push_tokens ::= <[token := (wallet, platform)]> ⟩)) by (split; cbn; eauto).
    split; [done|]. apply (market_ok_grow db); [done|done|cbn; auto..].
Qed.

(** ** Every request is safe *)
Abbreviation market_safe := (safe market_step_at grows market_ok).
Section Safe.
Context `{Base64}.

(** Commands that need nothing. *)
Lemma safe_free {A R} e (c : market_cmd R) (k : R → market_prog A) w :
  (∀ db, guarded c db) → (∀ w1 v r w2, grows w w1 → market_ok w1 → market_ok w2 → market_exec v c w1 = Some (r, w2) → market_safe (k r) w2) →
  market_safe (call_or e c k) w.
Proof.
  intros Hc Hk. apply safe_call_or. intros w1 v r w2 H1 I1 Hs.
  destruct (market_exec_ok _ _ _ _ _ _ (Hc w1) I1 Hs) as [Hg Hi]. split_and!; [done|done|]. by eapply Hk.
Qed.
Lemma safe_free_call {A R} (c : market_cmd R) (k : option R → market_prog A) w :
  (∀ db, guarded c db) → (∀ r w, market_safe (k r) w) → market_safe (Call c k) w.
Proof.
  intros Hc Hk. apply safe_call. intros w1 H1 I1. split; [apply Hk|]. intros v r w2 Hs.
  destruct (market_exec_ok _ _ _ _ _ _ (Hc w1) I1 Hs) as [Hg Hi]. by split_and!.
Qed.
Lemma safe_load {A} pid (k : ResaleListingRow → market_prog A) w :
  (∀ w1 l, grows w w1 → market_ok w1 → resale_listings w1 !! pid = Some l → market_safe (k l) w1) →
  market_safe (bind (load_listing pid) k) w.
Proof.
  intros Hk. apply safe_bind_call_or. intros w1 v r w2 H1 I1 Hs. cbn in Hs. simplify_eq.
  split_and!; [done|done|]. apply safe_bind_ret. intros l Hl%ok_or_Ok. by apply Hk.
Qed.
Lemma safe_load_seller {A} pid caller (k : ResaleListingRow → market_prog A) w :
  (∀ w1 l, grows w w1 → market_ok w1 → resale_listings w1 !! pid = Some l → l_seller_wallet l = caller → market_safe (k l) w1) →
  market_safe (bind (load_listing_as_seller pid caller) k) w.
Proof.
  intros Hk. apply safe_bind_bind, safe_load. intros w1 l H1 I1 Hl.
  destruct (String.eqb_spec (l_seller_wallet l) caller); cbn [negb bind]; [|done]. by apply Hk.
Qed.
Lemma send_all_safe body tokens w : market_safe (send_all body tokens) w.
Proof. revert w. induction tokens as [|t tokens IH]; intros w; [done|]. cbn [send_all]. by apply safe_free_call. Qed.
Lemma notify_safe listing buyer w : market_safe (notify_ticket_sold listing buyer) w.
Proof. apply safe_free_call; [done|]. intros [tokens|] w'; [apply send_all_safe|done]. Qed.

Ltac safe_ret := apply safe_bind_ret; intros ? ?.
Lemma create_listing_safe seller payload w : market_safe (create_listing seller payload) w.
Proof.
  unfold create_listing. safe_ret. apply safe_free; [done|]. intros w1 v [s|] w2 _ _ _ _; [done|].
  apply safe_free; [done|]. intros w3 v' r w4 _ _ _ _. by safe_ret.
Qed.
Lemma cancel_listing_safe seller pid w : market_safe (cancel_listing seller pid) w.
Proof.
  apply safe_load_seller. intros w1 l _ _ _ _. case_decide; [done|].
  apply safe_free; [done|]. intros w2 v r w3 _ _ _ _. by apply safe_free_call.
Qed.
Lemma create_offer_safe buyer pid payload w : market_safe (create_offer buyer pid payload) w.
Proof.
  unfold create_offer. cbv zeta. do 2 safe_ret. apply safe_load. intros w1 l _ I1 Hl. do 4 safe_ret.
  apply safe_call_or. intros w2 v r w3 Hg2 I2 Hs.
  assert (Hgd : guarded (UpsertOffer pid buyer (co_buyer_public_key payload) (co_offer_price_stroops payload)) w2).
  { intros l2 Hl2 Heq. destruct (gr_listings _ _ Hg2 _ _ Hl) as (l' & Hl' & Hsel). simplify_eq.
    match goal with Hf : fail_if (String.eqb _ _) _ = Ok _ |- _ => apply fail_if_Ok in Hf end.
    destruct (String.eqb_spec (l_seller_wallet l) (l_seller_wallet l2)); congruence. }
  destruct (market_exec_ok _ _ _ _ _ _ Hgd I2 Hs) as [Hg Hi]. by split_and!.
Qed.
Lemma count_offer db pid buyer : market_ok db →
  count_rows (λ o, o_payment_id o = pid ∧ o_buyer_wallet o = buyer) (resale_offers db) ≠ 0 →
  is_Some (resale_offers db !! (pid, buyer)).
Proof.
  intros Hok Hc. unfold count_rows in Hc. destruct (filter _ _) as [|o l] eqn:Hf; [done|].
  assert (Ho : o ∈ filter (λ o, o_payment_id o = pid ∧ o_buyer_wallet o = buyer) (map_to_list (resale_offers db)).*2)
    by (rewrite Hf; left).
  apply list_elem_of_filter in Ho as [[<- <-] Ho]. apply list_elem_of_fmap in Ho as ([k o'] & -> & Ho).
  apply elem_of_map_to_list in Ho. exists o'. cbn [snd]. by rewrite (oo_key _ _ _ (mo_offers _ Hok _ _ Ho)).
Qed.
Lemma create_key_envelope_safe seller pid payload w : market_safe (create_key_envelope seller pid payload) w.
Proof.
  unfold create_key_envelope. safe_ret. apply safe_load_seller. intros w1 l _ _ _ _. do 2 safe_ret.
  apply safe_free; [done|]. intros w2 v n w3 _ I2 I3 Hx. safe_ret. cbn in Hx. simplify_eq.
  match goal with Hf : fail_if (_ =? 0) _ = Ok _ |- _ => apply fail_if_Ok, Z.eqb_neq in Hf; rename Hf into Hcount end.
  apply safe_call_or. intros w4 v' r w5 Hg4 I4 Hs'.
  assert (Hgd : guarded (SettleSale pid payload) w4)
    by (apply (gr_offers _ _ Hg4); by apply count_offer).
  destruct (market_exec_ok _ _ _ _ _ _ Hgd I4 Hs') as [Hg Hi]. split_and!; [done|done|]. safe_ret.
  apply safe_bind; [apply notify_safe|]. by intros [] w'.
Qed.
Lemma request_safe p w : market_request p → market_safe p w.
Proof.
  intros [] ; apply safe_forget.
  - apply create_listing_safe.
  - unfold list_listings. destruct (parse_status _); [|done]. by apply safe_free.
  - by apply safe_load.
  - apply cancel_listing_safe.
  - apply create_offer_safe.
  - apply safe_load_seller. intros w1 l _ _ _ _. by apply safe_free.
  - apply create_key_envelope_safe.
  - by apply safe_free.
  - unfold register_push_token. safe_ret. case_decide; [|done]. by apply safe_free.
Qed.

(** C16. The market keeps its tables sound.  Start from sound tables (empty ones,
    say) and let requests to any endpoint come at any time, their statements
    interleaving in any order and getting lost.  Then at every moment: no listing
    is above its cap, and prices and rates are in range; a listing that is sold
    has a buyer, and a key envelope for that buyer to fetch; every offer is on an
    existing listing and from a wallet other than its seller; every envelope is
    for a wallet that has an offer on the ticket.  And no listing, offer or
    envelope ever disappears, nor does a listing change its seller. *)
Theorem market_stays_ok db tasks db' :
  market_ok db → rtc (pool_step market_step_at market_request) ([], db) (tasks, db') →
  market_ok db' ∧ grows db db'.
Proof.
  intros Hok Hr.
  apply (pool_safe market_step_at grows market_ok) in Hr as (Hg & Hi & _); [done|apply _| |done|constructor].
  intros p w Hp. by apply request_safe.
Qed.
End Safe.

(** ** The server and the contract on the price of a resale

    [ResaleListingView] tells a buyer what [purchase_resale_ticket] of the
    contract will do with the price.  The server computes in [i64], saturating,
    the contract in [i128]. *)
From S2P Require Import Host PayTypes PayStorage PayTransfer.

(** A product that fits loses nothing but the remainder. *)
Lemma mul_div_fits x num den : 0 ≤ x → 0 ≤ num → 0 < den → x * num ≤ i128_max → mul_div x num den = Some (x * num / den).
Proof.
  intros Hx Hn Hd Hm. unfold mul_div, checked_div.
  assert (H0 : 0 ≤ x * num) by nia. assert (Hq : 0 ≤ x * num / den ≤ x * num).
  { split; [apply Z.div_pos; lia|]. apply Z.div_le_upper_bound; nia. }
  rewrite (proj2 (checked_i128_Some (x * num) (x * num))) by (unfold i128_min; lia).
  destruct (Z.eqb_spec den 0); [lia|]. rewrite Z.quot_div_nonneg by lia.
  apply checked_i128_Some. unfold i128_min. lia.
Qed.


(** Past [i64] the product saturates, and the royalty shown is too small: at a
    rate of 50%, a listing at 2 billion USDC shows a royalty of 92 million. *)
Lemma view_saturates :
  let l := SrvMarket.MkListing "t1" "e1" "GALICE" (2 * 10 ^ 16) (2 * 10 ^ 16) 5000 SrvMarket.Active None None None None 0 0 in
  listing_checks (l_price_stroops l) (l_max_price_stroops l) (l_royalty_bps l) = true ∧
  v_royalty_stroops (view_of l) = 922337203685477 ∧ l_price_stroops l * l_royalty_bps l / 10000 = 10 ^ 16.
Proof. by vm_compute. Qed.
