(* ===== verification/SrvPages.v ===== *)
(** * The server: pages

    [server/src/utils/pagination.rs] and [utils/cursor_pagination.rs].  Page
    numbers and sizes are [u32]; the number of pages is computed in doubles.
    Cursors are texts made by [serde_json] and [base64], the class [CursorCodec]. *)

From Stdlib Require Import Ascii QArith Qround Lqa.
From S2P Require Import Prelude Machine Float ZkBytes SrvErrors.
#[local] Open Scope Z_scope.

Definition DEFAULT_PAGE_SIZE : Z := 20.
Definition MAX_PAGE_SIZE : Z := 100.
Definition clamp (lo hi z : Z) : Z := Z.max lo (Z.min hi z).

(** ** Numbered pages *)
Record PaginationParams : Type := MkPagination { pp_page : Z; pp_page_size : Z; pp_count : bool }.
Record ValidatedPagination : Type := MkValidated { vp_page : Z; vp_page_size : Z; vp_include_count : bool }.
(** The fields that a query string leaves out. *)
Definition pagination_of (page page_size : option Z) (count : option bool) : PaginationParams :=
  MkPagination (default 1 page) (default DEFAULT_PAGE_SIZE page_size) (default true count).
Definition validate (self : PaginationParams) : ValidatedPagination :=
  MkValidated (if pp_page self =? 0 then 1 else pp_page self) (clamp 1 MAX_PAGE_SIZE (pp_page_size self)) (pp_count self).
(** The product is taken in [u32]: it wraps in a release build, where overflow is
    not checked, and panics in a build where it is. *)
Definition offset (overflow_checks : bool) (self : ValidatedPagination) : res unit Z :=
  let product := (vp_page self - 1) * vp_page_size self in
  if product <=? u32_max then Ok product
  else if overflow_checks then Panic else Ok (product mod 2 ^ 32).
Definition limit (self : ValidatedPagination) : Z := vp_page_size self.
Definition total_pages_of (page_size total : Z) : Z :=
  if total =? 0 then 0 else ceil_to u32_max (fdiv (of_int total) (of_int page_size)).
Record PaginationMeta : Type := MkMeta {
  pm_page : Z; pm_page_size : Z; pm_total_items : Z; pm_total_pages : Z; pm_has_next : bool; pm_has_previous : bool
}.
Definition metadata (self : ValidatedPagination) (total : Z) : PaginationMeta :=
  let total_pages := total_pages_of (vp_page_size self) total in
  MkMeta (vp_page self) (vp_page_size self) total total_pages (vp_page self <? total_pages) (1 <? vp_page self).
Record ListMeta : Type := MkListMeta { lm_total : option Z; lm_page_size : Z; lm_has_more : bool }.
Definition list_meta (self : ValidatedPagination) (total : option Z) (item_count : nat) : ListMeta :=
  let has_more :=
    match total with
    | Some t => vp_page self <? total_pages_of (vp_page_size self) t
    | None => vp_page_size self <=? Z.of_nat item_count mod 2 ^ 32
    end in
  MkListMeta (if vp_include_count self then total else None) (vp_page_size self) has_more.
Record PaginatedResponse (A : Type) : Type := MkPaginated {
  pr_items : list A; pr_pagination : PaginationMeta; pr_meta : ListMeta
}.
Arguments MkPaginated {A}. Arguments pr_items {A}. Arguments pr_pagination {A}. Arguments pr_meta {A}.
Definition paginated {A} (items : list A) (pagination : ValidatedPagination) (total : Z) : PaginatedResponse A :=
  MkPaginated items (metadata pagination total) (list_meta pagination (Some total) (length items)).
Definition new_with_optional_total {A} (items : list A) (pagination : ValidatedPagination) (total : option Z)
    : PaginatedResponse A :=
  MkPaginated items (metadata pagination (default 0 total)) (list_meta pagination total (length items)).
(** [LIMIT .. OFFSET ..] on the rows of a query, in order. *)
Definition sql_page {A} (limit offset : Z) (rows : list A) : list A := take (Z.to_nat limit) (drop (Z.to_nat offset) rows).

(** ** Cursors *)
Record CursorParams : Type := MkCursorParams { cp_limit : Z; cp_cursor : option string; cp_count : bool }.
Record ValidatedCursorParams : Type := MkValidatedCursor {
  vc_limit : Z; vc_cursor : option string; vc_include_count : bool
}.
Definition validate_cursor (self : CursorParams) : ValidatedCursorParams :=
  MkValidatedCursor (clamp 1 MAX_PAGE_SIZE (cp_limit self)) (cp_cursor self) (cp_count self).
Definition query_limit (self : ValidatedCursorParams) : Z := vc_limit self + 1.
Definition page_size (self : ValidatedCursorParams) : nat := Z.to_nat (vc_limit self).
Record CursorMeta : Type := MkCursorMeta { cm_page_size : Z; cm_has_more : bool; cm_next_cursor : option string }.
Record CursorResponse (A : Type) : Type := MkCursorResponse {
  cr_items : list A; cr_pagination : CursorMeta; cr_meta : ListMeta
}.
Arguments MkCursorResponse {A}. Arguments cr_items {A}. Arguments cr_pagination {A}. Arguments cr_meta {A}.
Definition cursor_response {A} (items : list A) (params : ValidatedCursorParams) (next_cursor : option string)
    : CursorResponse A :=
  let has_more := bool_decide (is_Some next_cursor) in
  MkCursorResponse items (MkCursorMeta (Z.of_nat (length items) mod 2 ^ 32) has_more next_cursor)
    (MkListMeta None (vc_limit params) has_more).
Definition with_total {A} (self : CursorResponse A) (total : Z) (include_count : bool) : CursorResponse A :=
  if include_count
  then MkCursorResponse (cr_items self) (cr_pagination self)
         (MkListMeta (Some total) (lm_page_size (cr_meta self)) (lm_has_more (cr_meta self)))
  else self.

(** [String::from_utf8] accepts the well-formed sequences of Unicode. *)
Fixpoint utf8_valid (l : bytes) {struct l} : bool :=
  let tail b := (128 <=? b) && (b <=? 191) in
  match l with
  | [] => true
  | b :: l =>
      if (0 <=? b) && (b <=? 127) then utf8_valid l
      else if (194 <=? b) && (b <=? 223) then
        match l with b1 :: l => tail b1 && utf8_valid l | _ => false end
      else if (224 <=? b) && (b <=? 239) then
        match l with
        | b1 :: b2 :: l =>
            tail b1 && tail b2 && negb ((b =? 224) && (b1 <? 160)) && negb ((b =? 237) && (159 <? b1)) && utf8_valid l
        | _ => false
        end
      else if (240 <=? b) && (b <=? 244) then
        match l with
        | b1 :: b2 :: b3 :: l =>
            tail b1 && tail b2 && tail b3 && negb ((b =? 240) && (b1 <? 144)) && negb ((b =? 244) && (143 <? b1))
            && utf8_valid l
        | _ => false
        end
      else false
  end.
Inductive CursorError : Type := Decode | InvalidUtf8 | Deserialize.
(** [serde_json] for a type of cursors and [base64] without padding. *)
Class CursorCodec (C : Type) : Type := {
  to_json : C → option string;
  from_json : string → option C;
  b64url_encode : bytes → string;
  b64url_decode : string → option bytes
}.
Class CursorCodecLaws (C : Type) `{CursorCodec C} : Prop := {
  json_total c : is_Some (to_json c);
  json_roundtrip c s : to_json c = Some s → from_json s = Some c;
  json_utf8 c s : to_json c = Some s → utf8_valid (as_bytes s) = true;
  b64url_roundtrip l : Forall is_byte l → b64url_decode (b64url_encode l) = Some l
}.
Definition text_of (l : bytes) : string := String.string_of_list_ascii (map (λ b, ascii_of_N (Z.to_N b)) l).
Definition encode_cursor {C} `{CursorCodec C} (cursor : C) : option string :=
  (λ json, b64url_encode (as_bytes json)) <$> to_json cursor.
Definition decode_cursor {C} `{CursorCodec C} (cursor : string) : res CursorError C :=
  let! bytes := ok_or (b64url_decode cursor) Decode in
  let! json := (if utf8_valid bytes then Ok (text_of bytes) else Err InvalidUtf8) in
  ok_or (from_json json) Deserialize.

(** ** What pages promise *)
Lemma text_of_as_bytes s : text_of (as_bytes s) = s.
Proof.
  unfold text_of, as_bytes. rewrite <- (String.string_of_list_ascii_of_string s) at 2. f_equal.
  rewrite <- (map_id (String.list_ascii_of_string s)) at 2. change (@map Z ascii) with (@fmap list _ Z ascii).
  rewrite <- list_fmap_compose. apply list_fmap_ext. intros _ a _. cbn. rewrite N2Z.id. apply ascii_N_embedding.
Qed.
Lemma as_bytes_bytes s : Forall is_byte (as_bytes s).
Proof.
  apply Forall_fmap, Forall_forall. intros a _. unfold compose, is_byte. pose proof (N_ascii_bounded a). lia.
Qed.
(** A cursor that was handed out reads back. *)
Lemma cursor_roundtrip {C} `{CursorCodecLaws C} (c : C) s : encode_cursor c = Some s → decode_cursor s = Ok c.
Proof.
  unfold encode_cursor, decode_cursor. intros (json & Hj & ->)%fmap_Some. rewrite b64url_roundtrip by apply as_bytes_bytes. cbn [ok_or rbind].
  rewrite (json_utf8 _ _ Hj). cbn [rbind]. rewrite text_of_as_bytes. by rewrite (json_roundtrip _ _ Hj).
Qed.

(** The quotient in doubles rounds up to the true number of pages. *)
Lemma total_pages_exact size total : 1 ≤ size ≤ 100 → 0 ≤ total ≤ u32_max → total_pages_of size total = div_ceil total size.
Proof.
  intros Hs Ht. unfold total_pages_of. destruct (Z.eqb_spec total 0) as [->|Hne].
  { unfold div_ceil. symmetry. apply Z.div_small. lia. }
  pose proof (div_ceil_spec total size ltac:(lia) ltac:(lia)) as Hd. set (k := div_ceil total size) in *.
  assert (Hk : 1 ≤ k ≤ total) by nia. unfold u32_max in Ht. clearbody k.
  set (n := inject_Z total). set (d := inject_Z size). set (c := inject_Z k).
  assert (Hd1 : (1 <= d <= 100)%Q)
    by (unfold d; split; [change 1%Q with (inject_Z 1)|change 100%Q with (inject_Z 100)]; rewrite <- Zle_Qle; lia).
  assert (Hn : (0 <= n <= 4294967296)%Q)
    by (unfold n; split; [change 0%Q with (inject_Z 0)|change 4294967296%Q with (inject_Z 4294967296)]; rewrite <- Zle_Qle; lia).
  assert (Hup : (n <= c * d)%Q) by (unfold n, c, d; rewrite <- inject_Z_mult, <- Zle_Qle; lia).
  assert (Hlow : ((c - 1) * d + 1 <= n)%Q).
  { unfold n, c, d. change 1%Q with (inject_Z 1). unfold Qminus. rewrite <- inject_Z_opp, <- !inject_Z_plus, <- inject_Z_mult, <- inject_Z_plus, <- Zle_Qle. lia. }
  assert (Hq : (fdiv (of_int total) (of_int size) == rnd (n / d))%Q).
  { unfold fdiv, of_int. apply rnd_proper. rewrite !rnd_Z by lia. done. }
  assert (Hx : (c - 1 + (1 # 100) <= n / d <= c)%Q).
  { assert (Hd0 : (0 < d)%Q) by lra. split; [apply Qle_shift_div_l|apply Qle_shift_div_r]; [done|lra|done|done]. }
  assert (Hxn : (0 <= n / d <= 4294967296)%Q).
  { split; [apply Qle_shift_div_l; lra|]. apply Qle_shift_div_r; [lra|].
    assert (4294967296 * 1 <= 4294967296 * d)%Q by (apply Qmult_le_l; lra). lra. }
  assert (Hr : (c - 1 < rnd (n / d) <= c)%Q).
  { split; [|apply rnd_le_Z; [lia|apply Hx]]. pose proof (rnd_error (n / d) ltac:(lra)) as [He _].
    change (pow2 (- 53)) with (1 # 9007199254740992)%Q in He. lra. }
  unfold ceil_to. rewrite (Qceiling_comp _ _ Hq).
  assert (Hc : Qceiling (rnd (n / d)) = k).
  { apply Z.le_antisymm.
    - rewrite <- (Qceiling_Z k). apply Qceiling_resp_le, Hr.
    - cut (k - 1 < Qceiling (rnd (n / d))); [lia|]. pose proof (Qle_ceiling (rnd (n / d))).
      assert (Hk1 : (inject_Z (k - 1) == c - 1)%Q) by (unfold c, Z.sub; by rewrite inject_Z_plus).
      rewrite Zlt_Qlt. lra. }
  rewrite Hc. unfold u32_max. lia.
Qed.

(** A request for a page, once validated: pages are numbered from one, and hold
    between one and a hundred rows; parameters in range are kept as they are. *)
Definition valid_page (p : ValidatedPagination) : Prop := 1 ≤ vp_page p ≤ u32_max ∧ 1 ≤ vp_page_size p ≤ MAX_PAGE_SIZE.

(** The rows of page [n]. *)
Definition page_items {A} (checks : bool) (p : ValidatedPagination) (rows : list A) : res unit (list A) :=
  let! offset := offset checks p in Ok (sql_page (limit p) offset rows).
Lemma page_items_exact {A} checks p (rows : list A) : valid_page p → (vp_page p - 1) * vp_page_size p ≤ u32_max →
  page_items checks p rows = Ok (sql_page (vp_page_size p) ((vp_page p - 1) * vp_page_size p) rows).
Proof. intros _ Hp. unfold page_items, offset. cbv zeta. by rewrite (proj2 (Z.leb_le _ _) Hp). Qed.
(** Successive pages of [size] rows, [k] of them, are the first [k * size] rows. *)
Lemma sql_pages {A} size k (rows : list A) : 0 ≤ size → 
  concat ((λ n, sql_page size ((n - 1) * size) rows) <$> seqZ 1 (Z.of_nat k)) = take (Z.to_nat size * k)%nat rows.
Proof.
  intros Hs. induction k as [|k IH]; [by rewrite Nat.mul_0_r|].
  replace (Z.of_nat (S k)) with (Z.of_nat k + 1) by lia. rewrite seqZ_app by lia. rewrite fmap_app, concat_app, IH.
  change (seqZ (1 + Z.of_nat k) 1) with [1 + Z.of_nat k]. cbn [fmap list_fmap concat]. rewrite app_nil_r. unfold sql_page.
  replace (Z.to_nat ((1 + Z.of_nat k - 1) * size)) with (Z.to_nat size * k)%nat by nia.
  rewrite Nat.mul_succ_r, take_take_drop. done.
Qed.

(** Validated parameters are in range.  Whatever page number and size a
    request carries, [u32] both, the validated request is for a page numbered
    from one, of 1 to 100 rows; a request in range is left as it is, and
    validating twice changes nothing. *)
Theorem validated_pagination p :
  0 ≤ pp_page p ≤ u32_max → 0 ≤ pp_page_size p ≤ u32_max →
  let v := validate p in
  valid_page v ∧
  (valid_page (MkValidated (pp_page p) (pp_page_size p) (pp_count p)) →
   v = MkValidated (pp_page p) (pp_page_size p) (pp_count p)) ∧
  validate (MkPagination (vp_page v) (vp_page_size v) (vp_include_count v)) = v.
Proof.
  destruct p as [n s c]. unfold validate, valid_page, clamp, MAX_PAGE_SIZE, u32_max. cbn [pp_page pp_page_size pp_count vp_page vp_page_size vp_include_count].
  intros Hn Hs. split; [split; [destruct (Z.eqb_spec n 0); lia|lia]|]. split.
  - intros [Hn' Hs']. f_equal; [destruct (Z.eqb_spec n 0); lia|lia].
  - f_equal; [|lia]. destruct (Z.eqb_spec n 0) as [->|Hne]; [done|]. by destruct (Z.eqb_spec n 0).
Qed.

(** Every page of a list of rows, with the pages before it. *)
Lemma fetch_pages {A} checks size (rows : list A) k acc : 1 ≤ size ≤ 100 →
  Z.of_nat k * size < Z.of_nat (length rows) + size → Z.of_nat (length rows) ≤ u32_max →
  rfold (λ acc n, let! items := page_items checks (MkValidated n size true) rows in Ok (acc ++ items)) (seqZ 1 (Z.of_nat k)) acc
  = Ok (acc ++ concat ((λ n, sql_page size ((n - 1) * size) rows) <$> seqZ 1 (Z.of_nat k))).
Proof.
  intros Hs Hk Hl. assert (Hall : ∀ l acc, Forall (λ n, 1 ≤ n ∧ (n - 1) * size ≤ u32_max) l →
    rfold (λ acc n, let! items := page_items checks (MkValidated n size true) rows in Ok (acc ++ items)) l acc
    = Ok (acc ++ concat ((λ n, sql_page size ((n - 1) * size) rows) <$> l))).
  { intros l. induction l as [|n l IH]; intros a Hf; [by rewrite app_nil_r|]. apply Forall_cons in Hf as [Hn Hf].
    cbn [rfold]. unfold page_items, offset. cbn [vp_page vp_page_size]. rewrite (proj2 (Z.leb_le _ _) (proj2 Hn)).
    cbn [rbind limit vp_page_size]. rewrite (IH _ Hf). cbn [fmap list_fmap concat]. by rewrite app_assoc. }
  apply Hall. apply Forall_forall. intros n Hn. apply elem_of_seqZ in Hn. split; [lia|]. unfold u32_max in *. nia.
Qed.

(** Pages show every row once.  For any rows of a query, at most [u32::MAX],
    and any page size: the number of pages is the exact quotient rounded up
    although it is computed in doubles; fetching the pages from the first to the
    last gives all rows, in order and once; no page of them is empty; and a page
    announces a next one exactly when it is not the last, in both summaries. *)
Theorem pages_partition {A} checks (rows : list A) size :
  1 ≤ size ≤ 100 → Z.of_nat (length rows) ≤ u32_max →
  let total := Z.of_nat (length rows) in
  let page n := MkValidated n size true in
  let count := pm_total_pages (metadata (page 1) total) in
  count = div_ceil total size ∧
  rfold (λ acc n, let! items := page_items checks (page n) rows in Ok (acc ++ items)) (seqZ 1 count) [] = Ok rows ∧
  ∀ n, 1 ≤ n ≤ count →
    (∃ items, page_items checks (page n) rows = Ok items ∧ items ≠ []) ∧
    pm_has_next (metadata (page n) total) = bool_decide (n < count) ∧
    lm_has_more (list_meta (page n) (Some total) (length rows)) = bool_decide (n < count).
Proof.
  intros Hs Hl total page count. pose proof (div_ceil_spec total size ltac:(lia) ltac:(lia)) as Hd.
  assert (Hc : count = div_ceil total size) by (apply total_pages_exact; lia).
  assert (H0 : 0 ≤ count) by nia. split_and!; [done| |].
  - rewrite <- (Z2Nat.id count) by done. unfold page. rewrite fetch_pages; [|done|nia|done].
    rewrite sql_pages by lia. rewrite take_ge; [done|]. nia.
  - intros n Hn. assert (Hoff : (n - 1) * size < total) by nia. split_and!.
    + eexists. split; [apply page_items_exact; [split; cbn; unfold u32_max, MAX_PAGE_SIZE in *; nia|cbn; lia]|].
      cbn [page vp_page vp_page_size]. intros He. apply (f_equal length) in He. unfold sql_page in He.
      rewrite length_take, length_drop in He. cbn [length] in He.
      unfold total in Hoff. assert (0 ≤ (n - 1) * size) by nia. set (o := (n - 1) * size) in *. lia.
    + cbn. rewrite total_pages_exact by lia. rewrite <- Hc. case_bool_decide; lia.
    + cbn. rewrite total_pages_exact by lia. rewrite <- Hc. case_bool_decide; lia.
Qed.

(** Beyond page [2^32 / size] a release build shows the rows of another page. *)
Lemma far_page_wraps :
  offset false (validate (pagination_of (Some 42949674) (Some 100) None)) = Ok 4 ∧
  offset true (validate (pagination_of (Some 42949674) (Some 100) None)) = Panic.
Proof. by vm_compute. Qed.
(** Without a total the two summaries of a full page disagree. *)
Lemma uncounted_page_disagrees {A} (items : list A) p : Z.of_nat (length items) = vp_page_size p →
  1 ≤ vp_page p → 1 ≤ vp_page_size p ≤ 100 →
  let r := new_with_optional_total items p None in
  lm_has_more (pr_meta r) = true ∧ pm_has_next (pr_pagination r) = false.
Proof.
  intros Hi Hp Hs. cbn. rewrite Hi, Z.mod_small by lia. split; [lia|]. unfold total_pages_of. cbn. lia.
Qed.
