(* ===== verification/SrvListing.v ===== *)
(** * The server: listings of events

    The listings that are paged with cursors: [list_past_events] and
    [list_events_by_category] of [handlers/events.rs], [list_following_events] of
    [handlers/follows.rs] with the rest of that file, and [populate_is_free] of
    [models/event.rs].  A UUID is its 128-bit number, the order in which
    PostgreSQL compares it; times are milliseconds. *)

From Stdlib Require Import QArith.
From S2P Require Import Prelude Machine Prog SrvErrors SrvPages.
#[local] Open Scope Z_scope.

Record Event : Type := MkEvent {
  id : Z; organizer_id : Z; title : string; description : option string; location : string;
  start_time : Z; end_time : option Z; is_flagged : bool; is_featured : bool;
  sum_of_ratings : Z; count_of_ratings : Z; created_at : Z; updated_at : Z;
  total_tickets : Z; minted_tickets : Z; image_url : option string;
  latitude : option Q; longitude : option Q; is_free : bool; is_free_populated : bool; min_ticket_price : Q
}.
#[export] Instance eta_Event : Eta Event := λ e,
  MkEvent (id e) (organizer_id e) (title e) (description e) (location e) (start_time e) (end_time e) (is_flagged e)
    (is_featured e) (sum_of_ratings e) (count_of_ratings e) (created_at e) (updated_at e) (total_tickets e)
    (minted_tickets e) (image_url e) (latitude e) (longitude e) (is_free e) (is_free_populated e) (min_ticket_price e).
Record OrganizerProfile : Type := MkProfile {
  op_address : string; op_display_name : string; op_bio : option string; op_avatar_url : option string;
  op_socials : string; op_created_at : Z; op_updated_at : Z
}.
Record ListingDb : Type := MkListingDb {
  events : gmap Z Event;
  organizers : gmap Z (option string);             (** id ↦ [wallet_address], which need not be unique *)
  categories : gset Z;
  event_categories : gset (Z * Z);                 (** event, category *)
  ticket_tiers : list (Z * Q);                     (** event, price *)
  profiles : gmap string OrganizerProfile;         (** [organizer_profiles] *)
  user_follows : gmap (string * string) Z          (** follower, following ↦ [created_at] *)
}.
#[export] Instance eta_ListingDb : Eta ListingDb := λ d,
  MkListingDb (events d) (organizers d) (categories d) (event_categories d) (ticket_tiers d) (profiles d) (user_follows d).

(** ** Cursors of events *)
Record EventCursor : Type := MkEventCursor {
  ec_start_time : Z; ec_id : Z; ec_created_at : option Z; ec_minted_tickets : option Z;
  ec_count_of_ratings : option Z; ec_min_ticket_price : option Q
}.
Record PastEventCursor : Type := MkPastCursor { pc_end_time : Z; pc_id : Z }.

(** Keys of rows: a time, and the id to break ties. *)
Definition key_lt (a b : Z * Z) : Prop := a.1 < b.1 ∨ (a.1 = b.1 ∧ a.2 < b.2).
Definition key_le (a b : Z * Z) : Prop := a.1 < b.1 ∨ (a.1 = b.1 ∧ a.2 ≤ b.2).
#[export] Instance key_lt_dec : RelDecision key_lt.
Proof. intros a b. unfold key_lt. apply _. Defined.
#[export] Instance key_le_dec : RelDecision key_le.
Proof. intros a b. unfold key_le. apply _. Defined.
Definition start_key (e : Event) : Z * Z := (start_time e, id e).
Definition end_key (e : Event) : Z * Z := (default 0 (end_time e), id e).
(** [ORDER BY start_time ASC, id ASC] and [ORDER BY end_time DESC, id DESC] *)
Definition earlier (a b : Event) : Prop := key_le (start_key a) (start_key b).
Definition later_end (a b : Event) : Prop := key_le (end_key b) (end_key a).
#[export] Instance earlier_dec : RelDecision earlier.
Proof. intros a b. unfold earlier. apply _. Defined.
#[export] Instance later_end_dec : RelDecision later_end.
Proof. intros a b. unfold later_end. apply _. Defined.

(** ** Queries: the rows that satisfy the conditions, in order *)
Definition all_events (db : ListingDb) : list Event := (map_to_list (events db)).*2.
(** A comparison with NULL does not hold. *)
Definition ended (now : Z) (e : Event) : bool := match end_time e with Some t => t <=? now | None => false end.
Definition upcoming (now : Z) (e : Event) : bool :=
  match end_time e with Some t => now <? t | None => false end && negb (is_flagged e).
Definition past_events (db : ListingDb) (now : Z) (organizer : option Z) : list Event :=
  merge_sort later_end (filter (λ e, ended now e && negb (is_flagged e) = true ∧
                                      (organizer = None ∨ organizer = Some (organizer_id e))) (all_events db)).
Definition category_events (db : ListingDb) (now category : Z) : list Event :=
  merge_sort earlier (filter (λ e, (id e, category) ∈ event_categories db ∧ upcoming now e = true) (all_events db)).
Definition follows (db : ListingDb) (follower : string) (organizer : Z) : bool :=
  match organizers db !! organizer with
  | Some (Some w) => bool_decide (is_Some (user_follows db !! (follower, w)))
  | _ => false
  end.
Definition followed_events (db : ListingDb) (now : Z) (follower : string) : list Event :=
  merge_sort earlier (filter (λ e, follows db follower (organizer_id e) && upcoming now e = true) (all_events db)).
(** The condition of a cursor. *)
Definition after_start (cursor : option EventCursor) (rows : list Event) : list Event :=
  match cursor with None => rows | Some c => filter (λ e, key_lt (ec_start_time c, ec_id c) (start_key e)) rows end.
Definition before_end (cursor : option PastEventCursor) (rows : list Event) : list Event :=
  match cursor with None => rows | Some c => filter (λ e, key_lt (end_key e) (pc_end_time c, pc_id c)) rows end.

Inductive list_cmd : Type → Type :=
| SelectPast (organizer_wallet : option string) (cursor : option PastEventCursor) (limit : Z)
    : list_cmd (res SqlxError (list Event))
| CategoryExists (category : Z) : list_cmd bool
| SelectCategory (category : Z) (cursor : option EventCursor) (limit : Z) : list_cmd (list Event)
| SelectFollowed (follower : string) (cursor : option EventCursor) (limit : Z) : list_cmd (list Event)
| SelectPaid (ids : list Z) : list_cmd (list Z)
| ProfileExists (address : string) : list_cmd bool
| InsertFollow (follower following : string) : list_cmd (res SqlxError unit)
| DeleteFollow (follower following : string) : list_cmd Z
| CountFollowers (following : string) : list_cmd Z
| CountFollowing (follower : string) : list_cmd Z
| SelectFollowing (follower : string) (limit offset : Z) : list_cmd (list OrganizerProfile).
Definition subquery_rows : SqlxError := SqlxDatabase false false "more than one row returned by a subquery used as an expression".

(** [organizer_id = (SELECT id FROM organizers WHERE wallet_address = $)] *)
Definition past_rows (db : ListingDb) (now : Z) (wallet : option string) : res SqlxError (list Event) :=
  match wallet with
  | None => Ok (past_events db now None)
  | Some w =>
      match filter (λ p, p.2 = Some w) (map_to_list (organizers db)) with
      | [] => Ok []
      | [(o, _)] => Ok (past_events db now (Some o))
      | _ => Err subquery_rows
      end
  end.

Definition newest_follow (a b : Z * OrganizerProfile) : Prop := b.1 ≤ a.1.
#[export] Instance newest_follow_dec : RelDecision newest_follow.
Proof. intros a b. unfold newest_follow. apply _. Defined.
Definition following_of (db : ListingDb) (follower : string) : list OrganizerProfile :=
  (merge_sort newest_follow
     (omap (λ p, if decide (p.1.1 = follower) then (λ op, (p.2, op)) <$> profiles db !! p.1.2 else None)
        (map_to_list (user_follows db)))).*2.
Definition list_exec (now : Z) {R} (c : list_cmd R) (db : ListingDb) : option (R * ListingDb) :=
  match c in list_cmd R return option (R * ListingDb) with
  | SelectPast wallet cursor limit =>
      Some (let! rows := past_rows db now wallet in Ok (take (Z.to_nat limit) (before_end cursor rows)), db)
  | CategoryExists c => Some (bool_decide (c ∈ categories db), db)
  | SelectCategory c cursor limit => Some (take (Z.to_nat limit) (after_start cursor (category_events db now c)), db)
  | SelectFollowed f cursor limit => Some (take (Z.to_nat limit) (after_start cursor (followed_events db now f)), db)
  | SelectPaid ids => Some (remove_dups (filter (λ e, e ∈ ids) (filter (λ t, Qle_bool t.2 0 = false) (ticket_tiers db)).*1), db)
  | ProfileExists a => Some (bool_decide (is_Some (profiles db !! a)), db)
  | InsertFollow f o =>
      Some (if decide (profiles db !! o = None) then (Err foreign_key_violation, db)
            else match user_follows db !! (f, o) with
                 | Some _ => (Ok tt, db)
                 | None => (Ok tt, db ⟨ user_follows ::= <[(f, o) := now]> ⟩)
                 end)
  | DeleteFollow f o =>
      Some (match user_follows db !! (f, o) with
            | Some _ => (1, db ⟨ user_follows ::= delete (f, o) ⟩)
            | None => (0, db)
            end)
  | CountFollowers o => Some (Z.of_nat (length (filter (λ p, p.1.2 = o) (map_to_list (user_follows db)))), db)
  | CountFollowing f => Some (Z.of_nat (length (filter (λ p, p.1.1 = f) (map_to_list (user_follows db)))), db)
  | SelectFollowing f limit offset => Some (sql_page limit offset (following_of db f), db)
  end.
Abbreviation list_prog := (prog list_cmd AppError).

(** ** The handlers *)
Section Listing.
Context `{CursorCodec EventCursor} `{CursorCodec PastEventCursor}.

(** The end of every listing: the extra row tells whether there is more; it is
    removed, and the cursor is made of it. *)
Definition split_page {A} (validated : ValidatedCursorParams) (items : list A) : list A * option A :=
  if (page_size validated <? length items)%nat then (removelast items, last items) else (items, None).
Definition cursor_of (e : Event) : EventCursor :=
  MkEventCursor (start_time e) (id e) (Some (created_at e)) (Some (minted_tickets e)) (Some (count_of_ratings e))
    (Some (min_ticket_price e)).
Definition invalid_cursor (e : CursorError) : AppError :=
  ValidationError ("Invalid cursor: " +:+ match e with
    | Decode => "failed to decode base64 cursor"
    | InvalidUtf8 => "cursor contains invalid utf-8"
    | Deserialize => "failed to deserialize cursor"
    end).
Definition decode_opt {C} `{CursorCodec C} (cursor : option string) : res AppError (option C) :=
  match cursor with
  | None => Ok None
  | Some c => let! c := map_err invalid_cursor (decode_cursor c) in Ok (Some c)
  end.
Definition not_encoded : AppError := InternalServerError "Failed to encode cursor".

Definition page_of {A} (validated : ValidatedCursorParams) (encode : A → res AppError string) (rows : list A)
    : res AppError (CursorResponse A) :=
  let ' (items, extra) := split_page validated rows in
  let! next := (match extra with
                | Some last => let! c := encode last in Ok (Some c)
                | None => Ok None
                end) in
  Ok (cursor_response items validated next).

Definition list_past_events (params : CursorParams) (organizer_wallet : option string)
    : list_prog (CursorResponse Event) :=
  let validated := validate_cursor params in
  let* cursor := ret (decode_opt (vc_cursor validated)) in
  let!? rows := SelectPast organizer_wallet cursor (query_limit validated) in
  let* rows := ret (map_err DatabaseError rows) in
  ret (page_of validated
         (λ last, match end_time last with
                  | Some t => ok_or (encode_cursor (MkPastCursor t (id last))) not_encoded
                  | None => Err not_encoded
                  end) rows).

Definition list_events_by_category (category : Z) (params : CursorParams) : list_prog (CursorResponse Event) :=
  let!? exists_ := CategoryExists category in
  if negb exists_ then ret (Err (NotFound ("Category with id '" +:+ uuid_text category +:+ "' not found")))
  else
    let validated := validate_cursor params in
    let* cursor := ret (decode_opt (vc_cursor validated)) in
    let!? rows := SelectCategory category cursor (query_limit validated) in
    ret (page_of validated (λ last, ok_or (encode_cursor (cursor_of last)) not_encoded) rows).

Definition mark_free (paid : list Z) (e : Event) : Event :=
  e ⟨ is_free := negb (bool_decide (id e ∈ paid)) ⟩ ⟨ is_free_populated := true ⟩.
Definition populate_is_free (items : list Event) : list_prog (list Event) :=
  if decide (items = []) then ret (Ok items)
  else Call (SelectPaid (map id items)) (λ paid,
         match paid with
         | Some paid => ret (Ok (map (mark_free paid) items))
         | None => ret (Ok items)
         end).
Definition list_following_events (follower : string) (params : CursorParams) : list_prog (CursorResponse Event) :=
  let validated := validate_cursor params in
  let* cursor := ret (decode_opt (vc_cursor validated)) in
  let!? rows := SelectFollowed follower cursor (query_limit validated) in
  let ' (items, extra) := split_page validated rows in
  let next := extra ≫= λ last, encode_cursor (cursor_of last) in
  let* items := populate_is_free items in
  ret (Ok (cursor_response items validated next)).

(** ** Following organizers *)
Definition follow_organizer (follower organizer_address : string) : list_prog unit :=
  if String.eqb follower organizer_address then ret (Err (ValidationError "Cannot follow yourself"))
  else
    let!? found := ProfileExists organizer_address in
    if negb found then ret (Err (NotFound ("Organizer " +:+ organizer_address +:+ " not found")))
    else
      let!? r := InsertFollow follower organizer_address in
      ret (map_err DatabaseError r).
Definition unfollow_organizer (follower organizer_address : string) : list_prog unit :=
  let!? affected := DeleteFollow follower organizer_address in
  if affected =? 0 then ret (Err (NotFound "Follow relationship not found")) else ret (Ok tt).
Definition get_followers_count (organizer_address : string) : list_prog Z :=
  let!? count := CountFollowers organizer_address in
  ret (Ok count).
Definition list_following (checks : bool) (follower : string) (pagination : PaginationParams)
    : list_prog (PaginatedResponse OrganizerProfile) :=
  let validated := validate pagination in
  let!? total := CountFollowing follower in
  match offset checks validated with
  | Ok off =>
      let!? rows := SelectFollowing follower (limit validated) off in
      ret (Ok (paginated rows validated total))
  | _ => ret Panic
  end.
End Listing.

(** ** The server: what the listings show

    A client that follows the cursors of a listing, page after page. *)
#[local] Open Scope Z_scope.

(** ** Following cursors *)
Section Follow.
Context {A : Type}.
(** [Panic] when the pages outnumber the fuel. *)
Fixpoint follow (fetch : option string → res AppError (CursorResponse A)) (fuel : nat) (cursor : option string)
    : res AppError (list A) :=
  match fuel with
  | O => Panic
  | S fuel =>
      let! page := fetch cursor in
      match cm_next_cursor (cr_pagination page) with
      | None => Ok (cr_items page)
      | Some c => let! rest := follow fetch fuel (Some c) in Ok (cr_items page ++ rest)
      end
  end.
(** All rows but every [k + 1]-th, the next of which is [j] rows away. *)
Fixpoint skip_every (k j : nat) (l : list A) : list A :=
  match l with
  | [] => []
  | x :: l => match j with O => skip_every k k l | S j => x :: skip_every k j l end
  end.
Lemma skip_every_page k j l : skip_every k j l = take j l ++ skip_every k k (drop (S j) l).
Proof.
  revert j. induction l as [|x l IH]; intros [|j]; [done..|]. cbn [skip_every take app]. f_equal. apply IH.
Qed.
Lemma skip_every_short k j l : (length l ≤ j)%nat → skip_every k j l = l.
Proof. intros Hl. rewrite skip_every_page, drop_ge, take_ge, app_nil_r by lia. done. Qed.
Lemma skip_every_length k j l : (j ≤ k)%nat →
  (length (skip_every k j l) + (length l + k - j) / S k = length l)%nat.
Proof.
  revert j. induction l as [|x l IH]; intros j Hj; [cbn [skip_every length Nat.add]; apply Nat.div_small; lia|]. destruct j as [|j]; cbn [skip_every length].
  - pose proof (IH k ltac:(lia)) as Hl. replace (length l + k - k)%nat with (length l) in Hl by lia.
    replace (S (length l) + k - 0)%nat with (length l + 1 * S k)%nat by lia. rewrite Nat.div_add by lia. lia.
  - pose proof (IH j ltac:(lia)) as Hl. replace (S (length l) + k - S j)%nat with (length l + k - j)%nat by lia. lia.
Qed.

(** A listing of [rows] in pages of [k], with [cursor x] the cursor made of a row. *)
Variables (rows : list A) (k : nat) (cursor : A → string) (shown : A → A).
Variable fetch : option string → res AppError (CursorResponse A).
(** Page by page, from a position on. *)
Definition serves (c : option string) (j : nat) : Prop :=
  ∃ page, fetch c = Ok page ∧ cr_items page = shown <$> take k (drop j rows) ∧
    cm_next_cursor (cr_pagination page) = cursor <$> rows !! (j + k)%nat.
Lemma follow_skips fuel c j :
  serves c j → (∀ i x, rows !! i = Some x → serves (Some (cursor x)) (S i)) →
  (length (drop j rows) / S k < fuel)%nat →
  follow fetch fuel c = Ok (shown <$> skip_every k k (drop j rows)).
Proof.
  intros Hc Hs. revert c j Hc. induction fuel as [|fuel IH]; intros c j Hc Hf; [lia|].
  destruct Hc as (page & Hp & Hi & Hn). cbn [follow]. rewrite Hp. cbn [rbind]. rewrite Hn, Hi.
  destruct (rows !! (j + k)%nat) as [x|] eqn:Hx; cbn [fmap option_fmap option_map].
  - rewrite (IH _ (S (j + k)) (Hs _ _ Hx)).
    + cbn [rbind]. rewrite (skip_every_page k k (drop j rows)), drop_drop, fmap_app.
      by replace (j + S k)%nat with (S (j + k)) by lia.
    + apply lookup_lt_Some in Hx. rewrite length_drop in Hf |- *.
      replace (length rows - j)%nat with ((length rows - S (j + k)) + 1 * S k)%nat in Hf by lia.
      rewrite Nat.div_add in Hf by lia. lia.
  - apply lookup_ge_None in Hx. rewrite skip_every_short, take_ge by (rewrite length_drop; lia). done.
Qed.
End Follow.

(** ** Rows in the order of their keys *)
Lemma filter_all {A} (P : A → Prop) `{∀ x, Decision (P x)} l : Forall P l → filter P l = l.
Proof. induction 1 as [|x l Hx _ IH]; [done|]. rewrite filter_cons_True by done. by rewrite IH. Qed.
Section Ordered.
Context {A : Type} (key : A → Z * Z) (lt : Z * Z → Z * Z → Prop) (le : A → A → Prop).
Context `{!RelDecision lt} `{!RelDecision le}.
Hypothesis lt_trans : Transitive lt.
Hypothesis lt_irrefl : ∀ a, ¬ lt a a.
Hypothesis le_total : Total le.
Hypothesis le_trans : Transitive le.
Hypothesis le_lt : ∀ a b, le a b → key a ≠ key b → lt (key a) (key b).

Lemma sorted_strictly l : NoDup (key <$> l) → StronglySorted (λ a b, lt (key a) (key b)) (merge_sort le l).
Proof.
  intros Hnd. assert (Hs : StronglySorted le (merge_sort le l)) by (apply Sorted_StronglySorted, Sorted_merge_sort; done).
  assert (Hn : NoDup (key <$> merge_sort le l)) by (by rewrite merge_sort_Permutation).
  revert Hn. induction Hs as [|x l' Hl IH Hx]; intros Hn; [constructor|]. apply NoDup_cons in Hn as [Hk Hn].
  constructor; [by apply IH|]. eapply Forall_impl; [apply Forall_forall; intros y Hy|intros y Hy; exact Hy].
  apply le_lt; [by eapply Forall_forall in Hx|]. intros He. apply Hk. rewrite He. by apply list_elem_of_fmap_2.
Qed.
(** What comes after a row is what the condition on its key selects. *)
Lemma after_row l i x : StronglySorted (λ a b, lt (key a) (key b)) l → l !! i = Some x →
  filter (λ e, lt (key x) (key e)) l = drop (S i) l.
Proof.
  revert i. induction l as [|y l IH]; intros i Hs Hi; [done|]. apply StronglySorted_inv in Hs as [Hs Hy].
  destruct i as [|i]; cbn in Hi.
  - simplify_eq. rewrite filter_cons_False by apply lt_irrefl. cbn [drop].
    by apply filter_all.
  - rewrite filter_cons_False; [by apply IH|]. intros Hlt. eapply Forall_forall in Hy; [|by eapply list_elem_of_lookup_2].
    eapply lt_irrefl. by etrans.
Qed.
End Ordered.

(** Rows are stored under their ids. *)
Definition keyed (db : ListingDb) : Prop := ∀ i e, events db !! i = Some e → id e = i.
Lemma sort_keys_distinct db (P : Event → Prop) `{∀ e, Decision (P e)} (key : Event → Z * Z) : keyed db →
  (∀ e, (key e).2 = id e) → NoDup (key <$> filter P (all_events db)).
Proof.
  intros Hk Hid. apply NoDup_fmap_1 with (f := snd). rewrite <- list_fmap_compose.
  assert (He : (snd ∘ key) <$> filter P (all_events db) = id <$> filter P (all_events db))
    by (apply list_fmap_ext; intros; apply Hid). rewrite He. clear He.
  assert (Hall : NoDup (id <$> all_events db)).
  { unfold all_events. rewrite <- list_fmap_compose.
    assert (He : (id ∘ snd) <$> map_to_list (events db) = fst <$> map_to_list (events db)).
    { apply list_fmap_ext. intros n [i e] Hn. cbn. by apply Hk, elem_of_map_to_list, (list_elem_of_lookup_2 _ n). }
    rewrite He. apply NoDup_fst_map_to_list. }
  revert Hall. generalize (all_events db). intros l. induction l as [|e l IH]; [done|]. cbn [fmap list_fmap].
  intros [Hn Hl]%NoDup_cons. rewrite filter_cons. case_decide; [|by apply IH]. cbn [fmap list_fmap].
  constructor; [|by apply IH]. intros (x & Hx & Hin)%list_elem_of_fmap. apply list_elem_of_filter in Hin as [_ Hin].
  apply Hn. rewrite Hx. by apply list_elem_of_fmap_2.
Qed.
#[local] Instance key_lt_trans : Transitive key_lt.
Proof. intros [] [] []. unfold key_lt. cbn. lia. Qed.
Lemma key_lt_irrefl a : ¬ key_lt a a.
Proof. unfold key_lt. lia. Qed.
#[local] Instance earlier_total : Total earlier.
Proof. intros a b. unfold earlier, key_le. cbn. lia. Qed.
#[local] Instance earlier_trans : Transitive earlier.
Proof. intros a b c. unfold earlier, key_le. cbn. lia. Qed.
#[local] Instance later_end_total : Total later_end.
Proof. intros a b. unfold later_end, key_le. cbn. lia. Qed.
#[local] Instance later_end_trans : Transitive later_end.
Proof. intros a b c. unfold later_end, key_le. cbn. lia. Qed.
Lemma key_le_lt a b : key_le a b → a ≠ b → key_lt a b.
Proof. destruct a as [a i], b as [b j]. unfold key_le, key_lt. cbn. intros [?|[? ?]] Hne; [by left|]. right. split; [done|]. destruct (decide (i = j)) as [->|]; [by subst|lia]. Qed.

Lemma after_start_row db (P : Event → Prop) `{∀ e, Decision (P e)} i x : keyed db →
  merge_sort earlier (filter P (all_events db)) !! i = Some x →
  after_start (Some (cursor_of x)) (merge_sort earlier (filter P (all_events db))) =
  drop (S i) (merge_sort earlier (filter P (all_events db))).
Proof.
  intros Hk Hi. apply (after_row start_key key_lt); [apply _|apply key_lt_irrefl| |done].
  apply (sorted_strictly start_key key_lt earlier); [apply _|apply _| |by apply sort_keys_distinct].
  intros a b Hab Hne. by apply key_le_lt.
Qed.
Definition key_gt (a b : Z * Z) : Prop := key_lt b a.
#[local] Instance key_gt_dec : RelDecision key_gt := λ a b, key_lt_dec b a.
#[local] Instance key_gt_trans : Transitive key_gt.
Proof. intros a b c ? ?. by eapply key_lt_trans. Qed.
Lemma before_end_row db (P : Event → Prop) `{∀ e, Decision (P e)} i x t : keyed db →
  merge_sort later_end (filter P (all_events db)) !! i = Some x → end_time x = Some t →
  before_end (Some (MkPastCursor t (id x))) (merge_sort later_end (filter P (all_events db))) =
  drop (S i) (merge_sort later_end (filter P (all_events db))).
Proof.
  intros Hk Hi Ht. unfold before_end. cbn [pc_end_time pc_id].
  replace (t, id x) with (end_key x) by (unfold end_key; by rewrite Ht).
  rewrite (list_filter_iff _ (λ e, key_gt (end_key x) (end_key e))) by done.
  apply (after_row end_key key_gt); [apply _|intros a; apply key_lt_irrefl| |done].
  apply (sorted_strictly end_key key_gt later_end); [apply _|apply _| |by apply sort_keys_distinct].
  intros a b Hab Hne. apply key_le_lt; [done|]. intros He. by apply Hne.
Qed.

(** ** The listings *)
Lemma split_page_take {A} v (rows : list A) :
  split_page v (take (S (page_size v)) rows) = (take (page_size v) rows, rows !! page_size v).
Proof.
  unfold split_page. rewrite length_take. destruct (rows !! page_size v) as [x|] eqn:Hx.
  - pose proof (lookup_lt_Some _ _ _ Hx). rewrite (proj2 (Nat.ltb_lt _ _)) by lia.
    rewrite (take_S_r _ _ x Hx), last_snoc. by rewrite removelast_last.
  - apply lookup_ge_None in Hx. rewrite (proj2 (Nat.ltb_ge _ _)) by lia. by rewrite !take_ge by lia.
Qed.

Section Listings.
Context `{HE : CursorCodecLaws EventCursor} `{HP : CursorCodecLaws PastEventCursor}.
Inductive listing : Type := PastListing (wallet : option string) | CategoryListing (category : Z) | FollowedListing (follower : string).
Definition handler (l : listing) (params : CursorParams) : list_prog (CursorResponse Event) :=
  match l with
  | PastListing w => list_past_events params w
  | CategoryListing c => list_events_by_category c params
  | FollowedListing f => list_following_events f params
  end.
(** The rows a listing is about; [None] where the handler answers with an error. *)
Definition rows_of (db : ListingDb) (now : Z) (l : listing) : option (list Event) :=
  match l with
  | PastListing w => match past_rows db now w with Ok rows => Some rows | _ => None end
  | CategoryListing c => if decide (c ∈ categories db) then Some (category_events db now c) else None
  | FollowedListing f => Some (followed_events db now f)
  end.
(** An event as it is shown: the feed of followed organizers says whether it is free. *)
Definition shown_as (db : ListingDb) (l : listing) (e : Event) : Event :=
  match l with
  | FollowedListing _ => mark_free (filter (λ t, Qle_bool t.2 0 = false) (ticket_tiers db)).*1 e
  | _ => e
  end.
Definition fetch_page (db : ListingDb) (now : Z) (l : listing) (lim : Z) (c : option string) : res AppError (CursorResponse Event) :=
  (prun (λ R, @list_exec now R) (handler l (MkCursorParams lim c false)) db).1.
Definition text_cursor (l : listing) (e : Event) : string :=
  default EmptyString match l with
  | PastListing _ => encode_cursor (MkPastCursor (default 0 (end_time e)) (id e))
  | _ => encode_cursor (cursor_of e)
  end.
Lemma encode_total {C} `{CursorCodecLaws C} (c : C) : encode_cursor c = Some (default EmptyString (encode_cursor c)).
Proof. unfold encode_cursor. destruct (json_total c) as [s Hs]. by rewrite Hs. Qed.

Lemma page_of_take {A} v (enc : A → res AppError string) (cursor : A → string) rows :
  (∀ x, x ∈ rows → enc x = Ok (cursor x)) →
  page_of v enc (take (S (page_size v)) rows) =
  Ok (cursor_response (take (page_size v) rows) v (cursor <$> rows !! page_size v)).
Proof.
  intros Henc. unfold page_of. rewrite split_page_take. destruct (rows !! page_size v) as [x|] eqn:Hx; [|done].
  rewrite Henc by (by eapply list_elem_of_lookup_2). done.
Qed.
Lemma query_limit_S v : 0 ≤ vc_limit v → Z.to_nat (query_limit v) = S (page_size v).
Proof. unfold query_limit, page_size. lia. Qed.
Lemma limit_pos lim c b : 0 ≤ vc_limit (validate_cursor (MkCursorParams lim c b)).
Proof. unfold validate_cursor, clamp. cbn. lia. Qed.
Lemma page_size_of lim c b : page_size (validate_cursor (MkCursorParams lim c b)) = Z.to_nat (clamp 1 MAX_PAGE_SIZE lim).
Proof. done. Qed.


(** A page from a position on, for a cursor that selects the rows from there on. *)
Lemma past_serves db now w lim c cur rows j :
  past_rows db now w = Ok rows → (∀ x, x ∈ rows → is_Some (end_time x)) →
  decode_opt c = Ok cur → before_end cur rows = drop j rows →
  serves rows (Z.to_nat (clamp 1 MAX_PAGE_SIZE lim)) (text_cursor (PastListing w)) (shown_as db (PastListing w))
    (fetch_page db now (PastListing w) lim) c j.
Proof.
  intros Hrows Hend Hc Hj. unfold serves, fetch_page, handler, list_past_events. cbv zeta.
  set (v := validate_cursor _). change (vc_cursor v) with c. rewrite Hc. cbn [bind call_or prun list_exec].
  rewrite Hrows. cbn [rbind map_err bind prun fst]. rewrite Hj, query_limit_S by apply limit_pos.
  rewrite (page_of_take v _ (text_cursor (PastListing w))).
  - eexists. split; [done|]. cbn [cr_items cursor_response cr_pagination cm_next_cursor]. rewrite lookup_drop.
    split; [|done]. by rewrite list_fmap_id.
  - intros x Hx. destruct (Hend x) as [t Ht]. { rewrite <- (take_drop j rows). apply elem_of_app. by right. }
    rewrite Ht. unfold text_cursor. rewrite Ht. cbn [default from_option]. by rewrite (encode_total (MkPastCursor _ _)).
Qed.
Lemma category_serves db now cat lim c cur j : cat ∈ categories db →
  let rows := category_events db now cat in
  decode_opt c = Ok cur → after_start cur rows = drop j rows →
  serves rows (Z.to_nat (clamp 1 MAX_PAGE_SIZE lim)) (text_cursor (CategoryListing cat)) (shown_as db (CategoryListing cat))
    (fetch_page db now (CategoryListing cat) lim) c j.
Proof.
  intros Hcat rows Hc Hj. unfold serves, fetch_page, handler, list_events_by_category. cbv zeta. cbn [call_or prun list_exec].
  rewrite bool_decide_eq_true_2 by done. cbn [negb].
  set (v := validate_cursor _). change (vc_cursor v) with c. rewrite Hc. cbn [bind call_or prun list_exec fst].
  fold rows. rewrite Hj, query_limit_S by apply limit_pos.
  rewrite (page_of_take v _ (text_cursor (CategoryListing cat))).
  - eexists. split; [done|]. cbn [cr_items cursor_response cr_pagination cm_next_cursor]. rewrite lookup_drop.
    split; [|done]. by rewrite list_fmap_id.
  - intros x _. unfold text_cursor. by rewrite (encode_total (cursor_of x)).
Qed.
Lemma populate_spec db now items :
  prun (λ R, @list_exec now R) (populate_is_free items) db =
  (Ok (mark_free (filter (λ t, Qle_bool t.2 0 = false) (ticket_tiers db)).*1 <$> items), db).
Proof.
  unfold populate_is_free. case_decide as Hi; [by subst|]. cbn [prun list_exec]. do 2 f_equal.
  apply list_fmap_ext. intros n e He. unfold mark_free. set (paid := _.*1).
  cut (bool_decide (id e ∈ remove_dups (filter (λ e, e ∈ map id items) paid)) = bool_decide (id e ∈ paid)); [by intros ->|].
  apply bool_decide_ext. rewrite elem_of_remove_dups, list_elem_of_filter. split; [by intros [_ ?]|]. intros Hin. split; [|done].
  apply (list_elem_of_fmap_2 id). by eapply list_elem_of_lookup_2.
Qed.
Lemma followed_serves db now f lim c cur j :
  let rows := followed_events db now f in
  decode_opt c = Ok cur → after_start cur rows = drop j rows →
  serves rows (Z.to_nat (clamp 1 MAX_PAGE_SIZE lim)) (text_cursor (FollowedListing f)) (shown_as db (FollowedListing f))
    (fetch_page db now (FollowedListing f) lim) c j.
Proof.
  intros rows Hc Hj. unfold serves, fetch_page, handler, list_following_events. cbv zeta.
  set (v := validate_cursor _). change (vc_cursor v) with c. rewrite Hc. cbn [bind call_or prun list_exec].
  fold rows. rewrite Hj, query_limit_S by apply limit_pos. rewrite split_page_take, prun_bind, populate_spec.
  cbn [prun fst]. eexists. split; [done|]. cbn [cr_items cursor_response cr_pagination cm_next_cursor].
  split; [done|]. rewrite lookup_drop. unfold page_size. cbn [v validate_cursor vc_limit cp_limit].
  destruct (rows !! _) as [x|]; [|done]. cbn [mbind option_bind fmap option_fmap option_map].
  unfold text_cursor. by rewrite (encode_total (cursor_of x)).
Qed.

Lemma decode_text_start x : decode_opt (Some (default EmptyString (encode_cursor (cursor_of x)))) = Ok (Some (cursor_of x)).
Proof. unfold decode_opt. by rewrite (cursor_roundtrip (cursor_of x)) by apply encode_total. Qed.
Lemma decode_text_end t i :
  decode_opt (Some (default EmptyString (encode_cursor (MkPastCursor t i)))) = Ok (Some (MkPastCursor t i)).
Proof. unfold decode_opt. by rewrite (cursor_roundtrip (MkPastCursor t i)) by apply encode_total. Qed.
Lemma past_rows_ended db now w rows x : past_rows db now w = Ok rows → x ∈ rows → is_Some (end_time x).
Proof.
  assert (Hp : ∀ o, x ∈ past_events db now o → is_Some (end_time x)).
  { intros o. unfold past_events. rewrite merge_sort_Permutation, list_elem_of_filter. intros [[He _] _].
    unfold ended in He. by destruct (end_time x). }
  unfold past_rows. intros Hr Hx. destruct w as [w|]; [|simplify_eq; by eapply Hp].
  destruct (filter _ _) as [|[o ?] [|]]; simplify_eq; [by apply not_elem_of_nil in Hx|by eapply Hp].
Qed.
Lemma past_rows_next db now w rows i x t : keyed db → past_rows db now w = Ok rows → rows !! i = Some x →
  end_time x = Some t → before_end (Some (MkPastCursor t (id x))) rows = drop (S i) rows.
Proof.
  intros Hk Hr Hi Ht. unfold past_rows in Hr. destruct w as [w|]; [|simplify_eq; by apply before_end_row].
  destruct (filter _ _) as [|[o ?] [|]]; simplify_eq. by apply before_end_row.
Qed.

(** What following the cursors shows.  Fix the tables, and let a client follow
    a listing (past events, the events of a category, the events of the organizers
    it follows) in pages of [k] from the first page on until there is no next
    cursor.  The client gets to the end, after at most [length / (k + 1) + 1]
    pages.  What it has seen by then is the listing, in order, without every
    [k + 1]-th row: the row that comes after a full page is not on the next page
    either.  So [length / (k + 1)] rows are never shown, and the listing is
    complete exactly if it fits a page. *)
Theorem cursors_skip db now l lim rows fuel :
  keyed db → rows_of db now l = Some rows →
  let k := Z.to_nat (clamp 1 MAX_PAGE_SIZE lim) in
  (length rows / S k < fuel)%nat →
  follow (fetch_page db now l lim) fuel None = Ok (shown_as db l <$> skip_every k k rows) ∧
  (length (skip_every k k rows) + length rows / S k = length rows)%nat.
Proof.
  intros Hk Hrows k Hf. split.
  2: { pose proof (skip_every_length k k rows ltac:(lia)) as Hs. by replace (length rows + k - k)%nat with (length rows) in Hs by lia. }
  change (skip_every k k rows) with (skip_every k k (drop 0 rows)). apply (follow_skips rows k (text_cursor l)); [..|done]; destruct l as [w|cat|f]; cbn in Hrows.
  - destruct (past_rows db now w) as [r| |] eqn:Hr; simplify_eq. apply past_serves with (cur := None); [done| |done|done].
    intros x. by eapply past_rows_ended.
  - case_decide; simplify_eq. by apply category_serves with (cur := None).
  - simplify_eq. by apply followed_serves with (cur := None).
  - intros i x Hi. destruct (past_rows db now w) as [r| |] eqn:Hr; simplify_eq.
    destruct (past_rows_ended _ _ _ _ x Hr) as [t Ht]; [by eapply list_elem_of_lookup_2|].
    eapply past_serves; [done|intros y; by eapply past_rows_ended|unfold text_cursor; apply decode_text_end|].
    rewrite Ht. by eapply past_rows_next.
  - intros i x Hi. case_decide; simplify_eq.
    eapply category_serves; [done|unfold text_cursor; apply decode_text_start|]. by apply after_start_row.
  - intros i x Hi. simplify_eq. eapply followed_serves; [unfold text_cursor; apply decode_text_start|]. by apply after_start_row.
Qed.
End Listings.
