(* ===== verification/SrvQr.v ===== *)
(** * The server: signed QR codes

    [server/src/handlers/qr_payload.rs] and its table.  Ids of codes are texts,
    those of tickets and events UUIDs (128-bit numbers); times are milliseconds.
    Ed25519, base64, hex, UUIDs, [chrono]'s range and the text that [serde_json]
    makes of a payload belong to crates.  Texts that those crates add to error
    messages, and the webhooks that a scan fires, are left out; texts have no NUL
    character, which PostgreSQL refuses. *)

From S2P Require Import WaitRoom.
From S2P Require Import Prelude Prog Machine ZkBytes WaitPow SrvErrors.
From S2P Require Import SrvPages.

(** [serde_json::Value] *)
Inductive Json : Type :=
| JNull | JBool (b : bool) | JNumber (text : string) | JString (s : string)
| JArray (l : list Json) | JObject (l : list (string * Json)).
Definition json_get (v : Json) (field : string) : option Json :=
  match v with
  | JObject l => snd <$> find (λ p, String.eqb p.1 field) l
  | _ => None
  end.
Definition json_str (v : Json) : option string := match v with JString s => Some s | _ => None end.

(** [s.trim()], white space in UTF-8. *)
Fixpoint trim_start_bytes (l : bytes) : bytes :=
  match l with
  | b :: l1 =>
      if blank_bytes [b] then trim_start_bytes l1
      else match l1 with
      | c :: l2 =>
          if blank_bytes [b; c] then trim_start_bytes l2
          else match l2 with
          | d :: l3 => if blank_bytes [b; c; d] then trim_start_bytes l3 else l
          | [] => l
          end
      | [] => l
      end
  | [] => []
  end.
Fixpoint trim_end_bytes (l : bytes) : bytes :=
  if blank_bytes l then [] else match l with b :: l => b :: trim_end_bytes l | [] => [] end.
Definition trim (s : string) : string := text_of (trim_end_bytes (trim_start_bytes (as_bytes s))).

Record QrPayload : Type := MkQrPayload {
  qp_id : string; qp_qr_type : string; qp_data : Json; qp_created_at : Z; qp_expires_at : Z; qp_nonce : string
}.
Class QrCrypto : Type := {
  qr_sign : bytes → bytes → bytes;                     (** secret key, message *)
  qr_public : bytes → bytes;
  qr_valid_key : bytes → bool;                         (** [VerifyingKey::from_bytes] succeeds *)
  qr_verify : bytes → bytes → bytes → bool;            (** public key, message, signature *)
  qr_b64_encode : bytes → string;
  qr_b64_decode : string → option bytes;
  qr_hex_decode : string → option bytes;
  payload_json : QrPayload → string;
  parse_uuid : string → option Z;
  datetime_min : Z;
  datetime_max : Z
}.
(** What a key signs verifies; encodings read back; keys and signatures have
    32 and 64 bytes. *)
Class QrCryptoLaws `{QrCrypto} : Prop := {
  qr_sign_verifies k m : qr_verify (qr_public k) m (qr_sign k m) = true;
  qr_public_valid k : qr_valid_key (qr_public k) = true;
  qr_public_length k : length (qr_public k) = 32%nat;
  qr_sign_length k m : length (qr_sign k m) = 64%nat;
  qr_sign_bytes k m : Forall is_byte (qr_sign k m);
  qr_b64_roundtrip l : Forall is_byte l → qr_b64_decode (qr_b64_encode l) = Some l;
  qr_hex_roundtrip k : qr_hex_decode (String.string_of_list_ascii (hex_encode (qr_public k))) = Some (qr_public k);
  uuid_roundtrip n : 0 ≤ n < 2 ^ 128 → parse_uuid (uuid_text n) = Some n
}.

(** ** Tables *)
Record QrRow : Type := MkQrRow {
  qr_qr_type : string; qr_payload_data : Json; qr_signature : string; qr_public_key : string;
  qr_created_at : Z; qr_expires_at : Z; qr_is_used : bool; qr_used_at : option Z;
  qr_ticket_id : option Z; qr_event_id : option Z
}.
#[export] Instance eta_QrRow : Eta QrRow := λ r,
  MkQrRow (qr_qr_type r) (qr_payload_data r) (qr_signature r) (qr_public_key r) (qr_created_at r) (qr_expires_at r)
    (qr_is_used r) (qr_used_at r) (qr_ticket_id r) (qr_event_id r).
Record TicketRow : Type := MkTicketRow {
  tk_status : string; tk_owner_wallet : option string; tk_buyer_wallet : option string; tk_event_id : option Z;
  tk_scanned_at : option Z
}.
#[export] Instance eta_TicketRow : Eta TicketRow := λ t,
  MkTicketRow (tk_status t) (tk_owner_wallet t) (tk_buyer_wallet t) (tk_event_id t) (tk_scanned_at t).
Record QrDb : Type := MkQrDb { qr_payloads : gmap string QrRow; tickets : gmap Z TicketRow; qr_events : gset Z }.
#[export] Instance eta_QrDb : Eta QrDb := λ d, MkQrDb (qr_payloads d) (tickets d) (qr_events d).

Record QrPayloadFilters : Type := MkQrFilters { qf_qr_type : option string; qf_is_used : option bool; qf_expired : option bool }.
Inductive qr_cmd : Type → Type :=
| InsertQr (id : string) (row : QrRow) : qr_cmd (res SqlxError unit)
| SelectUsed (id : string) : qr_cmd (option bool)
| SelectTicket (ticket_id : Z) : qr_cmd (option TicketRow)
| SelectCode (id : string) (ticket_id : Z) : qr_cmd (option (bool * Z))
| SelectAnyCode (id : string) : qr_cmd (option (bool * Z))
| ScanTransaction (id : string) (ticket_id now : Z) : qr_cmd unit
| MarkUsed (id : string) (now : Z) : qr_cmd unit
| DeleteCode (id : string) : qr_cmd bool
| OwnsTicket (ticket_id : Z) (wallet : string) : qr_cmd bool
| CountCodes (f : QrPayloadFilters) : qr_cmd Z
| SelectCodes (f : QrPayloadFilters) (limit offset : Z) : qr_cmd (list (string * QrRow))
| EventExists (event_id : Z) : qr_cmd bool
| CountEventCodes (event_id : Z) : qr_cmd Z
| SelectEventCodes (event_id limit offset : Z) : qr_cmd (list (string * QrRow))
| QrNow : qr_cmd Z
| DrawUuid : qr_cmd string
| DrawKey : qr_cmd bytes.
(** What a command meets. *)
Record QrEnv : Type := MkQrEnv { q_now : Z; q_uuid : string; q_key : bytes }.

Definition newest_code (a b : string * QrRow) : Prop := qr_created_at b.2 ≤ qr_created_at a.2.
#[export] Instance newest_code_dec : RelDecision newest_code.
Proof. intros a b. unfold newest_code. apply _. Defined.
(** The WHERE clause that [list_qr_payloads] builds. *)
Definition passes (now : Z) (f : QrPayloadFilters) (r : QrRow) : bool :=
  match qf_qr_type f with Some t => String.eqb (qr_qr_type r) t | None => true end &&
  match qf_is_used f with Some u => Bool.eqb (qr_is_used r) u | None => true end &&
  match qf_expired f with
  | Some true => qr_expires_at r <? now
  | Some false => now <=? qr_expires_at r
  | None => true
  end.
Definition codes_where (P : QrRow → bool) (db : QrDb) : list (string * QrRow) :=
  merge_sort newest_code (filter (λ p, P p.2 = true) (map_to_list (qr_payloads db))).
Definition in_event (event_id : Z) (r : QrRow) : bool := bool_decide (qr_event_id r = Some event_id).
Definition qr_exec (env : QrEnv) {R} (c : qr_cmd R) (db : QrDb) : option (R * QrDb) :=
  match c in qr_cmd R return option (R * QrDb) with
  | InsertQr id row =>
      Some (if decide (is_Some (qr_payloads db !! id)) then (Err unique_violation, db)
            else if qr_expires_at row <=? qr_created_at row
            then (Err (SqlxDatabase false false "violates check constraint valid_expiration"), db)
            else if match qr_ticket_id row with Some t => bool_decide (tickets db !! t = None) | None => false end
            then (Err foreign_key_violation, db)
            else (Ok tt, db ⟨ qr_payloads ::= <[id := row]> ⟩))
  | SelectUsed id => Some (qr_is_used <$> qr_payloads db !! id, db)
  | SelectTicket t => Some (tickets db !! t, db)
  | SelectCode id t =>
      Some (qr_payloads db !! id ≫= (λ r, if decide (qr_ticket_id r = Some t) then Some (qr_is_used r, qr_expires_at r) else None), db)
  | SelectAnyCode id => Some ((λ r, (qr_is_used r, qr_expires_at r)) <$> qr_payloads db !! id, db)
  | ScanTransaction id t now =>
      Some (tt, db ⟨ qr_payloads ::= alter (λ r, r ⟨ qr_is_used := true ⟩ ⟨ qr_used_at := Some now ⟩) id ⟩
                   ⟨ tickets ::= alter (λ k, k ⟨ tk_status := "Scanned" ⟩ ⟨ tk_scanned_at := Some now ⟩) t ⟩)
  | MarkUsed id now =>
      Some (tt, db ⟨ qr_payloads ::= alter (λ r, r ⟨ qr_is_used := true ⟩ ⟨ qr_used_at := Some now ⟩) id ⟩)
  | DeleteCode id =>
      Some (bool_decide (is_Some (qr_payloads db !! id)), db ⟨ qr_payloads ::= delete id ⟩)
  | OwnsTicket t w =>
      Some (match tickets db !! t with
            | Some k => bool_decide (tk_owner_wallet k = Some w ∨ tk_buyer_wallet k = Some w) &&
                        negb (bool_decide (tk_status k ∈ ["cancelled"; "Revoked"]))
            | None => false
            end, db)
  | CountCodes f => Some (Z.of_nat (length (codes_where (passes (q_now env) f) db)), db)
  | SelectCodes f limit offset => Some (sql_page limit offset (codes_where (passes (q_now env) f) db), db)
  | EventExists e => Some (bool_decide (e ∈ qr_events db), db)
  | CountEventCodes e => Some (Z.of_nat (length (codes_where (in_event e) db)), db)
  | SelectEventCodes e limit offset => Some (sql_page limit offset (codes_where (in_event e) db), db)
  | QrNow => Some (q_now env, db)
  | DrawUuid => Some (q_uuid env, db)
  | DrawKey => Some (q_key env, db)
  end.
Abbreviation qr_prog := (prog qr_cmd AppError).

Section Qr.
Context `{QrCrypto}.

(** ** Signatures *)
Definition verify_payload_signature (payload : QrPayload) (signature public_key : string) : res AppError unit :=
  let! signature_bytes := ok_or (qr_b64_decode signature) (ValidationError "Invalid signature encoding") in
  do! fail_if (negb (length signature_bytes =? 64)%nat) (ValidationError "Invalid signature format") in
  let! public_key_bytes := ok_or (qr_hex_decode public_key) (ValidationError "Invalid public key encoding") in
  do! fail_if (negb (length public_key_bytes =? 32)%nat) (ValidationError "Public key must be 32 bytes") in
  do! fail_if (negb (qr_valid_key public_key_bytes)) (ValidationError "Invalid public key") in
  fail_if (negb (qr_verify public_key_bytes (as_bytes (payload_json payload)) signature_bytes))
    (ValidationError "Invalid signature").

(** [created_at + Duration::seconds(secs)]; both operations panic out of range. *)
Definition plus_seconds (t secs : Z) : res AppError Z :=
  if (2 ^ 63 - 1) / 1000 <? Z.abs secs then Panic
  else if (datetime_min <=? t + 1000 * secs) && (t + 1000 * secs <=? datetime_max)
  then Ok (t + 1000 * secs) else Panic.

(** ** Making codes *)
Record GenerateQrRequest : Type := MkGenerate {
  gq_qr_type : string; gq_data : Json; gq_expires_in_seconds : option Z; gq_ticket_id : option Z
}.
(** [GenerateQrResponse] and [AttendeeQrResponse], which have the same fields *)
Record GenerateQrResponse : Type := MkGenerated {
  gr_qr_id : string; gr_payload : QrPayload; gr_signature : string; gr_public_key : string; gr_expires_at : Z
}.
Definition row_of (payload : QrPayload) (signature public_key : string) (ticket_id : option Z) : QrRow :=
  MkQrRow (qp_qr_type payload) (qp_data payload) signature public_key (qp_created_at payload)
    (qp_expires_at payload) false None ticket_id None.
(** What both endpoints do once they know what to sign. *)
Definition sign_and_store (payload : QrPayload) (ticket_id : option Z) : qr_prog GenerateQrResponse :=
  let!? signing_key := DrawKey in
  let signature := qr_b64_encode (qr_sign signing_key (as_bytes (payload_json payload))) in
  let public_key := String.string_of_list_ascii (hex_encode (qr_public signing_key)) in
  let!? result := InsertQr (qp_id payload) (row_of payload signature public_key ticket_id) in
  let* _ := ret (map_err DatabaseError result) in
  ret (Ok (MkGenerated (qp_id payload) payload signature public_key (qp_expires_at payload))).
Definition generate_qr_payload (request : GenerateQrRequest) : qr_prog GenerateQrResponse :=
  let* _ := ret (fail_if (String.eqb (gq_qr_type request) "") (ValidationError "qr_type cannot be empty")) in
  let!? qr_id := DrawUuid in
  let!? nonce := DrawUuid in
  let!? created_at := QrNow in
  let* expires_at := ret (plus_seconds created_at (default 3600 (gq_expires_in_seconds request))) in
  sign_and_store (MkQrPayload qr_id (gq_qr_type request) (gq_data request) created_at expires_at nonce)
    (gq_ticket_id request).

Record AttendeeQrRequest : Type := MkAttendee {
  aq_wallet_address : string; aq_ticket_id : Z; aq_expires_in_seconds : option Z
}.
Definition generate_attendee_qr (request : AttendeeQrRequest) : qr_prog GenerateQrResponse :=
  let* _ := ret (fail_if (blank (aq_wallet_address request)) (ValidationError "wallet_address cannot be empty")) in
  let wallet := trim (aq_wallet_address request) in
  let!? ticket_ok := OwnsTicket (aq_ticket_id request) wallet in
  let* _ := ret (fail_if (negb ticket_ok) (NotFound "Ticket not found or does not belong to this wallet address")) in
  let!? qr_id := DrawUuid in
  let!? nonce := DrawUuid in
  let!? created_at := QrNow in
  let* expires_at := ret (plus_seconds created_at (clamp 60 86400 (default 300 (aq_expires_in_seconds request)))) in
  sign_and_store
    (MkQrPayload qr_id "ticket"
       (JObject [("ticket_id", JString (uuid_text (aq_ticket_id request))); ("wallet_address", JString wallet)])
       created_at expires_at nonce)
    (Some (aq_ticket_id request)).

(** ** Checking codes *)
Record VerifyQrRequest : Type := MkVerifyQr { vq_payload : QrPayload; vq_signature : string; vq_public_key : string }.
Record VerifyQrResponse : Type := MkVerified {
  vq_valid : bool; vq_expired : bool; vq_answer : option QrPayload; vq_message : string
}.
Definition verify_qr_payload (request : VerifyQrRequest) : qr_prog VerifyQrResponse :=
  let payload := vq_payload request in
  let is_valid := is_ok (verify_payload_signature payload (vq_signature request) (vq_public_key request)) in
  let!? now := QrNow in
  let is_expired := qp_expires_at payload <? now in
  let answer (is_used : bool) : qr_prog VerifyQrResponse :=
    ret (Ok (MkVerified (is_valid && negb is_expired && negb is_used) is_expired
               (if is_valid then Some payload else None)
               (if negb is_valid then "Invalid signature"
                else if is_expired then "Payload has expired"
                else if is_used then "QR code has already been used"
                else "Payload is valid and ready to use"))) in
  if is_valid
  then Call (SelectUsed (qp_id payload)) (λ used, answer match used with Some (Some u) => u | _ => false end)
  else answer false.

(** ** Scanning *)
Record ScanTicketRequest : Type := MkScan { st_payload : QrPayload; st_signature : string; st_public_key : string }.
Record ScanTicketResponse : Type := MkScanned {
  st_valid : bool; st_scanned : bool; st_ticket_id : Z; st_ticket_status : string; st_scanned_at : option Z;
  st_message : string
}.
Definition text_field (v : Json) (field : string) : option string := json_get v field ≫= json_str.
Definition scan_ticket (ticket_id : Z) (request : ScanTicketRequest) : qr_prog ScanTicketResponse :=
  let payload := st_payload request in
  let* _ := ret (fail_if (negb (String.eqb (qp_qr_type payload) "ticket"))
                   (ValidationError "Payload qr_type must be 'ticket'")) in
  let* payload_ticket_id := ret (match text_field (qp_data payload) "ticket_id" with
                                 | Some id => ok_or (parse_uuid id) (ValidationError "Payload ticket_id must be a valid UUID")
                                 | None => Err (ValidationError "Payload must include a ticket_id")
                                 end) in
  let* _ := ret (fail_if (negb (payload_ticket_id =? ticket_id))
                   (ValidationError "Payload ticket_id does not match requested ticket")) in
  let* wallet_address := ret (match text_field (qp_data payload) "wallet_address" with
                              | Some address => if blank address then Err (ValidationError "Payload must include wallet_address")
                                                else Ok (trim address)
                              | None => Err (ValidationError "Payload must include wallet_address")
                              end) in
  let* _ := ret (verify_payload_signature payload (st_signature request) (st_public_key request)) in
  let!? now := QrNow in
  let* _ := ret (fail_if (qp_expires_at payload <? now) (ValidationError "Payload has expired")) in
  let!? found := SelectTicket ticket_id in
  let* ticket := ret (ok_or found (NotFound ("Ticket with id '" +:+ uuid_text ticket_id +:+ "' not found"))) in
  let* _ := ret (fail_if (String.eqb (tk_status ticket) "Revoked") (Conflict "Ticket has been revoked")) in
  let* _ := ret (fail_if (negb (bool_decide (tk_owner_wallet ticket = Some wallet_address)
                                || bool_decide (tk_buyer_wallet ticket = Some wallet_address)))
                   (Forbidden "Payload wallet_address does not match ticket ownership")) in
  let!? code := SelectCode (qp_id payload) ticket_id in
  let* code := ret (ok_or code (NotFound "QR payload not found or not associated with this ticket")) in
  let* _ := ret (fail_if code.1 (Conflict "QR payload has already been used")) in
  let!? now := QrNow in
  let* _ := ret (fail_if (code.2 <? now) (ValidationError "QR payload has expired")) in
  let* _ := ret (fail_if (String.eqb (tk_status ticket) "Scanned" || String.eqb (tk_status ticket) "used")
                   (Conflict "Ticket has already been scanned")) in
  let!? now := QrNow in
  let!? _ := ScanTransaction (qp_id payload) ticket_id now in
  ret (Ok (MkScanned true true ticket_id "Scanned" (Some now) "Ticket scan verified successfully")).

(** ** Managing codes *)
Definition mark_qr_used (qr_id : string) : qr_prog unit :=
  let!? found := SelectAnyCode qr_id in
  let* record := ret (ok_or found (NotFound ("QR payload with id '" +:+ qr_id +:+ "' not found"))) in
  let* _ := ret (fail_if record.1 (ValidationError "QR code has already been used")) in
  let!? now := QrNow in
  let* _ := ret (fail_if (record.2 <? now) (ValidationError "QR code has expired")) in
  let!? now := QrNow in
  let!? _ := MarkUsed qr_id now in
  ret (Ok tt).
Record QrPayloadListItem : Type := MkListItem {
  li_id : string; li_qr_type : string; li_payload_data : Json; li_created_at : Z; li_expires_at : Z;
  li_is_used : bool; li_used_at : option Z
}.
Definition list_item (p : string * QrRow) : QrPayloadListItem :=
  MkListItem p.1 (qr_qr_type p.2) (qr_payload_data p.2) (qr_created_at p.2) (qr_expires_at p.2) (qr_is_used p.2)
    (qr_used_at p.2).
Definition list_qr_payloads (checks : bool) (pagination : PaginationParams) (filters : QrPayloadFilters)
    : qr_prog (PaginatedResponse QrPayloadListItem) :=
  let validated := validate pagination in
  let!? total := CountCodes filters in
  match offset checks validated with
  | Ok off =>
      let!? rows := SelectCodes filters (limit validated) off in
      ret (Ok (paginated (map list_item rows) validated total))
  | _ => ret Panic
  end.
Definition delete_qr_payload (qr_id : Z) : qr_prog unit :=
  let id_str := uuid_text qr_id in
  let!? deleted := DeleteCode id_str in
  ret (fail_if (negb deleted) (NotFound ("QR payload with id '" +:+ id_str +:+ "' not found"))).
Record EventQrCodeItem : Type := MkEventItem {
  ei_id : string; ei_event_id : option Z; ei_ticket_id : option Z; ei_used : bool; ei_created_at : Z
}.
Definition event_item (p : string * QrRow) : EventQrCodeItem :=
  MkEventItem p.1 (qr_event_id p.2) (qr_ticket_id p.2) (qr_is_used p.2) (qr_created_at p.2).
Definition list_event_qr_codes (checks : bool) (event_id : Z) (pagination : PaginationParams)
    : qr_prog (PaginatedResponse EventQrCodeItem) :=
  let!? event_exists := EventExists event_id in
  let* _ := ret (fail_if (negb event_exists) (NotFound ("Event '" +:+ uuid_text event_id +:+ "' not found"))) in
  let validated := validate pagination in
  let!? total := CountEventCodes event_id in
  match offset checks validated with
  | Ok off =>
      let!? rows := SelectEventCodes event_id (limit validated) off in
      ret (Ok (paginated (map event_item rows) validated total))
  | _ => ret Panic
  end.
End Qr.

(** ** Trimming *)
Definition starts_clean (l : bytes) : Prop := ∀ s r, l = s ++ r → blank_bytes s = true → s = [].
Definition ends_clean (l : bytes) : Prop := ∀ r s, l = r ++ s → blank_bytes s = true → s = [].
(** The first character of a blank text. *)
Lemma blank_cons b l : blank_bytes (b :: l) = true →
  ∃ c l', b :: l = c ++ l' ∧ blank_bytes c = true ∧ c ≠ [] ∧ (length c ≤ 3)%nat.
Proof.
  intros Hb. cbn [blank_bytes] in Hb. destruct (_ || (b =? 32)) eqn:E1 in Hb.
  { exists [b], l. split_and!; [done|cbn [blank_bytes]; by rewrite E1|done|cbn; lia]. }
  destruct l as [|c l]; [done|]. destruct ((b =? 194) && _) eqn:E2 in Hb.
  { exists [b; c], l. split_and!; [done|cbn [blank_bytes]; by rewrite E1, E2|done|cbn; lia]. }
  destruct l as [|d l]; [done|]. destruct (_ || ((b =? 227) && (c =? 128) && (d =? 128))) eqn:E3 in Hb; [|done].
  exists [b; c; d], l. split_and!; [done|cbn [blank_bytes]; by rewrite E1, E2, E3|done|cbn; lia].
Qed.
Lemma blank_app s r : blank_bytes s = true → blank_bytes r = true → blank_bytes (s ++ r) = true.
Proof.
  intros Hs Hr. remember (length s) as n eqn:Hn. revert s Hs Hn. induction (lt_wf n) as [n _ IH]. intros [|b s] Hs ->; [done|].
  cbn [blank_bytes app] in Hs |- *. destruct (_ || (b =? 32)); [eapply IH; [|done|done]; cbn; lia|].
  destruct s as [|c s]; [done|]. cbn [app]. destruct ((b =? 194) && _); [eapply IH; [|done|done]; cbn; lia|].
  destruct s as [|d s]; [done|]. cbn [app]. destruct (_ || ((b =? 227) && _ && _)); [eapply IH; [|done|done]; cbn; lia|done].
Qed.
Lemma clean_prefix l l' : starts_clean (l ++ l') → starts_clean l.
Proof. intros Hc s r -> Hs. apply (Hc s (r ++ l')); [by rewrite app_assoc|done]. Qed.
Lemma trim_start_spec l : ∃ s, l = s ++ trim_start_bytes l ∧ blank_bytes s = true ∧ starts_clean (trim_start_bytes l).
Proof.
  assert (Hclean : ∀ b l, (∀ c l', b :: l = c ++ l' → blank_bytes c = true → (length c ≤ 3)%nat → c = []) → starts_clean (b :: l)).
  { intros b l' Hb [|x s] r Heq Hs; [done|]. apply blank_cons in Hs as (c & s' & Hc & Hbc & Hne & Hlen).
    destruct Hne. apply (Hb c (s' ++ r)); [by rewrite Heq, app_assoc, <- Hc|done|done]. }
  assert (Hleaf : ∀ b l, blank_bytes [b] = false → (∀ c l', l = c :: l' → blank_bytes [b; c] = false) →
     (∀ c d l', l = c :: d :: l' → blank_bytes [b; c; d] = false) → starts_clean (b :: l)).
  { intros b l' H1 H2 H3. apply Hclean. intros [|x [|y [|z [|? ?]]]] r Heq Hs Hl; cbn [app] in Heq; [done|..|cbn in Hl; lia];
      simplify_eq; exfalso; [congruence|rewrite (H2 y r) in Hs by done; done|rewrite (H3 y z r) in Hs by done; done]. }
  remember (length l) as n eqn:Hn. revert l Hn. induction (lt_wf n) as [n _ IH]. intros [|b l] ->.
  { exists []. split_and!; [done|done|]. intros s r Heq _. by symmetry in Heq; apply app_eq_nil in Heq as [-> _]. }
  assert (Hgo : ∀ c l', b :: l = c ++ l' → blank_bytes c = true → c ≠ [] →
    ∃ s, b :: l = s ++ trim_start_bytes l' ∧ blank_bytes s = true ∧ starts_clean (trim_start_bytes l')).
  { intros c l' Heq Hc Hne. destruct (IH (length l')) with (l := l') as (s & Hs & Hb & Hcl); [|done|].
    - rewrite Heq, length_app. destruct c; [done|cbn; lia].
    - exists (c ++ s). split_and!; [by rewrite <- app_assoc, <- Hs|by apply blank_app|done]. }
  cbn [trim_start_bytes]. destruct (blank_bytes [b]) eqn:E1; [by apply (Hgo [b])|].
  destruct l as [|c l]. { exists []. split_and!; [done|done|by apply Hleaf]. }
  destruct (blank_bytes [b; c]) eqn:E2; [by apply (Hgo [b; c])|].
  destruct l as [|d l]. { exists []. split_and!; [done|done|]. apply Hleaf; [done| |done]. intros ? ? ?; by simplify_eq. }
  destruct (blank_bytes [b; c; d]) eqn:E3; [by apply (Hgo [b; c; d])|].
  exists []. split_and!; [done|done|]. apply Hleaf; [done| |]; intros; by simplify_eq.
Qed.
Lemma trim_end_spec l : ∃ s, l = trim_end_bytes l ++ s ∧ blank_bytes s = true ∧ ends_clean (trim_end_bytes l).
Proof.
  induction l as [|b l (s & Heq & Hs & He)].
  { exists []. split_and!; [done|done|]. intros r s Heq _. by symmetry in Heq; apply app_eq_nil in Heq as [_ ->]. }
  cbn [trim_end_bytes]. destruct (blank_bytes (b :: l)) eqn:Hb.
  - exists (b :: l). split_and!; [done|done|]. intros r q Heq' _. by symmetry in Heq'; apply app_eq_nil in Heq' as [_ ->].
  - exists s. split_and!; [cbn; by rewrite <- Heq|done|]. intros [|x r] q Heq' Hq; [|cbn in Heq'; simplify_eq; by eapply He].
    exfalso. cbn in Heq'. subst q. apply (blank_app _ _ Hq) in Hs. rewrite <- app_comm_cons, <- Heq in Hs. congruence.
Qed.
Lemma trim_start_clean l : starts_clean l → trim_start_bytes l = l.
Proof.
  intros Hc. destruct (trim_start_spec l) as (s & Hs & Hb & _). by rewrite (Hc s _ Hs Hb) in Hs.
Qed.
Lemma trim_end_clean l : ends_clean l → trim_end_bytes l = l.
Proof.
  intros Hc. destruct (trim_end_spec l) as (s & Hs & Hb & _). rewrite (Hc _ s Hs Hb), app_nil_r in Hs. done.
Qed.
Lemma as_bytes_text l : Forall is_byte l → as_bytes (text_of l) = l.
Proof.
  intros Hl. unfold text_of, as_bytes. rewrite String.list_ascii_of_string_of_list_ascii, map_map.
  induction Hl as [|b l Hb _ IH]; [done|]. cbn [map]. rewrite IH. f_equal. unfold is_byte in Hb.
  rewrite Ascii.N_ascii_embedding by lia. lia.
Qed.
Lemma trim_bytes s : as_bytes (trim s) = trim_end_bytes (trim_start_bytes (as_bytes s)).
Proof.
  unfold trim. apply as_bytes_text. pose proof (as_bytes_bytes s) as Hb.
  destruct (trim_start_spec (as_bytes s)) as (a & Ha & _). rewrite Ha in Hb. apply Forall_app in Hb as [_ Hb].
  destruct (trim_end_spec (trim_start_bytes (as_bytes s))) as (z & Hz & _). rewrite Hz in Hb. by apply Forall_app in Hb as [Hb _].
Qed.
(** A trimmed text stays as it is, and is not blank unless the text was. *)
Lemma trim_idem s : trim (trim s) = trim s.
Proof.
  unfold trim at 1. rewrite trim_bytes. destruct (trim_start_spec (as_bytes s)) as (_ & _ & _ & Hc).
  destruct (trim_end_spec (trim_start_bytes (as_bytes s))) as (z & Hz & _ & He). rewrite trim_start_clean, trim_end_clean; [done|done|].
  rewrite Hz in Hc. by eapply clean_prefix.
Qed.
Lemma blank_trim s : blank (trim s) = true → blank s = true.
Proof.
  unfold blank. rewrite trim_bytes. intros Hb. destruct (trim_start_spec (as_bytes s)) as (a & Ha & Hba & _).
  destruct (trim_end_spec (trim_start_bytes (as_bytes s))) as (z & Hz & Hbz & _).
  rewrite Ha, Hz. apply blank_app; [done|]. by apply blank_app.
Qed.

(** ** What a scan promises *)
Definition qr_step_at (env : QrEnv) : ∀ R, qr_cmd R → QrDb → option (R * QrDb) := @qr_exec env.
(** A statement of any request to these endpoints. *)
Definition qr_step (db db' : QrDb) : Prop := ∃ env R (c : qr_cmd R) r, qr_exec env c db = Some (r, db').
Abbreviation qr_among := (behaves qr_step_at (rtc qr_step)).

(** A ticket keeps its holders, and its status unless it is scanned. *)
Definition ticket_kept (k k' : TicketRow) : Prop :=
  tk_owner_wallet k' = tk_owner_wallet k ∧ tk_buyer_wallet k' = tk_buyer_wallet k ∧
  (tk_status k' = tk_status k ∨ tk_status k' = "Scanned").
Lemma exec_ticket env R (c : qr_cmd R) r db db' t k :
  qr_exec env c db = Some (r, db') → tickets db !! t = Some k → ∃ k', tickets db' !! t = Some k' ∧ ticket_kept k k'.
Proof.
  intros He Ht. assert (Hk : ticket_kept k k) by (unfold ticket_kept; auto).
  destruct c as [| | | | |i t' now| | | | | | | | | | |]; cbn in He; simplify_eq; try by exists k.
  - repeat case_decide; simplify_eq; [by exists k|]. repeat (case_match; simplify_eq); by exists k.
  - cbn. destruct (decide (t' = t)) as [->|Hne]; [|rewrite lookup_alter_ne by done; by exists k].
    rewrite lookup_alter_eq, Ht. eexists. split; [done|]. unfold ticket_kept. cbn. auto.
Qed.
Lemma others_ticket db db' t k : rtc qr_step db db' → tickets db !! t = Some k →
  ∃ k', tickets db' !! t = Some k' ∧ ticket_kept k k'.
Proof.
  intros Hr. revert k. induction Hr as [|a b c (env & R & cm & r & He) _ IH]; intros k Hk.
  - exists k. unfold ticket_kept. by auto.
  - destruct (exec_ticket _ _ _ _ _ _ _ _ He Hk) as (k1 & H1 & Ho1 & Hb1 & Hs1).
    destruct (IH _ H1) as (k2 & H2 & Ho2 & Hb2 & Hs2). exists k2. split; [done|]. unfold ticket_kept.
    split_and!; [congruence|congruence|]. destruct Hs2 as [->|]; [done|by right].
Qed.
Definition scanned (t : Z) (db : QrDb) : Prop := ∃ k, tickets db !! t = Some k ∧ tk_status k = "Scanned".
Lemma others_scanned db db' t : rtc qr_step db db' → scanned t db → scanned t db'.
Proof.
  intros Hr (k & Hk & Hs). destruct (others_ticket _ _ _ _ Hr Hk) as (k' & Hk' & _ & _ & Hst).
  exists k'. split; [done|]. destruct Hst as [->|]; done.
Qed.

Section Scans.
Context `{QrCrypto}.

(** A request that presents a signed code for a ticket in the name of a wallet. *)
Definition presents (request : ScanTicketRequest) (t : Z) (wallet : string) : Prop :=
  let payload := st_payload request in
  qp_qr_type payload = "ticket" ∧ (text_field (qp_data payload) "ticket_id" ≫= parse_uuid) = Some t ∧
  (∃ address, text_field (qp_data payload) "wallet_address" = Some address ∧ blank address = false ∧ trim address = wallet) ∧
  verify_payload_signature payload (st_signature request) (st_public_key request) = Ok tt.
(** A ticket that can still be scanned for a wallet. *)
Definition admits (k : TicketRow) (wallet : string) : Prop :=
  (tk_status k ∉ ["Revoked"; "Scanned"; "used"]) ∧ (tk_owner_wallet k = Some wallet ∨ tk_buyer_wallet k = Some wallet).
(** A stored code that has not been used. *)
Definition fresh_code (row : QrRow) (t now : Z) : Prop :=
  qr_ticket_id row = Some t ∧ qr_is_used row = false ∧ now ≤ qr_expires_at row.

(** What a scan that succeeded went through. *)
Lemma scan_inv t request db resp db' : let id := qp_id (st_payload request) in
  qr_among (scan_ticket t request) db (Ok resp) db' →
  ∃ wallet now k dbt now' row dbc env dbs at_,
    presents request t wallet ∧ now ≤ qp_expires_at (st_payload request) ∧
    rtc qr_step db dbt ∧ tickets dbt !! t = Some k ∧ admits k wallet ∧
    rtc qr_step dbt dbc ∧ qr_payloads dbc !! id = Some row ∧ fresh_code row t now' ∧
    rtc qr_step dbc dbs ∧ qr_exec env (ScanTransaction id t at_) dbs = Some (tt, db') ∧
    resp = MkScanned true true t "Scanned" (Some at_) "Ticket scan verified successfully".
Proof.
  intros id Hb. unfold scan_ticket in Hb. next Hb.
  read Hb. next Hb. read Hb. next Hb. read Hb. next Hb. read Hb. next Hb. read Hb.
  apply behaves_call_or in Hb as (env4 & dbs & u & dbe & Hrs & Hx & Hb). next Hb. cbv beta in *. run_all.
  apply ok_or_Ok in Ha0, Ha5, Ha8. apply bind_Some in Ha8 as (row & Hrow & Hcode). case_decide as Htk; simplify_eq. cbn [fst snd] in *.
  exists (trim s), (q_now env), a1, d0, (q_now env2), row, d1, env4, dbs, (q_now env3). unfold presents, admits, fresh_code.
  rewrite E, E1. cbn [mbind option_bind]. apply Z.eqb_eq in Ha1 as ->.
  apply String.eqb_eq in Ha. apply String.eqb_neq in Ha6, H0, H1. apply orb_true_iff in Ha7.
  split_and!; try done; try lia; try by (repeat (etrans; [eassumption|])).
  - by exists s.
  - by etrans.
  - set_solver.
  - by destruct Ha7 as [?%bool_decide_eq_true_1|?%bool_decide_eq_true_1]; [left|right].
Qed.

(** A request alone. *)
Definition qr_run {A} (env : QrEnv) (p : qr_prog A) (db : QrDb) : res AppError A * QrDb :=
  prun (λ R c, qr_exec env c) p db.
Definition after_scan (t : Z) (id : string) (now : Z) (db : QrDb) : QrDb :=
  db ⟨ qr_payloads ::= alter (λ r, r ⟨ qr_is_used := true ⟩ ⟨ qr_used_at := Some now ⟩) id ⟩
     ⟨ tickets ::= alter (λ k, k ⟨ tk_status := "Scanned" ⟩ ⟨ tk_scanned_at := Some now ⟩) t ⟩.
(** Nothing else is asked for. *)
Lemma scan_alone env t request wallet k row db : let id := qp_id (st_payload request) in
  presents request t wallet → q_now env ≤ qp_expires_at (st_payload request) →
  tickets db !! t = Some k → admits k wallet → qr_payloads db !! id = Some row → fresh_code row t (q_now env) →
  qr_run env (scan_ticket t request) db =
    (Ok (MkScanned true true t "Scanned" (Some (q_now env)) "Ticket scan verified successfully"),
     after_scan t id (q_now env) db).
Proof.
  intros id (Hty & Hid & (address & Hf & Hb & Hw) & Hsig) Hn Hk [Hst Hown] Hrow (Htk & Hused & Hexp).
  apply bind_Some in Hid as (text & Htext & Hp).
  unfold qr_run, scan_ticket. rewrite Hty, Htext, Hf, Hb, Hw, Hp, Hsig. cbn [String.eqb Ascii.eqb Bool.eqb negb fail_if ok_or bind].
  assert (Hs : (tk_status k =? "Revoked")%string = false ∧ (tk_status k =? "Scanned")%string = false ∧ (tk_status k =? "used")%string = false).
  { rewrite !String.eqb_neq. set_solver. }
  destruct Hs as (H1 & H2 & H3).
  assert (Ho : bool_decide (tk_owner_wallet k = Some wallet) || bool_decide (tk_buyer_wallet k = Some wallet) = true).
  { apply orb_true_iff. by destruct Hown; [left|right]; apply bool_decide_eq_true_2. }
  rewrite Z.eqb_refl. cbn [negb fail_if call_or prun qr_exec]. rewrite (proj2 (Z.ltb_ge _ _) Hn).
  cbn [fail_if call_or prun qr_exec]. rewrite Hk. cbn [ok_or]. rewrite H1, Ho. cbn [negb fail_if call_or prun qr_exec].
  unfold id in Hrow. rewrite Hrow. cbn [mbind option_bind]. rewrite (decide_True _ _ Htk). cbn [ok_or fst snd].
  rewrite Hused. cbn [fail_if call_or prun qr_exec]. rewrite (proj2 (Z.ltb_ge _ _) Hexp), H2, H3. done.
Qed.

(** A payload verifies under the key that signed it. *)
Lemma signed_verifies `{!QrCryptoLaws} payload k :
  verify_payload_signature payload (qr_b64_encode (qr_sign k (as_bytes (payload_json payload))))
    (String.string_of_list_ascii (hex_encode (qr_public k))) = Ok tt.
Proof.
  unfold verify_payload_signature.
  by rewrite qr_b64_roundtrip by apply qr_sign_bytes; rewrite qr_hex_roundtrip; cbn [ok_or rbind]; rewrite qr_sign_length, qr_public_length, qr_public_valid, qr_sign_verifies.
Qed.


(** What a code for an attendee is. *)
Definition attendee_payload (env : QrEnv) (request : AttendeeQrRequest) : QrPayload :=
  MkQrPayload (q_uuid env) "ticket"
    (JObject [("ticket_id", JString (uuid_text (aq_ticket_id request))); ("wallet_address", JString (trim (aq_wallet_address request)))])
    (q_now env) (q_now env + 1000 * clamp 60 86400 (default 300 (aq_expires_in_seconds request))) (q_uuid env).
Lemma attendee_inv env request db resp db1 :
  qr_run env (generate_attendee_qr request) db = (Ok resp, db1) →
  let payload := attendee_payload env request in
  let signature := qr_b64_encode (qr_sign (q_key env) (as_bytes (payload_json payload))) in
  let public_key := String.string_of_list_ascii (hex_encode (qr_public (q_key env))) in
  blank (aq_wallet_address request) = false ∧
  resp = MkGenerated (q_uuid env) payload signature public_key (qp_expires_at payload) ∧
  qr_payloads db1 !! q_uuid env = Some (row_of payload signature public_key (Some (aq_ticket_id request))) ∧
  ∃ k, tickets db !! aq_ticket_id request = Some k ∧ tk_status k ≠ "Revoked" ∧
    (tk_owner_wallet k = Some (trim (aq_wallet_address request)) ∨ tk_buyer_wallet k = Some (trim (aq_wallet_address request))).
Proof.
  intros Hg payload signature public_key. unfold qr_run, generate_attendee_qr in Hg.
  destruct (blank _); [done|]. cbn [fail_if bind call_or prun qr_exec] in Hg.
  destruct (tickets db !! aq_ticket_id request) as [k|] eqn:Hk; [|done].
  destruct (bool_decide (_ ∨ _)) eqn:Ho; [|done]. destruct (bool_decide (tk_status k ∈ _)) eqn:Hs; [done|].
  apply bool_decide_eq_true in Ho. apply bool_decide_eq_false in Hs.
  cbn [negb andb fail_if bind call_or prun qr_exec] in Hg.
  unfold plus_seconds in Hg. destruct (_ <? _); [done|]. destruct (_ && _); [|done].
  fold (attendee_payload env request) in Hg. fold payload in Hg. unfold sign_and_store in Hg.
  cbn [bind call_or prun qr_exec] in Hg. fold signature public_key in Hg.
  destruct (decide (is_Some _)); [done|]. destruct (_ <=? _); [done|]. cbn [row_of qr_ticket_id] in Hg. rewrite Hk in Hg.
  cbn in Hg. simplify_eq. cbn. split_and!; [done|done|by rewrite lookup_insert_eq|]. exists k. split_and!; [done|set_solver|done].
Qed.
(** C20. A code is good for a scan.  If [generate_attendee_qr] answers with a code
    for a wallet and a ticket, the code lives at least a minute and at most a
    day; and as long as it has not expired, the code is still as stored, and the
    ticket as it was and not scanned yet, presenting the answer scans the ticket
    and uses the code up. *)
Theorem attendee_code_scans `{!QrCryptoLaws} env request db resp db1 env' db2 k :
  let t := aq_ticket_id request in
  0 ≤ t < 2 ^ 128 →
  qr_run env (generate_attendee_qr request) db = (Ok resp, db1) →
  q_now env + 60000 ≤ gr_expires_at resp ≤ q_now env + 86400000 ∧
  (qr_payloads db2 !! gr_qr_id resp = qr_payloads db1 !! gr_qr_id resp →
   tickets db !! t = Some k → tickets db2 !! t = Some k → tk_status k ∉ ["Scanned"; "used"] →
   q_now env' ≤ gr_expires_at resp →
   qr_run env' (scan_ticket t (MkScan (gr_payload resp) (gr_signature resp) (gr_public_key resp))) db2 =
     (Ok (MkScanned true true t "Scanned" (Some (q_now env')) "Ticket scan verified successfully"),
      after_scan t (gr_qr_id resp) (q_now env') db2)).
Proof.
  intros t Ht Hg. apply attendee_inv in Hg as (Hb & -> & Hrow & k' & Hk' & Hrev & Hown). cbn [gr_expires_at gr_qr_id gr_payload gr_signature gr_public_key].
  set (payload := attendee_payload env request) in *. assert (Hlife : q_now env + 60000 ≤ qp_expires_at payload ≤ q_now env + 86400000).
  { cbn. unfold clamp. lia. }
  split; [done|]. intros Hsame Hk Hk2 Hst Hnow. rewrite Hrow in Hsame. unfold t in Hk. simplify_eq.
  eapply (scan_alone env' t (MkScan payload _ _) (trim (aq_wallet_address request))); [..|exact Hsame|]; [|done|done| |].
  - unfold presents. cbn [st_payload st_signature st_public_key]. split_and!; [done| | |apply signed_verifies].
    + cbn. by apply uuid_roundtrip.
    + exists (trim (aq_wallet_address request)). split_and!; [done| |apply trim_idem].
      destruct (blank (trim _)) eqn:E; [|done]. apply blank_trim in E. congruence.
  - split; [set_solver|done].
  - unfold fresh_code. by split_and!.
Qed.

(** The stored public key is not looked at: whoever knows the id of an unused
    code of a ticket and a wallet that holds the ticket can scan it with a payload
    of their own, signed by a key of their own. *)
Lemma own_key_accepted `{!QrCryptoLaws} env t id row k wallet key nonce db :
  0 ≤ t < 2 ^ 128 → tickets db !! t = Some k → admits k (trim wallet) → blank wallet = false →
  qr_payloads db !! id = Some row → fresh_code row t (q_now env) →
  let payload := MkQrPayload id "ticket" (JObject [("ticket_id", JString (uuid_text t)); ("wallet_address", JString wallet)])
                   (q_now env) (q_now env) nonce in
  is_ok (qr_run env (scan_ticket t (MkScan payload (qr_b64_encode (qr_sign key (as_bytes (payload_json payload))))
                                      (String.string_of_list_ascii (hex_encode (qr_public key))))) db).1 = true.
Proof.
  intros Ht Hk Ha Hb Hrow Hf payload. erewrite scan_alone; [done|..|exact Hrow|exact Hf]; [|cbn; lia|done|exact Ha].
  unfold presents. cbn [st_payload st_signature st_public_key]. split_and!; [done| |by exists wallet|apply signed_verifies].
  cbn. by apply uuid_roundtrip.
Qed.
End Scans.

(** ** The listing of an event *)
(** No endpoint writes the event of a code: the listing of an event is empty. *)
Definition no_events (db : QrDb) : Prop := ∀ id row, qr_payloads db !! id = Some row → qr_event_id row = None.
Definition eventless R (c : qr_cmd R) : Prop := match c with InsertQr _ row => qr_event_id row = None | _ => True end.
Lemma exec_no_events env R (c : qr_cmd R) r db db' :
  eventless R c → qr_exec env c db = Some (r, db') → no_events db → no_events db'.
Proof.
  intros Hc He Hn i row'. assert (Hset : ∀ i' f, (∀ r, qr_event_id (f r) = qr_event_id r) →
    alter f i' (qr_payloads db) !! i = Some row' → qr_event_id row' = None).
  { intros i' f Hf Hi. destruct (decide (i' = i)) as [->|Hne]; [|rewrite lookup_alter_ne in Hi by done; by eapply Hn].
    rewrite lookup_alter_eq in Hi. apply fmap_Some in Hi as (r0 & H0 & ->). rewrite Hf. by eapply Hn. }
  destruct c as [i' row| | | | |i' t now|i' now|i'| | | | | | | | |]; cbn in He; simplify_eq; try (by apply Hn); try (by apply Hset).
  - case_decide; simplify_eq; [by apply Hn|]. repeat (case_match; simplify_eq); try (by apply Hn).
    all: cbn; intros [[_ <-]|[_ Hi]]%lookup_insert_Some; [done|by eapply Hn].
  - cbn. intros [_ Hi]%lookup_delete_Some. by eapply Hn.
Qed.
Section Unlisted.
Context `{QrCrypto}.
Lemma handlers_eventless checks g a v t s id f z e p :
  only eventless (generate_qr_payload g) ∧ only eventless (generate_attendee_qr a) ∧ only eventless (verify_qr_payload v) ∧
  only eventless (scan_ticket t s) ∧ only eventless (mark_qr_used id) ∧ only eventless (list_qr_payloads checks p f) ∧
  only eventless (delete_qr_payload z) ∧ only eventless (list_event_qr_codes checks e p).
Proof.
  split_and!; unfold generate_qr_payload, generate_attendee_qr, sign_and_store, verify_qr_payload, scan_ticket, mark_qr_used,
    list_qr_payloads, delete_qr_payload, list_event_qr_codes; only_tac; first [exact I|reflexivity].
Qed.
Lemma event_codes_unlisted env checks event_id p db resp db' : no_events db →
  qr_run env (list_event_qr_codes checks event_id p) db = (Ok resp, db') →
  pr_items resp = [] ∧ pm_total_items (pr_pagination resp) = 0.
Proof.
  intros Hn Hr. assert (Hc : codes_where (in_event event_id) db = []).
  { unfold codes_where. replace (filter _ _) with (@nil (string * QrRow)); [done|]. symmetry.
    destruct (filter _ _) as [|[i row] l] eqn:Hf; [done|].
    assert (Hin : (i, row) ∈ filter (λ q, in_event event_id q.2 = true) (map_to_list (qr_payloads db))) by (rewrite Hf; left).
    apply list_elem_of_filter in Hin as [Hin Hm]. apply elem_of_map_to_list in Hm. apply Hn in Hm.
    unfold in_event in Hin. cbn in Hin. by rewrite Hm in Hin. }
  unfold qr_run, list_event_qr_codes in Hr. cbn [call_or prun qr_exec] in Hr. destruct (bool_decide _); [|done].
  cbn [negb fail_if bind call_or prun qr_exec] in Hr. destruct (offset checks _) as [off| |]; [|done|done].
  cbn [call_or prun qr_exec] in Hr. rewrite Hc in Hr. simplify_eq. unfold sql_page. rewrite drop_nil, take_nil. done.
Qed.
End Unlisted.
