(* ===== verification/SrvEvents.v ===== *)
(** * The server: events, their ratings and their cache

    From [handlers/events.rs]: [create_event] with its validators, [get_event],
    the moderation endpoints, ratings with their listing and summary, counts; the
    validators of [models/event_translation.rs]; the cache of [cache/mod.rs], of
    which an entry can expire at any time.  Titles, texts and times are as in
    [SrvListing].  The lower case of a text, the bytes of a JSON value, the locale
    that a request asks for ([best_locale]) and the last moment of [chrono] are
    parameters; the tasks that [create_event] spawns (notifications, webhooks) and
    metadata for the audit log are left out. *)

From Stdlib Require Import Ascii QArith.
From stdpp Require Import pretty.
From S2P Require Import Prelude Machine Float Prog ZkBytes WaitPow.
From S2P Require Import WaitRoom.
From S2P Require Import SrvErrors SrvAuth SrvAuthSpecs SrvPages SrvListing SrvQr.
#[local] Open Scope Z_scope.

(** ** Texts *)
(** [s.chars().count()]: the bytes that do not continue a character. *)
Definition chars_count (s : string) : Z :=
  Z.of_nat (length (filter (λ b, ¬ (128 ≤ b < 192)) (as_bytes s))).
(** [s.splitn(2, c)] *)
Fixpoint split_once (c : ascii) (s : string) : string * string :=
  match s with
  | EmptyString => (EmptyString, EmptyString)
  | String a s => if Ascii.eqb a c then (EmptyString, s) else let ' (l, r) := split_once c s in (String a l, r)
  end.
Fixpoint ends_with_char (c : ascii) (s : string) : bool :=
  match s with
  | EmptyString => false
  | String a EmptyString => Ascii.eqb a c
  | String _ s => ends_with_char c s
  end.

(** ** Validation *)
Definition MAX_EVENT_TITLE_LENGTH : Z := 200.
Definition MAX_EVENT_DESCRIPTION_LENGTH : Z := 10000.
Definition MAX_IMAGE_URL_LEN : Z := 2048.
Definition MAX_LOCATION_LENGTH : Z := 500.
Definition MAX_EVENT_DURATION_DAYS : Z := 30.
Definition START_TIME_GRACE_PERIOD_SECONDS : Z := 300.
Definition validate_event_title (title : string) : res AppError unit :=
  do! fail_if (blank title) (ValidationError "title must not be empty") in
  fail_if (MAX_EVENT_TITLE_LENGTH <? chars_count title) (ValidationError "title must not exceed 200 characters").
Definition validate_event_description (description : option string) : res AppError unit :=
  match description with
  | Some desc => fail_if (MAX_EVENT_DESCRIPTION_LENGTH <? chars_count desc)
                   (ValidationError "description must not exceed 10000 characters")
  | None => Ok tt
  end.
Definition validate_image_url (url : string) : res AppError unit :=
  do! fail_if (MAX_IMAGE_URL_LEN <? Z.of_nat (length (as_bytes url)))
        (ValidationError "image_url must not exceed 2048 characters") in
  let is_valid := match strip_prefix "https://" url with
                  | Some rest => negb (String.eqb rest "") && negb (starts_with "/" rest)
                  | None => false
                  end in
  fail_if (negb is_valid) (ValidationError "image_url must be a valid HTTPS URL").
Definition is_valid_email (email : string) : bool :=
  let ' (local, domain) := split_once "@" email in
  negb (String.eqb local "") && negb (String.eqb domain "") && contains domain "."
  && negb (starts_with "." domain) && negb (ends_with_char "." domain).
Definition validate_event_location (location : string) : res AppError unit :=
  do! fail_if (blank location) (ValidationError "location is required") in
  fail_if (MAX_LOCATION_LENGTH <? chars_count location) (ValidationError "location must be at most 500 characters").
Definition within_range (lo hi x : Q) : bool := Qle_bool lo x && Qle_bool x hi.
Definition validate_event_coordinates (latitude longitude : option Q) : res AppError unit :=
  match latitude, longitude with
  | None, None => Ok tt
  | Some lat, Some lng =>
      do! fail_if (negb (within_range (-90) 90 lat)) (ValidationError "latitude must be between -90 and 90") in
      fail_if (negb (within_range (-180) 180 lng)) (ValidationError "longitude must be between -180 and 180")
  | _, _ => Err (ValidationError "latitude and longitude must both be provided together")
  end.

(** ** Translations *)
Record EventTranslationInput : Type := MkTranslationInput {
  ti_locale : string; ti_title : string; ti_description : option string
}.
Record EventTranslation : Type := MkTranslation {
  et_locale : string; et_title : string; et_description : option string
}.
Definition MAX_TRANSLATION_TITLE_LEN : Z := 500.
Definition MAX_TRANSLATION_DESCRIPTION_LEN : Z := 10000.
Definition MAX_TRANSLATIONS_PER_EVENT : nat := 20.
Definition locale_byte (b : Z) : bool :=
  ((48 <=? b) && (b <=? 57)) || ((65 <=? b) && (b <=? 90)) || ((97 <=? b) && (b <=? 122)) || (b =? 45) || (b =? 95).
Definition validate_translation (t : EventTranslationInput) : res AppError unit :=
  let locale := trim (ti_locale t) in
  do! fail_if (String.eqb locale "" || (20 <? Z.of_nat (length (as_bytes locale))))
        (ValidationError "each translation requires a locale") in
  do! fail_if (negb (forallb locale_byte (as_bytes locale)))
        (ValidationError ("invalid locale '" +:+ ti_locale t +:+ "'")) in
  do! fail_if (blank (ti_title t))
        (ValidationError ("translation title is required for locale '" +:+ ti_locale t +:+ "'")) in
  do! fail_if (MAX_TRANSLATION_TITLE_LEN <? chars_count (ti_title t))
        (ValidationError "translation title must be at most 500 characters") in
  fail_if match ti_description t with Some d => MAX_TRANSLATION_DESCRIPTION_LEN <? chars_count d | None => false end
    (ValidationError "translation description must be at most 10000 characters").

(** ** Tables and caches *)
Record TierRow : Type := MkTierRow {
  tr_event_id : Z; tr_name : string; tr_description : option string; tr_price : Q; tr_total : Z; tr_available : Z; tr_created_at : Z
}.
Record EvTicket : Type := MkEvTicket {
  tk_status : string; tk_tier : option Z; tk_event : option Z; tk_buyer : option string; tk_owner : option string;
  tk_stellar_id : option string; tk_created_at : Z
}.
Record RatingRow : Type := MkRatingRow { rt_rating : Z; rt_review : option string; rt_created_at : Z }.
Record TicketTierResponse : Type := MkTierResponse {
  tt_id : Z; tt_name : string; tt_description : option string; tt_price : Q; tt_total_quantity : Z;
  tt_available_quantity : Z; tt_created_at : Z
}.
Record EventDetail : Type := MkDetail {
  ed_event : Event; ed_organizer_profile : option OrganizerProfile; ed_tiers : option (list TicketTierResponse);
  ed_translations : option (list EventTranslation)
}.
#[export] Instance eta_EventDetail : Eta EventDetail := λ d,
  MkDetail (ed_event d) (ed_organizer_profile d) (ed_tiers d) (ed_translations d).
Record RatingsSummary : Type := MkSummary { rs_average : Q; rs_total : Z; rs_distribution : gmap string Z }.
Record EventCounts : Type := MkCounts { ct_total : Z; ct_upcoming : Z }.
Record EventSocialProofResponse : Type := MkProof {
  sp_recent_purchases : Z; sp_average_rating : Q; sp_waitlist_count : Z; sp_tickets_remaining : Z
}.
Record EventDb : Type := MkEventDb {
  ev_events : gmap Z Event;
  ev_host_email : gmap Z string;
  ev_metadata_cid : gmap Z string;                   (** [localised_metadata_cid] *)
  ev_organizers : gmap Z (option string);            (** [wallet_address] *)
  ev_profiles : gmap string OrganizerProfile;
  ev_tiers : gmap Z TierRow;
  ev_tickets : gmap Z EvTicket;
  ev_ratings : gmap (Z * Z) RatingRow;               (** unique by event and ticket *)
  ev_translations : gmap (Z * string) EventTranslation;
  detail_cache : gmap Z EventDetail;                 (** [event:detail:id] *)
  summary_cache : gmap Z RatingsSummary;             (** [event:ratings_summary:id] *)
  counts_cache : option EventCounts;
  proof_cache : gmap Z EventSocialProofResponse;     (** [event:social_proof:id] *)
  list_cached : bool                                 (** there is an entry for [EVENTS_LIST_CACHE_KEY] *)
}.
#[export] Instance eta_EventDb : Eta EventDb := λ d,
  MkEventDb (ev_events d) (ev_host_email d) (ev_metadata_cid d) (ev_organizers d) (ev_profiles d) (ev_tiers d) (ev_tickets d)
    (ev_ratings d) (ev_translations d) (detail_cache d) (summary_cache d) (counts_cache d) (proof_cache d) (list_cached d).

(** *** What the cache reads back

    [Event] is written by hand and read by derived code: reading needs every
    field of the struct that is not an [Option]; a field [average_rating] is
    ignored. *)
Definition event_keys : list string :=
  ["id"; "organizer_id"; "title"; "description"; "location"; "start_time"; "end_time"; "is_flagged"; "is_featured";
   "sum_of_ratings"; "count_of_ratings"; "created_at"; "updated_at"; "image_url"; "latitude"; "longitude"; "is_free";
   "total_tickets"; "minted_tickets"; "average_rating"].
Definition required_keys : list string :=
  ["id"; "organizer_id"; "title"; "location"; "start_time"; "is_flagged"; "is_featured"; "sum_of_ratings";
   "count_of_ratings"; "created_at"; "updated_at"; "total_tickets"; "minted_tickets"; "is_free"; "is_free_populated";
   "min_ticket_price"].
Definition reads_back : bool := forallb (λ k, bool_decide (k ∈ event_keys)) required_keys.

Record EventTicket : Type := MkEventTicket {
  et_id : Z; et_buyer_wallet : option string; et_owner_wallet : option string; et_quantity : Z; et_created_at : Z;
  et_stellar_id : option string
}.
Record CreateEventRequest : Type := MkCreateEvent {
  ce_organizer_id : Z; ce_title : string; ce_description : option string; ce_location : string; ce_start_time : Z;
  ce_end_time : option Z; ce_image_url : option string; ce_host_email : option string; ce_latitude : option Q;
  ce_longitude : option Q; ce_translations : option (list EventTranslationInput)
}.
Inductive ev_cmd : Type → Type :=
| InsertEvent (payload : CreateEventRequest) : ev_cmd (res SqlxError Event)
| InsertTranslations (event : Z) (rows : list EventTranslation) : ev_cmd (res SqlxError (list EventTranslation))
| SetMetadataCid (event : Z) (cid : string) : ev_cmd unit
| SelectWallet (organizer : Z) : ev_cmd (option (option string))
| SelectProfile (wallet : string) : ev_cmd (option OrganizerProfile)
| SelectEvent (event : Z) : ev_cmd (option Event)
| SelectTiers (columns : list string) (event : Z) : ev_cmd (res SqlxError (list TicketTierResponse))
| SelectTranslations (event : Z) : ev_cmd (list EventTranslation)
| SelectTicketEvent (ticket : Z) : ev_cmd (option (string * Z))
| EventVisible (event : Z) : ev_cmd bool
| SelectEndTime (event : Z) : ev_cmd (option (option Z))
| AlreadyRated (ticket : Z) : ev_cmd bool
| CommitRating (event ticket rating : Z) (review : option string) : ev_cmd (res SqlxError (option Event))
| CountRatings (event : Z) : ev_cmd Z
| SelectRatings (event limit offset : Z) : ev_cmd (list RatingRow)
| GroupRatings (event : Z) : ev_cmd (list (Z * Z))
| SelectFlag (event : Z) : ev_cmd (option (bool * option string))
| SetFlag (event : Z) (flagged : bool) : ev_cmd (option bool)
| SetFeatured (event : Z) (featured : bool) : ev_cmd (option bool)
| CountEvents : ev_cmd Z
| CountUpcoming : ev_cmd Z
| SelectUpcoming (limit : Z) : ev_cmd (list Event)
| PaidEvents (ids : list Z) : ev_cmd (list Z)
| CheckinCounts (event : Z) : ev_cmd (Z * Z)
| CountTickets (event : Z) : ev_cmd Z
| SelectTickets (event limit offset : Z) : ev_cmd (list EventTicket)
| RecentPurchases (event : Z) : ev_cmd Z
| CountWaitlist (event : Z) : ev_cmd (res SqlxError Z)
| EventOrganizer (event : Z) : ev_cmd (option Z)
| GetProof (event : Z) : ev_cmd (option EventSocialProofResponse)
| SetProof (event : Z) (proof : EventSocialProofResponse) : ev_cmd unit
| GetDetail (event : Z) : ev_cmd (option EventDetail)
| SetDetail (event : Z) (detail : EventDetail) : ev_cmd unit
| DelDetail (event : Z) : ev_cmd unit
| GetSummary (event : Z) : ev_cmd (option RatingsSummary)
| SetSummary (event : Z) (summary : RatingsSummary) : ev_cmd unit
| GetCounts : ev_cmd (option EventCounts)
| SetCounts (counts : EventCounts) : ev_cmd unit
| DelList : ev_cmd unit
| EvNow : ev_cmd Z.
(** What a command meets: the time, the UUID that the database draws, and
    whether the schema has the column [slug], which is not null and has no
    default ([20260826000003_add_events_slug.sql]). *)
Record EvEnv : Type := MkEvEnv { e_now : Z; e_uuid : Z; e_slugs : bool }.
Definition not_null_violation : SqlxError := SqlxDatabase false false "null value in column violates not-null constraint".
Definition event_check_violation : SqlxError := SqlxDatabase false false "violates check constraint".
Definition visible (db : EventDb) (event : Z) : option Event :=
  match ev_events db !! event with Some e => if is_flagged e then None else Some e | None => None end.
Definition new_event (env : EvEnv) (p : CreateEventRequest) : Event :=
  MkEvent (e_uuid env) (ce_organizer_id p) (ce_title p) (ce_description p) (ce_location p) (ce_start_time p)
    (ce_end_time p) false false 0 0 (e_now env) (e_now env) 0 0 (ce_image_url p) (ce_latitude p) (ce_longitude p)
    false false 0.
(** The constraints of the table. *)
Definition event_checks (p : CreateEventRequest) : bool :=
  match ce_end_time p with Some e => ce_start_time p <? e | None => true end &&
  match ce_description p with Some d => chars_count d <=? 10000 | None => true end &&
  match ce_latitude p with Some l => within_range (-90) 90 l | None => true end &&
  match ce_longitude p with Some l => within_range (-180) 180 l | None => true end.
Definition cheaper (a b : TicketTierResponse) : Prop := Qle_bool (tt_price a) (tt_price b) = true.
#[export] Instance cheaper_dec : RelDecision cheaper.
Proof. intros a b. unfold cheaper. apply _. Defined.
Definition tiers_of (db : EventDb) (event : Z) : list TicketTierResponse :=
  merge_sort cheaper
    (map (λ p, MkTierResponse p.1 (tr_name p.2) (tr_description p.2) (tr_price p.2) (tr_total p.2) (tr_available p.2)
                 (tr_created_at p.2))
       (filter (λ p, tr_event_id p.2 = event) (map_to_list (ev_tiers db)))).
(** A row is read field by field: a column that the statement did not select is
    an error, and without rows there is nothing to read. *)
Definition tier_fields : list string :=
  ["id"; "name"; "description"; "price"; "total_quantity"; "available_quantity"; "created_at"].
Definition tiers_read (columns : list string) (rows : list TicketTierResponse) : res SqlxError (list TicketTierResponse) :=
  match rows, find (λ f, negb (bool_decide (f ∈ columns))) tier_fields with
  | _ :: _, Some missing => Err (SqlxOther ("no column found for name: " +:+ missing))
  | _, _ => Ok rows
  end.
Definition tickets_of (db : EventDb) (event : Z) : list (Z * EvTicket) :=
  filter (λ p, tk_event p.2 = Some event) (map_to_list (ev_tickets db)).
Definition newest_ticket (a b : EventTicket) : Prop := et_created_at b ≤ et_created_at a.
#[export] Instance newest_ticket_dec : RelDecision newest_ticket.
Proof. intros a b. unfold newest_ticket. apply _. Defined.
Definition ticket_items (db : EventDb) (event : Z) : list EventTicket :=
  merge_sort newest_ticket
    (map (λ p, MkEventTicket p.1 (tk_buyer p.2) (tk_owner p.2) 1 (tk_created_at p.2) (tk_stellar_id p.2)) (tickets_of db event)).
Definition checked_in (t : EvTicket) : bool := String.eqb (tk_status t) "used" || String.eqb (tk_status t) "Scanned".
Definition sooner (a b : Event) : Prop := start_time a ≤ start_time b.
#[export] Instance sooner_dec : RelDecision sooner.
Proof. intros a b. unfold sooner. apply _. Defined.
(** No migration creates the table [waitlist_entries]. *)
Definition no_such_table : SqlxError := SqlxDatabase false false "relation does not exist".
(** [ORDER BY locale], in the order of the bytes. *)
Definition locale_le (a b : EventTranslation) : Prop := String.leb (et_locale a) (et_locale b) = true.
#[export] Instance locale_le_dec : RelDecision locale_le.
Proof. intros a b. unfold locale_le. apply _. Defined.
Definition translations_of (db : EventDb) (event : Z) : list EventTranslation :=
  merge_sort locale_le (filter (λ p, p.1.1 = event) (map_to_list (ev_translations db))).*2.
(** All rows or none. *)
Definition insert_translations (event : Z) (rows : list EventTranslation) (m : gmap (Z * string) EventTranslation)
    : option (gmap (Z * string) EventTranslation) :=
  foldl (λ m t, m ← m; if decide (is_Some (m !! (event, et_locale t))) then None else Some (<[(event, et_locale t) := t]> m))
    (Some m) rows.
Definition ratings_of (db : EventDb) (event : Z) : list RatingRow :=
  (filter (λ p, p.1.1 = event) (map_to_list (ev_ratings db))).*2.
Definition newest_rating (a b : RatingRow) : Prop := rt_created_at b ≤ rt_created_at a.
#[export] Instance newest_rating_dec : RelDecision newest_rating.
Proof. intros a b. unfold newest_rating. apply _. Defined.
(** [SELECT rating, COUNT( * ) ... GROUP BY rating ORDER BY rating] *)
Definition count_of (r : Z) (l : list RatingRow) : Z := Z.of_nat (length (filter (λ row, rt_rating row = r) l)).
Definition grouped (l : list RatingRow) : list (Z * Z) :=
  map (λ r, (r, count_of r l)) (merge_sort Z.le (remove_dups (map rt_rating l))).
Definition out_of_range : SqlxError := SqlxDatabase false false "integer out of range".

Definition ev_exec (env : EvEnv) {R} (c : ev_cmd R) (db : EventDb) : option (R * EventDb) :=
  match c in ev_cmd R return option (R * EventDb) with
  | InsertEvent p =>
      Some (if e_slugs env then (Err not_null_violation, db)
            else if negb (event_checks p) then (Err event_check_violation, db)
            else if decide (is_Some (ev_events db !! e_uuid env)) then (Err unique_violation, db)
            else if decide (ev_organizers db !! ce_organizer_id p = None) then (Err foreign_key_violation, db)
            else (Ok (new_event env p),
                  db ⟨ ev_events ::= <[e_uuid env := new_event env p]> ⟩
                     ⟨ ev_host_email ::= partial_alter (λ _, ce_host_email p) (e_uuid env) ⟩))
  | InsertTranslations e rows =>
      Some (if decide (ev_events db !! e = None) then (Err foreign_key_violation, db)
            else match insert_translations e rows (ev_translations db) with
                 | Some m => (Ok rows, db ⟨ ev_translations := m ⟩)
                 | None => (Err unique_violation, db)
                 end)
  | SetMetadataCid e cid =>
      Some (tt, if decide (is_Some (ev_events db !! e)) then db ⟨ ev_metadata_cid ::= <[e := cid]> ⟩ else db)
  | SelectWallet o => Some (ev_organizers db !! o, db)
  | SelectProfile w => Some (ev_profiles db !! w, db)
  | SelectEvent e => Some (visible db e, db)
  | SelectTiers columns e => Some (tiers_read columns (tiers_of db e), db)
  | SelectTranslations e => Some (translations_of db e, db)
  | SelectTicketEvent t =>
      Some (match ev_tickets db !! t with
            | Some row => (λ r, (tk_status row, tr_event_id r)) <$> (tk_tier row ≫= λ tier, ev_tiers db !! tier)
            | None => None
            end, db)
  | EventVisible e => Some (bool_decide (is_Some (visible db e)), db)
  | SelectEndTime e => Some (end_time <$> visible db e, db)
  | AlreadyRated t => Some (bool_decide (Exists (λ p, p.1.2 = t) (map_to_list (ev_ratings db))), db)
  | CommitRating e t rating review =>
      Some (if negb ((1 <=? rating) && (rating <=? 5)) then (Err event_check_violation, db)
            else if decide (is_Some (ev_ratings db !! (e, t))) then (Err unique_violation, db)
            else if decide (ev_tickets db !! t = None) then (Err foreign_key_violation, db)
            else match ev_events db !! e with
                 | None => (Err foreign_key_violation, db)
                 | Some event =>
                     if count_of_ratings event =? 2 ^ 31 - 1 then (Err out_of_range, db)
                     else
                       let event := event ⟨ sum_of_ratings ::= Z.add rating ⟩ ⟨ count_of_ratings ::= Z.add 1 ⟩ in
                       (Ok (Some event),
                        db ⟨ ev_ratings ::= <[(e, t) := MkRatingRow rating review (e_now env)]> ⟩
                           ⟨ ev_events ::= <[e := event]> ⟩)
                 end)
  | CountRatings e => Some (Z.of_nat (length (ratings_of db e)), db)
  | SelectRatings e limit offset => Some (sql_page limit offset (merge_sort newest_rating (ratings_of db e)), db)
  | GroupRatings e => Some (grouped (ratings_of db e), db)
  | SelectFlag e =>
      Some ((λ ev, (is_flagged ev, ev_organizers db !! organizer_id ev ≫= λ w, w)) <$> ev_events db !! e, db)
  | SetFlag e b =>
      Some (match ev_events db !! e with Some _ => Some b | None => None end,
            db ⟨ ev_events ::= alter (λ ev, ev ⟨ is_flagged := b ⟩) e ⟩)
  | SetFeatured e b =>
      Some (match ev_events db !! e with Some _ => Some b | None => None end,
            db ⟨ ev_events ::= alter (λ ev, ev ⟨ is_featured := b ⟩) e ⟩)
  | CountEvents => Some (Z.of_nat (length (filter (λ ev, is_flagged ev = false) (map_to_list (ev_events db)).*2)), db)
  | CountUpcoming =>
      Some (Z.of_nat (length (filter (λ ev, upcoming (e_now env) ev = true) (map_to_list (ev_events db)).*2)), db)
  | SelectUpcoming limit =>
      Some (sql_page limit 0 (merge_sort sooner (filter (λ ev, upcoming (e_now env) ev = true) (map_to_list (ev_events db)).*2)), db)
  | PaidEvents ids =>
      Some (remove_dups (map tr_event_id (filter (λ t, tr_event_id t ∈ ids ∧ Qle_bool (tr_price t) 0 = false)
                                            (map_to_list (ev_tiers db)).*2)), db)
  | CheckinCounts e =>
      let sold := (tickets_of db e).*2 in
      Some ((Z.of_nat (length (filter (λ t, checked_in t = true) sold)), Z.of_nat (length sold)), db)
  | CountTickets e => Some (Z.of_nat (length (tickets_of db e)), db)
  | SelectTickets e limit offset => Some (sql_page limit offset (ticket_items db e), db)
  | RecentPurchases e =>
      Some (Z.of_nat (length (filter (λ p, e_now env - 86400000 < tk_created_at p.2) (tickets_of db e))), db)
  | CountWaitlist _ => Some (Err no_such_table, db)
  | EventOrganizer e => Some (organizer_id <$> ev_events db !! e, db)
  | GetProof e => Some (proof_cache db !! e, db)
  | SetProof e p => Some (tt, db ⟨ proof_cache ::= <[e := p]> ⟩)
  | GetDetail e => Some (if reads_back then detail_cache db !! e else None, db)
  | SetDetail e d => Some (tt, db ⟨ detail_cache ::= <[e := d]> ⟩)
  | DelDetail e => Some (tt, db ⟨ detail_cache ::= delete e ⟩)
  | GetSummary e => Some (summary_cache db !! e, db)
  | SetSummary e s => Some (tt, db ⟨ summary_cache ::= <[e := s]> ⟩)
  | GetCounts => Some (counts_cache db, db)
  | SetCounts c => Some (tt, db ⟨ counts_cache := Some c ⟩)
  | DelList => Some (tt, db ⟨ list_cached := false ⟩)
  | EvNow => Some (e_now env, db)
  end.
Abbreviation ev_prog := (prog ev_cmd AppError).

Section Handlers.
Context `{Sha256}.
Variable to_lowercase : string → string.
Variable json_bytes : Json → bytes.
Variable datetime_last : Z.
Definition not_found (event : Z) : AppError := NotFound ("Event with id '" +:+ uuid_text event +:+ "' not found").

(** ** Creating events *)
Definition validate_event_timestamps (now start_time : Z) (end_time : option Z) : res AppError unit :=
  if datetime_last <? start_time + 1000 * START_TIME_GRACE_PERIOD_SECONDS then Panic
  else
    do! fail_if (start_time + 1000 * START_TIME_GRACE_PERIOD_SECONDS <? now)
          (ValidationError "start_time must be in the future or within the grace period") in
    match end_time with
    | Some e =>
        do! fail_if (e <=? start_time) (ValidationError "end_time must be strictly after start_time") in
        fail_if (MAX_EVENT_DURATION_DAYS * 86400000 <? e - start_time)
          (ValidationError "event duration must not exceed 30 days")
    | None => Ok tt
    end.
Fixpoint validate_each (seen : list string) (translations : list EventTranslationInput) : res AppError unit :=
  match translations with
  | [] => Ok tt
  | t :: l =>
      let locale := to_lowercase (trim (ti_locale t)) in
      do! fail_if (bool_decide (locale ∈ seen))
            (ValidationError ("duplicate translation locale '" +:+ ti_locale t +:+ "'")) in
      do! validate_translation t in
      validate_each (locale :: seen) l
  end.
Definition validate_translations (translations : list EventTranslationInput) : res AppError unit :=
  do! fail_if (MAX_TRANSLATIONS_PER_EVENT <? length translations)%nat
        (ValidationError "at most 20 translations are allowed per event") in
  validate_each [] translations.
Definition validate_opt {A} (f : A → res AppError unit) (o : option A) : res AppError unit :=
  match o with Some a => f a | None => Ok tt end.
Definition stored_translation (t : EventTranslationInput) : EventTranslation :=
  MkTranslation (to_lowercase (trim (ti_locale t))) (trim (ti_title t)) (trim <$> ti_description t).
Definition json_opt (o : option string) : Json := match o with Some s => JString s | None => JNull end.
Definition build_localised_metadata (event : Z) (title : string) (description : option string)
    (translations : list EventTranslation) : Json :=
  JObject [("id", JString (uuid_text event)); ("defaultLocale", JString "en"); ("defaultTitle", JString title);
           ("defaultDescription", json_opt description);
           ("translations", JArray (map (λ t, JObject [("locale", JString (et_locale t)); ("title", JString (et_title t));
                                                       ("description", json_opt (et_description t))]) translations))].
Definition content_hash (value : Json) : string := hex (sha256 (json_bytes value)).
(** A command whose failure is only logged. *)
Definition attempt {A R} (c : ev_cmd R) (k : option R → ev_prog A) : ev_prog A := Call c k.
Definition organizer_profile_of (organizer : Z) : ev_prog (option OrganizerProfile) :=
  attempt (SelectWallet organizer) (λ w,
    match w with
    | Some (Some (Some wallet)) =>
        attempt (SelectProfile wallet) (λ p, ret (Ok (match p with Some p => p | None => None end)))
    | _ => ret (Ok None)
    end).
Definition insert_event_translations (event : Z) (input : option (list EventTranslationInput))
    : ev_prog (option (list EventTranslation)) :=
  match input with
  | None | Some [] => ret (Ok None)
  | Some input =>
      attempt (InsertTranslations event (map stored_translation input)) (λ r,
        ret (Ok (match r with Some (Ok stored) => Some stored | _ => None end)))
  end.
Definition validate_create_event (now : Z) (payload : CreateEventRequest) : res AppError unit :=
  do! validate_opt validate_image_url (ce_image_url payload) in
  do! validate_event_location (ce_location payload) in
  do! validate_opt (λ email, fail_if (negb (is_valid_email email)) (ValidationError "host_email must be a valid email address"))
        (ce_host_email payload) in
  do! validate_event_title (ce_title payload) in
  do! validate_event_timestamps now (ce_start_time payload) (ce_end_time payload) in
  do! validate_event_description (ce_description payload) in
  do! validate_event_coordinates (ce_latitude payload) (ce_longitude payload) in
  validate_opt validate_translations (ce_translations payload).
(** What follows the checks. *)
Definition store_event (payload : CreateEventRequest) : ev_prog Event :=
  let!? inserted := InsertEvent payload in
  let* event := ret (map_err DatabaseError inserted) in
  let* translations := insert_event_translations (id event) (ce_translations payload) in
  let* _ := match translations with
            | Some stored =>
                attempt (SetMetadataCid (id event)
                           (content_hash (build_localised_metadata (id event) (title event) (description event) stored)))
                  (λ _, ret (Ok tt))
            | None => ret (Ok tt)
            end in
  let* profile := organizer_profile_of (organizer_id event) in
  attempt (SetDetail (id event) (MkDetail event profile None translations)) (λ _,
    attempt DelList (λ _, ret (Ok event))).
Definition create_event (payload : CreateEventRequest) : ev_prog Event :=
  let!? now := EvNow in
  let* _ := ret (validate_create_event now payload) in
  store_event payload.

(** ** Reading an event *)
Definition primary_tag (l : string) : string := (split_once "-" l).1.
Fixpoint ascii_lower (s : string) : string :=
  match s with
  | EmptyString => EmptyString
  | String a s =>
      let n := N_of_ascii a in
      String (if (65 <=? n)%N && (n <=? 90)%N then ascii_of_N (n + 32) else a) (ascii_lower s)
  end.
Definition apply_translation (event : Event) (translations : list EventTranslation) (locale : option string) : Event :=
  let requested := (λ l, to_lowercase (primary_tag l)) <$> locale in
  let exact := find (λ t, bool_decide (Some (to_lowercase (primary_tag (et_locale t))) = requested)) translations in
  let translation := match exact with
                     | Some t => Some t
                     | None => r ← requested;
                               find (λ t, String.eqb (ascii_lower (et_locale t)) (ascii_lower r)) translations
                     end in
  match translation with
  | Some t => event ⟨ title := et_title t ⟩
                    ⟨ description ::= λ d, match et_description t with Some desc => Some desc | None => d end ⟩
  | None => event
  end.
Definition localise (detail : EventDetail) (translations : list EventTranslation) (requested : option string) : EventDetail :=
  let detail := detail ⟨ ed_event ::= λ e, apply_translation e translations requested ⟩ in
  match translations with [] => detail | _ => detail ⟨ ed_translations := Some translations ⟩ end.
Definition fetch_detail (event : Z) (include_tiers : bool) : ev_prog EventDetail :=
  let!? found := SelectEvent event in
  let* row := ret (ok_or found (not_found event)) in
  let* profile := organizer_profile_of (organizer_id row) in
  let* tiers := (if include_tiers
                 then attempt (SelectTiers ["id"; "name"; "price"; "quantity"; "sold"] event)
                        (λ r, ret (Ok (match r with Some (Ok rows) => Some rows | _ => None end)))
                 else ret (Ok None)) in
  ret (Ok (MkDetail row profile tiers None)).
Definition get_event (event : Z) (include_tiers : bool) (requested : option string) : ev_prog EventDetail :=
  let* cached := (if include_tiers then ret (Ok None)
                  else attempt (GetDetail event) (λ r, ret (Ok (match r with Some d => d | None => None end)))) in
  let* detail := match cached with
                 | Some d => ret (Ok d)
                 | None =>
                     let* d := fetch_detail event include_tiers in
                     if include_tiers then ret (Ok d) else attempt (SetDetail event d) (λ _, ret (Ok d))
                 end in
  attempt (SelectTranslations event) (λ rows, ret (Ok (localise detail (default [] rows) requested))).

(** ** Ratings *)
Record SubmitEventRatingRequest : Type := MkRate { sr_ticket_id : Z; sr_rating : Z; sr_review : option string }.
Record SubmitEventRatingResponse : Type := MkRated { sr_sum : Z; sr_count : Z; sr_average : Q }.
(** Division of non-negative numbers in single precision. *)
Definition rnd32 (q : Q) : Q :=
  if Qle_bool q 0 then 0 else let e := mag q - 23 in Qred (inject_Z (rne (q * pow2 (- e))) * pow2 e).
Definition average_rating (e : Event) : option Q :=
  if count_of_ratings e =? 0 then None
  else Some (rnd32 (rnd32 (inject_Z (sum_of_ratings e)) / rnd32 (inject_Z (count_of_ratings e)))).
Definition submit_event_rating (event_id : Z) (payload : SubmitEventRatingRequest) : ev_prog SubmitEventRatingResponse :=
  let* _ := ret (fail_if ((sr_rating payload <? 1) || (5 <? sr_rating payload))
                   (ValidationError "Rating must be between 1 and 5")) in
  let!? found := SelectTicketEvent (sr_ticket_id payload) in
  let* ticket := ret (ok_or found (NotFound ("Ticket with id '" +:+ uuid_text (sr_ticket_id payload) +:+ "' not found"))) in
  let!? event_exists := EventVisible event_id in
  let* _ := ret (fail_if (negb event_exists) (not_found event_id)) in
  let* _ := ret (fail_if (negb (ticket.2 =? event_id)) (Forbidden "Ticket does not belong to this event")) in
  let* _ := ret (fail_if (negb (String.eqb ticket.1 "Scanned"))
                   (ValidationError "Only attendees with a scanned ticket may leave a rating")) in
  let!? maybe_end := SelectEndTime event_id in
  let* end_time := ret (ok_or maybe_end (not_found event_id)) in
  let!? now := EvNow in
  let* _ := ret (fail_if (match end_time with Some t => now <? t | None => false end)
                   (ValidationError "Ratings may only be submitted after the event has ended")) in
  let!? already_rated := AlreadyRated (sr_ticket_id payload) in
  let* _ := ret (fail_if already_rated (Conflict "Rating already submitted for this ticket")) in
  let!? committed := CommitRating event_id (sr_ticket_id payload) (sr_rating payload) (sr_review payload) in
  let* updated := ret (map_err DatabaseError committed) in
  let* event := ret (ok_or updated (not_found event_id)) in
  attempt (DelDetail event_id) (λ _,
    attempt DelList (λ _,
      ret (Ok (MkRated (sum_of_ratings event) (count_of_ratings event) (default 0%Q (average_rating event)))))).
Definition list_event_ratings (checks : bool) (event_id : Z) (pagination : PaginationParams)
    : ev_prog (PaginatedResponse RatingRow) :=
  let!? exists_ := EventVisible event_id in
  let* _ := ret (fail_if (negb exists_) (not_found event_id)) in
  let validated := validate pagination in
  let!? total := CountRatings event_id in
  match offset checks validated with
  | Ok off =>
      let!? rows := SelectRatings event_id (limit validated) off in
      ret (Ok (paginated rows validated total))
  | _ => ret Panic
  end.
Definition summary_of (rows : list (Z * Z)) : RatingsSummary :=
  let distribution : gmap string Z := foldl (λ m star, <[pretty star := 0]> m) ∅ (seqZ 1 5) in
  let distribution := foldl (λ m p, <[pretty p.1 := p.2]> m) distribution rows in
  let total := foldr (λ p acc, p.2 + acc) 0 rows in
  let weighted := foldr (λ p acc, p.1 * p.2 + acc) 0 rows in
  MkSummary (if 0 <? total then fdiv (of_int weighted) (of_int total) else 0) total distribution.
Definition get_ratings_summary (event_id : Z) : ev_prog RatingsSummary :=
  attempt (GetSummary event_id) (λ cached,
    match cached with
    | Some (Some summary) => ret (Ok summary)
    | _ =>
        let!? exists_ := EventVisible event_id in
        let* _ := ret (fail_if (negb exists_) (not_found event_id)) in
        let!? rows := GroupRatings event_id in
        let summary := summary_of rows in
        attempt (SetSummary event_id summary) (λ _, ret (Ok summary))
    end).

(** ** Moderation and counts *)
Definition toggle_event_flag (event_id : Z) : ev_prog bool :=
  let!? found := SelectFlag event_id in
  let* row := ret (ok_or found (not_found event_id)) in
  let new_flagged := negb row.1 in
  let!? _ := SetFlag event_id new_flagged in
  attempt (DelDetail event_id) (λ _, attempt DelList (λ _, ret (Ok new_flagged))).
Definition set_event_featured (event_id : Z) (featured : bool) : ev_prog bool :=
  let!? updated := SetFeatured event_id featured in
  let* updated := ret (ok_or updated (not_found event_id)) in
  attempt (DelDetail event_id) (λ _, attempt DelList (λ _, ret (Ok updated))).
Definition flag_event (event_id : Z) (flagged : bool) : ev_prog bool :=
  let!? updated := SetFlag event_id flagged in
  let* updated := ret (ok_or updated (not_found event_id)) in
  attempt (DelDetail event_id) (λ _, ret (Ok updated)).
Definition get_event_counts : ev_prog EventCounts :=
  attempt GetCounts (λ cached,
    match cached with
    | Some (Some counts) => ret (Ok counts)
    | _ =>
        let!? total := CountEvents in
        let!? upcoming := CountUpcoming in
        let counts := MkCounts total upcoming in
        attempt (SetCounts counts) (λ _, ret (Ok counts))
    end).

(** ** Tickets of an event *)
Definition list_ticket_tiers (event_id : Z) : ev_prog (list TicketTierResponse) :=
  let!? event_exists := EventVisible event_id in
  let* _ := ret (fail_if (negb event_exists) (not_found event_id)) in
  let!? tiers := SelectTiers ["id"; "name"; "description"; "price"; "total_quantity"; "available_quantity"; "created_at"] event_id in
  ret (map_err DatabaseError tiers).
Definition list_featured_events : ev_prog (list Event) := ret (Err (NotFound "Featured events are not yet available")).
Definition list_upcoming_events (limit : option Z) : ev_prog (list Event) :=
  let limit := Z.max 1 (Z.min 20 (default 5 limit)) in
  let!? events := SelectUpcoming limit in
  if decide (events = []) then ret (Ok events)
  else attempt (PaidEvents (map id events)) (λ paid,
         ret (Ok (match paid with Some paid => map (mark_free paid) events | None => events end))).
Record CheckInStats : Type := MkCheckIns { ci_checked_in : Z; ci_total_sold : Z; ci_remaining : Z }.
Definition get_checkin_stats (event_id : Z) : ev_prog CheckInStats :=
  Call (CheckinCounts event_id) (λ row,
    match row with
    | Some (checked_in, total_sold) => ret (Ok (MkCheckIns checked_in total_sold (total_sold - checked_in)))
    | None => ret (Err (InternalServerError "database error"))
    end).
Definition list_event_tickets (checks : bool) (event_id : Z) (pagination : PaginationParams)
    : ev_prog (PaginatedResponse EventTicket) :=
  let!? event_exists := EventVisible event_id in
  let* _ := ret (fail_if (negb event_exists) (not_found event_id)) in
  let validated := validate pagination in
  let!? total := CountTickets event_id in
  match offset checks validated with
  | Ok off =>
      let!? rows := SelectTickets event_id (limit validated) off in
      ret (Ok (paginated rows validated total))
  | _ => ret Panic
  end.
Definition get_attendee_count (event_id : Z) : ev_prog (Z * Z) :=
  let!? found := SelectEvent event_id in
  let* row := ret (ok_or found (not_found event_id)) in
  ret (Ok (minted_tickets row, total_tickets row)).
(** [.chars().take(n).collect()] *)
Fixpoint take_chars (n : nat) (s : string) : string :=
  match s with
  | EmptyString => EmptyString
  | String a s =>
      if (128 <=? N_of_ascii a)%N && (N_of_ascii a <? 192)%N then String a (take_chars n s)
      else match n with O => EmptyString | S n => String a (take_chars n s) end
  end.
Record EventShareLinkResponse : Type := MkShare { sl_url : string; sl_title : string; sl_description : string }.
Definition get_event_share_link (base_url : string) (event_id : Z) : ev_prog EventShareLinkResponse :=
  let!? found := SelectEvent event_id in
  let* event := ret (ok_or found (not_found event_id)) in
  ret (Ok (MkShare (base_url +:+ "/events/" +:+ uuid_text event_id) (title event)
             (take_chars 160 (default EmptyString (description event))))).
(** The four statements of [join!], in one of their orders; a failure counts
    as nothing. *)
Definition get_event_social_proof (event_id : Z) : ev_prog EventSocialProofResponse :=
  attempt (GetProof event_id) (λ cached,
    match cached with
    | Some (Some proof) => ret (Ok proof)
    | _ =>
        let!? event_exists := EventVisible event_id in
        let* _ := ret (fail_if (negb event_exists) (not_found event_id)) in
        attempt (RecentPurchases event_id) (λ recent,
          attempt (SelectEvent event_id) (λ rating,
            attempt (CountWaitlist event_id) (λ waitlist,
              attempt (SelectEvent event_id) (λ remaining,
                let average := match rating with Some (Some e) => default 0%Q (average_rating e) | _ => 0%Q end in
                let proof := MkProof (default 0 recent) average
                  match waitlist with Some (Ok n) => n | _ => 0 end
                  match remaining with Some (Some e) => total_tickets e - minted_tickets e | _ => 0 end in
                attempt (SetProof event_id proof) (λ _, ret (Ok proof))))))
    end).
(** The wallet is read as a text, which a null is not. *)
Definition get_event_organizer (event_id : Z) : ev_prog OrganizerProfile :=
  let missing := NotFound ("Organizer profile not found for event '" +:+ uuid_text event_id +:+ "'") in
  let!? found := EventOrganizer event_id in
  let* organizer := ret (ok_or found (not_found event_id)) in
  let!? wallet := SelectWallet organizer in
  match wallet with
  | Some (Some wallet) =>
      let!? profile := SelectProfile wallet in
      ret (ok_or profile missing)
  | Some None => ret (Err (DatabaseError (SqlxOther "unexpected null")))
  | None => ret (Err missing)
  end.
End Handlers.

(** ** Ratings and their totals *)
Definition ev_step_at (env : EvEnv) : ∀ R, ev_cmd R → EventDb → option (R * EventDb) := @ev_exec env.
Definition total_of (l : list RatingRow) : Z := foldr (λ r acc, rt_rating r + acc) 0 l.
#[export] Instance total_of_proper : Proper ((≡ₚ) ==> (=)) total_of.
Proof. intros l l'. unfold total_of. induction 1; cbn [foldr] in *; lia. Qed.
(** The ticket is for the event, and its holder was there. *)
Definition attended (db : EventDb) (t e : Z) : Prop :=
  ∃ ticket tier row, ev_tickets db !! t = Some ticket ∧ tk_status ticket = "Scanned" ∧ tk_tier ticket = Some tier ∧
    ev_tiers db !! tier = Some row ∧ tr_event_id row = e.
Record ratings_ok (db : EventDb) : Prop := {
  totals_ok e ev : ev_events db !! e = Some ev →
    sum_of_ratings ev = total_of (ratings_of db e) ∧ count_of_ratings ev = Z.of_nat (length (ratings_of db e)) ∧
    count_of_ratings ev < 2 ^ 31;
  rows_ok e t row : ev_ratings db !! (e, t) = Some row →
    1 ≤ rt_rating row ≤ 5 ∧ is_Some (ev_events db !! e) ∧ attended db t e
}.
(** What no request changes. *)
Record keeps (db db' : EventDb) : Prop := {
  keeps_tickets : ev_tickets db' = ev_tickets db;
  keeps_tiers : ev_tiers db' = ev_tiers db;
  keeps_ratings k row : ev_ratings db !! k = Some row → ev_ratings db' !! k = Some row
}.
#[export] Instance keeps_preorder : PreOrder keeps.
Proof.
  split; [by split|]. intros a b c [H1 H2 H3] [H4 H5 H6]. split; [congruence|congruence|]. eauto.
Qed.
Lemma keeps_attended db db' t e : keeps db db' → attended db t e → attended db' t e.
Proof. intros [Ht Hr _] (ticket & tier & row & H1 & H2 & H3 & H4). exists ticket, tier, row. by rewrite Ht, Hr. Qed.

(** The rows of an event after one was added. *)
Lemma ratings_insert_eq db db' e t row : ev_ratings db' = <[(e, t) := row]> (ev_ratings db) → ev_ratings db !! (e, t) = None →
  ratings_of db' e ≡ₚ row :: ratings_of db e.
Proof.
  intros Hi Hn. unfold ratings_of. rewrite Hi, map_to_list_insert by done. by rewrite filter_cons_True by done.
Qed.
Lemma ratings_insert_ne db db' e e' t row : ev_ratings db' = <[(e, t) := row]> (ev_ratings db) → ev_ratings db !! (e, t) = None →
  e ≠ e' → ratings_of db' e' ≡ₚ ratings_of db e'.
Proof.
  intros Hi Hn Hne. unfold ratings_of. rewrite Hi, map_to_list_insert by done. by rewrite filter_cons_False by done.
Qed.
(** Without rows of its own. *)
Lemma ratings_none db e : (∀ t row, ev_ratings db !! (e, t) = Some row → False) → ratings_of db e = [].
Proof.
  intros Hn. unfold ratings_of. destruct (filter _ _) as [|[[e' t] row] l] eqn:Hf; [done|]. exfalso.
  assert (Hin : ((e', t), row) ∈ filter (λ p, p.1.1 = e) (map_to_list (ev_ratings db))) by (rewrite Hf; left).
  apply list_elem_of_filter in Hin as [He Hin]. cbn in He. subst. apply elem_of_map_to_list in Hin. by eapply Hn.
Qed.

(** What a command may rely on. *)
Definition may_commit {R} (c : ev_cmd R) (db : EventDb) : Prop :=
  match c with CommitRating e t _ _ => attended db t e | _ => True end.
Lemma ratings_ok_events db m : ratings_ok db →
  (∀ e ev, m !! e = Some ev → (∃ ev0, ev_events db !! e = Some ev0 ∧ sum_of_ratings ev = sum_of_ratings ev0 ∧
     count_of_ratings ev = count_of_ratings ev0) ∨
     (ev_events db !! e = None ∧ sum_of_ratings ev = 0 ∧ count_of_ratings ev = 0)) →
  (∀ e, is_Some (ev_events db !! e) → is_Some (m !! e)) →
  ratings_ok (db ⟨ ev_events := m ⟩).
Proof.
  intros [Ht Hr] Hm Hs. split.
  - intros e ev He. change (ratings_of (db ⟨ ev_events := m ⟩) e) with (ratings_of db e).
    destruct (Hm e ev He) as [(ev0 & H0 & -> & ->)|(Hn & -> & ->)]; [by apply Ht|].
    rewrite (ratings_none db e); [done|]. intros t row Hrow. destruct (Hr _ _ _ Hrow) as (_ & [? ?] & _). congruence.
  - intros e t row Hrow. destruct (Hr e t row Hrow) as (? & ? & ?). split_and!; [lia..|by apply Hs|done].
Qed.
Lemma ratings_ok_frame db db' : ratings_ok db → ev_events db' = ev_events db → ev_ratings db' = ev_ratings db →
  ev_tickets db' = ev_tickets db → ev_tiers db' = ev_tiers db → keeps db db' ∧ ratings_ok db'.
Proof.
  intros [Ht Hr] He Hra Hti Htr. split; [by split; [..|rewrite Hra]|]. split.
  - intros e ev. rewrite He. unfold ratings_of. rewrite Hra. apply Ht.
  - intros e t row. rewrite Hra, He. unfold attended. rewrite Hti, Htr. apply Hr.
Qed.
Lemma commit_ok db e t rating review now event : ratings_ok db → attended db t e → 1 ≤ rating ≤ 5 →
  ev_ratings db !! (e, t) = None → ev_events db !! e = Some event → count_of_ratings event ≠ 2 ^ 31 - 1 →
  let event' := event ⟨ sum_of_ratings ::= Z.add rating ⟩ ⟨ count_of_ratings ::= Z.add 1 ⟩ in
  let db' := db ⟨ ev_ratings ::= <[(e, t) := MkRatingRow rating review now]> ⟩ ⟨ ev_events ::= <[e := event']> ⟩ in
  keeps db db' ∧ ratings_ok db'.
Proof.
  intros [Ht Hr] Ha Hrat Hn He Hmax event' db'. set (row := MkRatingRow rating review now) in *. split.
  { split; [done|done|]. intros k row' Hk. cbn. rewrite lookup_insert_ne; [done|]. intros <-. congruence. }
  split.
  - intros e' ev. change (ev_events db') with (<[e := event']> (ev_events db)). intros [[<- <-]|[Hne He']]%lookup_insert_Some.
    + destruct (Ht e event He) as (Hs & Hc & Hlt). rewrite (ratings_insert_eq db db' e t row) by done.
      change (total_of (row :: ?l)) with (rating + total_of l). cbn [length].
      change (sum_of_ratings event') with (rating + sum_of_ratings event). change (count_of_ratings event') with (1 + count_of_ratings event). lia.
    + rewrite (ratings_insert_ne db db' e e' t row) by done. by apply Ht.
  - intros e' t' row'. change (ev_ratings db') with (<[(e, t) := row]> (ev_ratings db)).
    change (ev_events db') with (<[e := event']> (ev_events db)).
    intros [[[= <- <-] <-]|[Hne Hrow]]%lookup_insert_Some.
    + split; [done|]. rewrite lookup_insert_eq. split; [by eexists|done].
    + destruct (Hr _ _ _ Hrow) as (H1 & H2 & H3). split_and!; [lia..| |done].
      destruct (decide (e = e')) as [<-|]; [rewrite lookup_insert_eq; by eexists|by rewrite lookup_insert_ne].
Qed.
Lemma alter_ok db f e : ratings_ok db →
  (∀ ev, sum_of_ratings (f ev) = sum_of_ratings ev ∧ count_of_ratings (f ev) = count_of_ratings ev) →
  keeps db (db ⟨ ev_events ::= alter f e ⟩) ∧ ratings_ok (db ⟨ ev_events ::= alter f e ⟩).
Proof.
  intros Hok Hf. split; [done|]. apply (ratings_ok_events db (alter f e (ev_events db))); [done| |].
  - intros e' ev'. destruct (decide (e = e')) as [<-|Hne].
    + rewrite lookup_alter_eq. intros (ev & Hev & ->)%fmap_Some. left. exists ev. destruct (Hf ev) as [-> ->]. done.
    + rewrite lookup_alter_ne by done. intros Hev. left. by exists ev'.
  - intros e' [ev Hev]. destruct (decide (e = e')) as [<-|Hne]; [rewrite lookup_alter_eq, Hev|rewrite lookup_alter_ne, Hev by done]; by eexists.
Qed.
Lemma ev_exec_ok env R (c : ev_cmd R) r db db' :
  may_commit c db → ratings_ok db → ev_exec env c db = Some (r, db') → keeps db db' ∧ ratings_ok db'.
Proof.
  intros Hc Hok He. destruct c; cbn in He; simplify_eq; try by apply ratings_ok_frame.
  - destruct (e_slugs env); simplify_eq; [done|]. destruct (event_checks payload); simplify_eq/=; [|done].
    case_decide as Hu; simplify_eq; [done|]. case_decide; simplify_eq; [done|].
    set (ev := new_event env payload).
    destruct (ratings_ok_frame (db ⟨ ev_events := <[e_uuid env := ev]> (ev_events db) ⟩)
      (db ⟨ ev_events ::= <[e_uuid env := ev]> ⟩ ⟨ ev_host_email ::= partial_alter (λ _, ce_host_email payload) (e_uuid env) ⟩)) as [_ Hr]; [|done..|].
    + apply ratings_ok_events; [done| |].
      * intros e' ev' [[<- <-]|[? ?]]%lookup_insert_Some; [right; split_and!; [by apply eq_None_not_Some|done|done]|left; by exists ev'].
      * intros e' Hs. destruct (decide (e_uuid env = e')) as [<-|]; [rewrite lookup_insert_eq; by eexists|by rewrite lookup_insert_ne].
    + split; [done|done].
  - case_decide; simplify_eq; [done|]. destruct (insert_translations _ _ _); simplify_eq; [|done]. by apply ratings_ok_frame.
  - case_decide; [|done]. by apply ratings_ok_frame.
  - destruct ((1 <=? rating) && (rating <=? 5)) eqn:Hrat; simplify_eq/=; [|done]. bool_props.
    case_decide as Hu; simplify_eq; [done|]. case_decide; simplify_eq; [done|].
    destruct (ev_events db !! event) as [ev|] eqn:Hev; simplify_eq; [|done]. destruct (Z.eqb_spec (count_of_ratings ev) (2 ^ 31 - 1)); simplify_eq; [done|].
    apply commit_ok; [done|done|lia|by apply eq_None_not_Some|done|done].
  - by apply alter_ok.
  - by apply alter_ok.
Qed.

(** ** Requests among others *)
Abbreviation ev_safe := (safe ev_step_at keeps ratings_ok).
Section Requests.
Context `{Sha256}.
Variable to_lowercase : string → string.
Variable json_bytes : Json → bytes.
Variable datetime_last : Z.

(** Commands that need nothing. *)
Definition harmless R (c : ev_cmd R) : Prop := match c with CommitRating _ _ _ _ => False | _ => True end.
Lemma harmless_safe {A} (p : ev_prog A) w : only harmless p → ev_safe p w.
Proof. apply safe_only. intros v R c w1 r w2 Hc I1 Hs. apply (ev_exec_ok v R c r w1 w2); [by destruct c|done|done]. Qed.
Lemma safe_harmless {A R} e (c : ev_cmd R) (k : R → ev_prog A) w : harmless R c →
  (∀ w1 v r w2, keeps w w1 → ev_exec v c w1 = Some (r, w2) → keeps w w2 → ev_safe (k r) w2) → ev_safe (call_or e c k) w.
Proof.
  intros Hc Hk. apply safe_call_or. intros w1 v r w2 H1 I1 Hs.
  destruct (ev_exec_ok v R c r w1 w2) as [H2 I2]; [by destruct c|done|done|]. split_and!; [done|done|].
  eapply Hk; [done|exact Hs|by etrans].
Qed.
Ltac ret_step := apply safe_bind_ret; intros ? ?.
Ltac read_step := apply safe_harmless; [done|]; intros ? ? ? ? ? ? ?.
Lemma submit_safe e payload w : ev_safe (submit_event_rating e payload) w.
Proof.
  unfold submit_event_rating. ret_step. apply safe_harmless; [done|]. intros w1 v found w1' H1 Hs Hk1. cbn in Hs. simplify_eq.
  apply safe_bind_ret. intros [status te] Hticket%ok_or_Ok. read_step. ret_step. ret_step. ret_step.
  assert (Ha : attended w1' (sr_ticket_id payload) e).
  { run_all. destruct (ev_tickets w1' !! _) as [ticket|] eqn:Ht; [|done]. apply fmap_Some in Hticket as (row & Hrow & [= -> ->]).
    apply bind_Some in Hrow as (tier & Htier & Hrow). cbn [fst snd] in *. exists ticket, tier, row.
    split_and!; [done|by apply String.eqb_eq|done|done|lia]. }
  read_step. ret_step. read_step. ret_step. read_step. ret_step.
  apply safe_call_or. intros w8 v8 r8 w9 Hr8 I8 Hx8.
  unfold ev_step_at in Hx8. eapply ev_exec_ok in Hx8 as [Hk9 I9]; [| |done].
  2: { apply (keeps_attended w1'); [|done]. by repeat (etrans; [eassumption|]). }
  split_and!; [done|done|]. ret_step. ret_step. apply harmless_safe. unfold attempt. only_tac; exact I.
Qed.
(** A request to any of the endpoints. *)
Inductive ev_request : prog ev_cmd AppError unit → Prop :=
| ReqCreate payload : ev_request (forget (create_event to_lowercase json_bytes datetime_last payload))
| ReqGet event tiers locale : ev_request (forget (get_event to_lowercase event tiers locale))
| ReqRate event payload : ev_request (forget (submit_event_rating event payload))
| ReqRatings checks event page : ev_request (forget (list_event_ratings checks event page))
| ReqSummary event : ev_request (forget (get_ratings_summary event))
| ReqToggle event : ev_request (forget (toggle_event_flag event))
| ReqFlag event flagged : ev_request (forget (flag_event event flagged))
| ReqFeature event featured : ev_request (forget (set_event_featured event featured))
| ReqCounts : ev_request (forget get_event_counts)
| ReqTiers event : ev_request (forget (list_ticket_tiers event))
| ReqUpcoming limit : ev_request (forget (list_upcoming_events limit))
| ReqCheckins event : ev_request (forget (get_checkin_stats event))
| ReqTickets checks event page : ev_request (forget (list_event_tickets checks event page))
| ReqAttendees event : ev_request (forget (get_attendee_count event))
| ReqShare base event : ev_request (forget (get_event_share_link base event))
| ReqProof event : ev_request (forget (get_event_social_proof event))
| ReqOrganizer event : ev_request (forget (get_event_organizer event)).
Lemma request_safe_ev p w : ev_request p → ev_safe p w.
Proof.
  destruct 1; apply safe_forget; [|apply harmless_safe|apply submit_safe|apply harmless_safe..].
  1: apply harmless_safe.
  all: unfold create_event, store_event, get_event, fetch_detail, organizer_profile_of, insert_event_translations, list_event_ratings,
    get_ratings_summary, toggle_event_flag, flag_event, set_event_featured, get_event_counts, list_ticket_tiers,
    list_upcoming_events, get_checkin_stats, list_event_tickets, get_attendee_count, get_event_share_link,
    get_event_social_proof, get_event_organizer, attempt.
  all: only_tac; exact I.
Qed.

(** C21. Ratings add up.  Start from sound tables (without ratings, say) and let
    requests to any of these endpoints come at any time, their statements
    interleaving in any order and getting lost.  At every moment: the two
    aggregates of every event are the number and the sum of the ratings stored
    for it, and fit their columns; every rating has one to five stars and comes
    from a ticket of that event that was scanned; a ticket has rated at most once,
    over all events; and no rating disappears or changes. *)
Theorem ratings_exact db tasks db' :
  ratings_ok db → rtc (pool_step ev_step_at ev_request) ([], db) (tasks, db') →
  ratings_ok db' ∧ keeps db db' ∧
  ∀ e e' t r r', ev_ratings db' !! (e, t) = Some r → ev_ratings db' !! (e', t) = Some r' → e = e'.
Proof.
  intros Hok Hr. apply (pool_safe ev_step_at keeps ratings_ok) in Hr as (Hg & Hi & _); [|apply _| |done|constructor].
  2: { intros p w Hp. by apply request_safe_ev. }
  split_and!; [done|done|]. intros e e' t r r' H1 H2. destruct (rows_ok db' Hi _ _ _ H1) as (_ & _ & ticket & tier & row & Ht & _ & Htier & Hrow & <-).
  destruct (rows_ok db' Hi _ _ _ H2) as (_ & _ & ticket' & tier' & row' & Ht' & _ & Htier' & Hrow' & <-). cbn in *. congruence.
Qed.
End Requests.

(** ** The summary of the ratings *)
Lemma pick_one (g : Z → Z) x ks : NoDup ks → x ∈ ks →
  foldr (λ r acc, (if decide (x = r) then g r else 0) + acc) 0 ks = g x.
Proof.
  assert (Hno : ∀ l, x ∉ l → foldr (λ r acc, (if decide (x = r) then g r else 0) + acc) 0 l = 0).
  { induction l as [|y l IH]; [done|]. intros Hx. cbn [foldr]. rewrite decide_False by set_solver. rewrite IH by set_solver. done. }
  induction 1 as [|y ks Hy _ IH]; [set_solver|]. intros Hx. cbn [foldr]. destruct (decide (x = y)) as [->|Hne].
  - rewrite Hno by done. lia.
  - rewrite IH by set_solver. done.
Qed.
Lemma count_of_cons r x l : count_of r (x :: l) = (if decide (rt_rating x = r) then 1 else 0) + count_of r l.
Proof. unfold count_of. rewrite filter_cons. destruct (decide _); cbn [length]; lia. Qed.
(** Counting by rating counts everything once. *)
Lemma weighted_counts (g : Z → Z) ks l : NoDup ks → (∀ x, x ∈ l → rt_rating x ∈ ks) →
  foldr (λ r acc, g r * count_of r l + acc) 0 ks = foldr (λ x acc, g (rt_rating x) + acc) 0 l.
Proof.
  intros Hn. induction l as [|x l IH]; intros Hl.
  { cbn [foldr]. induction ks as [|k ks IHk]; [done|]. apply NoDup_cons in Hn as [_ Hn]. cbn [foldr]. rewrite IHk by (done || set_solver).
    unfold count_of. cbn. lia. }
  cbn [foldr]. rewrite <- IH by set_solver. rewrite <- (pick_one g (rt_rating x) ks Hn) by set_solver.
  clear. induction ks as [|k ks IHk]; [done|]. cbn [foldr]. rewrite IHk, count_of_cons. destruct (decide _); lia.
Qed.
Lemma grouped_sums l :
  foldr (λ p acc, p.2 + acc) 0 (grouped l) = Z.of_nat (length l) ∧
  foldr (λ p acc, p.1 * p.2 + acc) 0 (grouped l) = total_of l.
Proof.
  unfold grouped. set (ks := merge_sort Z.le (remove_dups (map rt_rating l))).
  assert (Hn : NoDup ks) by (unfold ks; rewrite merge_sort_Permutation; apply NoDup_remove_dups).
  assert (Hall : ∀ x, x ∈ l → rt_rating x ∈ ks).
  { intros x Hx. unfold ks. rewrite merge_sort_Permutation, elem_of_remove_dups. by apply list_elem_of_fmap_2. }
  split.
  - transitivity (foldr (λ r acc, 1 * count_of r l + acc) 0 ks).
    { clear. induction ks as [|k ks IH]; [done|]. cbn [map foldr fst snd]. rewrite IH. lia. }
    rewrite (weighted_counts (λ _, 1)) by done. clear. induction l as [|x l IH]; [done|]. cbn [foldr length]. lia.
  - transitivity (foldr (λ r acc, r * count_of r l + acc) 0 ks).
    { clear. induction ks as [|k ks IH]; [done|]. cbn [map foldr fst snd]. by rewrite IH. }
    by rewrite (weighted_counts (λ r, r)).
Qed.
Lemma foldl_insert_out {A} (f : A → string) (g : A → Z) (m : gmap string Z) l k : (∀ x, x ∈ l → f x ≠ k) →
  foldl (λ m x, <[f x := g x]> m) m l !! k = m !! k.
Proof.
  revert m. induction l as [|x l IH]; intros m Hk; [done|]. cbn [foldl]. rewrite IH by set_solver.
  apply lookup_insert_ne. set_solver.
Qed.
Lemma foldl_insert_in {A} (f : A → string) (g : A → Z) (m : gmap string Z) l x : NoDup (map f l) → x ∈ l →
  foldl (λ m x, <[f x := g x]> m) m l !! f x = Some (g x).
Proof.
  revert m. induction l as [|y l IH]; intros m Hn Hx; [set_solver|]. cbn [map] in Hn. apply NoDup_cons in Hn as [Hy Hn].
  cbn [foldl]. apply elem_of_cons in Hx as [->|Hx]; [|by apply IH].
  rewrite foldl_insert_out; [apply lookup_insert_eq|]. intros z Hz Heq. apply Hy. rewrite <- Heq. by apply list_elem_of_fmap_2.
Qed.
Lemma distribution_exact l r : (∀ x, x ∈ l → 1 ≤ rt_rating x ≤ 5) → 1 ≤ r ≤ 5 →
  rs_distribution (summary_of (grouped l)) !! pretty r = Some (count_of r l).
Proof.
  intros Hl Hr. cbn [summary_of rs_distribution]. set (m := foldl _ ∅ (seqZ 1 5)).
  assert (Hm : m !! pretty r = Some 0).
  { apply (foldl_insert_in pretty (λ _, 0) ∅ (seqZ 1 5) r); [|apply elem_of_seqZ; lia]. apply (NoDup_fmap_2 pretty), NoDup_seqZ. }
  unfold grouped. set (ks := merge_sort Z.le (remove_dups (map rt_rating l))).
  destruct (decide (r ∈ ks)) as [Hin|Hout].
  - apply (foldl_insert_in (λ p : Z * Z, pretty p.1) snd m (map (λ r, (r, count_of r l)) ks) (r, count_of r l)).
    + rewrite map_map. apply (NoDup_fmap_2 pretty). unfold ks. rewrite merge_sort_Permutation. apply NoDup_remove_dups.
    + by apply (list_elem_of_fmap_2 (λ r, (r, count_of r l))).
  - rewrite (foldl_insert_out (λ p : Z * Z, pretty p.1) snd), Hm.
    + f_equal. symmetry. unfold count_of. replace (filter _ l) with (@nil RatingRow); [done|]. symmetry.
      destruct (filter _ l) as [|x l'] eqn:Hf; [done|]. exfalso. apply Hout.
      assert (Hx : x ∈ filter (λ row, rt_rating row = r) l) by (rewrite Hf; left). apply list_elem_of_filter in Hx as [<- Hx].
      unfold ks. rewrite merge_sort_Permutation, elem_of_remove_dups. by apply list_elem_of_fmap_2.
    + intros [k c] Hk Heq. apply list_elem_of_fmap in Hk as (k' & [= -> ->] & Hk). apply (inj pretty) in Heq. cbn in Heq. by subst.
Qed.
(** ** Endpoints alone *)
Definition ev_run {A} (env : EvEnv) (p : ev_prog A) (db : EventDb) : res AppError A * EventDb :=
  prun (λ R c, ev_exec env c) p db.
Lemma ratings_of_elem db e x : x ∈ ratings_of db e → ∃ t, ev_ratings db !! (e, t) = Some x.
Proof.
  unfold ratings_of. intros ([[e' t] row] & -> & Hin)%list_elem_of_fmap. apply list_elem_of_filter in Hin as [He Hin].
  cbn in He. subst. exists t. by apply elem_of_map_to_list in Hin.
Qed.
Lemma total_of_bounds l : (∀ x, x ∈ l → 1 ≤ rt_rating x ≤ 5) → Z.of_nat (length l) ≤ total_of l ≤ 5 * Z.of_nat (length l).
Proof.
  intros Hl. induction l as [|x l IH]; [done|]. change (total_of (x :: l)) with (rt_rating x + total_of l). cbn [length].
  specialize (Hl x ltac:(left)) as Hx. specialize (IH ltac:(set_solver)). lia.
Qed.
Lemma quotient_between a b lo hi : Z.abs a ≤ 2 ^ 53 → 0 < b ≤ 2 ^ 53 → Z.abs lo ≤ 2 ^ 53 → Z.abs hi ≤ 2 ^ 53 →
  lo * b ≤ a ≤ hi * b → (inject_Z lo <= fdiv (of_int a) (of_int b) <= inject_Z hi)%Q.
Proof.
  intros Ha Hb Hlo Hhi [H1 H2]. unfold fdiv.
  assert (Hq : (of_int a / of_int b == inject_Z a / inject_Z b)%Q) by (unfold of_int; rewrite !rnd_Z by lia; reflexivity).
  assert (Hpos : (0 < inject_Z b)%Q) by (rewrite <- (Zlt_Qlt 0); lia).
  split; [apply rnd_ge_Z|apply rnd_le_Z]; [done| |done|]; rewrite Hq;
    [apply Qle_shift_div_l|apply Qle_shift_div_r]; [done| |done|]; by rewrite <- inject_Z_mult, <- Zle_Qle.
Qed.

(** The summary agrees with the event.  With sound tables and nothing cached,
    [get_ratings_summary] of a visible event answers with: as total, the number
    of ratings that the event's own aggregate says; for each of one to five stars,
    how many ratings gave it; and as average the quotient of the event's
    aggregates in doubles, between one and five once there is a rating, else
    zero. *)
Theorem summary_exact env event ev db : ratings_ok db → visible db event = Some ev → summary_cache db !! event = None →
  ∃ summary db', ev_run env (get_ratings_summary event) db = (Ok summary, db') ∧
    rs_total summary = count_of_ratings ev ∧
    (∀ r, 1 ≤ r ≤ 5 → rs_distribution summary !! pretty r = Some (count_of r (ratings_of db event))) ∧
    (count_of_ratings ev = 0 → rs_average summary = 0%Q) ∧
    (0 < count_of_ratings ev →
     rs_average summary = fdiv (of_int (sum_of_ratings ev)) (of_int (count_of_ratings ev)) ∧
     (1 <= rs_average summary <= 5)%Q).
Proof.
  intros [Ht Hr] Hv Hc. assert (He : ev_events db !! event = Some ev).
  { unfold visible in Hv. destruct (ev_events db !! event) as [e|]; [|done]. destruct (is_flagged e); congruence. }
  destruct (Ht event ev He) as (Hs & Hn & Hmax).
  assert (Hl : ∀ x, x ∈ ratings_of db event → 1 ≤ rt_rating x ≤ 5).
  { intros x [t Hx]%ratings_of_elem. by destruct (Hr _ _ _ Hx) as [? _]. }
  destruct (grouped_sums (ratings_of db event)) as [Htot Hw]. pose proof (total_of_bounds _ Hl) as Hb. rewrite <- Hs, <- Hn in *.
  exists (summary_of (grouped (ratings_of db event))). eexists. split_and!.
  - unfold ev_run, get_ratings_summary, attempt. cbn [prun ev_exec]. rewrite Hc. cbn [call_or prun ev_exec]. rewrite Hv. done.
  - done.
  - intros r Hr5. by apply distribution_exact.
  - intros H0. cbn [summary_of rs_average]. rewrite Htot, H0. done.
  - intros Hpos. cbn [summary_of rs_average]. rewrite Htot, Hw. destruct (Z.ltb_spec 0 (count_of_ratings ev)); [|lia].
    split; [done|]. apply (quotient_between _ _ 1 5); lia.
Qed.

(** ** Reading an event among others *)
Definition ev_step (db db' : EventDb) : Prop := ∃ env R (c : ev_cmd R) r, ev_exec env c db = Some (r, db').
Abbreviation ev_among := (behaves ev_step_at (rtc ev_step)).
Lemma ev_reach {A} (p : ev_prog A) w out w' : ev_among p w out w' → rtc ev_step w w'.
Proof. apply behaves_reach; [apply _|]. intros v R c d r d' He. apply rtc_once. by exists v, R, c, r. Qed.
(** What was written does not read back: two fields are missing. *)
Lemma cache_unreadable : reads_back = false.
Proof. by vm_compute. Qed.
Lemma fetch_detail_inv e tiers db d db' : ev_among (fetch_detail e tiers) db (Ok d) db' →
  ∃ dbm, rtc ev_step db dbm ∧ visible dbm e = Some (ed_event d).
Proof.
  unfold fetch_detail. intros Hb. read Hb. apply behaves_ret in Hb as (row & Hrow%ok_or_Ok & Hb).
  apply behaves_bind in Hb as (profile & d1 & _ & Hb). apply behaves_bind in Hb as (ts & d2 & _ & Hb).
  apply behaves_done in Hb as [[= <-] ->]. by exists d0.
Qed.
Lemma localise_event d l loc t : ed_event (localise t d l loc) = apply_translation t (ed_event d) l loc.
Proof. by destruct l. Qed.

(** An event is never shown from the cache, so never as it was before.  Whatever
    other requests do meanwhile, [get_event] shows the row of the event as it was
    at some moment of the request, not flagged then, under the translation it
    picks; whatever entries the cache has. *)
Theorem get_event_current to_lowercase e tiers locale db d db' :
  ev_among (get_event to_lowercase e tiers locale) db (Ok d) db' →
  ∃ dbm row translations, rtc ev_step db dbm ∧ visible dbm e = Some row ∧
    ed_event d = apply_translation to_lowercase row translations locale.
Proof.
  unfold get_event. intros Hb. apply behaves_bind in Hb as (cached & d1 & H1 & Hb). apply behaves_bind in Hb as (detail & d2 & H2 & Hb).
  assert (Hc : cached = None).
  { destruct tiers; [by apply behaves_done in H1 as [[= <-] _]|]. destruct H1 as (v & w1 & _ & [[[= <-] _]|(r & w2 & Hs & [[[= <-] _]|[[= <-] _]])]); [done| |done].
    unfold ev_step_at in Hs. cbn [ev_exec] in Hs. rewrite cache_unreadable in Hs. by simplify_eq. }
  subst cached. apply behaves_bind in H2 as (d0 & d3 & Hf & H3). apply ev_reach in H1.
  apply fetch_detail_inv in Hf as (dbm & Hr & Hv). assert (Hd : detail = d0).
  { destruct tiers; [by apply behaves_done in H3 as [[= <-] _]|]. by destruct H3 as (v & w1 & _ & [[[= <-] _]|(r & w2 & _ & [[[= <-] _]|[[= <-] _]])]). }
  subst detail. destruct Hb as (v & w1 & _ & [[[= <-] _]|(r & w2 & _ & [[[= <-] _]|[[= <-] _]])]);
    [exists dbm, (ed_event d0), []|exists dbm, (ed_event d0), r|exists dbm, (ed_event d0), []];
    (split_and!; [by etrans|done|first [apply localise_event|reflexivity]]).
Qed.

(** ** Creating an event *)
(** The check that can only pass or report a validation error. *)
Definition refuses (r : res AppError unit) : Prop := r = Ok tt ∨ ∃ m, r = Err (ValidationError m).
Lemma refuses_fail b m : refuses (fail_if b (ValidationError m)).
Proof. destruct b; [right; by eexists|by left]. Qed.
Lemma refuses_then a b : refuses a → refuses b → refuses (do! a in b).
Proof. by intros [->|[m ->]] Hb; [|right; eexists]. Qed.
Lemma refuses_ok : refuses (Ok tt).
Proof. by left. Qed.
Lemma refuses_opt {A} (f : A → res AppError unit) o : (∀ a, refuses (f a)) → refuses (validate_opt f o).
Proof. destruct o; [intros H; apply H|intros; apply refuses_ok]. Qed.
Create HintDb refusal.
#[local] Hint Resolve refuses_fail refuses_then refuses_ok refuses_opt : refusal.
Lemma refuses_each t seen l : refuses (validate_each t seen l).
Proof.
  revert seen. induction l as [|x l IH]; intros seen; [by left|]. cbn [validate_each].
  apply refuses_then; [auto with refusal|]. apply refuses_then; [|apply IH].
  unfold validate_translation. repeat (apply refuses_then; [auto with refusal|]). auto with refusal.
Qed.
Lemma refuses_coordinates lat lng : refuses (validate_event_coordinates lat lng).
Proof. destruct lat, lng; cbn [validate_event_coordinates]; auto with refusal; right; by eexists. Qed.
Lemma refuses_timestamps last now s e : s + 300000 ≤ last → refuses (validate_event_timestamps last now s e).
Proof.
  intros Hs. unfold validate_event_timestamps. change (1000 * START_TIME_GRACE_PERIOD_SECONDS) with 300000.
  destruct (Z.ltb_spec last (s + 300000)); [lia|]. destruct e; auto with refusal.
Qed.
(** A request whose start plus five minutes is a date is accepted or refused. *)
Lemma refuses_create t last now p : ce_start_time p + 300000 ≤ last → refuses (validate_create_event t last now p).
Proof.
  intros Hs. unfold validate_create_event, validate_image_url, validate_event_location, validate_event_title,
    validate_event_description, validate_translations.
  repeat apply refuses_then; auto using refuses_coordinates, refuses_timestamps, refuses_each with refusal.
  destruct (ce_description p); auto with refusal.
Qed.
(** What passes the checks of the handler meets the constraints of the table. *)
Lemma validated_checks t last now p : validate_create_event t last now p = Ok tt → event_checks p = true.
Proof.
  unfold validate_create_event. intros Hv. run Hv. unfold event_checks. rewrite !andb_true_iff. split_and!.
  - unfold validate_event_timestamps in E3. destruct (last <? _); [done|]. destruct (ce_end_time p); [|done]. run E3. lia.
  - unfold validate_event_description in E4. destruct (ce_description p); [|done]. run E4. unfold MAX_EVENT_DESCRIPTION_LENGTH in E4. lia.
  - unfold validate_event_coordinates in E5. destruct (ce_latitude p), (ce_longitude p); try done. by run E5.
  - unfold validate_event_coordinates in E5. destruct (ce_latitude p), (ce_longitude p); try done. by run E5.
Qed.
Lemma insert_translations_all e rows m : NoDup (map et_locale rows) → (∀ x, x ∈ rows → m !! (e, et_locale x) = None) →
  ∃ m', insert_translations e rows m = Some m' ∧ (∀ x, x ∈ rows → m' !! (e, et_locale x) = Some x) ∧
    ∀ k, (∀ x, x ∈ rows → k ≠ (e, et_locale x)) → m' !! k = m !! k.
Proof.
  unfold insert_translations. revert m. induction rows as [|y rows IH]; intros m Hn Hm; [exists m; by split_and!; [|set_solver|]|].
  cbn [map] in Hn. apply NoDup_cons in Hn as [Hy Hn]. cbn [foldl]. cbn [mbind option_bind].
  rewrite decide_False by (rewrite Hm; [by intros [? [=]]|left]).
  assert (Hne : ∀ x, x ∈ rows → (e, et_locale y) ≠ (e, et_locale x)).
  { intros x Hx [= Heq]. apply Hy. rewrite Heq. by apply list_elem_of_fmap_2. }
  destruct (IH (<[(e, et_locale y) := y]> m) Hn) as (m' & Hi & Hin & Hout).
  { intros x Hx. rewrite lookup_insert_ne by auto. apply Hm. by right. }
  exists m'. split_and!; [done| |].
  - intros x [->|Hx]%elem_of_cons; [|auto]. rewrite Hout by auto. apply lookup_insert_eq.
  - intros k Hk. rewrite Hout by (intros x Hx; apply Hk; by right). apply lookup_insert_ne. intros <-. by apply (Hk y); [left|].
Qed.
(** What a request must be, a field at a time. *)
Record valid_translation (t : EventTranslationInput) : Prop := {
  vt_locale : let l := trim (ti_locale t) in
    l ≠ "" ∧ Z.of_nat (length (as_bytes l)) ≤ 20 ∧ ∀ b, b ∈ as_bytes l → locale_byte b = true;
  vt_title : blank (ti_title t) = false ∧ chars_count (ti_title t) ≤ 500;
  vt_description d : ti_description t = Some d → chars_count d ≤ 10000
}.
Record valid_event (to_lowercase : string → string) (now : Z) (p : CreateEventRequest) : Prop := {
  ve_image url : ce_image_url p = Some url →
    Z.of_nat (length (as_bytes url)) ≤ 2048 ∧ ∃ rest, url = "https://" +:+ rest ∧ rest ≠ "" ∧ starts_with "/" rest = false;
  ve_location : blank (ce_location p) = false ∧ chars_count (ce_location p) ≤ 500;
  ve_email m : ce_host_email p = Some m → is_valid_email m = true;
  ve_title : blank (ce_title p) = false ∧ chars_count (ce_title p) ≤ 200;
  ve_start : now ≤ ce_start_time p + 300000;
  ve_end e : ce_end_time p = Some e → ce_start_time p < e ≤ ce_start_time p + 30 * 86400000;
  ve_description d : ce_description p = Some d → chars_count d ≤ 10000;
  ve_coordinates : match ce_latitude p, ce_longitude p with
                   | None, None => True
                   | Some lat, Some lng => (-90 <= lat <= 90 ∧ -180 <= lng <= 180)%Q
                   | _, _ => False
                   end;
  ve_translations l : ce_translations p = Some l →
    (length l ≤ 20)%nat ∧ (∀ t, t ∈ l → valid_translation t) ∧
    NoDup (map (λ t, to_lowercase (trim (ti_locale t))) l)
}.
Lemma then_ok (a b : res AppError unit) : (do! a in b) = Ok tt ↔ a = Ok tt ∧ b = Ok tt.
Proof. destruct a as [[]| |]; cbn; split; try (by intros [? ?]); done. Qed.
Lemma fail_ok b (m : AppError) : fail_if b m = Ok tt ↔ b = false.
Proof. by destruct b. Qed.
Lemma opt_ok {A} (f : A → res AppError unit) o : validate_opt f o = Ok tt ↔ ∀ a, o = Some a → f a = Ok tt.
Proof. destruct o; cbn; split; [by intros ? ? [= <-]|intros H; by apply H|done|done]. Qed.
Lemma within_range_spec lo hi x : within_range lo hi x = true ↔ (lo <= x <= hi)%Q.
Proof. unfold within_range. by rewrite andb_true_iff, !Qle_bool_iff. Qed.
Lemma image_ok url : validate_image_url url = Ok tt ↔
  Z.of_nat (length (as_bytes url)) ≤ 2048 ∧ ∃ rest, url = "https://" +:+ rest ∧ rest ≠ "" ∧ starts_with "/" rest = false.
Proof.
  unfold validate_image_url. rewrite then_ok, !fail_ok, Z.ltb_ge. apply and_iff_compat_l.
  rewrite negb_false_iff. destruct (strip_prefix "https://" url) as [rest|] eqn:E.
  - apply strip_prefix_Some in E as ->. rewrite andb_true_iff, !negb_true_iff, String.eqb_neq. split; [by exists rest|].
    intros (r & [= ->]%(inj (String.append "https://")) & ?). done.
  - split; [done|]. intros (r & Hr & _). apply strip_prefix_Some in Hr. congruence.
Qed.
Lemma translation_ok t : validate_translation t = Ok tt ↔ valid_translation t.
Proof.
  unfold validate_translation. rewrite !then_ok, !fail_ok, orb_false_iff, String.eqb_neq, !Z.ltb_ge, negb_false_iff, forallb_forall.
  assert (Hd : (match ti_description t with Some d => MAX_TRANSLATION_DESCRIPTION_LEN <? chars_count d | None => false end) = false
               ↔ ∀ d, ti_description t = Some d → chars_count d ≤ 10000).
  { destruct (ti_description t); [rewrite Z.ltb_ge|]; [|done]. split; [by intros ? ? [= <-]|intros H; by apply H]. }
  rewrite Hd. setoid_rewrite <- list_elem_of_In. split.
  - intros ([? ?] & ? & ? & ? & ?). by split.
  - intros [(? & ? & ?) [? ?] ?]. by split_and!.
Qed.
Lemma each_ok t seen l : validate_each t seen l = Ok tt ↔
  (∀ x, x ∈ l → valid_translation x) ∧ NoDup (map (λ x, t (trim (ti_locale x))) l) ∧
  ∀ x, x ∈ l → t (trim (ti_locale x)) ∉ seen.
Proof.
  revert seen. induction l as [|y l IH]; intros seen; [split; [intros _; split_and!; [set_solver|apply NoDup_nil_2|set_solver]|done]|].
  cbn [validate_each]. rewrite !then_ok, fail_ok, translation_ok, IH, bool_decide_eq_false. cbn [map]. rewrite NoDup_cons.
  rewrite (list_elem_of_fmap (λ x, t (trim (ti_locale x)))). set_solver.
Qed.
Lemma end_ok s e :
  match e with
  | Some e =>
      do! fail_if (e <=? s) (ValidationError "end_time must be strictly after start_time") in
      fail_if (MAX_EVENT_DURATION_DAYS * 86400000 <? e - s) (ValidationError "event duration must not exceed 30 days")
  | None => Ok tt
  end = Ok tt ↔ ∀ t, e = Some t → s < t ≤ s + 30 * 86400000.
Proof.
  destruct e as [t|]; [|done]. rewrite then_ok, !fail_ok, Z.leb_gt, Z.ltb_ge. unfold MAX_EVENT_DURATION_DAYS.
  split; [intros ? ? [= <-]; lia|]. intros H. specialize (H t eq_refl). lia.
Qed.
Lemma description_ok o : validate_event_description o = Ok tt ↔ ∀ d, o = Some d → chars_count d ≤ 10000.
Proof.
  destruct o; [|done]. cbn [validate_event_description]. rewrite fail_ok, Z.ltb_ge.
  split; [by intros ? ? [= <-]|intros H; by apply H].
Qed.
Lemma coordinates_ok lat lng : validate_event_coordinates lat lng = Ok tt ↔
  match lat, lng with
  | None, None => True
  | Some lat, Some lng => (-90 <= lat <= 90 ∧ -180 <= lng <= 180)%Q
  | _, _ => False
  end.
Proof.
  destruct lat, lng; cbn [validate_event_coordinates]; try done. by rewrite then_ok, !fail_ok, !negb_false_iff, !within_range_spec.
Qed.
Lemma translations_ok t l :
  (do! fail_if (MAX_TRANSLATIONS_PER_EVENT <? length l)%nat (ValidationError "at most 20 translations are allowed per event") in
   validate_each t [] l) = Ok tt ↔
  (length l ≤ 20)%nat ∧ (∀ x, x ∈ l → valid_translation x) ∧ NoDup (map (λ x, t (trim (ti_locale x))) l).
Proof.
  rewrite then_ok, fail_ok, each_ok, Nat.ltb_ge. apply and_iff_compat_l. split; [by intros (? & ? & _)|].
  intros [? ?]. split_and!; [done|done|set_solver].
Qed.
(** The validators accept exactly the valid requests. *)
Lemma validate_create_ok t last now p : ce_start_time p + 300000 ≤ last →
  validate_create_event t last now p = Ok tt ↔ valid_event t now p.
Proof.
  intros Hs. unfold validate_create_event, validate_event_location, validate_event_title, validate_translations, validate_event_timestamps.
  change (1000 * START_TIME_GRACE_PERIOD_SECONDS) with 300000. destruct (Z.ltb_spec last (ce_start_time p + 300000)) as [|_]; [lia|].
  rewrite !then_ok, !fail_ok, !opt_ok, !Z.ltb_ge.
  setoid_rewrite image_ok. setoid_rewrite fail_ok. setoid_rewrite negb_false_iff.
  rewrite end_ok, description_ok, coordinates_ok. setoid_rewrite translations_ok. split.
  - intros (? & ? & ? & ? & [? ?] & ? & ? & ?). by split.
  - intros [? [? ?] ? [? ?] ? ? ? ? ?]. by split_and!.
Qed.

Lemma insert_translations_find e rows m : NoDup (map et_locale rows) → (∀ l, m !! (e, l) = None) →
  ∃ m', insert_translations e rows m = Some m' ∧
    ∀ k, m' !! k = match find (λ t, bool_decide (k = (e, et_locale t))) rows with Some t => Some t | None => m !! k end.
Proof.
  intros Hn Hm. destruct (insert_translations_all e rows m Hn (λ x _, Hm _)) as (m' & Hi & Hin & Hout). exists m'. split; [done|].
  intros k. destruct (find _ rows) as [t|] eqn:Hf.
  - apply find_some in Hf as [Ht%list_elem_of_In Hk%bool_decide_eq_true]. subst k. auto.
  - apply Hout. intros x Hx%list_elem_of_In ->. pose proof (find_none _ _ Hf x Hx) as Hk. cbn beta in Hk. by rewrite bool_decide_eq_true_2 in Hk.
Qed.
Lemma profile_run env o db : ∃ p, ev_run env (organizer_profile_of o) db = (Ok p, db).
Proof.
  unfold ev_run, organizer_profile_of, attempt. cbn [prun ev_exec]. destruct (ev_organizers db !! o) as [[w|]|]; by eexists.
Qed.
(** Storing the translations of a new event. *)
Lemma translations_run t env e input db : is_Some (ev_events db !! e) → (∀ l, ev_translations db !! (e, l) = None) →
  NoDup (map (λ x, t (trim (ti_locale x))) (default [] input)) →
  ∃ stored db', ev_run env (insert_event_translations t e input) db = (Ok stored, db') ∧
    (∀ k, ev_translations db' !! k =
       match find (λ t, bool_decide (k = (e, et_locale t))) (map (stored_translation t) (default [] input)) with
       | Some t => Some t
       | None => ev_translations db !! k
       end) ∧
    ev_events db' = ev_events db ∧ ev_ratings db' = ev_ratings db.
Proof.
  intros He Hk Hn. destruct input as [[|x l]|]; [by exists None, db| |by exists None, db]. cbn [default] in *.
  set (rows := map (stored_translation t) (x :: l)).
  destruct (insert_translations_find e rows (ev_translations db)) as (m' & Hi & Hm); [by unfold rows; rewrite map_map|done|].
  exists (Some rows), (db ⟨ ev_translations := m' ⟩). unfold ev_run, insert_event_translations, attempt. fold rows. cbn [prun ev_exec].
  rewrite decide_False by (destruct He as [? ->]; done). by rewrite Hi.
Qed.

Lemma store_event_run `{Sha256} t json env p db : e_slugs env = false → ev_events db !! e_uuid env = None →
  (∀ l, ev_translations db !! (e_uuid env, l) = None) → is_Some (ev_organizers db !! ce_organizer_id p) →
  event_checks p = true → NoDup (map (λ x, t (trim (ti_locale x))) (default [] (ce_translations p))) →
  let out := ev_run env (store_event t json p) db in
  out.1 = Ok (new_event env p) ∧ ev_events out.2 = <[e_uuid env := new_event env p]> (ev_events db) ∧
  (∀ k, ev_translations out.2 !! k =
     match find (λ t, bool_decide (k = (e_uuid env, et_locale t))) (map (stored_translation t) (default [] (ce_translations p))) with
     | Some t => Some t
     | None => ev_translations db !! k
     end) ∧
  ev_ratings out.2 = ev_ratings db ∧ list_cached out.2 = false.
Proof.
  intros Hs Hid Htr [w Ho] Hc Hn out. unfold out, ev_run, store_event. cbn [call_or prun ev_exec].
  rewrite Hs, Hc, decide_False by (by rewrite Hid; intros [? [=]]). rewrite decide_False by (by rewrite Ho). cbn [negb map_err bind].
  set (db1 := _ ⟨ ev_host_email ::= _ ⟩). rewrite prun_bind.
  destruct (translations_run t env (e_uuid env) (ce_translations p) db1) as (stored & db2 & Hr & Hk & He & Hra); [|done|done|].
  { unfold db1. cbn. rewrite lookup_insert_eq. by eexists. }
  unfold ev_run in Hr. change (id (new_event env p)) with (e_uuid env). rewrite Hr, prun_bind.
  destruct stored as [stored|]; unfold attempt; cbn [prun ev_exec]; rewrite prun_bind.
  - rewrite decide_True by (rewrite He; unfold db1; cbn; rewrite lookup_insert_eq; by eexists).
    destruct (profile_run env (organizer_id (new_event env p)) (db2 ⟨ ev_metadata_cid ::= <[e_uuid env := content_hash json
      (build_localised_metadata (e_uuid env) (title (new_event env p)) (description (new_event env p)) stored)]> ⟩)) as [pr Hp].
    unfold ev_run in Hp. rewrite Hp. by split_and!.
  - destruct (profile_run env (organizer_id (new_event env p)) db2) as [pr Hp]. unfold ev_run in Hp. rewrite Hp. by split_and!.
Qed.

(** Once the migration of the slugs is in, no event can be created: the column
    takes no null and the statement gives none. *)
Lemma create_blocked `{Sha256} t json last env p db e db' : e_slugs env = true →
  ev_run env (create_event t json last p) db ≠ (Ok e, db').
Proof.
  intros Hs. unfold ev_run, create_event. cbn [call_or prun ev_exec]. rewrite prun_bind. cbn [prun].
  destruct (validate_create_event t last (e_now env) p); try done. unfold store_event. cbn [call_or prun ev_exec]. by rewrite Hs.
Qed.
