(* ===== verification/SrvPricing.v ===== *)
(** * The server: price quotes

    [handlers/pricing.rs]: the prices of Dutch auctions and bonding curves in
    doubles, their series for charts, and the three endpoints with their cache.
    The key of a cache entry is the list of the fields that its text shows; how a
    double is shown, in full or with six decimals, is a parameter.  The theorems
    compare the quotes with the prices of the payment contract ([PayPricing]) and
    bound the age of a quote. *)

From Stdlib Require Import QArith Qround Qabs Lqa.
From S2P Require Import Prelude Machine Float Prog PayTypes PayPricing.
From S2P Require Import SrvErrors.
Import auction bonding_curve.
#[local] Open Scope Z_scope.

(** ** Conversions *)
(** [.round()], half away from zero. *)
Definition round_away (q : Q) : Z := if Qle_bool 0 q then Qfloor (q + (1 # 2)) else - Qfloor (- q + (1 # 2)).
Definition clamp (lo hi z : Z) : Z := Z.max lo (Z.min hi z).
(** [as i64] and the like, which saturate. *)
Definition as_i64 (z : Z) : Z := clamp (- 2 ^ 63) (2 ^ 63 - 1) z.
Definition as_u64 (z : Z) : Z := clamp 0 (2 ^ 64 - 1) z.
Definition as_u32 (z : Z) : Z := clamp 0 (2 ^ 32 - 1) z.
(** A parameter of type [f64] may be infinite or not a number. *)
Inductive f64 : Type := Fin (q : Q) | Infinite (negative : bool) | NaN.
Definition stroops_to_usdc (stroops : Z) : Q := fdiv (of_int stroops) 10000000.

(** ** Dutch auctions *)
Definition DEFAULT_SERIES_POINTS : Z := 50.
Definition MAX_SERIES_POINTS : Z := 200.
Record DutchAuctionQuery : Type := MkDutchQuery {
  dq_start_price : Z; dq_reserve_price : Z; dq_start_time : Z; dq_end_time : Z; dq_current_time : option Z;
  dq_exponential : bool; dq_points : option Z
}.
Record PricePoint : Type := MkPricePoint { pp_timestamp : Z; pp_price_stroops : Z; pp_price_usdc : Q }.
Record DutchAuctionPriceResponse : Type := MkDutchPrice {
  dr_current_price_stroops : Z; dr_current_price_usdc : Q; dr_series : list PricePoint; dr_seconds_remaining : Z;
  dr_exponential : bool
}.
Definition compute_dutch_price (start_price reserve_price start_time end_time now : Z) (exponential : bool) : Z :=
  if end_time <=? now then reserve_price
  else if now <=? start_time then start_price
  else
    let elapsed := of_int (now - start_time) in
    let total := of_int (end_time - start_time) in
    let spread := of_int (start_price - reserve_price) in
    let price := if exponential
                 then let f := fdiv (fsub total elapsed) total in
                      fadd (of_int reserve_price) (fmul spread (fsub (fmul 2 f) (fmul f f)))
                 else fsub (of_int start_price) (fmul (fdiv elapsed total) spread) in
    as_i64 (round_away price).
(** [start_time + x] on [u64]; with overflow checks it traps. *)
Definition add_u64 (checks : bool) (a b : Z) : res AppError Z :=
  if a + b <=? 2 ^ 64 - 1 then Ok (a + b) else if checks then Panic else Ok ((a + b) mod 2 ^ 64).
Definition fraction (i points : Z) : Q := fdiv (of_int i) (of_int (Z.max (points - 1) 1)).
Fixpoint rmap {A B} (f : A → res AppError B) (l : list A) : res AppError (list B) :=
  match l with
  | [] => Ok []
  | a :: l => let! b := f a in let! bs := rmap f l in Ok (b :: bs)
  end.
Definition dutch_point (checks : bool) (start_price reserve_price start_time end_time points : Z) (exponential : bool) (i : Z)
    : res AppError PricePoint :=
  let total := of_int (end_time - start_time) in
  let! ts := add_u64 checks start_time (as_u64 (round_away (fmul total (fraction i points)))) in
  let ts := Z.min ts end_time in
  let price := compute_dutch_price start_price reserve_price start_time end_time ts exponential in
  Ok (MkPricePoint ts price (stroops_to_usdc price)).
Definition build_dutch_series (checks : bool) (start_price reserve_price start_time end_time points : Z) (exponential : bool)
    : res AppError (list PricePoint) :=
  rmap (dutch_point checks start_price reserve_price start_time end_time points exponential) (seqZ 0 points).
Definition series_points (points : option Z) : Z := clamp 2 MAX_SERIES_POINTS (default DEFAULT_SERIES_POINTS points).
Definition dutch_response (checks : bool) (p : DutchAuctionQuery) (now : Z) : res AppError DutchAuctionPriceResponse :=
  let price := compute_dutch_price (dq_start_price p) (dq_reserve_price p) (dq_start_time p) (dq_end_time p) now (dq_exponential p) in
  let! series := build_dutch_series checks (dq_start_price p) (dq_reserve_price p) (dq_start_time p) (dq_end_time p)
                   (series_points (dq_points p)) (dq_exponential p) in
  Ok (MkDutchPrice price (stroops_to_usdc price) series (Z.max 0 (dq_end_time p - now)) (dq_exponential p)).
Definition validate_dutch_query (p : DutchAuctionQuery) : res AppError unit :=
  do! fail_if ((dq_start_price p <=? 0) || (dq_reserve_price p <=? 0) || (dq_start_price p <=? dq_reserve_price p))
        (ValidationError "start_price must be greater than reserve_price and both must be positive") in
  fail_if (dq_end_time p <=? dq_start_time p) (ValidationError "end_time must be greater than start_time").

(** ** Bonding curves *)
Record BondingCurveQuery : Type := MkCurveQuery {
  bq_a : f64; bq_b : Z; bq_c : Z; bq_initial_supply : Z; bq_remaining_supply : Z
}.
Record BondingCurveSeriesQuery : Type := MkCurveSeries {
  bs_a : f64; bs_b : Z; bs_c : Z; bs_total_supply : Z; bs_points : option Z
}.
Record BondingCurvePoint : Type := MkCurvePoint { bp_remaining_supply : Z; bp_price_stroops : Z; bp_price_usdc : Q }.
Record BondingCurvePriceResponse : Type := MkSpot {
  br_spot_price_stroops : Z; br_spot_price_usdc : Q; br_integral_cost_stroops : option Z; br_integral_cost_usdc : option Q
}.
Record BondingCurveSeriesResponse : Type := MkCurveSeriesResponse {
  bsr_series : list BondingCurvePoint; bsr_floor_price_stroops : Z; bsr_starting_price_stroops : Z
}.
(** [powi] of a double and a number of 32 bits: squaring, bit by bit. *)
Fixpoint powi_loop (fuel : nat) (a r : Q) (b : Z) : Q :=
  match fuel with
  | O => r
  | S fuel =>
      let r := if Z.odd b then fmul r a else r in
      let b := b / 2 in
      if b =? 0 then r else powi_loop fuel (fmul a a) r b
  end.
Definition powi (a : Q) (b : Z) : Q := powi_loop 32 a 1 b.
Definition compute_bonding_price (a : f64) (b c remaining_supply : Z) : Z :=
  let power := powi (of_int remaining_supply) b in
  match a with
  | Fin a => as_i64 (round_away (fadd (fmul a power) (of_int c)))
  | Infinite negative => if Qeq_bool power 0 then 0 else if negative then - 2 ^ 63 else 2 ^ 63 - 1
  | NaN => 0
  end.
Definition bonding_point (a : f64) (b c total_supply points i : Z) : BondingCurvePoint :=
  let supply := as_u32 (round_away (fmul (of_int total_supply) (fsub 1 (fraction i points)))) in
  let price := compute_bonding_price a b c supply in
  MkCurvePoint supply price (stroops_to_usdc price).
Definition build_bonding_series (a : f64) (b c total_supply points : Z) : list BondingCurvePoint :=
  map (bonding_point a b c total_supply points) (seqZ 0 points).
Definition validate_bonding_curve_params (a : f64) (b c : Z) : res AppError unit :=
  do! fail_if match a with Fin a => Qle_bool a 0 | Infinite negative => negative | NaN => false end
        (ValidationError "Amplitude 'a' must be greater than 0") in
  do! fail_if ((b =? 0) || (4 <? b)) (ValidationError "Exponent 'b' must be between 1 and 4") in
  fail_if (c <? 0) (ValidationError "Base price 'c' must be >= 0").

(** ** The endpoints *)
Definition dutch_key : Type := Z * Z * Z * Z * bool * Z.
Definition spot_key : Type := string * Z * Z * Z * Z.
Definition series_key : Type := string * Z * Z * Z * Z.
Record PriceCache : Type := MkPriceCache {
  dutch_cache : gmap dutch_key DutchAuctionPriceResponse;
  spot_cache : gmap spot_key BondingCurvePriceResponse;
  curve_cache : gmap series_key BondingCurveSeriesResponse
}.
#[export] Instance eta_PriceCache : Eta PriceCache := λ d, MkPriceCache (dutch_cache d) (spot_cache d) (curve_cache d).
Inductive price_cmd : Type → Type :=
| GetDutch (k : dutch_key) : price_cmd (option DutchAuctionPriceResponse)
| SetDutch (k : dutch_key) (v : DutchAuctionPriceResponse) : price_cmd unit
| GetSpot (k : spot_key) : price_cmd (option BondingCurvePriceResponse)
| SetSpot (k : spot_key) (v : BondingCurvePriceResponse) : price_cmd unit
| GetCurve (k : series_key) : price_cmd (option BondingCurveSeriesResponse)
| SetCurve (k : series_key) (v : BondingCurveSeriesResponse) : price_cmd unit
| UnixNow : price_cmd Z.
Definition price_exec (now : Z) {R} (c : price_cmd R) (w : PriceCache) : option (R * PriceCache) :=
  match c in price_cmd R return option (R * PriceCache) with
  | GetDutch k => Some (dutch_cache w !! k, w)
  | SetDutch k v => Some (tt, w ⟨ dutch_cache ::= <[k := v]> ⟩)
  | GetSpot k => Some (spot_cache w !! k, w)
  | SetSpot k v => Some (tt, w ⟨ spot_cache ::= <[k := v]> ⟩)
  | GetCurve k => Some (curve_cache w !! k, w)
  | SetCurve k v => Some (tt, w ⟨ curve_cache ::= <[k := v]> ⟩)
  | UnixNow => Some (now, w)
  end.
Abbreviation price_prog := (prog price_cmd AppError).

Section Endpoints.
Variable display : f64 → string.      (** [{}] *)
Variable display6 : f64 → string.     (** [{:.6}] *)
Definition key_of_dutch (p : DutchAuctionQuery) (now : Z) : dutch_key :=
  (dq_start_price p, dq_reserve_price p, dq_start_time p, dq_end_time p, dq_exponential p, now / 15).
(** The clock counts from the epoch; before it, it reads 0. *)
Definition get_dutch_auction_price (checks : bool) (p : DutchAuctionQuery) : price_prog DutchAuctionPriceResponse :=
  let* _ := ret (validate_dutch_query p) in
  let* now := match dq_current_time p with
              | Some t => ret (Ok t)
              | None => Call UnixNow (λ t, ret (Ok (default 0 t)))
              end in
  let key := key_of_dutch p now in
  Call (GetDutch key) (λ cached,
    match cached with
    | Some (Some r) => ret (Ok r)
    | _ =>
        let* response := ret (dutch_response checks p now) in
        Call (SetDutch key response) (λ _, ret (Ok response))
    end).
Definition get_bonding_curve_price (p : BondingCurveQuery) : price_prog BondingCurvePriceResponse :=
  let* _ := ret (validate_bonding_curve_params (bq_a p) (bq_b p) (bq_c p)) in
  let* _ := ret (fail_if (bq_initial_supply p <? bq_remaining_supply p)
                   (ValidationError "remaining_supply cannot exceed initial_supply")) in
  let key := (display (bq_a p), bq_b p, bq_c p, bq_initial_supply p, bq_remaining_supply p) in
  Call (GetSpot key) (λ cached,
    match cached with
    | Some (Some r) => ret (Ok r)
    | _ =>
        let spot := compute_bonding_price (bq_a p) (bq_b p) (bq_c p) (bq_remaining_supply p) in
        let response := MkSpot spot (stroops_to_usdc spot) None None in
        Call (SetSpot key response) (λ _, ret (Ok response))
    end).
Definition curve_response (a : f64) (b c total_supply points : Z) : BondingCurveSeriesResponse :=
  MkCurveSeriesResponse (build_bonding_series a b c total_supply points) (compute_bonding_price a b c 0)
    (compute_bonding_price a b c total_supply).
Definition get_bonding_curve_series (p : BondingCurveSeriesQuery) : price_prog BondingCurveSeriesResponse :=
  let* _ := ret (validate_bonding_curve_params (bs_a p) (bs_b p) (bs_c p)) in
  let* _ := ret (fail_if (bs_total_supply p =? 0) (ValidationError "total_supply must be > 0")) in
  let points := series_points (bs_points p) in
  let key := (display6 (bs_a p), bs_b p, bs_c p, bs_total_supply p, points) in
  Call (GetCurve key) (λ cached,
    match cached with
    | Some (Some r) => ret (Ok r)
    | _ =>
        let response := curve_response (bs_a p) (bs_b p) (bs_c p) (bs_total_supply p) points in
        Call (SetCurve key response) (λ _, ret (Ok response))
    end).
End Endpoints.

(** ** Rounding to an integer *)
Lemma round_away_nonneg q : (0 <= q)%Q → round_away q = Qfloor (q + (1 # 2)).
Proof. intros Hq. unfold round_away. by rewrite (proj2 (Qle_bool_iff 0 q) Hq). Qed.
Lemma round_away_error q : (0 <= q)%Q → (inject_Z (round_away q) - (1 # 2) <= q <= inject_Z (round_away q) + (1 # 2))%Q.
Proof. intros Hq. rewrite round_away_nonneg by done. pose proof (Qfloor_bounds (q + (1 # 2))). lra. Qed.
Lemma round_away_mono a b : (0 <= a)%Q → (a <= b)%Q → round_away a ≤ round_away b.
Proof. intros Ha Hab. rewrite !round_away_nonneg by lra. apply Qfloor_resp_le. lra. Qed.
Lemma round_away_Z z : 0 ≤ z → round_away (inject_Z z) = z.
Proof.
  intros Hz. rewrite round_away_nonneg by (change 0%Q with (inject_Z 0); by rewrite <- Zle_Qle).
  pose proof (Qfloor_bounds (inject_Z z + (1 # 2))) as [H1 H2]. set (f := Qfloor _) in *.
  assert (H3 : (inject_Z f < inject_Z (z + 1))%Q) by (rewrite inject_Z_plus; change (inject_Z 1) with 1%Q; lra).
  assert (H4 : (inject_Z z < inject_Z (f + 1))%Q) by (rewrite inject_Z_plus; change (inject_Z 1) with 1%Q; lra).
  rewrite <- Zlt_Qlt in H3, H4. lia.
Qed.
#[export] Instance round_away_proper : Proper (Qeq ==> eq) round_away.
Proof.
  intros a b Hab. unfold round_away. rewrite (Qleb_comp 0%Q 0%Q (Qeq_refl _) _ _ Hab). case_match;
    [apply Qfloor_comp; by rewrite Hab|f_equal; apply Qfloor_comp; by rewrite Hab].
Qed.
Lemma round_between q lo hi : 0 ≤ lo → (inject_Z lo <= q <= inject_Z hi)%Q → lo ≤ round_away q ≤ hi.
Proof.
  intros Hlo [H1 H2]. assert (H0 : (0 <= inject_Z lo)%Q) by (change 0%Q with (inject_Z 0); by rewrite <- Zle_Qle).
  assert (Hh : 0 ≤ hi) by (rewrite Zle_Qle; change (inject_Z 0) with 0%Q; lra).
  rewrite <- (round_away_Z lo), <- (round_away_Z hi) by done. split; apply round_away_mono; lra.
Qed.
Lemma as_i64_id z : 0 ≤ z ≤ 2 ^ 53 → as_i64 z = z.
Proof. unfold as_i64, clamp. lia. Qed.
Lemma as_u64_id z : 0 ≤ z ≤ 2 ^ 53 → as_u64 z = z.
Proof. unfold as_u64, clamp. lia. Qed.
Lemma as_u32_id z : 0 ≤ z < 2 ^ 32 → as_u32 z = z.
Proof. unfold as_u32, clamp. lia. Qed.
Lemma of_int_exact z : Z.abs z ≤ 2 ^ 53 → (of_int z == inject_Z z)%Q.
Proof. apply rnd_Z. Qed.
#[local] Abbreviation u := (1 # 9007199254740992)%Q.
Lemma rnd_err q : (0 <= q)%Q → (q * (1 - u) <= rnd q <= q * (1 + u))%Q.
Proof. apply rnd_error. Qed.
(** Division of integers up to 2^53, into the unit interval. *)
Lemma ratio_unit a b : 0 ≤ a ≤ b → 0 < b ≤ 2 ^ 53 → (0 <= rnd (inject_Z a / inject_Z b) <= 1)%Q.
Proof.
  intros Ha Hb. assert (Hpos : (0 < inject_Z b)%Q) by (rewrite <- (Zlt_Qlt 0); lia).
  assert (H1 : (inject_Z a <= inject_Z b)%Q) by (rewrite <- Zle_Qle; lia).
  assert (H0 : (0 <= inject_Z a)%Q) by (change 0%Q with (inject_Z 0); rewrite <- Zle_Qle; lia).
  split; [apply rnd_nonneg, Qle_shift_div_l; [done|lra]|].
  apply (rnd_le_Z _ 1); [lia|]. apply Qle_shift_div_r; [done|]. change (inject_Z 1) with 1%Q. lra.
Qed.

(** ** The price of a Dutch auction in doubles *)
Record dutch_query_ok (p : DutchAuctionQuery) : Prop := {
  qo_reserve : 0 < dq_reserve_price p;
  qo_prices : dq_reserve_price p < dq_start_price p ≤ 2 ^ 48;
  qo_times : 0 ≤ dq_start_time p < dq_end_time p;
  qo_width : dq_end_time p ≤ 2 ^ 53
}.
Definition linear_double (sp spread e t : Z) : Q := fsub (of_int sp) (fmul (fdiv (of_int e) (of_int t)) (of_int spread)).
Definition concave_double (rp spread e t : Z) : Q :=
  let f := fdiv (fsub (of_int t) (of_int e)) (of_int t) in
  fadd (of_int rp) (fmul (of_int spread) (fsub (fmul 2 f) (fmul f f))).
Section Prices.
Context (sp rp e t : Z) (Hrp : 0 < rp) (Hsp : rp < sp ≤ 2 ^ 48) (Ht : 0 < e < t) (Hw : t ≤ 2 ^ 53).
#[local] Abbreviation spread := (sp - rp).
#[local] Abbreviation x := (inject_Z e / inject_Z t)%Q.
Lemma t_pos : (0 < inject_Z t)%Q.
Proof using Ht. rewrite <- (Zlt_Qlt 0). lia. Qed.
Lemma x_unit : (0 <= x <= 1)%Q.
Proof using Ht.
  pose proof t_pos. assert ((inject_Z e <= inject_Z t)%Q) by (rewrite <- Zle_Qle; lia).
  assert ((0 <= inject_Z e)%Q) by (change 0%Q with (inject_Z 0); rewrite <- Zle_Qle; lia).
  split; [apply Qle_shift_div_l|apply Qle_shift_div_r]; lra.
Qed.
Lemma prices_Q : (0 < inject_Z rp ∧ inject_Z spread == inject_Z sp - inject_Z rp ∧ 0 < inject_Z spread ∧ inject_Z sp <= 281474976710656)%Q.
Proof using Hrp Hsp.
  split_and!; [rewrite <- (Zlt_Qlt 0); lia| |rewrite <- (Zlt_Qlt 0); lia|].
  - unfold Z.sub. by rewrite inject_Z_plus, inject_Z_opp.
  - change (281474976710656)%Q with (inject_Z (2 ^ 48)). rewrite <- Zle_Qle. lia.
Qed.
Lemma linear_sound : (inject_Z rp <= linear_double sp spread e t <= inject_Z sp)%Q ∧
  (inject_Z sp - x * inject_Z spread - (2 # 5) <= linear_double sp spread e t <= inject_Z sp - x * inject_Z spread + (2 # 5))%Q.
Proof using Hrp Hsp Ht Hw.
  destruct prices_Q as (P1 & P2 & P3 & P4). pose proof x_unit as Hx.
  unfold linear_double, fdiv, fmul, fsub.
  assert (E1 : (of_int e == inject_Z e)%Q) by (apply of_int_exact; lia).
  assert (E2 : (of_int t == inject_Z t)%Q) by (apply of_int_exact; lia).
  assert (E3 : (of_int spread == inject_Z spread)%Q) by (apply of_int_exact; lia).
  assert (E4 : (of_int sp == inject_Z sp)%Q) by (apply of_int_exact; lia).
  rewrite E1, E2, E3, E4. set (q := rnd x). set (s := inject_Z spread) in *.
  assert (Hq1 : (0 <= q <= 1)%Q) by (apply ratio_unit; lia).
  pose proof (rnd_err x ltac:(lra)) as Hq. fold q in Hq.
  assert (Hqs : (x * s * (1 - u) <= q * s <= x * s * (1 + u))%Q) by (split; nra).
  assert (Hm1 : (0 <= rnd (q * s) <= s)%Q).
  { split; [apply rnd_nonneg; nra|]. apply rnd_le_Z; [lia|]. fold s. nra. }
  pose proof (rnd_err (q * s) ltac:(nra)) as Hm. set (m := rnd (q * s)) in *.
  assert (Hxs : (0 <= x * s <= 281474976710656)%Q) by (split; nra).
  assert (Hb : (inject_Z rp <= rnd (inject_Z sp - m) <= inject_Z sp)%Q).
  { split; [apply rnd_ge_Z|apply rnd_le_Z]; [lia|lra|lia|lra]. }
  split; [exact Hb|]. pose proof (rnd_err (inject_Z sp - m) ltac:(lra)) as Hp. set (p := rnd (inject_Z sp - m)) in *.
  clearbody p m q s. generalize dependent (x * s)%Q. intros y **. lra.
Qed.
#[local] Abbreviation y := (inject_Z (t - e) / inject_Z t)%Q.
Lemma y_unit : (0 <= y <= 1)%Q.
Proof using Ht.
  pose proof t_pos. assert ((inject_Z (t - e) <= inject_Z t)%Q) by (rewrite <- Zle_Qle; lia).
  assert ((0 <= inject_Z (t - e))%Q) by (change 0%Q with (inject_Z 0); rewrite <- Zle_Qle; lia).
  split; [apply Qle_shift_div_l|apply Qle_shift_div_r]; lra.
Qed.
(** The weight [2 f - f^2] of the spread, computed in doubles. *)
Lemma weight_sound (f := rnd y) (g := rnd (rnd (2 * f) - rnd (f * f))) :
  (0 <= g <= 1)%Q ∧ (2 * y - y * y - 7 * u <= g <= 2 * y - y * y + 7 * u)%Q.
Proof using Ht Hw.
  pose proof y_unit as Hy. assert (Hf1 : (0 <= f <= 1)%Q) by (apply ratio_unit; lia).
  pose proof (rnd_err y ltac:(lra)) as Hf. fold f in Hf.
  assert (E2 : (rnd (2 * f) == 2 * f)%Q) by (apply rnd_twice; lra).
  assert (Hff : (0 <= f * f <= f)%Q) by (split; nra). pose proof (rnd_err (f * f) ltac:(lra)) as Hb.
  assert (Hbf : (rnd (f * f) <= f)%Q) by (eapply Qle_trans; [apply rnd_mono, Hff|]; unfold f; rewrite rnd_idem; apply Qle_refl).
  assert (Ha : (0 <= 2 * f - rnd (f * f) <= 1 + u)%Q) by (split; nra).
  assert (Hg : (g == rnd (2 * f - rnd (f * f)))%Q) by (unfold g; by rewrite E2).
  rewrite Hg. clear g Hg. split.
  - split; [apply rnd_nonneg, Ha|]. eapply Qle_trans; [apply rnd_mono, Ha|]. vm_compute. discriminate.
  - pose proof (rnd_err _ (proj1 Ha)) as Hr. set (b := rnd (f * f)) in *. set (g := rnd (2 * f - b)) in *.
    assert (Hd : (y * y - 3 * u <= f * f <= y * y + 3 * u)%Q) by (split; nra). nra.
Qed.
Lemma concave_sound : (inject_Z rp <= concave_double rp spread e t <= inject_Z sp)%Q ∧
  (inject_Z rp + (2 * y - y * y) * inject_Z spread - (2 # 5) <= concave_double rp spread e t
   <= inject_Z rp + (2 * y - y * y) * inject_Z spread + (2 # 5))%Q.
Proof using Hrp Hsp Ht Hw.
  destruct prices_Q as (P1 & P2 & P3 & P4). pose proof y_unit as Hy. destruct weight_sound as [Hg1 Hg2].
  unfold concave_double, fdiv, fmul, fsub, fadd.
  assert (E1 : (of_int e == inject_Z e)%Q) by (apply of_int_exact; lia).
  assert (E2 : (of_int t == inject_Z t)%Q) by (apply of_int_exact; lia).
  assert (E3 : (of_int spread == inject_Z spread)%Q) by (apply of_int_exact; lia).
  assert (E4 : (of_int rp == inject_Z rp)%Q) by (apply of_int_exact; lia).
  assert (E5 : (rnd (inject_Z t - inject_Z e) == inject_Z (t - e))%Q).
  { assert (Heq : (inject_Z t - inject_Z e == inject_Z (t - e))%Q) by (unfold Z.sub; by rewrite inject_Z_plus, inject_Z_opp).
    rewrite Heq. apply rnd_Z. lia. }
  rewrite E1, E2, E3, E4, E5. set (g := rnd (rnd (2 * rnd y) - _)) in *. set (s := inject_Z spread) in *.
  assert (Hm1 : (0 <= rnd (s * g) <= s)%Q).
  { split; [apply rnd_nonneg; nra|]. apply rnd_le_Z; [lia|]. fold s. nra. }
  pose proof (rnd_err (s * g) ltac:(nra)) as Hm. set (m := rnd (s * g)) in *.
  assert (Hb : (inject_Z rp <= rnd (inject_Z rp + m) <= inject_Z sp)%Q).
  { split; [apply rnd_ge_Z|apply rnd_le_Z]; [lia|lra|lia|lra]. }
  split; [exact Hb|]. pose proof (rnd_err (inject_Z rp + m) ltac:(lra)) as Hp. set (p := rnd (inject_Z rp + m)) in *.
  assert (Hsg : ((2 * y - y * y) * s - 7 * u * s <= s * g <= (2 * y - y * y) * s + 7 * u * s)%Q) by (split; nra).
  assert (Hbig : (0 <= s * g <= 281474976710656)%Q) by (split; nra).
  clearbody p m g s. generalize dependent (s * g)%Q. generalize dependent ((2 * y - y * y) * s)%Q. intros z ? w **. lra.
Qed.
End Prices.

(** ** Quotes and the contract *)
Lemma div_Q a b : 0 < b → (inject_Z (a / b) <= inject_Z a / inject_Z b < inject_Z (a / b) + 1)%Q.
Proof.
  intros Hb. assert (Hpos : (0 < inject_Z b)%Q) by (rewrite <- (Zlt_Qlt 0); lia).
  pose proof (Z.div_mod a b ltac:(lia)) as Hd. pose proof (Z.mod_pos_bound a b Hb) as Hm. split.
  - apply Qle_shift_div_l; [done|]. rewrite <- inject_Z_mult, <- Zle_Qle. lia.
  - apply Qlt_shift_div_r; [done|]. change 1%Q with (inject_Z 1). rewrite <- inject_Z_plus, <- inject_Z_mult, <- Zlt_Qlt. lia.
Qed.
(** The integer nearest to a double that is near a value. *)
Lemma rounded_near q v lo hi : 0 ≤ lo → hi ≤ 2 ^ 53 → (inject_Z lo <= q <= inject_Z hi)%Q →
  (v - (2 # 5) <= q <= v + (2 # 5))%Q → let r := as_i64 (round_away q) in
  lo ≤ r ≤ hi ∧ (v - (9 # 10) <= inject_Z r <= v + (9 # 10))%Q.
Proof.
  intros Hlo Hhi Hq Hv r. pose proof (round_between q lo hi Hlo Hq) as Hr.
  assert (H0 : (0 <= q)%Q) by (eapply Qle_trans; [|apply Hq]; change 0%Q with (inject_Z 0); by rewrite <- Zle_Qle).
  assert (Er : r = round_away q) by (apply as_i64_id; lia). rewrite Er. split; [lia|].
  pose proof (round_away_error q H0). lra.
Qed.
Definition config_of (p : DutchAuctionQuery) : DutchAuctionConfig :=
  MkDutch (dq_start_price p) (dq_reserve_price p) (dq_start_time p) (dq_end_time p) (dq_exponential p).
Definition quote (p : DutchAuctionQuery) (now : Z) : Z :=
  compute_dutch_price (dq_start_price p) (dq_reserve_price p) (dq_start_time p) (dq_end_time p) now (dq_exponential p).
(** The contract's weight, in millionths, is a little below or above the exact one. *)
Lemma contract_weight r t : 0 ≤ r ≤ t → 0 < t → let f := r * 1000000 / t in let y := (inject_Z r / inject_Z t)%Q in
  (1000000 * (2 * y - y * y) - 2 <= inject_Z (2 * f - f * f / 1000000) <= 1000000 * (2 * y - y * y) + 1)%Q.
Proof.
  intros Hr Ht f y. pose proof (div_Q (r * 1000000) t Ht) as Hf. fold f in Hf.
  assert (Heq : (inject_Z (r * 1000000) / inject_Z t == 1000000 * y)%Q).
  { unfold y, Qdiv. rewrite inject_Z_mult. change (inject_Z 1000000) with 1000000%Q. ring. }
  rewrite Heq in Hf. pose proof (div_Q (f * f) 1000000 ltac:(lia)) as Hh. rewrite inject_Z_mult in Hh.
  change (inject_Z 1000000) with 1000000%Q in Hh.
  assert (Hp : (inject_Z f * inject_Z f / 1000000 == inject_Z f * inject_Z f * (1 # 1000000))%Q) by (unfold Qdiv; reflexivity).
  rewrite Hp in Hh. set (h := f * f / 1000000) in *.
  assert (Hs : (inject_Z (2 * f - h) == 2 * inject_Z f - inject_Z h)%Q).
  { unfold Z.sub. rewrite inject_Z_plus, inject_Z_opp, inject_Z_mult. change (inject_Z 2) with 2%Q. ring. }
  rewrite Hs. assert (H0 : (0 <= inject_Z f)%Q) by (change 0%Q with (inject_Z 0); rewrite <- Zle_Qle; apply Z.div_pos; lia).
  assert (Hy : (0 <= y <= 1)%Q).
  { assert ((0 < inject_Z t)%Q) by (rewrite <- (Zlt_Qlt 0); lia). assert ((inject_Z r <= inject_Z t)%Q) by (rewrite <- Zle_Qle; lia).
    assert ((0 <= inject_Z r)%Q) by (change 0%Q with (inject_Z 0); rewrite <- Zle_Qle; lia).
    unfold y. split; [apply Qle_shift_div_l|apply Qle_shift_div_r]; lra. }
  clearbody h f y. set (a := inject_Z f) in *. set (b := inject_Z h) in *. clearbody a b. clear Hs Heq Hp.
  assert (H1 : (0 <= (1000000 * y - a) * (2 - (1 # 1000000) * (1000000 * y + a)))%Q) by (apply Qmult_le_0_compat; lra).
  assert (H2 : (0 <= (1000000 * y - a) * ((1 # 1000000) * (1000000 * y + a)))%Q) by (apply Qmult_le_0_compat; lra).
  split; nra.
Qed.
Lemma linear_quote sp rp e t : 0 < rp → rp < sp ≤ 2 ^ 48 → 0 < e < t → t ≤ 2 ^ 53 →
  let r := as_i64 (round_away (linear_double sp (sp - rp) e t)) in
  rp ≤ r ≤ sp ∧ r ≤ sp - e * (sp - rp) / t ≤ r + 1.
Proof.
  intros Hrp Hsp He Ht r. destruct (linear_sound sp rp e t Hrp Hsp He Ht) as [Hb Hv].
  destruct (rounded_near _ _ rp sp ltac:(lia) ltac:(lia) Hb Hv) as [Hr Hn]. fold r in Hr, Hn. split; [done|].
  pose proof (div_Q (e * (sp - rp)) t ltac:(lia)) as Hd.
  assert (Heq : (inject_Z (e * (sp - rp)) / inject_Z t == inject_Z e / inject_Z t * inject_Z (sp - rp))%Q).
  { unfold Qdiv. rewrite inject_Z_mult. ring. }
  rewrite Heq in Hd. set (d := e * (sp - rp) / t) in *.
  assert (H1 : (inject_Z (sp - d) < inject_Z (r + 2))%Q).
  { unfold Z.sub. rewrite !inject_Z_plus, inject_Z_opp. change (inject_Z 2) with 2%Q. lra. }
  assert (H2 : (inject_Z r < inject_Z (sp - d + 1))%Q).
  { unfold Z.sub. rewrite !inject_Z_plus, inject_Z_opp. change (inject_Z 1) with 1%Q. lra. }
  rewrite <- Zlt_Qlt in H1, H2. lia.
Qed.
Lemma concave_quote sp rp e t : 0 < rp → rp < sp ≤ 2 ^ 48 → 0 < e < t → t ≤ 2 ^ 53 →
  let r := as_i64 (round_away (concave_double rp (sp - rp) e t)) in
  let f := (t - e) * 1000000 / t in let c := rp + (sp - rp) * (2 * f - f * f / 1000000) / 1000000 in
  rp ≤ r ≤ sp ∧ 1000000 * Z.abs (r - c) ≤ 2000000 + 2 * (sp - rp).
Proof.
  intros Hrp Hsp He Ht r f c. destruct (concave_sound sp rp e t Hrp Hsp He Ht) as [Hb Hv].
  destruct (rounded_near _ _ rp sp ltac:(lia) ltac:(lia) Hb Hv) as [Hr Hn]. fold r in Hr, Hn. split; [done|].
  pose proof (contract_weight (t - e) t ltac:(lia) ltac:(lia)) as Hw. cbv zeta in Hw. fold f in Hw.
  set (w := 2 * f - f * f / 1000000) in *. pose proof (div_Q ((sp - rp) * w) 1000000 ltac:(lia)) as Hd.
  set (d := (sp - rp) * w / 1000000) in *. rewrite inject_Z_mult in Hd. change (inject_Z 1000000) with 1000000%Q in Hd.
  assert (Hs : (0 < inject_Z (sp - rp))%Q) by (rewrite <- (Zlt_Qlt 0); lia). set (s := inject_Z (sp - rp)) in *.
  assert (Hp : (s * inject_Z w / 1000000 == s * inject_Z w * (1 # 1000000))%Q) by (unfold Qdiv; reflexivity). rewrite Hp in Hd.
  set (g := (2 * (inject_Z (t - e) / inject_Z t) - inject_Z (t - e) / inject_Z t * (inject_Z (t - e) / inject_Z t))%Q) in *.
  assert (Hsw : (1000000 * (g * s) - 2 * s <= s * inject_Z w <= 1000000 * (g * s) + s)%Q) by (split; nra).
  assert (Hc : (inject_Z c == inject_Z rp + inject_Z d)%Q) by (unfold c; by rewrite inject_Z_plus).
  assert (Hq : (- (2000000 + 2 * s) <= 1000000 * (inject_Z r - inject_Z c) <= 2000000 + 2 * s)%Q) by (rewrite Hc; split; lra).
  assert (H1 : (inject_Z (1000000 * (r - c)) <= inject_Z (2000000 + 2 * (sp - rp)))%Q).
  { rewrite inject_Z_plus, !inject_Z_mult. unfold Z.sub at 1. rewrite inject_Z_plus, inject_Z_opp. fold s. apply Hq. }
  assert (H2 : (inject_Z (- (2000000 + 2 * (sp - rp))) <= inject_Z (1000000 * (r - c)))%Q).
  { rewrite inject_Z_opp, inject_Z_plus, !inject_Z_mult. unfold Z.sub at 2. rewrite inject_Z_plus, inject_Z_opp. fold s. apply Hq. }
  rewrite <- Zle_Qle in H1, H2. lia.
Qed.

(** C23. The quote of an auction is the price of the contract.  For an auction that
    the contract accepts, of at most 2^48 stroops (28 million USDC) and with times
    below 2^53, at every time the contract's price is defined and the quote lies
    between reserve and start price; with linear decay the quote is that price or
    one stroop less, with the other decay it is off by at most two stroops and two
    millionths of the spread, as the contract counts in millionths. *)
Theorem quote_matches_contract env p now :
  validate_dutch_auction_config env (config_of p) = Ok tt → 0 ≤ dq_start_time p → dq_end_time p ≤ 2 ^ 53 →
  dq_start_price p ≤ 2 ^ 48 →
  ∃ price, current_dutch_price (config_of p) now = Ok price ∧ dq_reserve_price p ≤ quote p now ≤ dq_start_price p ∧
    if dq_exponential p
    then 1000000 * Z.abs (quote p now - price) ≤ 2000000 + 2 * (dq_start_price p - dq_reserve_price p)
    else quote p now ≤ price ≤ quote p now + 1.
Proof.
  intros Hv H0 Hw Hp. exists (dutch_price (config_of p) now).
  assert (Hok : dutch_ok (config_of p)) by (apply (validate_dutch_ok env); [done|done|cbn; unfold u64_max; lia|cbn; unfold i128_max; lia]).
  split; [by apply current_dutch_price_spec|]. destruct Hok as [H1 H2 H3 _ _]. cbn in H1, H2, H3.
  unfold quote, compute_dutch_price, dutch_price. cbn [config_of da_start_price da_reserve_price da_start_time da_end_time da_exponential].
  destruct (Z.leb_spec (dq_end_time p) now); [destruct (dq_exponential p); lia|].
  destruct (Z.leb_spec now (dq_start_time p)); [destruct (dq_exponential p); lia|]. destruct (dq_exponential p).
  - pose proof (concave_quote (dq_start_price p) (dq_reserve_price p) (now - dq_start_time p) (dq_end_time p - dq_start_time p)
      ltac:(lia) ltac:(lia) ltac:(lia) ltac:(lia)) as Hc. cbv zeta in Hc. unfold dutch_fraction. cbn [config_of da_start_time da_end_time].
    replace (dq_end_time p - dq_start_time p - (now - dq_start_time p)) with (dq_end_time p - now) in Hc by lia. exact Hc.
  - exact (linear_quote (dq_start_price p) (dq_reserve_price p) (now - dq_start_time p) (dq_end_time p - dq_start_time p)
      ltac:(lia) ltac:(lia) ltac:(lia) ltac:(lia)).
Qed.

(** ** The series of a chart *)
Section Series.
Context (p : DutchAuctionQuery) (Hp : dutch_query_ok p).
#[local] Abbreviation total := (dq_end_time p - dq_start_time p).
Lemma quote_range now : dq_reserve_price p ≤ quote p now ≤ dq_start_price p.
Proof using Hp.
  destruct Hp as [H1 H2 H3 H4]. unfold quote, compute_dutch_price.
  destruct (Z.leb_spec (dq_end_time p) now); [lia|]. destruct (Z.leb_spec now (dq_start_time p)); [lia|]. destruct (dq_exponential p).
  - by pose proof (concave_quote (dq_start_price p) (dq_reserve_price p) (now - dq_start_time p) total
      ltac:(lia) ltac:(lia) ltac:(lia) ltac:(lia)) as [? _].
  - by pose proof (linear_quote (dq_start_price p) (dq_reserve_price p) (now - dq_start_time p) total
      ltac:(lia) ltac:(lia) ltac:(lia) ltac:(lia)) as [? _].
Qed.
(** With linear decay rounding keeps the order. *)
Lemma quote_falls now now' : dq_exponential p = false → now ≤ now' → quote p now' ≤ quote p now.
Proof using Hp.
  intros He Hn. pose proof (quote_range now) as Hr. pose proof (quote_range now') as Hr'. destruct Hp as [H1 H2 H3 H4].
  unfold quote, compute_dutch_price in *. rewrite He in *.
  destruct (Z.leb_spec (dq_end_time p) now'); destruct (Z.leb_spec (dq_end_time p) now); try lia.
  destruct (Z.leb_spec now' (dq_start_time p)); destruct (Z.leb_spec now (dq_start_time p)); try lia.
  assert (Hlin : ∀ n, dq_start_time p < n < dq_end_time p → (0 <= linear_double (dq_start_price p)
    (dq_start_price p - dq_reserve_price p) (n - dq_start_time p) total)%Q).
  { intros n Hn'. destruct (linear_sound (dq_start_price p) (dq_reserve_price p) (n - dq_start_time p) total) as [[Hb _] _]; [lia..|].
    eapply Qle_trans; [|exact Hb]. change 0%Q with (inject_Z 0). rewrite <- Zle_Qle. lia. }
  assert (Hm : round_away (linear_double (dq_start_price p) (dq_start_price p - dq_reserve_price p) (now' - dq_start_time p) total)
    ≤ round_away (linear_double (dq_start_price p) (dq_start_price p - dq_reserve_price p) (now - dq_start_time p) total)).
  { apply round_away_mono; [apply Hlin; lia|]. unfold linear_double, fsub, fmul, fdiv. apply rnd_mono.
    apply Qplus_le_r, Qopp_le_compat, rnd_mono. apply Qmult_le_compat_r.
    - apply rnd_mono. unfold of_int. rewrite !rnd_Z by lia. apply Qmult_le_compat_r; [rewrite <- Zle_Qle; lia|].
      apply Qlt_le_weak, Qinv_lt_0_compat. rewrite <- (Zlt_Qlt 0). lia.
    - unfold of_int. rewrite rnd_Z by lia. change 0%Q with (inject_Z 0). rewrite <- Zle_Qle. lia. }
  unfold as_i64, clamp. unfold linear_double in Hm. lia.
Qed.
(** Seconds after the start of the [i]-th of [n] points. *)
Definition point_offset (i n : Z) : Z := as_u64 (round_away (fmul (of_int total) (fraction i n))).
Lemma fraction_unit i n : 0 ≤ i < n → 2 ≤ n ≤ 200 → (0 <= fraction i n <= 1)%Q.
Proof using.
  intros Hi Hn. unfold fraction, fdiv, of_int. rewrite !rnd_Z by lia. apply ratio_unit; lia.
Qed.
Lemma point_fraction_mono i j n : 0 ≤ i ≤ j → j < n → 2 ≤ n ≤ 200 → (fraction i n <= fraction j n)%Q.
Proof using.
  intros Hi Hj Hn. unfold fraction, fdiv. apply rnd_mono. unfold of_int. rewrite !rnd_Z by lia.
  apply Qmult_le_compat_r; [rewrite <- Zle_Qle; lia|]. apply Qlt_le_weak, Qinv_lt_0_compat. rewrite <- (Zlt_Qlt 0). lia.
Qed.
Lemma total_exact : (of_int total == inject_Z total)%Q ∧ (0 < inject_Z total)%Q.
Proof using Hp. destruct Hp as [H1 H2 H3 H4]. split; [apply of_int_exact; lia|rewrite <- (Zlt_Qlt 0); lia]. Qed.
Lemma offset_double i n : 0 ≤ i < n → 2 ≤ n ≤ 200 → (0 <= fmul (of_int total) (fraction i n) <= inject_Z total)%Q.
Proof using Hp.
  intros Hi Hn. destruct total_exact as [E P]. pose proof (fraction_unit i n Hi Hn) as Hf. destruct Hp as [H1 H2 H3 H4].
  unfold fmul. rewrite E. split; [apply rnd_nonneg; nra|apply rnd_le_Z; [lia|nra]].
Qed.
Lemma point_offset_range i n : 0 ≤ i < n → 2 ≤ n ≤ 200 → 0 ≤ point_offset i n ≤ total.
Proof using Hp.
  intros Hi Hn. pose proof (offset_double i n Hi Hn) as Hd. destruct Hp as [H1 H2 H3 H4].
  pose proof (round_between _ 0 total ltac:(lia) Hd). unfold point_offset. rewrite as_u64_id by lia. done.
Qed.
Lemma point_offset_mono i j n : 0 ≤ i ≤ j → j < n → 2 ≤ n ≤ 200 → point_offset i n ≤ point_offset j n.
Proof using Hp.
  intros Hi Hj Hn. assert (Hm : round_away (fmul (of_int total) (fraction i n)) ≤ round_away (fmul (of_int total) (fraction j n))).
  { apply round_away_mono; [apply offset_double; lia|]. destruct total_exact as [E P].
    pose proof (point_fraction_mono i j n Hi Hj Hn). unfold fmul. apply rnd_mono. rewrite E. nra. }
  unfold point_offset, as_u64, clamp. lia.
Qed.
Lemma point_offset_ends n : 2 ≤ n ≤ 200 → point_offset 0 n = 0 ∧ point_offset (n - 1) n = total.
Proof using Hp.
  intros Hn. destruct total_exact as [E P]. destruct Hp as [H1 H2 H3 H4]. unfold point_offset, fraction, fdiv, fmul, of_int in *.
  rewrite !rnd_Z in * by lia. assert (Hpos : (0 < inject_Z (Z.max (n - 1) 1))%Q) by (rewrite <- (Zlt_Qlt 0); lia). split.
  - assert (Ez : (rnd (inject_Z total * rnd (inject_Z 0 / inject_Z (Z.max (n - 1) 1))) == inject_Z 0)%Q).
    { rewrite (rnd_0 (inject_Z 0 / _)); [|unfold Qdiv; change (inject_Z 0) with 0%Q; ring]. apply rnd_0. ring. }
    rewrite Ez, round_away_Z by lia. by rewrite as_u64_id by lia.
  - replace (Z.max (n - 1) 1) with (n - 1) in * by lia.
    assert (Eo : (rnd (inject_Z total * rnd (inject_Z (n - 1) / inject_Z (n - 1))) == inject_Z total)%Q).
    { assert (E1 : (inject_Z (n - 1) / inject_Z (n - 1) == inject_Z 1)%Q) by (change (inject_Z 1) with 1%Q; field; lra).
      rewrite E1, (rnd_Z 1) by lia. change (inject_Z 1) with 1%Q. rewrite Qmult_1_r. apply rnd_Z. lia. }
    rewrite Eo, round_away_Z by lia. by rewrite as_u64_id by lia.
Qed.
Definition chart_point (n i : Z) : PricePoint :=
  let ts := dq_start_time p + point_offset i n in MkPricePoint ts (quote p ts) (stroops_to_usdc (quote p ts)).
Lemma dutch_point_spec checks i n : 0 ≤ i < n → 2 ≤ n ≤ 200 →
  dutch_point checks (dq_start_price p) (dq_reserve_price p) (dq_start_time p) (dq_end_time p) n (dq_exponential p) i =
  Ok (chart_point n i).
Proof using Hp.
  intros Hi Hn. pose proof (point_offset_range i n Hi Hn) as Ho. destruct Hp as [H1 H2 H3 H4].
  unfold dutch_point. fold (point_offset i n). unfold add_u64.
  destruct (Z.leb_spec (dq_start_time p + point_offset i n) (2 ^ 64 - 1)); [|lia]. cbn [rbind].
  rewrite Z.min_l by lia. done.
Qed.
End Series.
Lemma rmap_Ok {A B} (f : A → res AppError B) g l : (∀ a, a ∈ l → f a = Ok (g a)) → rmap f l = Ok (map g l).
Proof.
  induction l as [|a l IH]; intros Hf; [done|]. cbn [rmap map]. rewrite Hf by left. cbn [rbind].
  rewrite IH by (intros b Hb; apply Hf; by right). done.
Qed.

Lemma last_seqZ n : 0 < n → last (seqZ 0 n) = Some (n - 1).
Proof. intros Hn. rewrite last_lookup, length_seqZ, lookup_seqZ. lia. Qed.

(** The chart of an auction is complete, in order and within the prices.  For an
    auction as above the series has between 2 and 200 points; it begins with the
    start price at the opening and ends with the reserve price at the end; times
    never go back and stay within the auction; every point has the quote of its
    time, between reserve and start price, and with linear decay prices never
    rise. *)
Theorem dutch_series_sound checks p : dutch_query_ok p → let n := series_points (dq_points p) in
  ∃ series, build_dutch_series checks (dq_start_price p) (dq_reserve_price p) (dq_start_time p) (dq_end_time p) n
    (dq_exponential p) = Ok series ∧
  2 ≤ n ≤ 200 ∧ Z.of_nat (length series) = n ∧
  (pp_timestamp <$> head series = Some (dq_start_time p) ∧ pp_price_stroops <$> head series = Some (dq_start_price p)) ∧
  (pp_timestamp <$> last series = Some (dq_end_time p) ∧ pp_price_stroops <$> last series = Some (dq_reserve_price p)) ∧
  ∀ i j a b, series !! i = Some a → series !! j = Some b → (i ≤ j)%nat →
    dq_start_time p ≤ pp_timestamp a ≤ pp_timestamp b ∧ pp_timestamp b ≤ dq_end_time p ∧
    pp_price_stroops a = quote p (pp_timestamp a) ∧
    dq_reserve_price p ≤ pp_price_stroops a ≤ dq_start_price p ∧
    (dq_exponential p = false → pp_price_stroops b ≤ pp_price_stroops a).
Proof.
  intros Hp n. assert (Hn : 2 ≤ n ≤ 200) by (unfold n, series_points, clamp, MAX_SERIES_POINTS; lia).
  exists (map (chart_point p n) (seqZ 0 n)). split.
  { apply rmap_Ok. intros i Hi%elem_of_seqZ. apply dutch_point_spec; [done|lia|done]. }
  destruct (point_offset_ends p Hp n Hn) as [Hfirst Hlast]. pose proof Hp as [H1 H2 H3 H4].
  assert (Hopen : quote p (dq_start_time p) = dq_start_price p ∧ quote p (dq_end_time p) = dq_reserve_price p).
  { unfold quote, compute_dutch_price. rewrite (proj2 (Z.leb_gt (dq_end_time p) (dq_start_time p))), !(proj2 (Z.leb_le _ _)) by lia. done. }
  split_and!; [lia|lia|rewrite length_map, length_seqZ; lia| | | | |].
  - rewrite (seqZ_cons 0 n) by lia. cbn. f_equal. lia.
  - rewrite (seqZ_cons 0 n) by lia. transitivity (Some (quote p (dq_start_time p + point_offset p 0 n))); [done|].
    rewrite Hfirst, Z.add_0_r. f_equal. apply Hopen.
  - rewrite fmap_last, (last_seqZ n) by lia. cbn. f_equal. lia.
  - rewrite fmap_last, (last_seqZ n) by lia. transitivity (Some (quote p (dq_start_time p + point_offset p (n - 1) n))); [done|].
    rewrite Hlast. replace (_ + _) with (dq_end_time p) by lia. f_equal. apply Hopen.
  - intros i j a b Ha Hb Hij. apply list_lookup_fmap_Some in Ha as (x & -> & Hx), Hb as (y & -> & Hy).
    apply lookup_seqZ in Hx as [-> Hx], Hy as [-> Hy]. unfold chart_point. cbn [pp_timestamp pp_price_stroops].
    pose proof (point_offset_range p Hp (0 + Z.of_nat i) n ltac:(lia) Hn). pose proof (point_offset_range p Hp (0 + Z.of_nat j) n ltac:(lia) Hn).
    pose proof (point_offset_mono p Hp (0 + Z.of_nat i) (0 + Z.of_nat j) n ltac:(lia) ltac:(lia) Hn).
    split_and!; [lia|lia|lia|done|apply quote_range; done..|]. intros He. apply quote_falls; [done|done|lia].
Qed.

(** ** Bonding curves *)
Lemma fmul_exact a b m n : (a == inject_Z m)%Q → (b == inject_Z n)%Q → Z.abs (m * n) ≤ 2 ^ 53 → (fmul a b == inject_Z (m * n))%Q.
Proof. intros Ha Hb Hmn. unfold fmul. rewrite Ha, Hb, <- inject_Z_mult. by apply rnd_Z. Qed.
Lemma powi_exact s b : 0 ≤ s → 1 ≤ b ≤ 4 → s ^ b ≤ 2 ^ 53 → (powi (of_int s) b == inject_Z (s ^ b))%Q.
Proof.
  intros Hs Hb Hp. assert (Hle : ∀ k, 1 ≤ k ≤ b → s ^ k ≤ 2 ^ 53).
  { intros k Hk. destruct (Z.eq_dec s 0) as [->|]; [rewrite Z.pow_0_l; lia|]. pose proof (Z.pow_le_mono_r s k b). lia. }
  assert (Hnn : ∀ k, 0 ≤ s ^ k) by (intros k; by apply Z.pow_nonneg).
  assert (E1 : (of_int s == inject_Z s)%Q) by (apply of_int_exact; specialize (Hle 1); rewrite Z.pow_1_r in Hle; lia).
  assert (Hm : ∀ a c i j, (a == inject_Z (s ^ i))%Q → (c == inject_Z (s ^ j))%Q → 0 ≤ i → 0 ≤ j → 1 ≤ i + j ≤ b →
    (fmul a c == inject_Z (s ^ (i + j)))%Q).
  { intros a c i j Ha Hc Hi Hj Hij. rewrite Z.pow_add_r by done. apply fmul_exact; [done|done|].
    rewrite <- Z.pow_add_r by done. specialize (Hnn (i + j)). specialize (Hle (i + j)). lia. }
  assert (E0 : (1 == inject_Z (s ^ 0))%Q) by reflexivity. rewrite <- (Z.pow_1_r s) in E1 at 2. unfold powi.
  assert (Hc : b = 1 ∨ b = 2 ∨ b = 3 ∨ b = 4) by lia. destruct Hc as [->|[->|[->| ->]]].
  - apply (Hm _ _ 0 1); [done|done|lia..].
  - apply (Hm _ _ 0 2); [done|apply (Hm _ _ 1 1); [done|done|lia..]|lia..].
  - apply (Hm _ _ 1 2); [apply (Hm _ _ 0 1); [done|done|lia..]|apply (Hm _ _ 1 1); [done|done|lia..]|lia..].
  - assert (E2 : (fmul (of_int s) (of_int s) == inject_Z (s ^ 2))%Q) by (apply (Hm _ _ 1 1); [done|done|lia..]).
    apply (Hm _ _ 0 4); [done|apply (Hm _ _ 2 2); [done|done|lia..]|lia..].
Qed.
(** The double nearest to the decimal that the contract keeps in millionths. *)
Definition amplitude (cfg : BondingCurveConfig) : f64 := Fin (rnd (inject_Z (bc_a_scaled cfg) / 1000000)).

(** The spot price of a curve is the price of the contract.  For a curve that the
    contract accepts, at a supply whose power fits 53 bits and a price of at most
    2^48 stroops, the server quotes the contract's price or one stroop more. *)
Theorem spot_matches_contract cfg supply price :
  validate_bonding_curve_config cfg = Ok tt → 0 ≤ bc_b_exponent cfg → 0 ≤ supply → supply ^ bc_b_exponent cfg ≤ 2 ^ 53 →
  bonding_curve_price cfg supply = Ok price → price ≤ 2 ^ 48 →
  let spot := compute_bonding_price (amplitude cfg) (bc_b_exponent cfg) (bc_c_base cfg) supply in
  price ≤ spot ≤ price + 1.
Proof.
  intros (Ha & Hb0 & Hb4 & Hc)%validate_curve_Ok Hb Hs Hpow Hp Hmax spot.
  apply bonding_price_Ok in Hp; [|lia..]. rewrite integer_pow_spec in Hp by lia.
  pose proof (Z.pow_nonneg supply (bc_b_exponent cfg) Hs) as Hnn.
  rewrite Z.min_r in Hp by (unfold i128_max; lia).
  pose proof (powi_exact supply (bc_b_exponent cfg) Hs ltac:(lia) Hpow) as Hpw. set (w := supply ^ bc_b_exponent cfg) in *.
  set (aw := bc_a_scaled cfg * w) in *. pose proof (div_Q aw PARAM_SCALE ltac:(done)) as Hd.
  assert (Hpos : 0 ≤ aw / PARAM_SCALE) by (apply Z.div_pos; [unfold aw; lia|done]).
  change (inject_Z PARAM_SCALE) with 1000000%Q in Hd. set (c := bc_c_base cfg) in *. set (d := aw / PARAM_SCALE) in *.
  assert (Ec : (of_int c == inject_Z c)%Q) by (apply of_int_exact; lia).
  assert (HA : (0 <= inject_Z (bc_a_scaled cfg) / 1000000)%Q).
  { apply Qle_shift_div_l; [lra|]. rewrite Qmult_0_l. change 0%Q with (inject_Z 0). rewrite <- Zle_Qle. lia. }
  set (A := (inject_Z (bc_a_scaled cfg) / 1000000)%Q) in *. pose proof (rnd_err A HA) as He. set (a := rnd A) in *.
  assert (HW : (0 <= inject_Z w)%Q) by (change 0%Q with (inject_Z 0); by rewrite <- Zle_Qle).
  assert (Haw : (inject_Z aw / 1000000 == A * inject_Z w)%Q) by (unfold aw, A, Qdiv; rewrite inject_Z_mult; ring).
  rewrite Haw in Hd. assert (HC : (0 <= inject_Z c)%Q) by (change 0%Q with (inject_Z 0); by rewrite <- Zle_Qle).
  assert (Hm : (inject_Z d + inject_Z c <= 281474976710656)%Q).
  { change (281474976710656)%Q with (inject_Z (2 ^ 48)). rewrite <- inject_Z_plus, <- Zle_Qle. lia. }
  assert (Hx : (A * inject_Z w * (1 - u) <= a * inject_Z w <= A * inject_Z w * (1 + u))%Q) by (split; nra).
  assert (H0 : (0 <= A * inject_Z w)%Q) by nra. assert (H0' : (0 <= a * inject_Z w)%Q) by nra.
  assert (Hspot : spot = as_i64 (round_away (rnd (rnd (a * inject_Z w) + inject_Z c)))).
  { unfold spot, compute_bonding_price, amplitude, fadd, fmul. fold c A a. f_equal. apply round_away_proper. by rewrite Hpw, Ec. }
  pose proof (rnd_err _ H0') as Hy. pose proof (rnd_nonneg _ H0') as H1. set (m := rnd (a * inject_Z w)) in *.
  pose proof (rnd_err (m + inject_Z c) ltac:(lra)) as Hz. pose proof (rnd_nonneg (m + inject_Z c) ltac:(lra)) as H2.
  set (q := rnd (m + inject_Z c)) in *. set (v := (A * inject_Z w + inject_Z c)%Q).
  destruct (rounded_near q v 0 (2 ^ 49)) as [_ Hn]; [done|done| | |].
  { split; [exact H2|]. change (inject_Z (2 ^ 49)) with 562949953421312%Q. lra. }
  { unfold v. lra. }
  rewrite <- Hspot in Hn. unfold v in Hn.
  assert (G1 : (inject_Z (d + c) < inject_Z (spot + 1))%Q) by (rewrite !inject_Z_plus; change (inject_Z 1) with 1%Q; lra).
  assert (G2 : (inject_Z spot < inject_Z (d + c + 2))%Q) by (rewrite !inject_Z_plus; change (inject_Z 2) with 2%Q; lra).
  rewrite <- Zlt_Qlt in G1, G2. lia.
Qed.

(** ** The age of a quote *)
Section Fresh.
Variable display display6 : f64 → string.
Variable checks : bool.
Definition price_step_at (now : Z) : ∀ R, price_cmd R → PriceCache → option (R * PriceCache) := @price_exec now.
(** An entry is the answer to some request with its key. *)
Definition entry_dutch (k : dutch_key) (v : DutchAuctionPriceResponse) : Prop :=
  ∃ p now, k = key_of_dutch p now ∧ dutch_response checks p now = Ok v.
Definition entry_spot (k : spot_key) (v : BondingCurvePriceResponse) : Prop :=
  ∃ a b c init rem, k = (display a, b, c, init, rem) ∧ br_spot_price_stroops v = compute_bonding_price a b c rem.
Definition entry_curve (k : series_key) (v : BondingCurveSeriesResponse) : Prop :=
  ∃ a b c total points, k = (display6 a, b, c, total, points) ∧ v = curve_response a b c total points.
Record cache_fresh (w : PriceCache) : Prop := {
  fresh_dutch k v : dutch_cache w !! k = Some v → entry_dutch k v;
  fresh_spot k v : spot_cache w !! k = Some v → entry_spot k v;
  fresh_curve k v : curve_cache w !! k = Some v → entry_curve k v
}.
Definition stores_fresh R (c : price_cmd R) : Prop :=
  match c with SetDutch k v => entry_dutch k v | SetSpot k v => entry_spot k v | SetCurve k v => entry_curve k v | _ => True end.
Lemma price_exec_fresh now R (c : price_cmd R) w r w' : stores_fresh R c → cache_fresh w →
  price_step_at now R c w = Some (r, w') → cache_fresh w'.
Proof.
  intros Hc [H1 H2 H3] Hs. unfold price_step_at in Hs.
  destruct c as [k|k v|k|k v|k|k v|]; cbn [price_exec] in Hs; injection Hs as <- <-; try done; (split; [intros k' v'..]); cbn in *;
    try (by auto); intros [[<- <-]|[_ ?]]%lookup_insert_Some; auto.
Qed.
Abbreviation price_safe := (safe price_step_at (λ _ _, True) cache_fresh).
Lemma only_fresh_safe {A} (p : price_prog A) w : only stores_fresh p → price_safe p w.
Proof. apply safe_only. intros v R c w1 r w2 Hc I1 Hs. split; [done|by eapply price_exec_fresh]. Qed.
Inductive price_request : prog price_cmd AppError unit → Prop :=
| AskDutch p : price_request (forget (get_dutch_auction_price checks p))
| AskSpot p : price_request (forget (get_bonding_curve_price display p))
| AskCurve p : price_request (forget (get_bonding_curve_series display6 p)).
Lemma dutch_only p : only stores_fresh (get_dutch_auction_price checks p).
Proof.
  unfold get_dutch_auction_price. apply only_bind; [done|]. intros _. apply only_bind.
  { destruct (dq_current_time p); [done|]. by split. }
  intros now. split; [done|]. assert (Hrest : only stores_fresh (let* response := ret (dutch_response checks p now) in
    Call (SetDutch (key_of_dutch p now) response) (λ _, ret (Ok response)))).
  { destruct (dutch_response checks p now) as [v| |] eqn:E; cbn; [|done|done]. split; [by exists p, now|done]. }
  intros [[r|]|]; [done|exact Hrest|exact Hrest].
Qed.
Lemma price_request_safe p w : price_request p → price_safe p w.
Proof.
  destruct 1; apply safe_forget, only_fresh_safe; [apply dutch_only| |].
  - unfold get_bonding_curve_price. apply only_bind; [done|]. intros _. apply only_bind; [done|]. intros _. split; [done|].
    intros [[r|]|]; [done| |]; (split; [|done]); by eexists _, _, _, _, _.
  - unfold get_bonding_curve_series. apply only_bind; [done|]. intros _. apply only_bind; [done|]. intros _. split; [done|].
    intros [[r|]|]; [done| |]; (split; [|done]); by eexists _, _, _, _, _.
Qed.
Lemma key_same p p' a now : key_of_dutch p a = key_of_dutch p' now →
  (∀ t, quote p t = quote p' t) ∧ dq_end_time p = dq_end_time p' ∧ dq_exponential p = dq_exponential p' ∧ a / 15 = now / 15.
Proof. unfold key_of_dutch, quote. intros [= -> -> -> -> -> ->]. done. Qed.
Lemma response_of p now r : dutch_response checks p now = Ok r →
  dr_current_price_stroops r = quote p now ∧ dr_seconds_remaining r = Z.max 0 (dq_end_time p - now).
Proof. unfold dutch_response. intros Hr. run Hr. by subst. Qed.
Lemma same_bucket a b : a / 15 = b / 15 → Z.abs (a - b) < 15.
Proof. intros H. pose proof (Z.div_mod a 15). pose proof (Z.div_mod b 15). pose proof (Z.mod_pos_bound a 15). pose proof (Z.mod_pos_bound b 15). lia. Qed.

(** A quote is less than fifteen seconds off.  Let requests to the three
    endpoints come at any time, their commands interleaving and getting lost, from
    an empty cache.  At every moment a request for the price of an auction then
    gets the quote and the seconds left of a time that is less than fifteen
    seconds from the time it asks for, the clock's if it names none, whatever else
    is stored meanwhile by such requests. *)
Theorem quote_fresh tasks w p r w' :
  rtc (pool_step price_step_at price_request) ([], MkPriceCache ∅ ∅ ∅) (tasks, w) →
  behaves price_step_at (λ _, cache_fresh) (get_dutch_auction_price checks p) w (Ok r) w' →
  cache_fresh w ∧
  ∃ asked now, (∀ t, dq_current_time p = Some t → asked = t) ∧ Z.abs (asked - now) < 15 ∧
    dr_current_price_stroops r = quote p now ∧ dr_seconds_remaining r = Z.max 0 (dq_end_time p - now).
Proof.
  intros Hpool Hb. assert (Hw : cache_fresh w).
  { apply (pool_safe price_step_at (λ _ _, True) cache_fresh) in Hpool as (_ & Hi & _); [done|by split|..].
    - intros q v. apply price_request_safe.
    - split; intros k v; cbn; by rewrite lookup_empty.
    - constructor. }
  split; [done|]. unfold get_dutch_auction_price in Hb. apply behaves_ret in Hb as (_ & _ & Hb).
  apply behaves_bind in Hb as (asked & w1 & Ha & Hb). exists asked.
  assert (Hasked : ∀ t, dq_current_time p = Some t → asked = t).
  { intros t Ht. rewrite Ht in Ha. apply behaves_done in Ha as [[= <-] _]. done. }
  assert (Hown : ∀ v, behaves price_step_at (λ _, cache_fresh) (let* response := ret (dutch_response checks p asked) in
    Call (SetDutch (key_of_dutch p asked) response) (λ _, ret (Ok response))) v (Ok r) w' → dutch_response checks p asked = Ok r).
  { intros v Hv. apply behaves_ret in Hv as (resp & -> & Hv).
    by destruct Hv as (? & ? & _ & [[[= ->] _]|(? & ? & _ & [[[= ->] _]|[[= ->] _]])]). }
  assert (Hnow : dutch_response checks p asked = Ok r ∨ entry_dutch (key_of_dutch p asked) r).
  { destruct Hb as (v & w2 & Hf & [Hb|(x & w3 & Hs & [Hb|Hb])]); [left; by eapply Hown| |left; by eapply Hown].
    unfold price_step_at in Hs. cbn [price_exec] in Hs. injection Hs as <- <-.
    destruct (dutch_cache w2 !! _) as [v'|] eqn:Hk; [|left; by eapply Hown]. apply behaves_done in Hb as [[= ->] _].
    right. by apply (fresh_dutch w2 Hf). }
  destruct Hnow as [Hr|(p' & now & Hkey & Hr)].
  - exists asked. apply response_of in Hr as [? ?]. split_and!; [done|lia|done|done].
  - exists now. apply response_of in Hr as [H1 H2]. apply key_same in Hkey as (Hq & He & _ & Hd).
    split_and!; [done|by apply same_bucket|by rewrite Hq|by rewrite He].
Qed.
End Fresh.
