(* ===== verification/SrvListener.v ===== *)
(** * The server: the listener for contract events and its job queue

    [handlers/soroban_listener.rs]: a loop that polls the RPC node and turns
    confirmed events into jobs, a queue in Redis with a channel for the time when
    Redis fails, workers that apply a job to the tables, retries and the queue of
    dead letters.  Loop and workers run concurrently: an action of [lstep] is one
    command to Redis, one operation on the channel or one SQL statement; whether
    it succeeds is part of the action.  The answer of the node is an argument, the
    reading of UUIDs a parameter; reading the environment and waiting are left
    out, the durations are not.  The column [updated_at], which is all that the
    events of the registry about events change, is not kept. *)

From S2P Require Import Prelude Machine SrvQr.
#[local] Open Scope Z_scope.

Definition MIN_CONFIRMATIONS : Z := 2.
Definition POLL_INTERVAL : Z := 5.
Definition MAX_BACKOFF : Z := 300.
Definition MAX_EVENTS_PER_POLL : nat := 100.
Definition MAX_JOB_RETRIES : Z := 5.
Definition CHANNEL_SIZE : nat := 1000.

(** ** Events and jobs *)
Record SorobanEvent : Type := MkSorobanEvent {
  se_id : string; se_ledger : Z; se_contract_id : string; se_topic : list string; se_value : Json;
  se_ledger_closed_at : option string
}.
Record SorobanJob : Type := MkJob {
  sj_id : string; sj_event : SorobanEvent; sj_retry_count : Z; sj_max_retries : Z; sj_created_at : Z
}.
#[export] Instance eta_SorobanJob : Eta SorobanJob := λ j,
  MkJob (sj_id j) (sj_event j) (sj_retry_count j) (sj_max_retries j) (sj_created_at j).
Record ListenerConfig : Type := MkListenerConfig {
  lc_ticket_payment_contract_id : string; lc_event_registry_contract_id : string; lc_start_ledger : Z
}.
Record GetEventsResult : Type := MkPage { ge_events : list SorobanEvent; ge_latest_ledger : Z }.
(** [SorobanJob::new] *)
Definition job_new (now : Z) (event : SorobanEvent) : SorobanJob :=
  MkJob ("job_" +:+ se_id event +:+ "_" +:+ pretty.pretty (se_ledger event)) event 0 MAX_JOB_RETRIES now.
(** Seconds; a power of 64 or more would overflow. *)
Definition backoff_duration (job : SorobanJob) : option Z :=
  let p := 2 ^ sj_retry_count job in if p <? 2 ^ 64 then Some (Z.min p 60) else None.
Definition next_backoff (current : Z) : Z := Z.min (current * 2) MAX_BACKOFF.
Definition should_immediately_fetch_next_page (events_returned : nat) : bool := (events_returned =? MAX_EVENTS_PER_POLL)%nat.
(** [latest.saturating_sub(ledger) >= MIN_CONFIRMATIONS] *)
Definition confirmed (latest : Z) (event : SorobanEvent) : bool :=
  negb (Z.max 0 (latest - se_ledger event) <? MIN_CONFIRMATIONS).
(** What [poll_events] makes of the node's answer. *)
Inductive rpc_answer : Type := Unreachable | Malformed | RpcError | RpcResult (result : option GetEventsResult).
Definition poll_events (answer : rpc_answer) : res string (option GetEventsResult) :=
  match answer with
  | Unreachable => Err "HTTP request failed"
  | Malformed => Err "Failed to parse RPC response"
  | RpcError => Err "RPC error"
  | RpcResult (Some result) => Ok (match ge_events result with [] => None | _ => Some result end)
  | RpcResult None => Ok None
  end.

(** ** The tables *)
Record SyncTicket : Type := MkSyncTicket { sy_event : string; sy_buyer : string; sy_owner : string; sy_status : string }.
#[export] Instance eta_SyncTicket : Eta SyncTicket := λ t, MkSyncTicket (sy_event t) (sy_buyer t) (sy_owner t) (sy_status t).
Record ListenerDb : Type := MkListenerDb {
  ld_tickets : gmap string SyncTicket;                (** by [stellar_id], which is unique *)
  ld_events : gset string;
  ld_organizers : gmap Z (option string * bool)       (** wallet, verified *)
}.
#[export] Instance eta_ListenerDb : Eta ListenerDb := λ d, MkListenerDb (ld_tickets d) (ld_events d) (ld_organizers d).
(** A statement takes effect and says so; fails; or its answer is lost. *)
Inductive sql_outcome : Type := SqlFine | SqlFailed | SqlLost.
(** The result of a statement that fails by itself, or changes the tables. *)
Definition execute (o : sql_outcome) (message : string) (effect : option ListenerDb) (db : ListenerDb) : res string unit * ListenerDb :=
  match o, effect with
  | SqlFine, Some db' => (Ok tt, db')
  | SqlLost, Some db' => (Err message, db')
  | _, _ => (Err message, db)
  end.

Section Processing.
Variable parse_str : string → option string.    (** [Uuid::parse_str] *)
Variable pg_uuid : string → option string.      (** [$2::uuid] *)
Definition value_text (event : SorobanEvent) (field : string) : option string := text_field (se_value event) field.
Definition handle_ticket_purchased (o : sql_outcome) (event : SorobanEvent) (db : ListenerDb) : res string unit * ListenerDb :=
  let event_id := default EmptyString (value_text event "event_id") in
  let buyer_wallet := default EmptyString (value_text event "buyer") in
  let owner_wallet := default buyer_wallet (value_text event "owner") in
  let stellar_id := default (se_id event) (value_text event "stellar_id") in
  if String.eqb event_id "" || String.eqb buyer_wallet "" then (Ok tt, db)
  else
    execute o "DB error upserting ticket"
      (match pg_uuid event_id with
       | None => None
       | Some uuid =>
           if decide (is_Some (ld_tickets db !! stellar_id)) then Some db
           else if decide (uuid ∈ ld_events db)
                then Some (db ⟨ ld_tickets ::= <[stellar_id := MkSyncTicket uuid buyer_wallet owner_wallet "Unused"]> ⟩)
                else None
       end) db.
Definition handle_ticket_refunded (o : sql_outcome) (event : SorobanEvent) (db : ListenerDb) : res string unit * ListenerDb :=
  let stellar_id := default (se_id event) (value_text event "stellar_id") in
  execute o "DB error cancelling ticket" (Some (db ⟨ ld_tickets ::= alter (λ t, t ⟨ sy_status := "Revoked" ⟩) stellar_id ⟩)) db.
Definition handle_event_registered (o : sql_outcome) (event : SorobanEvent) (db : ListenerDb) : res string unit * ListenerDb :=
  let on_chain_event_id := default EmptyString (value_text event "event_id") in
  if String.eqb on_chain_event_id "" then (Ok tt, db)
  else match parse_str on_chain_event_id with
       | Some _ => execute o "DB error updating registered event" (Some db) db
       | None => (Ok tt, db)
       end.
Definition handle_event_status_updated (o : sql_outcome) (event : SorobanEvent) (db : ListenerDb) : res string unit * ListenerDb :=
  let on_chain_event_id := default EmptyString (value_text event "event_id") in
  if String.eqb on_chain_event_id "" then (Ok tt, db)
  else match parse_str on_chain_event_id with
       | Some _ => execute o "DB error updating event status" (Some db) db
       | None => (Ok tt, db)
       end.
Definition verify_wallet (wallet : string) (verified : bool) (db : ListenerDb) : ListenerDb :=
  db ⟨ ld_organizers ::= fmap (λ r, if decide (r.1 = Some wallet) then (r.1, verified) else r) ⟩.
Definition json_bool (v : Json) : option bool := match v with JBool b => Some b | _ => None end.
Definition handle_collateral_staked (o : sql_outcome) (event : SorobanEvent) (db : ListenerDb) : res string unit * ListenerDb :=
  let organizer_wallet := default EmptyString (value_text event "organizer") in
  let is_verified := default false (json_get (se_value event) "is_verified" ≫= json_bool) in
  if String.eqb organizer_wallet "" then (Ok tt, db)
  else execute o "Failed to update organizer verified status" (Some (verify_wallet organizer_wallet is_verified db)) db.
Definition handle_collateral_unstaked (o : sql_outcome) (event : SorobanEvent) (db : ListenerDb) : res string unit * ListenerDb :=
  let organizer_wallet := default EmptyString (value_text event "organizer") in
  if String.eqb organizer_wallet "" then (Ok tt, db)
  else execute o "Failed to reset organizer verified status" (Some (verify_wallet organizer_wallet false db)) db.
Definition process_event (config : ListenerConfig) (o : sql_outcome) (event : SorobanEvent) (db : ListenerDb)
    : res string unit * ListenerDb :=
  let event_name := default "unknown" (head (se_topic event)) in
  if String.eqb (se_contract_id event) (lc_ticket_payment_contract_id config) then
    if bool_decide (event_name ∈ ["ticket_purchased"; "purchase_confirmed"]) then handle_ticket_purchased o event db
    else if String.eqb event_name "ticket_refunded" then handle_ticket_refunded o event db
    else (Ok tt, db)
  else if String.eqb (se_contract_id event) (lc_event_registry_contract_id config) then
    if String.eqb event_name "event_registered" then handle_event_registered o event db
    else if bool_decide (event_name ∈ ["event_status_updated"; "event_cancelled"]) then handle_event_status_updated o event db
    else if bool_decide (event_name ∈ ["collateral_staked"; "CollateralStaked"]) then handle_collateral_staked o event db
    else if bool_decide (event_name ∈ ["collateral_unstaked"; "CollateralUnstaked"]) then handle_collateral_unstaked o event db
    else (Ok tt, db)
  else (Ok tt, db).

(** ** The loop and the workers *)
(** What the loop is about to do with a page: the events left, and the cursor. *)
Inductive producer : Type :=
| Polling
| Enqueuing (rest : list SorobanEvent) (latest : Z) (last : option string).
Inductive worker : Type :=
| Popping
| Working (job : SorobanJob)
| Requeuing (job : SorobanJob)          (** after the wait *)
| Burying (job : SorobanJob).
Record Listener : Type := MkListener {
  l_cursor : option string; l_start_ledger : option Z; l_backoff : Z;
  l_saved_cursor : option string;                     (** [soroban:event_cursor] *)
  l_producer : producer;
  l_queue : list SorobanJob;                          (** [soroban:job_queue] *)
  l_channel : list SorobanJob;
  l_workers : list worker;
  l_dead : list SorobanJob;                           (** [soroban:dead_letter_queue] *)
  l_db : ListenerDb;
  l_pushed : list SorobanJob;                         (** the log: jobs enqueued ... *)
  l_processed : list SorobanJob                       (** ... and jobs done *)
}.
#[export] Instance eta_Listener : Eta Listener := λ s,
  MkListener (l_cursor s) (l_start_ledger s) (l_backoff s) (l_saved_cursor s) (l_producer s) (l_queue s) (l_channel s)
    (l_workers s) (l_dead s) (l_db s) (l_pushed s) (l_processed s).
Inductive action : Type :=
| Poll (answer : rpc_answer)
| PushNext (now : Z) (redis : bool)       (** the next event of the page; whether RPUSH succeeds *)
| EndPage (redis : bool)                  (** whether the cursor is saved *)
| PopRedis (w : nat)
| PopChannel (w : nat)
| Process (w : nat) (o : sql_outcome)
| PushBack (w : nat) (redis : bool)       (** RPUSH of a retry or of a dead letter *)
| Restart.
(** Without a contract to listen to, the listener is not started. *)
Definition listening (config : ListenerConfig) : bool :=
  negb (String.eqb (lc_ticket_payment_contract_id config) "" && String.eqb (lc_event_registry_contract_id config) "").
(** [push_job]: Redis, or else the channel, which may be full. *)
Definition push_job (redis : bool) (job : SorobanJob) (s : Listener) : option Listener :=
  if redis then Some (s ⟨ l_queue ::= λ q, q ++ [job] ⟩ ⟨ l_pushed ::= cons job ⟩)
  else if (length (l_channel s) <? CHANNEL_SIZE)%nat
       then Some (s ⟨ l_channel ::= λ q, q ++ [job] ⟩ ⟨ l_pushed ::= cons job ⟩)
       else None.
Definition set_worker (w : nat) (state : worker) (s : Listener) : Listener := s ⟨ l_workers ::= <[w := state]> ⟩.
(** A failed job waits and is tried again, or goes to the dead letters. *)
Definition on_failure (job : SorobanJob) : worker :=
  if sj_retry_count job <? sj_max_retries job then Requeuing (job ⟨ sj_retry_count ::= Z.add 1 ⟩) else Burying job.
Definition init_listener (config : ListenerConfig) (saved : option string) (workers : nat) (db : ListenerDb) : Listener :=
  MkListener saved (match saved with None => Some (lc_start_ledger config) | Some _ => None end) POLL_INTERVAL saved Polling [] []
    (replicate workers Popping) [] db [] [].
(** A step of the loop of [run_listener]. *)
Definition loop_step (config : ListenerConfig) (a : action) (s : Listener) : option Listener :=
  match a with
  | Poll answer =>
      if negb (listening config) then None else
      match l_producer s, poll_events answer with
      | Polling, Ok (Some page) =>
          Some (s ⟨ l_producer := Enqueuing (ge_events page) (ge_latest_ledger page) (se_id <$> last (ge_events page)) ⟩)
      | Polling, Ok None => Some (s ⟨ l_backoff := POLL_INTERVAL ⟩)
      | Polling, _ => Some (s ⟨ l_backoff ::= next_backoff ⟩)
      | _, _ => None
      end
  | PushNext now redis =>
      match l_producer s with
      | Enqueuing (e :: rest) latest last =>
          let s := s ⟨ l_producer := Enqueuing rest latest last ⟩ in
          if confirmed latest e then push_job redis (job_new now e) s else Some s
      | _ => None
      end
  | EndPage redis =>
      match l_producer s with
      | Enqueuing [] _ (Some last) =>
          let s := s ⟨ l_producer := Polling ⟩ ⟨ l_cursor := Some last ⟩ ⟨ l_start_ledger := None ⟩ ⟨ l_backoff := POLL_INTERVAL ⟩ in
          Some (if redis then s ⟨ l_saved_cursor := Some last ⟩ else s)
      | _ => None
      end
  | _ => None
  end.
(** A step of the loop of [run_worker]. *)
Definition worker_step (config : ListenerConfig) (a : action) (s : Listener) : option Listener :=
  match a with
  | PopRedis w =>
      match l_workers s !! w, l_queue s with
      | Some Popping, job :: q => Some (set_worker w (Working job) (s ⟨ l_queue := q ⟩))
      | _, _ => None
      end
  | PopChannel w =>
      match l_workers s !! w, l_channel s with
      | Some Popping, job :: q => Some (set_worker w (Working job) (s ⟨ l_channel := q ⟩))
      | _, _ => None
      end
  | Process w o =>
      match l_workers s !! w with
      | Some (Working job) =>
          let ' (r, db) := process_event config o (sj_event job) (l_db s) in
          let s := s ⟨ l_db := db ⟩ in
          Some (match r with
                | Ok _ => set_worker w Popping (s ⟨ l_processed ::= cons job ⟩)
                | _ => set_worker w (on_failure job) s
                end)
      | _ => None
      end
  | PushBack w redis =>
      match l_workers s !! w with
      | Some (Requeuing job) => Some (set_worker w Popping (if redis then s ⟨ l_queue ::= λ q, q ++ [job] ⟩ else s))
      | Some (Burying job) => Some (set_worker w Popping (if redis then s ⟨ l_dead ::= λ q, q ++ [job] ⟩ else s))
      | _ => None
      end
  | _ => None
  end.
Definition lstep (config : ListenerConfig) (a : action) (s : Listener) : option Listener :=
  match a with
  | Poll _ | PushNext _ _ | EndPage _ => loop_step config a s
  | PopRedis _ | PopChannel _ | Process _ _ | PushBack _ _ => worker_step config a s
  | Restart =>
      Some ((init_listener config (l_saved_cursor s) (length (l_workers s)) (l_db s))
              ⟨ l_queue := l_queue s ⟩ ⟨ l_dead := l_dead s ⟩ ⟨ l_pushed := l_pushed s ⟩ ⟨ l_processed := l_processed s ⟩)
  end.
Definition lrun (config : ListenerConfig) (l : list action) (s : Listener) : option Listener :=
  foldl (λ s a, s ← s; lstep config a s) (Some s) l.
End Processing.

(** ** Where the jobs are *)
Definition held (w : worker) : list SorobanJob :=
  match w with Popping => [] | Working job | Requeuing job | Burying job => [job] end.
Definition in_hand (s : Listener) : list SorobanJob := concat (map held (l_workers s)).
Definition jobs_of (s : Listener) : list SorobanJob := l_queue s ++ l_channel s ++ in_hand s ++ l_dead s.
(** The confirmed events of the page at hand that are not enqueued yet. *)
Definition todo (s : Listener) : list SorobanEvent :=
  match l_producer s with Polling => [] | Enqueuing rest latest _ => filter (λ e, confirmed latest e = true) rest end.
Lemma in_hand_at ws w old : ws !! w = Some old → ∃ rest, concat (map held ws) ≡ₚ held old ++ rest ∧
  ∀ new, concat (map held (<[w := new]> ws)) ≡ₚ held new ++ rest.
Proof.
  intros Hw. exists (concat (map held (take w ws)) ++ concat (map held (drop (S w) ws))). split.
  - rewrite <- (take_drop_middle ws w old Hw) at 1. rewrite map_app, concat_app. cbn [map concat]. by solve_Permutation.
  - intros new. rewrite insert_take_drop by (by eapply lookup_lt_Some). rewrite map_app, concat_app. cbn [map concat]. by solve_Permutation.
Qed.
Section Listener_facts.
Variable parse_str pg_uuid : string → option string.
Variable config : ListenerConfig.
Abbreviation step := (lstep parse_str pg_uuid config).
Abbreviation run := (lrun parse_str pg_uuid config).
Lemma lrun_snoc l a s : run (l ++ [a]) s = run l s ≫= step a.
Proof. unfold lrun. by rewrite foldl_app. Qed.
Lemma lrun_ind (P : list action → Listener → Prop) s :
  P [] s → (∀ l a s1 s2, run l s = Some s1 → P l s1 → step a s1 = Some s2 → P (l ++ [a]) s2) →
  ∀ l s', run l s = Some s' → P l s'.
Proof.
  intros H0 Hs l. induction l as [|a l IH] using rev_ind; intros s'; [by intros [= <-]|].
  rewrite lrun_snoc. intros (s1 & H1 & H2)%bind_Some. by eapply Hs; [|apply IH|].
Qed.
Lemma process_event_cases o e db : ∃ r db', process_event parse_str pg_uuid config o e db = (r, db') ∧ (r = Ok tt ∨ ∃ m, r = Err m).
Proof.
  assert (Hx : ∀ m eff, ∃ r db', execute o m eff db = (r, db') ∧ (r = Ok tt ∨ ∃ m, r = Err m)).
  { intros m eff. destruct o, eff; cbn; eauto 10. }
  unfold process_event, handle_ticket_purchased, handle_ticket_refunded, handle_event_registered, handle_event_status_updated,
    handle_collateral_staked, handle_collateral_unstaked.
  repeat case_match; eauto 10.
Qed.

(** *** No job is lost while Redis answers and nothing crashes *)
Definition reliable (a : action) : Prop := match a with PushBack _ redis => redis = true | Restart => False | _ => True end.
Definition confirmed_of (a : action) : list SorobanEvent :=
  match a with
  | Poll (RpcResult (Some page)) => filter (λ e, confirmed (ge_latest_ledger page) e = true) (ge_events page)
  | _ => []
  end.
Definition accounted (s : Listener) : list SorobanEvent := todo s ++ map sj_event (jobs_of s ++ l_processed s).
(** How the jobs change when a worker does. *)
Lemma worker_moves s w old new queue channel dead processed s' : l_workers s !! w = Some old →
  l_workers s' = <[w := new]> (l_workers s) → l_producer s' = l_producer s →
  l_queue s' = queue → l_channel s' = channel → l_dead s' = dead → l_processed s' = processed →
  map sj_event (queue ++ channel ++ held new ++ dead ++ processed) ≡ₚ
  map sj_event (l_queue s ++ l_channel s ++ held old ++ l_dead s ++ l_processed s) →
  accounted s' ≡ₚ accounted s.
Proof.
  intros Hw Hws Hp <- <- <- <- Hperm. destruct (in_hand_at _ _ _ Hw) as (rest & H1 & H2). specialize (H2 new).
  unfold accounted, todo, jobs_of, in_hand. rewrite Hp, Hws. apply Permutation_app_head. rewrite H1, H2.
  assert (Hmove : ∀ q c h d p : list SorobanJob, (q ++ c ++ (h ++ rest) ++ d) ++ p ≡ₚ rest ++ (q ++ c ++ h ++ d ++ p)) by (intros; solve_Permutation).
  rewrite !Hmove, !(map_app _ rest). by apply Permutation_app_head.
Qed.
Ltac shuffle := cbn; rewrite ?map_app; cbn; rewrite ?map_app; cbn; solve_Permutation.
Lemma push_accounted redis job s s' : push_job redis job s = Some s' → accounted s' ≡ₚ sj_event job :: accounted s.
Proof.
  unfold push_job. intros Hp. destruct redis; [|destruct (_ <? _)%nat; [|done]]; injection Hp as <-;
    unfold accounted, jobs_of, in_hand, todo; cbn; rewrite !map_app; cbn [map]; solve_Permutation.
Qed.
Lemma lstep_accounts a s s' : reliable a → step a s = Some s' → accounted s' ≡ₚ accounted s ++ confirmed_of a.
Proof.
  intros Ha Hs. destruct a as [answer|now redis|redis|w|w|w o|w redis|]; cbn [lstep loop_step worker_step confirmed_of] in *; rewrite ?app_nil_r.
  - destruct (listening config); [|done]. cbn [negb] in Hs.
    destruct (l_producer s) as [|rest latest lst] eqn:Hp; [|by destruct (poll_events answer) as [[?|]| |]].
    destruct answer as [| | |[[events latest]|]]; cbn [poll_events] in Hs;
      [injection Hs as <-; by rewrite app_nil_r..| |injection Hs as <-; by rewrite app_nil_r].
    cbn [ge_events ge_latest_ledger] in *. destruct events as [|e events]; injection Hs as <-;
      unfold accounted, todo; cbn [l_producer upd eta_expand eta_Listener ge_events ge_latest_ledger]; rewrite Hp; [by rewrite app_nil_r|].
    change (jobs_of _) with (jobs_of s). cbn. rewrite Permutation_app_comm. done.
  - destruct (l_producer s) as [|[|e rest] latest lst] eqn:Hp; [done|done|].
    set (s1 := s ⟨ l_producer := Enqueuing rest latest lst ⟩) in *.
    assert (H1 : accounted s1 ≡ₚ filter (λ e, confirmed latest e = true) rest ++ map sj_event (jobs_of s ++ l_processed s)) by done.
    assert (H2 : accounted s = filter (λ e, confirmed latest e = true) (e :: rest) ++ map sj_event (jobs_of s ++ l_processed s)).
    { unfold accounted, todo. by rewrite Hp. }
    destruct (confirmed latest e) eqn:Hc.
    + apply push_accounted in Hs. rewrite Hs, H1, H2. rewrite filter_cons_True by done. done.
    + injection Hs as <-. rewrite H1, H2. by rewrite filter_cons_False by congruence.
  - destruct (l_producer s) as [|[|e rest] latest [lst|]] eqn:Hp; try done. injection Hs as <-.
    unfold accounted, todo. rewrite Hp. by destruct redis.
  - destruct (l_workers s !! w) as [[|j|j|j]|] eqn:Hw; try done. destruct (l_queue s) as [|job q] eqn:Hq; [done|]. injection Hs as <-.
    eapply (worker_moves s w Popping (Working job)); [done|reflexivity..|]. rewrite Hq. shuffle.
  - destruct (l_workers s !! w) as [[|j|j|j]|] eqn:Hw; try done. destruct (l_channel s) as [|job q] eqn:Hq; [done|]. injection Hs as <-.
    eapply (worker_moves s w Popping (Working job)); [done|reflexivity..|]. rewrite Hq. shuffle.
  - destruct (l_workers s !! w) as [[|job|j|j]|] eqn:Hw; try done.
    destruct (process_event_cases o (sj_event job) (l_db s)) as (r & db & Hpe & Hr). rewrite Hpe in Hs.
    destruct Hr as [->|[m ->]]; injection Hs as <-.
    + eapply (worker_moves s w (Working job) Popping); [done|reflexivity..|]. shuffle.
    + eapply (worker_moves s w (Working job) (on_failure job)); [done|reflexivity..|].
      unfold on_failure. destruct (_ <? _); shuffle.
  - cbn in Ha. subst redis. destruct (l_workers s !! w) as [[|j|job|job]|] eqn:Hw; try done; injection Hs as <-.
    + eapply (worker_moves s w (Requeuing job) Popping); [done|reflexivity..|]. shuffle.
    + eapply (worker_moves s w (Burying job) Popping); [done|reflexivity..|]. shuffle.
  - done.
Qed.
Lemma init_accounted saved n db : accounted (init_listener config saved n db) = [].
Proof.
  unfold accounted, todo, jobs_of, in_hand. cbn. induction n as [|n IH]; [done|]. cbn. done.
Qed.


(** *** Where jobs come from *)
Definition all_jobs (s : Listener) : list SorobanJob := l_pushed s ++ jobs_of s ++ l_processed s.
Lemma in_hand_elem s j : j ∈ in_hand s ↔ ∃ w st, l_workers s !! w = Some st ∧ j ∈ held st.
Proof.
  unfold in_hand. rewrite list_elem_of_In, in_concat. setoid_rewrite <- list_elem_of_In. split.
  - intros (l & (st & -> & Hst)%list_elem_of_fmap & Hj). apply list_elem_of_lookup in Hst as [w Hw]. by exists w, st.
  - intros (w & st & Hw & Hj). exists (held st). split; [|done]. apply list_elem_of_fmap_2. by eapply list_elem_of_lookup_2.
Qed.
Lemma all_jobs_elem s j : j ∈ all_jobs s ↔ j ∈ l_pushed s ∨ j ∈ l_queue s ∨ j ∈ l_channel s ∨
  (∃ w st, l_workers s !! w = Some st ∧ j ∈ held st) ∨ j ∈ l_dead s ∨ j ∈ l_processed s.
Proof. unfold all_jobs, jobs_of. rewrite !elem_of_app, in_hand_elem. tauto. Qed.
(** A job is an old one, a new one of the page, or an old one after a failure. *)
Definition comes_from (s : Listener) (j : SorobanJob) : Prop :=
  j ∈ all_jobs s ∨
  (∃ now e rest latest lst, l_producer s = Enqueuing (e :: rest) latest lst ∧ confirmed latest e = true ∧ j = job_new now e) ∨
  (∃ j0, j0 ∈ all_jobs s ∧ sj_retry_count j0 < sj_max_retries j0 ∧ j = j0 ⟨ sj_retry_count ::= Z.add 1 ⟩).
Lemma set_worker_jobs s s1 w old new (Q : SorobanJob → Prop) : l_workers s !! w = Some old →
  l_workers s1 = l_workers s →
  (∀ j, j ∈ l_pushed s1 ∨ j ∈ l_queue s1 ∨ j ∈ l_channel s1 ∨ j ∈ l_dead s1 ∨ j ∈ l_processed s1 → Q j) →
  (∀ j, j ∈ held new → Q j) → (∀ j, j ∈ all_jobs s → Q j) → ∀ j, j ∈ all_jobs (set_worker w new s1) → Q j.
Proof.
  intros Hw Hws H1 H2 H3 j. rewrite all_jobs_elem. unfold set_worker. cbn.
  intros [?|[?|[?|[(w' & st & Hst & Hj)|[?|?]]]]]; [apply H1; tauto..| |apply H1; tauto|apply H1; tauto].
  rewrite Hws in Hst. destruct (decide (w = w')) as [<-|Hne].
  - rewrite list_lookup_insert_eq in Hst by (by eapply lookup_lt_Some). injection Hst as <-. by apply H2.
  - rewrite list_lookup_insert_ne in Hst by done. apply H3, all_jobs_elem. right. right. right. left. by exists w', st.
Qed.
Lemma lstep_jobs a s s' : step a s = Some s' → ∀ j, j ∈ all_jobs s' → comes_from s j.
Proof.
  intros Hs. assert (Hall : ∀ j, j ∈ all_jobs s → comes_from s j) by (intros j Hj; by left).
  assert (Hpart : ∀ j, j ∈ l_pushed s ∨ j ∈ l_queue s ∨ j ∈ l_channel s ∨ j ∈ l_dead s ∨ j ∈ l_processed s → comes_from s j).
  { intros j Hj. apply Hall, all_jobs_elem. tauto. }
  destruct a as [answer|now redis|redis|w|w|w o|w redis|]; cbn [lstep loop_step worker_step] in Hs.
  - destruct (negb _); [done|]. destruct (l_producer s), (poll_events answer) as [[?|]| |]; try done; by injection Hs as <-.
  - destruct (l_producer s) as [|[|e rest] latest lst] eqn:Hp; [done|done|].
    destruct (confirmed latest e) eqn:Hc; [|by injection Hs as <-].
    assert (Hnew : comes_from s (job_new now e)) by (right; left; by eexists _, _, _, _, _).
    unfold push_job in Hs. destruct redis; [|destruct (_ <? _)%nat; [|done]]; injection Hs as <-; intros j; rewrite all_jobs_elem; cbn;
      rewrite ?elem_of_app, ?elem_of_cons, ?elem_of_nil; intros Hj; destruct_or!; subst;
      try done; apply Hall, all_jobs_elem; tauto.
  - destruct (l_producer s) as [|[|e rest] latest [lst|]]; try done. injection Hs as <-. by destruct redis.
  - destruct (l_workers s !! w) as [[|j|j|j]|] eqn:Hw; try done. destruct (l_queue s) as [|job q] eqn:Hq; [done|]. injection Hs as <-.
    eapply set_worker_jobs; [exact Hw|done| | |exact Hall].
    + intros j Hj. apply Hpart. rewrite ?Hq, elem_of_cons. cbn in Hj. tauto.
    + intros j ->%list_elem_of_singleton. apply Hpart. rewrite ?Hq. right. left. left.
  - destruct (l_workers s !! w) as [[|j|j|j]|] eqn:Hw; try done. destruct (l_channel s) as [|job q] eqn:Hq; [done|]. injection Hs as <-.
    eapply set_worker_jobs; [exact Hw|done| | |exact Hall].
    + intros j Hj. apply Hpart. rewrite ?Hq, elem_of_cons. cbn in Hj. tauto.
    + intros j ->%list_elem_of_singleton. apply Hpart. rewrite ?Hq. right. right. left. left.
  - destruct (l_workers s !! w) as [[|job|j|j]|] eqn:Hw; try done.
    assert (Hjob : job ∈ all_jobs s) by (apply all_jobs_elem; right; right; right; left; exists w, (Working job); split; [done|left]).
    destruct (process_event_cases o (sj_event job) (l_db s)) as (r & db & Hpe & Hr). rewrite Hpe in Hs.
    destruct Hr as [->|[m ->]]; injection Hs as <-; (eapply set_worker_jobs; [exact Hw|done| | |exact Hall]).
    + intros j. cbn. rewrite elem_of_cons. intros Hj. destruct_or!; subst; auto; apply Hpart; tauto.
    + by intros j ?%elem_of_nil.
    + intros j Hj. apply Hpart. exact Hj.
    + unfold on_failure. destruct (Z.ltb_spec (sj_retry_count job) (sj_max_retries job)); intros j ->%list_elem_of_singleton; [|by auto].
      right. right. by exists job.
  - destruct (l_workers s !! w) as [[|j|job|job]|] eqn:Hw; try done; injection Hs as <-;
      (assert (Hjob : comes_from s job) by (apply Hall, all_jobs_elem; right; right; right; left; eexists w, _; split; [done|left]));
      (eapply set_worker_jobs; [exact Hw|by destruct redis| |by intros j ?%elem_of_nil|exact Hall]);
      intros j; destruct redis; cbn; rewrite ?elem_of_app, ?elem_of_cons, ?elem_of_nil; intros Hj; destruct_or!; subst; auto; try done; apply Hpart; tauto.
  - injection Hs as <-. intros j Hj. apply Hpart. apply all_jobs_elem in Hj. cbn in Hj. destruct_or!; try tauto.
    + by apply elem_of_nil in Hj.
    + destruct Hj as (w & st & Hw & Hj). apply lookup_replicate in Hw as [-> _]. by apply elem_of_nil in Hj.
Qed.

(** *** Where tickets come from *)
Definition revoked (t : SyncTicket) : SyncTicket := t ⟨ sy_status := "Revoked" ⟩.
(** The ticket that a purchase names. *)
Record purchase_of (e : SorobanEvent) (k : string) (t : SyncTicket) : Prop := {
  po_contract : se_contract_id e = lc_ticket_payment_contract_id config;
  po_name : ∃ name, head (se_topic e) = Some name ∧ name ∈ ["ticket_purchased"; "purchase_confirmed"];
  po_stellar : default (se_id e) (value_text e "stellar_id") = k;
  po_event : ∃ id, value_text e "event_id" = Some id ∧ pg_uuid id = Some (sy_event t);
  po_buyer : value_text e "buyer" = Some (sy_buyer t);
  po_owner : default (sy_buyer t) (value_text e "owner") = sy_owner t
}.
(** What processing an event may do to the tickets. *)
Record ticket_change (e : SorobanEvent) (db db' : ListenerDb) : Prop := {
  tc_kept k t : ld_tickets db !! k = Some t → ld_tickets db' !! k = Some t ∨ ld_tickets db' !! k = Some (revoked t);
  tc_new k t : ld_tickets db !! k = None → ld_tickets db' !! k = Some t → purchase_of e k t ∧ sy_status t = "Unused"
}.
Lemma no_ticket_change e db db' : ld_tickets db' = ld_tickets db → ticket_change e db db'.
Proof. intros Heq. split; rewrite Heq; [auto|congruence]. Qed.
Lemma execute_change e o m eff db r db' : execute o m eff db = (r, db') →
  (∀ db1, eff = Some db1 → ticket_change e db db1) → ticket_change e db db'.
Proof. intros Hx Heff. destruct o, eff; cbn in Hx; simplify_eq; auto using no_ticket_change. Qed.
Lemma default_nonempty o s : s ≠ EmptyString → default EmptyString o = s → o = Some s.
Proof. destruct o; cbn; [by intros _ ->|congruence]. Qed.
Lemma purchased_change o e db r db' : se_contract_id e = lc_ticket_payment_contract_id config →
  default "unknown" (head (se_topic e)) ∈ ["ticket_purchased"; "purchase_confirmed"] →
  handle_ticket_purchased pg_uuid o e db = (r, db') → ticket_change e db db'.
Proof.
  intros Hc Hn. unfold handle_ticket_purchased. destruct (String.eqb_spec (default EmptyString (value_text e "event_id")) "") as [|He];
    [intros [= <- <-]; by apply no_ticket_change|].
  destruct (String.eqb_spec (default EmptyString (value_text e "buyer")) "") as [|Hb]; [intros [= <- <-]; by apply no_ticket_change|].
  cbn [orb]. intros Hx. eapply execute_change; [exact Hx|]. clear Hx. intros db1 Heff.
  destruct (pg_uuid _) as [uuid|] eqn:Hu; [|done]. destruct (decide _) as [|Hnew]; [injection Heff as <-; by apply no_ticket_change|].
  destruct (decide (uuid ∈ _)); [|done]. injection Heff as <-. set (k := default (se_id e) _) in *. split.
  - intros k' t Hk. left. cbn. rewrite lookup_insert_ne; [done|]. intros <-. apply Hnew. by exists t.
  - intros k' t Hk. cbn. rewrite lookup_insert_Some, Hk. intros [[<- <-]|[_ ?]]; [|done]. split; [|done]. split; cbn.
    + done.
    + destruct (head (se_topic e)) as [name|]; [by exists name|]. cbn in Hn. set_solver.
    + done.
    + eexists. split; [by apply (default_nonempty _ _ He)|done].
    + by apply (default_nonempty _ _ Hb).
    + done.
Qed.
Lemma refunded_change o e db r db' : handle_ticket_refunded o e db = (r, db') → ticket_change e db db'.
Proof.
  intros Hx. eapply execute_change; [exact Hx|]. intros db1 [= <-]. set (k := default (se_id e) _). split.
  - intros k' t Hk. cbn. destruct (decide (k = k')) as [<-|].
    + right. by rewrite lookup_alter_eq, Hk.
    + left. by rewrite lookup_alter_ne.
  - intros k' t Hk. cbn. rewrite lookup_alter_Some, Hk. intros [(_ & ? & [=] & _)|[_ [=]]].
Qed.
Lemma process_change o e db r db' : process_event parse_str pg_uuid config o e db = (r, db') → ticket_change e db db'.
Proof.
  assert (Hex : ∀ m db1 r db', execute o m (Some db1) db = (r, db') → ld_tickets db1 = ld_tickets db → ticket_change e db db').
  { intros m db1 r1 db2 Hx Heq. eapply execute_change; [exact Hx|]. intros db3 [= <-]. by apply no_ticket_change. }
  unfold process_event. destruct (String.eqb_spec (se_contract_id e) (lc_ticket_payment_contract_id config)).
  - case_bool_decide; [by apply purchased_change|]. case_match; [by apply refunded_change|]. intros [= <- <-]. by apply no_ticket_change.
  - unfold handle_event_registered, handle_event_status_updated, handle_collateral_staked, handle_collateral_unstaked.
    repeat case_match; intros Hx; first [by eapply Hex|injection Hx as <- <-; by apply no_ticket_change].
Qed.
Lemma revoked_twice t : revoked (revoked t) = revoked t.
Proof. done. Qed.
(** *** Everything goes back to confirmed events *)
Definition reported (acts : list action) : list SorobanEvent := concat (map confirmed_of acts).
Lemma reported_snoc acts a : reported (acts ++ [a]) = reported acts ++ confirmed_of a.
Proof. unfold reported. rewrite map_app, concat_app. cbn. by rewrite app_nil_r. Qed.
Definition page_traced (acts : list action) (s : Listener) : Prop :=
  ∀ e, e ∈ todo s → e ∈ reported acts.
Definition jobs_traced (acts : list action) (s : Listener) : Prop :=
  ∀ j, j ∈ all_jobs s → sj_event j ∈ reported acts ∧ 0 ≤ sj_retry_count j ≤ 5 ∧ sj_max_retries j = 5.
Definition dead_traced (s : Listener) : Prop :=
  ∀ j, j ∈ l_dead s ∨ (∃ w, l_workers s !! w = Some (Burying j)) → sj_retry_count j = sj_max_retries j.
Record tickets_traced (db0 : ListenerDb) (acts : list action) (s : Listener) : Prop := {
  tt_kept k t : ld_tickets db0 !! k = Some t → ld_tickets (l_db s) !! k = Some t ∨ ld_tickets (l_db s) !! k = Some (revoked t);
  tt_new k t : ld_tickets db0 !! k = None → ld_tickets (l_db s) !! k = Some t →
    ∃ e, e ∈ reported acts ∧ purchase_of e k t ∧ (sy_status t = "Unused" ∨ sy_status t = "Revoked")
}.
Lemma lstep_page acts a s s' : page_traced acts s → step a s = Some s' → page_traced (acts ++ [a]) s'.
Proof.
  intros Hp Hs e. rewrite reported_snoc, elem_of_app. unfold page_traced, todo in *.
  destruct a as [answer|now redis|redis|w|w|w o|w redis|]; cbn [lstep loop_step worker_step confirmed_of] in *.
  - destruct (negb _); [done|]. destruct (l_producer s) as [|rest latest lst] eqn:Hq, answer as [| | |[[events last]|]]; cbn [poll_events] in Hs; try done;
      try (destruct events as [|x events]; cbn [ge_events] in Hs); try done; injection Hs as <-; cbn; rewrite ?Hq; auto; by intros ?%elem_of_nil.
  - destruct (l_producer s) as [|[|x rest] latest lst] eqn:Hq; [done|done|].
    assert (Hsub : l_producer s' = Enqueuing rest latest lst).
    { destruct (confirmed latest x); [|by injection Hs as <-]. unfold push_job in Hs. destruct redis; [by injection Hs as <-|].
      destruct (_ <? _)%nat; [by injection Hs as <-|done]. }
    rewrite Hsub. intros [Hc He]%list_elem_of_filter. left. apply Hp. apply list_elem_of_filter. split; [done|by right].
  - destruct (l_producer s) as [|[|x rest] latest [lst|]]; try done. injection Hs as <-. destruct redis; by intros ?%elem_of_nil.
  - destruct (l_workers s !! w) as [[|j|j|j]|], (l_queue s); try done. injection Hs as <-. cbn. auto.
  - destruct (l_workers s !! w) as [[|j|j|j]|], (l_channel s); try done. injection Hs as <-. cbn. auto.
  - destruct (l_workers s !! w) as [[|j|j|j]|]; try done. destruct (process_event _ _ _ _ _ _) as [r db].
    destruct r; injection Hs as <-; cbn; auto.
  - destruct (l_workers s !! w) as [[|j|j|j]|]; try done; injection Hs as <-; destruct redis; cbn; auto.
  - injection Hs as <-. cbn. by intros ?%elem_of_nil.
Qed.
Lemma lstep_jobs_traced acts a s s' : page_traced acts s → jobs_traced acts s → step a s = Some s' → jobs_traced (acts ++ [a]) s'.
Proof.
  intros Hp Hj Hs j Hin. rewrite reported_snoc, elem_of_app.
  destruct (lstep_jobs a s s' Hs j Hin) as [Hold|[(now & e & rest & latest & lst & Hq & Hc & ->)|(j0 & H0 & Hlt & ->)]].
  - destruct (Hj j Hold) as (? & ? & ?). auto.
  - cbn. unfold MAX_JOB_RETRIES. split_and!; [|lia..]. left. apply Hp. unfold todo. rewrite Hq. apply list_elem_of_filter. split; [done|left].
  - destruct (Hj j0 H0) as (? & ? & ?). cbn. split_and!; [auto|lia..].
Qed.
Lemma lstep_dead a s s' : dead_traced s → (∀ j, j ∈ all_jobs s → sj_retry_count j ≤ sj_max_retries j) → step a s = Some s' → dead_traced s'.
Proof.
  intros Hd Hle Hs.
  assert (Hset : ∀ w st s1, l_dead s1 = l_dead s → l_workers s1 = l_workers s →
    (∀ j, st = Burying j → sj_retry_count j = sj_max_retries j) → dead_traced (set_worker w st s1)).
  { intros w st s1 E1 E2 Hst j [Hj|[w' Hw']]; [apply Hd; left; by rewrite <- E1|]. unfold set_worker in Hw'. cbn in Hw'. rewrite E2 in Hw'.
    apply list_lookup_insert_Some in Hw' as [(_ & Heq & _)|[_ Hw']]; [by apply Hst|]. apply Hd. right. by exists w'. }
  destruct a as [answer|now redis|redis|w|w|w o|w redis|]; cbn [lstep loop_step worker_step] in Hs.
  - destruct (negb _); [done|]. destruct (l_producer s), (poll_events answer) as [[?|]| |]; try done; by injection Hs as <-.
  - destruct (l_producer s) as [|[|e rest] latest lst]; [done|done|]. destruct (confirmed latest e); [|by injection Hs as <-].
    unfold push_job in Hs. destruct redis; [by injection Hs as <-|]. destruct (_ <? _)%nat; [by injection Hs as <-|done].
  - destruct (l_producer s) as [|[|e rest] latest [lst|]]; try done. injection Hs as <-. by destruct redis.
  - destruct (l_workers s !! w) as [[|j|j|j]|], (l_queue s); try done. injection Hs as <-. by apply Hset.
  - destruct (l_workers s !! w) as [[|j|j|j]|], (l_channel s); try done. injection Hs as <-. by apply Hset.
  - destruct (l_workers s !! w) as [[|job|j|j]|] eqn:Hw; try done. destruct (process_event _ _ _ _ _ _) as [r db].
    assert (Hf : ∀ j, on_failure job = Burying j → sj_retry_count j = sj_max_retries j).
    { unfold on_failure. destruct (Z.ltb_spec (sj_retry_count job) (sj_max_retries job)); [done|]. intros j [= <-].
      assert (job ∈ all_jobs s) as Hj%Hle by (apply all_jobs_elem; right; right; right; left; exists w, (Working job); split; [done|left]). lia. }
    destruct r; injection Hs as <-; by apply Hset.
  - destruct (l_workers s !! w) as [[|j|job|job]|] eqn:Hw; try done; injection Hs as <-; [destruct redis; by apply Hset|].
    destruct redis; [|by apply Hset]. intros j [Hj|[w' Hw']].
    + unfold set_worker in Hj. cbn in Hj. apply elem_of_app in Hj as [Hj| ->%list_elem_of_singleton]; apply Hd; [by left|right; by exists w].
    + unfold set_worker in Hw'. cbn in Hw'. apply list_lookup_insert_Some in Hw' as [(_ & [=] & _)|[_ Hw']]. apply Hd. right. by exists w'.
  - injection Hs as <-. intros j [Hj|[w' Hw']]; [apply Hd; by left|]. cbn in Hw'. by apply lookup_replicate in Hw' as [[=] _].
Qed.
(** Only a worker that processes a job touches the tables. *)
Lemma lstep_db a s s' : step a s = Some s' → l_db s' = l_db s ∨
  ∃ j, j ∈ all_jobs s ∧ ticket_change (sj_event j) (l_db s) (l_db s').
Proof.
  intros Hs. destruct a as [answer|now redis|redis|w|w|w o|w redis|]; cbn [lstep loop_step worker_step] in Hs.
  - destruct (negb _); [done|]. destruct (l_producer s), (poll_events answer) as [[?|]| |]; try done; injection Hs as <-; by left.
  - destruct (l_producer s) as [|[|e rest] latest lst]; [done|done|]. left. destruct (confirmed latest e); [|by injection Hs as <-].
    unfold push_job in Hs. destruct redis; [by injection Hs as <-|]. destruct (_ <? _)%nat; [by injection Hs as <-|done].
  - destruct (l_producer s) as [|[|e rest] latest [lst|]]; try done. injection Hs as <-. left. by destruct redis.
  - destruct (l_workers s !! w) as [[|j|j|j]|], (l_queue s); try done. injection Hs as <-. by left.
  - destruct (l_workers s !! w) as [[|j|j|j]|], (l_channel s); try done. injection Hs as <-. by left.
  - destruct (l_workers s !! w) as [[|job|j|j]|] eqn:Hw; try done. destruct (process_event _ _ _ _ _ _) as [r db] eqn:Hpe.
    right. exists job. split.
    + apply all_jobs_elem. right. right. right. left. exists w, (Working job). split; [done|left].
    + apply process_change in Hpe. destruct r; injection Hs as <-; exact Hpe.
  - destruct (l_workers s !! w) as [[|j|j|j]|]; try done; injection Hs as <-; left; by destruct redis.
  - injection Hs as <-. by left.
Qed.
Lemma lstep_tickets db0 acts a s s' : jobs_traced acts s → tickets_traced db0 acts s → step a s = Some s' →
  tickets_traced db0 (acts ++ [a]) s'.
Proof.
  intros Hj [Hk Hn] Hs. assert (Hrep : ∀ e, e ∈ reported acts → e ∈ reported (acts ++ [a])) by (intros e; rewrite reported_snoc, elem_of_app; auto).
  destruct (lstep_db a s s' Hs) as [Hdb|(j & Hin & [C1 C2])].
  { split; rewrite Hdb; [exact Hk|]. intros k t H0 Ht. destruct (Hn k t H0 Ht) as (e & ? & ?). eauto. }
  destruct (Hj j Hin) as (Hr & _). split.
  - intros k t H0. destruct (Hk k t H0) as [Ht|Ht]; [by apply C1 in Ht|]. destruct (C1 _ _ Ht) as [?|H1]; [by right|]. right. by rewrite revoked_twice in H1.
  - intros k t H0 Ht. destruct (ld_tickets (l_db s) !! k) as [t1|] eqn:H1.
    + destruct (Hn k t1 H0 H1) as (e & He & Hp & Hst). destruct (C1 _ _ H1) as [H2|H2]; rewrite H2 in Ht; injection Ht as <-; exists e.
      * by auto.
      * split_and!; [by auto| |by right]. destruct Hp as [? ? ? ? ? ?]. by split.
    + destruct (C2 k t H1 Ht) as [Hp Hst]. exists (sj_event j). auto.
Qed.

(** C31. Synchronised tickets go back to confirmed purchases.  From the start, under
    every interleaving of the loop with its workers, whatever fails (RPC answers,
    SQL statements before or after they take effect, Redis) and however often the
    process restarts: a ticket that was not there before is the one that a
    [ticket_purchased] or [purchase_confirmed] event of the payment contract names,
    which the node reported at least two ledgers below its head; a ticket keeps
    event, buyer and owner for good, and once revoked stays revoked; every job is
    tried again at most five times, and the dead letters were. *)
Theorem synced_tickets_confirmed acts saved n db s :
  run acts (init_listener config saved n db) = Some s →
  tickets_traced db acts s ∧ jobs_traced acts s ∧ dead_traced s.
Proof.
  intros Hr. cut (page_traced acts s ∧ tickets_traced db acts s ∧ jobs_traced acts s ∧ dead_traced s); [tauto|]. revert acts s Hr.
  apply (lrun_ind (λ acts s, page_traced acts s ∧ tickets_traced db acts s ∧ jobs_traced acts s ∧ dead_traced s)).
  - assert (Hnone : ∀ w st, l_workers (init_listener config saved n db) !! w = Some st → st = Popping).
    { intros w st Hw. cbn in Hw. by apply lookup_replicate in Hw as [-> _]. }
    split_and!.
    + by intros e ?%elem_of_nil.
    + split; cbn; [by left|congruence].
    + intros j Hj%all_jobs_elem. cbn in Hj. destruct_or!; try (by apply elem_of_nil in Hj).
      destruct Hj as (w & st & ->%Hnone & Hj). by apply elem_of_nil in Hj.
    + intros j [Hj|[w Hw]]; [by apply elem_of_nil in Hj|]. by apply Hnone in Hw.
  - intros l a s1 s2 _ (Hp & Ht & Hj & Hd) Hs. split_and!.
    + by eapply lstep_page.
    + by eapply lstep_tickets.
    + by eapply lstep_jobs_traced.
    + eapply lstep_dead; [done| |done]. intros j Hin. destruct (Hj j Hin) as (_ & ? & ?). lia.
Qed.
End Listener_facts.
