(* ===== verification/SrvRates.v ===== *)
(** * The server: exchange rates

    [handlers/rates.rs]: the rate of a currency pair from an external provider,
    with retries, two levels of cache and a circuit breaker of two atomic
    counters that all requests share.  Each access to a counter, each command to
    Redis and each request to the provider is one command.  The world also keeps
    what the theorems speak of: when the provider was asked, what it reported,
    what was stored and what was answered. *)

From Stdlib Require Import QArith Ascii String.
From stdpp Require Import gmap strings.
From S2P Require Import Prelude Machine Prog WaitSpecs SrvErrors.
#[local] Open Scope Z_scope.

Definition CACHE_TTL : Z := 60.
Definition STALE_CACHE_TTL : Z := 3600.
Definition DEFAULT_BASE_CURRENCY : string := "XLM".
Definition DEFAULT_QUOTE_CURRENCY : string := "USD".
Definition CIRCUIT_BREAKER_THRESHOLD : Z := 3.
Definition CIRCUIT_BREAKER_RESET_SECS : Z := 60.
Definition BACKOFF_BASE_MS : Z := 200.
Definition MAX_ATTEMPTS : Z := 3.

Record CircuitBreaker : Type := MkBreaker { failures : Z; opened_at : Z }.
Definition breaker_new : CircuitBreaker := MkBreaker 0 0.
Record ExchangeRate : Type := MkRate { er_base : string; er_quote : string; er_rate : Q }.
(** The parameters of a request; those left out take the default. *)
Record RatesQuery : Type := MkRatesQuery { rq_base : option string; rq_quote : option string }.
Definition default_base : string := DEFAULT_BASE_CURRENCY.
Definition default_quote : string := DEFAULT_QUOTE_CURRENCY.
Definition cache_key (base quote : string) : string := "rates:" +:+ base +:+ ":" +:+ quote.
Definition stale_cache_key (base quote : string) : string := "rates:stale:" +:+ base +:+ ":" +:+ quote.
Definition ProviderResponse : Type := gmap string Q.
(** What the provider answers: nothing, or a status and a body that parses or not. *)
Inductive reply : Type := NoReply | Replied (status : Z) (body : option ProviderResponse).
(** The texts of [last_err], by their parts. *)
Inductive FetchError : Type :=
| RateLimited (attempt : Z) | BadStatus (status attempt : Z) | ParseFailed (attempt : Z) | NetworkFailed (attempt : Z).
Record RateResponse : Type := MkRateResponse { rr_rate : ExchangeRate; rr_message : string; rr_source : option string }.
Record CircuitBreakerHealth : Type := MkBreakerHealth {
  bh_status : string; bh_failure_count : Z; bh_threshold : Z; bh_reset_secs : Z
}.

(** ** Commands *)
Record RatesWorld : Type := MkRatesWorld {
  clock : Z;                                                   (** milliseconds since the epoch *)
  breaker : CircuitBreaker;
  rates_cache : gmap string (ExchangeRate * Z);                (** with the time of expiry *)
  fetches : list Z;
  reports : list (Z * string * ProviderResponse);
  stored : list (string * ExchangeRate * Z);
  answers : list (RatesQuery * Z * RateResponse)               (** with the time of arrival *)
}.
#[export] Instance eta_CircuitBreaker : Eta CircuitBreaker := λ b, MkBreaker (failures b) (opened_at b).
#[export] Instance eta_RatesWorld : Eta RatesWorld := λ w,
  MkRatesWorld (clock w) (breaker w) (rates_cache w) (fetches w) (reports w) (stored w) (answers w).
Definition rates_start (now : Z) : RatesWorld := MkRatesWorld now breaker_new ∅ [] [] [] [].
Inductive rates_cmd : Type → Type :=
| LoadOpenedAt : rates_cmd Z
| LoadFailures : rates_cmd Z
| StoreOpenedAt (x : Z) : rates_cmd unit
| StoreFailures (x : Z) : rates_cmd unit
| FetchAddFailures : rates_cmd Z
| CasOpenedAt (expected new : Z) : rates_cmd unit
| SystemNow : rates_cmd Z
| RedisGet (k : string) : rates_cmd (option ExchangeRate)
| RedisSet (k : string) (v : ExchangeRate) (ttl : Z) : rates_cmd unit
| Sleep (ms : Z) : rates_cmd unit
| Send (base : string) : rates_cmd reply
| Receive : rates_cmd Z
| Respond (q : RatesQuery) (arrival : Z) (r : RateResponse) : rates_cmd unit.
Record RatesEnv : Type := MkRatesEnv { re_now : Z; re_redis : bool; re_reply : reply }.
Definition is_success (status : Z) : bool := (200 <=? status) && (status <=? 299).
Definition report_of (now : Z) (base : string) (r : reply) : list (Z * string * ProviderResponse) :=
  match r with Replied status (Some rates) => if is_success status then [(now, base, rates)] else [] | _ => [] end.
Definition rates_run (now : Z) (up : bool) (rep : reply) {R} (c : rates_cmd R) (w : RatesWorld) : option (R * RatesWorld) :=
  match c in rates_cmd R return option (R * RatesWorld) with
  | LoadOpenedAt => Some (opened_at (breaker w), w)
  | LoadFailures => Some (failures (breaker w), w)
  | StoreOpenedAt x => Some (tt, w ⟨ breaker ::= λ b, b ⟨ opened_at := x ⟩ ⟩)
  | StoreFailures x => Some (tt, w ⟨ breaker ::= λ b, b ⟨ failures := x ⟩ ⟩)
  | FetchAddFailures => Some (failures (breaker w), w ⟨ breaker ::= λ b, b ⟨ failures ::= λ n, (n + 1) mod 2 ^ 64 ⟩ ⟩)
  | CasOpenedAt expected new =>
      Some (tt, w ⟨ breaker ::= λ b, b ⟨ opened_at ::= λ x, if x =? expected then new else x ⟩ ⟩)
  | SystemNow => Some (now / 1000, w)
  | RedisGet k =>
      if up then Some (match rates_cache w !! k with Some (v, e) => if now <? e then Some v else None | None => None end, w)
      else None
  | RedisSet k v ttl =>
      if up then Some (tt, w ⟨ rates_cache ::= <[k := (v, now + 1000 * ttl)]> ⟩ ⟨ stored ::= cons (k, v, now) ⟩) else None
  | Sleep _ => Some (tt, w)
  | Send base => Some (rep, w ⟨ fetches ::= cons now ⟩ ⟨ reports ::= app (report_of now base rep) ⟩)
  | Receive => Some (now, w)
  | Respond q arrival r => Some (tt, w ⟨ answers ::= cons (q, arrival, r) ⟩)
  end.
(** Time does not run backwards. *)
Definition rates_step_at (v : RatesEnv) (R : Type) (c : rates_cmd R) (w : RatesWorld) : option (R * RatesWorld) :=
  let now := Z.max (clock w) (re_now v) in
  rates_run now (re_redis v) (re_reply v) c (w ⟨ clock := now ⟩).
Abbreviation rates_prog := (prog rates_cmd AppError).
(** A command of which only the answer matters, or a default for it. *)
Definition ask {A R} (c : rates_cmd R) (d : R) (k : R → rates_prog A) : rates_prog A := Call c (λ r, k (default d r)).

(** ** The circuit breaker *)
Definition unix_now {A} (k : Z → rates_prog A) : rates_prog A := ask SystemNow 0 k.
Definition saturating_sub_u64 (a b : Z) : Z := Z.max 0 (a - b).
Definition is_open : rates_prog bool :=
  ask LoadOpenedAt 0 (λ at_,
    if at_ =? 0 then ret (Ok false)
    else unix_now (λ now,
      if CIRCUIT_BREAKER_RESET_SECS <=? saturating_sub_u64 now at_
      then ask (StoreOpenedAt 0) tt (λ _, ask (StoreFailures 0) tt (λ _, ret (Ok false)))
      else ret (Ok true))).
Definition record_success : rates_prog unit :=
  ask (StoreFailures 0) tt (λ _, ask (StoreOpenedAt 0) tt (λ _, ret (Ok tt))).
Definition record_failure : rates_prog unit :=
  ask FetchAddFailures 0 (λ prev,
    let new_count := (prev + 1) mod 2 ^ 64 in
    if CIRCUIT_BREAKER_THRESHOLD <=? new_count
    then unix_now (λ now, ask (CasOpenedAt 0 now) tt (λ _, ret (Ok tt)))
    else ret (Ok tt)).
Definition breaker_status : rates_prog string :=
  let* open := is_open in ret (Ok (if open : bool then "open" else "closed")).
Definition failure_count : rates_prog Z := ask LoadFailures 0 (λ n, ret (Ok n)).
Definition circuit_breaker_health : rates_prog CircuitBreakerHealth :=
  let* status := breaker_status in
  let* n := failure_count in
  ret (Ok (MkBreakerHealth status n CIRCUIT_BREAKER_THRESHOLD CIRCUIT_BREAKER_RESET_SECS)).

(** ** The provider, with back-off *)
Definition judge (attempt : Z) (r : option reply) : res FetchError ProviderResponse :=
  match r with
  | None | Some NoReply => Err (NetworkFailed (attempt + 1))
  | Some (Replied status body) =>
      if status =? 429 then Err (RateLimited (attempt + 1))
      else if negb (is_success status) then Err (BadStatus status (attempt + 1))
      else match body with Some data => Ok data | None => Err (ParseFailed (attempt + 1)) end
  end.
Definition backoff {A} (attempt : Z) (k : rates_prog A) : rates_prog A :=
  if 0 <? attempt then ask (Sleep (BACKOFF_BASE_MS * Z.shiftl 1 (attempt - 1))) tt (λ _, k) else k.
Fixpoint fetch_loop (base : string) (attempts : list Z) (last_err : option FetchError)
    : rates_prog (option FetchError + ProviderResponse) :=
  match attempts with
  | [] => ret (Ok (inl last_err))
  | attempt :: attempts =>
      backoff attempt (Call (Send base) (λ r,
        match judge attempt r with
        | Ok data => ret (Ok (inr data))
        | Err e => fetch_loop base attempts (Some e)
        | Panic => ret Panic
        end))
  end.
Definition fetch_with_backoff (base : string) : rates_prog (option FetchError + ProviderResponse) :=
  fetch_loop base (seqZ 0 MAX_ATTEMPTS) None.

(** ** The handler *)
Section Handler.
Variable to_uppercase : string → string.
Definition base_of (q : RatesQuery) : string := to_uppercase (default default_base (rq_base q)).
Definition quote_of (q : RatesQuery) : string := to_uppercase (default default_quote (rq_quote q)).
Definition stale_or (stale_key message : string) (e : AppError) : rates_prog RateResponse :=
  Call (RedisGet stale_key) (λ cached,
    match cached with
    | Some (Some rate) => ret (Ok (MkRateResponse rate message (Some "stale-cache")))
    | _ => ret (Err e)
    end).
(** Step 3, the provider, and step 4. *)
Definition ask_provider (base quote : string) : rates_prog RateResponse :=
  let key := cache_key base quote in
  let stale_key := stale_cache_key base quote in
  let* fetched := fetch_with_backoff base in
  match fetched with
  | inr data =>
      let* _ := record_success in
      match (data : ProviderResponse) !! quote with
      | None => ret (Err (NotFound ("No rate available for " +:+ base +:+ "/" +:+ quote)))
      | Some r =>
          let rate := MkRate base quote r in
          Call (RedisSet key rate CACHE_TTL) (λ _,
            Call (RedisSet stale_key rate STALE_CACHE_TTL) (λ _,
              ret (Ok (MkRateResponse rate "Exchange rate retrieved successfully" None))))
      end
  | inl e =>
      let* _ := record_failure in
      let* _ := failure_count in
      stale_or stale_key "Stale exchange rate served (upstream error)"
        (ExternalServiceError "Unable to reach exchange rate provider")
  end.
(** Step 2, the breaker. *)
Definition past_cache (base quote : string) : rates_prog RateResponse :=
  let* open := is_open in
  if open : bool
  then stale_or (stale_cache_key base quote) "Stale exchange rate served (circuit breaker open)"
         (ExternalServiceError "Exchange rate provider is unavailable and no cached data exists")
  else ask_provider base quote.
Definition get_rates (q : RatesQuery) : rates_prog RateResponse :=
  let base := base_of q in
  let quote := quote_of q in
  Call (RedisGet (cache_key base quote)) (λ cached,
    match cached with
    | Some (Some rate) => ret (Ok (MkRateResponse rate "Exchange rate retrieved from cache" None))
    | _ => past_cache base quote
    end).
(** A request from its arrival to its answer, and the health endpoint. *)
Definition serve_rates (q : RatesQuery) : rates_prog unit :=
  call_or (InternalServerError "") Receive (λ arrival,
    let* r := get_rates q in
    Call (Respond q arrival r) (λ _, ret (Ok tt))).
Definition serve_health : rates_prog unit := let* _ := circuit_breaker_health in ret (Ok tt).
Inductive rates_request : rates_prog unit → Prop :=
| request_rates q : rates_request (serve_rates q)
| request_health : rates_request serve_health.
End Handler.

(** ** What is answered was reported *)
Section Answers.
Variable to_uppercase : string → string.
(** Letters are in upper case after it. *)
Hypothesis upper_s : ∀ s r, to_uppercase s ≠ String "s"%char r.

Definition key_of (stale : bool) : string → string → string := if stale then stale_cache_key else cache_key.
Definition ttl_of (stale : bool) : Z := 1000 * if stale then STALE_CACHE_TTL else CACHE_TTL.
Definition reported (w : RatesWorld) (v : ExchangeRate) (t : Z) : Prop :=
  ∃ rates, (t, er_base v, rates) ∈ reports w ∧ rates !! er_quote v = Some (er_rate v).
Definition kept_since (w : RatesWorld) (stale : bool) (v : ExchangeRate) (t t' : Z) : Prop :=
  reported w v t ∧ t ≤ t' ∧ (key_of stale (er_base v) (er_quote v), v, t') ∈ stored w.
Definition entry_ok (w : RatesWorld) (k : string) (p : ExchangeRate * Z) : Prop :=
  (∃ s, er_base p.1 = to_uppercase s) ∧
  ∃ stale t t', k = key_of stale (er_base p.1) (er_quote p.1) ∧ kept_since w stale p.1 t t' ∧ p.2 = t' + ttl_of stale.
Definition is_stale (r : RateResponse) : bool := bool_decide (rr_source r = Some "stale-cache").
(** The rate is that of the pair asked for; the provider reported it, after the
    request arrived or else before it was put in the cache, less than the time it
    may be kept ago. *)
Definition answer_ok (w : RatesWorld) (q : RatesQuery) (arrival : Z) (r : RateResponse) : Prop :=
  er_base (rr_rate r) = base_of to_uppercase q ∧ er_quote (rr_rate r) = quote_of to_uppercase q ∧
  ∃ t, (reported w (rr_rate r) t ∧ arrival ≤ t) ∨
       ∃ t', kept_since w (is_stale r) (rr_rate r) t t' ∧ arrival < t' + ttl_of (is_stale r).
Definition plain (q : RatesQuery) : Prop := no_colon (base_of to_uppercase q) ∧ no_colon (quote_of to_uppercase q).
Record rates_ok (w : RatesWorld) : Prop := {
  ok_entries : map_Forall (entry_ok w) (rates_cache w);
  ok_answers : ∀ q arrival r, (q, arrival, r) ∈ answers w → plain q → answer_ok w q arrival r
}.
Record rates_grow (w w' : RatesWorld) : Prop := {
  grow_clock : clock w ≤ clock w';
  grow_reports : reports w ⊆ reports w';
  grow_stored : stored w ⊆ stored w'
}.
#[local] Instance rates_grow_preorder : PreOrder rates_grow.
Proof.
  split; [by intros w; split|]. intros a b c [] []. split; [lia|by etrans|by etrans].
Qed.
Lemma reported_grow w w' v t : rates_grow w w' → reported w v t → reported w' v t.
Proof. intros Hg (rates & Hr & Hq). exists rates. split; [by apply (grow_reports _ _ Hg)|done]. Qed.
Lemma kept_grow w w' s v t t' : rates_grow w w' → kept_since w s v t t' → kept_since w' s v t t'.
Proof. intros Hg (Hr & Ht & Hs). split_and!; [by eapply reported_grow|done|by apply (grow_stored _ _ Hg)]. Qed.
Lemma entry_grow w w' k p : rates_grow w w' → entry_ok w k p → entry_ok w' k p.
Proof. intros Hg (Hu & s & t & t' & Hk & Hs & He). split; [done|]. exists s, t, t'. split_and!; [done|by eapply kept_grow|done]. Qed.
Lemma answer_grow w w' q a r : rates_grow w w' → answer_ok w q a r → answer_ok w' q a r.
Proof.
  intros Hg (Hb & Hq & t & Ht). split_and!; [done|done|]. exists t.
  destruct Ht as [[Hr Ha]|(t' & Hk & Ha)]; [left; split; [by eapply reported_grow|done]|right].
  exists t'. split; [by eapply kept_grow|done].
Qed.
Lemma rates_ok_same w w' : rates_grow w w' → rates_cache w' = rates_cache w → answers w' = answers w → rates_ok w → rates_ok w'.
Proof.
  intros Hg Hc Ha [He Hn]. split; rewrite ?Hc, ?Ha.
  - eapply map_Forall_impl; [exact He|]. intros k p. by apply entry_grow.
  - intros q a r Hr Hq. eapply answer_grow; [done|by apply Hn].
Qed.

(** A key without a colon in its parts has no other reading. *)
Lemma key_inj stale stale' b q b' q' : no_colon b → no_colon q → (∀ r, b ≠ String "s"%char r) → (∀ r, b' ≠ String "s"%char r) →
  key_of stale' b' q' = key_of stale b q → stale' = stale ∧ b' = b ∧ q' = q.
Proof.
  assert (Hsplit : ∀ b1 q1 b2 q2, no_colon b1 → no_colon q1 →
    String.append b2 (String ":"%char q2) = String.append b1 (String ":"%char q1) → b2 = b1 ∧ q2 = q1).
  { induction b1 as [|a b1 IH]; intros q1 [|c b2] q2 Hb Hq Heq; cbn in *; simplify_eq; try tauto.
    - exfalso. by eapply append_colon.
    - destruct (IH q1 b2 q2) as [-> ->]; tauto. }
  intros Hb Hq Hs Hs' Heq. destruct stale, stale'; cbn in Heq; unfold cache_key, stale_cache_key in Heq; cbn in Heq; simplify_eq.
  - split; [done|]. by apply Hsplit.
  - exfalso. destruct b' as [|c b']; cbn in Heq; simplify_eq. by eapply Hs'.
  - exfalso. destruct b as [|c b]; cbn in Heq; simplify_eq. by eapply Hs.
  - split; [done|]. by apply Hsplit.
Qed.

(** What an entry read under a key of the request answers. *)
Lemma read_answer w q stale arrival v e msg src : rates_ok w → rates_cache w !! key_of stale (base_of to_uppercase q) (quote_of to_uppercase q) = Some (v, e) →
  arrival < e → src = (if stale then Some "stale-cache" else None) → plain q → answer_ok w q arrival (MkRateResponse v msg src).
Proof using upper_s.
  intros [He _] Hk Ha -> [Hb Hq]. apply He in Hk as ([s Hu] & stale' & t & t' & Hkey & Hkept & Hexp). cbn in *.
  symmetry in Hkey. apply key_inj in Hkey as (-> & Hbase & Hquote); [|done|done|intros r; apply upper_s|intros r; rewrite Hu; apply upper_s].
  split_and!; [done|done|]. exists t. right. exists t'.
  assert (Hst : is_stale (MkRateResponse v msg (if stale then Some "stale-cache" else None)) = stale) by by destruct stale.
  rewrite Hst. split; [done|lia].
Qed.

(** Commands that touch neither the cache nor the logs. *)
Definition breaker_cmd {R} (c : rates_cmd R) : bool :=
  match c with RedisSet _ _ _ | Send _ | Respond _ _ _ => false | _ => true end.
#[local] Abbreviation rsafe := (safe rates_step_at rates_grow rates_ok).
Lemma step_clock v R (c : rates_cmd R) w r w' : rates_step_at v R c w = Some (r, w') →
  clock w ≤ clock w' ∧ clock w' = Z.max (clock w) (re_now v).
Proof.
  unfold rates_step_at. intros Hs. destruct c; cbn in Hs; try (destruct (re_redis v); [|discriminate]); simplify_eq; cbn; lia.
Qed.
Lemma step_grow v R (c : rates_cmd R) w r w' : rates_step_at v R c w = Some (r, w') → rates_grow w w'.
Proof.
  intros Hs. split; [by eapply step_clock| |]; unfold rates_step_at in Hs;
    destruct c; cbn in Hs; try (destruct (re_redis v); [|discriminate]); simplify_eq; cbn; try done.
  - by apply list_subseteq_app_r.
  - by apply list_subseteq_cons.
Qed.
Lemma breaker_step v R (c : rates_cmd R) w r w' : breaker_cmd c → rates_step_at v R c w = Some (r, w') →
  rates_cache w' = rates_cache w ∧ answers w' = answers w.
Proof.
  intros Hc Hs. unfold rates_step_at in Hs. destruct c; try done; cbn in Hs; try (destruct (re_redis v); [|discriminate]); by simplify_eq.
Qed.
Lemma safe_quiet {A R} (c : rates_cmd R) (k : option R → rates_prog A) w : breaker_cmd c →
  (∀ w1, rates_grow w w1 → rates_ok w1 → rsafe (k None) w1) →
  (∀ w1 v r w2, rates_grow w w1 → rates_ok w1 → rates_ok w2 → rates_step_at v R c w1 = Some (r, w2) → rsafe (k (Some r)) w2) →
  rsafe (Call c k) w.
Proof.
  intros Hc Hn Hk w1 Hg Hok. split; [by apply Hn|]. intros v r w2 Hs. pose proof (step_grow _ _ _ _ _ _ Hs) as H12.
  assert (Hok2 : rates_ok w2) by (destruct (breaker_step _ _ _ _ _ _ Hc Hs); by eapply rates_ok_same).
  split_and!; [done|done|by eapply Hk|]. apply Hn; [by etrans|done].
Qed.
(** Programs of such commands, and what comes after them. *)
Definition quiet {A} (p : rates_prog A) : Prop := only (λ R c, breaker_cmd c = true) p.
Lemma safe_after {A B} (m : rates_prog A) (f : A → rates_prog B) w : quiet m →
  (∀ a w1, rates_grow w w1 → rsafe (f a) w1) → rsafe (bind m f) w.
Proof.
  revert w. induction m as [[a|e|]|R c k IH]; intros w Hq Hf; [by apply Hf|done|done|]. destruct Hq as [Hc Hk]. cbn [bind].
  apply safe_quiet; [by rewrite Hc| |].
  - intros w1 Hg _. apply IH; [apply Hk|]. intros a w2 H2. apply Hf. by etrans.
  - intros w1 v r w2 Hg _ _ Hs. apply IH; [apply Hk|]. intros a w3 H3. apply Hf. etrans; [done|]. etrans; [by eapply step_grow|done].
Qed.
Lemma quiet_breaker : quiet is_open ∧ quiet record_success ∧ quiet record_failure ∧ quiet failure_count ∧ quiet circuit_breaker_health.
Proof.
  unfold quiet, circuit_breaker_health, breaker_status, is_open, record_success, record_failure, failure_count, unix_now, ask.
  split_and!; only_tac; done.
Qed.

(** Answering, storing, reading back, asking the provider. *)
Section Request.
Context (q : RatesQuery) (arrival : Z).
#[local] Abbreviation base := (base_of to_uppercase q).
#[local] Abbreviation quote := (quote_of to_uppercase q).
#[local] Abbreviation respond := (λ r, Call (Respond q arrival r) (λ _, ret (Ok tt)) : rates_prog unit).
Lemma safe_respond r w : (plain q → answer_ok w q arrival r) → rsafe (respond r) w.
Proof using.
  intros Ha w1 Hg Hok. split; [done|]. intros v x w2 Hs. pose proof (step_grow _ _ _ _ _ _ Hs) as H12.
  split_and!; [done| |done|done]. destruct Hok as [He Hn]. cbn in Hs. simplify_eq. split.
  - eapply map_Forall_impl; [exact He|]. intros k p0. by apply entry_grow.
  - intros q' a' r' [Heq|Hin]%elem_of_cons Hq.
    + injection Heq as -> -> ->. apply (answer_grow w); [by etrans|by apply Ha].
    + eapply answer_grow; [done|by apply Hn].
Qed.
Lemma safe_store {A} stale r t (k : option unit → rates_prog A) w (v := MkRate base quote r) :
  reported w v t → t ≤ clock w → (∀ x w1, rates_grow w w1 → rsafe (k x) w1) →
  rsafe (Call (RedisSet (key_of stale base quote) v (if stale then STALE_CACHE_TTL else CACHE_TTL)) k) w.
Proof using.
  intros Hr Ht Hk w1 Hg Hok. split; [by apply Hk|]. intros e x w2 Hs. pose proof (step_grow _ _ _ _ _ _ Hs) as H12.
  split_and!; [done| |apply Hk; by etrans|apply Hk; by etrans]. destruct Hok as [He Hn]. unfold rates_step_at in Hs. cbn in Hs.
  destruct (re_redis e); [|done]. simplify_eq. cbn. split; cbn.
  - apply map_Forall_insert_2; [|eapply map_Forall_impl; [exact He|]; intros k' p0; by apply entry_grow].
    split; [by eexists|]. exists stale, t, (clock w1 `max` re_now e). split_and!; [done| |by destruct stale].
    split_and!; [apply (reported_grow w); [by etrans|done]|pose proof (grow_clock _ _ Hg); lia|left].
  - intros q' a' r' Hin Hq. eapply answer_grow; [done|by apply Hn].
Qed.
Lemma safe_cached (stale : bool) msg e w : arrival ≤ clock w →
  ∀ k : option (option ExchangeRate) → rates_prog unit, (∀ x w1, rates_grow w w1 → x = None ∨ x = Some None → rsafe (k x) w1) →
  (∀ v, k (Some (Some v)) = respond (MkRateResponse v msg (if stale then Some "stale-cache" else None))) →
  e = key_of stale base quote → rsafe (Call (RedisGet e) k) w.
Proof using upper_s.
  intros Ha k Hk Hv ->. apply safe_quiet; [done|by intros; apply Hk; auto|]. intros w1 v r w2 Hg Hok Hok2 Hs.
  pose proof (step_grow _ _ _ _ _ _ Hs) as H12. unfold rates_step_at in Hs. cbn in Hs. destruct (re_redis v); [|done]. simplify_eq.
  destruct (rates_cache w1 !! _) as [[x ex]|] eqn:Hx; [|apply Hk; [by etrans|by auto]].
  destruct (Z.ltb_spec (clock w1 `max` re_now v) ex) as [Hlt|]; [|apply Hk; [by etrans|by auto]].
  rewrite Hv. apply safe_respond. intros Hq. eapply read_answer; [done|exact Hx| |done|done].
  pose proof (grow_clock _ _ Hg). lia.
Qed.
Lemma safe_stale msg e w : arrival ≤ clock w → rsafe (bind (stale_or (stale_cache_key base quote) msg e) respond) w.
Proof using upper_s.
  intros Ha. cbn [bind stale_or]. eapply (safe_cached true); [done| |done|done]. by intros x w1 _ [-> | ->].
Qed.
Lemma safe_fetch {A} (f : option FetchError + ProviderResponse → rates_prog A) attempts last w : arrival ≤ clock w →
  (∀ e w1, rates_grow w w1 → rsafe (f (inl e)) w1) →
  (∀ data t w1, rates_grow w w1 → arrival ≤ t ≤ clock w1 → (t, base, data) ∈ reports w1 → rsafe (f (inr data)) w1) →
  rsafe (bind (fetch_loop base attempts last) f) w.
Proof using.
  revert last w. induction attempts as [|n l IH]; intros last w Ha He Hd; [by apply He|]. cbn [fetch_loop].
  assert (Hsend : ∀ w1, rates_grow w w1 → rsafe (bind (Call (Send base) (λ r, match judge n r with
    | Ok data => ret (Ok (inr data)) | Err e => fetch_loop base l (Some e) | Panic => ret Panic end)) f) w1).
  { assert (Hgo : ∀ e w1, rates_grow w w1 → rsafe (bind (fetch_loop base l (Some e)) f) w1).
    { intros e w1 Hg. pose proof (grow_clock _ _ Hg). apply IH; [lia| |]; intros; [apply He|eapply Hd; [|done|done]]; by etrans. }
    intros w1 Hg w2 Hg2 Hok. assert (H02 : rates_grow w w2) by by etrans. split; [by apply Hgo|]. intros v r w3 Hs.
    pose proof (step_grow _ _ _ _ _ _ Hs) as H23. assert (H03 : rates_grow w w3) by by etrans.
    assert (Hok3 : rates_ok w3) by (apply (rates_ok_same w2); [done| | |done]; cbn in Hs; by simplify_eq).
    split_and!; [done|done| |by apply Hgo]. destruct (judge n (Some r)) as [data|e|] eqn:Hj; [|by apply Hgo|done].
    cbn in Hs. simplify_eq. destruct (re_reply v) as [|st body] eqn:Hrep; cbn in Hj; [done|].
    destruct (st =? 429); [done|]. destruct (is_success st) eqn:Hst; [|done]. destruct body as [data'|]; [|done].
    cbn in Hj. injection Hj as ->. eapply (Hd data (clock w2 `max` re_now v)); [done| |].
    - pose proof (grow_clock _ _ H02). cbn. lia.
    - cbn. rewrite Hst. left. }
  unfold backoff. destruct (0 <? n); [|by apply Hsend]. cbn [ask bind]. apply safe_quiet; [done|by intros w1 Hg _; apply Hsend|].
  intros w1 v r w2 Hg _ _ Hs. apply Hsend. etrans; [done|by eapply step_grow].
Qed.
Lemma get_rates_safe w : arrival ≤ clock w → rsafe (bind (get_rates to_uppercase q) respond) w.
Proof using upper_s.
  intros Ha. destruct quiet_breaker as (Qo & Qs & Qf & Qc & _). unfold get_rates, past_cache, ask_provider. cbn [bind].
  assert (Hlive : ∀ w1, rates_grow w w1 → arrival ≤ clock w1) by (intros w1 Hg; pose proof (grow_clock _ _ Hg); lia).
  eapply (safe_cached false); [done| |done|done]. intros x w1 H1 Hx.
  destruct Hx as [-> | ->]; (apply safe_bind_bind, safe_after; [done|]; intros [] w2 H2;
    [apply safe_stale, Hlive; by etrans|]; apply safe_bind_bind, safe_fetch; [apply Hlive; by etrans| |]);
  try (intros e w3 H3; apply safe_bind_bind, safe_after; [done|]; intros _ w4 H4; apply safe_bind_bind, safe_after; [done|]; intros _ w5 H5;
    apply safe_stale, Hlive; repeat (etrans; [eassumption|]); done);
  (intros data t w3 H3 Ht Hd; apply safe_bind_bind, safe_after; [done|]; intros _ w4 H4;
    destruct (data !! quote) as [r|] eqn:Hr; [|exact I]; cbn [bind];
    assert (Hrep : reported w4 (MkRate base quote r) t) by (apply (reported_grow w3); [done|]; by exists data);
    pose proof (grow_clock _ _ H4); eapply (safe_store false); [exact Hrep|lia|]; intros _ w5 H5;
    pose proof (grow_clock _ _ H5); eapply (safe_store true); [by apply (reported_grow w4)|lia|]; intros _ w6 H6;
    apply safe_respond; intros _; split_and!; [done|done|]; exists t; left; split; [|lia];
    apply (reported_grow w4); [by etrans|done]).
Qed.
End Request.
Lemma rates_request_safe p w : rates_request to_uppercase p → rsafe p w.
Proof using upper_s.
  intros [q|]; [|apply safe_after; [apply quiet_breaker|done]]. unfold serve_rates, call_or. apply safe_quiet; [done|done|].
  intros w1 v arrival w2 Hg _ _ Hs. apply get_rates_safe. cbn in Hs. injection Hs as <- <-. done.
Qed.

(** C24. Every rate that was answered is one the provider reported, and a recent
    one.  Let requests come at any time, their commands interleaving in any order
    and getting lost, for currencies in whose names there is no colon.  Then the
    rate in each answer is that of the pair asked for, as the provider reported
    it: after the request arrived, or before an entry of the cache was written that
    was less than sixty seconds old when the request arrived, or less than an
    hour, and then the answer says so. *)
Theorem rates_answered_reported now tasks w q arrival r :
  rtc (pool_step rates_step_at (rates_request to_uppercase)) ([], rates_start now) (tasks, w) →
  plain q → (q, arrival, r) ∈ answers w → answer_ok w q arrival r.
Proof using upper_s.
  intros Hr Hq Ha. apply (pool_safe rates_step_at rates_grow rates_ok) in Hr as (_ & Hok & _).
  - by apply (ok_answers _ Hok).
  - apply _.
  - intros p w0. apply rates_request_safe.
  - split; [done|]. intros q' a' r' Hin. by apply not_elem_of_nil in Hin.
  - constructor.
Qed.
End Answers.

(** ** The circuit breaker as a machine of two states

    What [CircuitBreaker] stands for: closed, with the failures since the last
    success, or open since a time in seconds. *)
Inductive breaker_state : Type := Closed (n : Z) | Open (since : Z).
Definition state_of (b : CircuitBreaker) : breaker_state :=
  if opened_at b =? 0 then Closed (failures b) else Open (opened_at b).
Definition allow (now : Z) (s : breaker_state) : bool * breaker_state :=
  match s with
  | Closed n => (true, Closed n)
  | Open since => if since + 60 <=? now then (true, Closed 0) else (false, Open since)
  end.
Definition on_failure (now : Z) (s : breaker_state) : breaker_state :=
  match s with
  | Closed n => if n <? 2 then Closed (n + 1) else Open now
  | Open since => Open since
  end.
(** A request served from [lo] to [hi]: it asks the provider [n] times, which
    reports [m] times. *)
Inductive breaker_moves (lo hi : Z) : breaker_state → Z → Z → breaker_state → Prop :=
| moves_hit s : breaker_moves lo hi s 0 0 s
| moves_checked now s : lo ≤ now ≤ hi → breaker_moves lo hi s 0 0 (allow now s).2
| moves_failed now now' s s1 : lo ≤ now ≤ now' → now' ≤ hi → allow now s = (true, s1) →
    breaker_moves lo hi s 3 0 (on_failure now' s1)
| moves_reported now n s s1 : lo ≤ now ≤ hi → allow now s = (true, s1) → 1 ≤ n ≤ 3 → breaker_moves lo hi s n 1 (Closed 0).

Definition secs (w : RatesWorld) : Z := clock w / 1000.
Record breaker_ok (w : RatesWorld) : Prop := {
  bo_failures : 0 ≤ failures (breaker w) ≤ 3;
  bo_closed : opened_at (breaker w) = 0 → failures (breaker w) ≤ 2;
  bo_opened : 0 ≤ opened_at (breaker w) ≤ secs w;
  bo_clock : 1 ≤ secs w
}.
Definition asked (w : RatesWorld) : Z := Z.of_nat (length (fetches w)).
Definition told (w : RatesWorld) : Z := Z.of_nat (length (reports w)).
#[local] Abbreviation rruns := (runs rates_step_at).
(** Time passes; nothing is asked. *)
Record idle (w w' : RatesWorld) : Prop := {
  idle_clock : clock w ≤ clock w'; idle_asked : fetches w' = fetches w; idle_told : reports w' = reports w
}.
#[local] Instance idle_preorder : PreOrder idle.
Proof. split; [by intros w; split|]. intros a b c [] []. split; [lia|congruence|congruence]. Qed.
Lemma secs_mono w w' : clock w ≤ clock w' → secs w ≤ secs w'.
Proof. intros Hc. unfold secs. apply Z.div_le_mono; lia. Qed.
Definition unsent {R} (c : rates_cmd R) : bool := match c with Send _ => false | _ => true end.
Lemma step_idle v R (c : rates_cmd R) w r w' : unsent c → rates_step_at v R c w = Some (r, w') → idle w w'.
Proof.
  intros Hc Hs. split; [by eapply step_clock|..]; unfold rates_step_at in Hs;
    destruct c; try done; cbn in Hs; try (destruct (re_redis v); [|discriminate]); by simplify_eq.
Qed.
(** Commands that leave the breaker alone, and programs of them. *)
Definition passive {R} (c : rates_cmd R) : bool :=
  match c with RedisGet _ | RedisSet _ _ _ | Sleep _ | Receive | Respond _ _ _ | LoadFailures | SystemNow | LoadOpenedAt => true | _ => false end.
Lemma passive_step v R (c : rates_cmd R) w r w' : passive c → rates_step_at v R c w = Some (r, w') →
  idle w w' ∧ breaker w' = breaker w.
Proof.
  intros Hc Hs. split; [eapply step_idle, Hs; by destruct c|]. unfold rates_step_at in Hs.
  destruct c; try done; cbn in Hs; try (destruct (re_redis v); [|discriminate]); by simplify_eq.
Qed.
Definition passes {A} (p : rates_prog A) : Prop := only (λ R c, passive c = true) p.
Lemma passes_runs {A} (p : rates_prog A) w out w' : passes p → rruns p w out w' → idle w w' ∧ breaker w' = breaker w.
Proof.
  revert w. induction p as [r|R c k IH]; intros w Hp; [by intros [_ ->]|]. destruct Hp as [Hc Hk]. intros [v Hr].
  destruct (rates_step_at v R c w) as [[x w1]|] eqn:Hs; [|by eapply IH; [apply Hk|]].
  apply passive_step in Hs as [H1 B1]; [|by rewrite Hc]. apply IH in Hr as [H2 B2]; [|apply Hk]. split; [by etrans|congruence].
Qed.
Lemma breaker_ok_idle w w' : clock w ≤ clock w' → breaker w' = breaker w → breaker_ok w → breaker_ok w'.
Proof. intros Hc Hb []. pose proof (secs_mono _ _ Hc). split; rewrite ?Hb; first [done|lia]. Qed.
(** The parts of a request. *)
Lemma ask_runs {A R} (c : rates_cmd R) d (k : R → rates_prog A) w out w' :
  (∀ v, is_Some (rates_step_at v R c w)) → rruns (ask c d k) w out w' →
  ∃ v r w1, rates_step_at v R c w = Some (r, w1) ∧ rruns (k r) w1 out w'.
Proof. intros Hs [v Hr]. destruct (Hs v) as [[r w1] He]. rewrite He in Hr. by exists v, r, w1. Qed.
(** Passes a command to a counter or the clock. *)
Ltac atomic H :=
  let v := fresh "v" in let r := fresh "r" in let w := fresh "w" in let E := fresh "E" in
  apply ask_runs in H as (v & r & w & E & H); [|by intros ?; eexists]; cbn in E; injection E as <- <-.
Lemma is_open_runs w out w' : breaker_ok w → rruns is_open w out w' →
  breaker_ok w' ∧ idle w w' ∧ ∃ now, secs w ≤ now ≤ secs w' ∧
    out = Ok (negb (allow now (state_of (breaker w))).1) ∧ state_of (breaker w') = (allow now (state_of (breaker w))).2.
Proof.
  intros [Hf Hc Ho Hk] Hr. unfold is_open in Hr. atomic Hr. unfold state_of.
  destruct (Z.eqb_spec (opened_at (breaker w)) 0) as [H0|H0]; cbn [allow fst snd negb].
  - destruct Hr as [<- <-]. set (w1 := w ⟨ clock := _ ⟩).
    assert (Hcl : clock w ≤ clock w1) by (cbn; lia). pose proof (secs_mono _ _ Hcl).
    split; [by eapply breaker_ok_idle|]. split; [by split|]. exists (secs w). split_and!; [done|lia|done|]. cbn. by rewrite H0.
  - unfold unix_now in Hr. atomic Hr. unfold CIRCUIT_BREAKER_RESET_SECS, saturating_sub_u64 in Hr.
    set (now := _ / 1000) in Hr. assert (Hnow : secs w ≤ now) by (apply Z.div_le_mono; lia).
    destruct (Z.leb_spec 60 (0 `max` (now - opened_at (breaker w)))) as [Hl|Hl].
    + atomic Hr. atomic Hr. destruct Hr as [<- <-]. cbn.
      match goal with |- breaker_ok ?x ∧ _ => set (w1 := x) end.
      assert (Hcl : clock w ≤ clock w1) by (cbn; lia). assert (Hnow' : now ≤ secs w1) by (apply Z.div_le_mono; cbn; lia).
      split; [split; cbn; lia|]. split; [by split|]. exists now. destruct (Z.leb_spec (opened_at (breaker w) + 60) now); [|lia].
      by split_and!.
    + destruct Hr as [<- <-]. match goal with |- breaker_ok ?x ∧ _ => set (w1 := x) end.
      assert (Hcl : clock w ≤ clock w1) by (cbn; lia). assert (Hnow' : now ≤ secs w1) by (apply Z.div_le_mono; cbn; lia).
      split; [split; cbn; lia|]. split; [by split|]. exists now. destruct (Z.leb_spec (opened_at (breaker w) + 60) now); [lia|].
      cbn. destruct (Z.eqb_spec (opened_at (breaker w)) 0); [done|]. by split_and!.
Qed.
Lemma record_success_runs w out w' : breaker_ok w → rruns record_success w out w' →
  breaker_ok w' ∧ idle w w' ∧ out = Ok tt ∧ state_of (breaker w') = Closed 0.
Proof.
  intros [Hf Hc Ho Hk] Hr. unfold record_success in Hr. do 2 atomic Hr. destruct Hr as [<- <-].
  match goal with |- breaker_ok ?x ∧ _ => set (w1 := x) end.
  assert (Hcl : clock w ≤ clock w1) by (cbn; lia). pose proof (secs_mono _ _ Hcl). split; [split; cbn; lia|]. by split.
Qed.
Lemma record_failure_runs w out w' : breaker_ok w → opened_at (breaker w) = 0 → rruns record_failure w out w' →
  breaker_ok w' ∧ idle w w' ∧ out = Ok tt ∧
  ∃ now, secs w ≤ now ≤ secs w' ∧ state_of (breaker w') = on_failure now (state_of (breaker w)).
Proof.
  intros [Hf Hc Ho Hk] H0 Hr. specialize (Hc H0). unfold record_failure in Hr. atomic Hr.
  unfold state_of. rewrite H0. cbn [on_failure Z.eqb]. rewrite Z.mod_small in Hr by lia.
  unfold CIRCUIT_BREAKER_THRESHOLD in Hr. destruct (Z.leb_spec 3 (failures (breaker w) + 1)) as [Hl|Hl].
  - unfold unix_now in Hr. atomic Hr. set (now := _ / 1000) in Hr. atomic Hr. destruct Hr as [<- <-].
    match goal with |- breaker_ok ?x ∧ _ => set (w1 := x) end.
    assert (Hcl : clock w ≤ clock w1) by (cbn; lia). assert (Hnow : secs w ≤ now ≤ secs w1) by (split; apply Z.div_le_mono; cbn; lia).
    assert (Hb : breaker w1 = MkBreaker (failures (breaker w) + 1) now).
    { change (breaker w1) with (MkBreaker ((failures (breaker w) + 1) mod 2 ^ 64)
        (if opened_at (breaker w) =? 0 then now else opened_at (breaker w))). by rewrite H0, Z.mod_small by lia. }
    split; [split; rewrite ?Hb; cbn [failures opened_at]; lia|]. split_and!; [by split|done|]. exists now. split; [done|].
    rewrite Hb. cbn [failures opened_at]. destruct (Z.eqb_spec now 0); [lia|]. destruct (Z.ltb_spec (failures (breaker w)) 2); [lia|done].
  - destruct Hr as [<- <-]. match goal with |- breaker_ok ?x ∧ _ => set (w1 := x) end.
    assert (Hcl : clock w ≤ clock w1) by (cbn; lia). pose proof (secs_mono _ _ Hcl).
    assert (Hb : breaker w1 = MkBreaker (failures (breaker w) + 1) 0).
    { change (breaker w1) with (MkBreaker ((failures (breaker w) + 1) mod 2 ^ 64) (opened_at (breaker w))).
      by rewrite H0, Z.mod_small by lia. }
    split; [split; rewrite ?Hb; cbn [failures opened_at]; lia|]. split_and!; [by split|done|]. exists (secs w). split; [lia|].
    rewrite Hb. cbn [failures opened_at Z.eqb]. destruct (Z.ltb_spec (failures (breaker w)) 2); [done|lia].
Qed.
Lemma send_runs base (k : option reply → rates_prog (option FetchError + ProviderResponse)) w out w' :
  rruns (Call (Send base) k) w out w' →
  ∃ rep w1, rruns (k (Some rep)) w1 out w' ∧ clock w ≤ clock w1 ∧ breaker w1 = breaker w ∧
    asked w1 = asked w + 1 ∧ reports w1 = report_of (clock w1) base rep ++ reports w.
Proof.
  intros [v Hr]. cbn [rates_step_at rates_run] in Hr. eexists _, _. split; [exact Hr|]. unfold asked. cbn [breaker clock fetches reports]. cbn.
  split_and!; [lia|done|lia|done].
Qed.
Lemma fetch_runs base attempts last w out w' : rruns (fetch_loop base attempts last) w out w' →
  clock w ≤ clock w' ∧ breaker w' = breaker w ∧
  ((∃ e, out = Ok (inl e) ∧ asked w' = asked w + Z.of_nat (length attempts) ∧ reports w' = reports w) ∨
   ∃ data, out = Ok (inr data) ∧ 1 ≤ asked w' - asked w ≤ Z.of_nat (length attempts) ∧ told w' = told w + 1).
Proof.
  revert last w. induction attempts as [|n l IH]; intros last w Hr.
  { destruct Hr as [<- <-]. split_and!; [done|done|]. left. exists last. split_and!; [done|cbn; lia|done]. }
  assert (Hsend : ∃ w0, clock w ≤ clock w0 ∧ breaker w0 = breaker w ∧ fetches w0 = fetches w ∧ reports w0 = reports w ∧
    rruns (Call (Send base) (λ r, match judge n r with
      | Ok data => ret (Ok (inr data)) | Err e => fetch_loop base l (Some e) | Panic => ret Panic end)) w0 out w').
  { cbn [fetch_loop] in Hr. unfold backoff in Hr. destruct (0 <? n); [|by exists w].
    atomic Hr. eexists. split_and!; [| | | |exact Hr]; cbn; [lia|done|done|done]. }
  destruct Hsend as (w0 & Hc0 & Hb0 & Hf0 & Hr0 & Hs). apply send_runs in Hs as (rep & w1 & Hs & Hc1 & Hb1 & Ha1 & Hr1).
  assert (Ha0 : asked w0 = asked w) by (unfold asked; by rewrite Hf0). cbn [length].
  destruct (judge n (Some rep)) as [data|e|] eqn:Hj.
  - destruct Hs as [<- <-]. split_and!; [lia|congruence|]. right. exists data. split_and!; [done|lia|lia|].
    unfold told. rewrite Hr1, Hr0. destruct rep as [|st body]; cbn in Hj; [done|]. destruct (st =? 429); [done|].
    cbn. destruct (is_success st); [|done]. destruct body; [|done]. cbn. lia.
  - assert (Hno : reports w1 = reports w).
    { rewrite Hr1, Hr0. destruct rep as [|st body]; [done|]. cbn in Hj |- *. destruct body; [|done].
      destruct (Z.eqb_spec st 429) as [-> |]; [done|]. by destruct (is_success st). }
    apply IH in Hs as (Hc & Hb & Hcases). split_and!; [lia|congruence|].
    destruct Hcases as [(e' & -> & Ha & Hr')|(data & -> & Ha & Ht)]; [left|right]; eexists; split_and!; try done; try lia.
    + congruence.
    + unfold told in *. by rewrite Ht, Hno.
  - destruct rep as [|st body]; cbn in Hj; [done|]. repeat case_match; done.
Qed.
Section Alone.
Variable to_uppercase : string → string.
Lemma idle_counts w w' : idle w w' → asked w' = asked w ∧ told w' = told w.
Proof. intros []. unfold asked, told. split; congruence. Qed.
(** After the breaker let the request through. *)
Lemma fetch_moves base (f : option FetchError + ProviderResponse → rates_prog RateResponse) w out w' :
  breaker_ok w → opened_at (breaker w) = 0 →
  (∀ e w1 out w', breaker_ok w1 → opened_at (breaker w1) = 0 → rruns (f (inl e)) w1 out w' →
    breaker_ok w' ∧ idle w1 w' ∧ ∃ now, secs w1 ≤ now ≤ secs w' ∧ state_of (breaker w') = on_failure now (state_of (breaker w1))) →
  (∀ d w1 out w', breaker_ok w1 → rruns (f (inr d)) w1 out w' → breaker_ok w' ∧ idle w1 w' ∧ state_of (breaker w') = Closed 0) →
  rruns (bind (fetch_with_backoff base) f) w out w' →
  breaker_ok w' ∧ clock w ≤ clock w' ∧
  ((asked w' = asked w + 3 ∧ told w' = told w ∧
    ∃ now, secs w ≤ now ≤ secs w' ∧ state_of (breaker w') = on_failure now (state_of (breaker w))) ∨
   (1 ≤ asked w' - asked w ≤ 3 ∧ told w' = told w + 1 ∧ state_of (breaker w') = Closed 0)).
Proof.
  intros Hok H0 Hl Hd Hr. apply runs_bind in Hr as (r & w1 & Hf & Hr). apply fetch_runs in Hf as (Hc & Hb & Hcases).
  assert (Hok1 : breaker_ok w1) by by eapply breaker_ok_idle.
  destruct Hcases as [(e & -> & Ha & Ht)|(data & -> & Ha & Ht)].
  - apply Hl in Hr as (Hok' & Hi & now & Hn & Hs); [|done|congruence]. pose proof (idle_counts _ _ Hi) as [Hi1 Hi2]. pose proof (idle_clock _ _ Hi).
    split_and!; [done|lia|]. left. change (Z.of_nat (length (seqZ 0 MAX_ATTEMPTS))) with 3 in Ha. split_and!; [lia|unfold told in *; congruence|]. exists now.
    pose proof (secs_mono _ _ Hc). split; [lia|]. by rewrite <- Hb.
  - apply Hd in Hr as (Hok' & Hi & Hs); [|done]. pose proof (idle_counts _ _ Hi) as [Hi1 Hi2]. pose proof (idle_clock _ _ Hi).
    split_and!; [done|lia|]. right. change (Z.of_nat (length (seqZ 0 MAX_ATTEMPTS))) with 3 in Ha. split_and!; [lia|lia|lia|done].
Qed.
#[local] Abbreviation moves w w' :=
  (breaker_moves (secs w) (secs w') (state_of (breaker w)) (asked w' - asked w) (told w' - told w) (state_of (breaker w'))).
Lemma ask_provider_moves base quote w out w' : breaker_ok w → opened_at (breaker w) = 0 → rruns (ask_provider base quote) w out w' →
  breaker_ok w' ∧ clock w ≤ clock w' ∧
  ((asked w' = asked w + 3 ∧ told w' = told w ∧
    ∃ now, secs w ≤ now ≤ secs w' ∧ state_of (breaker w') = on_failure now (state_of (breaker w))) ∨
   (1 ≤ asked w' - asked w ≤ 3 ∧ told w' = told w + 1 ∧ state_of (breaker w') = Closed 0)).
Proof.
  intros Hok H0. apply fetch_moves; [done|done| |].
  - intros _ w1 o2 w2 Hok1 H1 Hr. apply runs_bind in Hr as (r & w3 & Hf & Hr).
    apply record_failure_runs in Hf as (Hok3 & Hi & -> & now & Hn & Hs); [|done|done].
    apply (passes_runs (let* _ := failure_count in stale_or _ _ _)) in Hr as [Hi2 Hb2]; [|unfold passes, failure_count, ask, stale_or; only_tac; done].
    pose proof (idle_clock _ _ Hi2). pose proof (secs_mono w3 w2 ltac:(done)).
    split_and!; [by eapply breaker_ok_idle|by etrans|]. exists now. split; [lia|]. by rewrite Hb2.
  - intros d w1 o2 w2 Hok1 Hr. apply runs_bind in Hr as (r & w3 & Hf & Hr).
    apply record_success_runs in Hf as (Hok3 & Hi & -> & Hs); [|done].
    apply passes_runs in Hr as [Hi2 Hb2]; [|unfold passes; only_tac; done]. pose proof (idle_clock _ _ Hi2).
    split_and!; [by eapply breaker_ok_idle|by etrans|]. by rewrite Hb2.
Qed.
Lemma past_cache_moves base quote w out w' : breaker_ok w → rruns (past_cache base quote) w out w' →
  breaker_ok w' ∧ clock w ≤ clock w' ∧ moves w w'.
Proof.
  intros Hok Hr. apply runs_bind in Hr as (r & w1 & Ho & Hr). apply is_open_runs in Ho as (Hok1 & Hi & now & Hn & -> & Hs); [|done].
  pose proof (idle_clock _ _ Hi). destruct (idle_counts _ _ Hi) as [Ha Ht]. destruct (allow now (state_of (breaker w))) as [ok s1] eqn:Hal.
  cbn [fst snd] in *. destruct ok; cbn [negb] in Hr.
  - assert (H0 : opened_at (breaker w1) = 0).
    { assert (Hcl : ∃ n, s1 = Closed n) by (destruct (state_of (breaker w)); cbn in Hal; [|case_match]; simplify_eq; by eexists).
      destruct Hcl as [n ->]. unfold state_of in Hs. by destruct (Z.eqb_spec (opened_at (breaker w1)) 0). }
    apply ask_provider_moves in Hr as (Hok' & Hc & Hcases); [|done|done]. split_and!; [done|lia|].
    pose proof (secs_mono _ _ Hc). destruct Hcases as [(Ha' & Ht' & now' & Hn' & ->)|(Ha' & Ht' & ->)].
    + rewrite Ha', Ht', Ha, Ht, Hs. replace (asked w + 3 - asked w) with 3 by lia. rewrite Z.sub_diag. eapply moves_failed; [|lia|done]. lia.
    + rewrite Ht', Ht. replace (told w + 1 - told w) with 1 by lia. eapply moves_reported; [|done|lia]. lia.
  - apply passes_runs in Hr as [Hi2 Hb2]; [|unfold passes, stale_or; only_tac; done]. pose proof (idle_clock _ _ Hi2).
    destruct (idle_counts _ _ Hi2) as [Ha2 Ht2]. split_and!; [by eapply breaker_ok_idle|lia|].
    rewrite Ha2, Ht2, Ha, Ht, Hb2, Hs, !Z.sub_diag. assert (Hs1 : s1 = (allow now (state_of (breaker w))).2) by by rewrite Hal.
    rewrite Hs1. apply moves_checked. pose proof (secs_mono w1 w' ltac:(done)). lia.
Qed.
Lemma moves_widen lo hi lo' hi' s n m s' : lo' ≤ lo → hi ≤ hi' → breaker_moves lo hi s n m s' → breaker_moves lo' hi' s n m s'.
Proof.
  intros H1 H2 [s0|now s0 Hn|now now' s0 s1 Hn Hn' Ha|now n0 s0 s1 Hn Ha Hm].
  - constructor.
  - constructor. lia.
  - eapply moves_failed; [|lia|done]. lia.
  - eapply moves_reported; [|done|lia]. lia.
Qed.
Lemma moves_extend w0 w1 w2 w3 : idle w0 w1 → breaker w1 = breaker w0 → idle w2 w3 → breaker w3 = breaker w2 → moves w1 w2 → moves w0 w3.
Proof.
  intros H1 B1 H3 B3 Hm. destruct (idle_counts _ _ H1) as [<- <-]. destruct (idle_counts _ _ H3) as [-> ->].
  rewrite B3, <- B1. eapply moves_widen, Hm; apply secs_mono; by apply idle_clock.
Qed.
(** A request served alone moves the breaker as the machine says. *)
Lemma request_moves p w out w' : rates_request to_uppercase p → breaker_ok w → rruns p w out w' →
  breaker_ok w' ∧ clock w ≤ clock w' ∧ moves w w'.
Proof.
  intros [q|] Hok Hr.
  - destruct Hr as [v Hr]. destruct (rates_step_at v _ Receive w) as [[a w1]|] eqn:Hs; [|done].
    apply passive_step in Hs as [Hi1 Hb1]; [|done]. pose proof (idle_clock _ _ Hi1).
    assert (Hok1 : breaker_ok w1) by by eapply breaker_ok_idle. apply runs_bind in Hr as (r & w2 & Hg & Hr).
    assert (Hi3 : idle w2 w' ∧ breaker w' = breaker w2).
    { destruct r as [r| |]; [|by destruct Hr as [_ ->]..]. eapply passes_runs, Hr. unfold passes. only_tac. done. }
    destruct Hi3 as [Hi3 Hb3]. pose proof (idle_clock _ _ Hi3). destruct Hg as [v2 Hg].
    assert (Hmid : ∃ w1', idle w1 w1' ∧ breaker w1' = breaker w1 ∧
      (w2 = w1' ∨ rruns (past_cache (base_of to_uppercase q) (quote_of to_uppercase q)) w1' r w2)).
    { destruct (rates_step_at v2 _ _ w1) as [[x w1']|] eqn:Hs; [apply passive_step in Hs as [Hi Hb]; [|done]|].
      - exists w1'. split_and!; [done|done|]. destruct x as [x|]; [left; by destruct Hg|by right].
      - exists w1. split_and!; [done|done|]. by right. }
    destruct Hmid as (w1' & Hi1' & Hb1' & Hw2). pose proof (idle_clock _ _ Hi1').
    assert (Hok1' : breaker_ok w1') by by eapply breaker_ok_idle. destruct Hw2 as [-> | Hp].
    + split_and!; [by eapply breaker_ok_idle|lia|]. eapply (moves_extend w w1' w1' w'); [by etrans|congruence|done|done|].
      rewrite !Z.sub_diag. constructor.
    + apply past_cache_moves in Hp as (Hok2 & Hc & Hm); [|done]. split_and!; [by eapply breaker_ok_idle|lia|].
      eapply (moves_extend w w1' w2 w'); [by etrans|congruence|done|done|done].
  - apply runs_bind in Hr as (r & w1 & Hg & Hr). assert (Hw : w1 = w') by (destruct r; by destruct Hr). subst w1. clear Hr.
    unfold circuit_breaker_health in Hg. apply runs_bind in Hg as (r1 & w1 & Ho & Hr1). unfold breaker_status in Ho.
    apply runs_bind in Ho as (r0 & w0 & Ho & Hr0). apply is_open_runs in Ho as (Hok0 & Hi & now & Hn & -> & Hs); [|done].
    destruct Hr0 as [<- <-]. apply passes_runs in Hr1 as [Hi2 Hb2]; [|unfold passes, failure_count, ask; only_tac; done].
    pose proof (idle_clock _ _ Hi). pose proof (idle_clock _ _ Hi2).
    split_and!; [by eapply breaker_ok_idle|lia|]. eapply (moves_extend w w w0 w'); [done|done|done|done|].
    destruct (idle_counts _ _ Hi) as [-> ->]. rewrite !Z.sub_diag, Hs. by constructor.
Qed.

(** ** How often an unavailable provider is asked *)
Definition served (w w' : RatesWorld) : Prop := ∃ p out, rates_request to_uppercase p ∧ rruns p w out w'.
(** What may still be asked until [until]. *)
Definition budget (until now : Z) (s : breaker_state) : Z :=
  match s with
  | Closed n => 3 * (3 - n) + 9 * ((until - now) / 60)
  | Open since => if since + 60 <=? now then 9 + 9 * ((until - now) / 60) else 9 * ((until - since) / 60)
  end.
Definition machine_ok (now : Z) (s : breaker_state) : Prop :=
  match s with Closed n => 0 ≤ n ≤ 2 | Open since => since ≤ now end.
Lemma div60 a b : a ≤ b → a / 60 ≤ b / 60.
Proof. intros. apply Z.div_le_mono; lia. Qed.
Lemma budget_later until lo hi s : lo ≤ hi ≤ until → machine_ok lo s → budget until hi s ≤ budget until lo s.
Proof.
  intros Hl Hs. pose proof (div60 (until - hi) (until - lo) ltac:(lia)). destruct s as [n|t]; cbn [budget]; [lia|].
  destruct (Z.leb_spec (t + 60) hi) as [H1|H1], (Z.leb_spec (t + 60) lo) as [H2|H2]; try lia.
  replace (until - t) with ((until - (t + 60)) + 1 * 60) by lia. rewrite Z.div_add by lia.
  pose proof (div60 (until - hi) (until - (t + 60)) ltac:(lia)). lia.
Qed.
Lemma budget_allowed until now s s1 : machine_ok now s → now ≤ until → allow now s = (true, s1) →
  ∃ n, s1 = Closed n ∧ 0 ≤ n ≤ 2 ∧ budget until now s1 = budget until now s.
Proof.
  intros Hs Hu Ha. destruct s as [n|t]; cbn in Ha; [simplify_eq; by exists n|].
  destruct (Z.leb_spec (t + 60) now) as [Hl|]; [|done]. simplify_eq. exists 0. split_and!; [done|done|done|].
  cbn [budget]. destruct (Z.leb_spec (t + 60) now); lia.
Qed.
Lemma budget_moves until lo hi s n s' : breaker_moves lo hi s n 0 s' → lo ≤ hi ≤ until → machine_ok lo s →
  n + budget until hi s' ≤ budget until lo s.
Proof.
  intros Hm. remember 0 as m eqn:Em. destruct Hm as [s0|now s0 Hn|now now' s0 s1 Hn Hn' Ha|]; intros Hl Hs; [| | |done].
  - by apply budget_later.
  - assert (Hs' : machine_ok now s0) by (destruct s0; cbn in *; lia). destruct (allow now s0) as [[] s1] eqn:Ha; cbn [snd].
    + destruct (budget_allowed until now s0 s1) as (n & -> & Hn3 & Hb); [done|lia|done|].
      pose proof (budget_later until lo now s0 ltac:(lia) Hs). pose proof (budget_later until now hi (Closed n) ltac:(lia) Hn3). lia.
    + destruct s0 as [|t]; cbn in Ha; [done|]. case_match; [done|]. simplify_eq. by apply budget_later.
  - assert (Hs' : machine_ok now s0) by (destruct s0; cbn in *; lia).
    destruct (budget_allowed until now s0 s1) as (n & -> & Hn3 & Hb); [done|lia|done|].
    pose proof (budget_later until lo now s0 ltac:(lia) Hs). cbn [on_failure].
    pose proof (div60 (until - hi) (until - now) ltac:(lia)). pose proof (div60 (until - now') (until - now) ltac:(lia)).
    cbn [budget] in Hb. destruct (Z.ltb_spec n 2); cbn [budget]; [lia|]. destruct (Z.leb_spec (now' + 60) hi); [|lia].
    replace (until - now') with ((until - (now' + 60)) + 1 * 60) in * by lia. rewrite Z.div_add in * by lia.
    pose proof (div60 (until - hi) (until - (now' + 60)) ltac:(lia)). lia.
Qed.
Lemma breaker_machine_ok w : breaker_ok w → machine_ok (secs w) (state_of (breaker w)).
Proof. intros []. unfold state_of. destruct (Z.eqb_spec (opened_at (breaker w)) 0); cbn; lia. Qed.
Lemma told_grows w w' : breaker_ok w → rtc served w w' → told w ≤ told w' ∧ clock w ≤ clock w'.
Proof.
  intros Hok Hr. induction Hr as [|w1 w2 w3 (p & out & Hp & Hr) _ IH]; [done|]. apply request_moves in Hr as (Hok2 & Hc & Hm); [|done|done].
  destruct (IH Hok2). split; [|lia]. remember (told w2 - told w1) as m eqn:Em. destruct Hm; lia.
Qed.

(** C25. While the provider does not answer, it is left alone.  Start from any sound
    state of the breaker and serve requests, one after the other, during a time in
    which the provider reports nothing, whatever else it answers.  Then it is asked
    at most nine times, and nine times more for every full minute that passed. *)
Theorem outage_bounded w w' : breaker_ok w → rtc served w w' → told w' = told w →
  asked w' - asked w ≤ 9 * (1 + (secs w' - secs w) / 60).
Proof.
  intros Hok Hr Ht.
  assert (Hgen : ∀ until, secs w' ≤ until → asked w' + budget until (secs w') (state_of (breaker w')) ≤
    asked w + budget until (secs w) (state_of (breaker w)) ∧ breaker_ok w').
  { intros e Hu. revert Ht. induction Hr as [|w1 w2 w3 (p & out & Hp & Hr) Hrest IH]; intros Ht; [done|].
    apply request_moves in Hr as (Hok2 & Hc & Hm); [|done|done]. destruct (told_grows _ _ Hok2 Hrest) as [Hg1 Hg2].
    assert (Hm0 : told w2 = told w1) by (remember (told w2 - told w1) as m eqn:Em; destruct Hm; lia).
    destruct IH as [IH Hok3]; [done|done|lia|]. split; [|done]. rewrite Hm0, Z.sub_diag in Hm.
    pose proof (secs_mono _ _ Hc). pose proof (secs_mono _ _ Hg2).
    apply (budget_moves e) in Hm; [lia|lia|by apply breaker_machine_ok]. }
  destruct (told_grows _ _ Hok Hr) as [_ Hcl%secs_mono]. destruct (Hgen (secs w') ltac:(lia)) as [Hb Hok'].
  pose proof (breaker_machine_ok _ Hok) as Hm. pose proof (breaker_machine_ok _ Hok') as Hm'. set (d := secs w' - secs w) in *.
  assert (H0 : 0 ≤ budget (secs w') (secs w') (state_of (breaker w'))).
  { destruct (state_of (breaker w')) as [n|t]; cbn [budget machine_ok] in *; rewrite ?Z.sub_diag; change (0 / 60) with 0; [lia|]. case_match; [done|].
    pose proof (Z.div_pos (secs w' - t) 60). lia. }
  assert (H1 : budget (secs w') (secs w) (state_of (breaker w)) ≤ 9 * (1 + d / 60)); [|lia].
  destruct (state_of (breaker w)) as [n|t]; cbn [budget machine_ok] in *; fold d; [lia|]. destruct (Z.leb_spec (t + 60) (secs w)); [lia|].
  pose proof (div60 (secs w' - t) (d + 1 * 60) ltac:(lia)) as Hd. rewrite Z.div_add in Hd by lia. lia.
Qed.
End Alone.

(** ** Examples *)
Fixpoint ascii_upper (s : string) : string :=
  match s with
  | EmptyString => EmptyString
  | String a s =>
      let n := N_of_ascii a in
      String (if (97 <=? n)%N && (n <=? 122)%N then ascii_of_N (n - 32) else a) (ascii_upper s)
  end.
Lemma ascii_upper_s s r : ascii_upper s ≠ String "s"%char r.
Proof.
  destruct s as [|a s]; [done|]. cbn [ascii_upper]. intros [= Ha _]. revert Ha.
  destruct a as [[] [] [] [] [] [] [] []]; vm_compute; discriminate.
Qed.
Definition plain_query : RatesQuery := MkRatesQuery (Some "xlm"%string) None.
Definition provider_up : reply := Replied 200 (Some {[ "USD"%string := (11 # 100)%Q ]}).
(** A program whose commands meet the conditions of a list. *)
Fixpoint run_with {A} (vs : list RatesEnv) (p : rates_prog A) (w : RatesWorld) : rates_prog A * RatesWorld :=
  match vs, p with
  | v :: vs, Call c k =>
      match rates_step_at v _ c w with
      | Some (r, w') => run_with vs (k (Some r)) w'
      | None => run_with vs (k None) w
      end
  | _, _ => (p, w)
  end.
Lemma run_with_runs {A} vs (p : rates_prog A) w out w' : run_with vs p w = (Done out, w') → runs rates_step_at p w out w'.
Proof.
  revert p w. induction vs as [|v vs IH]; intros p w Hr; destruct p as [r|R c k]; cbn [run_with] in Hr; simplify_eq; try done.
  exists v. destruct (rates_step_at v R c w) as [[r w1]|] eqn:Hs; apply IH in Hr; done.
Qed.
Lemma run_with_pool vs (p : rates_prog unit) w p' w' fresh ts i : run_with vs p w = (p', w') → ts !! i = Some p →
  ∃ ts', rtc (pool_step rates_step_at fresh) (ts, w) (ts', w').
Proof.
  revert p w ts. induction vs as [|v vs IH]; intros p w ts Hr Hi; destruct p as [r|R c k]; cbn [run_with] in Hr; simplify_eq;
    try (by exists ts). pose proof (lookup_lt_Some _ _ _ Hi) as Hl.
  destruct (rates_step_at v R c w) as [[r w1]|] eqn:Hs;
    eapply IH in Hr as [ts' Hr]; try (by apply list_lookup_insert_eq); exists ts'; (eapply rtc_l; [|exact Hr]);
    [by eapply pool_call|by eapply pool_drop].
Qed.
Definition conditions (now : Z) (rep : reply) : list RatesEnv := repeat (MkRatesEnv now true rep) 24.
Definition request_at (now : Z) (rep : reply) (w : RatesWorld) : rates_prog unit * RatesWorld :=
  run_with (conditions now rep) (serve_rates ascii_upper plain_query) w.
Definition dawn : RatesWorld := rates_start 1000000.
(** The provider answers, then no more: one minute and a half later. *)
Definition answered_once : RatesWorld := Eval vm_compute in (request_at 1000000 provider_up dawn).2.
Definition answered_twice : RatesWorld := Eval vm_compute in (request_at 1090000 NoReply answered_once).2.
Definition stale_answer : RateResponse :=
  MkRateResponse (MkRate "XLM" "USD" (11 # 100)) "Stale exchange rate served (upstream error)" (Some "stale-cache").
Lemma rates_answered_reported_witness :
  ∃ tasks, rtc (pool_step rates_step_at (rates_request ascii_upper)) ([], dawn) (tasks, answered_twice) ∧
    plain ascii_upper plain_query ∧ (plain_query, 1090000, stale_answer) ∈ answers answered_twice ∧
    answer_ok ascii_upper answered_twice plain_query 1090000 stale_answer.
Proof.
  assert (Hr : ∃ tasks, rtc (pool_step rates_step_at (rates_request ascii_upper)) ([], dawn) (tasks, answered_twice)).
  { set (p := serve_rates ascii_upper plain_query).
    destruct (run_with_pool (conditions 1000000 provider_up) p dawn (Done (Ok tt)) answered_once (rates_request ascii_upper) [p] 0) as [t1 H1];
      [by vm_compute|done|].
    destruct (run_with_pool (conditions 1090000 NoReply) p answered_once (Done (Ok tt)) answered_twice (rates_request ascii_upper)
      (t1 ++ [p]) (length t1)) as [t2 H2]; [by vm_compute|by rewrite lookup_app_r, Nat.sub_diag|].
    exists t2. eapply rtc_l; [apply (pool_spawn _ _ p), request_rates|]. etrans; [exact H1|].
    eapply rtc_l; [apply (pool_spawn _ _ p), request_rates|]. exact H2. }
  destruct Hr as [tasks Hr]. exists tasks.
  assert (Hq : plain ascii_upper plain_query) by (cbn; by split_and!).
  assert (Ha : (plain_query, 1090000, stale_answer) ∈ answers answered_twice) by left.
  split_and!; [done|done|done|]. exact (rates_answered_reported ascii_upper ascii_upper_s 1000000 tasks answered_twice _ _ _ Hr Hq Ha).
Defined.

(** The provider is down: three requests ask it three times each, then none does
    for a minute; and then again three, not one. *)
Definition outage_from (w : RatesWorld) (times : list Z) : RatesWorld := foldl (λ w t, (request_at t NoReply w).2) w times.
Definition failed_once : RatesWorld := Eval vm_compute in (request_at 1001000 NoReply dawn).2.
Definition failed_twice : RatesWorld := Eval vm_compute in (request_at 1002000 NoReply failed_once).2.
Definition tripped : RatesWorld := Eval vm_compute in (request_at 1003000 NoReply failed_twice).2.
Definition refused : RatesWorld := Eval vm_compute in (request_at 1030000 NoReply tripped).2.
Definition no_rate (text : string) : rates_prog unit := Done (Err (ExternalServiceError text)).
Lemma failed_served t w w' text : request_at t NoReply w = (no_rate text, w') → served ascii_upper w w'.
Proof.
  unfold request_at, no_rate. intros Hr. exists (serve_rates ascii_upper plain_query), (Err (ExternalServiceError text)).
  split; [apply request_rates|]. exact (run_with_runs _ _ _ _ _ Hr).
Qed.
Lemma outage_bounded_witness :
  breaker_ok dawn ∧ rtc (served ascii_upper) dawn refused ∧
  asked refused - asked dawn ≤ 9 * (1 + (secs refused - secs dawn) / 60) ∧ asked refused = 9.
Proof.
  assert (Hok : breaker_ok dawn) by (split; vm_compute; intuition congruence).
  assert (Hr : rtc (served ascii_upper) dawn refused).
  { apply (rtc_l _ _ failed_once); [apply (failed_served 1001000 _ _ "Unable to reach exchange rate provider"); by vm_compute|].
    apply (rtc_l _ _ failed_twice); [apply (failed_served 1002000 _ _ "Unable to reach exchange rate provider"); by vm_compute|].
    apply (rtc_l _ _ tripped); [apply (failed_served 1003000 _ _ "Unable to reach exchange rate provider"); by vm_compute|].
    apply rtc_once, (failed_served 1030000 _ _ "Exchange rate provider is unavailable and no cached data exists"). by vm_compute. }
  split_and!; [done|done|exact (outage_bounded ascii_upper dawn refused Hok Hr eq_refl)|by vm_compute].
Defined.
(** The window of the breaker is over; three requests ask the provider nine times. *)
Lemma three_probes : asked tripped = 9 ∧ asked (outage_from tripped [1063000; 1063500; 1064000]) = 18.
Proof. by vm_compute. Qed.
(** A failure counted before a success opens the breaker after it. *)
Lemma opened_after_success :
  let w := dawn ⟨ breaker := MkBreaker 2 0 ⟩ in
  breaker (schedule (rates_step_at (MkRatesEnv 1000000 true NoReply)) [0; 1; 1; 0; 0]%nat ([record_failure; record_success], w)).2 =
  MkBreaker 0 1000.
Proof. by vm_compute. Qed.
