(* ===== verification/SrvProfile.v ===== *)
(** * The server: profiles of organizers

    [handlers/profile.rs] and [models/organizer_profile.rs]: the profile of the
    wallet that a request is authenticated for, its cache, the payments and the
    tickets of a wallet, the events and the statistics of an organizer.  Rows are
    as in [SrvListing] and [SrvEvents].  A statement that the server puts together
    is its text; an entry of the cache can expire at any time.  The text of a JSON
    value, the accumulation of [AVG] and the lower bits of a decimal are left to
    parameters. *)

From Stdlib Require Import QArith.
From stdpp Require Import pretty.
From S2P Require Import Prelude Machine Float Prog ZkBytes WaitPow.
From S2P Require Import WaitRoom SrvErrors SrvPages SrvListing SrvQr SrvEvents.
From S2P Require Import SrvAuth SrvAuthSpecs.
#[local] Open Scope Z_scope.

(** ** Validation *)
Definition MAX_DISPLAY_NAME : Z := 50.
Definition MAX_BIO : Z := 500.
Definition MAX_AVATAR_URL : Z := 2048.
Definition MAX_SOCIAL_VALUE : Z := 200.
Definition ALLOWED_SOCIAL_KEYS : list string :=
  ["twitter"; "instagram"; "website"; "linkedin"; "facebook"; "youtube"; "tiktok"; "discord"; "telegram"; "github"].
Definition byte_len (s : string) : Z := Z.of_nat (length (as_bytes s)).
Record UpsertProfileRequest : Type := MkUpsert {
  up_display_name : string; up_bio : option string; up_avatar_url : option string; up_socials : Json
}.
Record PatchProfileRequest : Type := MkPatch {
  pa_display_name : option string; pa_bio : option string; pa_avatar_url : option string; pa_socials : Json
}.
Definition is_null (v : Json) : bool := match v with JNull => true | _ => false end.
Fixpoint validate_social_entries (obj : list (string * Json)) : res AppError unit :=
  match obj with
  | [] => Ok tt
  | (key, value) :: obj =>
      do! fail_if (negb (bool_decide (key ∈ ALLOWED_SOCIAL_KEYS)))
            (ValidationError ("socials contains unsupported key '" +:+ key +:+ "'")) in
      let! text := ok_or (json_str value) (ValidationError ("socials." +:+ key +:+ " must be a string")) in
      do! fail_if (MAX_SOCIAL_VALUE <? byte_len text)
            (ValidationError ("socials." +:+ key +:+ " must not exceed 200 characters")) in
      validate_social_entries obj
  end.
Definition validate_socials (socials : Json) : res AppError unit :=
  match socials with
  | JNull => Ok tt
  | JObject obj => validate_social_entries obj
  | _ => Err (ValidationError "socials must be a JSON object")
  end.
Definition validate_avatar_url (url : string) : res AppError unit :=
  do! fail_if (MAX_AVATAR_URL <? byte_len url) (ValidationError "avatar_url must not exceed 2048 characters") in
  do! fail_if (negb (starts_with "https://" url)) (ValidationError "avatar_url must start with https://") in
  fail_if (negb (contains url ".") || contains url " ") (ValidationError "avatar_url must be a valid URL").
Definition validate_upsert (req : UpsertProfileRequest) : res AppError unit :=
  do! fail_if (blank (up_display_name req)) (ValidationError "display_name is required") in
  do! fail_if (MAX_DISPLAY_NAME <? byte_len (up_display_name req))
        (ValidationError "displayName must not exceed 50 characters") in
  do! fail_if match up_bio req with Some bio => MAX_BIO <? byte_len bio | None => false end
        (ValidationError "bio must not exceed 500 characters") in
  do! (match up_avatar_url req with Some url => validate_avatar_url url | None => Ok tt end) in
  validate_socials (up_socials req).
Definition validate_patch (req : PatchProfileRequest) : res AppError unit :=
  do! fail_if (bool_decide (pa_display_name req = None) && bool_decide (pa_bio req = None)
               && bool_decide (pa_avatar_url req = None) && is_null (pa_socials req))
        (ValidationError "At least one profile field is required") in
  do! (match pa_display_name req with
       | Some name =>
           do! fail_if (blank name) (ValidationError "display_name cannot be empty") in
           fail_if (MAX_DISPLAY_NAME <? byte_len name) (ValidationError "display_name must be at most 50 characters")
       | None => Ok tt
       end) in
  do! fail_if match pa_bio req with Some bio => MAX_BIO <? byte_len bio | None => false end
        (ValidationError "bio must be at most 500 characters") in
  do! (match pa_avatar_url req with Some url => validate_avatar_url url | None => Ok tt end) in
  validate_socials (pa_socials req).
Definition validate_profile_deletion (active_upcoming_events : Z) : res AppError unit :=
  fail_if (0 <? active_upcoming_events)
    (Conflict "Organizer account cannot be deleted while active upcoming events exist. Cancel or end all events first.").

(** ** Tables, caches and commands *)
Record OrganizerProfileResponse : Type := MkProfileResponse { pr_profile : OrganizerProfile; pr_total_events : Z }.
Record OrganizerStats : Type := MkStats { os_total_events : Z; os_total_tickets_sold : Z; os_average_event_rating : Q }.
Record TransactionRow : Type := MkTransaction { tx_ticket : Z; tx_amount : Q; tx_status : string; tx_created_at : Z }.
Record TransactionSummary : Type := MkTransactionSummary {
  ts_id : Z; ts_event_id : option Z; ts_amount : Q; ts_status : string; ts_created_at : Z
}.
Record WalletTicket : Type := MkWalletTicket {
  wt_id : Z; wt_status : string; wt_ticket_tier_id : option Z; wt_ticket_tier_name : option string; wt_ticket_price : option Q;
  wt_event_id : option Z; wt_event_title : option string; wt_event_location : option string;
  wt_event_start_time : option Z; wt_event_image_url : option string; wt_created_at : Z
}.
Record WalletTicketsResponse : Type := MkWalletTickets { wr_upcoming : list WalletTicket; wr_past : list WalletTicket }.
Record ProfileDb : Type := MkProfileDb {
  pf_profiles : gmap string OrganizerProfile;
  pf_follows : gset (string * string);                  (** follower, following; deleted with the profile *)
  pf_api_keys : gmap Z string;                          (** the profile a key belongs to; deleted with it *)
  pf_organizers : gmap Z (option string);
  pf_events : gmap Z Event;
  pf_tiers : gmap Z TierRow;
  pf_tickets : gmap Z EvTicket;
  pf_transactions : gmap Z TransactionRow;
  profile_cache : gmap string OrganizerProfileResponse; (** [profile:address] *)
  stats_cache : gmap string OrganizerStats              (** [organizer_stats:address] *)
}.
#[export] Instance eta_ProfileDb : Eta ProfileDb := λ d,
  MkProfileDb (pf_profiles d) (pf_follows d) (pf_api_keys d) (pf_organizers d) (pf_events d) (pf_tiers d) (pf_tickets d)
    (pf_transactions d) (profile_cache d) (stats_cache d).
#[export] Instance eta_OrganizerProfile : Eta OrganizerProfile := λ p,
  MkProfile (op_address p) (op_display_name p) (op_bio p) (op_avatar_url p) (op_socials p) (op_created_at p) (op_updated_at p).
Inductive pf_cmd : Type → Type :=
| UpsertRow (address name : string) (bio avatar : option string) (socials : string) : pf_cmd (res SqlxError OrganizerProfile)
| PatchRow (statement address : string) (name bio avatar socials : option string) : pf_cmd (res SqlxError (option OrganizerProfile))
| DeleteRow (address : string) : pf_cmd unit
| CountActive (address : string) : pf_cmd Z
| SelectRow (address : string) : pf_cmd (option OrganizerProfile)
| CountShown (address : string) : pf_cmd Z
| SelectStats (address : string) : pf_cmd (res SqlxError OrganizerStats)
| CountTransactions (address : string) : pf_cmd Z
| SelectTransactions (address : string) (limit offset : Z) : pf_cmd (list TransactionSummary)
| SelectOrganized (address : string) (cursor : option EventCursor) (limit : Z) : pf_cmd (res SqlxError (list Event))
| PaidAmong (ids : list Z) : pf_cmd (list Z)
| SelectWalletTickets (address : string) : pf_cmd (list WalletTicket)
| GetProfile (address : string) : pf_cmd (option OrganizerProfileResponse)
| SetProfile (address : string) (r : OrganizerProfileResponse) : pf_cmd unit
| DelProfile (address : string) : pf_cmd unit
| GetStats (address : string) : pf_cmd (option OrganizerStats)
| SetStats (address : string) (s : OrganizerStats) : pf_cmd unit
| DelStats (address : string) : pf_cmd unit
| PfNow : pf_cmd Z.

(** ** Queries *)
Definition owned_by (db : ProfileDb) (address : string) (e : Event) : bool :=
  bool_decide (pf_organizers db !! organizer_id e = Some (Some address)).
Definition events_of (db : ProfileDb) (address : string) : list Event :=
  filter (λ e, owned_by db address e = true) (map_to_list (pf_events db)).*2.
Definition count_active (db : ProfileDb) (now : Z) (address : string) : Z :=
  Z.of_nat (length (filter (λ e, now < start_time e) (events_of db address))).
(** [organizer_total_events_query] *)
Definition organizer_total_events_query (db : ProfileDb) (address : string) : Z :=
  Z.of_nat (length (filter (λ e, is_flagged e = false) (events_of db address))).
(** Types of columns: [SUM] of a [BIGINT] is [NUMERIC], which is not read as an [i64]. *)
Inductive pg_type : Type := Int4 | Int8 | Numeric.
Definition sum_type (t : pg_type) : pg_type := match t with Int4 => Int8 | Int8 | Numeric => Numeric end.
Definition reads_i64 (t : pg_type) : bool := match t with Int8 => true | _ => false end.
Definition minted_tickets_type : pg_type := Int8.   (** [20260623000001_add_event_ticket_inventory.sql] *)
Definition mismatched_types : SqlxError := SqlxOther "mismatched types".
Definition organizer_stats_query (avg : list Q → Q) (db : ProfileDb) (address : string) : res SqlxError OrganizerStats :=
  let shown := filter (λ e, is_flagged e = false) (events_of db address) in
  let rated := filter (λ e, count_of_ratings e ≠ 0) shown in
  let ratings := map (λ e, fdiv (of_int (sum_of_ratings e)) (of_int (count_of_ratings e))) rated in
  if reads_i64 (sum_type minted_tickets_type)
  then Ok (MkStats (Z.of_nat (length shown)) (foldr Z.add 0 (map minted_tickets shown))
             (match ratings with [] => 0%Q | _ => avg ratings end))
  else Err mismatched_types.
Definition newest_tx (a b : TransactionSummary) : Prop := ts_created_at b ≤ ts_created_at a.
#[export] Instance newest_tx_dec : RelDecision newest_tx.
Proof. intros a b. unfold newest_tx. apply _. Defined.
(** Payments for tickets that the wallet bought; the event is that of the
    ticket, or of its tier. *)
Definition transactions_of (db : ProfileDb) (address : string) : list TransactionSummary :=
  omap (λ p, match pf_tickets db !! tx_ticket p.2 with
             | Some t => if decide (tk_buyer t = Some address)
                         then let event := match tk_event t with
                                           | Some e => Some e
                                           | None => tier ← tk_tier t; tr_event_id <$> pf_tiers db !! tier
                                           end in
                              Some (MkTransactionSummary p.1 event (tx_amount p.2) (tx_status p.2) (tx_created_at p.2))
                         else None
             | None => None
             end) (map_to_list (pf_transactions db)).
Definition organized_rows (db : ProfileDb) (now : Z) (address : string) : res SqlxError (list Event) :=
  match filter (λ p, p.2 = Some address) (map_to_list (pf_organizers db)) with
  | [] => Ok []
  | [(o, _)] => Ok (merge_sort earlier (filter (λ e, organizer_id e = o ∧ match end_time e with Some t => now <? t | None => false end = true)
                      (map_to_list (pf_events db)).*2))
  | _ => Err subquery_rows
  end.
(** [ORDER BY e.start_time ASC NULLS LAST] *)
Definition start_le (a b : WalletTicket) : Prop :=
  match wt_event_start_time a, wt_event_start_time b with
  | Some s, Some t => s ≤ t
  | Some _, None | None, None => True
  | None, Some _ => False
  end.
#[export] Instance start_le_dec : RelDecision start_le.
Proof. intros a b. unfold start_le. repeat case_match; apply _. Defined.
Definition wallet_ticket (db : ProfileDb) (p : Z * EvTicket) : WalletTicket :=
  let t := p.2 in
  let tier := tk_tier t ≫= λ i, pf_tiers db !! i in
  let event := tk_event t ≫= λ i, pf_events db !! i in
  MkWalletTicket p.1 (tk_status t) (tk_tier t) (tr_name <$> tier) (tr_price <$> tier) (tk_event t) (title <$> event)
    (location <$> event) (start_time <$> event) (event ≫= image_url) (tk_created_at t).
Definition held_by (address : string) (t : EvTicket) : Prop := tk_owner t = Some address ∨ tk_buyer t = Some address.
#[export] Instance held_by_dec address t : Decision (held_by address t).
Proof. unfold held_by. apply _. Defined.
Definition wallet_rows (db : ProfileDb) (address : string) : list WalletTicket :=
  map (wallet_ticket db) (filter (λ p, held_by address p.2) (map_to_list (pf_tickets db))).

(** ** The statement of an update

    [Separated] of [sqlx] writes the separator before each piece that is pushed
    to it and before each argument that is bound to it, except the first. *)
Inductive piece : Type := Push (text : string) | PushBind.
Fixpoint number_binds (n : Z) (ps : list piece) : list string :=
  match ps with
  | [] => []
  | Push s :: ps => s :: number_binds n ps
  | PushBind :: ps => ("$" +:+ pretty n) :: number_binds (n + 1) ps
  end.
Definition separated (sep : string) (ps : list piece) : string := String.concat sep (number_binds 1 ps).
Definition binds (ps : list piece) : Z :=
  Z.of_nat (length (List.filter (λ p, match p with PushBind => true | Push _ => false end) ps)).
Definition patch_pieces (name bio avatar socials : option string) : list piece :=
  let column (o : option string) (text : string) := match o with Some _ => [Push text; PushBind] | None => [] end in
  column name "display_name = " ++ column bio "bio = " ++ column avatar "avatar_url = " ++ column socials "socials = "
  ++ [Push "updated_at = NOW()"].
Definition patch_statement (name bio avatar socials : option string) : string :=
  let ps := patch_pieces name bio avatar socials in
  "UPDATE organizer_profiles SET " +:+ separated ", " ps +:+ " WHERE address = " +:+ ("$" +:+ pretty (binds ps + 1))
  +:+ " RETURNING *".
(** What PostgreSQL reads as an update of those columns. *)
Definition update_of (name bio avatar socials : option string) : string :=
  let column (o : option string) (text : string) := match o with Some _ => [text] | None => [] end in
  let columns := column name "display_name = " ++ column bio "bio = " ++ column avatar "avatar_url = " ++ column socials "socials = " in
  let assignments := zip_with (λ text n, text +:+ "$" +:+ pretty n) columns (seqZ 1 (Z.of_nat (length columns))) in
  "UPDATE organizer_profiles SET " +:+ String.concat ", " (assignments ++ ["updated_at = NOW()"])
  +:+ " WHERE address = " +:+ ("$" +:+ pretty (Z.of_nat (length columns) + 1)) +:+ " RETURNING *".
Definition syntax_error : SqlxError := SqlxDatabase false false "syntax error".

(** What a command meets: the time, whether Redis and the database answer, and
    whether the entry it reads has expired. *)
Record PfEnv : Type := MkPfEnv { pe_now : Z; pe_redis : bool; pe_db : bool; pe_expired : bool; pe_avg : list Q → Q }.
Definition profile_checks (name : string) (bio : option string) : bool :=
  (chars_count name <=? 50) && match bio with Some b => chars_count b <=? 500 | None => true end.
Definition upserted (now : Z) (address name : string) (bio avatar : option string) (socials : string)
    (old : option OrganizerProfile) : OrganizerProfile :=
  MkProfile address name bio avatar socials (match old with Some p => op_created_at p | None => now end) now.
Definition patched (now : Z) (name bio avatar socials : option string) (p : OrganizerProfile) : OrganizerProfile :=
  MkProfile (op_address p) (default (op_display_name p) name) (match bio with Some b => Some b | None => op_bio p end)
    (match avatar with Some a => Some a | None => op_avatar_url p end) (default (op_socials p) socials) (op_created_at p) now.
Definition pf_exec (env : PfEnv) {R} (c : pf_cmd R) (db : ProfileDb) : option (R * ProfileDb) :=
  let now := pe_now env in
  match c in pf_cmd R return option (R * ProfileDb) with
  | UpsertRow a name bio avatar socials =>
      Some (if profile_checks name bio
            then let p := upserted now a name bio avatar socials (pf_profiles db !! a) in
                 (Ok p, db ⟨ pf_profiles ::= <[a := p]> ⟩)
            else (Err event_check_violation, db))
  | PatchRow statement a name bio avatar socials =>
      Some (if negb (String.eqb statement (update_of name bio avatar socials)) then (Err syntax_error, db)
            else match pf_profiles db !! a with
                 | None => (Ok None, db)
                 | Some p =>
                     let p := patched now name bio avatar socials p in
                     if profile_checks (op_display_name p) (op_bio p) then (Ok (Some p), db ⟨ pf_profiles ::= <[a := p]> ⟩)
                     else (Err event_check_violation, db)
                 end)
  | DeleteRow a =>
      Some (tt, db ⟨ pf_profiles ::= delete a ⟩ ⟨ pf_follows ::= filter (λ p, p.2 ≠ a) ⟩
                   ⟨ pf_api_keys ::= filter (λ p, p.2 ≠ a) ⟩)
  | CountActive a => Some (count_active db now a, db)
  | SelectRow a => Some (pf_profiles db !! a, db)
  | CountShown a => Some (organizer_total_events_query db a, db)
  | SelectStats a => Some (organizer_stats_query (pe_avg env) db a, db)
  | CountTransactions a => Some (Z.of_nat (length (transactions_of db a)), db)
  | SelectTransactions a limit offset => Some (sql_page limit offset (merge_sort newest_tx (transactions_of db a)), db)
  | SelectOrganized a cursor limit =>
      Some (let! rows := organized_rows db now a in Ok (take (Z.to_nat limit) (after_start cursor rows)), db)
  | PaidAmong ids =>
      Some (remove_dups (filter (λ e, e ∈ ids)
        (map (λ p, tr_event_id p.2) (filter (λ p, Qle_bool (tr_price p.2) 0 = false) (map_to_list (pf_tiers db))))), db)
  | SelectWalletTickets a => Some (merge_sort start_le (wallet_rows db a), db)
  | GetProfile a =>
      Some (if pe_expired env then (None, db ⟨ profile_cache ::= delete a ⟩) else (profile_cache db !! a, db))
  | SetProfile a r => Some (tt, db ⟨ profile_cache ::= <[a := r]> ⟩)
  | DelProfile a => Some (tt, db ⟨ profile_cache ::= delete a ⟩)
  | GetStats a => Some (if pe_expired env then (None, db ⟨ stats_cache ::= delete a ⟩) else (stats_cache db !! a, db))
  | SetStats a s => Some (tt, db ⟨ stats_cache ::= <[a := s]> ⟩)
  | DelStats a => Some (tt, db ⟨ stats_cache ::= delete a ⟩)
  | PfNow => Some (now, db)
  end.
Definition to_redis {R} (c : pf_cmd R) : bool :=
  match c with GetProfile _ | SetProfile _ _ | DelProfile _ | GetStats _ | SetStats _ _ | DelStats _ => true | _ => false end.
Definition to_clock {R} (c : pf_cmd R) : bool := match c with PfNow => true | _ => false end.
Definition pf_step_at (env : PfEnv) (R : Type) (c : pf_cmd R) (db : ProfileDb) : option (R * ProfileDb) :=
  if to_clock c || (if to_redis c then pe_redis env else pe_db env) then pf_exec env c db else None.
Abbreviation pf_prog := (prog pf_cmd AppError).

(** ** The handlers, for the wallet a request is authenticated for *)
Section Handlers.
Context `{CursorCodec EventCursor}.
Variable json_text : Json → string.
Definition statement_result {A R} (r : res SqlxError R) (k : R → pf_prog A) : pf_prog A :=
  match r with Ok x => k x | Err e => ret (Err (DatabaseError e)) | Panic => ret Panic end.
(** Failures of the cache are logged. *)
Definition drop_cached {A} (address : string) (k : pf_prog A) : pf_prog A :=
  Call (DelStats address) (λ _, Call (DelProfile address) (λ _, k)).
Definition upsert_profile (address : string) (payload : UpsertProfileRequest) : pf_prog OrganizerProfile :=
  let* _ := ret (validate_upsert payload) in
  let!? r := UpsertRow address (trim (up_display_name payload)) (up_bio payload) (up_avatar_url payload)
               (json_text (up_socials payload)) in
  statement_result r (λ profile, drop_cached address (ret (Ok profile))).
Definition no_profile (address : string) : AppError := NotFound ("No profile found for address '" +:+ address +:+ "'").
Definition patch_profile (address : string) (payload : PatchProfileRequest) : pf_prog OrganizerProfile :=
  let* _ := ret (validate_patch payload) in
  let name := trim <$> pa_display_name payload in
  let socials := if is_null (pa_socials payload) then None else Some (json_text (pa_socials payload)) in
  let!? r := PatchRow (patch_statement name (pa_bio payload) (pa_avatar_url payload) socials) address name (pa_bio payload)
               (pa_avatar_url payload) socials in
  statement_result r (λ row,
    match row with
    | Some profile => drop_cached address (ret (Ok profile))
    | None => ret (Err (no_profile address))
    end).
Definition delete_profile (address : string) : pf_prog unit :=
  let!? active_events := CountActive address in
  let* _ := ret (validate_profile_deletion active_events) in
  let!? _ := DeleteRow address in
  drop_cached address (ret (Ok tt)).
Definition fetch_profile_by_address (address : string) : pf_prog OrganizerProfileResponse :=
  Call (GetProfile address) (λ cached,
    match cached with
    | Some (Some r) => ret (Ok r)
    | _ =>
        let!? row := SelectRow address in
        match row with
        | None => ret (Err (no_profile address))
        | Some profile =>
            let!? total_events := CountShown address in
            let response := MkProfileResponse profile total_events in
            Call (SetProfile address response) (λ _, ret (Ok response))
        end
    end).
Definition get_my_profile (address : string) : pf_prog OrganizerProfileResponse := fetch_profile_by_address address.
Definition get_profile_by_address (address : string) : pf_prog OrganizerProfileResponse := fetch_profile_by_address address.
Definition list_my_transactions (checks : bool) (address : string) (pagination : PaginationParams)
    : pf_prog (PaginatedResponse TransactionSummary) :=
  let validated := validate pagination in
  let!? total := CountTransactions address in
  match offset checks validated with
  | Ok off =>
      let!? items := SelectTransactions address (limit validated) off in
      ret (Ok (paginated items validated total))
  | _ => ret Panic
  end.
Definition get_organizer_stats (address : string) : pf_prog OrganizerStats :=
  Call (GetStats address) (λ cached,
    match cached with
    | Some (Some s) => ret (Ok s)
    | _ =>
        let!? r := SelectStats address in
        statement_result r (λ stats, Call (SetStats address stats) (λ _, ret (Ok stats)))
    end).
Definition mark_all_free (items : list Event) : pf_prog (list Event) :=
  if decide (items = []) then ret (Ok items)
  else Call (PaidAmong (map id items)) (λ paid,
         match paid with Some paid => ret (Ok (map (mark_free paid) items)) | None => ret (Ok items) end).
Definition list_events_by_organizer (address : string) (params : CursorParams) : pf_prog (CursorResponse Event) :=
  let validated := validate_cursor params in
  let* cursor := ret (decode_opt (vc_cursor validated)) in
  let!? r := SelectOrganized address cursor (query_limit validated) in
  statement_result r (λ rows,
    let ' (items, extra) := split_page validated rows in
    let* next := ret (match extra with
                      | Some last => let! c := ok_or (encode_cursor (cursor_of last)) not_encoded in Ok (Some c)
                      | None => Ok None
                      end) in
    let* items := mark_all_free items in
    ret (Ok (cursor_response items validated next))).
End Handlers.
(** Tickets without the date of an event are upcoming. *)
Definition still_upcoming (now : Z) (t : WalletTicket) : bool :=
  match wt_event_start_time t with Some start => now <=? start | None => true end.
(** [sort_by_key(Reverse)], which keeps the order of equals; an absent time is the least. *)
Definition start_ge (a b : WalletTicket) : Prop :=
  match wt_event_start_time a, wt_event_start_time b with
  | Some s, Some t => t ≤ s
  | Some _, None | None, None => True
  | None, Some _ => False
  end.
#[export] Instance start_ge_dec : RelDecision start_ge.
Proof. intros a b. unfold start_ge. repeat case_match; apply _. Defined.
Definition group_tickets (now : Z) (tickets : list WalletTicket) : WalletTicketsResponse :=
  MkWalletTickets (filter (λ t, still_upcoming now t = true) tickets)
    (merge_sort start_ge (filter (λ t, still_upcoming now t = false) tickets)).
Definition get_wallet_tickets (address : string) : pf_prog WalletTicketsResponse :=
  let!? tickets := SelectWalletTickets address in
  Call PfNow (λ now, ret (Ok (group_tickets (default 0 now) tickets))).

(** ** An update of some fields is never read *)
(** The texts depend on which fields there are, not on what they hold. *)
Lemma patch_unreadable name bio avatar socials : ¬ (name = None ∧ bio = None ∧ avatar = None ∧ socials = None) →
  String.eqb (patch_statement name bio avatar socials) (update_of name bio avatar socials) = false.
Proof. intros Hn. destruct name, bio, avatar, socials; by try (vm_compute; tauto). Qed.
Lemma validate_patch_some req : validate_patch req = Ok tt →
  ¬ (pa_display_name req = None ∧ pa_bio req = None ∧ pa_avatar_url req = None ∧ is_null (pa_socials req) = true).
Proof.
  unfold validate_patch. intros Hv (H1 & H2 & H3 & H4). rewrite H1, H2, H3, H4 in Hv. by vm_compute in Hv.
Qed.
Lemma validated_unreadable (json_text : Json → string) req : validate_patch req = Ok tt →
  let name := trim <$> pa_display_name req in
  let socials := if is_null (pa_socials req) then None else Some (json_text (pa_socials req)) in
  String.eqb (patch_statement name (pa_bio req) (pa_avatar_url req) socials)
    (update_of name (pa_bio req) (pa_avatar_url req) socials) = false.
Proof.
  intros Hv. apply patch_unreadable. apply validate_patch_some in Hv. intros (H1 & H2 & H3 & H4). apply Hv.
  split_and!; [by destruct (pa_display_name req)|done|done|by destruct (is_null (pa_socials req))].
Qed.

(** ** One request after another *)
Definition redis_up (env : PfEnv) : PfEnv := MkPfEnv (pe_now env) true (pe_db env) (pe_expired env) (pe_avg env).
Definition pf_up (env : PfEnv) : ∀ R, pf_cmd R → ProfileDb → option (R * ProfileDb) := pf_step_at (redis_up env).
Section Serial.
Context `{CursorCodec EventCursor}.
Variable json_text : Json → string.
#[local] Abbreviation pruns := (runs pf_up).
Inductive pf_request : pf_prog unit → Prop :=
| RqUpsert a p : pf_request (forget (upsert_profile json_text a p))
| RqPatch a p : pf_request (forget (patch_profile json_text a p))
| RqDelete a : pf_request (forget (delete_profile a))
| RqProfile a : pf_request (forget (fetch_profile_by_address a))
| RqTransactions checks a p : pf_request (forget (list_my_transactions checks a p))
| RqStats a : pf_request (forget (get_organizer_stats a))
| RqOrganized a p : pf_request (forget (list_events_by_organizer a p))
| RqTickets a : pf_request (forget (get_wallet_tickets a)).
Definition pf_served (db db' : ProfileDb) : Prop := ∃ p out, pf_request p ∧ pruns p db out db'.
(** What the cache holds of a profile is what the table holds. *)
Definition coherent_but (a : option string) (db : ProfileDb) : Prop :=
  ∀ b r, profile_cache db !! b = Some r → Some b ≠ a → pf_profiles db !! b = Some (pr_profile r).
Definition coherent (db : ProfileDb) : Prop := coherent_but None db.
(** Commands that touch neither the table nor the cache of profiles. *)
Definition pf_passive {R} (c : pf_cmd R) : bool :=
  match c with UpsertRow _ _ _ _ _ | PatchRow _ _ _ _ _ _ | DeleteRow _ | GetProfile _ | SetProfile _ _ | DelProfile _ => false | _ => true end.
Lemma pf_passive_step v R (c : pf_cmd R) db r db' : pf_passive c → pf_step_at v R c db = Some (r, db') →
  pf_profiles db' = pf_profiles db ∧ profile_cache db' = profile_cache db.
Proof.
  intros Hc Hs. unfold pf_step_at in Hs. destruct (_ || _); [|done]. destruct c; try done; cbn in Hs; repeat case_match; by simplify_eq.
Qed.
Lemma passive_runs {A} (p : pf_prog A) db out db' : only (λ R c, pf_passive c = true) p → pruns p db out db' →
  pf_profiles db' = pf_profiles db ∧ profile_cache db' = profile_cache db.
Proof.
  revert db. induction p as [r|R c k IH]; intros db Hp; [by intros [_ <-]|]. destruct Hp as [Hc Hk]. intros [v Hr].
  destruct (pf_up v R c db) as [[x db1]|] eqn:Hs; [|by eapply IH].
  apply pf_passive_step in Hs as [H1 H2]; [|by rewrite Hc]. apply IH in Hr as [H3 H4]; [|done]. split; congruence.
Qed.
(** Emptying the entries of an address. *)
Lemma drop_cached_runs {A} a (x : res AppError A) db out db' : coherent_but (Some a) db → pruns (drop_cached a (ret x)) db out db' →
  out = x ∧ coherent db' ∧ pf_profiles db' = pf_profiles db.
Proof.
  intros Hc (v & Hr). cbn in Hr. destruct Hr as (v2 & Hr). cbn in Hr. destruct Hr as [<- <-]. split_and!; [done| |done].
  intros b r Hb _. cbn in Hb. apply lookup_delete_Some in Hb as [Hn Hb]. cbn. apply Hc; [done|]. congruence.
Qed.
Lemma upsert_runs a p db out db' : coherent db → pruns (upsert_profile json_text a p) db out db' →
  coherent db' ∧ match out with Ok r => pf_profiles db' !! a = Some r | _ => pf_profiles db' = pf_profiles db end.
Proof.
  intros Hc Hr. unfold upsert_profile in Hr. destruct (validate_upsert p) as [[]|e|]; cbn [bind] in Hr; [|by destruct Hr as [<- <-]..].
  destruct Hr as [v Hr]. unfold pf_up, pf_step_at in Hr. cbn in Hr. destruct (pe_db v); [|by destruct Hr as [<- <-]].
  destruct (profile_checks _ _); [|by destruct Hr as [<- <-]].
  set (row := upserted _ _ _ _ _ _ _) in Hr. cbn [statement_result] in Hr.
  apply drop_cached_runs in Hr as (-> & Hc' & Hp).
  - split; [done|]. rewrite Hp. cbn. by apply lookup_insert_eq.
  - intros b r Hb Hn. cbn in Hb |- *. rewrite lookup_insert_ne by congruence. by apply Hc.
Qed.
Lemma patch_runs a p db out db' : pruns (patch_profile json_text a p) db out db' → (∀ x, out ≠ Ok x) ∧ db' = db.
Proof.
  intros Hr. unfold patch_profile in Hr. destruct (validate_patch p) as [[]|e|] eqn:Hv; cbn [bind] in Hr; [|by destruct Hr as [<- <-]..].
  destruct Hr as [v Hr]. unfold pf_up, pf_step_at in Hr. cbn [to_clock to_redis orb redis_up pe_db pe_redis] in Hr.
  destruct (pe_db v); [|by destruct Hr as [<- <-]]. cbn [pf_exec] in Hr.
  rewrite validated_unreadable in Hr by done. cbn in Hr. by destruct Hr as [<- <-].
Qed.
Lemma delete_runs a db out db' : coherent db → pruns (delete_profile a) db out db' →
  coherent db' ∧ match out with Ok _ => pf_profiles db' !! a = None | _ => pf_profiles db' = pf_profiles db end.
Proof.
  intros Hc [v Hr]. unfold pf_up, pf_step_at in Hr. cbn in Hr. destruct (pe_db v); [|by destruct Hr as [<- <-]].
  destruct (validate_profile_deletion _) as [[]|e|]; cbn [bind] in Hr; [|by destruct Hr as [<- <-]..].
  destruct Hr as [v2 Hr]. unfold pf_up, pf_step_at in Hr. cbn in Hr. destruct (pe_db v2); [|by destruct Hr as [<- <-]].
  apply drop_cached_runs in Hr as (-> & Hc' & Hp).
  - split; [done|]. rewrite Hp. cbn. by apply lookup_delete_eq.
  - intros b r Hb Hn. cbn in Hb |- *. rewrite lookup_delete_ne by congruence. by apply Hc.
Qed.
Lemma fetch_profile_runs a db out db' : coherent db → pruns (fetch_profile_by_address a) db out db' →
  coherent db' ∧ pf_profiles db' = pf_profiles db ∧
  match out with
  | Ok r => pf_profiles db !! a = Some (pr_profile r)
  | Err (NotFound _) => pf_profiles db !! a = None
  | Err e => e = db_failed
  | Panic => False
  end.
Proof.
  intros Hc [v Hr]. unfold pf_up, pf_step_at in Hr. cbn in Hr.
  assert (Hmiss : ∀ db1, coherent db1 → pf_profiles db1 = pf_profiles db →
    pruns (call_or db_failed (SelectRow a) (λ row, match row with
      | None => ret (Err (no_profile a))
      | Some profile => call_or db_failed (CountShown a) (λ total,
          Call (SetProfile a (MkProfileResponse profile total)) (λ _, ret (Ok (MkProfileResponse profile total))))
      end)) db1 out db' → coherent db' ∧ pf_profiles db' = pf_profiles db ∧
      match out with
      | Ok r => pf_profiles db !! a = Some (pr_profile r)
      | Err (NotFound _) => pf_profiles db !! a = None
      | Err e => e = db_failed
      | Panic => False
      end).
  { intros db1 Hc1 Hp1 [v1 Hr1]. unfold pf_up, pf_step_at in Hr1. cbn in Hr1. destruct (pe_db v1); [|by destruct Hr1 as [<- <-]].
    destruct (pf_profiles db1 !! a) as [row|] eqn:Hrow; [|by destruct Hr1 as [<- <-]; rewrite <- Hp1].
    destruct Hr1 as [v2 Hr1]. unfold pf_up, pf_step_at in Hr1. cbn in Hr1. destruct (pe_db v2); [|by destruct Hr1 as [<- <-]].
    destruct Hr1 as [v3 Hr1]. cbn in Hr1. destruct Hr1 as [<- <-]. cbn. split_and!; [|done|by rewrite <- Hp1].
    intros b r Hb _. cbn in Hb |- *. apply lookup_insert_Some in Hb as [[<- <-]|[Hn Hb]]; [done|by apply Hc1]. }
  destruct (pe_expired v).
  - apply (Hmiss (db ⟨ profile_cache ::= delete a ⟩)); [|done|exact Hr]. intros b r Hb _. cbn in Hb |- *. apply lookup_delete_Some in Hb as [_ Hb]. by apply Hc.
  - destruct (profile_cache db !! a) as [r|] eqn:Hr0; [|by apply (Hmiss db)]. destruct Hr as [<- <-]. split_and!; [done|done|]. by apply Hc.
Qed.
Lemma coherent_same db db' : pf_profiles db' = pf_profiles db ∧ profile_cache db' = profile_cache db → coherent db → coherent db'.
Proof. intros [Hp Hq] Hc b r. rewrite Hp, Hq. apply Hc. Qed.
Lemma pf_served_coherent db db' : pf_served db db' → coherent db → coherent db'.
Proof.
  intros (p & out & Hp & Hr) Hc. destruct Hp as [a p|a p|a|a|checks a p|a|a p|a]; apply runs_forget in Hr as [r Hr].
  - by apply upsert_runs in Hr as [? _].
  - by apply patch_runs in Hr as [_ ->].
  - by apply delete_runs in Hr as [? _].
  - by apply fetch_profile_runs in Hr as [? _].
  - eapply coherent_same, Hc. eapply passive_runs, Hr. unfold list_my_transactions. only_tac; done.
  - eapply coherent_same, Hc. eapply passive_runs, Hr. unfold get_organizer_stats, statement_result. only_tac; done.
  - eapply coherent_same, Hc. eapply passive_runs, Hr. unfold list_events_by_organizer, statement_result, mark_all_free. only_tac; done.
  - eapply coherent_same, Hc. eapply passive_runs, Hr. unfold get_wallet_tickets. only_tac; done.
Qed.

End Serial.

(** ** The tickets of a wallet *)
#[local] Instance start_le_total : Total start_le.
Proof. intros a b. unfold start_le. repeat case_match; try lia; auto. Qed.
#[local] Instance start_le_trans : Transitive start_le.
Proof. intros a b c. unfold start_le. repeat case_match; try done; lia. Qed.
#[local] Instance start_ge_total : Total start_ge.
Proof. intros a b. unfold start_ge. repeat case_match; try lia; auto. Qed.
Lemma filter_partition (P : WalletTicket → bool) l :
  filter (λ t, P t = true) l ++ filter (λ t, P t = false) l ≡ₚ l.
Proof.
  induction l as [|t l IH]; [done|]. rewrite !filter_cons. destruct (P t) eqn:HP; repeat case_decide; try congruence.
  - cbn. by rewrite IH.
  - by rewrite <- Permutation_middle, IH.
Qed.
Lemma filter_sorted {A} (R : relation A) (P : A → bool) l : StronglySorted R l → StronglySorted R (filter (λ t, P t = true) l).
Proof.
  induction 1 as [|x l Hl IH Hx]; [constructor|]. rewrite filter_cons. case_decide; [|done]. constructor; [done|].
  apply Forall_forall. intros y Hy. apply list_elem_of_filter in Hy as [_ Hy]. by apply (proj1 (Forall_forall _ _) Hx).
Qed.
(** Every ticket that the wallet owns or bought is shown, once: among the upcoming
    ones, the soonest first and those without a date at the end, when its event has
    not begun or has no date; among the past ones, the latest first, otherwise. *)
Theorem wallet_tickets_grouped env db address r :
  (prun (pf_step_at env) (get_wallet_tickets address) db).1 = Ok r →
  wr_upcoming r ++ wr_past r ≡ₚ wallet_rows db address ∧
  Sorted start_le (wr_upcoming r) ∧ (∀ t, t ∈ wr_upcoming r → still_upcoming (pe_now env) t = true) ∧
  Sorted start_ge (wr_past r) ∧ (∀ t, t ∈ wr_past r → still_upcoming (pe_now env) t = false).
Proof.
  unfold get_wallet_tickets, pf_step_at. cbn. destruct (pe_db env); [|done]. intros [= <-]. unfold group_tickets. cbn [wr_upcoming wr_past default].
  set (now := pe_now env). set (rows := merge_sort start_le (wallet_rows db address)).
  split_and!.
  - rewrite merge_sort_Permutation, filter_partition. apply merge_sort_Permutation.
  - apply StronglySorted_Sorted, filter_sorted, StronglySorted_merge_sort; apply _.
  - intros t Ht. by apply list_elem_of_filter in Ht as [? _].
  - apply Sorted_merge_sort, _.
  - intros t Ht. rewrite merge_sort_Permutation in Ht. by apply list_elem_of_filter in Ht as [? _].
Qed.

(** ** What the table of profiles holds *)
Section Valid.
Context `{CursorCodec EventCursor}.
Variable json_text : Json → string.
Record profile_valid (a : string) (p : OrganizerProfile) : Prop := {
  pv_address : op_address p = a;
  pv_name : blank (op_display_name p) = false;
  pv_trimmed : trim (op_display_name p) = op_display_name p;
  pv_name_len : byte_len (op_display_name p) ≤ 50;
  pv_bio : ∀ b, op_bio p = Some b → byte_len b ≤ 500;
  pv_avatar : ∀ u, op_avatar_url p = Some u → starts_with "https://" u = true ∧ byte_len u ≤ 2048;
  pv_socials : ∃ v, op_socials p = json_text v ∧
    (v = JNull ∨ ∃ obj, v = JObject obj ∧
      ∀ key value, (key, value) ∈ obj → key ∈ ALLOWED_SOCIAL_KEYS ∧ ∃ text, value = JString text ∧ byte_len text ≤ 200)
}.
Definition profiles_ok (db : ProfileDb) : Prop := map_Forall profile_valid (pf_profiles db).
Lemma trim_shorter s : byte_len (trim s) ≤ byte_len s.
Proof.
  unfold byte_len. rewrite trim_bytes. destruct (trim_start_spec (as_bytes s)) as (a & Ha & _).
  destruct (trim_end_spec (trim_start_bytes (as_bytes s))) as (z & Hz & _).
  apply (f_equal length) in Ha, Hz. rewrite length_app in Ha, Hz. lia.
Qed.
Lemma social_entries_ok obj : validate_social_entries obj = Ok tt →
  ∀ key value, (key, value) ∈ obj → key ∈ ALLOWED_SOCIAL_KEYS ∧ ∃ text, value = JString text ∧ byte_len text ≤ 200.
Proof.
  induction obj as [|[k v] obj IH]; [by intros _ ? ? ?%not_elem_of_nil|]. cbn [validate_social_entries]. intros Hv key value.
  apply rbind_Ok in Hv as (u1 & Hk & Hv). apply fail_if_Ok in Hk. apply rbind_Ok in Hv as (text & Ht & Hv). apply ok_or_Ok in Ht.
  apply rbind_Ok in Hv as (u2 & Hl & Hv). apply fail_if_Ok in Hl. intros [Heq|Hin]%elem_of_cons; [|by eapply IH].
  injection Heq as -> ->. split; [by destruct (bool_decide_reflect (k ∈ ALLOWED_SOCIAL_KEYS))|].
  exists text. split; [by destruct v; cbn in Ht; simplify_eq|]. unfold MAX_SOCIAL_VALUE in Hl. lia.
Qed.
Lemma validated_row now a p old : validate_upsert p = Ok tt →
  profile_valid a (upserted now a (trim (up_display_name p)) (up_bio p) (up_avatar_url p) (json_text (up_socials p)) old).
Proof.
  unfold validate_upsert. intros Hv.
  apply rbind_Ok in Hv as (u1 & Hn & Hv). apply fail_if_Ok in Hn. apply rbind_Ok in Hv as (u2 & Hl & Hv). apply fail_if_Ok in Hl.
  apply rbind_Ok in Hv as (u3 & Hb & Hv). apply fail_if_Ok in Hb. apply rbind_Ok in Hv as (u4 & Ha & Hs).
  unfold MAX_DISPLAY_NAME, MAX_BIO in *. pose proof (trim_shorter (up_display_name p)). split; cbn.
  - done.
  - destruct (blank (trim (up_display_name p))) eqn:E; [|done]. apply blank_trim in E. congruence.
  - apply trim_idem.
  - lia.
  - intros b Heq. rewrite Heq in Hb. lia.
  - intros u Heq. rewrite Heq in Ha. unfold validate_avatar_url in Ha. apply rbind_Ok in Ha as (u5 & H1 & Ha). apply fail_if_Ok in H1.
    apply rbind_Ok in Ha as (u6 & H2 & _). apply fail_if_Ok in H2. unfold MAX_AVATAR_URL in H1. split; [by destruct (starts_with _ _)|lia].
  - exists (up_socials p). split; [done|]. destruct (up_socials p) as [| | | | |obj]; cbn in Hs; try done; [by left|right].
    exists obj. split; [done|]. by apply social_entries_ok.
Qed.
Definition writes_valid (R : Type) (c : pf_cmd R) : Prop :=
  match c with
  | UpsertRow a name bio avatar socials => ∀ now old, profile_valid a (upserted now a name bio avatar socials old)
  | PatchRow statement _ name bio avatar socials => String.eqb statement (update_of name bio avatar socials) = false
  | _ => True
  end.
Lemma writes_valid_step v R (c : pf_cmd R) db r db' : writes_valid R c → profiles_ok db → pf_step_at v R c db = Some (r, db') →
  profiles_ok db'.
Proof.
  intros Hc Hok Hs. unfold pf_step_at in Hs. destruct (_ || _); [|done]. destruct c; cbn in Hs, Hc; try rewrite Hc in Hs;
    cbn in Hs; try (by repeat case_match; simplify_eq).
  - destruct (profile_checks _ _); simplify_eq; [|done]. unfold profiles_ok. cbn. by apply map_Forall_insert_2.
  - simplify_eq. unfold profiles_ok. cbn. by apply map_Forall_delete.
Qed.
Lemma pf_request_valid p w : pf_request json_text p → safe pf_step_at (λ _ _, True) profiles_ok p w.
Proof.
  assert (Hs : ∀ A (q : pf_prog A) w, only writes_valid q → safe pf_step_at (λ _ _, True) profiles_ok q w).
  { intros A q w0. apply safe_only. intros v R c w1 r w2 Hc I1 He. split; [done|by eapply writes_valid_step]. }
  destruct 1 as [a q|a q|a|a|checks a q|a|a q|a]; apply safe_forget, Hs.
  - unfold upsert_profile. destruct (validate_upsert q) as [[]|e|] eqn:Hv; cbn [bind]; [|done|done].
    split; [by intros now old; apply validated_row|]. unfold statement_result, drop_cached. only_tac; exact I.
  - unfold patch_profile. destruct (validate_patch q) as [[]|e|] eqn:Hv; cbn [bind]; [|done|done].
    split; [|unfold statement_result, drop_cached; only_tac; exact I]. by apply validated_unreadable.
  - unfold delete_profile, drop_cached. only_tac; exact I.
  - unfold fetch_profile_by_address. only_tac; exact I.
  - unfold list_my_transactions. only_tac; exact I.
  - unfold get_organizer_stats, statement_result. only_tac; exact I.
  - unfold list_events_by_organizer, statement_result, mark_all_free. only_tac; exact I.
  - unfold get_wallet_tickets. only_tac; exact I.
Qed.
(** Only valid profiles are stored.  Whatever requests come, their statements
    interleaving in any order and getting lost, every profile in the table is
    within its limits: a name that is trimmed and not empty, of at most fifty
    bytes, a biography of at most five hundred, an avatar with the scheme https,
    and for socials nothing or texts for known platforms. *)
Theorem profiles_stay_valid db tasks db' : profiles_ok db →
  rtc (pool_step pf_step_at (pf_request json_text)) ([], db) (tasks, db') → profiles_ok db'.
Proof.
  intros Hok Hr. apply (pool_safe pf_step_at (λ _ _, True) profiles_ok) in Hr as (_ & Hi & _);
    [done|by split|intros p w; apply pf_request_valid|done|constructor].
Qed.
End Valid.

(** ** Examples *)
#[local] Instance no_codec : CursorCodec EventCursor :=
  {| to_json _ := None; from_json _ := None; b64url_encode _ := EmptyString; b64url_decode _ := None |}.
Definition json_name (v : Json) : string := match v with JNull => "null" | JObject [] => "{}" | _ => "{..}" end.
Definition noon : PfEnv := MkPfEnv 1000 true true false (λ _, 0%Q).
Definition no_rows : ProfileDb := MkProfileDb ∅ ∅ ∅ ∅ ∅ ∅ ∅ ∅ ∅ ∅.
Definition agora : UpsertProfileRequest := MkUpsert " Agora " None (Some "https://agora.dev/a.png") (JObject [("github", JString "agora")]).
Definition agora_row : OrganizerProfile := MkProfile "GABC" "Agora" None (Some "https://agora.dev/a.png") "{..}" 1000 1000.
Definition with_agora : ProfileDb := Eval vm_compute in (prun (pf_up noon) (upsert_profile json_name "GABC" agora) no_rows).2.
Definition read_agora : ProfileDb := Eval vm_compute in (prun (pf_up noon) (fetch_profile_by_address "GABC") with_agora).2.
Lemma profiles_stay_valid_witness : ∃ tasks,
  profiles_ok json_name no_rows ∧
  rtc (pool_step pf_step_at (pf_request json_name)) ([], no_rows) (tasks, with_agora) ∧ profiles_ok json_name with_agora.
Proof.
  assert (Hok : profiles_ok json_name no_rows) by apply map_Forall_empty.
  destruct (prun_pool (pf_step_at noon) pf_step_at noon (pf_request json_name) (upsert_profile json_name "GABC" agora) [] no_rows)
    as [ts Hr]; [done|apply RqUpsert|].
  exists ts. assert (Hr' : rtc (pool_step pf_step_at (pf_request json_name)) ([], no_rows) (ts, with_agora)) by exact Hr.
  split_and!; [done|done|]. exact (profiles_stay_valid json_name no_rows ts with_agora Hok Hr').
Defined.
Definition concert (start : Z) : Event :=
  MkEvent start 1 "Concert" None "Hall" start None false false 0 0 0 0 0 0 None None None false false 0.
Definition holder : ProfileDb :=
  no_rows ⟨ pf_events := {[ 500 := concert 500; 900 := concert 900; 2000 := concert 2000 ]} ⟩
          ⟨ pf_tickets := {[ 1 := MkEvTicket "used" None (Some 500) (Some "GABC") None None 1;
                             2 := MkEvTicket "active" None None (Some "GABC") None None 2;
                             3 := MkEvTicket "active" None (Some 2000) None (Some "GABC") None 3;
                             4 := MkEvTicket "active" None (Some 900) (Some "GABC") (Some "GABC") None 4;
                             5 := MkEvTicket "active" None (Some 900) None (Some "GXYZ") None 5 ]} ⟩.
Definition shown : WalletTicketsResponse := group_tickets 1000 (merge_sort start_le (wallet_rows holder "GABC")).
Lemma wallet_tickets_grouped_witness :
  (prun (pf_step_at noon) (get_wallet_tickets "GABC") holder).1 = Ok shown ∧
  map wt_id (wr_upcoming shown) = [3; 2] ∧ map wt_id (wr_past shown) = [4; 1] ∧
  wr_upcoming shown ++ wr_past shown ≡ₚ wallet_rows holder "GABC".
Proof.
  assert (Hr : (prun (pf_step_at noon) (get_wallet_tickets "GABC") holder).1 = Ok shown) by reflexivity.
  split_and!; [done|by vm_compute|by vm_compute|]. exact (proj1 (wallet_tickets_grouped noon holder "GABC" shown Hr)).
Defined.
(** A request that changes the biography: what the database gets, and answers. *)
Lemma patch_refused :
  patch_statement None (Some "new") None None =
    "UPDATE organizer_profiles SET bio = , $1, updated_at = NOW() WHERE address = $2 RETURNING *" ∧
  (prun (pf_step_at noon) (patch_profile json_name "GABC" (MkPatch None (Some "new") None JNull)) with_agora).1 =
    Err (DatabaseError syntax_error).
Proof. by vm_compute. Qed.
(** The statistics of an organizer, whatever the tables hold. *)
Lemma stats_refused db a : stats_cache db !! a = None →
  (prun (pf_step_at noon) (get_organizer_stats a) db).1 = Err (DatabaseError mismatched_types).
Proof. intros Ha. cbn. by rewrite Ha. Qed.
(** A read that began before an update and ends after it leaves the old profile
    in the cache, and the next reads show it. *)
Definition renamed : UpsertProfileRequest := MkUpsert "Agora Live" None None (JObject []).
Lemma stale_after_update :
  let tasks := [forget (fetch_profile_by_address "GABC"); forget (upsert_profile json_name "GABC" renamed)] in
  let db := (schedule (pf_step_at noon) [0; 0; 0; 1; 1; 1; 0]%nat (tasks, with_agora)).2 in
  op_display_name <$> pf_profiles db !! "GABC" = Some "Agora Live" ∧
  (op_display_name ∘ pr_profile) <$> (match (prun (pf_step_at noon) (fetch_profile_by_address "GABC") db).1 with Ok r => Some r | _ => None end)
    = Some "Agora".
Proof. by vm_compute. Qed.
