(* ===== verification/SrvConfig.v ===== *)
(** * The server: configuration

    [config/mod.rs], [config/cors.rs] and [config/security.rs]: what [main] reads
    from the environment, the checks before it starts, the origins that browsers
    may call from and the headers of every response.  The environment maps names
    to values; the lower case of a text, and which texts are values of headers,
    are parameters.  The message of a fault is kept by its parts. *)

From Stdlib Require Import Ascii.
From S2P Require Import Prelude Machine ZkBytes WaitPow WaitRoom SrvErrors.
From S2P Require Import SrvPages SrvQr SrvEvents SrvAuth SrvAuthSpecs.
#[local] Open Scope Z_scope.

(** [str::parse] of an unsigned number up to [max]: digits after an optional plus. *)
Fixpoint parse_digits (l : bytes) (acc : Z) : option Z :=
  match l with
  | [] => Some acc
  | b :: l => if (48 <=? b) && (b <=? 57) then parse_digits l (10 * acc + (b - 48)) else None
  end.
Definition parse_uint (max : Z) (s : string) : option Z :=
  let digits := match as_bytes s with 43 :: l => l | l => l end in
  match digits with
  | [] => None
  | _ => n ← parse_digits digits 0; if n <=? max then Some n else None
  end.
(** [s.split(',')] *)
Fixpoint split_comma (s : string) : list string :=
  match s with
  | EmptyString => [EmptyString]
  | String a s =>
      let parts := split_comma s in
      if Ascii.eqb a "," then EmptyString :: parts
      else match parts with [] => [String a EmptyString] | p :: ps => String a p :: ps end
  end.
Definition bytes_of (s : string) : Z := Z.of_nat (length (as_bytes s)).

(** ** Loading *)
Definition JWT_SECRET_MIN_BYTES : Z := 32.
Record Config : Type := MkConfig {
  database_url : string; port : Z; rust_env : string; cors_allowed_origins : string; rust_log : string;
  soroban_rpc_url : string; redis_url : string; s3_bucket : string; s3_region : string; s3_access_key_id : string;
  s3_secret_access_key : string; s3_endpoint_url : option string; s3_public_url : string; base_url : string;
  jwt_secret : string; monitoring_token : option string; admin_token : option string; auth_rate_limit_per_minute : Z;
  shutdown_timeout_secs : Z; allowed_upload_mime_types : list string; db_max_connections : Z; db_min_connections : Z;
  db_acquire_timeout_secs : Z; db_idle_timeout_secs : Z; request_timeout_secs : Z
}.
Definition environment : Type := gmap string string.
Section Loading.
Context (env : environment).
Definition var_or (name value : string) : string := default value (env !! name).
(** [.ok().and_then(|v| v.parse().ok()).unwrap_or(value)] *)
Definition number_or (name : string) (max value : Z) : Z := default value (env !! name ≫= parse_uint max).
Definition from_env : res AppError Config :=
  let! database_url := ok_or (env !! "DATABASE_URL") (ValidationError "DATABASE_URL environment variable is required") in
  let mime_types := match env !! "ALLOWED_UPLOAD_MIME_TYPES" with
                    | Some s => Some s
                    | None => env !! "ALLOWED_MIME_TYPES"
                    end in
  Ok {|
    database_url := database_url;
    port := number_or "PORT" (2 ^ 16 - 1) 3001;
    rust_env := var_or "RUST_ENV" "development";
    cors_allowed_origins := var_or "CORS_ALLOWED_ORIGINS" "http://localhost:3000,http://localhost:5173";
    rust_log := var_or "RUST_LOG" "info";
    soroban_rpc_url := var_or "SOROBAN_RPC_URL" "https://soroban-testnet.stellar.org";
    redis_url := var_or "REDIS_URL" "redis://127.0.0.1:6379";
    s3_bucket := var_or "S3_BUCKET" "";
    s3_region := var_or "S3_REGION" "auto";
    s3_access_key_id := var_or "S3_ACCESS_KEY_ID" "";
    s3_secret_access_key := var_or "S3_SECRET_ACCESS_KEY" "";
    s3_endpoint_url := env !! "S3_ENDPOINT_URL";
    s3_public_url := var_or "S3_PUBLIC_URL" "";
    base_url := var_or "BASE_URL" "https://agora.events";
    jwt_secret := var_or "JWT_SECRET" "";
    monitoring_token := env !! "MONITORING_TOKEN";
    admin_token := env !! "ADMIN_TOKEN";
    auth_rate_limit_per_minute := number_or "AUTH_RATE_LIMIT_PER_MINUTE" (2 ^ 64 - 1) 10;
    shutdown_timeout_secs := number_or "SHUTDOWN_TIMEOUT_SECS" (2 ^ 64 - 1) 15;
    allowed_upload_mime_types := match mime_types with
                                 | Some s => map trim (split_comma s)
                                 | None => ["image/jpeg"; "image/png"; "image/webp"; "image/gif"]
                                 end;
    db_max_connections := number_or "DB_MAX_CONNECTIONS" (2 ^ 32 - 1) 10;
    db_min_connections := number_or "DB_MIN_CONNECTIONS" (2 ^ 32 - 1) 1;
    db_acquire_timeout_secs := number_or "DB_ACQUIRE_TIMEOUT_SECS" (2 ^ 64 - 1) 10;
    db_idle_timeout_secs := number_or "DB_IDLE_TIMEOUT_SECS" (2 ^ 64 - 1) 600;
    request_timeout_secs := number_or "REQUEST_TIMEOUT_SECS" (2 ^ 64 - 1) 30
  |}.
End Loading.

(** ** Checking *)
Inductive ConfigFault : Type :=
| DatabaseUrlEmpty | DatabaseUrlScheme (got : string) | JwtSecretMissing | JwtSecretShort (len : Z) | PortZero
| RedisUrlEmpty | RedisUrlScheme (got : string) | SorobanUrlEmpty | SorobanUrlScheme (got : string)
| BaseUrlEmpty | BaseUrlScheme (got : string) | OriginsEmpty | UnknownEnv (got : string) | ShutdownZero
| PoolZero | PoolMinAboveMax (min max : Z).
Record ConfigError : Type := MkConfigError { ce_errors : list ConfigFault }.
(** [&url[..40]] traps within a character. *)
Definition truncate_url (url : string) : res ConfigError string :=
  if 40 <? bytes_of url
  then match as_bytes url !! 40%nat with
       | Some b => if (128 <=? b) && (b <? 192) then Panic else Ok (text_of (take 40 (as_bytes url)) +:+ "…")
       | None => Ok url
       end
  else Ok url.
Section Checking.
Variable to_lowercase : string → string.
Definition url_fault (url : string) (schemes : list string) (empty : ConfigFault) (wrong : string → ConfigFault)
    : res ConfigError (list ConfigFault) :=
  if blank url then Ok [empty]
  else if existsb (λ s, starts_with s url) schemes then Ok []
  else let! shown := truncate_url url in Ok [wrong shown].
Definition when (b : bool) (f : ConfigFault) : list ConfigFault := if b then [f] else [].
Definition valid_envs : list string := ["development"; "production"; "test"; "testing"].
Definition config_faults (c : Config) : res ConfigError (list ConfigFault) :=
  let! database := url_fault (database_url c) ["postgres://"; "postgresql://"] DatabaseUrlEmpty DatabaseUrlScheme in
  let secret := if blank (jwt_secret c) then [JwtSecretMissing]
                else when (bytes_of (jwt_secret c) <? JWT_SECRET_MIN_BYTES) (JwtSecretShort (bytes_of (jwt_secret c))) in
  let port := when (port c =? 0) PortZero in
  let! redis := url_fault (redis_url c) ["redis://"; "rediss://"] RedisUrlEmpty RedisUrlScheme in
  let! soroban := url_fault (soroban_rpc_url c) ["http://"; "https://"] SorobanUrlEmpty SorobanUrlScheme in
  let! base := url_fault (base_url c) ["http://"; "https://"] BaseUrlEmpty BaseUrlScheme in
  let origins := when (blank (cors_allowed_origins c)) OriginsEmpty in
  let env := when (negb (bool_decide (to_lowercase (rust_env c) ∈ valid_envs))) (UnknownEnv (rust_env c)) in
  let shutdown := when (shutdown_timeout_secs c =? 0) ShutdownZero in
  let pool := if db_max_connections c =? 0 then [PoolZero]
              else when (db_max_connections c <? db_min_connections c)
                     (PoolMinAboveMax (db_min_connections c) (db_max_connections c)) in
  Ok (database ++ secret ++ port ++ redis ++ soroban ++ base ++ origins ++ env ++ shutdown ++ pool).
(** [Config::validate] *)
Definition validate_config (c : Config) : res ConfigError unit :=
  let! errors := config_faults c in
  match errors with [] => Ok tt | _ => Err (MkConfigError errors) end.
Definition is_production (c : Config) : bool := String.eqb (to_lowercase (rust_env c)) "production".

(** ** Origins *)
Variable header_value : string → bool.      (** [parse::<HeaderValue>] succeeds *)
Inductive AllowOrigin : Type := AnyOrigin | OriginList (l : list string).
Inductive OriginFault : Type := NotAbsolute (origin : string) | NotHeader (origin : string).
Inductive CorsConfigError : Type := WildcardWithCredentials | MalformedOrigins (faults : list OriginFault).
Definition origins_of (origins_str : string) : list string := List.filter (λ o, negb (String.eqb o "")) (map trim (split_comma origins_str)).
Definition origin_fault (o : string) : option OriginFault :=
  if negb (starts_with "http://" o) && negb (starts_with "https://" o) then Some (NotAbsolute o)
  else if header_value o then None else Some (NotHeader o).
Definition validate_and_build_origins (origins_str : string) (allow_credentials : bool) : res CorsConfigError AllowOrigin :=
  let has_wildcard := existsb (λ o, String.eqb (trim o) "*") (split_comma origins_str) in
  if has_wildcard && allow_credentials then Err WildcardWithCredentials
  else if has_wildcard then Ok AnyOrigin
  else
    let errors := omap origin_fault (origins_of origins_str) in
    let valid_origins := List.filter (λ o, bool_decide (origin_fault o = None)) (origins_of origins_str) in
    match errors, valid_origins with
    | _ :: _, _ => Err (MalformedOrigins errors)
    | [], [] => Ok AnyOrigin
    | [], _ => Ok (OriginList valid_origins)
    end.
Definition DEFAULT_ALLOWED_ORIGINS : string := "http://localhost:3000,http://localhost:5173".
Record CorsLayer : Type := MkCors {
  cl_origins : AllowOrigin; cl_methods : list string; cl_headers : list string; cl_exposed : list string;
  cl_credentials : bool; cl_max_age : Z
}.
Definition create_cors_layer (env : environment) : res CorsConfigError CorsLayer :=
  let! origins := validate_and_build_origins (default DEFAULT_ALLOWED_ORIGINS (env !! "CORS_ALLOWED_ORIGINS")) true in
  Ok (MkCors origins ["GET"; "POST"; "PUT"; "DELETE"; "PATCH"; "OPTIONS"]
        ["content-type"; "authorization"; "accept"; "origin"; "x-requested-with"]
        ["content-length"; "content-type"; "x-request-id"] true 86400).

(** ** Headers of responses: names are compared in lower case, a later value replaces one *)
Definition security_headers (include_hsts : bool) : list (string * string) :=
  [("x-content-type-options", "nosniff"); ("x-frame-options", "DENY"); ("x-xss-protection", "1; mode=block");
   ("content-security-policy", "default-src 'none'; frame-ancestors 'none'");
   ("referrer-policy", "strict-origin-when-cross-origin");
   ("permissions-policy", "geolocation=(), microphone=(), camera=()")]
  ++ (if include_hsts then [("strict-transport-security", "max-age=31536000; includeSubDomains")] else []).
Definition include_hsts (env : environment) : bool :=
  match env !! "RUST_ENV" with Some v => String.eqb (to_lowercase v) "production" | None => false end.
Definition secured (hsts : bool) (headers : gmap string string) : gmap string string :=
  foldl (λ h p, <[p.1 := p.2]> h) headers (security_headers hsts).
End Checking.

(** ** What a server that started has checked *)
Section Started.
Variable to_lowercase : string → string.
Definition url_rule (url : string) (schemes : list string) : bool := negb (blank url) && existsb (λ s, starts_with s url) schemes.
(** The rules of the table in the documentation of [validate], and those for the
    shutdown and the pool. *)
Definition config_rules (c : Config) : list bool :=
  [url_rule (database_url c) ["postgres://"; "postgresql://"];
   negb (blank (jwt_secret c)) && (JWT_SECRET_MIN_BYTES <=? bytes_of (jwt_secret c));
   negb (port c =? 0);
   url_rule (redis_url c) ["redis://"; "rediss://"];
   url_rule (soroban_rpc_url c) ["http://"; "https://"];
   url_rule (base_url c) ["http://"; "https://"];
   negb (blank (cors_allowed_origins c));
   bool_decide (to_lowercase (rust_env c) ∈ valid_envs);
   negb (shutdown_timeout_secs c =? 0);
   negb (db_max_connections c =? 0) && (db_min_connections c <=? db_max_connections c)].
Definition violated (rules : list bool) : nat := length (List.filter negb rules).
Lemma url_faults url schemes empty wrong :
  match url_fault url schemes empty wrong with
  | Ok l => length l = violated [url_rule url schemes]
  | Err _ => False
  | Panic => truncate_url url = Panic
  end.
Proof.
  unfold url_fault, url_rule, violated. destruct (blank url); [done|]. destruct (existsb _ _); [done|].
  destruct (truncate_url url) eqn:Ht; cbn [rbind]; [done| |done]. revert Ht. unfold truncate_url. by repeat case_match.
Qed.
Lemma violated_cons b l : violated (b :: l) = (violated [b] + violated l)%nat.
Proof. by destruct b. Qed.
Lemma when_length b f : length (when b f) = violated [negb b].
Proof. by destruct b. Qed.
Definition config_urls (c : Config) : list string := [database_url c; redis_url c; soroban_rpc_url c; base_url c].
(** The faults, in number. *)
Lemma faults_counted c :
  match config_faults to_lowercase c with
  | Ok l => length l = violated (config_rules c)
  | Err _ => False
  | Panic => ∃ url, url ∈ config_urls c ∧ truncate_url url = Panic
  end.
Proof.
  unfold config_faults, config_rules.
  pose proof (url_faults (database_url c) ["postgres://"; "postgresql://"] DatabaseUrlEmpty DatabaseUrlScheme) as H1.
  pose proof (url_faults (redis_url c) ["redis://"; "rediss://"] RedisUrlEmpty RedisUrlScheme) as H2.
  pose proof (url_faults (soroban_rpc_url c) ["http://"; "https://"] SorobanUrlEmpty SorobanUrlScheme) as H3.
  pose proof (url_faults (base_url c) ["http://"; "https://"] BaseUrlEmpty BaseUrlScheme) as H4.
  assert (H5 : length (if blank (jwt_secret c) then [JwtSecretMissing]
      else when (bytes_of (jwt_secret c) <? JWT_SECRET_MIN_BYTES) (JwtSecretShort (bytes_of (jwt_secret c)))) =
    violated [negb (blank (jwt_secret c)) && (JWT_SECRET_MIN_BYTES <=? bytes_of (jwt_secret c))]).
  { destruct (blank _); [done|]. rewrite when_length. by rewrite Z.leb_antisym. }
  assert (H6 : length (if db_max_connections c =? 0 then [PoolZero]
      else when (db_max_connections c <? db_min_connections c) (PoolMinAboveMax (db_min_connections c) (db_max_connections c))) =
    violated [negb (db_max_connections c =? 0) && (db_min_connections c <=? db_max_connections c)]).
  { destruct (_ =? 0); [done|]. rewrite when_length. by rewrite Z.leb_antisym. }
  destruct (url_fault (database_url c) _ _ _) as [l1| |]; cbn [rbind]; [|done|by eexists; split; [|exact H1]; set_solver].
  destruct (url_fault (redis_url c) _ _ _) as [l2| |]; cbn [rbind]; [|done|by eexists; split; [|exact H2]; set_solver].
  destruct (url_fault (soroban_rpc_url c) _ _ _) as [l3| |]; cbn [rbind]; [|done|by eexists; split; [|exact H3]; set_solver].
  destruct (url_fault (base_url c) _ _ _) as [l4| |]; cbn [rbind]; [|done|by eexists; split; [|exact H4]; set_solver].
  rewrite !length_app, H1, H2, H3, H4, H5, H6, !when_length, negb_involutive.
  do 9 rewrite (violated_cons _ (_ :: _)). lia.
Qed.
Lemma violated_none l : violated l = 0%nat ↔ Forall (λ b, b = true) l.
Proof.
  induction l as [|b l IH]; [done|]. rewrite violated_cons, Forall_cons, <- IH. destruct b; cbn; [tauto|]. split; [done|]. by intros [? _].
Qed.

(** The configuration is accepted when all rules hold, and otherwise all that are
    broken are reported at once, one fault for each; unless the address of a
    service is of the wrong kind and has a character across its fortieth byte, on
    which reporting traps. *)
Theorem config_validated c :
  match validate_config to_lowercase c with
  | Ok _ => Forall (λ b, b = true) (config_rules c)
  | Err e => length (ce_errors e) = violated (config_rules c) ∧ ¬ Forall (λ b, b = true) (config_rules c)
  | Panic => ∃ url, url ∈ config_urls c ∧ truncate_url url = Panic
  end.
Proof.
  unfold validate_config. pose proof (faults_counted c) as Hf. destruct (config_faults to_lowercase c) as [l| |]; cbn [rbind]; [|done|done].
  destruct l as [|f l]; cbn in Hf; [by apply violated_none|]. split; [done|]. rewrite <- violated_none. cbn. lia.
Qed.

(** ** Starting: [main] exits when a step fails *)
Variable header_value : string → bool.
Definition startup (env : environment) : option (Config * CorsLayer * bool) :=
  match from_env env with
  | Ok c =>
      match validate_config to_lowercase c with
      | Ok _ =>
          match create_cors_layer header_value env with
          | Ok cors => Some (c, cors, include_hsts to_lowercase env)
          | _ => None
          end
      | _ => None
      end
  | _ => None
  end.
Lemma parse_uint_range max s n : parse_uint max s = Some n → 0 ≤ n ≤ max.
Proof.
  assert (Hd : ∀ l acc m, 0 ≤ acc → parse_digits l acc = Some m → 0 ≤ m).
  { induction l as [|b l IH]; intros acc m Ha; cbn; [by intros [= <-]|].
    destruct ((48 <=? b) && (b <=? 57)) eqn:Hb; [|done]. apply IH. apply andb_prop in Hb as [? ?]. lia. }
  unfold parse_uint. set (digits := match as_bytes s with 43 :: l => l | l => l end). destruct digits as [|b l] eqn:El; [done|].
  intros Hp. apply bind_Some in Hp as (m & Hm & Hp). apply Hd in Hm; [|done]. case_match; simplify_eq. lia.
Qed.
Lemma number_or_range env name max value : 0 ≤ value ≤ max → 0 ≤ number_or env name max value ≤ max.
Proof.
  intros Hv. unfold number_or. destruct (env !! name) as [s|]; [|done]. cbn. destruct (parse_uint max s) as [n|] eqn:Hp; [|done].
  by apply parse_uint_range in Hp.
Qed.
Definition absolute (o : string) : bool := starts_with "http://" o || starts_with "https://" o.
(** The origins: listed ones only, each an address of the web; any, only when none is listed. *)
Lemma origins_built s origins : validate_and_build_origins header_value s true = Ok origins →
  match origins with
  | AnyOrigin => origins_of s = []
  | OriginList l => l ≠ [] ∧ l = origins_of s ∧ ∀ o, o ∈ l → absolute o = true ∧ header_value o = true
  end.
Proof.
  unfold validate_and_build_origins. rewrite andb_true_r. destruct (existsb _ _); [done|].
  assert (Hall : omap (origin_fault header_value) (origins_of s) = [] → ∀ o, o ∈ origins_of s → origin_fault header_value o = None).
  { intros Hn o Ho. destruct (origin_fault header_value o) as [f|] eqn:Hf; [|done].
    assert (Hin : f ∈ omap (origin_fault header_value) (origins_of s)) by (apply list_elem_of_omap; eauto). rewrite Hn in Hin.
    by apply not_elem_of_nil in Hin. }
  destruct (omap _ _) eqn:He; [|done]. specialize (Hall eq_refl).
  assert (Hl : List.filter (λ o, bool_decide (origin_fault header_value o = None)) (origins_of s) = origins_of s).
  { induction (origins_of s) as [|o l IH]; [done|]. cbn. rewrite bool_decide_eq_true_2 by (apply Hall; left). f_equal. apply IH.
    - cbn in He. by rewrite (Hall o) in He by left.
    - intros o' Ho. apply Hall. by right. }
  rewrite Hl. destruct (origins_of s) as [|o l] eqn:Hs; intros [= <-]; [done|]. split_and!; [done|done|].
  intros o' Ho. specialize (Hall o' Ho). unfold origin_fault, absolute in *. destruct (starts_with "http://" o'), (starts_with "https://" o'), (header_value o'); done.
Qed.
End Started.

(** ** Examples *)
Definition development_env : environment :=
  {[ "DATABASE_URL" := "postgres://agora@localhost/agora"; "JWT_SECRET" := "0123456789abcdef0123456789abcdef";
     "RUST_ENV" := "production"; "CORS_ALLOWED_ORIGINS" := "https://agora.events, https://app.agora.events" ]}.
Definition lower_id (s : string) : string := s.
(** A list of origins with nothing in it is not empty for the first check, and
    stands for any origin in the second, although credentials are allowed. *)
Lemma comma_is_any :
  (λ r, (cl_origins r.1.2, cl_credentials r.1.2)) <$> startup lower_id (λ _, true) (<["CORS_ALLOWED_ORIGINS" := ","]> development_env)
  = Some (AnyOrigin, true).
Proof. by vm_compute. Qed.
(** A port that is no number of sixteen bits is replaced in silence. *)
Lemma port_replaced : (λ r, port r.1.1) <$> startup lower_id (λ _, true) (<["PORT" := "70000"]> development_env) = Some 3001.
Proof. by vm_compute. Qed.
(** An origin with a path is taken, though no browser sends one. *)
Lemma path_accepted : validate_and_build_origins (λ _, true) "https://agora.events/app" true = Ok (OriginList ["https://agora.events/app"]).
Proof. by vm_compute. Qed.
(** The report of a wrong address traps within a character, and shows the
    password of an address that is short enough. *)
Lemma report_traps : truncate_url "mysql://user:pw@a-host-with-a-long-nameéé" = Panic ∧
  truncate_url "mysql://root:secret@db/agora" = Ok "mysql://root:secret@db/agora".
Proof. by vm_compute. Qed.
