(* ===== verification/SrvDisputes.v ===== *)
(** * The server: disputes

    [handlers/governance.rs] and [models/dispute.rs]: disputes about events that
    ended, the votes on them and their resolution.  Every statement is one
    command; they are not joined in transactions. *)

From Stdlib Require Import QArith Qround Lqa.
From stdpp Require Import pretty.
From S2P Require Import Prelude Machine Float Prog SrvErrors SrvPages.
From S2P Require Import SrvListing SrvProfile.
#[local] Open Scope Z_scope.

Record Dispute : Type := MkDispute {
  d_id : Z; d_event_id : Z; d_opened_by : Z; d_status : string; d_closes_at : Z; d_resolved_at : option Z; d_ruling : option string;
  d_total_eligible : Z; d_buyer_votes : Z; d_organizer_votes : Z; d_created_at : Z; d_updated_at : Z
}.
#[export] Instance eta_Dispute : Eta Dispute := λ d,
  MkDispute (d_id d) (d_event_id d) (d_opened_by d) (d_status d) (d_closes_at d) (d_resolved_at d) (d_ruling d)
    (d_total_eligible d) (d_buyer_votes d) (d_organizer_votes d) (d_created_at d) (d_updated_at d).
Record MediationVote : Type := MkVote { v_id : Z; v_dispute_id : Z; v_voter_id : Z; v_vote : string; v_voted_at : Z }.
Record DisputeFilters : Type := MkFilters {
  df_event_id : option Z; df_status : option string; df_page : option Z; df_page_size : option Z
}.
Record OpenDisputeRequest : Type := MkOpen { od_event_id : Z; od_opened_by : Z }.
Record CastVoteRequest : Type := MkCast { cv_voter_id : Z; cv_vote : string }.
Record DisputeDb : Type := MkDisputeDb {
  disputes : gmap Z Dispute;
  votes : gmap (Z * Z) MediationVote;              (** unique by dispute and voter *)
  dd_events : gmap Z (option Z);                   (** [end_time] *)
  dd_users : gset Z;
  dd_tiers : list (Z * Z)                          (** event, [total_quantity] *)
}.
#[export] Instance eta_DisputeDb : Eta DisputeDb := λ d, MkDisputeDb (disputes d) (votes d) (dd_events d) (dd_users d) (dd_tiers d).
Inductive gov_cmd : Type → Type :=
| SelectDisputes (event : option Z) (status : option string) (limit offset : Z) : gov_cmd (list Dispute)
| SelectDispute (id : Z) : gov_cmd (option Dispute)
| SelectEnded (event : Z) : gov_cmd (res SqlxError (option bool))
| SumQuantity (event : Z) : gov_cmd (res SqlxError Z)
| InsertDispute (event opened_by total : Z) : gov_cmd (res SqlxError Dispute)
| HasVoted (dispute voter : Z) : gov_cmd bool
| InsertVote (dispute voter : Z) (vote : string) : gov_cmd (res SqlxError MediationVote)
| SetVoting (dispute : Z) : gov_cmd unit
| AddVote (dispute : Z) (buyer : bool) : gov_cmd (res SqlxError unit)
| GovNow : gov_cmd Z
| Resolve (dispute : Z) (status ruling : string) : gov_cmd (res SqlxError Dispute)
| SelectVotes (dispute : Z) : gov_cmd (list MediationVote).
(** The time, a UUID that the database draws, and whether it answers. *)
Record GovEnv : Type := MkGovEnv { g_now : Z; g_uuid : Z; g_db : bool }.
Definition newest_dispute (a b : Dispute) : Prop := d_created_at b ≤ d_created_at a.
#[export] Instance newest_dispute_dec : RelDecision newest_dispute.
Proof. intros a b. unfold newest_dispute. apply _. Defined.
Definition newest_vote (a b : MediationVote) : Prop := v_voted_at b ≤ v_voted_at a.
#[export] Instance newest_vote_dec : RelDecision newest_vote.
Proof. intros a b. unfold newest_vote. apply _. Defined.
Definition unexpected_null : SqlxError := SqlxOther "unexpected null; try decoding as an `Option`".
Definition total_quantity_type : pg_type := Int4.
Definition reads_i32 (t : pg_type) : bool := match t with Int4 => true | _ => false end.
Definition votes_on (db : DisputeDb) (d : Z) : list MediationVote := (filter (λ p, p.1.1 = d) (map_to_list (votes db))).*2.
Definition int4_overflow : SqlxError := SqlxDatabase false false "integer out of range".
Definition gov_exec (env : GovEnv) {R} (c : gov_cmd R) (db : DisputeDb) : option (R * DisputeDb) :=
  match c in gov_cmd R return option (R * DisputeDb) with
  | SelectDisputes event status limit offset =>
      Some (sql_page limit offset (merge_sort newest_dispute
        (List.filter (λ d, match event with Some e => d_event_id d =? e | None => true end &&
                           match status with Some s => String.eqb (d_status d) s | None => true end)
           (map_to_list (disputes db)).*2)), db)
  | SelectDispute i => Some (disputes db !! i, db)
  | SelectEnded e =>
      Some (match dd_events db !! e with
            | None => Ok None
            | Some None => Err unexpected_null
            | Some (Some t) => Ok (Some (t <? g_now env))
            end, db)
  | SumQuantity e =>
      Some (if reads_i32 (sum_type total_quantity_type)
            then Ok (foldr Z.add 0 (filter (λ t, t.1 = e) (dd_tiers db)).*2)
            else Err mismatched_types, db)
  | InsertDispute e by_ total =>
      Some (if decide (is_Some (disputes db !! g_uuid env)) then (Err unique_violation, db)
            else if decide (dd_events db !! e = None ∨ by_ ∉ dd_users db) then (Err foreign_key_violation, db)
            else let d := MkDispute (g_uuid env) e by_ "open" (g_now env + 7 * 86400000) None None total 0 0 (g_now env) (g_now env) in
                 (Ok d, db ⟨ disputes ::= <[g_uuid env := d]> ⟩))
  | HasVoted d v => Some (bool_decide (is_Some (votes db !! (d, v))), db)
  | InsertVote d v vote =>
      Some (if decide (is_Some (votes db !! (d, v))) then (Err unique_violation, db)
            else if decide (disputes db !! d = None ∨ v ∉ dd_users db) then (Err foreign_key_violation, db)
            else let row := MkVote (g_uuid env) d v vote (g_now env) in (Ok row, db ⟨ votes ::= <[(d, v) := row]> ⟩))
  | SetVoting d => Some (tt, db ⟨ disputes ::= alter (λ r, r ⟨ d_status := "voting" ⟩) d ⟩)
  | AddVote d buyer =>
      Some (match disputes db !! d with
            | None => (Ok tt, db)
            | Some r =>
                if (if buyer then d_buyer_votes r else d_organizer_votes r) =? 2 ^ 31 - 1 then (Err int4_overflow, db)
                else (Ok tt, db ⟨ disputes ::= <[d := if buyer then r ⟨ d_buyer_votes ::= Z.add 1 ⟩
                                                      else r ⟨ d_organizer_votes ::= Z.add 1 ⟩]> ⟩)
            end)
  | GovNow => Some (g_now env, db)
  | Resolve d status ruling =>
      Some (match disputes db !! d with
            | None => (Err (SqlxOther "no rows returned"), db)
            | Some r =>
                let r := r ⟨ d_status := status ⟩ ⟨ d_ruling := Some ruling ⟩ ⟨ d_resolved_at := Some (g_now env) ⟩ in
                (Ok r, db ⟨ disputes ::= <[d := r]> ⟩)
            end)
  | SelectVotes d => Some (merge_sort newest_vote (votes_on db d), db)
  end.
Definition gov_step_at (env : GovEnv) (R : Type) (c : gov_cmd R) (db : DisputeDb) : option (R * DisputeDb) :=
  match c with
  | GovNow => gov_exec env c db
  | _ => if g_db env then gov_exec env c db else None
  end.
Abbreviation gov_prog := (prog gov_cmd AppError).
Definition answered {A R} (r : res SqlxError R) (k : R → gov_prog A) : gov_prog A :=
  match r with Ok x => k x | Err e => ret (Err (DatabaseError e)) | Panic => ret Panic end.

(** ** The handlers *)
(** [(page - 1) * page_size] on [u32]; with overflow checks it traps. *)
Definition page_offset (checks : bool) (page page_size : Z) : res AppError Z :=
  let x := (page - 1) * page_size in
  if x <? 2 ^ 32 then Ok x else if checks then Panic else Ok (x mod 2 ^ 32).
Definition list_disputes (checks : bool) (params : DisputeFilters) : gov_prog (list Dispute) :=
  let page := Z.max 1 (default 1 (df_page params)) in
  let page_size := Z.max 1 (Z.min 100 (default 20 (df_page_size params))) in
  let* offset := ret (page_offset checks page page_size) in
  let!? rows := SelectDisputes (df_event_id params) (df_status params) page_size offset in
  ret (Ok rows).
Definition no_dispute (id : Z) : AppError := NotFound ("Dispute with id '" +:+ uuid_text id +:+ "' not found").
Definition load_dispute (id : Z) : gov_prog Dispute :=
  let!? row := SelectDispute id in
  ret (ok_or row (no_dispute id)).
Definition get_dispute (id : Z) : gov_prog Dispute := load_dispute id.
Definition open_dispute (payload : OpenDisputeRequest) : gov_prog Dispute :=
  let!? r := SelectEnded (od_event_id payload) in
  answered r (λ row,
    let* event_ended := ret (ok_or row (NotFound ("Event with id '" +:+ uuid_text (od_event_id payload) +:+ "' not found"))) in
    let* _ := ret (fail_if (negb event_ended) (ValidationError "Cannot open a dispute for an event that has not ended")) in
    let!? r := SumQuantity (od_event_id payload) in
    answered r (λ total_eligible,
      let!? r := InsertDispute (od_event_id payload) (od_opened_by payload) total_eligible in
      answered r (λ d, ret (Ok d)))).
Definition closed_status (s : string) : bool := String.eqb s "resolved_buyer" || String.eqb s "resolved_organizer".
Definition cast_vote (dispute_id : Z) (payload : CastVoteRequest) : gov_prog MediationVote :=
  let* _ := ret (fail_if (negb (String.eqb (cv_vote payload) "buyer_favor") && negb (String.eqb (cv_vote payload) "organizer_favor"))
                   (ValidationError "Vote must be either 'buyer_favor' or 'organizer_favor'")) in
  let* dispute := load_dispute dispute_id in
  let* _ := ret (fail_if (closed_status (d_status dispute) || String.eqb (d_status dispute) "expired")
                   (ValidationError "Cannot vote on a resolved or expired dispute")) in
  let!? existing := HasVoted dispute_id (cv_voter_id payload) in
  let* _ := ret (fail_if existing (Conflict "Voter has already cast a vote on this dispute")) in
  let!? r := InsertVote dispute_id (cv_voter_id payload) (cv_vote payload) in
  answered r (λ vote,
    let counting :=
      let!? r := AddVote dispute_id (String.eqb (cv_vote payload) "buyer_favor") in
      answered r (λ _, ret (Ok vote)) in
    if String.eqb (d_status dispute) "open" then let!? _ := SetVoting dispute_id in counting else counting).
(** [(n as f64 * 0.30).ceil() as i32] *)
Definition thirty_percent : Q := 5404319552844595 # 18014398509481984.
Definition quorum_threshold (total_eligible : Z) : Z := Qceiling (fmul (of_int total_eligible) thirty_percent).
Definition ruling_of (d : Dispute) : string * string :=
  if quorum_threshold (d_total_eligible d) <? d_buyer_votes d then ("buyer_favor", "resolved_buyer")
  else ("organizer_favor", "resolved_organizer").
Definition resolve_dispute (dispute_id : Z) : gov_prog Dispute :=
  let* dispute := load_dispute dispute_id in
  let* _ := ret (fail_if (closed_status (d_status dispute)) (Conflict "Dispute has already been resolved")) in
  let* _ := ret (fail_if (String.eqb (d_status dispute) "expired") (ValidationError "Cannot resolve an expired dispute")) in
  Call GovNow (λ now,
    let* _ := ret (fail_if (d_closes_at dispute <? default 0 now) (ValidationError "Voting period for this dispute has expired")) in
    let!? r := Resolve dispute_id (ruling_of dispute).2 (ruling_of dispute).1 in
    answered r (λ d, ret (Ok d))).
Definition get_dispute_votes (dispute_id : Z) : gov_prog (list MediationVote) :=
  let!? rows := SelectVotes dispute_id in
  ret (Ok rows).

(** ** The quorum *)
Lemma ceiling_between x m : (inject_Z (m - 1) < x)%Q → (x <= inject_Z m)%Q → Qceiling x = m.
Proof.
  intros H1 H2. pose proof (Qle_ceiling x). pose proof (Qceiling_lt x) as H4.
  assert (A : (inject_Z (m - 1) < inject_Z (Qceiling x))%Q) by lra. rewrite <- Zlt_Qlt in A.
  assert (B : (inject_Z (Qceiling x - 1) < inject_Z m)%Q) by lra. rewrite <- Zlt_Qlt in B. lia.
Qed.
(** The quorum is computed in doubles, from a constant a little below 0.3: it is
    three tenths of the tickets, rounded up, for every number of tickets that the
    column can hold. *)
Theorem quorum_exact n : 0 ≤ n < 2 ^ 31 → quorum_threshold n = (3 * n + 9) / 10.
Proof.
  intros Hn. unfold quorum_threshold, fmul. set (m := (3 * n + 9) / 10).
  assert (Hm : 3 * n ≤ 10 * m ≤ 3 * n + 9) by (unfold m; pose proof (Z.div_mod (3 * n + 9) 10 ltac:(lia)); pose proof (Z.mod_pos_bound (3 * n + 9) 10 ltac:(lia)); lia).
  assert (En : (of_int n == inject_Z n)%Q) by (apply rnd_Z; lia). rewrite En.
  assert (Qn : (0 <= inject_Z n <= 2147483648)%Q).
  { split; [change 0%Q with (inject_Z 0)|change 2147483648%Q with (inject_Z (2 ^ 31))]; rewrite <- Zle_Qle; lia. }
  assert (Q1 : (3 * inject_Z n <= 10 * inject_Z m)%Q).
  { change 3%Q with (inject_Z 3). change 10%Q with (inject_Z 10). rewrite <- !inject_Z_mult, <- Zle_Qle. lia. }
  assert (Q2 : (10 * inject_Z m <= 3 * inject_Z n + 9)%Q).
  { change 3%Q with (inject_Z 3). change 10%Q with (inject_Z 10). change 9%Q with (inject_Z 9).
    rewrite <- !inject_Z_mult, <- inject_Z_plus, <- Zle_Qle. lia. }
  assert (Hq0 : (0 <= inject_Z n * thirty_percent)%Q) by (unfold thirty_percent; nra).
  apply ceiling_between.
  - pose proof (rnd_error _ Hq0) as [Hlo _]. change (pow2 (-53)) with (1 # 9007199254740992)%Q in Hlo. unfold Z.sub. rewrite inject_Z_plus.
    change (inject_Z (- (1))) with (-1)%Q. set (x := rnd _) in *. unfold thirty_percent in Hlo. clearbody x. lra.
  - apply rnd_le_Z; [lia|]. unfold thirty_percent. lra.
Qed.

(** ** Resolution *)
Definition resolved_row (now : Z) (d : Dispute) : Dispute :=
  if (3 * d_total_eligible d + 9) / 10 <? d_buyer_votes d
  then d ⟨ d_status := "resolved_buyer" ⟩ ⟨ d_ruling := Some "buyer_favor" ⟩ ⟨ d_resolved_at := Some now ⟩
  else d ⟨ d_status := "resolved_organizer" ⟩ ⟨ d_ruling := Some "organizer_favor" ⟩ ⟨ d_resolved_at := Some now ⟩.
(** C27. A resolution that is alone: it rules for the buyer exactly when more than
    three tenths of the tickets, rounded up, voted so; it is refused when the
    dispute is unknown, resolved, expired or past its end, and changes nothing
    then. *)
Theorem resolve_correct env db i : g_db env = true →
  (∀ d, disputes db !! i = Some d → 0 ≤ d_total_eligible d < 2 ^ 31) →
  prun (gov_step_at env) (resolve_dispute i) db =
  match disputes db !! i with
  | None => (Err (no_dispute i), db)
  | Some d =>
      if closed_status (d_status d) then (Err (Conflict "Dispute has already been resolved"), db)
      else if String.eqb (d_status d) "expired" then (Err (ValidationError "Cannot resolve an expired dispute"), db)
      else if d_closes_at d <? g_now env then (Err (ValidationError "Voting period for this dispute has expired"), db)
      else (Ok (resolved_row (g_now env) d), db ⟨ disputes ::= <[i := resolved_row (g_now env) d]> ⟩)
  end.
Proof.
  intros Hdb Ht. unfold resolve_dispute, load_dispute. cbn. rewrite Hdb. cbn. destruct (disputes db !! i) as [d|] eqn:Hd; [|done].
  specialize (Ht d eq_refl). cbn. destruct (closed_status _); [done|]. cbn. destruct (String.eqb _ _); [done|]. cbn.
  destruct (d_closes_at d <? g_now env); [done|]. cbn. rewrite Hdb. cbn. rewrite Hd. unfold ruling_of, resolved_row.
  rewrite quorum_exact by done. by destruct (_ <? _).
Qed.

(** ** The tallies *)
Definition in_favor (i : Z) (buyer : bool) (p : Z * Z * MediationVote) : bool :=
  (p.1.1 =? i) && Bool.eqb (String.eqb (v_vote p.2) "buyer_favor") buyer.
Definition cast_for (db : DisputeDb) (i : Z) (buyer : bool) : Z :=
  Z.of_nat (length (filter (λ p, in_favor i buyer p = true) (map_to_list (votes db)))).
Definition tally_of (d : Dispute) (buyer : bool) : Z := if buyer then d_buyer_votes d else d_organizer_votes d.
(** Each tally is at most the number of votes of its kind; with [Some (j, side)],
    there is a vote that is not counted yet. *)
Definition tally_within (extra : option (Z * bool)) (db : DisputeDb) : Prop :=
  ∀ i d buyer, disputes db !! i = Some d → tally_of d buyer + (if decide (extra = Some (i, buyer)) then 1 else 0) ≤ cast_for db i buyer.
Definition tallies_ok : DisputeDb → Prop := tally_within None.
Lemma within_ok extra db : tally_within extra db → tallies_ok db.
Proof. intros Ht i d b Hd. pose proof (Ht i d b Hd). case_decide; case_decide; simplify_eq; lia. Qed.
Lemma cast_for_insert db d v row i b : votes db !! (d, v) = None →
  cast_for (db ⟨ votes ::= <[(d, v) := row]> ⟩) i b = cast_for db i b + (if in_favor i b (d, v, row) then 1 else 0).
Proof.
  intros Hn. unfold cast_for. cbn. rewrite (map_to_list_insert _ _ _ Hn), filter_cons. destruct (in_favor i b (d, v, row)) eqn:E;
    case_decide; try congruence; cbn [length]; lia.
Qed.
Lemma same_votes db db' extra : votes db' = votes db →
  (∀ i d', disputes db' !! i = Some d' → ∃ d, disputes db !! i = Some d ∧ ∀ b, tally_of d' b = tally_of d b) →
  tally_within extra db → tally_within extra db'.
Proof.
  intros Hv Hd Ht i d' b Hi. destruct (Hd i d' Hi) as (d & Hd' & ->). unfold cast_for. rewrite Hv. by apply Ht.
Qed.
Lemma insert_vote_within db d v vote row : votes db !! (d, v) = None → v_vote row = vote →
  tallies_ok db → tally_within (Some (d, String.eqb vote "buyer_favor")) (db ⟨ votes ::= <[(d, v) := row]> ⟩).
Proof.
  intros Hn Hv Ht i r b Hi. rewrite cast_for_insert by done. pose proof (Ht i r b Hi) as H. rewrite decide_False in H by done.
  unfold in_favor. cbn. rewrite Hv. case_decide as Hc; [|case_match; lia]. injection Hc as -> <-. rewrite Z.eqb_refl, Bool.eqb_reflx. cbn. lia.
Qed.
Lemma add_vote_within db d r buyer : disputes db !! d = Some r → tally_within (Some (d, buyer)) db →
  tallies_ok (db ⟨ disputes ::= <[d := if buyer then r ⟨ d_buyer_votes ::= Z.add 1 ⟩ else r ⟨ d_organizer_votes ::= Z.add 1 ⟩]> ⟩).
Proof.
  intros Hd Ht i r' b Hi. cbn in Hi. rewrite decide_False by done. change (cast_for _ i b) with (cast_for db i b).
  apply lookup_insert_Some in Hi as [[<- <-]|[Hn Hi]].
  - pose proof (Ht d r b Hd) as H. destruct buyer, b; cbn in *; case_decide; simplify_eq; lia.
  - pose proof (Ht i r' b Hi) as H. case_decide; simplify_eq; lia.
Qed.

Inductive gov_request : gov_prog unit → Prop :=
| RqList checks f : gov_request (forget (list_disputes checks f))
| RqDispute i : gov_request (forget (get_dispute i))
| RqOpen p : gov_request (forget (open_dispute p))
| RqVote i p : gov_request (forget (cast_vote i p))
| RqResolve i : gov_request (forget (resolve_dispute i))
| RqVotes i : gov_request (forget (get_dispute_votes i)).
Definition gov_served (db db' : DisputeDb) : Prop := ∃ p out, gov_request p ∧ runs gov_step_at p db out db'.
(** Steps other than those of a vote. *)
Definition votes_aside {R} (c : gov_cmd R) : bool := match c with InsertVote _ _ _ | AddVote _ _ => false | _ => true end.
Lemma aside_step v R (c : gov_cmd R) db r db' extra : votes_aside c → gov_step_at v R c db = Some (r, db') →
  tally_within extra db → (extra = None ∨ match c with InsertDispute _ _ _ => False | _ => True end) → tally_within extra db'.
Proof.
  intros Hc Hs Ht Hx. assert (Hs' : gov_exec v c db = Some (r, db')) by (unfold gov_step_at in Hs; destruct c, (g_db v); done).
  clear Hs. destruct c; try done; cbn in Hs'; simplify_eq; try done.
  - destruct Hx as [-> |[]]. repeat case_decide; simplify_eq; try done. intros i d b Hi. cbn in Hi.
    apply lookup_insert_Some in Hi as [[<- <-]|[Hn Hi]]; [|by apply (Ht i d b)]. rewrite decide_False by done.
    unfold tally_of, cast_for. cbn. destruct b; lia.
  - eapply same_votes, Ht; [done|]. cbn. intros i d' Hi. apply lookup_alter_Some in Hi as [(-> & d & Hd & ->)|[_ Hi]]; [|by exists d'].
    exists d. split; [done|]. by intros [].
  - destruct (disputes db !! dispute) as [d|] eqn:Hd; simplify_eq; [|done]. eapply same_votes, Ht; [done|]. cbn. intros i d' Hi.
    apply lookup_insert_Some in Hi as [[<- <-]|[_ Hi]]; [|by exists d']. exists d. split; [done|]. by intros [].
Qed.
Lemma aside_runs {A} (p : gov_prog A) db out db' : only (λ R c, votes_aside c = true) p → runs gov_step_at p db out db' →
  tallies_ok db → tallies_ok db'.
Proof.
  revert db. induction p as [r|R c k IH]; intros db Hp; [by intros [_ <-]|]. destruct Hp as [Hc Hk]. intros [v Hr] Ht.
  destruct (gov_step_at v R c db) as [[x db1]|] eqn:Hs; [|by eapply IH].
  eapply IH; [done|done|]. eapply aside_step; [by rewrite Hc|done|done|by left].
Qed.
(** The steps of a vote that was inserted. *)
Lemma counting_runs i side (vote : MediationVote) db out db' : tally_within (Some (i, side)) db →
  runs gov_step_at (call_or db_failed (AddVote i side) (λ r, answered r (λ _, ret (Ok vote)))) db out db' → tallies_ok db'.
Proof.
  intros Ht [v Hr]. pose proof (within_ok _ _ Ht) as Hok. unfold gov_step_at in Hr. destruct (g_db v); [|by destruct Hr as [_ <-]].
  cbn in Hr. destruct (disputes db !! i) as [r|] eqn:Hd; [|by destruct Hr as [_ <-]].
  destruct (_ =? _); [by destruct Hr as [_ <-]|]. destruct Hr as [_ <-]. by apply add_vote_within.
Qed.
Lemma cast_vote_runs i p db out db' : runs gov_step_at (cast_vote i p) db out db' → tallies_ok db → tallies_ok db'.
Proof.
  intros Hr Ht. unfold cast_vote in Hr. destruct (fail_if _ _) as [[]| |]; cbn [bind] in Hr; [|by destruct Hr as [_ <-]..].
  apply runs_bind in Hr as (r & db1 & Hl & Hr). assert (H1 : db1 = db).
  { destruct Hl as [v Hl]. unfold gov_step_at in Hl. destruct (g_db v); cbn in Hl; by destruct Hl as [_ <-]. }
  subst db1. destruct r as [d| |]; [|by destruct Hr as [_ <-]..].
  destruct (fail_if _ _) as [[]| |]; cbn [bind] in Hr; [|by destruct Hr as [_ <-]..].
  destruct Hr as [v Hr]. unfold gov_step_at in Hr. destruct (g_db v); [|by destruct Hr as [_ <-]]. cbn [gov_exec] in Hr.
  destruct (fail_if _ _) as [[]| |]; cbn [bind] in Hr; [|by destruct Hr as [_ <-]..].
  destruct Hr as [v2 Hr]. unfold gov_step_at in Hr. destruct (g_db v2); [|by destruct Hr as [_ <-]]. cbn [gov_exec] in Hr.
  destruct (decide (is_Some _)) as [|Hn]; [by destruct Hr as [_ <-]|]. destruct (decide (_ ∨ _)); [by destruct Hr as [_ <-]|].
  apply eq_None_not_Some in Hn. cbn [answered] in Hr.
  set (row := MkVote _ _ _ _ _) in Hr. pose proof (insert_vote_within db i (cv_voter_id p) (cv_vote p) row Hn eq_refl Ht) as Hw.
  destruct (String.eqb (d_status d) "open"); [|by eapply counting_runs].
  destruct Hr as [v3 Hr]. destruct (g_db v3) eqn:E3; [|destruct Hr as [_ <-]; by eapply within_ok].
  eapply counting_runs; [|exact Hr]. eapply (aside_step v3 _ (SetVoting i)); [done| |exact Hw|by right].
  unfold gov_step_at. rewrite E3. reflexivity.
Qed.
(** No tally exceeds the votes cast.  Serve any requests, one after the other, any
    statement failing: the votes that a dispute counts for a side are at most the
    votes that were recorded for that side, of one voter each. *)
Theorem tallies_bounded db db' : tallies_ok db → rtc gov_served db db' → tallies_ok db'.
Proof.
  intros Ht Hr. induction Hr as [|db1 db2 db3 (p & out & Hp & Hr) _ IH]; [done|]. apply IH. clear IH.
  destruct Hp as [checks f|i|p|i p|i|i]; apply runs_forget in Hr as [r Hr]; [eapply aside_runs, Ht|eapply aside_runs, Ht|eapply aside_runs, Ht|by eapply cast_vote_runs|eapply aside_runs, Ht|eapply aside_runs, Ht];
    try exact Hr; unfold list_disputes, get_dispute, load_dispute, open_dispute, resolve_dispute, get_dispute_votes, answered;
    unfold load_dispute; only_tac; done.
Qed.

(** ** Examples *)
Definition gov_noon : GovEnv := MkGovEnv 1000 7 true.
Definition pending_dispute : Dispute := MkDispute 7 1 2 "voting" 5000 None None 100 30 50 0 0.
Definition one_dispute : DisputeDb := MkDisputeDb {[ 7 := pending_dispute ]} ∅ {[ 1 := Some 10 ]} {[ 2; 3 ]} [(1, 100)].
Definition fresh_dispute : DisputeDb :=
  one_dispute ⟨ disputes := {[ 7 := pending_dispute ⟨ d_status := "open" ⟩ ⟨ d_buyer_votes := 0 ⟩ ⟨ d_organizer_votes := 0 ⟩ ]} ⟩.
Lemma resolve_correct_witness :
  prun (gov_step_at gov_noon) (resolve_dispute 7) one_dispute =
    (Ok (resolved_row 1000 pending_dispute), one_dispute ⟨ disputes ::= <[7 := resolved_row 1000 pending_dispute]> ⟩) ∧
  d_ruling (resolved_row 1000 pending_dispute) = Some "organizer_favor".
Proof.
  split; [|by vm_compute]. rewrite (resolve_correct gov_noon one_dispute 7); [by vm_compute|done|].
  intros d Hd. vm_compute in Hd. injection Hd as <-. vm_compute. intuition congruence.
Defined.
Lemma quorum_exact_witness : 0 ≤ 100 < 2 ^ 31 ∧ quorum_threshold 100 = 30.
Proof. split; [lia|]. apply (quorum_exact 100). lia. Defined.
Definition voted : DisputeDb := (prun (gov_step_at gov_noon) (forget (cast_vote 7 (MkCast 3 "buyer_favor"))) fresh_dispute).2.
Lemma tallies_bounded_witness : tallies_ok fresh_dispute ∧ rtc gov_served fresh_dispute voted ∧ tallies_ok voted ∧
  d_buyer_votes <$> disputes voted !! 7 = Some 1.
Proof.
  assert (Ht : tallies_ok fresh_dispute).
  { intros i d b Hi. cbn in Hi. apply lookup_singleton_Some in Hi as [<- <-]. rewrite decide_False by done. destruct b; vm_compute; discriminate. }
  assert (Hr : rtc gov_served fresh_dispute voted).
  { apply rtc_once. eexists _, _. split; [apply (RqVote 7 (MkCast 3 "buyer_favor"))|]. by apply (prun_runs (gov_step_at gov_noon) gov_step_at gov_noon). }
  split_and!; [done|done|exact (tallies_bounded fresh_dispute voted Ht Hr)|by vm_compute].
Defined.
(** Nobody can open a dispute: the sum of the quantities is not read. *)
Lemma open_refused : (prun (gov_step_at gov_noon) (open_dispute (MkOpen 1 2)) one_dispute).1 = Err (DatabaseError mismatched_types).
Proof. by vm_compute. Qed.
(** A vote that read the dispute before it was resolved takes the resolution back. *)
Lemma resolved_reopened :
  let tasks := [forget (cast_vote 7 (MkCast 3 "buyer_favor")); forget (resolve_dispute 7)] in
  let db := (schedule (gov_step_at gov_noon) [0; 1; 1; 1; 0; 0; 0; 0]%nat (tasks, fresh_dispute)).2 in
  (λ d, (d_status d, d_ruling d)) <$> disputes db !! 7 = Some ("voting", Some "organizer_favor").
Proof. by vm_compute. Qed.
(** After the end of the voting nobody can resolve it. *)
Lemma never_after_the_end :
  (prun (gov_step_at (MkGovEnv 5001 8 true)) (resolve_dispute 7) one_dispute).1 =
  Err (ValidationError "Voting period for this dispute has expired").
Proof. by vm_compute. Qed.
